(* ===== verification/_CoqProject ===== *)
-Q . S2P
Prelude.v
Strings.v
Text.v
Limiter.v
Schema.v
Lease.v
Outbox.v
Queue.v
QueueDrain.v
QueueProps.v
Eligibility.v
DeviceGate.v
Jwt.v
Der.v
DerProps.v
KeyAttest.v
KeyAttestProps.v
AppAttest.v
PlayIntegrity.v
Auth.v
AuthProps.v
Poc.v
PocProps.v
Projection.v
Indexer.v
IndexerRun.v
IndexerProps.v
IndexerClaims.v
DeviceCheck.v
WriterLane.v
WriterTx.v
WriterEngine.v
WriterSpec.v
WriterProps.v
Signature.v
WriterPeople.v
WriterDotns.v
WriterClaims.v
Usernames.v
ChainReads.v
ChainReadProps.v
Search.v
SearchProps.v
Request.v
Registration.v
RegisterProps.v
AndroidProps.v
System.v
Writer.v
Tickets.v
TicketProps.v
TicketClaims.v
Turn.v
TurnProps.v
Notify.v
NotifyProps.v
Config.v
ConfigProps.v
Google.v
WriterRun.v
Routes.v
Routers.v
RouteProps.v
Health.v
Roles.v
Mint.v
ChainTypes.v
ChainClient.v
SingleReads.v
RegistryProps.v
ApiDoc.v
OpenApi.v
ApiPage.v
ApiPageProps.v
PoolLock.v
PoolLockProps.v
States.v
Observe.v
Surface.v
OpenApiProps.v
