(* ===== verification/Prelude.v ===== *)
(** * Device Uniqueness Backend: a verification library

    The repository is the backend that registers one free username per device on
    the People Chain.  Its core is the crate [device-attestation]: an HTTP API
    takes a registration request, checks it, and inserts one row into an outbox
    table; a queue advancer releases waiting rows by balance priority; a chain
    writer, one at a time under a lease, claims due rows, submits them on two
    lanes (People and dotNS), and records what the chain said.  Before that, the
    same API attests the platform of the client (Android key attestation and Play
    Integrity, Apple App Attest) and issues the access and refresh tokens the other
    routes ask for.  All processes meet in one Postgres database.  A second
    service, [username-indexer], follows the chain, keeps a projection of its
    usernames in a database of its own, and serves prefix search over it behind a
    proof-of-compute gate.  Three smaller services stand beside them: [invite-tickets]
    keeps a pool of tickets registered on chain and hands them out, [turn] issues
    relay credentials to holders of a token or of a personhood proof, and
    [notifications] relays pushes to Apple and Google.  They share a rate limiter and
    the way they read their configuration ([http-common]), and the client of the chain
    ([chain-client], [chain-types]).  One binary ([dub]) runs any of them, or all of
    them in one process; an edge in front sends each path to the service that owns it.
    Two generators keep the edge's routes and the API reference in step with the code
    ([routegen], [apidoc-gen]).

    ** How the program is modelled

    A table is a finite map ([Schema.v], record [Db]); a statement is a function
    on [Db], a transaction body runs under [txn], which rolls back all but the id
    sequence.  A statement meets a fate ([DbFate]): acknowledged, refused, or run
    with its acknowledgement lost.  Times are microseconds in [Z], the database's
    clock and the service's are separate arguments.  Machine integers are [Z]
    with the saturation or truncation of the source written out.  Strings are
    byte strings.  Third-party code (hashes, signatures, X.509 and CBOR readers,
    SCALE, base64, JSON, the chain, Apple's and Google's services) is a parameter,
    with documented behaviour as the laws of a class or record where a theorem
    needs it ([ScaleLaws], [AppleLaws], [JwtLaws], [poc_laws], [cursor_laws],
    [ticket_laws], [GovernorLaws], [AxumLaws], [EncoderLaws], [HonestClient],
    [RingLaws], [UtoipaLaws], [EdgeLaws], [FrameworkLaws], [Sqlx], [DebugCrates]).

    ** The files

    - [Prelude.v]: results, tactics, machine integers, clocks, sorting, tables.
    - [Strings.v]: the string and number operations the source uses.
    - [Text.v]: splitting, decimal numbers and the orders of text.
    - [Limiter.v]: the rate limiter ([rate_limiter.rs]) over the governor crate's
      cells, an interface whose bound is shown of a concrete algorithm.
    - [Schema.v]: the tables ([migrations/]), transactions, statement fates.
    - [Lease.v]: the writer lease ([chain/lease.rs]) and the protocol of its
      acquisitions and renewals: a lost lease is lost for good, a takeover fences
      the previous holder, a held lease excludes others.
    - [Outbox.v]: the reservation outbox ([chain/outbox.rs]): inserts, the due
      queries, the lease-fenced status changes, the gauges.
    - [Queue.v], [QueueDrain.v], [QueueProps.v]: the registration queue
      ([queue.rs]).  The drain estimate reported to users is simulated against the
      advancer's promotions on the database; the advancer loop is a machine whose
      events are what its awaited operations did.  Iterations are bounded by the
      number of queued rows, as in the source, and that is shown to be enough.
    - [Eligibility.v]: vouchers ([eligibility.rs]): single use, atomic redemption.
    - [DeviceGate.v]: the Widevine device table, its refinement of a slot state
      machine, the evidence format, the DeviceCheck decision table, single-use
      challenges.
    - [Jwt.v]: token issuer, key set and verifier ([jwt-verify]), and the bearer
      extractor ([http-common/auth.rs]).
    - [Der.v], [DerProps.v]: the strict DER reader and the key-description parser
      ([key_attest/extension.rs]).  Its loop takes as many rounds as the input has
      bytes, which is shown to be enough: the loop satisfies its own equation.
    - [KeyAttest.v], [KeyAttestProps.v]: the certificate chain, the boot and signer
      policy, the revocation-list cache ([auth/key_attest/], [auth/x509.rs]).
    - [AppAttest.v]: attestations and assertions ([auth/app_attest/verify.rs]).
    - [PlayIntegrity.v]: tokens and verdicts ([auth/play_integrity/]).
    - [Auth.v], [AuthProps.v]: the key and refresh tables and the routes that
      register a key, issue a token and refresh it ([auth/token.rs],
      [auth/refresh.rs], [auth/app_attest/store.rs]).
    - [Poc.v], [PocProps.v]: the proof-of-compute gate ([poc/],
      [http/middleware.rs] of [username-indexer]) and the client that mines for it
      ([examples/poc_solve.rs]).  The search for a counter takes fuel; a counter that
      works bounds it.
    - [Projection.v]: decoding of consumers and the projection table
      ([projection.rs], [ss58.rs]).
    - [Indexer.v], [IndexerRun.v]: finalized blocks and the speculative window
      ([incremental.rs]), bootstrap ([bootstrap.rs]), the sync loop and the life of
      the process ([sync.rs], [roles/username_indexer.rs]).  A process is a list of
      turns; the theorems hold for every list.
    - [IndexerProps.v], [IndexerClaims.v]: the invariant of the projection against
      an honest node, and the properties of the indexer.
    - [Search.v], [SearchProps.v]: prefix search ([search.rs]): keys and their order,
      cursors, pages, and what the pages of a walk contain.
    - [DeviceCheck.v]: the client of Apple's service: token cache, bounded retry
      (three retries, the source's constant), fail-closed reading.
    - [WriterLane.v]: outcomes, gates, failure classification, backoffs, batch
      sizing, dispatch events ([chain/writer/lane.rs], [error.rs], [events.rs],
      [chain-client/batch.rs]).
    - [WriterTx.v]: the extrinsics ([tx.rs]).
    - [WriterEngine.v]: the drain of a lane ([engine.rs]) over the interface
      [Lane], in a state and error monad.  The class [World] answers chain reads,
      decides fates, moves the clocks and lets other processes change the database
      between two statements.
    - [WriterSpec.v], [WriterProps.v]: the abstract writer (the step relation
      [wstep]: claim, observe, mark, record with evidence), triples showing that
      every operation of the engine is a run of it, and its properties by rule
      induction, for any lane that satisfies [LaneLaws].
    - [Signature.v]: signed messages ([signature.rs], [dotns.rs]).
    - [WriterPeople.v], [WriterDotns.v]: the two lanes and their laws.
    - [WriterClaims.v]: the properties of the engine on both lanes.
    - [Usernames.v], [Request.v]: name rules, availability, error replies, request
      validation ([usernames.rs], [usernames/]).
    - [ChainReads.v], [ChainReadProps.v]: batched reads of chain storage and what is
      learned from them ([chain-client/storage.rs], [chain/people.rs],
      [chain/asset_hub.rs]), and the shape check of the writer's calls.
    - [Registration.v], [RegisterProps.v]: the registration handler
      ([usernames/register.rs]) in a monad of early returns, and its outcome on
      every branch.
    - [AndroidProps.v]: what an Android registration proves about its device.
    - [System.v]: the statements of the other processes as steps; they satisfy what
      the writer assumes of its environment, so the writer is safe among them.
    - [Writer.v], [WriterRun.v]: the writer process ([chain/writer.rs],
      [chain/writer/passes.rs]): lease polling, startup reconcile, the active loop
      with its periodic passes.  Loops that never end take a number of rounds, and
      the theorem holds for every number.  The two lanes do not harm each other, so
      the guarantees of the drains compose over the life of the process.
    - [Tickets.v], [TicketProps.v], [TicketClaims.v]: invite tickets ([tickets.rs],
      [sign.rs], [http.rs], [pool.rs], [chain.rs]): the claim route and the pool
      maintainer as programs over the ticket table, any number of them interleaved
      statement by statement.  The maintainer's loop takes a number of rounds, and
      the theorems hold for every number.
    - [Turn.v], [TurnProps.v]: TURN credentials ([credentials.rs], [cloudflare.rs],
      [source.rs], [proof/], [http.rs], [http/proof_routes.rs]): the relay's and the
      upstream's credentials, ring roots and their refresher as a machine, and both
      routes.  [RingClient] is the other side ([turn/examples/]): a candidate's
      attestation, its proof of membership, the check of a proof, the rebuilding of a
      root.  The pages of a ring are read with as much fuel as there are keys, which is
      shown to be enough.
    - [Notify.v], [NotifyProps.v]: pushes ([notify.rs], [platform.rs],
      [provider/apns.rs], [provider/fcm.rs]), with the list of requests sent and the
      answers they got.
    - [Config.v], [ConfigProps.v]: the environment each process reads, with the error
      of every branch.
    - [Google.v]: the decoder service behind Play Integrity ([play_integrity/google.rs]).
    - [Routes.v]: the table of routes and the generator of the edge's
      configuration ([dub/routes/table.rs], [routegen]).
    - [Routers.v], [RouteProps.v]: every service's router, and their merge into one
      process ([http.rs] of each service, [dub/routes.rs]), over the axum crate.
    - [Health.v]: readiness and its gauges ([http-common/health.rs], [metrics.rs]), the
      merged process's aggregate, the switches of metrics and logs.
    - [Roles.v]: the command line, the roles and what each does at start ([dub]).
    - [Mint.v]: the voucher minting tool ([bin/voucher_mint.rs]).
    - [ChainTypes.v], [ChainClient.v]: the transaction extensions of
      both chains, the vendored metadata, the configurations that delegate to the client
      crate's, the signer, and signing for a runtime's metadata ([chain-types],
      [chain-client/signer.rs], [sign.rs], [connect.rs]).
    - [SingleReads.v], [RegistryProps.v]: reads of one storage entry, the registries of
      names, connecting ([chain/people.rs], [chain/asset_hub.rs], [chain/registry.rs]);
      the writer's evidence traced back to chain storage.
    - [ApiDoc.v], [ApiPage.v], [ApiPageProps.v]: the generator of the
      API reference ([apidoc-gen]): merging, grouping, and every line of HTML.  Its
      depth limits (6 and 8) are the fuel of two functions.
    - [PoolLock.v], [PoolLockProps.v]: the advisory locks of the ticket pool and of the
      projection.
    - [States.v]: what each service builds from its configuration ([http/state.rs]),
      its database connection ([db.rs], [Database]), what [Debug] shows of its secrets
      ([Redaction]), and the seeding of a ticket pool ([SeedPool]).
    - [Observe.v]: counters and gauges of the writer, the indexer and the ticket pool.
    - [Surface.v]: error replies, preflights, rate limits, and the small routes
      (availability, challenge, attester, queue standing, puzzle); [SmokeClient] is a
      client of the handshake ([examples/auth_smoke.rs]).
    - [OpenApi.v]: the annotations of every operation and schema, and the five
      documents ([openapi.rs] of the services).
    - [OpenApiProps.v]: the reply of every error and the JSON of every body
      ([Replies]), the reference against the routers, and the replies against the
      reference.

    ** What the theorems show

    The writer lands a row only on evidence from the chain about that row, its name
    and its candidate, records each claimed row exactly once, never touches a final
    row, and writes nothing once fenced; the rest of the system satisfies the
    assumptions behind this.  A 202 means one row inserted for the reported free name,
    every other reply means none, but for a persistence failure whose commit was not
    acknowledged.  One
    registration per iOS device, one landed claim per Android device, one
    redemption per voucher, one use per challenge.  The queue position reported is
    the promotion that happens; nothing starves; the refresh does not depend on the
    order of its reads.  What availability offers is free on chain in the block read,
    and registration accepts it; a batched read is accepted only when it answers every
    key asked, once, for that block.  Signed
    messages determine what they sign.

    A certificate chain, an App Attest object and a Play Integrity payload are
    accepted exactly when they meet their declarative policies; the DER reader
    accepts exactly the distinguished encodings, and the key-description parser
    exactly the extensions of its grammar, whatever else a device lists; a revocation
    list in use is never older than its bound.  A token is issued only to a client
    that answered a live challenge, unspent when this request spent it, and passed its
    platform's attestation; it authenticates exactly its subject until a minute past
    its expiry, and a refresh token is exchanged at most once.  An Android
    registration is bound to the attested device and account.

    The confirmed rows of the projection are the chain's consumers at the
    checkpoint, whatever fails or restarts, and a pass that meets no failure
    reaches the finalized head; speculation adds and retracts only its own rows.
    A walk over the pages of a search returns every matching row once, in order.
    A puzzle is spent at most once, the gate admits exactly the requests it should.

    A ticket is handed to at most one client, is registered on chain before it can be,
    and verifies against its key; the pool is never filled past its target by more
    than the batches in flight.  The credentials one subject gets are bounded by its
    rate, refunds of upstream failures included.  A proof route answers exactly for
    a fresh proof that verifies against a root read from the configured chain in the
    last ten minutes; a relay honours a credential for exactly the lifetime stated;
    the upstream client serves a function of what the upstream said.  A push is
    taken at most once, reported truthfully, and sent with a live token.  A process
    that starts was configured to fail closed.

    What the writer lands on an owner it read, some block's storage shows.  It can sign
    for every known runtime, with exactly the extensions the runtime reads.  A printed
    voucher redeems once.  The merged process answers every public request for a
    canonical path as the service the edge would send it to, except that its proof
    route never issues; both edges agree on the owner of such a path, and generating
    the edge's file again changes nothing.  The gauges say of each dependency what the last probe established.  The
    API reference has every operation once, and no document can break its markup.

    Of two ticket-pool maintainers in the middle of a tick, one has lost the session of
    its lock; the lock is not left behind as long as its own statements do not fail.  A
    configuration that was read builds the service's state, and panics only at a rate
    that is no period.  Attempts at authentication are bounded by the configured rate.
    The availability route says of each name asked what the rules, the outbox and the
    chain say, and of no other.

    Clients that follow the protocol are served: the handshake ends in tokens that
    authenticate the client everywhere, a mined puzzle is admitted, a member of a ring
    gets relay credentials or one of the listed refusals.  The reference lists exactly the public operations and the
    reference page shows each once; every reply of a handler has a documented status and
    a body of the documented shape, but for thirteen statuses that are named and shown
    to occur, and the refusals of the framework in front of it, listed by operation.
    No secret of an environment changes what a configuration prints, the indexer's
    excepted.  A database pool is handed out only over the whole schema.

    Each theorem with hypotheses has a witness that applies it to concrete data;
    the demonstration worlds are executable, so the writer, the advancer and the
    handler run by computation.

    ** What is not modelled, and the plan

    Not modelled by choice: the metrics exporter and the logs; the code generated from
    chain metadata (a parameter); the SQL inside a migration, beyond the tables it
    leaves; the build scripts and test fixtures.  What remains of the plan is glue:
    constructors and accessors without a decision of their own.

    Transactions are atomic in the model; what Postgres does to make them so (row
    locks, the unique index, the advisory lock that serialises DeviceCheck claims)
    is taken as given.  The statements of one handler or pass may be interleaved
    with those of others. *)

From Stdlib Require Export ZArith Lia Ascii.
From stdpp Require Export sorting.
From stdpp Require Export prelude gmap strings.

#[global] Set Default Goal Selector "!".
#[global] Unset Printing Records.

(** ** Results: Rust's [Result<T, E>] *)

Inductive result (A E : Type) : Type :=
| Ok (a : A)
| Err (e : E).
Arguments Ok {A E} a.
Arguments Err {A E} e.

Declare Scope dub_scope.
Delimit Scope dub_scope with dub.

(** The [?] operator: continue on [Ok], return early on [Err]. *)
Definition rbind {A B E} (r : result A E) (k : A -> result B E) : result B E :=
  match r with
  | Ok a => k a
  | Err e => Err e
  end.

Notation "'let?' x ':=' c 'in' k" := (rbind c (fun x => k))
  (at level 10, x pattern, c at level 100, k at level 200) : dub_scope.

(** A loop that may return early: [for x in l { acc = f(acc, x)? }]. *)
Fixpoint try_fold {A B E} (f : A -> B -> result A E) (acc : A) (l : list B) : result A E :=
  match l with
  | [] => Ok acc
  | x :: l' => rbind (f acc x) (fun acc' => try_fold f acc' l')
  end.

(** [for (i, x) in l.iter().enumerate() { f(i, x)? }], counting from [i]. *)
Fixpoint for_each {A E} (f : nat -> A -> result unit E) (i : nat) (l : list A) : result unit E :=
  match l with
  | [] => Ok tt
  | x :: l' => rbind (f i x) (fun _ => for_each f (S i) l')
  end.

(** [l.iter().enumerate().map(f).collect::<Result<Vec<_>, _>>()]: the first
    failure wins. *)
Fixpoint try_map {A B E} (f : nat -> A -> result B E) (i : nat) (l : list A) : result (list B) E :=
  match l with
  | [] => Ok []
  | x :: l' => rbind (f i x) (fun y => rbind (try_map f (S i) l') (fun ys => Ok (y :: ys)))
  end.

Definition map_err {A E F} (f : E -> F) (r : result A E) : result A F :=
  match r with
  | Ok a => Ok a
  | Err e => Err (f e)
  end.

Definition is_ok {A E} (r : result A E) : bool :=
  match r with Ok _ => true | Err _ => false end.

#[export] Instance result_eq_dec {A E} `{EqDecision A, EqDecision E} :
  EqDecision (result A E).
Proof. solve_decision. Defined.

Lemma rbind_ok {A B X} (r : result A X) (k : A -> result B X) b :
  rbind r k = Ok b <-> exists a, r = Ok a /\ k a = Ok b.
Proof.
  destruct r as [a|e]; simpl.
  - split; [by exists a|]. by intros (? & [= <-] & ?).
  - split; [done|]. by intros (? & ? & ?).
Qed.

Lemma if_err_ok {A X} (b : bool) (e : X) (r : result A X) a :
  (if b then Err e else r) = Ok a <-> b = false /\ r = Ok a.
Proof. destruct b; simpl; naive_solver. Qed.

Lemma negb_decide_false (P : Prop) `{Decision P} : negb (bool_decide P) = false <-> P.
Proof. rewrite negb_false_iff. apply bool_decide_eq_true. Qed.

Lemma map_err_ok {A X Y} (f : X -> Y) (r : result A X) a : map_err f r = Ok a <-> r = Ok a.
Proof. destruct r; simpl; split; congruence. Qed.

Lemma unit_ok {X} (r : result unit X) (P : Prop) :
  (exists u, r = Ok u /\ P) <-> r = Ok tt /\ P.
Proof. split; [by intros ([] & ? & ?)|by exists tt]. Qed.

Lemma for_each_ok {A X} (f : nat -> A -> result unit X) i l :
  for_each f i l = Ok tt <-> forall k x, l !! k = Some x -> f (i + k)%nat x = Ok tt.
Proof.
  revert i. induction l as [|x l IH]; intros i; simpl; [done|].
  destruct (f i x) as [[]|e] eqn:E; simpl.
  - rewrite IH. split; intros H.
    + intros [|k] y Hy; [injection Hy as <-; by rewrite Nat.add_0_r|]. rewrite <-Nat.add_succ_comm. by apply H.
    + intros k y Hy. rewrite Nat.add_succ_comm. by apply H.
  - split; [done|]. intros H. specialize (H 0%nat x eq_refl). rewrite Nat.add_0_r in H. congruence.
Qed.

Lemma try_map_ok {A B X} (f : nat -> A -> result B X) i l ys :
  try_map f i l = Ok ys <->
  length ys = length l /\ forall k x y, l !! k = Some x -> ys !! k = Some y -> f (i + k)%nat x = Ok y.
Proof.
  revert i ys. induction l as [|x l IH]; intros i ys; simpl.
  { split; [intros [= <-]; done|]. intros [Hl _]. by destruct ys. }
  destruct (f i x) as [y|e] eqn:E; simpl.
  - destruct (try_map f (S i) l) as [ys'|e] eqn:E'; simpl.
    + apply IH in E' as [Hl Hk]. split.
      * intros [= <-]. split; [by simpl; f_equal|]. intros [|k] a b Ha Hb; simplify_eq/=.
        { by rewrite Nat.add_0_r. }
        rewrite <-Nat.add_succ_comm. by apply Hk.
      * intros [Hl' Hk']. destruct ys as [|z zs]; [done|]. f_equal.
        pose proof (Hk' 0%nat x z eq_refl eq_refl) as Hz. rewrite Nat.add_0_r in Hz. f_equal; [congruence|].
        enough (try_map f (S i) l = Ok zs) as Hzs by (rewrite (proj2 (IH (S i) ys')) in Hzs by done; congruence).
        apply IH. split; [by injection Hl'|]. intros k a b Ha Hb. rewrite Nat.add_succ_comm. by apply Hk'.
    + split; [done|]. intros [Hl' Hk']. destruct ys as [|z zs]; [done|].
      enough (try_map f (S i) l = Ok zs) by congruence. apply IH.
      split; [by injection Hl'|]. intros k a b Ha Hb. rewrite Nat.add_succ_comm. by apply Hk'.
  - split; [done|]. intros [Hl' Hk']. destruct ys as [|z zs]; [done|].
    pose proof (Hk' 0%nat x z eq_refl eq_refl) as Hz. rewrite Nat.add_0_r in Hz. congruence.
Qed.

(** ** Proof automation *)

(** Case on the scrutinee of a [match] or [if], innermost first, keeping the
    equation. *)
Ltac destr_match :=
  match goal with
  | |- context [match ?x with _ => _ end] =>
      lazymatch x with
      | context [match _ with _ => _ end] => fail
      | _ => let E := fresh "E" in destruct x eqn:E
      end
  end.

Ltac destr_match_in H :=
  match type of H with
  | context [match ?x with _ => _ end] =>
      lazymatch x with
      | context [match _ with _ => _ end] => fail
      | _ => let E := fresh "E" in destruct x eqn:E
      end
  end.

(** Turn boolean tests in the context into propositions. *)
Ltac bool_prop :=
  repeat match goal with
  | H : (_ && _)%bool = true |- _ => apply andb_true_iff in H; destruct H
  | H : (_ && _)%bool = false |- _ => apply andb_false_iff in H
  | H : (_ || _)%bool = true |- _ => apply orb_true_iff in H
  | H : (_ || _)%bool = false |- _ => apply orb_false_iff in H; destruct H
  | H : negb _ = true |- _ => apply negb_true_iff in H
  | H : negb _ = false |- _ => apply negb_false_iff in H
  | H : (_ =? _)%Z = true |- _ => apply Z.eqb_eq in H
  | H : (_ =? _)%Z = false |- _ => apply Z.eqb_neq in H
  | H : (_ <? _)%Z = true |- _ => apply Z.ltb_lt in H
  | H : (_ <? _)%Z = false |- _ => apply Z.ltb_ge in H
  | H : (_ <=? _)%Z = true |- _ => apply Z.leb_le in H
  | H : (_ <=? _)%Z = false |- _ => apply Z.leb_gt in H
  | H : (_ >? _)%Z = _ |- _ => rewrite Z.gtb_ltb in H
  | H : (_ >=? _)%Z = _ |- _ => rewrite Z.geb_leb in H
  | H : String.eqb _ _ = true |- _ => apply String.eqb_eq in H
  | H : String.eqb _ _ = false |- _ => apply String.eqb_neq in H
  | H : bool_decide _ = true |- _ => apply bool_decide_eq_true in H
  | H : bool_decide _ = false |- _ => apply bool_decide_eq_false in H
  end.

Create HintDb dub.
Create Rewrite HintDb dub.

(** ** Machine integers

    A [u8]/[u16]/[u32]/[i64]/... value is a [Z] in its range; the operations
    the sources use on them are written out with their overflow behaviour. *)

Definition U8_MAX : Z := 255.
Definition U16_MAX : Z := 65535.
Definition U32_MAX : Z := 4294967295.
Definition U64_MAX : Z := 18446744073709551615.
Definition I16_MAX : Z := 32767.
Definition I64_MAX : Z := 9223372036854775807.
Definition I64_MIN : Z := -9223372036854775808.

Definition clamp (lo hi x : Z) : Z := Z.max lo (Z.min hi x).

Definition u16_saturating_add (a b : Z) : Z := Z.min U16_MAX (a + b).
Definition u16_saturating_sub (a b : Z) : Z := Z.max 0 (a - b).
Definition i64_saturating_add (a b : Z) : Z := clamp I64_MIN I64_MAX (a + b).
Definition i64_saturating_sub (a b : Z) : Z := clamp I64_MIN I64_MAX (a - b).

(** [2i64.saturating_pow(n)]. *)
Definition i64_saturating_pow2 (n : Z) : Z := Z.min I64_MAX (2 ^ n).

Lemma clamp_range lo hi x : (lo <= hi)%Z -> (lo <= clamp lo hi x <= hi)%Z.
Proof. unfold clamp. lia. Qed.

Lemma clamp_id lo hi x : (lo <= x <= hi)%Z -> clamp lo hi x = x.
Proof. unfold clamp. lia. Qed.

(** ** Time

    Timestamps are microseconds since the Unix epoch (the resolution of a
    Postgres [timestamptz]); durations configured in seconds are scaled. *)

Definition USEC_PER_SEC : Z := 1000000.
Definition secs (n : Z) : Z := (n * USEC_PER_SEC)%Z.
Definition unix_timestamp (t : Z) : Z := (t / USEC_PER_SEC)%Z.

Lemma secs_pos n : (0 < n)%Z -> (0 < secs n)%Z.
Proof. unfold secs, USEC_PER_SEC. lia. Qed.

(** ** Byte strings *)

#[global] Arguments String.append !_ _ / : simpl nomatch.

Abbreviation bytes := (list Z).

Definition byte_of_ascii (c : ascii) : Z := Z.of_nat (nat_of_ascii c).
Fixpoint as_bytes (s : string) : bytes :=
  match s with
  | EmptyString => []
  | String c s' => byte_of_ascii c :: as_bytes s'
  end.

(** ** Sorting: [ORDER BY]

    A stable insertion sort over a boolean order. *)

Section sort.
Context {A : Type} (le : A -> A -> bool).

Fixpoint insert_by (x : A) (l : list A) : list A :=
  match l with
  | [] => [x]
  | y :: l' => if le x y then x :: y :: l' else y :: insert_by x l'
  end.

Definition sort_by (l : list A) : list A := foldr insert_by [] l.

Lemma insert_by_perm x l : insert_by x l ≡ₚ x :: l.
Proof.
  induction l as [|y l IH]; simpl; [done|].
  destruct (le x y); [done|]. rewrite IH. apply Permutation_swap.
Qed.

Lemma sort_by_perm l : sort_by l ≡ₚ l.
Proof. induction l as [|x l IH]; simpl; [done|]. by rewrite insert_by_perm, IH. Qed.

Lemma elem_of_sort_by x l : x ∈ sort_by l <-> x ∈ l.
Proof. by rewrite sort_by_perm. Qed.

Lemma length_sort_by l : length (sort_by l) = length l.
Proof. by rewrite sort_by_perm. Qed.

Context (le_total : forall x y, le x y = true \/ le y x = true).
Context (le_trans : forall x y z, le x y = true -> le y z = true -> le x z = true).

Lemma insert_by_sorted x l :
  StronglySorted (fun a b => le a b = true) l ->
  StronglySorted (fun a b => le a b = true) (insert_by x l).
Proof using le_total le_trans.
  induction 1 as [|y l Hl IH Hy]; simpl; [repeat constructor|].
  destruct (le x y) eqn:E.
  - constructor; [by constructor|]. constructor; [done|].
    eapply Forall_impl; [exact Hy|]. eauto.
  - constructor; [done|]. rewrite insert_by_perm. constructor; [|done].
    destruct (le_total x y); congruence.
Qed.

Lemma sort_by_sorted l : StronglySorted (fun a b => le a b = true) (sort_by l).
Proof using le_total le_trans.
  induction l; simpl; [constructor|]. by apply insert_by_sorted.
Qed.

(** Sorting a list that is already in order changes nothing. *)
Lemma sort_by_id l : StronglySorted (fun a b => le a b = true) l -> sort_by l = l.
Proof.
  induction 1 as [|x l Hl IH Hx]; simpl; [done|]. rewrite IH.
  destruct l as [|y l]; simpl; [done|].
  apply Forall_cons in Hx as [-> _]. done.
Qed.

(** Two sorted permutations of one another are equal, when the order separates
    their elements. *)
Lemma sorted_perm_eq l1 l2 :
  (forall x y, x ∈ l1 -> y ∈ l1 -> le x y = true -> le y x = true -> x = y) ->
  StronglySorted (fun a b => le a b = true) l1 ->
  StronglySorted (fun a b => le a b = true) l2 ->
  l1 ≡ₚ l2 -> l1 = l2.
Proof.
  intros Hanti H1; revert l2 Hanti; induction H1 as [|x l1 Hl1 IH Hx]; intros l2 Hanti H2 Hp.
  { by apply Permutation_nil_l in Hp. }
  destruct H2 as [|y l2 Hl2 Hy]; [by apply Permutation_nil_r in Hp|].
  assert (x = y) as ->.
  { assert (x ∈ y :: l2) as Hxin by (rewrite <-Hp; left).
    assert (y ∈ x :: l1) as Hyin by (rewrite Hp; left).
    apply elem_of_cons in Hxin as [->|Hxin]; [done|].
    pose proof Hyin as Hyin'. apply elem_of_cons in Hyin' as [->|Hyin']; [done|].
    rewrite Forall_forall in Hx, Hy. apply Hanti; [left|done|by apply Hx|by apply Hy]. }
  f_equal. apply IH; [|done|by apply Permutation_cons_inv in Hp].
  intros a b Ha Hb. apply Hanti; by right.
Qed.
End sort.

(** ** Heads of filtered sorted lists *)

Lemma head_filter_Some_iff (P : nat -> Prop) `{forall x, Decision (P x)} l i :
  StronglySorted lt l ->
  head (filter P l) = Some i <-> i ∈ l /\ P i /\ forall j, j ∈ l -> P j -> i <= j.
Proof.
  induction 1 as [|x l Hl IH Hx]; rewrite ?filter_nil, ?filter_cons; simpl.
  { split; [done|]. intros [Hi _]. by apply not_elem_of_nil in Hi. }
  rewrite Forall_forall in Hx. case_decide as HP; simpl.
  - split.
    + intros [= <-]. split; [left|]. split; [done|].
      intros j Hj _. apply elem_of_cons in Hj as [->|Hj]; [done|]. specialize (Hx j Hj). lia.
    + intros (Hi & HPi & Hmin). apply elem_of_cons in Hi as [->|Hi]; [done|].
      specialize (Hx i Hi). specialize (Hmin x ltac:(left) HP). lia.
  - rewrite IH. split.
    + intros (Hi & HPi & Hmin). split; [by right|]. split; [done|].
      intros j Hj HPj. apply elem_of_cons in Hj as [->|Hj]; [done|eauto].
    + intros (Hi & HPi & Hmin). apply elem_of_cons in Hi as [->|Hi]; [done|].
      split; [done|]. split; [done|]. intros j Hj HPj. apply Hmin; [by right|done].
Qed.

Lemma head_filter_None {A} (P : A -> Prop) `{forall x, Decision (P x)} (l : list A) :
  head (filter P l) = None <-> forall x, x ∈ l -> ~ P x.
Proof.
  induction l as [|x l IH].
  { split; [|done]. intros _ x Hx. by apply not_elem_of_nil in Hx. }
  rewrite filter_cons. case_decide as HP; simpl.
  - split; [done|]. intros Hn. by destruct (Hn x ltac:(left)).
  - rewrite IH. split.
    + intros Hn y Hy. apply elem_of_cons in Hy as [->|Hy]; [done|by apply Hn].
    + intros Hn y Hy. apply Hn. by right.
Qed.

Lemma filter_iff {A} (P Q : A -> Prop) `{forall x, Decision (P x), forall x, Decision (Q x)} (l : list A) :
  (forall x, x ∈ l -> P x <-> Q x) -> filter P l = filter Q l.
Proof.
  induction l as [|x l IH]; intros Hpq; [done|]. rewrite !filter_cons.
  assert (filter P l = filter Q l) as -> by (apply IH; intros y Hy; apply Hpq; by right).
  specialize (Hpq x ltac:(left)). repeat case_decide; tauto.
Qed.

Lemma filter_all {A} (P : A -> Prop) `{forall x, Decision (P x)} (l : list A) :
  (forall x, x ∈ l -> P x) -> filter P l = l.
Proof.
  induction l as [|x l IH]; intros Hp; [done|]. rewrite filter_cons.
  rewrite decide_True by (apply Hp; left). f_equal. apply IH. intros y Hy. apply Hp. by right.
Qed.

Lemma omap_nil {A B} (f : A -> option B) (l : list A) :
  (forall x, x ∈ l -> f x = None) -> omap f l = [].
Proof.
  induction l as [|x l IH]; intros Hf; [done|]. simpl. rewrite (Hf x ltac:(left)).
  apply IH. intros y Hy. apply Hf. by right.
Qed.

(** ** Sublists *)

Lemma sublist_all {A} (P : A -> Prop) (l k : list A) : l `sublist_of` k -> Forall P k -> Forall P l.
Proof. induction 1 as [|x l k Hlk IH|x l k Hlk IH]; rewrite ?Forall_cons; tauto. Qed.

Lemma sublist_sorted {A} (R : A -> A -> Prop) (l k : list A) :
  l `sublist_of` k -> StronglySorted R k -> StronglySorted R l.
Proof.
  induction 1 as [|x l k Hlk IH|x l k Hlk IH]; intros Hs; [done| |].
  - apply StronglySorted_inv in Hs as [Hs Hf]. constructor; [by apply IH|]. by eapply sublist_all.
  - apply StronglySorted_inv in Hs as [Hs _]. by apply IH.
Qed.

(** ** Table statements

    A table is a finite map from its primary key to its rows. [UPDATE ... WHERE]
    rewrites the rows a predicate selects; [count_where] is [rows_affected]. *)

Section table.
Context {K V : Type} `{Countable K}.
Implicit Types (m : gmap K V) (p : K -> V -> bool).

Definition update_where p (f : V -> V) m : gmap K V :=
  map_imap (fun k v => Some (if p k v then f v else v)) m.

Definition count_where p m : nat :=
  size (filter (fun kv => p kv.1 kv.2 = true) m).

Definition delete_where p m : gmap K V :=
  filter (fun kv => p kv.1 kv.2 = false) m.

Lemma lookup_update_where p f m k :
  update_where p f m !! k = (fun v => if p k v then f v else v) <$> m !! k.
Proof. unfold update_where. rewrite map_lookup_imap. by destruct (m !! k). Qed.

Lemma update_where_none p f m :
  (forall k v, m !! k = Some v -> p k v = false) -> update_where p f m = m.
Proof.
  intros Hp. apply map_eq; intros k. rewrite lookup_update_where.
  destruct (m !! k) as [v|] eqn:E; simpl; [|done]. by rewrite (Hp k v E).
Qed.

Lemma dom_update_where p f m : dom (update_where p f m) = dom m.
Proof.
  apply set_eq; intros k. rewrite !elem_of_dom, lookup_update_where.
  by rewrite fmap_is_Some.
Qed.

Lemma count_where_zero p m :
  count_where p m = 0 <-> forall k v, m !! k = Some v -> p k v = false.
Proof.
  unfold count_where. rewrite map_size_empty_iff, map_empty. split.
  - intros Hm k v Hk. specialize (Hm k). rewrite map_lookup_filter_None in Hm.
    destruct Hm as [Hm|Hm]; [congruence|]. specialize (Hm v Hk). simpl in Hm.
    by destruct (p k v).
  - intros Hp k. rewrite map_lookup_filter_None. right. intros v Hk. simpl.
    by rewrite (Hp k v Hk).
Qed.

Lemma lookup_delete_where p m k v :
  delete_where p m !! k = Some v <-> m !! k = Some v /\ p k v = false.
Proof. unfold delete_where. apply map_lookup_filter_Some. Qed.
End table.

#[export] Hint Rewrite @lookup_update_where : dub.
