(* ===== verification/Strings.v ===== *)
(** * Strings

    The string operations of the Rust standard library and of the [hex] crate
    that the sources use, over byte strings ([String.string]: a Rust [str] is
    its UTF-8 bytes, so [len] is [String.length]).  Substring search drives the
    chain writer's classification of refusals, two-digit formatting and [u8]
    parsing drive the discriminators, hexadecimal decoding drives the request
    fields. *)

From S2P Require Import Prelude.

#[local] Open Scope string_scope.
#[local] Open Scope Z_scope.

(** ** Substrings: [str::contains], [starts_with], [strip_prefix], [split_once] *)

Fixpoint contains (needle hay : string) : bool :=
  String.prefix needle hay ||
  match hay with
  | EmptyString => false
  | String _ hay' => contains needle hay'
  end.

Fixpoint strip_prefix (p s : string) : option string :=
  match p, s with
  | EmptyString, _ => Some s
  | String a p', String b s' => if Ascii.eqb a b then strip_prefix p' s' else None
  | String _ _, EmptyString => None
  end.

Fixpoint split_once (sep : ascii) (s : string) : option (string * string) :=
  match s with
  | EmptyString => None
  | String c s' =>
      if Ascii.eqb c sep then Some (EmptyString, s')
      else match split_once sep s' with
           | Some (a, b) => Some (String c a, b)
           | None => None
           end
  end.

Lemma prefix_app p s : String.prefix p (p +:+ s) = true.
Proof.
  induction p as [|c p IH]; simpl; [by destruct s|].
  destruct (ascii_dec c c); [exact IH|done].
Qed.

Lemma prefix_inv p s : String.prefix p s = true -> exists t, s = p +:+ t.
Proof.
  revert s; induction p as [|c p IH]; intros s; simpl; [by eexists|].
  destruct s as [|d s]; simpl; [done|]. destruct (ascii_dec c d) as [->|]; [|done].
  intros [t ->]%IH. by exists t.
Qed.

(** [contains] is what its name says. *)
Lemma contains_spec needle hay :
  contains needle hay = true <-> exists a b, hay = a +:+ needle +:+ b.
Proof.
  split.
  - induction hay as [|c hay IH]; cbn [contains]; rewrite orb_true_iff.
    + intros [[t ->]%prefix_inv|]; [by exists EmptyString, t|done].
    + intros [[t ->]%prefix_inv|(a & b & ->)%IH]; [by exists EmptyString, t|].
      by exists (String c a), b.
  - intros (a & b & ->). induction a as [|c a IH]; simpl.
    + pose proof (prefix_app needle b) as Hp.
      destruct (needle +:+ b); cbn [contains]; by rewrite Hp.
    + by rewrite IH, orb_true_r.
Qed.

Lemma contains_app_r needle a b : contains needle b = true -> contains needle (a +:+ b) = true.
Proof.
  rewrite !contains_spec. intros (x & y & ->). exists (a +:+ x), y.
  induction a as [|c a IH]; simpl; [done|]. by f_equal.
Qed.

Lemma strip_prefix_app p s : strip_prefix p (p +:+ s) = Some s.
Proof. induction p as [|c p IH]; simpl; [done|]. by rewrite Ascii.eqb_refl. Qed.

Lemma strip_prefix_Some p s t : strip_prefix p s = Some t -> s = p +:+ t.
Proof.
  revert s; induction p as [|c p IH]; intros s; simpl; [congruence|].
  destruct s as [|d s]; [done|]. destruct (Ascii.eqb_spec c d) as [->|]; [|done].
  intros ->%IH. done.
Qed.

Lemma split_once_Some sep s a b :
  split_once sep s = Some (a, b) -> s = a +:+ String sep b.
Proof.
  revert a; induction s as [|c s IH]; intros a; simpl; [done|].
  destruct (Ascii.eqb_spec c sep) as [->|].
  { intros [= <- <-]. done. }
  destruct (split_once sep s) as [[a' b']|]; [|done].
  intros [= <- <-]. simpl. by rewrite (IH a').
Qed.

Lemma string_length_app a b :
  String.length (a +:+ b) = (String.length a + String.length b)%nat.
Proof. induction a as [|c a IH]; simpl; [done|]. by rewrite IH. Qed.

(** A separator the prefix does not use splits exactly there. *)
Lemma split_once_app sep a b :
  split_once sep a = None -> split_once sep (a +:+ String sep b) = Some (a, b).
Proof.
  induction a as [|c a IH]; simpl.
  { by rewrite Ascii.eqb_refl. }
  destruct (Ascii.eqb c sep); [done|].
  destruct (split_once sep a) as [[??]|]; [done|]. intros _. by rewrite IH.
Qed.

(** ** Character classes *)

Definition is_ascii_lowercase (c : ascii) : bool :=
  (97 <=? byte_of_ascii c) && (byte_of_ascii c <=? 122).
Definition is_ascii_uppercase (c : ascii) : bool :=
  (65 <=? byte_of_ascii c) && (byte_of_ascii c <=? 90).
Definition is_ascii_digit (c : ascii) : bool :=
  (48 <=? byte_of_ascii c) && (byte_of_ascii c <=? 57).
Definition is_ascii_alphanumeric (c : ascii) : bool :=
  is_ascii_lowercase c || is_ascii_uppercase c || is_ascii_digit c.

Fixpoint all_chars (p : ascii -> bool) (s : string) : bool :=
  match s with
  | EmptyString => true
  | String c s' => p c && all_chars p s'
  end.

Lemma all_chars_impl (p q : ascii -> bool) s :
  (forall c, p c = true -> q c = true) -> all_chars p s = true -> all_chars q s = true.
Proof.
  intros Hpq. induction s as [|c s IH]; [done|]. simpl. intros [Hc Hs]%andb_true_iff.
  rewrite (Hpq _ Hc). by apply IH.
Qed.

Lemma all_chars_app p a b : all_chars p (a +:+ b) = all_chars p a && all_chars p b.
Proof. induction a as [|c a IH]; simpl; [done|]. by rewrite IH, andb_assoc. Qed.

(** A string without the separator has nothing to split. *)
Lemma split_once_None_chars sep p s :
  p sep = false -> all_chars p s = true -> split_once sep s = None.
Proof.
  intros Hsep. induction s as [|c s IH]; simpl; [done|].
  intros [Hc Hs]%andb_true_iff. destruct (Ascii.eqb_spec c sep) as [->|]; [congruence|].
  by rewrite IH.
Qed.

(** ** Hexadecimal: [hex::decode] *)

Definition hex_value (c : ascii) : option Z :=
  let b := byte_of_ascii c in
  if (48 <=? b) && (b <=? 57) then Some (b - 48)
  else if (97 <=? b) && (b <=? 102) then Some (b - 87)
  else if (65 <=? b) && (b <=? 70) then Some (b - 55)
  else None.

Definition is_ascii_hexdigit (c : ascii) : bool :=
  match hex_value c with Some _ => true | None => false end.

Fixpoint hex_decode (s : string) : option bytes :=
  match s with
  | EmptyString => Some []
  | String _ EmptyString => None
  | String a (String b s') =>
      match hex_value a, hex_value b, hex_decode s' with
      | Some h, Some l, Some bs => Some (16 * h + l :: bs)
      | _, _, _ => None
      end
  end.

Definition hex_digit (n : Z) : ascii :=
  if n <? 10 then ascii_of_nat (Z.to_nat (n + 48)) else ascii_of_nat (Z.to_nat (n + 87)).

(** [hex::encode]. *)
Fixpoint hex_encode (bs : bytes) : string :=
  match bs with
  | [] => EmptyString
  | b :: bs' => String (hex_digit (b / 16)) (String (hex_digit (b mod 16)) (hex_encode bs'))
  end.

Definition is_byte (b : Z) : Prop := 0 <= b <= U8_MAX.

Lemma hex_value_digit n : 0 <= n < 16 -> hex_value (hex_digit n) = Some n.
Proof.
  intros Hn.
  assert (forallb (fun k => bool_decide (hex_value (hex_digit (Z.of_nat k)) = Some (Z.of_nat k)))
            (seq 0 16) = true) as Hall by (vm_compute; reflexivity).
  rewrite forallb_forall in Hall. specialize (Hall (Z.to_nat n)).
  rewrite Z2Nat.id in Hall by lia. apply bool_decide_eq_true in Hall; [done|].
  apply in_seq. lia.
Qed.

(** [hex::decode] inverts [hex::encode]. *)
Lemma hex_decode_encode bs : Forall is_byte bs -> hex_decode (hex_encode bs) = Some bs.
Proof.
  induction 1 as [|b bs Hb Hbs IH]; simpl; [done|].
  unfold is_byte, U8_MAX in Hb.
  rewrite !hex_value_digit, IH;
    [do 2 f_equal; pose proof (Z.div_mod b 16); lia
    |apply Z.mod_pos_bound; lia|split; [apply Z.div_pos; lia|apply Z.div_lt_upper_bound; lia]].
Qed.

Lemma hex_value_range c v : hex_value c = Some v -> 0 <= v < 16.
Proof. unfold hex_value. repeat destr_match; intros [= <-]; bool_prop; lia. Qed.

Fixpoint string_pair_ind (P : string -> Prop) (H0 : P EmptyString)
    (H1 : forall c, P (String c EmptyString))
    (H2 : forall a b s, P s -> P (String a (String b s))) (s : string) : P s :=
  match s with
  | EmptyString => H0
  | String c EmptyString => H1 c
  | String a (String b s') => H2 a b s' (string_pair_ind P H0 H1 H2 s')
  end.

Lemma hex_decode_bytes s bs : hex_decode s = Some bs -> Forall is_byte bs.
Proof.
  revert bs. induction s as [|c|a b s IH] using string_pair_ind; intros bs; simpl.
  - intros [= <-]. constructor.
  - done.
  - destruct (hex_value a) as [h|] eqn:Ha; [|done].
    destruct (hex_value b) as [l|] eqn:Hb; [|done].
    destruct (hex_decode s) as [bs'|]; [|done]. intros [= <-].
    apply hex_value_range in Ha, Hb. constructor; [unfold is_byte, U8_MAX; lia|].
    by apply IH.
Qed.

Lemma hex_decode_length s bs :
  hex_decode s = Some bs -> String.length s = (2 * length bs)%nat.
Proof.
  revert bs. induction s as [|c|a b s IH] using string_pair_ind; intros bs; simpl.
  - intros [= <-]. done.
  - done.
  - destruct (hex_value a), (hex_value b); try done.
    destruct (hex_decode s) as [bs'|]; [|done]. intros [= <-]. simpl.
    rewrite (IH bs' eq_refl). lia.
Qed.

(** ** Two-digit discriminators: [format!("{d:02}")] and [str::parse::<u8>] *)

Definition digit_char (n : Z) : ascii := ascii_of_nat (Z.to_nat (n + 48)).

(** [format!("{d:02}")] for a [u8]. *)
Definition fmt02 (d : Z) : string :=
  let low := String (digit_char (d / 10 mod 10)) (String (digit_char (d mod 10)) EmptyString) in
  if d <? 100 then low else String (digit_char (d / 100)) low.

Fixpoint parse_digits (acc : Z) (s : string) : option Z :=
  match s with
  | EmptyString => Some acc
  | String c s' =>
      if is_ascii_digit c then
        let v := 10 * acc + (byte_of_ascii c - 48) in
        if v <=? U8_MAX then parse_digits v s' else None
      else None
  end.

(** [str::parse::<u8>()]: an optional leading [+], then at least one digit, and
    no overflow. *)
Definition parse_u8 (s : string) : option Z :=
  match s with
  | EmptyString => None
  | String c s' =>
      if Ascii.eqb c "+"%char then
        match s' with EmptyString => None | _ => parse_digits 0 s' end
      else parse_digits 0 s
  end.

Lemma parse_u8_fmt02_all :
  forallb (fun n => bool_decide (parse_u8 (fmt02 (Z.of_nat n)) = Some (Z.of_nat n))) (seq 0 256) = true.
Proof. vm_compute. reflexivity. Qed.

(** Printing a discriminator and reading it back is the identity. *)
Lemma parse_u8_fmt02 d : 0 <= d <= U8_MAX -> parse_u8 (fmt02 d) = Some d.
Proof.
  unfold U8_MAX. intros Hd. pose proof parse_u8_fmt02_all as H.
  rewrite forallb_forall in H.
  specialize (H (Z.to_nat d)). rewrite Z2Nat.id in H by lia.
  apply bool_decide_eq_true in H; [done|]. apply in_seq. lia.
Qed.

Lemma fmt02_digits_all :
  forallb (fun n => all_chars is_ascii_digit (fmt02 (Z.of_nat n))) (seq 0 100) = true.
Proof. vm_compute. reflexivity. Qed.

Lemma fmt02_inj d e :
  0 <= d <= U8_MAX -> 0 <= e <= U8_MAX -> fmt02 d = fmt02 e -> d = e.
Proof.
  intros Hd He H. apply (f_equal parse_u8) in H.
  rewrite !parse_u8_fmt02 in H by done. congruence.
Qed.

Lemma fmt02_length d : 0 <= d < 100 -> String.length (fmt02 d) = 2%nat.
Proof. intros Hd. unfold fmt02. replace (d <? 100) with true by lia. done. Qed.

(** ** [str::trim]: the Unicode [White_Space] characters, by their UTF-8 bytes *)

Fixpoint of_codes (l : list nat) : string :=
  match l with
  | [] => EmptyString
  | n :: l' => String (ascii_of_nat n) (of_codes l')
  end.

Definition WHITE_SPACE : list string :=
  of_codes <$>
  [[9]; [10]; [11]; [12]; [13]; [32]; [194; 133]; [194; 160]; [225; 154; 128];
   [226; 128; 128]; [226; 128; 129]; [226; 128; 130]; [226; 128; 131]; [226; 128; 132];
   [226; 128; 133]; [226; 128; 134]; [226; 128; 135]; [226; 128; 136]; [226; 128; 137];
   [226; 128; 138]; [226; 128; 168]; [226; 128; 169]; [226; 128; 175]; [226; 129; 159];
   [227; 128; 128]]%nat.

Fixpoint first_some {A B} (f : A -> option B) (l : list A) : option B :=
  match l with
  | [] => None
  | x :: l' => match f x with Some y => Some y | None => first_some f l' end
  end.

(** Strip any of [ws] from the front until none matches; every match is
    non-empty, so [String.length s] rounds are enough. *)
Fixpoint strip_all (ws : list string) (fuel : nat) (s : string) : string :=
  match fuel with
  | O => s
  | S fuel' =>
      match first_some (fun w => strip_prefix w s) ws with
      | Some s' => strip_all ws fuel' s'
      | None => s
      end
  end.

Definition trim (s : string) : string :=
  let a := strip_all WHITE_SPACE (String.length s) s in
  let b := String.rev a in
  String.rev (strip_all (String.rev <$> WHITE_SPACE) (String.length b) b).

(** ** [String::from_utf8]: the bytes of a [String] are well-formed UTF-8 *)

Definition utf8_cont (b : Z) : bool := (128 <=? b) && (b <=? 191).

(** The table of well-formed byte sequences of the Unicode standard. *)
Fixpoint valid_utf8 (l : bytes) : bool :=
  match l with
  | [] => true
  | b :: r =>
      if (0 <=? b) && (b <=? 127) then valid_utf8 r
      else if (194 <=? b) && (b <=? 223) then
        match r with c :: r => utf8_cont c && valid_utf8 r | [] => false end
      else if (224 <=? b) && (b <=? 239) then
        match r with
        | c :: d :: r =>
            ((if b =? 224 then 160 else 128) <=? c) && (c <=? (if b =? 237 then 159 else 191))
            && utf8_cont d && valid_utf8 r
        | _ => false
        end
      else if (240 <=? b) && (b <=? 244) then
        match r with
        | c :: d :: e :: r =>
            ((if b =? 240 then 144 else 128) <=? c) && (c <=? (if b =? 244 then 143 else 191))
            && utf8_cont d && utf8_cont e && valid_utf8 r
        | _ => false
        end
      else false
  end.

Fixpoint string_of_bytes (l : bytes) : string :=
  match l with
  | [] => EmptyString
  | b :: l' => String (ascii_of_nat (Z.to_nat b)) (string_of_bytes l')
  end.

Definition from_utf8 (l : bytes) : option string :=
  if valid_utf8 l then Some (string_of_bytes l) else None.

Lemma string_of_as_bytes s : string_of_bytes (as_bytes s) = s.
Proof.
  induction s as [|c s IH]; simpl; [done|]. rewrite IH. f_equal.
  unfold byte_of_ascii. rewrite Nat2Z.id. apply ascii_nat_embedding.
Qed.

Lemma as_bytes_of_string l :
  Forall is_byte l -> as_bytes (string_of_bytes l) = l.
Proof.
  induction 1 as [|b l Hb Hl IH]; simpl; [done|]. rewrite IH. f_equal.
  unfold is_byte, U8_MAX in Hb. unfold byte_of_ascii. rewrite nat_ascii_embedding by lia. lia.
Qed.

(** ** [{:?}] on a [str]

    Quotes, backslashes and control characters are escaped; other characters are
    printed as they are (for characters outside ASCII this is what [Debug] does
    with printable ones). *)

Definition QUOTE : ascii := ascii_of_nat 34.
Definition BACKSLASH : ascii := ascii_of_nat 92.

Definition debug_char (c : ascii) : string :=
  let n := nat_of_ascii c in
  if (n =? 34)%nat || (n =? 92)%nat then String BACKSLASH (String c EmptyString)
  else if (n =? 9)%nat then String BACKSLASH "t"
  else if (n =? 10)%nat then String BACKSLASH "n"
  else if (n =? 13)%nat then String BACKSLASH "r"
  else if (n =? 0)%nat then String BACKSLASH "0"
  else if (n <? 16)%nat then
    String BACKSLASH ("u{" +:+ String (hex_digit (Z.of_nat n)) "}")
  else if (n <? 32)%nat || (n =? 127)%nat then
    String BACKSLASH ("u{" +:+ hex_encode [Z.of_nat n] +:+ "}")
  else String c EmptyString.

Fixpoint debug_chars (s : string) : string :=
  match s with
  | EmptyString => EmptyString
  | String c s' => debug_char c +:+ debug_chars s'
  end.

Definition debug_str (s : string) : string :=
  String QUOTE (debug_chars s +:+ String QUOTE EmptyString).
