(* ===== verification/Text.v ===== *)
(** * Text: numerals, splitting and byte order

    The parts of Rust's [str] and integer parsing, and of Postgres's byte order
    (the [C] collation, [bytea] comparison), that the services other than the
    registration path use. *)

From stdpp Require Import pretty.
From S2P Require Import Prelude Strings.

#[local] Open Scope string_scope.
#[local] Open Scope Z_scope.

(** ** [str::rsplit_once], [str::split] *)

Fixpoint rsplit_once (sep : ascii) (s : string) : option (string * string) :=
  match s with
  | EmptyString => None
  | String c s' =>
      match rsplit_once sep s' with
      | Some (a, b) => Some (String c a, b)
      | None => if Ascii.eqb c sep then Some (EmptyString, s') else None
      end
  end.

(** [s.split(sep).collect()]: never empty. *)
Fixpoint split_on (sep : ascii) (s : string) : list string :=
  match s with
  | EmptyString => [EmptyString]
  | String c s' =>
      if Ascii.eqb c sep then EmptyString :: split_on sep s'
      else
        match split_on sep s' with
        | w :: ws => String c w :: ws
        | [] => [String c EmptyString]
        end
  end.

Definition lacks (sep : ascii) (s : string) : bool := all_chars (fun c => negb (Ascii.eqb c sep)) s.

Lemma rsplit_once_None sep s : rsplit_once sep s = None <-> lacks sep s = true.
Proof.
  unfold lacks. induction s as [|c s IH]; simpl; [done|].
  rewrite andb_true_iff, negb_true_iff, <-IH.
  destruct (rsplit_once sep s) as [[a b]|]; [split; [done|by intros [_ ?]]|].
  destruct (Ascii.eqb c sep); naive_solver.
Qed.

Lemma rsplit_once_Some sep s a b :
  rsplit_once sep s = Some (a, b) <-> s = a +:+ String sep b /\ lacks sep b = true.
Proof.
  revert a. induction s as [|c s IH]; intros a; simpl.
  { split; [done|]. intros [H _]. by destruct a. }
  destruct (rsplit_once sep s) as [[a' b']|] eqn:E.
  - split.
    + intros [= <- <-]. destruct (proj1 (IH a') eq_refl) as [-> Hb]. done.
    + intros [Hs Hb]. destruct a as [|c' a]; simpl in Hs; injection Hs as -> Hs.
      { rewrite (proj2 (rsplit_once_None sep s)) in E by congruence. done. }
      assert (Some (a', b') = Some (a, b)) as Heq by by apply IH. by injection Heq as -> ->.
  - destruct (Ascii.eqb_spec c sep) as [->|Hc].
    + split.
      * intros [= <- <-]. split; [done|]. by apply rsplit_once_None.
      * intros [Hs Hb]. destruct a as [|c' a]; simplify_eq/=; [done|].
        assert (None = Some (a, b)) by by apply IH. done.
    + split; [done|]. intros [Hs Hb]. destruct a as [|c' a]; simplify_eq/=.
      assert (None = Some (a, b)) by by apply IH. done.
Qed.

Lemma split_on_lacks sep s : lacks sep s = true -> split_on sep s = [s].
Proof.
  unfold lacks. induction s as [|c s IH]; simpl; [done|].
  intros [Hc%negb_true_iff Hs]%andb_true_iff. by rewrite Hc, IH.
Qed.

Lemma split_on_app sep a b :
  lacks sep a = true -> split_on sep (a +:+ String sep b) = a :: split_on sep b.
Proof.
  unfold lacks. induction a as [|c a IH]; simpl.
  - intros _. by rewrite Ascii.eqb_refl.
  - intros [Hc%negb_true_iff Ha]%andb_true_iff. by rewrite Hc, IH.
Qed.

(** ** [str::parse] of integers, and their decimal text *)

Definition digit_value (c : ascii) : Z := byte_of_ascii c - 48.

Fixpoint parse_decimal (max acc : Z) (s : string) : option Z :=
  match s with
  | EmptyString => Some acc
  | String c s' =>
      if is_ascii_digit c then
        let v := 10 * acc + digit_value c in
        if v <=? max then parse_decimal max v s' else None
      else None
  end.

(** [s.parse::<uN>()] for the unsigned type whose largest value is [max]. *)
Definition parse_unsigned (max : Z) (s : string) : option Z :=
  match s with
  | EmptyString => None
  | String c s' =>
      if Ascii.eqb c "+"%char then
        match s' with EmptyString => None | _ => parse_decimal max 0 s' end
      else parse_decimal max 0 s
  end.

(** [s.parse::<i64>()]. *)
Definition parse_i64 (s : string) : option Z :=
  match s with
  | String c s' =>
      if Ascii.eqb c "-"%char then
        match s' with EmptyString => None | _ => Z.opp <$> parse_decimal (- I64_MIN) 0 s' end
      else parse_unsigned I64_MAX s
  | EmptyString => None
  end.

(** [n.to_string()] of a non-negative integer; also Postgres's [numeric::text]. *)
Definition decimal (n : Z) : string := pretty (Z.to_N n).

(** The value Postgres reads from a string of digits ([text::numeric]). *)
Fixpoint numeral (acc : Z) (s : string) : Z :=
  match s with
  | EmptyString => acc
  | String c s' => numeral (10 * acc + digit_value c) s'
  end.

Lemma pretty_char_digit x :
  (x < 10)%N ->
  is_ascii_digit (pretty_N_char x) = true /\ digit_value (pretty_N_char x) = Z.of_N x.
Proof.
  intros Hx. assert (x = 0 \/ x = 1 \/ x = 2 \/ x = 3 \/ x = 4 \/ x = 5 \/ x = 6 \/ x = 7 \/ x = 8 \/ x = 9)%N
    as Hcases by lia.
  repeat destruct Hcases as [->|Hcases]; try (split; reflexivity). by subst.
Qed.

Lemma pretty_go_value (P : Z -> string -> Prop) x s :
  (forall v c s, Z.of_N v * 10 + digit_value c <= Z.of_N x -> is_ascii_digit c = true ->
     P (Z.of_N v * 10 + digit_value c) s -> P (Z.of_N v) (String c s)) ->
  P (Z.of_N x) s -> P 0 (pretty_N_go x s).
Proof.
  intros Hstep. revert s Hstep. induction (N.lt_wf_0 x) as [x _ IH]. intros s Hstep Hs.
  destruct (decide (x = 0)%N) as [->|Hx]; [done|].
  rewrite pretty_N_go_step by lia.
  pose proof (N.div_mod x 10 ltac:(lia)) as Hdm. pose proof (N.mod_lt x 10 ltac:(lia)) as Hm.
  destruct (pretty_char_digit _ Hm) as [Hd Hv].
  set (q := (x / 10)%N) in *. set (r := (x mod 10)%N) in *.
  apply IH; [lia| |].
  - intros v c s' Hle Hc HP. apply Hstep; [lia|done..].
  - apply Hstep; [rewrite Hv; lia|done|]. rewrite Hv.
    replace (Z.of_N q * 10 + Z.of_N r) with (Z.of_N x) by lia. done.
Qed.

Lemma pretty_go_parse max x s :
  Z.of_N x <= max -> parse_decimal max 0 (pretty_N_go x s) = parse_decimal max (Z.of_N x) s.
Proof.
  intros Hx. symmetry.
  apply (pretty_go_value (fun v t => parse_decimal max (Z.of_N x) s = parse_decimal max v t)); [|done].
  intros v c t Hle Hc HP. simpl. rewrite Hc. rewrite (Z.mul_comm 10).
  by rewrite (proj2 (Z.leb_le _ _)) by lia.
Qed.

Lemma pretty_go_numeral x s : numeral 0 (pretty_N_go x s) = numeral (Z.of_N x) s.
Proof.
  symmetry. apply (pretty_go_value (fun v t => numeral (Z.of_N x) s = numeral v t)); [|done].
  intros v c t _ Hc HP. simpl. by rewrite (Z.mul_comm 10).
Qed.

Lemma pretty_go_digits x s :
  all_chars is_ascii_digit s = true -> all_chars is_ascii_digit (pretty_N_go x s) = true.
Proof.
  intros Hs. apply (pretty_go_value (fun _ t => all_chars is_ascii_digit t = true)); [|done].
  intros v c t _ Hc HP. simpl. by rewrite Hc.
Qed.

Lemma pretty_go_nonempty x s :
  (x <> 0%N \/ s <> EmptyString) -> pretty_N_go x s <> EmptyString.
Proof.
  revert s. induction (N.lt_wf_0 x) as [x _ IH]. intros s H.
  destruct (decide (x = 0)%N) as [->|Hx]; [by destruct H|].
  rewrite pretty_N_go_step by lia. apply IH; [apply N.div_lt; lia|]. by right.
Qed.

Lemma decimal_go n :
  0 <= n -> decimal n = (if bool_decide (Z.to_N n = 0%N) then "0" else pretty_N_go (Z.to_N n) EmptyString).
Proof. intros Hn. unfold decimal, pretty, pretty_N. by destruct (decide _); case_bool_decide. Qed.

Lemma decimal_digits n : 0 <= n -> all_chars is_ascii_digit (decimal n) = true.
Proof. intros Hn. rewrite decimal_go by done. case_bool_decide; [done|]. by apply pretty_go_digits. Qed.

Lemma decimal_nonempty n : 0 <= n -> decimal n <> EmptyString.
Proof. intros Hn. rewrite decimal_go by done. case_bool_decide; [done|]. apply pretty_go_nonempty. by left. Qed.

Lemma numeral_decimal n : 0 <= n -> numeral 0 (decimal n) = n.
Proof.
  intros Hn. rewrite decimal_go by done. case_bool_decide as H.
  - assert (n = 0) as -> by lia. done.
  - rewrite pretty_go_numeral. simpl. lia.
Qed.

Lemma parse_unsigned_digits max s :
  all_chars is_ascii_digit s = true -> s <> EmptyString -> parse_unsigned max s = parse_decimal max 0 s.
Proof.
  destruct s as [|c s]; [done|]. simpl. intros [Hc _]%andb_true_iff _.
  destruct (Ascii.eqb_spec c "+"%char) as [->|]; [by vm_compute in Hc|done].
Qed.

Lemma parse_unsigned_decimal max n : 0 <= n <= max -> parse_unsigned max (decimal n) = Some n.
Proof.
  intros Hn. rewrite parse_unsigned_digits; [|apply decimal_digits; lia|apply decimal_nonempty; lia].
  rewrite decimal_go by lia. case_bool_decide as H.
  - assert (n = 0) as -> by lia. change (parse_decimal max 0 "0") with (if 0 <=? max then Some 0 else None).
    by rewrite (proj2 (Z.leb_le 0 max)) by lia.
  - rewrite pretty_go_parse by lia. simpl. by rewrite Z2N.id by lia.
Qed.

Lemma parse_decimal_range max acc s v :
  0 <= acc <= max -> parse_decimal max acc s = Some v -> acc <= v <= max.
Proof.
  revert acc. induction s as [|c s IH]; intros acc Hacc; simpl; [intros [= <-]; lia|].
  destruct (is_ascii_digit c) eqn:Hc; [|done]. destruct (Z.leb_spec (10 * acc + digit_value c) max); [|done].
  assert (0 <= digit_value c).
  { unfold is_ascii_digit in Hc. bool_prop. unfold digit_value. lia. }
  intros H'. apply IH in H'; lia.
Qed.

Lemma parse_unsigned_range max s v : 0 <= max -> parse_unsigned max s = Some v -> 0 <= v <= max.
Proof.
  intros Hm. destruct s as [|c s]; [done|]. unfold parse_unsigned.
  destruct (Ascii.eqb c "+"%char); [destruct s; [done|]|]; intros H; apply parse_decimal_range in H; lia.
Qed.

(** ** Case *)

Definition ascii_lower (c : ascii) : ascii :=
  if is_ascii_uppercase c then ascii_of_nat (nat_of_ascii c + 32) else c.

Fixpoint to_ascii_lowercase (s : string) : string :=
  match s with
  | EmptyString => EmptyString
  | String c s' => String (ascii_lower c) (to_ascii_lowercase s')
  end.

(** ** Byte order *)

Fixpoint bytes_cmp (a b : bytes) : comparison :=
  match a, b with
  | [], [] => Eq
  | [], _ => Lt
  | _, [] => Gt
  | x :: a', y :: b' => match x ?= y with Eq => bytes_cmp a' b' | c => c end
  end.

(** The [C] collation compares the encodings. *)
Definition str_cmp (a b : string) : comparison := bytes_cmp (as_bytes a) (as_bytes b).

Lemma bytes_cmp_eq a b : bytes_cmp a b = Eq <-> a = b.
Proof.
  revert b. induction a as [|x a IH]; intros [|y b]; simpl; try done.
  destruct (Z.compare_spec x y) as [->|H|H].
  - rewrite IH. split; [by intros ->|by intros [= ->]].
  - split; [done|]. intros [= -> _]. lia.
  - split; [done|]. intros [= -> _]. lia.
Qed.

Lemma bytes_cmp_antisym a b : bytes_cmp b a = CompOpp (bytes_cmp a b).
Proof.
  revert b. induction a as [|x a IH]; intros [|y b]; simpl; try done.
  rewrite (Z.compare_antisym x y). destruct (x ?= y); simpl; [apply IH|done..].
Qed.

Lemma bytes_cmp_trans a b c : bytes_cmp a b = Lt -> bytes_cmp b c = Lt -> bytes_cmp a c = Lt.
Proof.
  revert b c. induction a as [|x a IH]; intros [|y b] [|z c]; simpl; try done.
  destruct (Z.compare_spec x y), (Z.compare_spec y z), (Z.compare_spec x z); try done; try lia.
  intros. by eapply IH.
Qed.

Lemma as_bytes_inj a b : as_bytes a = as_bytes b -> a = b.
Proof. intros H. by rewrite <-(string_of_as_bytes a), H, string_of_as_bytes. Qed.

Lemma str_cmp_eq a b : str_cmp a b = Eq <-> a = b.
Proof. unfold str_cmp. rewrite bytes_cmp_eq. split; [apply as_bytes_inj|by intros ->]. Qed.
