(* ===== verification/Limiter.v ===== *)
(** * Limiter: the rate limiter shared by the services

    [http-common/src/rate_limiter.rs] and its configuration.  The limiter keeps a
    [governor] cell per key and, beside it, a bank of credits: a request that the
    service could not serve for reasons of its own gives back what it paid.  The
    [governor] crate is an interface: a cell admits or refuses a request, and over
    any run of checks it admits at most a burst plus one per period.  The [moka]
    caches hold one value per key and may drop an entry at any time. *)

From stdpp Require Import gmap.
From S2P Require Import Prelude Strings.

#[local] Open Scope string_scope.
#[local] Open Scope Z_scope.

Module Limiter.

(** ** [rate_limiter/config.rs] *)

Record Config := { window_secs : Z; max_burst : Z; entry_limit : Z; tti_secs : Z }.

Definition Config_default : Config :=
  {| window_secs := 60; max_burst := 30; entry_limit := 8192; tti_secs := 60 * 60 |}.

Definition set_window_secs (n : Z) (c : Config) : Config :=
  {| window_secs := n; max_burst := max_burst c; entry_limit := entry_limit c; tti_secs := tti_secs c |}.
Definition set_max_burst (n : Z) (c : Config) : Config :=
  {| window_secs := window_secs c; max_burst := n; entry_limit := entry_limit c; tti_secs := tti_secs c |}.
Definition set_entry_limit (n : Z) (c : Config) : Config :=
  {| window_secs := window_secs c; max_burst := max_burst c; entry_limit := n; tti_secs := tti_secs c |}.
Definition set_tti_secs (n : Z) (c : Config) : Config :=
  {| window_secs := window_secs c; max_burst := max_burst c; entry_limit := entry_limit c; tti_secs := n |}.

(** ** The [governor] crate *)

(** A quota: [burst] cells, one replenished per [period] nanoseconds. *)
Record GovQuota := { burst : Z; period : Z }.

Class Governor := {
  cell : Type;
  fresh_cell : cell;
  (** The cell's answer at a time: its next state, or when to come back. *)
  check_cell : GovQuota -> Z -> cell -> result cell Z }.

(** A run of checks of one cell at the given times; [n] were admitted. *)
Inductive checks `{Governor} (q : GovQuota) : list Z -> cell -> nat -> cell -> Prop :=
| checks_nil c : checks q [] c 0 c
| checks_ok t ts c c' c'' n :
    check_cell q t c = Ok c' -> checks q ts c' n c'' -> checks q (t :: ts) c (S n) c''
| checks_no t ts c w c' n :
    check_cell q t c = Err w -> checks q ts c n c' -> checks q (t :: ts) c n c'.

(** What the crate documents: in order of time, the cells admitted between two
    instants are at most the burst and what the time between replenishes. *)
Class GovernorLaws `{Governor} : Prop :=
  admits_at_most : forall q ts c n c' lo hi,
    1 <= burst q -> 1 <= period q -> StronglySorted Z.le ts -> Forall (fun t => lo <= t <= hi) ts ->
    lo <= hi -> checks q ts c n c' -> Z.of_nat n <= burst q + (hi - lo) / period q.

(** ** [rate_limiter.rs] *)

Inductive Paid := Quota | Credit.

#[export] Instance Paid_eq_dec : EqDecision Paid.
Proof. solve_decision. Defined.

Section limiter.
Context `{governor : Governor}.

Record Limiter := {
  l_quota : GovQuota; l_max_burst : Z;
  l_cells : gmap string cell; l_credits : gmap string Z }.

Inductive Built := BuiltOk (l : Limiter) | BuildFailed (why : string) | BuildPanicked.

(** [as u64]. *)
Definition as_u64 (n : Z) : Z := n mod 2 ^ 64.

(** [RateLimiter::new]; a period of zero is the panic of [expect]. *)
Definition new (runtime : bool) (c : Config) : Built :=
  if negb runtime then
    BuildFailed "Failed to construct the rate-limiter, no Tokio runtime detected"
  else if max_burst c =? 0 then
    BuildFailed "Failed to construct the rate-limiter, max-burst must be non-zero"
  else
    let replenish := as_u64 (window_secs c * 1000000000 / max_burst c) in
    if replenish =? 0 then BuildPanicked
    else BuiltOk {| l_quota := {| burst := max_burst c; period := replenish |};
                    l_max_burst := max_burst c; l_cells := ∅; l_credits := ∅ |}.

Definition with_credits (m : gmap string Z) (l : Limiter) : Limiter :=
  {| l_quota := l_quota l; l_max_burst := l_max_burst l; l_cells := l_cells l; l_credits := m |}.
Definition with_cells (m : gmap string cell) (l : Limiter) : Limiter :=
  {| l_quota := l_quota l; l_max_burst := l_max_burst l; l_cells := m; l_credits := l_credits l |}.

(** [checked_sub(1)] on the counter, when the key has one. *)
Definition spend_credit (key : string) (l : Limiter) : bool * Limiter :=
  match l_credits l !! key with
  | None => (false, l)
  | Some held => if held <=? 0 then (false, l) else (true, with_credits (<[key := held - 1]> (l_credits l)) l)
  end.

(** [measure_and_replace]: the entry of the key, created when absent. *)
Definition check_key (now : Z) (key : string) (l : Limiter) : result unit Z * Limiter :=
  let c := default fresh_cell (l_cells l !! key) in
  match check_cell (l_quota l) now c with
  | Ok c' => (Ok tt, with_cells (<[key := c']> (l_cells l)) l)
  | Err w => (Err w, with_cells (<[key := c]> (l_cells l)) l)
  end.

Definition allow (now : Z) (key : string) (l : Limiter) : result Paid Z * Limiter :=
  let '(spent, l1) := spend_credit key l in
  if spent then (Ok Credit, l1)
  else
    let '(r, l2) := check_key now key l1 in
    (match r with Ok _ => Ok Quota | Err w => Err w end, l2).

Definition refund (key : string) (paid : Paid) (l : Limiter) : Limiter :=
  if negb (bool_decide (paid = Quota)) then l
  else
    let held := default 0 (l_credits l !! key) in
    with_credits (<[key := if held <? l_max_burst l then held + 1 else held]> (l_credits l)) l.

(** The key of a request: the first address the trusted headers give. *)
Definition client_ip (rightmost_x_forwarded_for cf_connecting_ip true_client_ip : option string) : string :=
  match rightmost_x_forwarded_for with
  | Some addr => addr
  | None =>
      match cf_connecting_ip with
      | Some addr => addr
      | None => match true_client_ip with Some addr => addr | None => "unknown" end
      end
  end.

(** ** Runs of a limiter *)

Inductive Op :=
| OpAllow (now : Z) (key : string)
| OpRefund (key : string) (paid : Paid)
| OpEvictCredits (key : string)
| OpEvictCell (key : string).

Definition op_step (op : Op) (l : Limiter) : option Paid * Limiter :=
  match op with
  | OpAllow now key => let '(r, l') := allow now key l in (match r with Ok p => Some p | Err _ => None end, l')
  | OpRefund key paid => (None, refund key paid l)
  | OpEvictCredits key => (None, with_credits (delete key (l_credits l)) l)
  | OpEvictCell key => (None, with_cells (delete key (l_cells l)) l)
  end.

(** Requests admitted for [key], and refunds to it that count. *)
Fixpoint admitted (key : string) (ops : list Op) (l : Limiter) : nat :=
  match ops with
  | [] => 0%nat
  | op :: ops' =>
      let '(r, l') := op_step op l in
      let rest := admitted key ops' l' in
      match op, r with
      | OpAllow _ k, Some _ => if String.eqb k key then S rest else rest
      | _, _ => rest
      end
  end.

Definition is_refund (key : string) (op : Op) : bool :=
  match op with OpRefund k Quota => String.eqb k key | _ => false end.

Definition refunded (key : string) (ops : list Op) : nat :=
  length (filter (fun op => is_refund key op = true) ops).

(** The times at which [key] was checked. *)
Definition checked_at (key : string) (ops : list Op) : list Z :=
  omap (fun op => match op with OpAllow now k => if String.eqb k key then Some now else None | _ => None end) ops.

Definition credits_of (key : string) (l : Limiter) : Z := Z.max 0 (default 0 (l_credits l !! key)).
Definition cell_of (key : string) (l : Limiter) : cell := default fresh_cell (l_cells l !! key).

(** ** Proofs *)

Lemma spend_credit_spec key l spent l' k :
  spend_credit key l = (spent, l') ->
  l_quota l' = l_quota l /\ l_cells l' = l_cells l /\ l_max_burst l' = l_max_burst l /\
  credits_of k l' + (if spent && String.eqb key k then 1 else 0) = credits_of k l.
Proof.
  unfold spend_credit, credits_of. destruct (l_credits l !! key) as [held|] eqn:E; [destruct (held <=? 0) eqn:Eh|];
    intros [= <- <-]; simpl; split_and!; try done; try lia. bool_prop.
  destruct (String.eqb_spec key k) as [<-|Hne]; simpl.
  - rewrite lookup_insert_eq, E. simpl. lia.
  - rewrite lookup_insert_ne by done. lia.
Qed.

Lemma refund_spec key paid l k :
  credits_of k (refund key paid l) <= credits_of k l + (if is_refund k (OpRefund key paid) then 1 else 0) /\
  l_quota (refund key paid l) = l_quota l /\ l_cells (refund key paid l) = l_cells l.
Proof.
  unfold refund, credits_of, is_refund. destruct paid; simpl; [|split; [lia|done]]. split; [|done].
  destruct (String.eqb_spec key k) as [<-|Hne]; simpl.
  - rewrite lookup_insert_eq. simpl. destruct (_ <? _); lia.
  - rewrite lookup_insert_ne by done. lia.
Qed.

(** The admissions of a key are those of its cell and those its credits paid for. *)
Lemma admitted_split key ops l :
  (forall k, OpEvictCell k ∈ ops -> k <> key) ->
  exists q c ts cell',
    admitted key ops l = (q + c)%nat /\ checks (l_quota l) ts (cell_of key l) q cell' /\
    ts `sublist_of` checked_at key ops /\ Z.of_nat c <= credits_of key l + Z.of_nat (refunded key ops).
Proof.
  revert l. induction ops as [|op ops IH]; intros l Hev.
  { exists 0%nat, 0%nat, [], (cell_of key l). unfold credits_of. simpl.
    split_and!; [done|constructor|constructor|lia]. }
  assert (Hev' : forall k, OpEvictCell k ∈ ops -> k <> key).
  { intros k Hk. apply Hev. by apply list_elem_of_further. }
  destruct op as [now k|k paid|k|k]; cbn [admitted op_step].
  - unfold allow. destruct (spend_credit k l) as [spent l1] eqn:Es.
    destruct (spend_credit_spec k l spent l1 key Es) as (Hq & Hc & _ & Hcr).
    unfold checked_at, refunded. cbn [omap list_omap filter is_refund]. fold (checked_at key ops).
    rewrite filter_cons_False by done. fold (refunded key ops).
    destruct spent; simpl in Hcr.
    + destruct (IH l1 Hev') as (q & c & ts & c' & H1 & H2 & H3 & H4). rewrite Hq in H2.
      unfold cell_of in *. rewrite Hc in H2. simpl.
      destruct (String.eqb k key); [exists q, (S c), ts, c'|exists q, c, ts, c'];
        (split_and!; [lia|done| |lia]); [by apply sublist_cons|done].
    + unfold check_key.
      assert (Hcell : cell_of key l1 = cell_of key l) by (unfold cell_of; by rewrite Hc).
      destruct (check_cell (l_quota l1) now (default fresh_cell (l_cells l1 !! k))) as [c1|w] eqn:Ec;
        simpl;
        (match goal with |- context [admitted key ops ?m] => destruct (IH m Hev') as (q & c & ts & c' & H1 & H2 & H3 & H4) end);
        unfold cell_of, credits_of in H2, H4; simpl in H2, H4; rewrite Hq in *;
        fold (credits_of key l1) in H4; (destruct (String.eqb_spec k key) as [->|Hne];
        [rewrite lookup_insert_eq in H2; simpl in H2|rewrite lookup_insert_ne in H2 by done; fold (cell_of key l1) in H2; rewrite Hcell in H2]).
      * exists (S q), c, (now :: ts), c'. rewrite H1. split_and!; [lia| |by apply sublist_skip|lia].
        eapply checks_ok; [|exact H2]. by rewrite <- Hcell.
      * exists q, c, ts, c'. split_and!; [done|done|done|lia].
      * exists q, c, (now :: ts), c'. split_and!; [done| |by apply sublist_skip|lia].
        fold (cell_of key l1) in H2, Ec. rewrite Hcell in H2, Ec. by eapply checks_no.
      * exists q, c, ts, c'. split_and!; [done|done|done|lia].
  - destruct (IH (refund k paid l) Hev') as (q & c & ts & c' & H1 & H2 & H3 & H4).
    destruct (refund_spec k paid l key) as (Hr & Hq & Hc). rewrite Hq in H2. unfold cell_of in *. rewrite Hc in H2.
    exists q, c, ts, c'. split_and!; [done|done|done|]. unfold refunded in *. rewrite filter_cons.
    destruct (decide (is_refund key (OpRefund k paid) = true)) as [E|E%not_true_is_false]; rewrite E in Hr;
      [cbn [length]; lia|lia].
  - destruct (IH (with_credits (delete k (l_credits l)) l) Hev') as (q & c & ts & c' & H1 & H2 & H3 & H4).
    exists q, c, ts, c'. split_and!; [done|done|done|]. 
    unfold refunded in *. rewrite filter_cons_False by done. unfold credits_of in *. simpl in H4.
    destruct (decide (k = key)) as [->|Hne]; [rewrite lookup_delete_eq in H4; simpl in H4; lia|].
    by rewrite lookup_delete_ne in H4.
  - destruct (IH (with_cells (delete k (l_cells l)) l) Hev') as (q & c & ts & c' & H1 & H2 & H3 & H4).
    exists q, c, ts, c'. split_and!; [done| |done|done]. unfold cell_of in *. simpl in H2.
    rewrite lookup_delete_ne in H2; [done|]. apply Hev. apply list_elem_of_here.
Qed.

Lemma admitted_bound `{!GovernorLaws} key ops l lo hi :
  1 <= burst (l_quota l) -> 1 <= period (l_quota l) -> lo <= hi ->
  StronglySorted Z.le (checked_at key ops) -> Forall (fun t => lo <= t <= hi) (checked_at key ops) ->
  (forall k, OpEvictCell k ∈ ops -> k <> key) ->
  Z.of_nat (admitted key ops l)
  <= burst (l_quota l) + (hi - lo) / period (l_quota l) + credits_of key l + Z.of_nat (refunded key ops).
Proof.
  intros Hb Hp Hlh Hs Hf Hev. destruct (admitted_split key ops l Hev) as (q & c & ts & c' & -> & H1 & H2 & H3).
  assert (Z.of_nat q <= burst (l_quota l) + (hi - lo) / period (l_quota l)); [|lia].
  apply (admits_at_most (l_quota l) ts (cell_of key l) q c' lo hi); try done.
  - by eapply sublist_sorted.
  - by eapply sublist_all.
Qed.

(** A key is served within its rate: however its requests and refunds are
    interleaved with those of other keys, and whatever the caches drop except the
    cell of the key, the requests admitted for it between two instants, less the
    ones it got back, are at most a burst, plus one per period of the time between,
    plus the credits it had. *)
Theorem limiter_bounds_key `{!GovernorLaws} key ops l lo hi :
  1 <= burst (l_quota l) -> 1 <= period (l_quota l) -> lo <= hi ->
  StronglySorted Z.le (checked_at key ops) -> Forall (fun t => lo <= t <= hi) (checked_at key ops) ->
  (forall k, OpEvictCell k ∈ ops -> k <> key) ->
  Z.of_nat (admitted key ops l)
  <= burst (l_quota l) + (hi - lo) / period (l_quota l) + credits_of key l + Z.of_nat (refunded key ops).
Proof. apply admitted_bound. Qed.

(** Building a limiter: it succeeds, on a runtime, exactly for a non-zero burst
    whose share of the window is a whole nanosecond or more (and not a multiple of
    2^64 of them), with that period; a burst too large for its window makes the
    constructor panic, and it fails cleanly only without a runtime or burst. *)
Theorem limiter_new_exact runtime c :
  0 <= window_secs c -> 0 <= max_burst c ->
  match new runtime c with
  | BuiltOk l =>
      runtime = true /\ 1 <= max_burst c /\ l_quota l = {| burst := max_burst c; period := period (l_quota l) |} /\
      1 <= period (l_quota l) /\ period (l_quota l) = (window_secs c * 1000000000 / max_burst c) mod 2 ^ 64 /\
      l_cells l = ∅ /\ l_credits l = ∅ /\ l_max_burst l = max_burst c
  | BuildFailed _ => runtime = false \/ max_burst c = 0
  | BuildPanicked =>
      runtime = true /\ 1 <= max_burst c /\ (window_secs c * 1000000000 / max_burst c) mod 2 ^ 64 = 0
  end.
Proof.
  intros Hw Hb. unfold new, as_u64. destruct runtime; simpl; [|by left].
  destruct (max_burst c =? 0) eqn:E0; bool_prop; [by right|].
  pose proof (Z.mod_pos_bound (window_secs c * 1000000000 / max_burst c) (2 ^ 64) eq_refl) as Hm.
  set (p := (window_secs c * 1000000000 / max_burst c) mod 2 ^ 64) in *.
  destruct (p =? 0) eqn:E; bool_prop; [split_and!; [done|lia|done]|]. cbn [l_quota period l_cells l_credits l_max_burst].
  split_and!; try done; lia.
Qed.
End limiter.

(** ** A concrete governor: the generic cell rate algorithm *)

Module Gcra.
#[export] Instance gcra : Governor :=
  {| cell := Z; fresh_cell := 0;
     check_cell := fun q t tat =>
       if tat <=? t + (burst q - 1) * period q then Ok (Z.max t tat + period q)
       else Err (tat - (burst q - 1) * period q) |}.

Lemma gcra_run q ts (c c' : cell) n lo hi :
  1 <= period q -> Forall (fun t => lo <= t <= hi) ts -> lo <= hi -> checks q ts c n c' -> 1 <= burst q ->
  n = 0%nat \/ Z.max lo c + (Z.of_nat n - 1) * period q <= hi + (burst q - 1) * period q.
Proof.
  intros Hp Hf Hlh Hc Hb. induction Hc as [c|t ts c c1 c2 n Hk _ IH|t ts c w c1 n Hk _ IH]; [by left| |].
  - apply Forall_cons in Hf as [Ht Hf]. right. simpl in Hk. destruct (_ <=? _) eqn:E; [|done]. bool_prop.
    injection Hk as <-. specialize (IH Hf). rewrite Nat2Z.inj_succ.
    destruct IH as [->|IH]; [simpl; nia|nia].
  - apply Forall_cons in Hf as [_ Hf]. auto.
Qed.

#[export] Instance gcra_laws : GovernorLaws.
Proof.
  intros q ts c n c' lo hi Hb Hp _ Hf Hlh Hc.
  destruct (gcra_run q ts c c' n lo hi Hp Hf Hlh Hc Hb) as [->|H].
  - pose proof (Z.div_pos (hi - lo) (period q)). simpl. lia.
  - assert (Z.of_nat n - burst q <= (hi - lo) / period q); [|lia]. apply Z.div_le_lower_bound; nia.
Qed.

Definition demo_limiter : Limiter :=
  {| l_quota := {| burst := 2; period := 30 |}; l_max_burst := 2; l_cells := ∅; l_credits := ∅ |}.

(** Two requests exhaust the burst, a third is refused, a refund pays for a fourth. *)
Definition demo_ops : list Op :=
  [OpAllow 1000 "a"; OpAllow 1001 "a"; OpAllow 1002 "a"; OpRefund "a" Quota; OpAllow 1003 "a"].

Lemma limiter_bounds_key_witness :
  admitted "a" demo_ops demo_limiter = 3%nat /\
  Z.of_nat (admitted "a" demo_ops demo_limiter) <= 2 + (1003 - 1000) / 30 + 0 + 1.
Proof.
  split; [by vm_compute|].
  apply (limiter_bounds_key "a" demo_ops demo_limiter 1000 1003); try (vm_compute; congruence).
  - change (StronglySorted Z.le [1000; 1001; 1002; 1003]). repeat constructor; lia.
  - change (Forall (fun t => 1000 <= t <= 1003) [1000; 1001; 1002; 1003]). repeat constructor; lia.
  - intros k Hk. unfold demo_ops in Hk. repeat (apply elem_of_cons in Hk as [Hk|Hk]; [discriminate|]).
    by apply not_elem_of_nil in Hk.
Defined.

Lemma limiter_new_exact_witness :
  match new true (set_max_burst 2 Config_default) with BuiltOk l => period (l_quota l) = 30000000000 | _ => False end.
Proof.
  pose proof (limiter_new_exact true (set_max_burst 2 Config_default) ltac:(done) ltac:(done)) as H.
  vm_compute in H |- *. reflexivity.
Defined.
End Gcra.
End Limiter.
