(* ===== verification/Schema.v ===== *)
(** * Schema: the device-attestation database

    The tables of [crates/device-attestation/migrations] the modelled services
    share, each a finite map from its primary key to its rows, and the row types
    of [chain/outbox.rs].  A row's primary key is the map's key, so key
    uniqueness holds by construction; the [UNIQUE (full_username)] constraint is
    an invariant the inserts maintain. *)

From S2P Require Import Prelude Strings.

#[local] Open Scope Z_scope.

(** ** [chain/outbox.rs]: the two state machines of one row *)

Inductive Status :=
| Queued
| Reserved
| Submitting
| Assigned
| RetryAfter
| FailedTerminal.

#[export] Instance Status_eq_dec : EqDecision Status.
Proof. solve_decision. Defined.

Definition Status_ALL : list Status :=
  [Queued; Reserved; Submitting; Assigned; RetryAfter; FailedTerminal].

Definition Status_as_str (s : Status) : string :=
  match s with
  | Queued => "QUEUED"
  | Reserved => "RESERVED"
  | Submitting => "SUBMITTING"
  | Assigned => "ASSIGNED"
  | RetryAfter => "RETRY_AFTER"
  | FailedTerminal => "FAILED_TERMINAL"
  end.

Inductive DotnsStatus :=
| DPending
| DSubmitting
| DReserved
| DRetryAfter
| DFailedTerminal
| DExpired
| DAbandoned.

#[export] Instance DotnsStatus_eq_dec : EqDecision DotnsStatus.
Proof. solve_decision. Defined.

Definition DotnsStatus_ALL : list DotnsStatus :=
  [DPending; DSubmitting; DReserved; DRetryAfter; DFailedTerminal; DExpired; DAbandoned].

Definition DotnsStatus_as_str (s : DotnsStatus) : string :=
  match s with
  | DPending => "PENDING"
  | DSubmitting => "SUBMITTING"
  | DReserved => "RESERVED"
  | DRetryAfter => "RETRY_AFTER"
  | DFailedTerminal => "FAILED_TERMINAL"
  | DExpired => "EXPIRED"
  | DAbandoned => "ABANDONED"
  end.

(** Terminal states: no operation of the program is meant to leave them. *)
Definition terminal (s : Status) : bool :=
  match s with Assigned | FailedTerminal => true | _ => false end.

Definition dotns_terminal (s : DotnsStatus) : bool :=
  match s with
  | DReserved | DFailedTerminal | DExpired | DAbandoned => true
  | _ => false
  end.

(** ** [username_reservations] *)

(** The validated claim, as intake hands it to the outbox. *)
Record NewReservation := {
  nr_account_id : string;
  nr_candidate_account_id : string;
  nr_base : string;
  nr_digits : string;
  nr_full_username : string;
  nr_candidate_signature : bytes;
  nr_ring_vrf_key : bytes;
  nr_proof_of_ownership : bytes;
  nr_consumer_registration_signature : bytes;
  nr_identifier_key : bytes;
  nr_dotns_signature : option bytes;
  nr_dotns_signed_at : option Z;
  nr_reserved_username : option string;
  nr_payload_version : Z;
}.

(** A stored row: the claim's columns, written once, and the two lanes'
    bookkeeping. *)
Record Row := {
  r_new : NewReservation;
  r_queue_group : Z;
  r_status : Status;
  r_tx_hash : option string;
  r_nonce : option Z;
  r_attempt : Z;
  r_not_before : option Z;
  r_last_error : option string;
  r_submitted_at : option Z;
  r_dotns_status : option DotnsStatus;
  r_dotns_tx_hash : option string;
  r_dotns_attempt : Z;
  r_dotns_not_before : option Z;
  r_dotns_last_error : option string;
  r_created_at : Z;
  r_updated_at : Z;
}.

Definition r_full_username (r : Row) : string := nr_full_username (r_new r).

(** ** The other tables *)

Record LeaseRow := {
  l_holder_id : string;
  l_lease_epoch : Z;
  l_expires_at : Z;
  l_heartbeat_at : Z;
}.

Record VoucherRow := {
  v_minted_batch : string;
  v_created_at : Z;
  v_expires_at : Z;
  v_used_at : option Z;
}.

Inductive WidevineStatus := WPending | WConsumed.

#[export] Instance WidevineStatus_eq_dec : EqDecision WidevineStatus.
Proof. solve_decision. Defined.

Record DeviceRow := {
  d_status : WidevineStatus;
  d_reservation_id : option Z;
}.

Record ChallengeRow := {
  c_created_at : Z;
  c_expires_at : Z;
  c_consumed_at : option Z;
}.

(** The database. [db_next_id] is the [BIGSERIAL] sequence behind
    [username_reservations.id]; like a Postgres sequence it is not
    transactional, a rolled-back insert still consumes its value. *)
Record Db := {
  db_reservations : gmap Z Row;
  db_next_id : Z;
  db_leases : gmap string LeaseRow;
  db_vouchers : gmap bytes VoucherRow;
  db_devices : gmap bytes DeviceRow;
  db_challenges : gmap bytes ChallengeRow;
}.

Definition with_reservations (t : gmap Z Row) (db : Db) : Db :=
  {| db_reservations := t; db_next_id := db_next_id db; db_leases := db_leases db;
     db_vouchers := db_vouchers db; db_devices := db_devices db;
     db_challenges := db_challenges db |}.
Definition with_next_id (n : Z) (db : Db) : Db :=
  {| db_reservations := db_reservations db; db_next_id := n; db_leases := db_leases db;
     db_vouchers := db_vouchers db; db_devices := db_devices db;
     db_challenges := db_challenges db |}.
Definition with_leases (t : gmap string LeaseRow) (db : Db) : Db :=
  {| db_reservations := db_reservations db; db_next_id := db_next_id db; db_leases := t;
     db_vouchers := db_vouchers db; db_devices := db_devices db;
     db_challenges := db_challenges db |}.
Definition with_vouchers (t : gmap bytes VoucherRow) (db : Db) : Db :=
  {| db_reservations := db_reservations db; db_next_id := db_next_id db;
     db_leases := db_leases db; db_vouchers := t; db_devices := db_devices db;
     db_challenges := db_challenges db |}.
Definition with_devices (t : gmap bytes DeviceRow) (db : Db) : Db :=
  {| db_reservations := db_reservations db; db_next_id := db_next_id db;
     db_leases := db_leases db; db_vouchers := db_vouchers db; db_devices := t;
     db_challenges := db_challenges db |}.
Definition with_challenges (t : gmap bytes ChallengeRow) (db : Db) : Db :=
  {| db_reservations := db_reservations db; db_next_id := db_next_id db;
     db_leases := db_leases db; db_vouchers := db_vouchers db;
     db_devices := db_devices db; db_challenges := t |}.

Definition empty_db : Db :=
  {| db_reservations := ∅; db_next_id := 1; db_leases := ∅; db_vouchers := ∅;
     db_devices := ∅; db_challenges := ∅ |}.

(** ** Rollback equivalence

    What a rolled-back transaction restores: every table, but not the
    sequence. *)

Definition db_equiv (a b : Db) : Prop :=
  db_reservations a = db_reservations b /\ db_leases a = db_leases b /\
  db_vouchers a = db_vouchers b /\ db_devices a = db_devices b /\
  db_challenges a = db_challenges b.

#[export] Instance db_equiv_equivalence : Equivalence db_equiv.
Proof.
  split.
  - by intros a.
  - intros a b (? & ? & ? & ? & ?). repeat split; by symmetry.
  - intros a b c (? & ? & ? & ? & ?) (? & ? & ? & ? & ?).
    repeat split; etrans; eassumption.
Qed.

(** Run a transaction body: its effects are kept when it commits, and rolled
    back (all but the sequence) when it fails. *)
Definition txn {A E} (body : Db -> result A E * Db) (db : Db) : result A E * Db :=
  match body db with
  | (Ok a, db') => (Ok a, db')
  | (Err e, db') => (Err e, with_next_id (db_next_id db') db)
  end.

Lemma txn_err_equiv {A E} (body : Db -> result A E * Db) db e db' :
  txn body db = (Err e, db') -> db_equiv db db'.
Proof.
  unfold txn. destruct (body db) as [[a|e'] d]; [done|].
  intros [= <- <-]. repeat split.
Qed.

Lemma txn_ok {A E} (body : Db -> result A E * Db) db a db' :
  txn body db = (Ok a, db') <-> body db = (Ok a, db').
Proof. unfold txn. destruct (body db) as [[?|?] ?]; naive_solver. Qed.

(** ** Statement outcomes

    A statement sent over the pool runs and is acknowledged, fails without an
    effect, or runs with its acknowledgement lost; the caller sees the last two
    alike. *)

Inductive DbFate := Fine | Refused | AckLost.

Definition run_stmt {A} (fate : DbFate) (stmt : Db -> A * Db) (db : Db) : option A * Db :=
  match fate with
  | Fine => let '(a, db') := stmt db in (Some a, db')
  | Refused => (None, db)
  | AckLost => (None, (stmt db).2)
  end.

(** ** Well-formed databases *)

(** [UNIQUE (full_username)]. *)
Definition usernames_unique (t : gmap Z Row) : Prop :=
  forall i j ri rj, t !! i = Some ri -> t !! j = Some rj ->
    r_full_username ri = r_full_username rj -> i = j.

(** Ids come from the sequence. *)
Definition ids_below (t : gmap Z Row) (n : Z) : Prop :=
  forall i r, t !! i = Some r -> i < n.

(** [CHECK (queue_group BETWEEN 1 AND 4)], [CHECK (payload_version >= 1)]. *)
Definition row_checks (r : Row) : Prop :=
  1 <= r_queue_group r <= 4 /\ 1 <= nr_payload_version (r_new r) <= I16_MAX.

Record db_wf (db : Db) : Prop := {
  wf_unique : usernames_unique (db_reservations db);
  wf_ids : ids_below (db_reservations db) (db_next_id db);
  wf_checks : forall i r, db_reservations db !! i = Some r -> row_checks r;
}.
