(* ===== verification/Lease.v ===== *)
(** * Lease: the single-writer lease ([chain/lease.rs])

    The [writer_lease] table and its statements.  A statement's [now] is the
    Postgres clock at its execution.  The interface other components rely on is
    that a guard, once lost, is lost for good ([lease_lost_forever]), and that a
    live guard excludes every other holder ([try_acquire_excluded]). *)

From S2P Require Import Prelude Schema.

#[local] Open Scope Z_scope.

Module Lease.

(** [outbox::Guard]: the proof of holding a lease that every guarded statement
    repeats. *)
Record Guard := {
  lease_name : string;
  holder_id : string;
  epoch : Z;
}.

(** The condition [LEASE_HELD] of [outbox.rs], of [lease::fence] and of
    [lease::renew]: the row names this holder at this epoch and has not expired. *)
Definition held_row (now : Z) (g : Guard) (l : LeaseRow) : bool :=
  String.eqb (l_holder_id l) (holder_id g) && (l_lease_epoch l =? epoch g)
  && (now <? l_expires_at l).

Definition lease_held (now : Z) (g : Guard) (t : gmap string LeaseRow) : bool :=
  match t !! lease_name g with
  | Some l => held_row now g l
  | None => false
  end.

(** [lease::fence]: lock and validate the lease row inside a transaction. *)
Definition fence (now : Z) (g : Guard) (t : gmap string LeaseRow) : bool :=
  lease_held now g t.

Definition try_acquire (now : Z) (name holder : string) (ttl : Z)
    (t : gmap string LeaseRow) : option Z * gmap string LeaseRow :=
  match t !! name with
  | None =>
      (Some 1, <[name := {| l_holder_id := holder; l_lease_epoch := 1;
                            l_expires_at := now + secs ttl; l_heartbeat_at := now |}]> t)
  | Some l =>
      if (l_expires_at l <? now) || String.eqb (l_holder_id l) holder then
        let e := l_lease_epoch l + 1 in
        (Some e, <[name := {| l_holder_id := holder; l_lease_epoch := e;
                              l_expires_at := now + secs ttl; l_heartbeat_at := now |}]> t)
      else (None, t)
  end.

Definition renew (now : Z) (g : Guard) (ttl : Z) (t : gmap string LeaseRow)
    : bool * gmap string LeaseRow :=
  match t !! lease_name g with
  | Some l =>
      if held_row now g l then
        (true, <[lease_name g := {| l_holder_id := l_holder_id l;
                                    l_lease_epoch := l_lease_epoch l;
                                    l_expires_at := now + secs ttl;
                                    l_heartbeat_at := now |}]> t)
      else (false, t)
  | None => (false, t)
  end.

Definition alive (now : Z) (name : string) (t : gmap string LeaseRow) : bool :=
  match t !! name with
  | Some l => now <? l_expires_at l
  | None => false
  end.

(** ** Specifications *)

Lemma lease_held_spec now g t :
  lease_held now g t = true <->
  exists l, t !! lease_name g = Some l /\ l_holder_id l = holder_id g /\
            l_lease_epoch l = epoch g /\ now < l_expires_at l.
Proof.
  unfold lease_held, held_row. destruct (t !! lease_name g) as [l|]; [|naive_solver].
  split.
  - intros H. bool_prop. naive_solver.
  - intros (l' & [= ->] & -> & -> & Ht). rewrite String.eqb_refl, Z.eqb_refl. simpl. lia.
Qed.

(** A guard was granted in the past: the row has moved to a later epoch, or is
    still at this one with this holder. *)
Definition granted (g : Guard) (t : gmap string LeaseRow) : Prop :=
  exists l, t !! lease_name g = Some l /\
    (epoch g < l_lease_epoch l \/ epoch g = l_lease_epoch l /\ holder_id g = l_holder_id l).

Lemma held_granted now g t : lease_held now g t = true -> granted g t.
Proof. intros (l & ? & ? & ? & ?)%lease_held_spec. exists l. naive_solver. Qed.

Lemma try_acquire_granted now name holder ttl t e t' :
  try_acquire now name holder ttl t = (Some e, t') ->
  granted {| lease_name := name; holder_id := holder; epoch := e |} t'.
Proof.
  unfold try_acquire. intros H.
  repeat destr_match_in H; simplify_eq; eexists; simpl; rewrite lookup_insert_eq;
    naive_solver.
Qed.

(** An acquired lease is held, for any positive TTL. *)
Lemma try_acquire_held now name holder ttl t e t' :
  0 < ttl -> try_acquire now name holder ttl t = (Some e, t') ->
  lease_held now {| lease_name := name; holder_id := holder; epoch := e |} t' = true.
Proof.
  intros Httl%secs_pos H. apply lease_held_spec. unfold try_acquire in H.
  repeat destr_match_in H; simplify_eq; eexists; simpl; rewrite lookup_insert_eq;
    (split; [done|]); simpl; naive_solver lia.
Qed.

(** A live lease keeps every other holder out, and the attempt changes nothing. *)
Lemma try_acquire_excluded_lem now name holder ttl t g :
  lease_name g = name -> lease_held now g t = true -> holder <> holder_id g ->
  try_acquire now name holder ttl t = (None, t).
Proof.
  intros <- (l & Hl & Hh & He & Ht)%lease_held_spec Hne. unfold try_acquire.
  rewrite Hl. replace (l_expires_at l <? now) with false by lia.
  rewrite Hh. destruct (String.eqb_spec (holder_id g) holder); [congruence|done].
Qed.

(** An expired (or absent) lease can always be taken over. *)
Lemma try_acquire_expired now name holder ttl t :
  (forall l, t !! name = Some l -> l_expires_at l < now) ->
  exists e t', try_acquire now name holder ttl t = (Some e, t').
Proof.
  intros H. unfold try_acquire. destruct (t !! name) as [l|] eqn:E; [|eauto].
  specialize (H l eq_refl). replace (l_expires_at l <? now) with true by lia.
  simpl. eauto.
Qed.

Lemma renew_iff_held now g ttl t : (renew now g ttl t).1 = lease_held now g t.
Proof. unfold renew, lease_held. by repeat destr_match. Qed.

Lemma renew_false now g ttl t :
  lease_held now g t = false -> renew now g ttl t = (false, t).
Proof. unfold renew, lease_held. destr_match; [|done]. by intros ->. Qed.

Lemma renew_held now g ttl t t' :
  0 < ttl -> renew now g ttl t = (true, t') -> lease_held now g t' = true.
Proof.
  intros Httl%secs_pos. unfold renew. destr_match; [|done].
  destruct (held_row now g l) eqn:Eh; [|done].
  intros [= <-]. apply lease_held_spec. eexists. rewrite lookup_insert_eq.
  split; [done|]. unfold held_row in Eh. bool_prop. simpl. naive_solver lia.
Qed.

(** ** The lease protocol

    Any number of processes acquire and renew while the database clock moves
    forward. *)

Definition LeaseState : Type := Z * gmap string LeaseRow.

Inductive lease_step : LeaseState -> LeaseState -> Prop :=
| ls_tick now now' t : now <= now' -> lease_step (now, t) (now', t)
| ls_acquire now name holder ttl t :
    lease_step (now, t) (now, (try_acquire now name holder ttl t).2)
| ls_renew now g ttl t :
    lease_step (now, t) (now, (renew now g ttl t).2).

(** A guard that is granted but no longer valid: superseded, or expired. *)
Definition dead (now : Z) (g : Guard) (t : gmap string LeaseRow) : Prop :=
  exists l, t !! lease_name g = Some l /\
    (epoch g < l_lease_epoch l \/
     epoch g = l_lease_epoch l /\ holder_id g = l_holder_id l /\ l_expires_at l <= now).

Lemma dead_not_held now g t : dead now g t -> lease_held now g t = false.
Proof.
  intros (l & Hl & H). destruct (lease_held now g t) eqn:E; [|done].
  apply lease_held_spec in E as (l' & Hl' & ?). simplify_eq. naive_solver lia.
Qed.

Lemma granted_lost_dead now g t :
  granted g t -> lease_held now g t = false -> dead now g t.
Proof.
  intros (l & Hl & H) Hheld. exists l. split; [done|].
  destruct H as [H|[H1 H2]]; [by left|right]. split; [done|]. split; [done|].
  destruct (Z.le_gt_cases (l_expires_at l) now) as [|Hgt]; [done|].
  assert (lease_held now g t = true); [|congruence].
  apply lease_held_spec. exists l. naive_solver.
Qed.

Lemma try_acquire_dead now name holder ttl t g :
  dead now g t -> dead now g (try_acquire now name holder ttl t).2.
Proof.
  intros (l & Hl & H). unfold try_acquire.
  destruct (decide (name = lease_name g)) as [->|Hne].
  - rewrite Hl. destr_match; simpl; [|by exists l].
    eexists. rewrite lookup_insert_eq. split; [done|]. simpl. left. lia.
  - exists l. split; [|done]. repeat destr_match; simpl;
      by rewrite ?lookup_insert_ne.
Qed.

Lemma renew_dead now g g' ttl t : dead now g t -> dead now g (renew now g' ttl t).2.
Proof.
  intros (l & Hl & H). unfold renew.
  destruct (decide (lease_name g' = lease_name g)) as [Heq|Hne].
  - rewrite Heq, Hl. destruct (held_row now g' l) eqn:E; simpl; [|by exists l].
    eexists. rewrite lookup_insert_eq. split; [done|]. simpl.
    unfold held_row in E. bool_prop. left. lia.
  - exists l. split; [|done]. repeat destr_match; simpl;
      by rewrite ?lookup_insert_ne.
Qed.

Lemma dead_step now t now' t' g :
  lease_step (now, t) (now', t') -> dead now g t -> dead now' g t'.
Proof.
  inversion 1; subst.
  - intros (l & Hl & H'). exists l. naive_solver lia.
  - apply try_acquire_dead.
  - apply renew_dead.
Qed.

Lemma dead_steps s s' g :
  rtc lease_step s s' -> dead s.1 g s.2 -> dead s'.1 g s'.2.
Proof.
  induction 1 as [|[] [] ? Hs _ IH]; [done|]. intros Hd. apply IH. simpl in *.
  by eapply dead_step.
Qed.

(** Epochs never go back. *)
Lemma epoch_step now t now' t' name l :
  lease_step (now, t) (now', t') -> t !! name = Some l ->
  exists l', t' !! name = Some l' /\ l_lease_epoch l <= l_lease_epoch l'.
Proof.
  inversion 1; subst; intros Hl; [by exists l| |].
  - unfold try_acquire. destruct (decide (name0 = name)) as [->|Hne].
    + rewrite Hl. destr_match; simpl; [|by exists l].
      eexists. rewrite lookup_insert_eq. split; [done|]. simpl. lia.
    + exists l. split; [|lia]. repeat destr_match; simpl;
        by rewrite ?lookup_insert_ne.
  - unfold renew. destruct (decide (lease_name g = name)) as [->|Hne].
    + rewrite Hl. destr_match; simpl; [|by exists l].
      eexists. rewrite lookup_insert_eq. split; [done|]. simpl. lia.
    + exists l. split; [|lia]. repeat destr_match; simpl;
        by rewrite ?lookup_insert_ne.
Qed.

Lemma held_epoch_le now g t l :
  t !! lease_name g = Some l -> lease_held now g t = true -> epoch g = l_lease_epoch l.
Proof. intros Hl (l' & Hl' & ? & ? & ?)%lease_held_spec. congruence. Qed.

Lemma try_acquire_lookup now name holder ttl t e t' :
  try_acquire now name holder ttl t = (Some e, t') ->
  exists l', t' !! name = Some l' /\ l_lease_epoch l' = e /\
    forall l, t !! name = Some l -> l_lease_epoch l < e.
Proof.
  unfold try_acquire. intros H. repeat destr_match_in H; simplify_eq;
    eexists; rewrite lookup_insert_eq; simpl; (split; [done|]); split; try done;
    intros; simplify_eq; simpl; lia.
Qed.

(** ** Properties *)

(** Fencing: once a process has been granted the writer lease and no longer
    holds it (it expired, or another process took it over), it never holds it
    again, whatever acquisitions and renewals any processes perform while the
    database clock moves forward.  A stale writer can therefore never write
    through its old guard. *)
Theorem lease_lost_forever s s' g :
  granted g s.2 -> lease_held s.1 g s.2 = false -> rtc lease_step s s' ->
  lease_held s'.1 g s'.2 = false.
Proof.
  intros Hg Hl Hs. apply dead_not_held. eapply dead_steps; [done|].
  by apply granted_lost_dead.
Qed.

(** A takeover fences everyone else: when an acquisition succeeds, no guard
    granted earlier under that lease name is valid any more, at any later or
    earlier reading of the clock, and the epoch handed out is larger than every
    earlier one. *)
Theorem takeover_fences now name holder ttl t e t' g now' :
  try_acquire now name holder ttl t = (Some e, t') -> granted g t ->
  lease_name g = name -> lease_held now' g t' = false /\ epoch g < e.
Proof.
  intros Ha (l & Hl & Hg) <-.
  destruct (try_acquire_lookup _ _ _ _ _ _ _ Ha) as (l' & Hl' & He & Hlt).
  specialize (Hlt l Hl). assert (epoch g < e) as Hge by naive_solver lia.
  split; [|done]. destruct (lease_held now' g t') eqn:E; [|done].
  pose proof (held_epoch_le _ _ _ _ Hl' E). lia.
Qed.

(** Mutual exclusion: while a guard is valid, an acquisition by any other
    holder fails and leaves the table unchanged. *)
Theorem try_acquire_excluded now holder ttl t g :
  lease_held now g t = true -> holder <> holder_id g ->
  try_acquire now (lease_name g) holder ttl t = (None, t).
Proof. intros. by eapply try_acquire_excluded_lem. Qed.

(** *** Witnesses *)

Definition demo_table : gmap string LeaseRow :=
  (try_acquire 0 "people-chain-writer" "writer-1" 30 ∅).2.
Definition demo_guard : Guard :=
  {| lease_name := "people-chain-writer"; holder_id := "writer-1"; epoch := 1 |}.

Lemma lease_lost_forever_witness :
  lease_held (secs 31) demo_guard
    (try_acquire (secs 31) "people-chain-writer" "writer-2" 30 demo_table).2 = false.
Proof.
  apply (lease_lost_forever (secs 31, demo_table)
           (secs 31, (try_acquire (secs 31) "people-chain-writer" "writer-2" 30 demo_table).2)).
  - eexists. split; [reflexivity|]. right. split; reflexivity.
  - reflexivity.
  - apply rtc_once. apply ls_acquire.
Defined.

Lemma takeover_fences_witness :
  lease_held 0 demo_guard
    (try_acquire (secs 31) "people-chain-writer" "writer-2" 30 demo_table).2 = false /\ 1 < 2.
Proof.
  apply (takeover_fences (secs 31) "people-chain-writer" "writer-2" 30 demo_table).
  - reflexivity.
  - eexists. split; [reflexivity|]. right. split; reflexivity.
  - reflexivity.
Defined.

Lemma try_acquire_excluded_witness :
  try_acquire (secs 29) "people-chain-writer" "writer-2" 30 demo_table = (None, demo_table).
Proof.
  apply (try_acquire_excluded (secs 29) "writer-2" 30 demo_table demo_guard).
  - reflexivity.
  - discriminate.
Defined.

End Lease.
