(* ===== verification/Outbox.v ===== *)
(** * Outbox: the reservation outbox ([chain/outbox.rs])

    The statements over [username_reservations]: inserts, the claim queries of
    the two writer lanes, and the lease-guarded updates that move a row.  Every
    guarded update goes through [guarded_update], whose specification is what the
    writer's proofs use. *)

From S2P Require Import Prelude Strings Schema Lease.

#[local] Open Scope Z_scope.

Module Outbox.

Export Lease.

(** ** Inserts *)

Inductive InsertError := Conflict | InsertDb.

Definition fresh_row (now : Z) (r : NewReservation) (status : Status) (queue_group : Z) : Row :=
  {| r_new := r;
     r_queue_group := queue_group;
     r_status := status;
     r_tx_hash := None;
     r_nonce := None;
     r_attempt := 0;
     r_not_before := None;
     r_last_error := None;
     r_submitted_at := None;
     r_dotns_status := match nr_dotns_signature r with Some _ => Some DPending | None => None end;
     r_dotns_tx_hash := None;
     r_dotns_attempt := 0;
     r_dotns_not_before := None;
     r_dotns_last_error := None;
     r_created_at := now;
     r_updated_at := now |}.

Definition username_taken (name : string) (t : gmap Z Row) : bool :=
  bool_decide (map_Exists (fun _ r => r_full_username r = name) t).

(** [insert_with]: the version must fit an [i16] before the statement is sent;
    the statement then draws an id, checks the column constraints, and the
    unique index on [full_username]. *)
Definition insert_with (now : Z) (r : NewReservation) (status : Status) (queue_group : Z)
    (db : Db) : result Z InsertError * Db :=
  if I16_MAX <? nr_payload_version r then (Err InsertDb, db)
  else
    let id := db_next_id db in
    let db := with_next_id (id + 1) db in
    if negb ((1 <=? nr_payload_version r) && (1 <=? queue_group) && (queue_group <=? 4)) then
      (Err InsertDb, db)
    else if username_taken (nr_full_username r) (db_reservations db) then (Err Conflict, db)
    else (Ok id, with_reservations
                   (<[id := fresh_row now r status queue_group]> (db_reservations db)) db).

Definition insert (now : Z) (r : NewReservation) (db : Db) : result Z InsertError * Db :=
  insert_with now r Reserved 1 db.

Definition insert_queued (now : Z) (r : NewReservation) (queue_group : Z) (db : Db)
    : result Z InsertError * Db :=
  insert_with now r Queued queue_group db.

(** [allocated_discriminators]: the digits of every row of the base, whatever
    its status; one unparseable value fails the read. *)
Definition allocated_discriminators (base : string) (db : Db) : option (gset Z) :=
  list_to_set <$>
    mapM (fun kr : Z * Row => parse_u8 (nr_digits (r_new kr.2)))
      (filter (fun kr : Z * Row => nr_base (r_new kr.2) = base)
         (map_to_list (db_reservations db))).

(** ** Claimed rows *)

Record Reservation := {
  id : Z;
  full_username : string;
  candidate_account_id : string;
  candidate_signature : bytes;
  ring_vrf_key : bytes;
  proof_of_ownership : bytes;
  consumer_registration_signature : bytes;
  identifier_key : bytes;
  reserved_username : option string;
  attempt : Z;
  dotns_signature : option bytes;
  dotns_signed_at : option Z;
  dotns_attempt : Z;
  payload_version : Z;
  created_at : Z;
}.

(** The [SMALLINT] version must convert to a [u16]. *)
Definition row_to_reservation (kr : Z * Row) : option Reservation :=
  let '(k, r) := kr in
  let n := r_new r in
  if nr_payload_version n <? 0 then None
  else Some
    {| id := k;
       full_username := nr_full_username n;
       candidate_account_id := nr_candidate_account_id n;
       candidate_signature := nr_candidate_signature n;
       ring_vrf_key := nr_ring_vrf_key n;
       proof_of_ownership := nr_proof_of_ownership n;
       consumer_registration_signature := nr_consumer_registration_signature n;
       identifier_key := nr_identifier_key n;
       reserved_username := nr_reserved_username n;
       attempt := r_attempt r;
       dotns_signature := nr_dotns_signature n;
       dotns_signed_at := nr_dotns_signed_at n;
       dotns_attempt := r_dotns_attempt r;
       payload_version := nr_payload_version n;
       created_at := r_created_at r |}.

(** [ORDER BY created_at ASC, id ASC].  The claim queries order by [created_at]
    alone; ties, whose order SQL leaves open, are resolved by id. *)
Definition fifo_le (a b : Z * Row) : bool :=
  (r_created_at a.2 <? r_created_at b.2) ||
  ((r_created_at a.2 =? r_created_at b.2) && (a.1 <=? b.1)).

Definition select (p : Row -> bool) (db : Db) : list (Z * Row) :=
  sort_by fifo_le (filter (fun kr : Z * Row => p kr.2 = true) (map_to_list (db_reservations db))).

Definition due_at (now : Z) (not_before : option Z) : bool :=
  match not_before with None => true | Some t => t <=? now end.

Definition people_due (now : Z) (r : Row) : bool :=
  match r_status r with
  | Reserved => true
  | RetryAfter => due_at now (r_not_before r)
  | _ => false
  end.

Definition dotns_due (now : Z) (r : Row) : bool :=
  match r_status r, r_dotns_status r with
  | Assigned, Some DPending => true
  | Assigned, Some DRetryAfter => due_at now (r_dotns_not_before r)
  | _, _ => false
  end.

Definition is_submitting (r : Row) : bool :=
  match r_status r with Submitting => true | _ => false end.

Definition is_dotns_submitting (r : Row) : bool :=
  match r_dotns_status r with Some DSubmitting => true | _ => false end.

Definition claim_due (now limit : Z) (db : Db) : option (list Reservation) :=
  mapM row_to_reservation (take (Z.to_nat limit) (select (people_due now) db)).

Definition claim_dotns_due (now limit : Z) (db : Db) : option (list Reservation) :=
  mapM row_to_reservation (take (Z.to_nat limit) (select (dotns_due now) db)).

Definition submitting (db : Db) : option (list Reservation) :=
  mapM row_to_reservation (select is_submitting db).

Definition dotns_submitting (db : Db) : option (list Reservation) :=
  mapM row_to_reservation (select is_dotns_submitting db).

(** ** Guarded updates *)

(** [UPDATE username_reservations SET ... WHERE id = $1 AND <LEASE_HELD>],
    returning whether one row was affected. *)
Definition guarded_update (now : Z) (g : Guard) (rid : Z) (f : Row -> Row) (db : Db)
    : bool * Db :=
  if lease_held now g (db_leases db) then
    match db_reservations db !! rid with
    | Some r => (true, with_reservations (<[rid := f r]> (db_reservations db)) db)
    | None => (false, db)
    end
  else (false, db).

Definition set_submitting (now : Z) (tx_hash : string) (nonce att : Z) (r : Row) : Row :=
  {| r_new := r_new r; r_queue_group := r_queue_group r;
     r_status := Submitting;
     r_tx_hash := Some tx_hash; r_nonce := Some nonce; r_attempt := att;
     r_not_before := r_not_before r; r_last_error := r_last_error r;
     r_submitted_at := Some now;
     r_dotns_status := r_dotns_status r; r_dotns_tx_hash := r_dotns_tx_hash r;
     r_dotns_attempt := r_dotns_attempt r; r_dotns_not_before := r_dotns_not_before r;
     r_dotns_last_error := r_dotns_last_error r;
     r_created_at := r_created_at r; r_updated_at := now |}.

Definition mark_submitting (now : Z) (g : Guard) (rid : Z) (tx_hash : string)
    (nonce att : Z) (db : Db) : bool * Db :=
  guarded_update now g rid (set_submitting now tx_hash nonce att) db.

(** [COALESCE($n, col)]. *)
Definition coalesce {A} (o : option A) (x : A) : A :=
  match o with Some y => y | None => x end.
Definition coalesce_opt {A} (o x : option A) : option A :=
  match o with Some y => Some y | None => x end.

Definition DOTNS_ABANDONED_REASON : string :=
  "People registration failed terminally; dotNS reservation never attempted".

(** [DOTNS_OPEN_STATES]; a NULL status is in no list. *)
Definition dotns_open (s : option DotnsStatus) : bool :=
  match s with Some DPending | Some DRetryAfter => true | _ => false end.

Definition set_status (now : Z) (status : Status) (retry : option (Z * Z))
    (err : option string) (r : Row) : Row :=
  let closes_dotns := bool_decide (status = FailedTerminal) && dotns_open (r_dotns_status r) in
  {| r_new := r_new r; r_queue_group := r_queue_group r;
     r_status := status;
     r_tx_hash := r_tx_hash r; r_nonce := r_nonce r;
     r_attempt := coalesce (snd <$> retry) (r_attempt r);
     r_not_before := if bool_decide (status = RetryAfter) then fst <$> retry else r_not_before r;
     r_last_error := coalesce_opt err (r_last_error r);
     r_submitted_at := r_submitted_at r;
     r_dotns_status := if closes_dotns then Some DAbandoned else r_dotns_status r;
     r_dotns_tx_hash := r_dotns_tx_hash r;
     r_dotns_attempt := r_dotns_attempt r;
     r_dotns_not_before := if closes_dotns then None else r_dotns_not_before r;
     r_dotns_last_error :=
       if closes_dotns then Some DOTNS_ABANDONED_REASON else r_dotns_last_error r;
     r_created_at := r_created_at r; r_updated_at := now |}.

Definition guarded_status (now : Z) (g : Guard) (rid : Z) (status : Status)
    (retry : option (Z * Z)) (err : option string) (db : Db) : bool * Db :=
  guarded_update now g rid (set_status now status retry err) db.

Definition mark_assigned (now : Z) (g : Guard) (rid : Z) (db : Db) : bool * Db :=
  guarded_status now g rid Assigned None None db.

Definition mark_retry (now : Z) (g : Guard) (rid not_before att : Z) (err : string) (db : Db)
    : bool * Db :=
  guarded_status now g rid RetryAfter (Some (not_before, att)) (Some err) db.

Definition mark_failed (now : Z) (g : Guard) (rid : Z) (err : string) (db : Db) : bool * Db :=
  guarded_status now g rid FailedTerminal None (Some err) db.

Definition set_dotns_submitting (now : Z) (tx_hash : string) (att : Z) (r : Row) : Row :=
  {| r_new := r_new r; r_queue_group := r_queue_group r; r_status := r_status r;
     r_tx_hash := r_tx_hash r; r_nonce := r_nonce r; r_attempt := r_attempt r;
     r_not_before := r_not_before r; r_last_error := r_last_error r;
     r_submitted_at := r_submitted_at r;
     r_dotns_status := Some DSubmitting; r_dotns_tx_hash := Some tx_hash;
     r_dotns_attempt := att; r_dotns_not_before := None;
     r_dotns_last_error := r_dotns_last_error r;
     r_created_at := r_created_at r; r_updated_at := now |}.

Definition mark_dotns_submitting (now : Z) (g : Guard) (rid : Z) (tx_hash : string)
    (att : Z) (db : Db) : bool * Db :=
  guarded_update now g rid (set_dotns_submitting now tx_hash att) db.

Definition set_dotns_status (now : Z) (status : DotnsStatus) (retry : option (Z * Z))
    (err : option string) (r : Row) : Row :=
  {| r_new := r_new r; r_queue_group := r_queue_group r; r_status := r_status r;
     r_tx_hash := r_tx_hash r; r_nonce := r_nonce r; r_attempt := r_attempt r;
     r_not_before := r_not_before r; r_last_error := r_last_error r;
     r_submitted_at := r_submitted_at r;
     r_dotns_status := Some status; r_dotns_tx_hash := r_dotns_tx_hash r;
     r_dotns_attempt := coalesce (snd <$> retry) (r_dotns_attempt r);
     r_dotns_not_before :=
       if bool_decide (status = DRetryAfter) then fst <$> retry else r_dotns_not_before r;
     r_dotns_last_error := coalesce_opt err (r_dotns_last_error r);
     r_created_at := r_created_at r; r_updated_at := now |}.

Definition guarded_dotns_status (now : Z) (g : Guard) (rid : Z) (status : DotnsStatus)
    (retry : option (Z * Z)) (err : option string) (db : Db) : bool * Db :=
  guarded_update now g rid (set_dotns_status now status retry err) db.

Definition mark_dotns_reserved (now : Z) (g : Guard) (rid : Z) (db : Db) : bool * Db :=
  guarded_dotns_status now g rid DReserved None None db.

Definition mark_dotns_retry (now : Z) (g : Guard) (rid not_before att : Z) (err : string)
    (db : Db) : bool * Db :=
  guarded_dotns_status now g rid DRetryAfter (Some (not_before, att)) (Some err) db.

Definition mark_dotns_failed (now : Z) (g : Guard) (rid : Z) (err : string) (db : Db)
    : bool * Db :=
  guarded_dotns_status now g rid DFailedTerminal None (Some err) db.

Definition mark_dotns_expired (now : Z) (g : Guard) (rid : Z) (err : string) (db : Db)
    : bool * Db :=
  guarded_dotns_status now g rid DExpired None (Some err) db.

(** ** Observability: [depth_by_status] *)

Record StatusDepth := {
  depth : nat;
  oldest_age : option Z;
}.

(** [SELECT status, count( * ), now() - min(updated_at) ... GROUP BY status]. *)
Definition group_depths (now : Z) (key : Row -> option string) (db : Db)
    : gmap string StatusDepth :=
  foldr (fun (kr : Z * Row) acc =>
    match key kr.2 with
    | None => acc
    | Some s =>
        let age := now - r_updated_at kr.2 in
        <[s := match acc !! s with
               | None => {| depth := 1; oldest_age := Some age |}
               | Some d => {| depth := S (depth d);
                              oldest_age := Some (Z.max age (coalesce (oldest_age d) age)) |}
               end]> acc
    end) ∅ (map_to_list (db_reservations db)).

Definition no_depth : StatusDepth := {| depth := 0; oldest_age := None |}.

Definition depth_by_status (now : Z) (db : Db) : list (Status * StatusDepth) :=
  let observed := group_depths now (fun r => Some (Status_as_str (r_status r))) db in
  (fun s => (s, coalesce (observed !! Status_as_str s) no_depth)) <$> Status_ALL.

Definition dotns_depth_by_status (now : Z) (db : Db) : list (DotnsStatus * StatusDepth) :=
  let observed := group_depths now (fun r => DotnsStatus_as_str <$> r_dotns_status r) db in
  (fun s => (s, coalesce (observed !! DotnsStatus_as_str s) no_depth)) <$> DotnsStatus_ALL.

(** ** Lemmas: inserts *)

Lemma username_taken_spec name t :
  username_taken name t = true <-> exists i r, t !! i = Some r /\ r_full_username r = name.
Proof.
  unfold username_taken. rewrite bool_decide_eq_true. unfold map_Exists. naive_solver.
Qed.

(** A successful insert adds exactly one fresh row, under the next id. *)
Lemma insert_with_Ok now r st q db i db' :
  insert_with now r st q db = (Ok i, db') ->
  i = db_next_id db /\
  db' = with_reservations (<[i := fresh_row now r st q]> (db_reservations db))
          (with_next_id (i + 1) db) /\
  username_taken (nr_full_username r) (db_reservations db) = false /\
  1 <= nr_payload_version r <= I16_MAX /\ 1 <= q <= 4.
Proof.
  unfold insert_with. intros H. repeat destr_match_in H; simplify_eq. bool_prop.
  repeat split; done || lia.
Qed.

(** A failed insert leaves every table as it was. *)
Lemma insert_with_Err now r st q db e db' :
  insert_with now r st q db = (Err e, db') -> db_equiv db db'.
Proof. unfold insert_with. intros H. repeat destr_match_in H; simplify_eq; done. Qed.

(** [Conflict] is reported only for a username that is there. *)
Lemma insert_with_conflict now r st q db db' :
  insert_with now r st q db = (Err Conflict, db') ->
  username_taken (nr_full_username r) (db_reservations db) = true.
Proof. unfold insert_with. intros H. repeat destr_match_in H; simplify_eq; done. Qed.

Lemma db_wf_equiv a b : db_equiv a b -> db_next_id a <= db_next_id b -> db_wf a -> db_wf b.
Proof.
  intros (Hr & _) Hn [Hu Hi Hc]. rewrite Hr in Hu, Hi, Hc. split; [done| |done].
  intros i r Hir. specialize (Hi i r Hir). lia.
Qed.

Lemma insert_with_next_id now r st q db :
  db_next_id db <= db_next_id (insert_with now r st q db).2.
Proof. unfold insert_with. repeat destr_match; simpl; lia. Qed.

Lemma insert_with_wf now r st q db :
  db_wf db -> db_wf (insert_with now r st q db).2.
Proof.
  intros Hwf. destruct (insert_with now r st q db) as [[i|e] db'] eqn:E.
  - apply insert_with_Ok in E as (-> & -> & Hu & Hv & Hq). destruct Hwf as [Huu Hi Hc].
    assert (forall j rj, db_reservations db !! j = Some rj ->
              r_full_username rj <> nr_full_username r) as Hfresh.
    { intros j rj Hj Heq. assert (username_taken (nr_full_username r) (db_reservations db) = true);
        [|congruence]. apply username_taken_spec. eauto. }
    split; simpl.
    + intros a b ra rb Ha Hb Hab.
      apply lookup_insert_Some in Ha as [[<- <-]|[Hna Ha]], Hb as [[<- <-]|[Hnb Hb]];
        [done| | |eauto].
      * by destruct (Hfresh _ _ Hb).
      * by destruct (Hfresh _ _ Ha).
    + intros a ra [[<- _]|[_ Ha]]%lookup_insert_Some; [simpl; lia|].
      simpl. specialize (Hi _ _ Ha). lia.
    + intros a ra [[<- <-]|[_ Ha]]%lookup_insert_Some; [|eauto].
      split; simpl; lia.
  - eapply db_wf_equiv; [by eapply insert_with_Err| |done].
    pose proof (insert_with_next_id now r st q db) as Hn. by rewrite E in Hn.
Qed.

(** ** Lemmas: guarded updates *)

Lemma guarded_update_spec now g rid f db b db' :
  guarded_update now g rid f db = (b, db') ->
  match b with
  | true => exists r, lease_held now g (db_leases db) = true /\
              db_reservations db !! rid = Some r /\
              db' = with_reservations (<[rid := f r]> (db_reservations db)) db
  | false => db' = db
  end.
Proof. unfold guarded_update. intros H. repeat destr_match_in H; simplify_eq; eauto. Qed.

(** Without the lease, nothing is written. *)
Lemma guarded_update_fenced now g rid f db :
  lease_held now g (db_leases db) = false -> guarded_update now g rid f db = (false, db).
Proof. unfold guarded_update. by intros ->. Qed.

Lemma guarded_update_held now g rid f db r :
  lease_held now g (db_leases db) = true -> db_reservations db !! rid = Some r ->
  guarded_update now g rid f db =
    (true, with_reservations (<[rid := f r]> (db_reservations db)) db).
Proof. unfold guarded_update. by intros -> ->. Qed.

Lemma guarded_update_leases now g rid f db : db_leases (guarded_update now g rid f db).2 = db_leases db.
Proof. unfold guarded_update. by repeat destr_match. Qed.

Lemma guarded_update_frame now g rid f db k :
  k <> rid -> db_reservations (guarded_update now g rid f db).2 !! k = db_reservations db !! k.
Proof.
  intros Hne. unfold guarded_update. repeat destr_match; simpl; [|done..].
  by rewrite lookup_insert_ne.
Qed.

(** The row after a guarded update: rewritten, or as it was. *)
Lemma guarded_update_row now g rid f db r' :
  db_reservations (guarded_update now g rid f db).2 !! rid = Some r' ->
  exists r, db_reservations db !! rid = Some r /\ (r' = f r \/ r' = r).
Proof.
  unfold guarded_update. repeat destr_match; simpl.
  - rewrite lookup_insert_eq. intros [= <-]. eauto.
  - intros. congruence.
  - eauto.
Qed.

Lemma guarded_update_row_2 now g rid f db r :
  db_reservations db !! rid = Some r ->
  exists r', db_reservations (guarded_update now g rid f db).2 !! rid = Some r' /\ (r' = f r \/ r' = r).
Proof.
  intros Hr. unfold guarded_update. rewrite Hr. destr_match; simpl; [|eauto].
  rewrite lookup_insert_eq. eauto.
Qed.


(** Updates that keep the written-once columns preserve well-formedness. *)
Definition keeps_claim (f : Row -> Row) : Prop :=
  forall r, r_new (f r) = r_new r /\ r_queue_group (f r) = r_queue_group r /\
            r_created_at (f r) = r_created_at r.

Lemma set_row_wf db rid r f :
  keeps_claim f -> db_reservations db !! rid = Some r -> db_wf db ->
  db_wf (with_reservations (<[rid := f r]> (db_reservations db)) db).
Proof.
  intros Hf Hr [Hu Hi Hc]. destruct (Hf r) as (Hn & Hq & _). split; simpl.
  - assert (forall a ra, <[rid:=f r]> (db_reservations db) !! a = Some ra ->
              exists ra', db_reservations db !! a = Some ra' /\
                          r_full_username ra' = r_full_username ra) as Hlift.
    { intros a ra [[<- <-]|[_ Ha]]%lookup_insert_Some; [|eauto].
      exists r. split; [done|]. unfold r_full_username. by rewrite Hn. }
    intros a b ra rb (ra' & Ha & Eqa)%Hlift (rb' & Hb & Eqb)%Hlift Hab.
    apply (Hu a b ra' rb' Ha Hb). congruence.
  - intros a ra [[<- _]|[_ Ha]]%lookup_insert_Some; eauto.
  - intros a ra [[<- <-]|[_ Ha]]%lookup_insert_Some; [|eauto].
    specialize (Hc rid r Hr). unfold row_checks in *. by rewrite Hn, Hq.
Qed.

Lemma guarded_update_wf now g rid f db :
  keeps_claim f -> db_wf db -> db_wf (guarded_update now g rid f db).2.
Proof.
  intros Hf Hwf. destruct (guarded_update now g rid f db) as [b db'] eqn:E.
  apply guarded_update_spec in E. destruct b; [|by subst].
  destruct E as (r & _ & Hr & ->). by apply set_row_wf.
Qed.

Lemma set_submitting_keeps now h n a : keeps_claim (set_submitting now h n a).
Proof. done. Qed.
Lemma set_status_keeps now s rt e : keeps_claim (set_status now s rt e).
Proof. done. Qed.
Lemma set_dotns_submitting_keeps now h a : keeps_claim (set_dotns_submitting now h a).
Proof. done. Qed.
Lemma set_dotns_status_keeps now s rt e : keeps_claim (set_dotns_status now s rt e).
Proof. done. Qed.

#[export] Hint Resolve set_submitting_keeps set_status_keeps set_dotns_submitting_keeps
  set_dotns_status_keeps guarded_update_wf : dub.

(** ** Lemmas: claims *)

Lemma fifo_le_total a b : fifo_le a b = true \/ fifo_le b a = true.
Proof. unfold fifo_le. rewrite !orb_true_iff, !andb_true_iff. lia. Qed.

Lemma fifo_le_trans a b c : fifo_le a b = true -> fifo_le b c = true -> fifo_le a c = true.
Proof. unfold fifo_le. rewrite !orb_true_iff, !andb_true_iff. lia. Qed.

Lemma elem_of_select p db k r :
  (k, r) ∈ select p db <-> db_reservations db !! k = Some r /\ p r = true.
Proof.
  unfold select. rewrite elem_of_sort_by, list_elem_of_filter, elem_of_map_to_list.
  simpl. naive_solver.
Qed.

Lemma NoDup_select p db : NoDup ((select p db).*1).
Proof.
  unfold select. rewrite sort_by_perm.
  assert (NoDup ((map_to_list (db_reservations db)).*1)) as Hnd
    by apply NoDup_fst_map_to_list.
  eapply sublist_NoDup; [exact Hnd|]. apply fmap_sublist, sublist_filter.
Qed.

Lemma select_sorted p db : StronglySorted (fun a b => fifo_le a b = true) (select p db).
Proof. apply sort_by_sorted; [apply fifo_le_total|apply fifo_le_trans]. Qed.

Lemma select_keys_inj p db x y : x ∈ select p db -> y ∈ select p db -> x.1 = y.1 -> x = y.
Proof.
  destruct x as [k r], y as [k' r']. rewrite !elem_of_select. simpl.
  intros [H1 _] [H2 _] ->. congruence.
Qed.

Lemma StronglySorted_filter {A} (R : A -> A -> Prop) (P : A -> Prop)
    `{forall x, Decision (P x)} l :
  StronglySorted R l -> StronglySorted R (filter P l).
Proof.
  induction 1 as [|x l Hl IH Hx]; [constructor|]. rewrite filter_cons.
  case_decide; [|done]. constructor; [done|].
  rewrite Forall_forall in *. intros y [_ Hy]%list_elem_of_filter. by apply Hx.
Qed.

(** An ordered list of keyed rows of one database is determined by its
    elements. *)
Lemma select_unique p db l :
  StronglySorted (fun a b => fifo_le a b = true) l -> NoDup l ->
  (forall k r, (k, r) ∈ l <-> db_reservations db !! k = Some r /\ p r = true) ->
  select p db = l.
Proof.
  intros Hs Hnd Hl. apply (sorted_perm_eq fifo_le); [|apply select_sorted|done|].
  - intros x y Hx Hy H1 H2. eapply select_keys_inj; [done..|].
    unfold fifo_le in *. rewrite !orb_true_iff, !andb_true_iff in *. lia.
  - apply NoDup_Permutation; [eapply NoDup_fmap_1, NoDup_select|done|].
    intros [k r]. by rewrite elem_of_select, Hl.
Qed.

(** A narrower query is the filtered wider one. *)
Lemma select_filter p q db :
  select (fun r => p r && q r) db = filter (fun kr : Z * Row => q kr.2 = true) (select p db).
Proof.
  apply select_unique.
  - apply StronglySorted_filter, select_sorted.
  - apply NoDup_filter. eapply NoDup_fmap_1, NoDup_select.
  - intros k r. rewrite list_elem_of_filter, elem_of_select, andb_true_iff. simpl. naive_solver.
Qed.

(** A row that leaves a query's selection is dropped from its result; the other
    rows keep their order. *)
Lemma select_drop p f db rid r :
  db_reservations db !! rid = Some r -> p (f r) = false ->
  select p (with_reservations (<[rid := f r]> (db_reservations db)) db) =
  filter (fun kr : Z * Row => kr.1 <> rid) (select p db).
Proof.
  intros Hr Hp. apply select_unique.
  - apply StronglySorted_filter, select_sorted.
  - apply NoDup_filter. eapply NoDup_fmap_1, NoDup_select.
  - intros k x. rewrite list_elem_of_filter, elem_of_select. simpl.
    rewrite lookup_insert_Some. split.
    + intros [Hne [Hk Hpx]]. split; [by right|done].
    + intros [[[<- <-]|[Hne Hk]] Hpx]; [congruence|done].
Qed.

(** The snapshot a claim query returns for a row. *)
Definition reservation_of (k : Z) (r : Row) (v : Reservation) : Prop :=
  row_to_reservation (k, r) = Some v.

Lemma row_to_reservation_id k r v : row_to_reservation (k, r) = Some v -> id v = k.
Proof. simpl. destr_match; naive_solver. Qed.

Lemma mapM_reservation_ids l rs :
  mapM row_to_reservation l = Some rs -> id <$> rs = l.*1.
Proof.
  rewrite mapM_Some. induction 1 as [|[k r] v l rs Hv _ IH]; [done|].
  rewrite !fmap_cons. f_equal; [|exact IH]. by apply row_to_reservation_id in Hv.
Qed.

Lemma claim_elem p n db rs v :
  mapM row_to_reservation (take n (select p db)) = Some rs -> v ∈ rs ->
  exists r, db_reservations db !! id v = Some r /\ p r = true /\ reservation_of (id v) r v.
Proof.
  rewrite mapM_Some. intros Hf Hv. apply list_elem_of_lookup in Hv as [i Hi].
  destruct (Forall2_lookup_r _ _ _ _ _ Hf Hi) as ([k r] & Hk & Hkr).
  assert ((k, r) ∈ select p db) as Hin.
  { apply (list_elem_of_lookup_2 _ i). by apply lookup_take_Some in Hk as [? _]. }
  apply elem_of_select in Hin as [Hl Hp]. rewrite (row_to_reservation_id _ _ _ Hkr).
  exists r. done.
Qed.

Lemma claim_NoDup p n db rs :
  mapM row_to_reservation (take n (select p db)) = Some rs -> NoDup (id <$> rs).
Proof.
  intros H%mapM_reservation_ids. rewrite H.
  eapply sublist_NoDup; [apply (NoDup_select p db)|]. apply fmap_sublist, sublist_take.
Qed.

Lemma query_elem p db rs :
  mapM row_to_reservation (select p db) = Some rs ->
  NoDup (id <$> rs) /\
  forall v, v ∈ rs -> exists r, db_reservations db !! id v = Some r /\ p r = true /\ reservation_of (id v) r v.
Proof.
  intros H. rewrite <-(take_ge (select p db) (length (select p db))) in H by lia.
  split; [by eapply claim_NoDup|]. intros v Hv. by eapply claim_elem.
Qed.

(** On a well-formed database a claim query decodes every row it selects. *)
Lemma mapM_reservation_total db l :
  db_wf db -> (forall k r, (k, r) ∈ l -> db_reservations db !! k = Some r) ->
  is_Some (mapM row_to_reservation l).
Proof.
  intros Hwf. induction l as [|[k r] l IH]; intros Hl; [by eexists|].
  assert (is_Some (row_to_reservation (k, r))) as [v Hv].
  { simpl. destruct (wf_checks db Hwf k r (Hl k r ltac:(left))) as [_ ?].
    replace (nr_payload_version (r_new r) <? 0) with false by lia. by eexists. }
  destruct IH as [vs Hvs]; [intros k' r' Hin; apply Hl; by right|].
  exists (v :: vs). apply mapM_Some. constructor; [done|]. by apply mapM_Some.
Qed.

(** ** Lemmas: depths *)

Definition count_key (key : Row -> option string) (s : string) (l : list (Z * Row)) : nat :=
  length (filter (fun kr : Z * Row => key kr.2 = Some s) l).

Lemma group_depths_count now key db s :
  depth (coalesce (group_depths now key db !! s) no_depth) =
  count_key key s (map_to_list (db_reservations db)).
Proof.
  unfold group_depths, count_key.
  induction (map_to_list (db_reservations db)) as [|[k r] l IH]; [done|].
  rewrite filter_cons. simpl. destruct (key r) as [s'|] eqn:E; simpl.
  - case_decide as Hd; simplify_eq; simpl.
    + rewrite lookup_insert_eq. simpl. rewrite <-IH. by case_match.
    + rewrite lookup_insert_ne by congruence. exact IH.
  - exact IH.
Qed.

Lemma count_key_cons key s k r l :
  count_key key s ((k, r) :: l) =
  ((if decide (key r = Some s) then 1 else 0) + count_key key s l)%nat.
Proof. unfold count_key. rewrite filter_cons. simpl. by case_decide. Qed.

Lemma count_statuses_total l :
  sum_list ((fun s => count_key (fun r => Some (Status_as_str (r_status r)))
                        (Status_as_str s) l) <$> Status_ALL) = length l.
Proof.
  induction l as [|[k r] l IH]; [done|].
  unfold Status_ALL in *. cbn [fmap list_fmap sum_list] in *.
  rewrite !count_key_cons. simpl length. rewrite <-IH.
  destruct (r_status r); simpl; lia.
Qed.

(** ** Properties *)

(** Lease guard: no [mark_*] statement of the outbox writes anything when its
    guard does not hold the lease; each then reports [false] (which the writer
    turns into [LeaseLost]). *)
Theorem marks_require_lease now g rid nb att nonce h err db :
  lease_held now g (db_leases db) = false ->
  mark_submitting now g rid h nonce att db = (false, db) /\
  mark_assigned now g rid db = (false, db) /\
  mark_retry now g rid nb att err db = (false, db) /\
  mark_failed now g rid err db = (false, db) /\
  mark_dotns_submitting now g rid h att db = (false, db) /\
  mark_dotns_reserved now g rid db = (false, db) /\
  mark_dotns_retry now g rid nb att err db = (false, db) /\
  mark_dotns_failed now g rid err db = (false, db) /\
  mark_dotns_expired now g rid err db = (false, db).
Proof. intros H. repeat split; by apply guarded_update_fenced. Qed.

(** The two halves of a row.  A dotNS transition never changes the People
    half ([status], its attempt counter, its retry gate); a terminal People
    failure closes a dotNS half that was still open, so no row is left with a
    dead People half and a claimable dotNS half. *)
Theorem halves_are_independent now s rt e h att r :
  let d1 := set_dotns_status now s rt e r in
  let d2 := set_dotns_submitting now h att r in
  (r_status d1 = r_status r /\ r_attempt d1 = r_attempt r /\ r_not_before d1 = r_not_before r) /\
  (r_status d2 = r_status r /\ r_attempt d2 = r_attempt r /\ r_not_before d2 = r_not_before r) /\
  dotns_open (r_dotns_status (set_status now FailedTerminal rt e r)) = false /\
  (forall s', s' <> FailedTerminal ->
     r_dotns_status (set_status now s' rt e r) = r_dotns_status r).
Proof.
  simpl. repeat split.
  - destruct (r_dotns_status r) as [[]|]; done.
  - intros s' Hs'. rewrite bool_decide_false by done. done.
Qed.

(** Insert/claim round trip: a row inserted directly ([RESERVED]) into an
    outbox with no other due row is exactly what the next claim returns, with
    every payload field of the claim intact and no attempt spent. *)
Theorem insert_claim_roundtrip now now' r db rid db' limit :
  insert now r db = (Ok rid, db') ->
  (forall k x, db_reservations db !! k = Some x -> people_due now' x = false) ->
  1 <= limit ->
  claim_due now' limit db' =
    Some [{| id := rid;
             full_username := nr_full_username r;
             candidate_account_id := nr_candidate_account_id r;
             candidate_signature := nr_candidate_signature r;
             ring_vrf_key := nr_ring_vrf_key r;
             proof_of_ownership := nr_proof_of_ownership r;
             consumer_registration_signature := nr_consumer_registration_signature r;
             identifier_key := nr_identifier_key r;
             reserved_username := nr_reserved_username r;
             attempt := 0;
             dotns_signature := nr_dotns_signature r;
             dotns_signed_at := nr_dotns_signed_at r;
             dotns_attempt := 0;
             payload_version := nr_payload_version r;
             created_at := now |}].
Proof.
  intros (-> & -> & _ & Hv & _)%insert_with_Ok Hidle Hlim. unfold claim_due.
  set (row := fresh_row now r Reserved 1).
  set (d := with_reservations _ _).
  assert (select (people_due now') d = [(db_next_id db, row)]) as ->.
  { apply Permutation_singleton_r. apply NoDup_Permutation.
    - eapply NoDup_fmap_1, NoDup_select.
    - apply NoDup_singleton.
    - intros [k x]. rewrite elem_of_select, list_elem_of_singleton. subst d. simpl.
      rewrite lookup_insert_Some. split.
      + intros [[[<- <-]|[_ Hx]] Hp]; [done|]. rewrite (Hidle _ _ Hx) in Hp. done.
      + intros [= -> ->]. split; [by left|done]. }
  destruct (Z.to_nat limit) as [|n] eqn:En; [lia|]. simpl.
  replace (nr_payload_version r <? 0) with false by lia. by rewrite take_nil.
Qed.

(** The depth gauges account for every row exactly once: the per-status
    depths of [depth_by_status] add up to the size of the table. *)
Theorem depths_partition now db :
  sum_list ((fun sd => depth sd.2) <$> depth_by_status now db) = size (db_reservations db).
Proof.
  unfold depth_by_status. rewrite <-list_fmap_compose.
  rewrite <-length_map_to_list, <-count_statuses_total. f_equal.
  apply list_fmap_ext. intros i s _. simpl. apply group_depths_count.
Qed.

(** *** Witnesses *)

Definition demo_new : NewReservation :=
  {| nr_account_id := "0xab"; nr_candidate_account_id := "5Fb"; nr_base := "tallesx";
     nr_digits := "07"; nr_full_username := "tallesx.07"; nr_candidate_signature := [1];
     nr_ring_vrf_key := [2]; nr_proof_of_ownership := [3];
     nr_consumer_registration_signature := [4]; nr_identifier_key := [5];
     nr_dotns_signature := Some [6]; nr_dotns_signed_at := Some 1780000000;
     nr_reserved_username := None; nr_payload_version := 1 |}.

Definition demo_db : Db := (insert 0 demo_new empty_db).2.

Lemma marks_require_lease_witness :
  mark_assigned 0 demo_guard 1 demo_db = (false, demo_db).
Proof.
  apply (marks_require_lease 0 demo_guard 1 0 0 0 "0x00" "err" demo_db). reflexivity.
Defined.

Lemma insert_claim_roundtrip_witness :
  is_Some (claim_due 5 25 demo_db).
Proof.
  rewrite (insert_claim_roundtrip 0 5 demo_new empty_db 1 demo_db 25).
  - eexists. reflexivity.
  - reflexivity.
  - intros k x Hx. discriminate Hx.
  - discriminate.
Defined.

End Outbox.
