(* ===== verification/Queue.v ===== *)
(** * Queue: the registration queue ([queue.rs])

    Balance-priority groups, the advancer's promotion iteration over the
    database, the drain simulation behind the queue-status endpoint, the group
    refresh, and the janitor.  The central result is that the simulation agrees
    with the advancer: the position and iteration [drain_estimate] reports are
    the ones the claim is promoted at when the advancer runs on the same
    database. *)

From S2P Require Import Prelude Strings Schema Lease Outbox.

#[local] Open Scope Z_scope.

Module Queue.

Export Outbox.

Definition SLOTS_PER_ITERATION : nat := 4.
Definition PLANCK_PER_DOT : Z := 10000000000.

Definition group_for_balance (planck : Z) : Z :=
  if 1000 * PLANCK_PER_DOT <=? planck then 4
  else if 100 * PLANCK_PER_DOT <=? planck then 3
  else if 10 * PLANCK_PER_DOT <=? planck then 2
  else 1.

(** The JWT subject as stored: [0x] and 64 hexadecimal digits. *)
Definition parse_subject (subject : string) : option bytes :=
  match strip_prefix "0x" subject with
  | None => None
  | Some hex =>
      match hex_decode hex with
      | Some bs => if decide (length bs = 32%nat) then Some bs else None
      | None => None
      end
  end.

(** A balance read under [tokio::time::timeout]. *)
Inductive BalanceRead :=
| BalanceOk (planck : Z)
| BalanceErr
| BalanceTimeout.

(** [intake_group]: fails open to group 1. [free_balance] is the chain read. *)
Definition intake_group (free_balance : bytes -> BalanceRead) (subject : string) : Z :=
  match parse_subject subject with
  | None => 1
  | Some account =>
      match free_balance account with
      | BalanceOk b => group_for_balance b
      | BalanceErr => 1
      | BalanceTimeout => 1
      end
  end.

(** ** The snapshot *)

Record QueuedEntry := {
  qe_id : Z;
  qe_account_id : string;
  qe_group : Z;
}.

Definition is_queued (r : Row) : bool :=
  match r_status r with Queued => true | _ => false end.

Definition entry_of (kr : Z * Row) : QueuedEntry :=
  {| qe_id := kr.1;
     qe_account_id := nr_account_id (r_new kr.2);
     qe_group := clamp 1 4 (r_queue_group kr.2) |}.

Definition queued_snapshot (db : Db) : list QueuedEntry :=
  entry_of <$> select is_queued db.

(** ** [drain_estimate] *)

Record DrainEstimate := {
  position : Z;
  iterations : Z;
}.

(** [by_group: [VecDeque<usize>; 4]]; group [g]'s deque is element [g - 1]. *)
Abbreviation groups := (list (list nat)).

Definition push_back (g : Z) (index : nat) (bg : groups) : groups :=
  alter (fun q => q ++ [index]) (Z.to_nat g - 1)%nat bg.

Definition front (bg : groups) (group : nat) : option nat :=
  match bg !! (group - 1)%nat with
  | Some (i :: _) => Some i
  | _ => None
  end.

Definition pop_front (bg : groups) (group : nat) : groups :=
  alter (fun q => tail q) (group - 1)%nat bg.

(** [Iterator::min_by_key] on the index: the first minimum. *)
Definition min_by_index (l : list (nat * nat)) : option (nat * nat) :=
  foldl (fun acc x =>
    match acc with
    | None => Some x
    | Some y => if (fst x <? fst y)%nat then Some x else Some y
    end) None l.

(** The earliest-enqueued head among the groups [min_group ..= 4]. *)
Definition pick (bg : groups) (min_group : nat) : option (nat * nat) :=
  min_by_index
    (omap (fun group => (fun index => (index, group)) <$> front bg group)
       (seq min_group (5 - min_group))).

Inductive flow :=
| Return (e : DrainEstimate)
| Continue (bg : groups) (position : Z).

Section drain.
Context (entries : list QueuedEntry) (target_id : Z).

Fixpoint drain_slots (iteration : Z) (slots : list nat) (bg : groups) (pos : Z) : flow :=
  match slots with
  | [] => Continue bg pos
  | slot :: slots' =>
      match pick bg (5 - slot) with
      | None => drain_slots iteration slots' bg pos
      | Some (index, group) =>
          let bg' := pop_front bg group in
          let pos' := pos + 1 in
          match entries !! index with
          | Some e =>
              if qe_id e =? target_id
              then Return {| position := pos'; iterations := iteration |}
              else drain_slots iteration slots' bg' pos'
          | None => drain_slots iteration slots' bg' pos'
          end
      end
  end.

Fixpoint drain_iterations (n : nat) (iteration : Z) (bg : groups) (pos : Z)
    : option DrainEstimate :=
  match n with
  | O => None
  | S n' =>
      match drain_slots iteration (seq 1 SLOTS_PER_ITERATION) bg pos with
      | Return e => Some e
      | Continue bg' pos' => drain_iterations n' (iteration + 1) bg' pos'
      end
  end.

Definition initial_groups : groups :=
  foldl (fun bg ie => push_back (qe_group (snd ie)) (fst ie) bg)
    (replicate 4 []) (imap pair entries).

(** [1..=entries.len() as u32]: the cast truncates. *)
Definition drain_estimate : option DrainEstimate :=
  drain_iterations (Z.to_nat (Z.of_nat (length entries) mod (U32_MAX + 1)))
    1 initial_groups 0.
End drain.

Record QueueStatusResponse := {
  queue_position : Z;
  group : Z;
  estimated_iterations_remaining : Z;
}.

Definition status_in_snapshot (snapshot : list QueuedEntry) (subject : string)
    : option QueueStatusResponse :=
  match list_find (fun e => qe_account_id e = subject) snapshot with
  | None => None
  | Some (_, target) =>
      match drain_estimate snapshot (qe_id target) with
      | None => None
      | Some e => Some {| queue_position := position e; group := qe_group target;
                          estimated_iterations_remaining := iterations e |}
      end
  end.

(** ** The advancer *)

Definition set_reserved (now : Z) (r : Row) : Row :=
  {| r_new := r_new r; r_queue_group := r_queue_group r;
     r_status := Reserved;
     r_tx_hash := r_tx_hash r; r_nonce := r_nonce r; r_attempt := r_attempt r;
     r_not_before := r_not_before r; r_last_error := r_last_error r;
     r_submitted_at := r_submitted_at r;
     r_dotns_status := r_dotns_status r; r_dotns_tx_hash := r_dotns_tx_hash r;
     r_dotns_attempt := r_dotns_attempt r; r_dotns_not_before := r_dotns_not_before r;
     r_dotns_last_error := r_dotns_last_error r;
     r_created_at := r_created_at r; r_updated_at := now |}.

Record Promoted := {
  p_id : Z;
  p_full_username : string;
  p_slot : nat;
}.

(** One slot's statement: promote the earliest [QUEUED] row of the eligible
    groups, if there is one. *)
Definition promote_slot (now : Z) (slot : nat) (db : Db) : option Promoted * Db :=
  let min_group := 5 - Z.of_nat slot in
  match select (fun r => is_queued r && (min_group <=? r_queue_group r)) db with
  | [] => (None, db)
  | (k, r) :: _ =>
      (Some {| p_id := k; p_full_username := r_full_username r; p_slot := slot |},
       with_reservations (<[k := set_reserved now r]> (db_reservations db)) db)
  end.

Fixpoint advance_slots (now : Z) (slots : list nat) (db : Db) : list Promoted * Db :=
  match slots with
  | [] => ([], db)
  | slot :: slots' =>
      let '(p, db1) := promote_slot now slot db in
      let '(ps, db2) := advance_slots now slots' db1 in
      (match p with Some x => x :: ps | None => ps end, db2)
  end.

Definition advance_iteration (now : Z) (db : Db) : list Promoted * Db :=
  advance_slots now (seq 1 SLOTS_PER_ITERATION) db.

(** [n] iterations of the advancer, at the given times: what each promoted. *)
Fixpoint advance_iterations (nows : list Z) (db : Db) : list (list Promoted) * Db :=
  match nows with
  | [] => ([], db)
  | now :: nows' =>
      let '(ps, db1) := advance_iteration now db in
      let '(pss, db2) := advance_iterations nows' db1 in
      (ps :: pss, db2)
  end.

(** ** Group refresh *)

Definition set_group (now g : Z) (r : Row) : Row :=
  {| r_new := r_new r; r_queue_group := g; r_status := r_status r;
     r_tx_hash := r_tx_hash r; r_nonce := r_nonce r; r_attempt := r_attempt r;
     r_not_before := r_not_before r; r_last_error := r_last_error r;
     r_submitted_at := r_submitted_at r;
     r_dotns_status := r_dotns_status r; r_dotns_tx_hash := r_dotns_tx_hash r;
     r_dotns_attempt := r_dotns_attempt r; r_dotns_not_before := r_dotns_not_before r;
     r_dotns_last_error := r_dotns_last_error r;
     r_created_at := r_created_at r; r_updated_at := now |}.

(** [SELECT DISTINCT account_id ... WHERE status = 'QUEUED']. *)
Definition queued_accounts (db : Db) : list string :=
  elements (list_to_set ((fun kr : Z * Row => nr_account_id (r_new kr.2)) <$> select is_queued db)
            : gset string).

(** The group a balance read gives an account; [None] keeps the current one. *)
Definition refreshed_group (free_balance : bytes -> option Z) (account_id : string) : option Z :=
  match parse_subject account_id with
  | None => Some 1
  | Some account => group_for_balance <$> free_balance account
  end.

Definition update_group (now : Z) (account_id : string) (g : Z) (db : Db) : Db :=
  with_reservations
    (update_where (fun _ r => is_queued r && String.eqb (nr_account_id (r_new r)) account_id
                              && negb (r_queue_group r =? g))
       (set_group now g) (db_reservations db)) db.

(** The reads complete in any order ([buffer_unordered]); [order] is that order
    over the accounts read. *)
Definition refresh_groups (now : Z) (free_balance : bytes -> option Z) (order : list string)
    (db : Db) : Db :=
  foldl (fun db account_id =>
    match refreshed_group free_balance account_id with
    | None => db
    | Some g => update_group now account_id g db
    end) db order.

(** ** Liveness and the janitor *)

Definition ADVANCER_LEASE_NAME : string := "registration-queue-advancer".

Definition advancer_alive (now : Z) (db : Db) : bool :=
  alive now ADVANCER_LEASE_NAME (db_leases db).

Definition stranded_queued (now : Z) (db : Db) : nat :=
  count_where (fun _ r => is_queued r
    && negb (match db_leases db !! ADVANCER_LEASE_NAME with
             | Some l => now <? l_expires_at l
             | None => false
             end)) (db_reservations db).

Definition drainable (now grace : Z) (db : Db) (r : Row) : bool :=
  is_queued r
  && negb (match db_leases db !! ADVANCER_LEASE_NAME with
           | Some l => now - secs grace <? l_expires_at l
           | None => false
           end).

Definition fallback_drain (now grace : Z) (db : Db) : nat * Db :=
  (count_where (fun _ r => drainable now grace db r) (db_reservations db),
   with_reservations
     (update_where (fun _ r => drainable now grace db r) (set_reserved now)
        (db_reservations db)) db).

(** [validate_cadence], on durations in microseconds. *)
Definition validate_cadence (interval lease_ttl : Z) : result unit string :=
  if negb (secs 1 <=? interval) then Err "QUEUE_ADVANCE_INTERVAL_SECS must be at least 1"
  else if negb (interval + lease_ttl / 3 <? lease_ttl) then
    Err "QUEUE_LEASE_TTL_SECS must exceed QUEUE_ADVANCE_INTERVAL_SECS by more than one renewal period"
  else Ok tt.

(** ** [run_advancer]

    The service loop as a machine: its states are the points where it awaits, an
    event is what the awaited operation did. *)

Record AdvancerConfig := {
  interval : Z;
  lease_ttl : Z;
  cfg_holder_id : string;
}.

Inductive WorkPhase :=
| Refreshing
| Advancing (slots : list nat).

Inductive AdvancerState :=
| Acquiring
| Sleeping (epoch : Z)
| Working (epoch : Z) (phase : WorkPhase).

Inductive AdvancerEvent :=
| EvAcquire (fate : DbFate)
| EvWake (fate : DbFate)
| EvTick (fate : DbFate)
| EvRegroup (account_id : string) (g : Z) (fate : DbFate)
| EvRefreshEnd
| EvPromote (fate : DbFate)
| EvWorkDone.

Definition advancer_guard (cfg : AdvancerConfig) (e : Z) : Guard :=
  {| lease_name := ADVANCER_LEASE_NAME; holder_id := cfg_holder_id cfg; epoch := e |}.

Definition acquire_stmt (now : Z) (cfg : AdvancerConfig) (db : Db) : option Z * Db :=
  let '(e, t) := try_acquire now ADVANCER_LEASE_NAME (cfg_holder_id cfg) (lease_ttl cfg)
                   (db_leases db) in
  (e, with_leases t db).

Definition renew_stmt (now : Z) (cfg : AdvancerConfig) (e : Z) (db : Db) : bool * Db :=
  let '(ok, t) := renew now (advancer_guard cfg e) (lease_ttl cfg) (db_leases db) in
  (ok, with_leases t db).

(** The events a state does not await leave it unchanged. The refresh ends when
    every read is in, when it fails, or at its deadline; a failed promotion ends
    the iteration. *)
Definition advancer_step (cfg : AdvancerConfig) (now : Z) (ev : AdvancerEvent)
    (sd : AdvancerState * Db) : AdvancerState * Db :=
  let '(st, db) := sd in
  match st, ev with
  | Acquiring, EvAcquire fate =>
      let '(r, db') := run_stmt fate (acquire_stmt now cfg) db in
      (match r with Some (Some e) => Sleeping e | _ => Acquiring end, db')
  | Sleeping e, EvWake fate =>
      let '(r, db') := run_stmt fate (renew_stmt now cfg e) db in
      (match r with Some true => Working e Refreshing | _ => Acquiring end, db')
  | Working e ph, EvTick fate =>
      let '(r, db') := run_stmt fate (renew_stmt now cfg e) db in
      (match r with Some true => Working e ph | _ => Acquiring end, db')
  | Working e Refreshing, EvRegroup account_id g fate =>
      let '(r, db') := run_stmt fate (fun d => (tt, update_group now account_id g d)) db in
      (match r with
       | Some _ => st
       | None => Working e (Advancing (seq 1 SLOTS_PER_ITERATION))
       end, db')
  | Working e Refreshing, EvRefreshEnd =>
      (Working e (Advancing (seq 1 SLOTS_PER_ITERATION)), db)
  | Working e (Advancing (slot :: slots)), EvPromote fate =>
      let '(r, db') := run_stmt fate (promote_slot now slot) db in
      (match r with Some _ => Working e (Advancing slots) | None => Sleeping e end, db')
  | Working e (Advancing []), EvWorkDone => (Sleeping e, db)
  | _, _ => (st, db)
  end.

End Queue.
