(* ===== verification/QueueDrain.v ===== *)
(** * QueueDrain: the drain simulation is the advancer

    [drain_estimate] works on four deques of snapshot indices; the advancer works
    on the database, one statement per slot.  Both are related to the FIFO list
    of waiting claims, which gives the agreement of the two, the absence of
    starvation, and the exactly-once promotion. *)

From S2P Require Import Prelude Strings Schema Lease Outbox Queue.

#[local] Open Scope Z_scope.

Module QueueDrain.

Export Queue.

(** ** The advancer over the FIFO queue *)

Definition queue_of (db : Db) : list (Z * Row) := select is_queued db.

(** What one slot takes: the first waiting claim of an eligible group. *)
Definition slot_pick (slot : nat) (q : list (Z * Row)) : option (Z * Row) :=
  head (filter (fun kr : Z * Row => (5 - Z.of_nat slot <=? r_queue_group kr.2) = true) q).

Definition remove_key (k : Z) (q : list (Z * Row)) : list (Z * Row) :=
  filter (fun kr : Z * Row => kr.1 <> k) q.

Lemma promote_slot_spec now slot db :
  match slot_pick slot (queue_of db) with
  | None => promote_slot now slot db = (None, db)
  | Some (k, r) =>
      db_reservations db !! k = Some r /\ r_status r = Queued /\
      promote_slot now slot db =
        (Some {| p_id := k; p_full_username := r_full_username r; p_slot := slot |},
         with_reservations (<[k := set_reserved now r]> (db_reservations db)) db) /\
      queue_of (promote_slot now slot db).2 = remove_key k (queue_of db)
  end.
Proof.
  unfold slot_pick, promote_slot, queue_of. rewrite select_filter.
  destruct (filter _ (select is_queued db)) as [|[k r] l] eqn:E; simpl; [done|].
  assert ((k, r) ∈ select is_queued db) as Hin.
  { assert ((k, r) ∈ (k, r) :: l) as H by left. rewrite <-E in H.
    by apply list_elem_of_filter in H as [_ H]. }
  apply elem_of_select in Hin as [Hk Hq].
  split; [done|]. split; [unfold is_queued in Hq; by destruct (r_status r)|].
  split; [done|]. by apply select_drop.
Qed.

(** ** No starvation *)

(** [k] has left the queue, or waits behind fewer than [n] claims. *)
Definition ahead (q : list (Z * Row)) (k : Z) (n : nat) : Prop :=
  k ∉ q.*1 \/ exists pre r post, q = pre ++ (k, r) :: post /\ (length pre < n)%nat.

Lemma remove_key_app k q1 q2 : remove_key k (q1 ++ q2) = remove_key k q1 ++ remove_key k q2.
Proof. apply filter_app. Qed.

Lemma remove_key_length k q : (length (remove_key k q) <= length q)%nat.
Proof. apply length_filter. Qed.

Lemma not_in_remove_key j k q : k ∉ q.*1 -> k ∉ (remove_key j q).*1.
Proof.
  unfold remove_key. rewrite !list_elem_of_fmap. intros H ([k' r] & -> & Hin).
  apply list_elem_of_filter in Hin as [_ Hin]. apply H. by exists (k', r).
Qed.

Lemma remove_key_gone k q : k ∉ (remove_key k q).*1.
Proof.
  rewrite list_elem_of_fmap. intros ([k' r] & -> & Hin).
  by apply list_elem_of_filter in Hin as [? _].
Qed.

Lemma ahead_remove q k n j : ahead q k n -> ahead (remove_key j q) k n.
Proof.
  intros [H|(pre & r & post & -> & Hn)]; [left; by apply not_in_remove_key|].
  destruct (decide (j = k)) as [->|Hne]; [left; apply remove_key_gone|right].
  exists (remove_key j pre), r, (remove_key j post). split.
  - rewrite remove_key_app. f_equal. unfold remove_key. rewrite filter_cons.
    by rewrite decide_True.
  - pose proof (remove_key_length j pre). lia.
Qed.

Lemma ahead_weaken q k n m : (n <= m)%nat -> ahead q k n -> ahead q k m.
Proof.
  intros ? [H|(pre & r & post & -> & Hn)]; [by left|right].
  exists pre, r, post. split; [done|lia].
Qed.

(** Taking the head of the queue brings every other claim one step closer. *)
Lemma ahead_remove_head k0 r0 q k n :
  NoDup ((k0, r0) :: q).*1 -> ahead ((k0, r0) :: q) k n -> ahead (remove_key k0 ((k0, r0) :: q)) k (pred n).
Proof.
  intros Hnd [H|(pre & r & post & Heq & Hn)]; [left; by apply not_in_remove_key|].
  destruct pre as [|[k1 r1] pre]; simplify_eq/=; [left; apply remove_key_gone|].
  unfold remove_key at 1. rewrite filter_cons. rewrite decide_False by (intros H; by apply H).
  fold (remove_key k1 (pre ++ (k, r) :: post)). right.
  rewrite remove_key_app. unfold remove_key at 2. rewrite filter_cons.
  assert (k1 <> k) as Hne.
  { intros ->. apply NoDup_cons in Hnd as [Hnin _]. apply Hnin.
    rewrite fmap_app, elem_of_app. right. left. }
  rewrite decide_True by (simpl; congruence).
  eexists _, r, _. split; [reflexivity|].
  pose proof (remove_key_length k1 pre). lia.
Qed.

Lemma promote_slot_ahead now slot db k n :
  ahead (queue_of db) k n -> ahead (queue_of (promote_slot now slot db).2) k n.
Proof.
  intros Ha. pose proof (promote_slot_spec now slot db) as Hs.
  destruct (slot_pick slot (queue_of db)) as [[j r]|].
  - destruct Hs as (_ & _ & _ & ->). by apply ahead_remove.
  - by rewrite Hs.
Qed.

Lemma queue_checks db kr : db_wf db -> kr ∈ queue_of db -> 1 <= r_queue_group kr.2 <= 4.
Proof.
  intros Hwf. destruct kr as [k r]. intros [H _]%elem_of_select.
  by destruct (wf_checks db Hwf k r H).
Qed.

(** Slot 4 accepts every group, so it takes the head of the queue. *)
Lemma slot_pick_4 db : db_wf db -> slot_pick 4 (queue_of db) = head (queue_of db).
Proof.
  intros Hwf. unfold slot_pick. destruct (queue_of db) as [|kr q] eqn:E; [done|].
  rewrite filter_cons, decide_True; [done|].
  assert (kr ∈ queue_of db) as Hin by (rewrite E; left).
  apply queue_checks in Hin; [|done]. apply Z.leb_le. lia.
Qed.

Lemma promote_slot_4_ahead now db k n :
  db_wf db -> ahead (queue_of db) k n -> ahead (queue_of (promote_slot now 4 db).2) k (pred n).
Proof.
  intros Hwf Ha. pose proof (promote_slot_spec now 4 db) as Hs.
  rewrite slot_pick_4 in Hs by done.
  destruct (queue_of db) as [|[j r] q] eqn:E; simpl in Hs.
  - left. rewrite Hs. simpl. rewrite E. simpl. apply not_elem_of_nil.
  - destruct Hs as (_ & _ & _ & ->). apply ahead_remove_head; [|done].
    rewrite <-E. apply NoDup_select.
Qed.

Lemma set_reserved_keeps now : keeps_claim (set_reserved now).
Proof. done. Qed.

Lemma promote_slot_wf now slot db : db_wf db -> db_wf (promote_slot now slot db).2.
Proof.
  intros Hwf. pose proof (promote_slot_spec now slot db) as Hs.
  destruct (slot_pick slot (queue_of db)) as [[j r]|]; [|by rewrite Hs].
  destruct Hs as (Hj & _ & -> & _). simpl. apply set_row_wf; [done..].
Qed.

Lemma advance_slots_cons now slot slots db :
  advance_slots now (slot :: slots) db =
  (let p := promote_slot now slot db in
   let a := advance_slots now slots p.2 in
   (match p.1 with Some x => x :: a.1 | None => a.1 end, a.2)).
Proof. simpl. destruct (promote_slot now slot db) as [p d]. simpl. by destruct (advance_slots now slots d). Qed.

Lemma advance_slots_db now slots db :
  (advance_slots now slots db).2 = foldl (fun d slot => (promote_slot now slot d).2) db slots.
Proof.
  revert db; induction slots as [|slot slots IH]; intros db; [done|].
  rewrite advance_slots_cons. simpl. apply IH.
Qed.

Lemma advance_iteration_wf now db : db_wf db -> db_wf (advance_iteration now db).2.
Proof.
  intros Hwf. unfold advance_iteration, SLOTS_PER_ITERATION.
  rewrite advance_slots_db. cbn [seq foldl].
  by repeat apply promote_slot_wf.
Qed.

(** One iteration brings every waiting claim at least one place forward. *)
Lemma advance_iteration_ahead now db k n :
  db_wf db -> ahead (queue_of db) k n -> ahead (queue_of (advance_iteration now db).2) k (pred n).
Proof.
  intros Hwf Ha. unfold advance_iteration, SLOTS_PER_ITERATION.
  rewrite advance_slots_db. cbn [seq foldl].
  apply promote_slot_4_ahead; [by repeat apply promote_slot_wf|].
  by repeat apply promote_slot_ahead.
Qed.

Lemma ahead_0 q k : ahead q k 0 -> k ∉ q.*1.
Proof. intros [H|(pre & r & post & -> & Hn)]; [done|lia]. Qed.

Lemma advance_iterations_cons now nows db :
  advance_iterations (now :: nows) db =
  (let a := advance_iteration now db in
   let b := advance_iterations nows a.2 in (a.1 :: b.1, b.2)).
Proof.
  simpl. destruct (advance_iteration now db) as [ps d]. simpl.
  by destruct (advance_iterations nows d).
Qed.

Lemma advance_iterations_ahead nows db k n :
  db_wf db -> ahead (queue_of db) k n ->
  ahead (queue_of (advance_iterations nows db).2) k (n - length nows).
Proof.
  revert db n; induction nows as [|now nows IH]; intros db n Hwf Ha.
  - simpl. by rewrite Nat.sub_0_r.
  - rewrite advance_iterations_cons. simpl. destruct n as [|n]; simpl.
    + apply (IH _ 0%nat); [by apply advance_iteration_wf|].
      by apply (advance_iteration_ahead now db k 0).
    + apply IH; [by apply advance_iteration_wf|].
      by apply (advance_iteration_ahead now db k (S n)).
Qed.

(** ** The simulation *)

Definition is_target (t : Z) (p : Promoted) : Prop := p_id p = t.
#[global] Instance is_target_dec t p : Decision (is_target t p) := decide (p_id p = t).

Section simulation.
Context (L : list (Z * Row)).
Context (L_checks : forall kr, kr ∈ L -> 1 <= r_queue_group kr.2 <= 4).

Definition group_at (i : nat) : nat :=
  match L !! i with Some kr => Z.to_nat (r_queue_group kr.2) | None => 0 end.

(** The deques hold the waiting snapshot indices [rem], split by group, in
    order. *)
Record deques (bg : groups) (rem : list nat) : Prop := {
  dq_split : forall g, (1 <= g <= 4)%nat ->
    bg !! (g - 1)%nat = Some (filter (fun i => group_at i = g) rem);
  dq_sorted : StronglySorted lt rem;
  dq_bound : forall i, i ∈ rem -> (i < length L)%nat;
}.

Lemma group_at_range i : (i < length L)%nat -> (1 <= group_at i <= 4)%nat.
Proof using L_checks.
  intros Hi. unfold group_at. destruct (lookup_lt_is_Some_2 L i Hi) as [kr Hkr].
  rewrite Hkr. specialize (L_checks kr (list_elem_of_lookup_2 _ _ _ Hkr)). lia.
Qed.

Lemma front_spec bg rem g :
  deques bg rem -> (1 <= g <= 4)%nat ->
  front bg g = head (filter (fun i => group_at i = g) rem).
Proof.
  intros Hd Hg. unfold front. rewrite (dq_split bg rem Hd g Hg).
  by destruct (filter _ rem).
Qed.

(** [min_by_key] finds the unique least element. *)
Lemma min_by_index_fold (l : list (nat * nat)) (x : nat * nat) acc :
  (x ∈ l /\ match acc with Some y => (x.1 < y.1)%nat | None => True end \/ acc = Some x) ->
  (forall y, y ∈ l -> y = x \/ (x.1 < y.1)%nat) ->
  foldl (fun acc x =>
    match acc with
    | None => Some x
    | Some y => if (fst x <? fst y)%nat then Some x else Some y
    end) acc l = Some x.
Proof.
  revert acc; induction l as [|z l IH]; intros acc Hacc Hall; simpl.
  { destruct Hacc as [[H _]|H]; [by apply not_elem_of_nil in H|done]. }
  apply IH; [|intros y Hy; apply Hall; by right].
  destruct (Hall z ltac:(left)) as [->|Hlt].
  - right. destruct Hacc as [[_ Hacc]| ->].
    + destruct acc as [y|]; [|done]. by rewrite (proj2 (Nat.ltb_lt _ _) Hacc).
    + by rewrite Nat.ltb_irrefl.
  - destruct Hacc as [[Hin Hacc]| ->].
    + left. apply elem_of_cons in Hin as [->|Hin]; [lia|]. split; [done|].
      destruct acc as [y|]; [|done]. by destruct (z.1 <? y.1)%nat.
    + right. replace (fst z <? fst x)%nat with false; [done|].
      symmetry. apply Nat.ltb_ge. lia.
Qed.

(** The slot's pick is the first waiting index of an eligible group. *)
Lemma pick_spec bg rem m :
  deques bg rem -> (1 <= m <= 4)%nat ->
  pick bg m = (fun i => (i, group_at i)) <$> head (filter (fun i => (m <= group_at i)%nat) rem).
Proof using L_checks.
  intros Hd Hm. pose proof (dq_sorted _ _ Hd) as Hs. unfold pick.
  destruct (head (filter _ rem)) as [i|] eqn:E; simpl.
  - apply head_filter_Some_iff in E as (Hi & Hgi & Hmin); [|done].
    pose proof (group_at_range i (dq_bound _ _ Hd i Hi)) as Hr.
    apply min_by_index_fold.
    + left. split; [|done]. apply list_elem_of_omap. exists (group_at i).
      split; [apply elem_of_seq; lia|]. rewrite (front_spec bg rem) by (done || lia).
      assert (head (filter (fun j => group_at j = group_at i) rem) = Some i) as ->; [|done].
      apply head_filter_Some_iff; [done|]. split; [done|]. split; [done|].
      intros j Hj Hgj. apply Hmin; [done|lia].
    + intros [j g] Hy. apply list_elem_of_omap in Hy as (g' & Hg' & Hf).
      apply elem_of_seq in Hg'. rewrite (front_spec bg rem) in Hf by (done || lia).
      destruct (head _) as [j'|] eqn:Ej; simplify_eq/=.
      apply head_filter_Some_iff in Ej as (Hj & Hgj & _); [|done].
      assert (i <= j)%nat as Hij by (apply Hmin; [done|lia]).
      destruct (decide (i = j)) as [->|]; [left; by rewrite Hgj|right; lia].
  - rewrite head_filter_None in E. rewrite omap_nil; [done|].
    intros g Hg. apply elem_of_seq in Hg. rewrite (front_spec bg rem) by (done || lia).
    destruct (head _) as [j|] eqn:Ej; [|done].
    apply head_filter_Some_iff in Ej as (Hj & Hgj & _); [|done].
    destruct (E j Hj). lia.
Qed.

(** Popping the picked deque removes the picked index. *)
Lemma pop_spec bg rem m i :
  deques bg rem -> (1 <= m <= 4)%nat ->
  head (filter (fun i => (m <= group_at i)%nat) rem) = Some i ->
  deques (pop_front bg (group_at i)) (filter (fun j => j <> i) rem).
Proof using L_checks.
  intros Hd Hm E. pose proof (dq_sorted _ _ Hd) as Hs.
  apply head_filter_Some_iff in E as (Hi & Hgi & Hmin); [|done].
  pose proof (group_at_range i (dq_bound _ _ Hd i Hi)) as Hr. split.
  - intros g Hg. unfold pop_front. rewrite list_filter_filter.
    pose proof (dq_split _ _ Hd g Hg) as Hsplit.
    assert (filter (fun a => group_at a = g /\ a <> i) rem =
            filter (fun a => a <> i) (filter (fun a => group_at a = g) rem)) as ->.
    { rewrite list_filter_filter. apply filter_iff. naive_solver. }
    destruct (decide (g = group_at i)) as [->|Hne].
    + rewrite list_lookup_alter_eq, Hsplit. simpl. f_equal.
      assert (head (filter (fun a => group_at a = group_at i) rem) = Some i) as Hhd.
      { apply head_filter_Some_iff; [done|]. split; [done|]. split; [done|].
        intros j Hj Hgj. apply Hmin; [done|lia]. }
      assert (StronglySorted lt (filter (fun a => group_at a = group_at i) rem)) as Hsf
        by by apply StronglySorted_filter.
      destruct (filter _ rem) as [|h t]; simplify_eq/=.
      rewrite filter_cons, decide_False by (intros H; by apply H).
      symmetry. apply filter_all. apply StronglySorted_inv in Hsf as [_ Hall].
      rewrite Forall_forall in Hall. intros j Hj. specialize (Hall j Hj). lia.
    + rewrite list_lookup_alter_ne by lia. rewrite Hsplit. f_equal.
      symmetry. apply filter_all. intros j Hj. apply list_elem_of_filter in Hj as [Hj _]. congruence.
  - by apply StronglySorted_filter.
  - intros j [_ Hj]%list_elem_of_filter. by apply (dq_bound _ _ Hd).
Qed.
(** The initial deques hold every snapshot index. *)
Lemma push_back_fold (ies : list (nat * QueuedEntry)) bg g q :
  (forall ie, ie ∈ ies -> 1 <= qe_group ie.2) -> (1 <= g)%nat ->
  bg !! (g - 1)%nat = Some q ->
  foldl (fun bg ie => push_back (qe_group (snd ie)) (fst ie) bg) bg ies !! (g - 1)%nat =
    Some (q ++ (filter (fun ie => qe_group ie.2 = Z.of_nat g) ies).*1).
Proof.
  revert bg q; induction ies as [|[i e] ies IH]; intros bg q Hies Hg Hbg; simpl.
  { by rewrite app_nil_r. }
  pose proof (Hies (i, e) ltac:(left)) as He. simpl in He.
  rewrite filter_cons. simpl. case_decide as Hd.
  - rewrite (IH _ (q ++ [i])); [by rewrite <-app_assoc|set_solver|done|].
    unfold push_back. rewrite Hd, Nat2Z.id, list_lookup_alter_eq, Hbg. done.
  - apply IH; [set_solver|done|]. unfold push_back. rewrite list_lookup_alter_ne; [done|lia].
Qed.

Lemma filter_imap_fst (g : Z) (l : list QueuedEntry) :
  (filter (fun ie : nat * QueuedEntry => qe_group ie.2 = g) (imap pair l)).*1 =
  filter (fun i => match l !! i with Some x => qe_group x =? g | None => false end = true)
    (seq 0 (length l)).
Proof.
  induction l as [|x l IH] using rev_ind; [done|].
  rewrite imap_app, length_app, Nat.add_comm. simpl length. rewrite seq_S, !filter_app, fmap_app.
  f_equal.
  - rewrite IH. apply filter_iff. intros i [_ Hi]%elem_of_seq. by rewrite lookup_app_l.
  - simpl. rewrite Nat.add_0_r, !filter_cons, !filter_nil. simpl.
    rewrite lookup_app_r, Nat.sub_diag by lia. simpl.
    destruct (Z.eqb_spec (qe_group x) g) as [Hg|Hg];
      [by rewrite decide_True|by rewrite decide_False].
Qed.

Lemma initial_deques : deques (initial_groups (entry_of <$> L)) (seq 0 (length L)).
Proof using L_checks.
  split.
  - intros g Hg. unfold initial_groups. rewrite (push_back_fold _ _ g []).
    + rewrite app_nil_l. f_equal.
      rewrite filter_imap_fst, length_fmap. apply filter_iff. intros i [_ Hi]%elem_of_seq.
      rewrite list_lookup_fmap. unfold group_at.
      destruct (L !! i) as [kr|] eqn:E; simpl; [|apply lookup_ge_None in E; lia].
      specialize (L_checks kr (list_elem_of_lookup_2 _ _ _ E)).
      rewrite (clamp_id 1 4), Z.eqb_eq by exact L_checks. lia.
    + intros [i e] Hie. apply list_elem_of_lookup in Hie as [j Hj].
      rewrite list_lookup_imap in Hj. rewrite list_lookup_fmap in Hj.
      destruct (L !! j) as [kr|]; simplify_eq/=. pose proof (clamp_range 1 4 (r_queue_group kr.2)).
      lia.
    + lia.
    + apply lookup_replicate. split; [done|lia].
  - generalize 0%nat at 1. intros n. revert n. induction (length L) as [|m IH]; intros n;
      constructor; [apply IH|]. apply Forall_forall. intros j [? _]%elem_of_seq. lia.
  - intros i [_ Hi]%elem_of_seq. done.
Qed.

(** The database holds the rows the waiting indices name, in FIFO order. *)
Definition waits (db : Db) (rem : list nat) : Prop := queue_of db = omap (fun i => L !! i) rem.

Lemma head_filter_omap (P : Z * Row -> Prop) (Q : nat -> Prop)
    `{forall x, Decision (P x), forall x, Decision (Q x)} rem :
  (forall i kr, i ∈ rem -> L !! i = Some kr -> P kr <-> Q i) ->
  (forall i, i ∈ rem -> (i < length L)%nat) ->
  head (filter P (omap (fun i => L !! i) rem)) = head (filter Q rem) ≫= (fun i => L !! i).
Proof.
  induction rem as [|i rem IH]; intros Hpq Hb; [done|]. rewrite filter_cons. simpl.
  destruct (lookup_lt_is_Some_2 L i (Hb i ltac:(left))) as [kr Hkr]. rewrite Hkr, filter_cons.
  pose proof (Hpq i kr ltac:(left) Hkr) as Hi.
  repeat case_decide; try tauto; simpl; [done|].
  apply IH; [intros j x Hj; apply Hpq|intros j Hj; apply Hb]; by right.
Qed.

Context (L_nodup : NoDup L.*1).

Lemma remove_key_omap i k r rem :
  L !! i = Some (k, r) ->
  remove_key k (omap (fun i => L !! i) rem) = omap (fun i => L !! i) (filter (fun j => j <> i) rem).
Proof using L_nodup.
  intros Hi. induction rem as [|j rem IH]; [done|]. rewrite filter_cons. simpl.
  destruct (decide (j = i)) as [->|Hne].
  - rewrite Hi, decide_False by (intros H; by apply H). unfold remove_key.
    rewrite filter_cons, decide_False; [exact IH|]. simpl. intros H. by apply H.
  - rewrite decide_True by done. simpl. destruct (L !! j) as [[k' r']|] eqn:Ej; [|exact IH].
    unfold remove_key. rewrite filter_cons, decide_True; [by f_equal|]. simpl. intros ->.
    apply Hne. eapply NoDup_lookup; [exact L_nodup|..];
      by rewrite list_lookup_fmap, ?Ej, ?Hi.
Qed.

(** One slot of the simulation and one slot of the advancer. *)
Lemma slot_sim now slot bg rem db :
  deques bg rem -> waits db rem -> (1 <= slot <= 4)%nat ->
  match pick bg (5 - slot) with
  | None => promote_slot now slot db = (None, db)
  | Some (i, g) => exists k r p db', L !! i = Some (k, r) /\ p_id p = k /\
      promote_slot now slot db = (Some p, db') /\
      exists rem', deques (pop_front bg g) rem' /\ waits db' rem' /\
                   rem' = filter (fun j => j <> i) rem
  end.
Proof using L_checks L_nodup.
  intros Hd Hw Hslot. rewrite (pick_spec bg rem) by (done || lia).
  pose proof (promote_slot_spec now slot db) as Hp. unfold slot_pick in Hp.
  assert (head (filter (fun kr : Z * Row => (5 - Z.of_nat slot <=? r_queue_group kr.2) = true)
            (queue_of db)) =
          head (filter (fun i => (5 - slot <= group_at i)%nat) rem) ≫= (fun i => L !! i)) as Hh.
  { rewrite Hw. apply head_filter_omap.
    - intros i kr Hi Hkr. unfold group_at. rewrite Hkr, Z.leb_le.
      specialize (L_checks kr (list_elem_of_lookup_2 _ _ _ Hkr)). lia.
    - apply (dq_bound _ _ Hd). }
  rewrite Hh in Hp. destruct (head (filter _ rem)) as [i|] eqn:E; simpl in *; [|done].
  assert (i ∈ rem) as Hi.
  { apply head_Some_elem_of in E. by apply list_elem_of_filter in E as [_ ?]. }
  destruct (lookup_lt_is_Some_2 L i (dq_bound _ _ Hd i Hi)) as [[k r] Hkr].
  rewrite Hkr in Hp. destruct Hp as (_ & _ & Hp & Hq). rewrite Hp in Hq. simpl in Hq.
  eexists k, r, _, _. split; [done|]. split; [|split; [exact Hp|]]; [done|].
  eexists. split; [|split; [|reflexivity]].
  - by eapply pop_spec; [..|exact E]; [|lia].
  - unfold waits. rewrite Hq, Hw. by eapply remove_key_omap.
Qed.

(** The slots of one iteration: the simulation returns exactly when the advancer
    promotes the target, and otherwise both end in related states. *)
Lemma slots_sim t it now slots bg rem db pos :
  deques bg rem -> waits db rem -> (forall slot, slot ∈ slots -> 1 <= slot <= 4)%nat ->
  let a := advance_slots now slots db in
  match drain_slots (entry_of <$> L) t it slots bg pos with
  | Return e => exists j p, list_find (is_target t) a.1 = Some (j, p) /\
      e = {| position := pos + Z.of_nat j + 1; iterations := it |}
  | Continue bg' pos' => list_find (is_target t) a.1 = None /\
      pos' = pos + Z.of_nat (length a.1) /\
      exists rem', deques bg' rem' /\ waits a.2 rem'
  end.
Proof using L_checks L_nodup.
  revert bg rem db pos; induction slots as [|slot slots IH]; intros bg rem db pos Hd Hw Hslots.
  { simpl. split; [done|]. split; [lia|]. by exists rem. }
  pose proof (slot_sim now slot bg rem db Hd Hw (Hslots slot ltac:(left))) as Hs.
  assert (forall s, s ∈ slots -> 1 <= s <= 4)%nat as Hslots' by (intros; apply Hslots; by right).
  rewrite advance_slots_cons. cbn [drain_slots].
  destruct (pick bg (5 - slot)) as [[i g]|]; [|rewrite Hs; by apply (IH _ rem)].
  destruct Hs as (k & r & p & db' & Hi & Hpk & Hprom & rem' & Hd' & Hw' & _).
  rewrite Hprom. cbn [fst snd list_find]. rewrite list_lookup_fmap, Hi. cbn [fmap option_fmap option_map].
  cbn [entry_of qe_id fst]. rewrite <-Hpk.
  destruct (Z.eqb_spec (p_id p) t) as [Ht|Hne].
  - rewrite decide_True by done. exists 0%nat, p. split; [done|]. f_equal. lia.
  - rewrite decide_False by done. specialize (IH _ _ db' (pos + 1) Hd' Hw' Hslots').
    destruct (drain_slots _ _ _ _ _ _) as [e|bg' pos'].
    + destruct IH as (j & p' & Hj & ->). exists (S j), p'. rewrite Hj. split; [done|]. f_equal. lia.
    + destruct IH as (Hj & -> & Hex). rewrite Hj. split; [done|]. simpl. split; [lia|done].
Qed.
End simulation.

(** Where a claim is promoted: its iteration and its position in promotion
    order. *)
Fixpoint locate (t : Z) (it pos : Z) (pss : list (list Promoted)) : option DrainEstimate :=
  match pss with
  | [] => None
  | ps :: pss' =>
      match list_find (is_target t) ps with
      | Some (j, _) => Some {| position := pos + Z.of_nat j + 1; iterations := it |}
      | None => locate t (it + 1) (pos + Z.of_nat (length ps)) pss'
      end
  end.

Lemma iterations_sim L t nows it bg rem db pos :
  (forall kr, kr ∈ L -> 1 <= r_queue_group kr.2 <= 4) -> NoDup L.*1 ->
  deques L bg rem -> waits L db rem ->
  drain_iterations (entry_of <$> L) t (length nows) it bg pos =
  locate t it pos (advance_iterations nows db).1.
Proof.
  intros HL Hnd. revert it bg rem db pos; induction nows as [|now nows IH];
    intros it bg rem db pos Hd Hw; [done|].
  rewrite advance_iterations_cons. cbn [drain_iterations length locate fst].
  assert (forall s, s ∈ seq 1 SLOTS_PER_ITERATION -> 1 <= s <= 4)%nat as Hslots
    by (intros s Hin; apply elem_of_seq in Hin; unfold SLOTS_PER_ITERATION in Hin; lia).
  pose proof (slots_sim L HL Hnd t it now _ bg rem db pos Hd Hw Hslots) as Hs.
  cbn zeta in Hs. fold (advance_iteration now db) in Hs.
  destruct (drain_slots _ _ _ _ _ _) as [e|bg' pos'].
  - destruct Hs as (j & p & -> & ->). done.
  - destruct Hs as (-> & -> & rem' & Hd' & Hw'). by apply (IH _ _ rem').
Qed.

Lemma omap_lookup_seq {A} (l : list A) : omap (fun i => l !! i) (seq 0 (length l)) = l.
Proof.
  induction l as [|x l IH] using rev_ind; [done|].
  rewrite length_app, Nat.add_comm. simpl length. rewrite seq_S, omap_app. f_equal.
  - rewrite <-IH at 2. apply list_omap_ext, Forall2_same_length_lookup_2; [done|].
    intros i a b Ha Hb. simplify_eq. apply lookup_seq in Ha as [-> Hi]. by rewrite lookup_app_l.
  - simpl. by rewrite lookup_app_r, Nat.sub_diag by lia.
Qed.

Lemma estimate_locate db nows t :
  db_wf db -> length nows = length (queued_snapshot db) -> Z.of_nat (length nows) <= U32_MAX ->
  drain_estimate (queued_snapshot db) t = locate t 1 0 (advance_iterations nows db).1.
Proof.
  intros Hwf Hlen Hmax. unfold drain_estimate. rewrite <-Hlen, Z.mod_small by lia.
  rewrite Nat2Z.id. unfold queued_snapshot.
  assert (forall kr, kr ∈ select is_queued db -> 1 <= r_queue_group kr.2 <= 4) as HL.
  { intros kr. by apply queue_checks. }
  eapply iterations_sim; [exact HL|apply NoDup_select|by apply initial_deques|].
  unfold waits. by rewrite omap_lookup_seq.
Qed.

End QueueDrain.
