(* ===== verification/QueueProps.v ===== *)
(** * QueueProps: what the queue promises

    The properties of [queue.rs]: the drain simulation agrees with the advancer,
    nobody starves, an iteration promotes exactly once and in order, the group
    refresh does not depend on the order the balance reads come in, the janitor
    acts only on a dead advancer, and a validated cadence keeps a healthy
    advancer's lease alive. *)

From S2P Require Import Prelude Strings Schema Lease Outbox Queue QueueDrain.

#[local] Open Scope Z_scope.

Module QueueProps.

Export QueueDrain.

(** A run of the advancer among other processes that try to take its lease. *)
Inductive Input :=
| Own (ev : AdvancerEvent)
| Rival (holder : string) (ttl : Z).

Definition input_step (cfg : AdvancerConfig) (sd : AdvancerState * Db) (i : Z * Input)
    : AdvancerState * Db :=
  match i.2 with
  | Own ev => advancer_step cfg i.1 ev sd
  | Rival holder ttl =>
      (sd.1, with_leases (try_acquire i.1 ADVANCER_LEASE_NAME holder ttl (db_leases sd.2)).2 sd.2)
  end.

(** The renewals of a healthy run: every lease statement is acknowledged, and
    nothing happens more than [period] after the last renewal. *)
Definition renews (i : Input) : bool :=
  match i with Own (EvWake _) | Own (EvTick _) => true | _ => false end.

Definition acknowledged (i : Input) : bool :=
  match i with
  | Own (EvWake Fine) | Own (EvTick Fine) => true
  | Own (EvWake _) | Own (EvTick _) => false
  | _ => true
  end.

(** Wake-ups come while sleeping and ticks while working, as the loop arms
    them. *)
Definition awaited (st : AdvancerState) (i : Input) : bool :=
  match st, i with
  | Sleeping _, Own (EvTick _) => false
  | Working _ _, Own (EvWake _) => false
  | _, _ => true
  end.

Fixpoint healthy (cfg : AdvancerConfig) (period last : Z) (sd : AdvancerState * Db)
    (run : list (Z * Input)) : bool :=
  match run with
  | [] => true
  | (now, i) :: run' =>
      (last <=? now) && (now <=? last + period) && acknowledged i && awaited sd.1 i
      && (match i with Rival h _ => negb (String.eqb h (cfg_holder_id cfg)) | _ => true end)
      && healthy cfg period (if renews i then now else last) (input_step cfg sd (now, i)) run'
  end.

Definition run_inputs (cfg : AdvancerConfig) (sd : AdvancerState * Db) (run : list (Z * Input))
    : AdvancerState * Db :=
  foldl (input_step cfg) sd run.

Definition at_epoch (e : Z) (st : AdvancerState) : bool :=
  match st with Acquiring => false | Sleeping e' | Working e' _ => e' =? e end.

(** ** Iterations *)

Record iteration_ok (now : Z) (db : Db) (ps : list Promoted) (db' : Db) : Prop := {
  it_promoted : forall p, p ∈ ps -> exists r,
    db_reservations db !! p_id p = Some r /\ r_status r = Queued /\
    5 - Z.of_nat (p_slot p) <= r_queue_group r /\
    p_full_username p = r_full_username r /\
    db_reservations db' !! p_id p = Some (set_reserved now r) /\
    forall j rj, db_reservations db' !! j = Some rj -> r_status rj = Queued ->
      5 - Z.of_nat (p_slot p) <= r_queue_group rj -> fifo_le (p_id p, r) (j, rj) = true;
  it_nodup : NoDup (p_id <$> ps);
  it_frame : forall k, k ∉ p_id <$> ps -> db_reservations db' !! k = db_reservations db !! k;
}.

Lemma slot_pick_first slot db k r :
  slot_pick slot (queue_of db) = Some (k, r) ->
  5 - Z.of_nat slot <= r_queue_group r /\
  forall j rj, db_reservations db !! j = Some rj -> r_status rj = Queued ->
    5 - Z.of_nat slot <= r_queue_group rj -> fifo_le (k, r) (j, rj) = true.
Proof.
  unfold slot_pick, queue_of. intros H.
  pose proof (StronglySorted_filter _
    (fun kr : Z * Row => (5 - Z.of_nat slot <=? r_queue_group kr.2) = true) _
    (select_sorted is_queued db)) as Hs.
  assert (forall kr : Z * Row, kr ∈ filter (fun kr : Z * Row =>
            (5 - Z.of_nat slot <=? r_queue_group kr.2) = true) (select is_queued db) <->
            (5 - Z.of_nat slot <=? r_queue_group kr.2) = true /\ kr ∈ select is_queued db) as Hin
    by (intros kr; by rewrite list_elem_of_filter).
  destruct (filter _ _) as [|kr l]; simplify_eq/=.
  apply StronglySorted_inv in Hs as [_ Hall]. rewrite Forall_forall in Hall. split.
  - destruct (proj1 (Hin (k, r)) ltac:(left)) as [Hle _]. simpl in Hle. bool_prop. done.
  - intros j rj Hj Hq Hg. assert ((j, rj) ∈ (k, r) :: l) as Hm.
    { apply Hin. split; [by apply Z.leb_le|]. apply elem_of_select. unfold is_queued.
      by rewrite Hq. }
    apply elem_of_cons in Hm as [[= -> ->]|Hm]; [|by apply Hall].
    destruct (fifo_le_total (k, r) (k, r)); done.
Qed.

Lemma advance_slots_ok now slots db :
  iteration_ok now db (advance_slots now slots db).1 (advance_slots now slots db).2.
Proof.
  revert db; induction slots as [|slot slots IH]; intros db.
  { split; simpl; [|constructor|done]. intros p Hp. by apply not_elem_of_nil in Hp. }
  rewrite advance_slots_cons. cbn zeta.
  pose proof (promote_slot_spec now slot db) as Hs.
  destruct (slot_pick slot (queue_of db)) as [[k r]|] eqn:Epick; [|rewrite Hs; apply IH].
  apply slot_pick_first in Epick as [Hg Hfirst].
  destruct Hs as (Hk & Hst & Hp & _). rewrite Hp. cbn [fst snd].
  set (db1 := with_reservations _ db). destruct (IH db1) as [Hprom Hnd Hframe].
  assert (db_reservations db1 !! k = Some (set_reserved now r)) as Hk1
    by (simpl; apply lookup_insert_eq).
  assert (k ∉ p_id <$> (advance_slots now slots db1).1) as Hfresh.
  { intros (p & -> & Hin)%list_elem_of_fmap.
    destruct (Hprom p Hin) as (r' & Hr' & Hq & _). by simplify_eq. }
  assert (forall j rj, db_reservations (advance_slots now slots db1).2 !! j = Some rj ->
    r_status rj = Queued -> db_reservations db !! j = Some rj /\ j <> k) as Hback.
  { intros j rj Hj Hq.
    destruct (decide (j ∈ p_id <$> (advance_slots now slots db1).1)) as [Hin|Hin].
    - apply list_elem_of_fmap in Hin as (p & -> & Hin).
      destruct (Hprom p Hin) as (r' & _ & _ & _ & _ & Hr' & _). by simplify_eq.
    - rewrite (Hframe j Hin) in Hj. simpl in Hj.
      apply lookup_insert_Some in Hj as [[-> <-]|[Hne Hj]]; [done|]. by split. }
  split.
  - intros p Hp'. apply elem_of_cons in Hp' as [->|Hin]; simpl.
    + exists r. rewrite (Hframe k Hfresh). repeat (split; [done|]). intros j rj Hj Hq.
      destruct (Hback j rj Hj Hq) as [? _]. by apply Hfirst.
    + destruct (Hprom p Hin) as (r' & Hr' & Hq & ? & ? & ? & ?). exists r'.
      simpl in Hr'. apply lookup_insert_Some in Hr' as [[-> <-]|[_ Hr']]; [done|]. done.
  - rewrite fmap_cons. by constructor.
  - intros j Hj. rewrite fmap_cons in Hj. apply not_elem_of_cons in Hj as [Hne Hj].
    rewrite (Hframe j Hj). simpl. by rewrite lookup_insert_ne.
Qed.

Lemma advance_slots_length now slots db :
  (length (advance_slots now slots db).1 <= length slots)%nat.
Proof.
  revert db; induction slots as [|slot slots IH]; intros db; [done|].
  rewrite advance_slots_cons. simpl. specialize (IH (promote_slot now slot db).2).
  destruct (promote_slot now slot db).1; simpl; lia.
Qed.

(** ** Locating a promotion *)

Lemma locate_bound t it pos n pss :
  (exists p ps, ps ∈ take n pss /\ p ∈ ps /\ p_id p = t) ->
  (forall ps, ps ∈ pss -> (length ps <= SLOTS_PER_ITERATION)%nat) ->
  exists e, locate t it pos pss = Some e /\ it <= iterations e < it + Z.of_nat n /\
    pos < position e <= pos + 4 * (iterations e - it + 1).
Proof.
  revert it pos n; induction pss as [|ps pss IH]; intros it pos n (p & ps' & Hps & Hp & Ht) Hlen.
  { rewrite take_nil in Hps. by apply not_elem_of_nil in Hps. }
  pose proof (Hlen ps ltac:(left)) as Hl. unfold SLOTS_PER_ITERATION in *.
  destruct n as [|n]; [by apply not_elem_of_nil in Hps|]. simpl.
  destruct (list_find (is_target t) ps) as [[j q]|] eqn:E.
  - eexists. split; [done|]. simpl. apply list_find_Some in E as (E & _).
    apply lookup_lt_Some in E. lia.
  - simpl in Hps. apply elem_of_cons in Hps as [->|Hps].
    { rewrite list_find_None, Forall_forall in E. by destruct (E p Hp). }
    destruct (IH (it + 1) (pos + Z.of_nat (length ps)) n) as (e & He & Hit & Hpos).
    { by exists p, ps'. }
    { intros q Hq. apply Hlen. by right. }
    exists e. split; [done|]. lia.
Qed.

Lemma advance_iterations_take n nows db :
  take n (advance_iterations nows db).1 = (advance_iterations (take n nows) db).1.
Proof.
  revert n db; induction nows as [|now nows IH]; intros n db; [by destruct n|].
  destruct n as [|n]; [done|]. rewrite firstn_cons, !advance_iterations_cons. simpl. by rewrite IH.
Qed.

Lemma advance_iterations_length nows db ps :
  ps ∈ (advance_iterations nows db).1 -> (length ps <= SLOTS_PER_ITERATION)%nat.
Proof.
  revert db; induction nows as [|now nows IH]; intros db Hps; [by apply not_elem_of_nil in Hps|].
  rewrite advance_iterations_cons in Hps. simpl in Hps. apply elem_of_cons in Hps as [->|Hps].
  - unfold advance_iteration. etrans; [apply advance_slots_length|]. by rewrite length_seq.
  - by eapply IH.
Qed.

(** A claim leaves the queue only by being promoted. *)
Lemma leaves_promoted nows db k :
  k ∈ (queue_of db).*1 -> k ∉ (queue_of (advance_iterations nows db).2).*1 ->
  exists p ps, ps ∈ (advance_iterations nows db).1 /\ p ∈ ps /\ p_id p = k.
Proof.
  revert db; induction nows as [|now nows IH]; intros db Hin Hout; [done|].
  rewrite advance_iterations_cons in *. simpl in *.
  destruct (advance_slots_ok now (seq 1 SLOTS_PER_ITERATION) db) as [_ _ Hframe].
  fold (advance_iteration now db) in Hframe.
  destruct (decide (k ∈ p_id <$> (advance_iteration now db).1)) as [Hp|Hp].
  - apply list_elem_of_fmap in Hp as (p & -> & Hp). exists p, (advance_iteration now db).1.
    split; [left|done].
  - destruct (IH (advance_iteration now db).2) as (p & ps & ? & ? & ?); [|done|].
    + apply list_elem_of_fmap in Hin as ([k' r] & Hk & Hin). simplify_eq/=.
      apply list_elem_of_fmap. exists (k', r). split; [done|].
      apply elem_of_select in Hin as [Hr Hq]. apply elem_of_select.
      by rewrite (Hframe k' Hp).
    + exists p, ps. split; [by right|done].
Qed.

(** ** Refresh *)

Definition refreshed_row (now : Z) (free_balance : bytes -> option Z) (r : Row) : Row :=
  match refreshed_group free_balance (nr_account_id (r_new r)) with
  | Some g => if is_queued r && negb (r_queue_group r =? g) then set_group now g r else r
  | None => r
  end.

Lemma refreshed_row_account now fb r :
  nr_account_id (r_new (refreshed_row now fb r)) = nr_account_id (r_new r).
Proof. unfold refreshed_row. by repeat destr_match. Qed.

Lemma refreshed_row_idem now fb r :
  refreshed_row now fb (refreshed_row now fb r) = refreshed_row now fb r.
Proof.
  unfold refreshed_row at 1. rewrite refreshed_row_account. unfold refreshed_row.
  destruct (refreshed_group _ _) as [g|]; [|done].
  destruct (is_queued r && negb (r_queue_group r =? g)) eqn:E; simpl.
  - by rewrite Z.eqb_refl, andb_false_r.
  - by rewrite E.
Qed.

Lemma update_group_row now fb a db k :
  db_reservations (match refreshed_group fb a with
                   | None => db
                   | Some g => update_group now a g db
                   end) !! k =
  (fun r => if String.eqb (nr_account_id (r_new r)) a then refreshed_row now fb r else r)
    <$> db_reservations db !! k.
Proof.
  destruct (db_reservations db !! k) as [r|] eqn:Hk; simpl; last first.
  { destruct (refreshed_group fb a); [|done]. simpl. by rewrite lookup_update_where, Hk. }
  unfold refreshed_row. destruct (String.eqb (nr_account_id (r_new r)) a) eqn:Ea.
  - apply String.eqb_eq in Ea as Ha. rewrite Ha. destruct (refreshed_group fb a) as [g|]; [|done].
    simpl. rewrite lookup_update_where, Hk. simpl. by rewrite Ea, andb_true_r.
  - destruct (refreshed_group fb a) as [g|]; [|done]. simpl. rewrite lookup_update_where, Hk. simpl.
    by rewrite Ea, andb_false_r.
Qed.

Lemma refresh_groups_row now fb order db k :
  db_reservations (refresh_groups now fb order db) !! k =
  (fun r => if bool_decide (nr_account_id (r_new r) ∈ order) then refreshed_row now fb r else r)
    <$> db_reservations db !! k.
Proof.
  revert db; induction order as [|a order IH]; intros db.
  { simpl. by destruct (db_reservations db !! k). }
  change (refresh_groups now fb (a :: order) db) with
    (refresh_groups now fb order
       (match refreshed_group fb a with None => db | Some g => update_group now a g db end)).
  rewrite IH, update_group_row.
  destruct (db_reservations db !! k) as [r|]; simpl; [|done]. f_equal.
  destruct (String.eqb_spec (nr_account_id (r_new r)) a) as [->|Hne].
  - rewrite (bool_decide_eq_true_2 (a ∈ a :: order)) by left.
    rewrite refreshed_row_account. case_bool_decide; [apply refreshed_row_idem|done].
  - erewrite (bool_decide_ext (nr_account_id (r_new r) ∈ a :: order)); [done|].
    rewrite elem_of_cons. naive_solver.
Qed.

(** ** Cadence *)

Lemma validate_cadence_Ok interval ttl :
  validate_cadence interval ttl = Ok tt -> secs 1 <= interval /\ interval + ttl / 3 < ttl.
Proof. unfold validate_cadence. intros H. repeat destr_match_in H; bool_prop; done. Qed.

Definition holds_until (cfg : AdvancerConfig) (e t : Z) (db : Db) : Prop :=
  exists l, db_leases db !! ADVANCER_LEASE_NAME = Some l /\
    l_holder_id l = cfg_holder_id cfg /\ l_lease_epoch l = e /\ l_expires_at l = t.

Lemma holds_until_renew cfg e t now db :
  holds_until cfg e t db -> now < t ->
  exists db', run_stmt Fine (renew_stmt now cfg e) db = (Some true, db') /\
    holds_until cfg e (now + secs (lease_ttl cfg)) db'.
Proof.
  intros (l & Hl & Hh & He & Ht) Hnow. unfold run_stmt, renew_stmt, renew. simpl. rewrite Hl.
  unfold held_row. simpl. rewrite Hh, He, String.eqb_refl, Z.eqb_refl. simpl.
  rewrite (proj2 (Z.ltb_lt _ _)) by lia. eexists. split; [done|].
  eexists. simpl. rewrite lookup_insert_eq. by split.
Qed.

Lemma promote_slot_leases now slot db : db_leases (promote_slot now slot db).2 = db_leases db.
Proof. unfold promote_slot. by repeat destr_match. Qed.

Lemma run_stmt_leases {A} fate (stmt : Db -> A * Db) db :
  db_leases (stmt db).2 = db_leases db -> db_leases (run_stmt fate stmt db).2 = db_leases db.
Proof. destruct fate; simpl; [|done|done]. by destruct (stmt db). Qed.

(** The events that are not renewals leave the lease table alone and keep the
    epoch. *)
Lemma other_event_keeps cfg e now ev st db :
  at_epoch e st = true -> renews (Own ev) = false ->
  at_epoch e (advancer_step cfg now ev (st, db)).1 = true /\
  db_leases (advancer_step cfg now ev (st, db)).2 = db_leases db.
Proof.
  intros He Hr. destruct st as [|e'|e' ph]; [done|destruct ev; done|].
  destruct ev as [| | |a g f| |f|]; try done; destruct ph as [|[|slot slots]]; try done; simpl.
  - pose proof (run_stmt_leases f (fun d => (tt, update_group now a g d)) db eq_refl) as Hl.
    destruct (run_stmt f _ db) as [[x|] db']; by split.
  - pose proof (run_stmt_leases f (promote_slot now slot) db (promote_slot_leases now slot db)) as Hl.
    destruct (run_stmt f _ db) as [[x|] db']; by split.
Qed.

Lemma healthy_step cfg e last now i st db :
  let ttl := secs (lease_ttl cfg) in
  at_epoch e st = true -> holds_until cfg e (last + ttl) db ->
  now < last + ttl -> acknowledged i = true -> awaited st i = true ->
  (match i with Rival h _ => h <> cfg_holder_id cfg | _ => True end) ->
  at_epoch e (input_step cfg (st, db) (now, i)).1 = true /\
  holds_until cfg e ((if renews i then now else last) + ttl) (input_step cfg (st, db) (now, i)).2.
Proof.
  intros ttl He Hh Hnow Hack Haw Hr. destruct i as [ev|h ttl'].
  - destruct (renews (Own ev)) eqn:Eren.
    + destruct ev as [|[]|[]| | | |]; try done; destruct st as [|e'|e' ph]; try done;
        simpl in He; apply Z.eqb_eq in He as ->; cbn [input_step advancer_step fst snd];
        destruct (holds_until_renew cfg e _ now db Hh Hnow) as (db' & Heq & Hh');
        rewrite Heq; try destruct ph as [|[]]; simpl; by rewrite Z.eqb_refl.
    + destruct (other_event_keeps cfg e now ev st db He Eren) as [H1 H2].
      cbn [input_step fst snd]. split; [done|]. unfold holds_until. by rewrite H2.
  - simpl. split; [done|]. destruct Hh as (l & Hl & Hh & Hep & Ht).
    exists l. simpl. rewrite (try_acquire_excluded_lem now _ h ttl' _ (advancer_guard cfg e)); [done|done| |].
    + apply lease_held_spec. exists l. simpl. repeat (split; [done|]). lia.
    + done.
Qed.

Lemma healthy_run cfg e period last run st db :
  let ttl := secs (lease_ttl cfg) in
  period < ttl -> at_epoch e st = true -> holds_until cfg e (last + ttl) db ->
  healthy cfg period last (st, db) run = true ->
  at_epoch e (run_inputs cfg (st, db) run).1 = true /\
  exists last', last <= last' /\
    holds_until cfg e (last' + ttl) (run_inputs cfg (st, db) run).2.
Proof.
  intros ttl Hp. revert last st db; induction run as [|[now i] run IH]; intros last st db He Hh Hrun.
  { split; [done|]. exists last. split; [lia|done]. }
  cbn [healthy fst] in Hrun. bool_prop.
  destruct (healthy_step cfg e last now i st db) as [He' Hh']; try done; [lia| |].
  { destruct i; [done|]. by bool_prop. }
  simpl. destruct (input_step cfg (st, db) (now, i)) as [st' db'] eqn:Es.
  destruct (IH _ st' db' He' Hh') as (? & last' & ? & ?); [done|].
  split; [done|]. exists last'. split; [|done]. destruct (renews i); lia.
Qed.

(** ** Properties *)

(** The queue-status answer is what the advancer does: simulating the drain
    of the snapshot reports, for every claim, exactly the iteration and the
    position in promotion order at which running [advance_iteration] on the same
    database promotes it (and nothing for a claim that is not queued). *)
Theorem estimate_is_promotion db nows t :
  db_wf db -> length nows = length (queued_snapshot db) -> Z.of_nat (length nows) <= U32_MAX ->
  drain_estimate (queued_snapshot db) t = locate t 1 0 (advance_iterations nows db).1.
Proof. apply estimate_locate. Qed.

(** No starvation: a claim with [n] claims ahead of it in the FIFO queue has
    left the queue after [n + 1] iterations, whatever the groups; its estimate
    exists, is at most [n + 1] iterations, and no position is more than four per
    iteration away. *)
Theorem no_starvation db nows k r pre post :
  db_wf db -> queue_of db = pre ++ (k, r) :: post ->
  Z.of_nat (length (queue_of db)) <= U32_MAX ->
  length nows = S (length pre) ->
  (k ∉ (queue_of (advance_iterations nows db).2).*1) /\
  exists e, drain_estimate (queued_snapshot db) k = Some e /\
    1 <= iterations e <= Z.of_nat (length nows) /\
    1 <= position e <= 4 * iterations e.
Proof.
  intros Hwf Hq Hmax Hn.
  assert (forall ns, (length pre < length ns)%nat ->
            k ∉ (queue_of (advance_iterations ns db).2).*1) as Hout.
  { intros ns Hns. apply ahead_0. replace 0%nat with (S (length pre) - length ns)%nat by lia.
    apply advance_iterations_ahead; [done|]. right. exists pre, r, post. split; [done|lia]. }
  split; [apply Hout; lia|].
  set (more := nows ++ replicate (length post) 0).
  assert (length more = length (queued_snapshot db)) as Hmore.
  { unfold more, queued_snapshot. rewrite length_fmap. fold (queue_of db).
    rewrite Hq, !length_app, length_replicate, Hn. simpl. lia. }
  rewrite (estimate_locate db more); [|done|done|]; last first.
  { rewrite Hmore. unfold queued_snapshot. rewrite length_fmap. exact Hmax. }
  destruct (locate_bound k 1 0 (length nows) (advance_iterations more db).1)
    as (e & He & Hit & Hpos).
  - rewrite advance_iterations_take. unfold more. rewrite take_app_length.
    apply leaves_promoted; [|apply Hout; lia].
    rewrite Hq, fmap_app, elem_of_app. right. left.
  - intros ps. apply advance_iterations_length.
  - exists e. split; [done|]. lia.
Qed.

(** One iteration promotes at most four claims, each exactly once: every
    promoted row was [QUEUED], is eligible for the slot that took it, is not
    enqueued later than any eligible claim left waiting, and becomes [RESERVED]
    with nothing but its status and [updated_at] changed; no other row
    changes. *)
Theorem advance_iteration_exact now db :
  let a := advance_iteration now db in
  iteration_ok now db a.1 a.2 /\ (length a.1 <= SLOTS_PER_ITERATION)%nat.
Proof.
  split; [apply advance_slots_ok|]. unfold advance_iteration.
  etrans; [apply advance_slots_length|]. by rewrite length_seq.
Qed.

(** The group refresh sets every queued row of an account whose balance was
    read to the group of that balance, keeps the group where the read failed,
    touches no other row, and gives the same database whatever order the
    concurrent reads complete in. *)
Theorem refresh_order_independent now fb o1 o2 db :
  o1 ≡ₚ queued_accounts db -> o2 ≡ₚ queued_accounts db ->
  db_reservations (refresh_groups now fb o1 db) = db_reservations (refresh_groups now fb o2 db) /\
  forall k, db_reservations (refresh_groups now fb o1 db) !! k =
            refreshed_row now fb <$> db_reservations db !! k.
Proof.
  intros H1 H2.
  assert (forall o k, o ≡ₚ queued_accounts db ->
            db_reservations (refresh_groups now fb o db) !! k =
            refreshed_row now fb <$> db_reservations db !! k) as Hrow.
  { intros o k Ho. rewrite refresh_groups_row.
    destruct (db_reservations db !! k) as [r|] eqn:Hk; simpl; [|done]. f_equal.
    case_bool_decide as Hin; [done|]. unfold refreshed_row.
    destruct (is_queued r) eqn:Eq; [|by destruct (refreshed_group _ _)].
    destruct Hin. rewrite Ho. unfold queued_accounts. rewrite elem_of_elements, elem_of_list_to_set.
    apply list_elem_of_fmap. exists (k, r). split; [done|]. by apply elem_of_select. }
  split; [|intros k; by apply Hrow]. apply map_eq. intros k. by rewrite !Hrow.
Qed.

(** A validated cadence never flaps: as long as an advancer's renewals are
    acknowledged and at most one sleep interval plus one renewal period apart,
    it keeps its epoch and its lease through any run, whoever else tries to
    acquire the lease meanwhile. *)
Theorem cadence_keeps_lease cfg e t0 db run :
  let period := secs (interval cfg) + secs (lease_ttl cfg) / 3 in
  validate_cadence (secs (interval cfg)) (secs (lease_ttl cfg)) = Ok tt ->
  holds_until cfg e (t0 + secs (lease_ttl cfg)) db ->
  healthy cfg period t0 (Sleeping e, db) run = true ->
  at_epoch e (run_inputs cfg (Sleeping e, db) run).1 = true /\
  exists last, t0 <= last /\ forall t, t <= last + period ->
    lease_held t (advancer_guard cfg e) (db_leases (run_inputs cfg (Sleeping e, db) run).2) = true.
Proof.
  intros period [_ Hc]%validate_cadence_Ok Hh Hrun.
  destruct (healthy_run cfg e period t0 run (Sleeping e) db) as (He & last & Hl & l & ? & ? & ? & Hexp);
    [exact Hc|apply Z.eqb_refl|done|done|].
  split; [done|]. exists last. split; [done|]. intros t Ht. apply lease_held_spec. exists l.
  repeat (split; [done|]). unfold period in Ht. lia.
Qed.

(** The janitor acts only on a dead advancer: while the advancer's lease has
    not been expired for longer than the grace period it drains nothing; otherwise
    every [QUEUED] row, and no other, becomes [RESERVED], and the count it returns
    is the number of rows that were waiting. *)
Theorem fallback_drain_safe now grace db :
  let d := fallback_drain now grace db in
  (alive (now - secs grace) ADVANCER_LEASE_NAME (db_leases db) = true ->
     d.1 = 0%nat /\ db_reservations d.2 = db_reservations db) /\
  (alive (now - secs grace) ADVANCER_LEASE_NAME (db_leases db) = false ->
     d.1 = count_where (fun _ r => is_queued r) (db_reservations db) /\
     forall k, db_reservations d.2 !! k =
       (fun r => if is_queued r then set_reserved now r else r) <$> db_reservations db !! k).
Proof.
  unfold fallback_drain. simpl. fold (alive (now - secs grace) ADVANCER_LEASE_NAME (db_leases db)).
  assert (forall r, drainable now grace db r =
     is_queued r && negb (alive (now - secs grace) ADVANCER_LEASE_NAME (db_leases db))) as Hd
    by done.
  split; intros Ha; rewrite Ha in Hd.
  - assert (forall r, drainable now grace db r = false) as Hd'
      by (intros r; by rewrite Hd, andb_false_r).
    split; [by apply count_where_zero|by apply update_where_none].
  - assert (forall r, drainable now grace db r = is_queued r) as Hd'
      by (intros r; by rewrite Hd, andb_true_r).
    split.
    + unfold count_where. f_equal. apply map_filter_ext. intros k r _. simpl. by rewrite Hd'.
    + intros k. rewrite lookup_update_where. destruct (db_reservations db !! k); simpl; [|done].
      by rewrite Hd'.
Qed.

(** *** Witnesses *)

Definition demo_claim (name : string) : NewReservation :=
  {| nr_account_id := name; nr_candidate_account_id := "5Fb"; nr_base := name;
     nr_digits := "07"; nr_full_username := name; nr_candidate_signature := [1];
     nr_ring_vrf_key := [2]; nr_proof_of_ownership := [3];
     nr_consumer_registration_signature := [4]; nr_identifier_key := [5];
     nr_dotns_signature := None; nr_dotns_signed_at := None;
     nr_reserved_username := None; nr_payload_version := 1 |}.

Definition demo_queue : Db :=
  (insert_queued 2 (demo_claim "carol") 4
    (insert_queued 1 (demo_claim "bob") 1
      (insert_queued 0 (demo_claim "alice") 1 empty_db).2).2).2.

Lemma empty_db_wf : db_wf empty_db.
Proof. split; intros i; intros; simplify_map_eq. Qed.

Lemma demo_queue_wf : db_wf demo_queue.
Proof. unfold demo_queue. do 3 apply insert_with_wf. exact empty_db_wf. Qed.

Lemma estimate_is_promotion_witness :
  drain_estimate (queued_snapshot demo_queue) 2 = Some {| position := 3; iterations := 2 |}.
Proof.
  rewrite (estimate_is_promotion demo_queue [10; 20; 30] 2); [vm_compute; reflexivity|..].
  - exact demo_queue_wf.
  - vm_compute. reflexivity.
  - vm_compute. discriminate.
Defined.

Lemma no_starvation_witness :
  2 ∉ (queue_of (advance_iterations [10; 20] demo_queue).2).*1.
Proof.
  refine (proj1 (no_starvation demo_queue [10; 20] 2 (fresh_row 1 (demo_claim "bob") Queued 1)
    [(1, fresh_row 0 (demo_claim "alice") Queued 1)]
    [(3, fresh_row 2 (demo_claim "carol") Queued 4)] _ _ _ _)).
  - exact demo_queue_wf.
  - vm_compute. reflexivity.
  - vm_compute. discriminate.
  - reflexivity.
Defined.

Lemma refresh_order_independent_witness :
  db_reservations (refresh_groups 9 (fun _ => None) (queued_accounts demo_queue) demo_queue) =
  db_reservations (refresh_groups 9 (fun _ => None) (queued_accounts demo_queue) demo_queue).
Proof.
  apply (refresh_order_independent 9 (fun _ => None) _ _ demo_queue); reflexivity.
Defined.

Definition demo_cfg : AdvancerConfig :=
  {| interval := 15; lease_ttl := 60; cfg_holder_id := "queue-1" |}.

Definition demo_run : list (Z * Input) :=
  [(secs 15, Own (EvWake Fine)); (secs 20, Rival "queue-2" 60); (secs 35, Own (EvTick Fine));
   (secs 36, Own EvRefreshEnd); (secs 37, Own (EvPromote Fine)); (secs 55, Own (EvTick Fine))].

Lemma cadence_keeps_lease_witness :
  let db := (acquire_stmt 0 demo_cfg demo_queue).2 in
  at_epoch 1 (run_inputs demo_cfg (Sleeping 1, db) demo_run).1 = true.
Proof.
  refine (proj1 (cadence_keeps_lease demo_cfg 1 0 (acquire_stmt 0 demo_cfg demo_queue).2
    demo_run _ _ _)).
  - vm_compute. reflexivity.
  - eexists. split; [vm_compute; reflexivity|]. repeat split.
  - vm_compute. reflexivity.
Defined.

Lemma fallback_drain_safe_witness : (fallback_drain 10 5 demo_queue).1 = 3%nat.
Proof.
  rewrite (proj1 (proj2 (fallback_drain_safe 10 5 demo_queue) eq_refl)). vm_compute. reflexivity.
Defined.

End QueueProps.
