(* ===== verification/Eligibility.v ===== *)
(** * Eligibility: voucher bypass ([eligibility.rs])

    The decision table, the state of a voucher, and the transaction that burns a
    voucher and inserts the reservation.  [sha256] is the hash of the [sha2]
    crate. *)

From S2P Require Import Prelude Strings Schema Lease Outbox.

#[local] Open Scope Z_scope.

Module Eligibility.

Export Outbox.

Inductive VoucherState := Redeemable | Spent | Expired | Unknown.
Inductive Lane := Instant | Standard.
Inductive VoucherError := VUnknown | VSpent | VExpired.

Definition decide_lane (voucher : option VoucherState) : result Lane VoucherError :=
  match voucher with
  | None => Ok Standard
  | Some Redeemable => Ok Instant
  | Some Spent => Err VSpent
  | Some Expired => Err VExpired
  | Some Unknown => Err VUnknown
  end.

Inductive RedeemError :=
| RConflict
| RVoucher (e : VoucherError)
| RDb.

Section vouchers.
Context (sha256 : bytes -> bytes).

Definition key_hash (key : string) : bytes := sha256 (as_bytes key).

(** [now] is the service's clock here, not the database's. *)
Definition voucher_state (now : Z) (key : string) (db : Db) : VoucherState :=
  match db_vouchers db !! key_hash key with
  | None => Unknown
  | Some v =>
      match v_used_at v with
      | Some _ => Spent
      | None => if v_expires_at v <=? now then Expired else Redeemable
      end
  end.

(** The conditional [UPDATE ... RETURNING key_hash]. *)
Definition burn (now : Z) (key : string) (db : Db) : bool * Db :=
  match db_vouchers db !! key_hash key with
  | Some v =>
      match v_used_at v with
      | None =>
          if now <? v_expires_at v then
            (true, with_vouchers
               (<[key_hash key := {| v_minted_batch := v_minted_batch v;
                                     v_created_at := v_created_at v;
                                     v_expires_at := v_expires_at v;
                                     v_used_at := Some now |}]> (db_vouchers db)) db)
          else (false, db)
      | Some _ => (false, db)
      end
  | None => (false, db)
  end.

Definition redeem_of_insert (e : InsertError) : RedeemError :=
  match e with Conflict => RConflict | InsertDb => RDb end.

(** The body of the transaction; [None] when the burn found nothing. *)
Definition redeem_txn (now : Z) (key : string) (new : NewReservation) (db : Db)
    : result Z (option RedeemError) * Db :=
  match burn now key db with
  | (false, db') => (Err None, db')
  | (true, db') =>
      let '(r, db'') := insert now new db' in
      (map_err (fun e => Some (redeem_of_insert e)) r, db'')
  end.

(** [now] is the database's clock, [app_now] the service's at the re-read;
    [fate] is the transaction's. *)
Definition redeem_and_reserve (now app_now : Z) (fate : DbFate) (key : string)
    (new : NewReservation) (db : Db) : result Z RedeemError * Db :=
  match run_stmt fate (txn (redeem_txn now key new)) db with
  | (None, db') => (Err RDb, db')
  | (Some (Ok id), db') => (Ok id, db')
  | (Some (Err (Some e)), db') => (Err e, db')
  | (Some (Err None), db') =>
      (Err (RVoucher match voucher_state app_now key db' with
                     | Unknown => VUnknown
                     | Expired => VExpired
                     | Spent | Redeemable => VSpent
                     end), db')
  end.

(** ** Lemmas *)

Lemma burn_spec now key db b db' :
  burn now key db = (b, db') ->
  (b = true <-> voucher_state now key db = Redeemable) /\
  (b = true -> voucher_state now key db' = Spent /\ db_reservations db' = db_reservations db
               /\ db_next_id db' = db_next_id db) /\
  (b = false -> db' = db).
Proof.
  unfold burn, voucher_state. intros H. repeat destr_match_in H; simplify_eq/=; bool_prop.
  all: rewrite ?lookup_insert_eq; simpl; repeat destr_match; bool_prop; naive_solver lia.
Qed.

(** Nothing un-burns a voucher. *)
Definition used (key : string) (db : Db) : Prop :=
  exists v t, db_vouchers db !! key_hash key = Some v /\ v_used_at v = Some t.

Lemma used_spent now key db : used key db <-> voucher_state now key db = Spent.
Proof.
  unfold used, voucher_state. split.
  - intros (v & t & -> & ->). done.
  - intros H. repeat destr_match_in H; simplify_eq. eauto.
Qed.

Lemma burn_used now key key' db : used key db -> used key (burn now key' db).2.
Proof.
  intros (v & t & Hv & Ht). unfold burn. repeat destr_match; simpl; try by exists v, t.
  exists v, t. simpl. split; [|done]. rewrite lookup_insert_ne; [done|]. congruence.
Qed.

Lemma insert_vouchers now new db : db_vouchers (insert now new db).2 = db_vouchers db.
Proof. unfold insert, insert_with. by repeat destr_match. Qed.

Lemma redeem_txn_used now key key' new db :
  used key db -> used key (txn (redeem_txn now key' new) db).2.
Proof.
  intros Hu. unfold txn, redeem_txn. pose proof (burn_used now key key' db Hu) as Hb.
  destruct (burn now key' db) as [[] db1]; simpl in *; [|done].
  pose proof (insert_vouchers now new db1) as Hi.
  destruct (insert now new db1) as [[i|e] db2]; simpl in *; [|done].
  unfold used. by rewrite Hi.
Qed.

Lemma redeem_db now app_now fate key new db :
  (redeem_and_reserve now app_now fate key new db).2 =
  (run_stmt fate (txn (redeem_txn now key new)) db).2.
Proof.
  unfold redeem_and_reserve.
  by destruct (run_stmt fate _ db) as [[[i|[e|]]|] db'].
Qed.

Lemma run_stmt_cases {A} fate (stmt : Db -> A * Db) db :
  (run_stmt fate stmt db).2 = db \/ (run_stmt fate stmt db).2 = (stmt db).2.
Proof. destruct fate; simpl; [right|by left|by right]. by destruct (stmt db). Qed.

Lemma redeem_used now app_now fate key key' new db :
  used key db -> used key (redeem_and_reserve now app_now fate key' new db).2.
Proof.
  intros Hu. rewrite redeem_db.
  destruct (run_stmt_cases fate (txn (redeem_txn now key' new)) db) as [-> | ->]; [done|].
  by apply redeem_txn_used.
Qed.

Lemma redeem_Ok now app_now fate key new db i db' :
  redeem_and_reserve now app_now fate key new db = (Ok i, db') ->
  fate = Fine /\ voucher_state now key db = Redeemable /\ used key db' /\
  i = db_next_id db /\
  db_reservations db' = <[i := fresh_row now new Reserved 1]> (db_reservations db).
Proof.
  unfold redeem_and_reserve. destruct fate; [|done|done]. simpl.
  destruct (txn _ db) as [r d] eqn:Et. intros H. repeat destr_match_in H; simplify_eq.
  rewrite txn_ok in Et. unfold redeem_txn in Et.
  destruct (burn now key db) as [b d1] eqn:Eb. apply burn_spec in Eb as (Hb & Ht & _).
  destruct b; [|by simplify_eq/=]. destruct (Ht eq_refl) as (Hs & Hr & Hn).
  destruct (insert now new d1) as [[j|e] d2] eqn:Ei; simplify_eq/=.
  apply insert_with_Ok in Ei as (-> & -> & _). simpl in *.
  split; [done|]. split; [by apply Hb|]. split; [|by rewrite Hr, Hn].
  by apply (used_spent now) in Hs.
Qed.

(** The insert inside a successful redemption. *)
Lemma redeem_inserts now app_now fate key new db i db' :
  redeem_and_reserve now app_now fate key new db = (Ok i, db') ->
  exists tx, db_reservations tx = db_reservations db /\ db_next_id tx = db_next_id db /\
    insert now new tx = (Ok i, db').
Proof.
  unfold redeem_and_reserve. destruct fate; [|done|done]. simpl.
  destruct (txn _ db) as [r d] eqn:Et. intros H. repeat destr_match_in H; simplify_eq.
  rewrite txn_ok in Et. unfold redeem_txn in Et.
  destruct (burn now key db) as [b d1] eqn:Eb. apply burn_spec in Eb as (_ & Ht & _).
  destruct b; [|by simplify_eq/=]. destruct (Ht eq_refl) as (_ & Hr & Hn).
  exists d1. destruct (insert now new d1) as [[j|e] d2]; by simplify_eq/=.
Qed.

Lemma redeem_Err now app_now fate key new db e db' :
  redeem_and_reserve now app_now fate key new db = (Err e, db') -> fate <> AckLost -> db_equiv db db'.
Proof.
  unfold redeem_and_reserve. destruct fate; simpl; [|by intros; simplify_eq|done].
  destruct (txn _ db) as [r d] eqn:Et. intros H _.
  destruct r as [i|e']; [done|]. apply txn_err_equiv in Et. repeat destr_match_in H; by simplify_eq.
Qed.

(** A lost acknowledgement: the reply is a failure, whether or not the transaction
    committed. *)
Lemma redeem_lost now app_now key new db e db' :
  redeem_and_reserve now app_now AckLost key new db = (Err e, db') ->
  e = RDb /\ (db_reservations db' = db_reservations db \/
    exists tx i, db_reservations tx = db_reservations db /\ insert now new tx = (Ok i, db')).
Proof.
  unfold redeem_and_reserve. simpl. destruct (txn _ db) as [r d] eqn:Et. intros [= <- <-].
  split; [done|]. simpl. destruct r as [i|e'].
  - right. rewrite txn_ok in Et. unfold redeem_txn in Et.
    destruct (burn now key db) as [b d1] eqn:Eb. apply burn_spec in Eb as (_ & Ht & _).
    destruct b; [|by simplify_eq/=]. destruct (Ht eq_refl) as (_ & Hr & _).
    exists d1, i. destruct (insert now new d1) as [[j|e] d2]; by simplify_eq/=.
  - left. by apply txn_err_equiv in Et as [<- _].
Qed.

Lemma redeem_used_fails now app_now fate key new db :
  used key db -> is_ok (redeem_and_reserve now app_now fate key new db).1 = false.
Proof.
  intros Hu. destruct (redeem_and_reserve now app_now fate key new db) as [[i|e] db'] eqn:E; [|done].
  apply redeem_Ok in E as (_ & Hs & _). apply (used_spent now) in Hu. congruence.
Qed.

(** A sequence of redemption attempts, as the requests of many clients reach the
    database. *)
Record Attempt := {
  a_now : Z; a_app_now : Z; a_fate : DbFate; a_key : string; a_new : NewReservation;
}.

Fixpoint redeem_all (l : list Attempt) (db : Db) : list (string * result Z RedeemError) * Db :=
  match l with
  | [] => ([], db)
  | a :: l' =>
      let '(r, db1) := redeem_and_reserve (a_now a) (a_app_now a) (a_fate a) (a_key a) (a_new a) db in
      let '(rs, db2) := redeem_all l' db1 in
      ((a_key a, r) :: rs, db2)
  end.

Definition granted_to (key : string) (rs : list (string * result Z RedeemError)) : nat :=
  length (filter (fun kr => String.eqb kr.1 key && is_ok kr.2 = true) rs).

Lemma redeem_all_used key l db :
  used key db -> granted_to key (redeem_all l db).1 = 0%nat.
Proof.
  revert db; induction l as [|a l IH]; intros db Hu; [done|]. simpl.
  pose proof (redeem_used (a_now a) (a_app_now a) (a_fate a) key (a_key a) (a_new a) db Hu) as Hu'.
  pose proof (redeem_used_fails (a_now a) (a_app_now a) (a_fate a) key (a_new a) db Hu) as Hf.
  destruct (redeem_and_reserve _ _ _ (a_key a) (a_new a) db) as [r db1] eqn:E.
  specialize (IH db1 Hu'). destruct (redeem_all l db1) as [rs db2]. simpl in *.
  unfold granted_to. rewrite filter_cons. simpl.
  destruct (String.eqb_spec (a_key a) key) as [Heq|Hne]; simpl; [|exact IH].
  rewrite <-Heq, E in Hf. simpl in Hf. by rewrite Hf.
Qed.

(** ** Properties *)

(** C26. A voucher pays for one reservation: in any sequence of redemption
    attempts, whatever their order, clocks, payloads and transport failures, at
    most one attempt with a given key succeeds. *)
Theorem voucher_single_use key l db : (granted_to key (redeem_all l db).1 <= 1)%nat.
Proof.
  revert db; induction l as [|a l IH]; intros db; [unfold granted_to; simpl; lia|]. simpl.
  destruct (redeem_and_reserve _ _ _ (a_key a) (a_new a) db) as [r db1] eqn:E.
  specialize (IH db1). pose proof (redeem_all_used key l db1) as Hz.
  destruct (redeem_all l db1) as [rs db2]. simpl in *.
  unfold granted_to in *. rewrite filter_cons. simpl. case_decide as Hd; [|exact IH].
  bool_prop. subst. destruct r as [i|e]; [|done].
  apply redeem_Ok in E as (_ & _ & Hu & _). simpl. by rewrite Hz.
Qed.

(** Redemption is atomic: success means the voucher was redeemable, is now
    spent, and the claim is inserted as [RESERVED] under a fresh id; a reported
    failure that was not a lost acknowledgement leaves every table as it was, so
    a username conflict leaves the voucher redeemable. *)
Theorem redeem_atomic now app_now fate key new db :
  match redeem_and_reserve now app_now fate key new db with
  | (Ok i, db') =>
      voucher_state now key db = Redeemable /\ voucher_state now key db' = Spent /\
      i = db_next_id db /\
      db_reservations db' = <[i := fresh_row now new Reserved 1]> (db_reservations db)
  | (Err e, db') =>
      fate <> AckLost ->
      db_equiv db db' /\ (e = RConflict -> voucher_state now key db' = Redeemable)
  end.
Proof.
  destruct (redeem_and_reserve now app_now fate key new db) as [[i|e] db'] eqn:E.
  { apply redeem_Ok in E as (_ & H1 & H2%(used_spent now) & H3 & H4). done. }
  intros Hf. unfold redeem_and_reserve in E. destruct fate; [|simplify_eq/=; by split|done].
  simpl in E. destruct (txn _ db) as [r d] eqn:Et.
  assert (db_equiv db d /\ (r = Err (Some RConflict) -> voucher_state now key d = Redeemable)) as Hd.
  { destruct r as [i|e']; [by repeat destr_match_in E; simplify_eq|].
    pose proof (txn_err_equiv _ _ _ _ Et) as Heq. split; [done|]. intros [= ->].
    unfold txn, redeem_txn in Et. destruct (burn now key db) as [b d1] eqn:Eb.
    apply burn_spec in Eb as (Hb & _ & _). destruct b; simpl in Et; [|naive_solver].
    unfold voucher_state. destruct Heq as (_ & _ & Hv & _). rewrite <-Hv. by apply Hb. }
  destruct Hd as [Hd1 Hd2]. repeat destr_match_in E; simplify_eq; (split; [done|]);
    intros Heq; try done. subst. by apply Hd2.
Qed.

(** The gate and the burn agree: on the same clock, a claim is let through
    the voucher lane exactly when the burn would succeed, and a voucher that is
    refused is refused for the reason the transaction would report. *)
Theorem gate_agrees_with_burn now key new db :
  match decide_lane (Some (voucher_state now key db)) with
  | Ok lane => lane = Instant /\ (burn now key db).1 = true
  | Err e => (redeem_and_reserve now now Fine key new db).1 = Err (RVoucher e)
  end.
Proof.
  destruct (burn now key db) as [b db'] eqn:E. apply burn_spec in E as Hb.
  destruct Hb as (Hb & _ & Hf).
  destruct (decide_lane _) as [lane|e] eqn:Ed; simpl.
  - split; [destruct (voucher_state now key db); by simplify_eq/=|].
    apply Hb. by destruct (voucher_state now key db).
  - destruct b; [rewrite (proj1 Hb eq_refl) in Ed; done|]. rewrite (Hf eq_refl) in E.
    unfold redeem_and_reserve, run_stmt, txn, redeem_txn. rewrite E. simpl.
    change (voucher_state now key (with_next_id (db_next_id db) db)) with (voucher_state now key db).
    destruct (voucher_state now key db); by simplify_eq/=.
Qed.
End vouchers.

End Eligibility.
