(* ===== verification/DeviceGate.v ===== *)
(** * DeviceGate: device uniqueness at intake

    The Widevine device table ([widevine/store.rs]), the wire format of the
    device evidence ([widevine.rs]), the DeviceCheck decision table
    ([device_check.rs]) and the single-use challenges ([auth/challenge.rs]).
    Base64 ([base64] crate) and HMAC-SHA256 ([hmac] crate) are parameters. *)

From stdpp Require Import pretty.
From S2P Require Import Prelude Strings Schema.

#[local] Open Scope Z_scope.

(** [serde_json::Value]; an object keeps one value per key. *)
Inductive Json :=
| JNull
| JBool (b : bool)
| JNumber (n : Z)
| JString (s : string)
| JArray (l : list Json)
| JObject (m : list (string * Json)).

Definition json_get (key : string) (v : Json) : option Json :=
  match v with
  | JObject m => first_some (fun kv : string * Json => if String.eqb kv.1 key then Some kv.2 else None) m
  | _ => None
  end.
Definition json_as_str (v : Json) : option string :=
  match v with JString s => Some s | _ => None end.
Definition json_as_array (v : Json) : option (list Json) :=
  match v with JArray l => Some l | _ => None end.

Module DeviceGate.

(** ** [widevine/store.rs] *)

Inductive InsertDeviceError := Seen | DeviceDb.

Definition seen (hmac : bytes) (db : Db) : bool :=
  match db_devices db !! hmac with Some _ => true | None => false end.

Definition insert_pending (hmac : bytes) (rid : Z) (db : Db)
    : result unit InsertDeviceError * Db :=
  match db_devices db !! hmac with
  | Some _ => (Err Seen, db)
  | None =>
      (Ok tt, with_devices
         (<[hmac := {| d_status := WPending; d_reservation_id := Some rid |}]> (db_devices db)) db)
  end.

(** [reservation_id = $1 AND status = 'PENDING']. *)
Definition pending_for (rid : Z) (d : DeviceRow) : bool :=
  match d_status d, d_reservation_id d with
  | WPending, Some r => r =? rid
  | _, _ => false
  end.

Definition consume_for_reservation (rid : Z) (db : Db) : Db :=
  with_devices
    (update_where (fun _ d => pending_for rid d)
       (fun _ => {| d_status := WConsumed; d_reservation_id := None |}) (db_devices db)) db.

Definition release_for_reservation (rid : Z) (db : Db) : bool * Db :=
  (negb (count_where (fun _ d => pending_for rid d) (db_devices db) =? 0)%nat,
   with_devices (delete_where (fun _ d => pending_for rid d) (db_devices db)) db).

(** ** [widevine.rs]: the wire fields *)

Inductive EvidenceError :=
| Malformed (msg : string)
| Invalid (msg : string).

Record RawEvidence := {
  chain_der : list bytes;
  ev_challenge : bytes;
  device_id : bytes;
}.

Definition MIN_CHAIN_ENTRIES : nat := 2.
Definition MAX_CHAIN_ENTRIES : nat := 10.
Definition MAX_ENTRY_CHARS : nat := Z.to_nat 8192.

Section evidence.
#[local] Open Scope dub_scope.
#[local] Open Scope string_scope.

(** [base64::engine::general_purpose::STANDARD.decode]. *)
Context (b64_decode : string -> option bytes).

Definition chain_entry (i : nat) (entry : Json) : result bytes EvidenceError :=
  match json_as_str entry with
  | None => Err (Malformed ("attestationChain[" +:+ pretty i +:+ "] must be a string"))
  | Some raw =>
      if (MAX_ENTRY_CHARS <? String.length raw)%nat then
        Err (Malformed ("attestationChain[" +:+ pretty i +:+ "] exceeds 8192 chars"))
      else
        match b64_decode (trim raw) with
        | None => Err (Malformed ("attestationChain[" +:+ pretty i +:+ "] is not valid base64"))
        | Some der => Ok der
        end
  end.

(** [collect::<Result<Vec<_>, _>>]: the first failure wins. *)
Fixpoint chain_entries (i : nat) (entries : list Json) : result (list bytes) EvidenceError :=
  match entries with
  | [] => Ok []
  | entry :: rest =>
      let? der := chain_entry i entry in
      let? ders := chain_entries (S i) rest in
      Ok (der :: ders)
  end.

Definition decode32 (field : string) (value : Json) : result bytes EvidenceError :=
  match json_as_str value with
  | None => Err (Malformed (field +:+ " must be a string"))
  | Some raw =>
      match b64_decode (trim raw) with
      | None => Err (Malformed (field +:+ " is not valid base64"))
      | Some bs =>
          if decide (length bs = 32%nat) then Ok bs
          else Err (Malformed (field +:+ " must be exactly 32 bytes"))
      end
  end.

Definition extract (body : Json) : result (option RawEvidence) EvidenceError :=
  match json_get "attestationChain" body, json_get "deviceChallenge" body,
        json_get "deviceId" body with
  | None, None, None => Ok None
  | Some chain, Some challenge, Some did =>
      match json_as_array chain with
      | None => Err (Malformed "attestationChain must be an array of strings")
      | Some entries =>
          if ((length entries <? MIN_CHAIN_ENTRIES) || (MAX_CHAIN_ENTRIES <? length entries))%nat
          then Err (Malformed ("attestationChain has " +:+ pretty (length entries) +:+
                               " entries, expected 2..=10"))
          else
            let? ders := chain_entries 0 entries in
            let? ch := decode32 "deviceChallenge" challenge in
            let? d := decode32 "deviceId" did in
            Ok (Some {| chain_der := ders; ev_challenge := ch; device_id := d |})
      end
  | _, _, _ =>
      Err (Malformed "attestationChain, deviceChallenge and deviceId must be present together")
  end.

(** [HMAC-SHA256]. *)
Context (hmac_sha256 : bytes -> bytes -> bytes).

Definition HMAC_CONTEXT : bytes := as_bytes "poud:v1".

Definition device_hmac (key : bytes) (did : bytes) : bytes :=
  hmac_sha256 key (HMAC_CONTEXT ++ did).
End evidence.

(** ** [device_check.rs] *)

Record BitState := { bit0 : bool; bit1 : bool }.

Definition is_registered (s : BitState) : bool := negb (bit0 s) && bit1 s.

Inductive Verdict :=
| Available
| AlreadyUsed
| Failed (cause : string)
| Inactive.

Inductive Decision :=
| Register
| Proceed (available : option bool)
| Blocked
| TokenRequired
| Unavailable (cause : string).

Definition decide_gate (verdict : Verdict) (enforced : bool) : Decision :=
  match verdict, enforced with
  | Available, true => Register
  | Available, false => Proceed (Some true)
  | AlreadyUsed, true => Blocked
  | AlreadyUsed, false => Proceed (Some false)
  | Failed cause, true => Unavailable cause
  | Failed _, false => Proceed None
  | Inactive, true => TokenRequired
  | Inactive, false => Proceed None
  end.

(** ** [auth/challenge.rs] *)

(** [create], after the random bytes are drawn; [ttl] in seconds, [now] the
    database clock and [app_now] the service's. *)
Definition create (now app_now ttl : Z) (challenge : bytes) (db : Db) : bool * Db :=
  match db_challenges db !! challenge with
  | Some _ => (false, db)
  | None =>
      (true, with_challenges
         (<[challenge := {| c_created_at := now; c_expires_at := app_now + secs ttl;
                            c_consumed_at := None |}]> (db_challenges db)) db)
  end.

Definition consumable (now : Z) (c : ChallengeRow) : bool :=
  match c_consumed_at c with None => now <? c_expires_at c | Some _ => false end.

Definition consume (now : Z) (challenge : bytes) (db : Db) : bool * Db :=
  match db_challenges db !! challenge with
  | Some c =>
      if consumable now c then
        (true, with_challenges
           (<[challenge := {| c_created_at := c_created_at c; c_expires_at := c_expires_at c;
                              c_consumed_at := Some now |}]> (db_challenges db)) db)
      else (false, db)
  | None => (false, db)
  end.

(** *** The shape of the decoders' results *)

Definition malformed (e : EvidenceError) : Prop := exists msg, e = Malformed msg.

Lemma chain_entry_malformed b64 i e err : chain_entry b64 i e = Err err -> malformed err.
Proof. unfold chain_entry. intros H. repeat destr_match_in H; simplify_eq; by eexists. Qed.

Lemma chain_entries_spec b64 entries i :
  match chain_entries b64 i entries with
  | Ok ders => length ders = length entries
  | Err err => malformed err
  end.
Proof.
  revert i; induction entries as [|e entries IH]; intros i; simpl; [done|].
  destruct (chain_entry b64 i e) eqn:Ee; simpl; [|by eapply chain_entry_malformed].
  specialize (IH (S i)). destruct (chain_entries b64 (S i) entries); simpl; [by f_equal|done].
Qed.

Lemma decode32_spec b64 field v :
  match decode32 b64 field v with
  | Ok bs => length bs = 32%nat
  | Err err => malformed err
  end.
Proof. unfold decode32. repeat destr_match; try done; by eexists. Qed.

(** ** Devices over time *)

Inductive DeviceOp :=
| OpClaim (hmac : bytes) (rid : Z)
| OpConsume (rid : Z)
| OpRelease (rid : Z).

Definition device_op (db : Db) (op : DeviceOp) : Db :=
  match op with
  | OpClaim h rid => (insert_pending h rid db).2
  | OpConsume rid => consume_for_reservation rid db
  | OpRelease rid => (release_for_reservation rid db).2
  end.

(** What holds a device's slot: nothing, the claim [rid], or a landed claim. *)
Inductive Slot := Free | HeldBy (rid : Z) | Used.

Definition slot_of (hmac : bytes) (db : Db) : Slot :=
  match db_devices db !! hmac with
  | None => Free
  | Some {| d_status := WPending; d_reservation_id := Some rid |} => HeldBy rid
  | Some _ => Used
  end.

(** The slot's state machine. *)
Definition slot_step (hmac : bytes) (s : Slot) (op : DeviceOp) : Slot :=
  match s, op with
  | Free, OpClaim h rid => if decide (h = hmac) then HeldBy rid else Free
  | HeldBy rid, OpConsume rid' => if rid =? rid' then Used else s
  | HeldBy rid, OpRelease rid' => if rid =? rid' then Free else s
  | _, _ => s
  end.

Lemma pending_for_slot h db rid d :
  db_devices db !! h = Some d ->
  pending_for rid d = match slot_of h db with HeldBy r => r =? rid | _ => false end.
Proof.
  intros Hd. unfold slot_of, pending_for. rewrite Hd. by destruct d as [[] []].
Qed.

(** The table implements the state machine, device by device. *)
Lemma device_op_slot h db op : slot_of h (device_op db op) = slot_step h (slot_of h db) op.
Proof.
  destruct op as [h' rid|rid|rid]; simpl.
  - unfold insert_pending. destruct (db_devices db !! h') as [d'|] eqn:E'.
    + simpl. destruct (slot_of h db) eqn:Es; [|done|done]. simpl.
      case_decide; [|done]. subst. unfold slot_of in Es. rewrite E' in Es.
      by destruct d' as [[] []].
    + unfold slot_of at 1. simpl. destruct (decide (h' = h)) as [->|Hne].
      * rewrite lookup_insert_eq. unfold slot_of. rewrite E'. simpl. by rewrite decide_True.
      * rewrite lookup_insert_ne by done. fold (slot_of h db).
        destruct (slot_of h db); [|done|done]. simpl. by rewrite decide_False.
  - unfold slot_of at 1. simpl. rewrite lookup_update_where.
    destruct (db_devices db !! h) as [d|] eqn:E; simpl; [|unfold slot_of; by rewrite E].
    rewrite (pending_for_slot h db rid d E). unfold slot_of. rewrite E.
    destruct d as [[] [r|]]; simpl; try done. by destruct (r =? rid).
  - unfold slot_of at 1. simpl.
    destruct (db_devices db !! h) as [d|] eqn:E.
    + pose proof (pending_for_slot h db rid d E) as Hp.
      destruct (delete_where _ (db_devices db) !! h) as [d'|] eqn:Ed.
      * apply lookup_delete_where in Ed as [Ed Hf]. simplify_eq. rewrite Hf in Hp.
        unfold slot_of in *. rewrite E in *. destruct d as [[] [r|]]; simpl; try done.
        by rewrite <-Hp.
      * destruct (pending_for rid d) eqn:Ef.
        -- unfold slot_of in *. rewrite E in *. destruct d as [[] [r|]]; simpl; try done.
           by rewrite <-Hp.
        -- assert (delete_where (fun _ d => pending_for rid d) (db_devices db) !! h = Some d)
             by (by apply lookup_delete_where). congruence.
    + destruct (delete_where _ (db_devices db) !! h) as [d'|] eqn:Ed.
      * apply lookup_delete_where in Ed as [Ed _]. congruence.
      * unfold slot_of. by rewrite E.
Qed.

Lemma used_forever h db ops :
  slot_of h db = Used -> slot_of h (foldl device_op db ops) = Used.
Proof.
  revert db; induction ops as [|op ops IH]; intros db Hu; simpl; [done|].
  apply IH. rewrite device_op_slot, Hu. by destruct op.
Qed.

(** ** Challenges over time *)

Inductive ChallengeOp :=
| OpCreate (now app_now ttl : Z) (challenge : bytes)
| OpTake (now : Z) (challenge : bytes).

Definition challenge_op (db : Db) (op : ChallengeOp) : bool * Db :=
  match op with
  | OpCreate now app_now ttl c => create now app_now ttl c db
  | OpTake now c => consume now c db
  end.

Fixpoint accepted (c : bytes) (ops : list ChallengeOp) (db : Db) : nat :=
  match ops with
  | [] => 0
  | op :: ops' =>
      let '(ok, db') := challenge_op db op in
      (match op with
       | OpTake _ c' => if decide (c' = c) then if ok then 1 else 0 else 0
       | OpCreate _ _ _ _ => 0
       end + accepted c ops' db')%nat
  end.

Definition taken (c : bytes) (db : Db) : Prop :=
  exists r t, db_challenges db !! c = Some r /\ c_consumed_at r = Some t.

Lemma challenge_op_taken c db op : taken c db -> taken c (challenge_op db op).2.
Proof.
  intros (r & t & Hr & Ht). destruct op as [now an ttl c'|now c']; simpl.
  - unfold create. destr_match; [by exists r, t|]. exists r, t. simpl. split; [|done].
    rewrite lookup_insert_ne; [done|congruence].
  - unfold consume. repeat destr_match; try by exists r, t. exists r, t. simpl. split; [|done].
    rewrite lookup_insert_ne; [done|]. intros ->. simplify_eq. unfold consumable in E0.
    by rewrite Ht in E0.
Qed.

Lemma consume_ok now c db :
  (consume now c db).1 = true ->
  (exists r, db_challenges db !! c = Some r /\ c_consumed_at r = None /\ now < c_expires_at r) /\
  taken c (consume now c db).2.
Proof.
  unfold consume. intros H. repeat destr_match_in H; simplify_eq/=.
  unfold consumable in E0. repeat destr_match_in E0; bool_prop; [done|].
  split; [eauto|]. eexists _, now. simpl. by rewrite lookup_insert_eq.
Qed.

Lemma accepted_taken c ops db : taken c db -> accepted c ops db = 0%nat.
Proof.
  revert db; induction ops as [|op ops IH]; intros db Ht; [done|]. simpl.
  pose proof (challenge_op_taken c db op Ht) as Ht'.
  destruct (challenge_op db op) as [ok db'] eqn:E. rewrite (IH db' Ht').
  destruct op as [|now c']; [done|]. case_decide; [|done]. subst. destruct ok; [|done].
  destruct (consume_ok now c db) as [(r & Hr & Hn & _) _]; [by simpl in E; rewrite E|].
  destruct Ht as (r' & t & ? & ?). congruence.
Qed.

(** ** Properties *)

(** C27. One registration per device: once a claim of a device has landed
    ([consume_for_reservation] on the claim that holds its slot), every later
    claim with that device is refused as [Seen], whatever claims, landings and
    releases happen in between. *)
Theorem landed_device_never_claims_again h rid db ops rid' :
  slot_of h db = HeldBy rid ->
  (insert_pending h rid' (foldl device_op (device_op db (OpConsume rid)) ops)).1 = Err Seen.
Proof.
  intros Hs. assert (slot_of h (device_op db (OpConsume rid)) = Used) as Hu.
  { rewrite device_op_slot, Hs. simpl. by rewrite Z.eqb_refl. }
  apply (used_forever h _ ops) in Hu. unfold slot_of, insert_pending in *. by destr_match.
Qed.

(** The device table refines the per-device slot machine: a claim takes a
    free slot only, landing and releasing act only on the slot the reservation
    holds, and a used slot stays used. *)
Theorem device_table_refines_slots h db ops :
  slot_of h (foldl device_op db ops) = foldl (slot_step h) (slot_of h db) ops.
Proof.
  revert db; induction ops as [|op ops IH]; intros db; simpl; [done|].
  by rewrite IH, device_op_slot.
Qed.

(** A challenge is single use: however challenges are issued and presented,
    each value is accepted at most once. *)
Theorem challenge_single_use c ops db : (accepted c ops db <= 1)%nat.
Proof.
  revert db; induction ops as [|op ops IH]; intros db; simpl; [lia|].
  destruct (challenge_op db op) as [ok db'] eqn:E.
  destruct op as [|now c']; [apply IH|]. case_decide; [|apply IH]. subst.
  destruct ok; [|apply IH].
  destruct (consume_ok now c db) as [_ Ht]; [by simpl in E; rewrite E|].
  simpl in E. rewrite E in Ht. simpl in Ht. rewrite (accepted_taken c ops db' Ht). lia.
Qed.

(** Device evidence is all or nothing: extraction reports no evidence exactly
    when none of the three fields is present; when it returns evidence, all three
    were present, the chain has 2 to 10 entries, and the challenge and the device
    id are 32 bytes. *)
Theorem extract_sound b64_decode (body : Json) :
  match extract b64_decode body with
  | Ok None =>
      json_get "attestationChain" body = None /\ json_get "deviceChallenge" body = None /\
      json_get "deviceId" body = None
  | Ok (Some ev) =>
      (2 <= length (chain_der ev) <= 10)%nat /\ length (ev_challenge ev) = 32%nat /\
      length (device_id ev) = 32%nat
  | Err e => malformed e
  end.
Proof.
  unfold extract.
  destruct (json_get "attestationChain" body) as [chain|],
    (json_get "deviceChallenge" body) as [ch|], (json_get "deviceId" body) as [did|];
    try done; try (by eexists).
  destruct (json_as_array chain) as [entries|]; [|by eexists].
  unfold MIN_CHAIN_ENTRIES, MAX_CHAIN_ENTRIES.
  destruct (_ || _)%nat eqn:Eb; [by eexists|].
  pose proof (chain_entries_spec b64_decode entries 0) as Hc.
  destruct (chain_entries b64_decode 0 entries) as [ders|e]; simpl; [|done].
  pose proof (decode32_spec b64_decode "deviceChallenge" ch) as H1.
  destruct (decode32 b64_decode "deviceChallenge" ch) as [c|e]; simpl; [|done].
  pose proof (decode32_spec b64_decode "deviceId" did) as H2.
  destruct (decode32 b64_decode "deviceId" did) as [d|e]; simpl; [|done].
  apply orb_false_iff in Eb as [E1 E2]. apply Nat.ltb_ge in E1, E2. lia.
Qed.

(** *** Witnesses *)

Lemma landed_device_never_claims_again_witness :
  let db := (insert_pending [7] 1 empty_db).2 in
  (insert_pending [7] 9 (foldl device_op (device_op db (OpConsume 1)) [OpRelease 1])).1 = Err Seen.
Proof.
  apply (landed_device_never_claims_again [7] 1 (insert_pending [7] 1 empty_db).2 [OpRelease 1] 9).
  reflexivity.
Defined.

End DeviceGate.
