(* ===== verification/Jwt.v ===== *)
(** * Jwt: access tokens ([jwt-verify], [http-common/src/auth.rs])

    Issuance and verification of the bearer tokens, the JWKS document that carries
    the keys between services, and the extractor every authenticated route uses.
    The [jsonwebtoken] and [ed25519_dalek] crates are an interface ([JwtCrates])
    with the laws the code relies on ([JwtLaws]). *)

From stdpp Require countable.
From S2P Require Import Prelude Strings.

#[local] Open Scope string_scope.
#[local] Open Scope Z_scope.

(** ** [str::split_whitespace] *)

(** The characters before the next white space, and the rest. *)
Fixpoint take_word (s : string) : string * string :=
  match s with
  | EmptyString => (EmptyString, EmptyString)
  | String c s' =>
      match first_some (fun w => strip_prefix w s) WHITE_SPACE with
      | Some _ => (EmptyString, s)
      | None => let (w, rest) := take_word s' in (String c w, rest)
      end
  end.

(** A word is non-empty, so [String.length s] rounds are enough. *)
Fixpoint words (rounds : nat) (s : string) : list string :=
  match rounds with
  | O => []
  | S rounds' =>
      let s := strip_all WHITE_SPACE (String.length s) s in
      match s with
      | EmptyString => []
      | _ => let (w, rest) := take_word s in w :: words rounds' rest
      end
  end.

Definition split_whitespace (s : string) : list string := words (String.length s) s.

Module Jwt.

(** ** The crates *)

Inductive JwtError :=
| InvalidAlgorithm
| InvalidKeyFormat
| InvalidToken
| OtherJwt (m : string).

Inductive Algorithm := EdDSA | OtherAlg (name : string).

Record Header := { alg : Algorithm; kid : option string }.

(** [ClaimsSer] ([issuer.rs]) and [VerifiedClaims] ([verifier.rs]). *)
Record ClaimsSer := {
  cs_iss : string;
  cs_sub : string;
  cs_account_id : string;
  cs_app_from_official_store : bool;
  cs_plt : option string;
  cs_iat : Z;
  cs_exp : Z;
}.

Record VerifiedClaims := {
  iss : option string;
  sub : option string;
  account_id : string;
  app_from_official_store : option bool;
  vc_platform : option string;
  iat : option Z;
  exp : Z;
}.

(** What the derived (de)serialisers do to the claims. *)
Definition read_claims (c : ClaimsSer) : VerifiedClaims :=
  {| iss := Some (cs_iss c); sub := Some (cs_sub c); account_id := cs_account_id c;
     app_from_official_store := Some (cs_app_from_official_store c); vc_platform := cs_plt c;
     iat := Some (cs_iat c); exp := cs_exp c |}.

(** One published key: an Ed25519 key with its coordinate, or any other. *)
Inductive JwkParams := OctetEd25519 (x : string) | OtherKey.
Record Jwk := { key_id : option string; params : JwkParams }.

Class JwtCrates := {
  SigningKey : Type;
  from_seed : bytes -> SigningKey;
  verifying_key : SigningKey -> bytes;
  encode : Header -> ClaimsSer -> SigningKey -> string;
  decode_header : string -> result Header JwtError;
  (** [decode] with [Validation::new(EdDSA)], at a time. *)
  decode : string -> bytes -> Z -> result VerifiedClaims JwtError;
  b64_encode : bytes -> string;
  (** [DecodingKey::from_ed_components]. *)
  from_ed_components : string -> option bytes;
  jwks_to_string : list Jwk -> string;
  jwks_from_str : string -> option (list Jwk);
  key_digest : bytes -> bytes;
}.

(** ** [issuer.rs], [verifier.rs], [lib.rs] *)

Section jwt.
Context `{JwtCrates}.

Record Issuer := { encoding_key : SigningKey; header : Header; issuer : string }.

Definition Issuer_new (kp : SigningKey) (k : string) (name : string) : Issuer :=
  {| encoding_key := kp; header := {| alg := EdDSA; kid := Some k |}; issuer := name |}.

Definition issuer_issue (i : Issuer) (now : Z) (account : string) (store : bool)
    (platform : option string) (ttl : Z) : string :=
  encode (header i)
    {| cs_iss := issuer i; cs_sub := account; cs_account_id := account;
       cs_app_from_official_store := store; cs_plt := platform; cs_iat := now; cs_exp := now + ttl |}
    (encoding_key i).

Record Verifier := { keys : list (option string * bytes) }.

Inductive JwksError := Malformed | NoUsableKey.

Definition usable_key (k : Jwk) : option (option string * bytes) :=
  match params k with
  | OctetEd25519 x => (fun x => (key_id k, x)) <$> from_ed_components x
  | OtherKey => None
  end.

Definition from_jwks (jwks_json : string) : result Verifier JwksError :=
  match jwks_from_str jwks_json with
  | None => Err Malformed
  | Some doc =>
      match omap usable_key doc with
      | [] => Err NoUsableKey
      | keys => Ok {| keys := keys |}
      end
  end.

Definition from_public_key (k : option string) (key : bytes) : Verifier := {| keys := [(k, key)] |}.

(** The keys a header may name. *)
Definition candidates (v : Verifier) (h : Header) : list bytes :=
  match kid h with
  | Some token_kid =>
      (filter (fun k => k.1 = Some token_kid \/ k.1 = None) (keys v)).*2
  | None => (keys v).*2
  end.

(** The [while let] loop: the last failure is the answer. *)
Fixpoint try_keys (now : Z) (token : string) (ks : list bytes) : result VerifiedClaims JwtError :=
  match ks with
  | [] => Err InvalidToken
  | k :: rest =>
      match decode token k now with
      | Ok claims => Ok claims
      | Err e => match rest with [] => Err e | _ => try_keys now token rest end
      end
  end.

Definition verify (v : Verifier) (now : Z) (token : string) : result VerifiedClaims JwtError :=
  match decode_header token with
  | Err e => Err e
  | Ok h =>
      match alg h with
      | OtherAlg _ => Err InvalidAlgorithm
      | EdDSA =>
          match candidates v h with
          | [] => Err InvalidKeyFormat
          | ks => try_keys now token ks
          end
      end
  end.

Record JwtKeys := { jwt_issuer : Issuer; verifier : Verifier; signing_kp : SigningKey }.

Definition Jwt_new (seed : bytes) (name : string) : JwtKeys :=
  let signing := from_seed seed in
  let pubkey := verifying_key signing in
  let k := hex_encode (take 8 (key_digest pubkey)) in
  {| jwt_issuer := Issuer_new signing k name; verifier := from_public_key (Some k) pubkey;
     signing_kp := signing |}.

Definition jwks (j : JwtKeys) : list Jwk :=
  [{| key_id := kid (header (jwt_issuer j));
      params := OctetEd25519 (b64_encode (verifying_key (signing_kp j))) |}].

Definition issue (j : JwtKeys) (now : Z) (account : string) (store : bool) (platform : option string)
    (ttl : Z) : string :=
  issuer_issue (jwt_issuer j) now account store platform ttl.

(** ** [http-common/src/auth.rs] *)

Record AuthSubject := {
  subject : string;
  platform : option string;
  from_official_store : option bool;
}.

Inductive AuthError := MissingHeader | InvalidHeader | InvalidTokenError.

Definition auth_message (e : AuthError) : string :=
  match e with
  | MissingHeader => "Missing Authorization header. Include a valid Bearer token."
  | InvalidHeader =>
      "Authorization header must use the Bearer scheme: " +:+ String QUOTE "Bearer <token>"
        +:+ String QUOTE "."
  | InvalidTokenError => "Token verification failed. The token may be expired or malformed."
  end.

Definition bearer_token (h : string) : option string :=
  match split_whitespace h with
  | [scheme; token] =>
      if String.eqb scheme "Bearer" && negb (String.eqb token EmptyString) then Some token else None
  | _ => None
  end.

(** [AuthSubject::from_request_parts]; the header as [get] and [to_str] give it. *)
Definition extract_subject (v : Verifier) (now : Z) (authorization : option (option string))
    : result AuthSubject AuthError :=
  match authorization with
  | Some (Some h) =>
      match bearer_token h with
      | None => Err InvalidHeader
      | Some token =>
          match verify v now token with
          | Err _ => Err InvalidTokenError
          | Ok claims => Ok {| subject := account_id claims; platform := vc_platform claims;
                               from_official_store := app_from_official_store claims |}
          end
      end
  | _ => Err MissingHeader
  end.
End jwt.

(** ** What the crates promise *)

(** A token in compact form has no white space. *)
Definition compact (t : string) : Prop := t <> EmptyString /\ take_word t = (t, EmptyString).

Definition LEEWAY : Z := 60.

Class JwtLaws `{JwtCrates} := {
  encode_compact h c k : compact (encode h c k);
  decode_header_encode h c k : decode_header (encode h c k) = Ok h;
  decode_encode kd c k now :
    now <= cs_exp c + LEEWAY ->
    decode (encode {| alg := EdDSA; kid := kd |} c k) (verifying_key k) now = Ok (read_claims c);
  decode_expired kd c k dk now :
    cs_exp c + LEEWAY < now ->
    exists e, decode (encode {| alg := EdDSA; kid := kd |} c k) dk now = Err e;
  components_encode k : from_ed_components (b64_encode (verifying_key k)) = Some (verifying_key k);
  jwks_roundtrip l : jwks_from_str (jwks_to_string l) = Some l;
}.

Section laws.
#[local] Open Scope list_scope.
Context `{JwtLaws}.

(** *** Words *)

Lemma compact_head t : compact t -> first_some (fun w => strip_prefix w t) WHITE_SPACE = None.
Proof.
  intros [Hne Ht]. destruct t as [|c t]; [done|]. cbn [take_word] in Ht.
  destruct (first_some _ WHITE_SPACE) eqn:E; [|done]. by injection Ht.
Qed.

Lemma strip_all_compact fuel t : compact t -> strip_all WHITE_SPACE fuel t = t.
Proof. intros Hc%compact_head. destruct fuel; cbn [strip_all]; [done|]. by rewrite Hc. Qed.

Lemma words_compact n t : compact t -> words (S n) t = [t].
Proof.
  intros Hc. cbn [words]. rewrite strip_all_compact by done.
  destruct Hc as [Hne Ht]. rewrite Ht. destruct t; [done|]. by destruct n.
Qed.

Lemma bearer_token_compact t : compact t -> bearer_token ("Bearer " +:+ t) = Some t.
Proof.
  intros Hc. unfold bearer_token, split_whitespace. rewrite string_length_app.
  set (n := String.length t). change (String.length "Bearer " + n)%nat with (S (6 + n)).
  assert (words (S (6 + n)) ("Bearer " +:+ t) = "Bearer" :: words (6 + n) (String " " t)) as ->.
  { change ("Bearer " +:+ t) with ("Bearer" +:+ String " " t). cbn [words].
    set (m := String.length _).
    assert (strip_all WHITE_SPACE m ("Bearer" +:+ String " " t) = "Bearer" +:+ String " " t) as ->
      by (by destruct m).
    reflexivity. }
  cbn [Nat.add words].
  assert (strip_all WHITE_SPACE (String.length (String " " t)) (String " " t) = t) as ->.
  { cbn [String.length strip_all].
    assert (first_some (fun w => strip_prefix w (String " " t)) WHITE_SPACE = Some t) as -> by reflexivity.
    by apply strip_all_compact. }
  destruct Hc as [Hne Ht]. rewrite Ht. destruct t as [|c t]; [done|]. done.
Qed.

(** *** Verification *)

(** The loop answers with the first key that verifies. *)
Lemma try_keys_Ok now token ks c :
  try_keys now token ks = Ok c <->
  exists pre k post, ks = pre ++ k :: post /\ decode token k now = Ok c /\
    forall k', k' ∈ pre -> exists e, decode token k' now = Err e.
Proof.
  induction ks as [|k ks IH]; simpl.
  { split; [done|]. by intros ([|] & ? & ? & ? & _). }
  destruct (decode token k now) as [c'|e] eqn:E.
  - split.
    + intros [= <-]. exists [], k, ks. split_and!; [done|done|]. intros k' Hk. by apply not_elem_of_nil in Hk.
    + intros ([|k0 pre] & k' & post & Hks & Hd & Hpre); simplify_eq/=; [congruence|].
      destruct (Hpre k0 ltac:(left)) as [e He]. congruence.
  - assert (match ks with [] => Err e | _ :: _ => try_keys now token ks end = Ok c <->
            try_keys now token ks = Ok c) as -> by (by destruct ks).
    rewrite IH. split.
    + intros (pre & k' & post & -> & Hd & Hpre). exists (k :: pre), k', post. split_and!; [done|done|].
      intros k'' [->|Hk]%elem_of_cons; [by exists e|by apply Hpre].
    + intros ([|k0 pre] & k' & post & Hks & Hd & Hpre); simplify_eq/=; [congruence|].
      exists pre, k', post. split_and!; [done|done|]. intros k'' Hk. apply Hpre. by right.
Qed.

Lemma verify_issued v j now now' acct store plt ttl :
  (exists pre post, candidates v (header (jwt_issuer j)) = pre ++ verifying_key (signing_kp j) :: post /\
     forall k c, k ∈ pre -> decode (issue j now acct store plt ttl) k now' <> Ok c) ->
  (exists seed name, j = Jwt_new seed name) ->
  now' <= now + ttl + LEEWAY ->
  exists c, verify v now' (issue j now acct store plt ttl) = Ok c /\
    account_id c = acct /\ vc_platform c = plt /\ app_from_official_store c = Some store /\ exp c = now + ttl.
Proof.
  intros (pre & post & Hc & Hpre) (seed & name & ->) Hexp. unfold verify, issue, issuer_issue in *.
  rewrite decode_header_encode. cbn [alg header jwt_issuer Jwt_new Issuer_new] in *. rewrite Hc.
  set (cl := {| cs_iss := _ |}) in *. exists (read_claims cl).
  split; [|by split_and!]. destruct (pre ++ _) as [|x xs] eqn:E; [by destruct pre|]. rewrite <-E.
  apply try_keys_Ok. exists pre, (verifying_key (from_seed seed)), post. split_and!; [done| |].
  - by apply decode_encode.
  - intros k Hk. destruct (decode _ k now') as [c|e] eqn:Ed; [by destruct (Hpre k c Hk)|by exists e].
Qed.

(** A token issued to an account authenticates that account at every service
    until a minute after it expires: the issuer's own verifier and one built from
    the published JWKS both extract the account, the platform and the store
    verdict it was issued with. *)
Theorem issued_token_authenticates seed name acct store plt now now' ttl v :
  now' <= now + ttl + LEEWAY ->
  v = verifier (Jwt_new seed name) \/ from_jwks (jwks_to_string (jwks (Jwt_new seed name))) = Ok v ->
  extract_subject v now'
    (Some (Some ("Bearer " +:+ issue (Jwt_new seed name) now acct store plt ttl)))
  = Ok {| subject := acct; platform := plt; from_official_store := Some store |}.
Proof.
  intros Hexp Hv. set (j := Jwt_new seed name) in *.
  assert (v = verifier j) as ->.
  { destruct Hv as [->|Hv]; [done|]. unfold from_jwks in Hv. rewrite jwks_roundtrip in Hv.
    unfold jwks, usable_key in Hv. simpl in Hv. rewrite components_encode in Hv. simpl in Hv. by simplify_eq. }
  unfold extract_subject. rewrite bearer_token_compact by apply encode_compact.
  destruct (verify_issued (verifier j) j now now' acct store plt ttl) as (c & -> & <- & <- & <- & _); [| |done|done].
  - exists [], []. unfold candidates. simpl. rewrite filter_cons_True by (by left). split; [done|].
    intros k c Hk. by apply not_elem_of_nil in Hk.
  - by exists seed, name.
Qed.

(** A token more than a minute past its expiry authenticates nobody, whatever
    keys the verifier holds. *)
Theorem expired_token_rejected seed name acct store plt now now' ttl v :
  now + ttl + LEEWAY < now' ->
  extract_subject v now'
    (Some (Some ("Bearer " +:+ issue (Jwt_new seed name) now acct store plt ttl)))
  = Err InvalidTokenError.
Proof.
  intros Hexp. unfold extract_subject. rewrite bearer_token_compact by apply encode_compact.
  destruct (verify v now' _) as [c|e] eqn:E; [exfalso|done].
  unfold verify, issue, issuer_issue in E. rewrite decode_header_encode in E.
  cbn [alg header jwt_issuer Jwt_new Issuer_new] in E. destruct (candidates _ _) as [|k ks] eqn:Ec; [done|].
  apply try_keys_Ok in E as (pre & k' & post & _ & Hd & _).
  match type of Hd with decode (encode ?h ?c ?sk) _ _ = _ =>
    destruct (decode_expired (kid h) c sk k' now' Hexp) as [e He] end.
  cbn [kid] in He. rewrite He in Hd. done.
Qed.
End laws.

(** ** An instance of the interface

    A token spells, in binary, the header, the claims and the key that signed
    them. *)

Module Demo.

#[local] Instance Algorithm_eq_dec : EqDecision Algorithm.
Proof. solve_decision. Defined.
#[local] Instance Header_eq_dec : EqDecision Header.
Proof. solve_decision. Defined.
#[local] Instance ClaimsSer_eq_dec : EqDecision ClaimsSer.
Proof. solve_decision. Defined.

#[local] Instance Header_countable : Countable Header.
Proof.
  refine (inj_countable' (fun h => (match alg h with EdDSA => None | OtherAlg n => Some n end, kid h))
    (fun x => {| alg := match x.1 with None => EdDSA | Some n => OtherAlg n end; kid := x.2 |}) _).
  by intros [[] ?].
Defined.
#[local] Instance ClaimsSer_countable : Countable ClaimsSer.
Proof.
  refine (inj_countable' (fun c => (cs_iss c, cs_sub c, cs_account_id c, cs_app_from_official_store c,
                                    cs_plt c, cs_iat c, cs_exp c))
    (fun '(a, b, c, d, e, f, g) => {| cs_iss := a; cs_sub := b; cs_account_id := c;
       cs_app_from_official_store := d; cs_plt := e; cs_iat := f; cs_exp := g |}) _).
  by intros [].
Defined.

Fixpoint bits (p : positive) : string :=
  match p with xH => "h" | xO p' => String "o" (bits p') | xI p' => String "i" (bits p') end.

Fixpoint unbits (s : string) : option positive :=
  match s with
  | String c s' =>
      if Ascii.eqb c "h" then Some xH
      else if Ascii.eqb c "o" then xO <$> unbits s'
      else xI <$> unbits s'
  | EmptyString => None
  end.

Lemma unbits_bits p : unbits (bits p) = Some p.
Proof. induction p as [p IH|p IH|]; simpl; [by rewrite IH|by rewrite IH|done]. Qed.

Lemma compact_bits p : compact (bits p).
Proof.
  induction p as [p [_ IH]|p [_ IH]|]; (split; [done|]); cbn [bits take_word].
  - assert (first_some (fun w => strip_prefix w (String "i" (bits p))) WHITE_SPACE = None) as -> by done.
    by rewrite IH.
  - assert (first_some (fun w => strip_prefix w (String "o" (bits p))) WHITE_SPACE = None) as -> by done.
    by rewrite IH.
  - done.
Qed.

Definition read_token (t : string) : option (Header * ClaimsSer * list Z) :=
  match unbits t with Some p => countable.decode p | None => None end.

#[export] Instance demo_crates : JwtCrates := {|
  SigningKey := bytes;
  from_seed := fun seed => seed;
  verifying_key := fun k => k;
  encode := fun h c k => bits (countable.encode (h, c, k));
  decode_header := fun t => match read_token t with Some (h, _, _) => Ok h | None => Err InvalidToken end;
  decode := fun t dk now =>
    match read_token t with
    | Some (_, c, k) =>
        if decide (k = dk) then
          if now <=? cs_exp c + LEEWAY then Ok (read_claims c) else Err (OtherJwt "ExpiredSignature")
        else Err (OtherJwt "InvalidSignature")
    | None => Err InvalidToken
    end;
  b64_encode := fun b => bits (countable.encode b);
  from_ed_components := fun s =>
    match unbits s with Some p => countable.decode (A := list Z) p | None => None end;
  jwks_to_string := fun l => bits (countable.encode
    (map (fun k => (key_id k, match params k with OctetEd25519 x => Some x | OtherKey => None end)) l));
  jwks_from_str := fun s =>
    match unbits s with
    | Some p =>
        match countable.decode (A := list (option string * option string)) p with
        | Some l => Some (map (fun '(i, x) => {| key_id := i;
            params := match x with Some x => OctetEd25519 x | None => OtherKey end |}) l)
        | None => None
        end
    | None => None
    end;
  key_digest := fun b => b;
|}.

#[export] Instance demo_laws : @JwtLaws demo_crates.
Proof.
  split.
  - intros. apply compact_bits.
  - intros h c k. simpl. unfold read_token. rewrite unbits_bits. simpl. by rewrite countable.decode_encode.
  - intros kd c k now Hn. simpl. unfold read_token. rewrite unbits_bits. simpl. rewrite countable.decode_encode.
    rewrite decide_True by done. by rewrite (proj2 (Z.leb_le _ _)).
  - intros kd c k dk now Hn. simpl. unfold read_token. rewrite unbits_bits. simpl. rewrite countable.decode_encode.
    case_decide; [|by eexists]. rewrite (proj2 (Z.leb_gt _ _)) by done. by eexists.
  - intros k. simpl. rewrite unbits_bits. simpl. by rewrite countable.decode_encode.
  - intros l. simpl. rewrite unbits_bits. simpl. rewrite countable.decode_encode. simpl. f_equal.
    induction l as [|[k []] l IH]; simpl; [done|by rewrite IH..].
Qed.

Lemma issued_token_authenticates_witness :
  from_jwks (jwks_to_string (jwks (Jwt_new [7] "polkadot-app"))) = Ok (verifier (Jwt_new [7] "polkadot-app")) /\
  extract_subject (verifier (Jwt_new [7] "polkadot-app")) 150
    (Some (Some ("Bearer " +:+ issue (Jwt_new [7] "polkadot-app") 100 "0xabcdef" true (Some "ios") 60)))
  = Ok {| subject := "0xabcdef"; platform := Some "ios"; from_official_store := Some true |}.
Proof.
  assert (from_jwks (jwks_to_string (jwks (Jwt_new [7] "polkadot-app")))
          = Ok (verifier (Jwt_new [7] "polkadot-app"))) as E by (vm_compute; reflexivity).
  split; [exact E|].
  apply (issued_token_authenticates [7] "polkadot-app" "0xabcdef" true (Some "ios") 100 150 60);
    [vm_compute; discriminate|right; exact E].
Defined.

Lemma expired_token_rejected_witness :
  extract_subject (verifier (Jwt_new [7] "polkadot-app")) 221
    (Some (Some ("Bearer " +:+ issue (Jwt_new [7] "polkadot-app") 100 "0xabcdef" true (Some "ios") 60)))
  = Err InvalidTokenError.
Proof. apply expired_token_rejected. vm_compute. reflexivity. Defined.
End Demo.
End Jwt.
