(* ===== verification/Der.v ===== *)
(** * Der: the key-description extension ([auth/key_attest/extension.rs])

    The DER reader of the Android key-attestation extension: one TLV ([read_tlv]),
    a run of them ([children]) and the key description built on top ([parse]).
    The reader accepts exactly the distinguished encodings, so two byte strings
    never read as the same value: [encode_tlv] is its inverse both ways. *)

From stdpp Require Import pretty.
From S2P Require Import Prelude Strings.

#[local] Open Scope Z_scope.

Module Der.

Record RootOfTrust := {
  verified_boot_key : bytes;
  device_locked : bool;
  verified_boot_state : Z;
}.

Record KeyDescription := {
  attestation_security_level : Z;
  key_security_level : Z;
  attestation_challenge : bytes;
  package_names : list string;
  signing_digests : list bytes;
  root_of_trust : option RootOfTrust;
}.

Record Tlv := {
  class : Z;
  constructed : bool;
  number : Z;
  content : bytes;
}.

Definition ANDROID_ATTESTATION_OID : string := "1.3.6.1.4.1.11129.2.1.17".
Definition TAG_ATTESTATION_APPLICATION_ID : Z := 709.
Definition TAG_ROOT_OF_TRUST : Z := 704.
Definition TAG_BOOLEAN : Z := 1.
Definition TAG_OCTET_STRING : Z := 4.
Definition TAG_ENUMERATED : Z := 10.
Definition TAG_SEQUENCE : Z := 16.
Definition TAG_SET : Z := 17.

Section reader.
#[local] Open Scope dub_scope.
#[local] Open Scope string_scope.
#[local] Open Scope Z_scope.

Definition expect_primitive (t : Tlv) (num : Z) (what : string) : result unit string :=
  if negb (class t =? 0) || constructed t || negb (number t =? num)
  then Err (what +:+ ": unexpected DER type") else Ok tt.

Definition expect_constructed (t : Tlv) (num : Z) (what : string) : result unit string :=
  if negb (class t =? 0) || negb (constructed t) || negb (number t =? num)
  then Err (what +:+ ": unexpected DER type") else Ok tt.

(** [checked_mul] and [checked_add] on [u32]. *)
Definition u32_checked (n : Z) : option Z := if n <=? U32_MAX then Some n else None.

(** The loop over a high-form tag; [input] is what [idx] has not passed. *)
Fixpoint high_form (first : bool) (num : Z) (input : bytes) : result (Z * bytes) string :=
  match input with
  | [] => Err "truncated high-form tag"
  | b :: rest =>
      if first && (Z.land b 127 =? 0) then Err "non-minimal high-form tag"
      else
        match (n ← u32_checked (num * 128); u32_checked (n + Z.land b 127)) with
        | None => Err "tag number overflow"
        | Some n => if Z.land b 128 =? 0 then Ok (n, rest) else high_form false n rest
        end
  end.

(** The [for i in 0..n] loop over a long-form length. *)
Fixpoint long_form (n : nat) (first : bool) (len : Z) (input : bytes) : result (Z * bytes) string :=
  match n with
  | O => Ok (len, input)
  | S n' =>
      match input with
      | [] => Err "truncated long-form length"
      | b :: rest =>
          if first && (b =? 0) then Err "non-minimal long-form length"
          else long_form n' false (Z.lor (Z.shiftl len 8) b) rest
      end
  end.

Definition read_number (b0 : Z) (input : bytes) : result (Z * bytes) string :=
  let num := Z.land b0 31 in
  if num =? 31 then
    let? (n, rest) := high_form true 0 input in
    if n <? 31 then Err "non-minimal high-form tag" else Ok (n, rest)
  else Ok (num, input).

Definition read_length (input : bytes) : result (Z * bytes) string :=
  match input with
  | [] => Err "truncated length"
  | l0 :: rest =>
      if Z.land l0 128 =? 0 then Ok (l0, rest)
      else
        let n := Z.land l0 127 in
        if (n =? 0) || (4 <? n) then Err "unsupported DER length form"
        else
          let? (len, rest') := long_form (Z.to_nat n) true 0 rest in
          if len <? 128 then Err "non-minimal long-form length" else Ok (len, rest')
  end.

(** [idx.checked_add(len)] cannot overflow a 64-bit [usize]: [idx] is at most the
    length of a slice and [len] is below 2^32. *)
Definition read_tlv (input : bytes) : result (Tlv * bytes) string :=
  match input with
  | [] => Err "truncated tag"
  | b0 :: rest =>
      let? (num, rest) := read_number b0 rest in
      let? (len, rest) := read_length rest in
      if Z.of_nat (length rest) <? len then Err "truncated content"
      else
        Ok ({| class := Z.shiftr b0 6; constructed := negb (Z.land b0 32 =? 0);
               number := num; content := take (Z.to_nat len) rest |},
            drop (Z.to_nat len) rest)
  end.

(** [while !content.is_empty()], with a bound on the rounds; a round consumes
    input, so the length of [content] is enough ([children_unfold]). *)
Fixpoint children_rounds (rounds : nat) (input : bytes) : result (list Tlv) string :=
  match input, rounds with
  | [], _ => Ok []
  | _ :: _, O => Err "unreachable"
  | _ :: _, S rounds' =>
      let? (t, rest) := read_tlv input in
      let? out := children_rounds rounds' rest in
      Ok (t :: out)
  end.

Definition children (input : bytes) : result (list Tlv) string :=
  children_rounds (length input) input.

Definition as_u64 (t : Tlv) : result Z string :=
  match content t with
  | [] => Err "integer out of range"
  | c => if (8 <? length c)%nat then Err "integer out of range"
         else Ok (foldl (fun v b => Z.lor (Z.shiftl v 8) b) 0 c)
  end.

Definition as_bool (t : Tlv) : result bool string :=
  match content t with
  | [b] => if b =? 0 then Ok false else if b =? 255 then Ok true
           else Err "non-canonical DER BOOLEAN"
  | _ => Err "non-canonical DER BOOLEAN"
  end.

Definition parse_root_of_trust (input : bytes) : result RootOfTrust string :=
  let? fields := children input in
  match fields with
  | f0 :: f1 :: f2 :: _ =>
      let? _ := expect_primitive f0 TAG_OCTET_STRING "verifiedBootKey" in
      let? _ := expect_primitive f1 TAG_BOOLEAN "deviceLocked" in
      let? _ := expect_primitive f2 TAG_ENUMERATED "verifiedBootState" in
      let? locked := as_bool f1 in
      let? state := as_u64 f2 in
      Ok {| verified_boot_key := content f0; device_locked := locked; verified_boot_state := state |}
  | _ => Err "rootOfTrust has fewer than 3 fields"
  end.

Record AuthorizationList := {
  application_id : option bytes;
  al_root_of_trust : option RootOfTrust;
}.

(** One turn of the loop of [parse_authorization_list]. *)
Definition authorization_entry (acc : AuthorizationList) (entry : Tlv) : result AuthorizationList string :=
  if negb (class entry =? 2) then Ok acc
  else if number entry =? TAG_ATTESTATION_APPLICATION_ID then
    let? (inner, rest) := read_tlv (content entry) in
    match rest with
    | _ :: _ => Err "attestationApplicationId: trailing bytes"
    | [] =>
        let? _ := expect_primitive inner TAG_OCTET_STRING "attestationApplicationId" in
        Ok {| application_id := Some (content inner); al_root_of_trust := al_root_of_trust acc |}
    end
  else if number entry =? TAG_ROOT_OF_TRUST then
    let? (inner, rest) := read_tlv (content entry) in
    match rest with
    | _ :: _ => Err "rootOfTrust: trailing bytes"
    | [] =>
        let? _ := expect_constructed inner TAG_SEQUENCE "rootOfTrust" in
        let? rot := parse_root_of_trust (content inner) in
        Ok {| application_id := application_id acc; al_root_of_trust := Some rot |}
    end
  else Ok acc.

Definition parse_authorization_list (list : Tlv) : result AuthorizationList string :=
  let? _ := expect_constructed list TAG_SEQUENCE "AuthorizationList" in
  let? entries := children (content list) in
  try_fold authorization_entry {| application_id := None; al_root_of_trust := None |} entries.

Definition package_info (names : list string) (info : Tlv) : result (list string) string :=
  let? _ := expect_constructed info TAG_SEQUENCE "packageInfo" in
  let? fields := children (content info) in
  match fields with
  | [] => Err "packageInfo missing name"
  | name :: _ =>
      let? _ := expect_primitive name TAG_OCTET_STRING "packageName" in
      match from_utf8 (content name) with
      | None => Err "package name is not UTF-8"
      | Some s => Ok (names ++ [s])%list
      end
  end.

Definition signature_digest (digests : list bytes) (digest : Tlv) : result (list bytes) string :=
  let? _ := expect_primitive digest TAG_OCTET_STRING "signature digest" in
  Ok (digests ++ [content digest])%list.

Definition parse_application_id (der : bytes) : result (list string * list bytes) string :=
  let? (top, rest) := read_tlv der in
  match rest with
  | _ :: _ => Err "AttestationApplicationId: trailing bytes"
  | [] =>
      let? _ := expect_constructed top TAG_SEQUENCE "AttestationApplicationId" in
      let? sets := children (content top) in
      match sets with
      | [infos; digests] =>
          let? _ := expect_constructed infos TAG_SET "packageInfos" in
          let? _ := expect_constructed digests TAG_SET "signatureDigests" in
          let? infos := children (content infos) in
          let? names := try_fold package_info [] infos in
          let? digests := children (content digests) in
          let? digests := try_fold signature_digest [] digests in
          Ok (names, digests)
      | _ => Err "AttestationApplicationId does not have 2 sets"
      end
  end.

Definition parse (extension_value : bytes) : result KeyDescription string :=
  let? (top, rest) := read_tlv extension_value in
  match rest with
  | _ :: _ => Err "trailing bytes after KeyDescription"
  | [] =>
      let? _ := expect_constructed top TAG_SEQUENCE "KeyDescription" in
      let? fields := children (content top) in
      match fields with
      | _ :: f1 :: _ :: f3 :: f4 :: _ :: f6 :: f7 :: _ =>
          let? _ := expect_primitive f1 TAG_ENUMERATED "attestationSecurityLevel" in
          let? attestation := as_u64 f1 in
          let? _ := expect_primitive f3 TAG_ENUMERATED "keymasterSecurityLevel" in
          let? key := as_u64 f3 in
          let? _ := expect_primitive f4 TAG_OCTET_STRING "attestationChallenge" in
          let? software := parse_authorization_list f6 in
          let? hardware := parse_authorization_list f7 in
          match (match application_id software with
                 | Some a => Some a
                 | None => application_id hardware
                 end) with
          | None => Err "missing attestationApplicationId"
          | Some app_id_der =>
              let? (names, digests) := parse_application_id app_id_der in
              Ok {| attestation_security_level := attestation; key_security_level := key;
                    attestation_challenge := content f4; package_names := names;
                    signing_digests := digests; root_of_trust := al_root_of_trust hardware |}
          end
      | _ => Err ("KeyDescription has " +:+ pretty (length fields) +:+ " fields, expected at least 8")
      end
  end.
End reader.
End Der.
