(* ===== verification/DerProps.v ===== *)
(** * DerProps: the DER reader and its encoder are inverse

    [encode_tlv] is the distinguished encoding of X.690 for the tags and lengths
    the reader supports.  Reading an encoding gives the value back, and whatever
    the reader accepts is an encoding.  [describes] is the grammar of the
    key-description extension; the parser reads exactly that. *)

From S2P Require Import Prelude Strings Der.

#[local] Open Scope Z_scope.

(** A Rust [u8] slice. *)
Definition bytes_ok (l : bytes) : Prop := Forall is_byte l.

#[export] Instance is_byte_dec b : Decision (is_byte b).
Proof. unfold is_byte. apply _. Defined.
#[export] Instance bytes_ok_dec l : Decision (bytes_ok l).
Proof. unfold bytes_ok. apply _. Defined.

Lemma is_byte_lt b : is_byte b <-> 0 <= b < 256.
Proof. unfold is_byte, U8_MAX. lia. Qed.

(** ** Facts about all bytes, by evaluation *)

Lemma byte_cases (P : Z -> bool) :
  forallb (fun n => P (Z.of_nat n)) (seq 0 256) = true -> forall b, is_byte b -> P b = true.
Proof.
  intros H b Hb. unfold is_byte, U8_MAX in Hb. rewrite forallb_forall in H.
  specialize (H (Z.to_nat b)). rewrite Z2Nat.id in H by lia. apply H, in_seq. lia.
Qed.

Lemma byte_split b :
  is_byte b ->
  Z.land b 127 = b mod 128 /\ (Z.land b 128 =? 0) = (b <? 128) /\
  b = Z.shiftr b 6 * 64 + (if Z.land b 32 =? 0 then 0 else 32) + Z.land b 31.
Proof.
  intros Hb.
  pose proof (byte_cases (fun b =>
    (Z.land b 127 =? b mod 128) && Bool.eqb (Z.land b 128 =? 0) (b <? 128) &&
    (b =? Z.shiftr b 6 * 64 + (if Z.land b 32 =? 0 then 0 else 32) + Z.land b 31))
    ltac:(vm_compute; reflexivity) b Hb) as H.
  apply andb_true_iff in H as [[H1 H2]%andb_true_iff H3].
  apply Z.eqb_eq in H1, H3. apply Bool.eqb_prop in H2. by split_and!.
Qed.

Lemma byte_parts b :
  is_byte b -> 0 <= Z.shiftr b 6 <= 3 /\ 0 <= Z.land b 31 <= 31.
Proof.
  intros Hb.
  pose proof (byte_cases (fun b => (0 <=? Z.shiftr b 6) && (Z.shiftr b 6 <=? 3) &&
    (0 <=? Z.land b 31) && (Z.land b 31 <=? 31)) ltac:(vm_compute; reflexivity) b Hb) as H.
  cbv beta in H. bool_prop. lia.
Qed.

Lemma shift_in len b : 0 <= len -> is_byte b -> Z.lor (Z.shiftl len 8) b = len * 256 + b.
Proof.
  intros Hl Hb. unfold is_byte, U8_MAX in Hb. rewrite Z.shiftl_mul_pow2 by lia.
  change (2 ^ 8) with 256. rewrite <-Z.add_lor_land, Z.add_comm.
  replace (Z.land (len * 256) b) with 0; [lia|].
  apply Z.bits_inj'. intros n Hn. rewrite Z.bits_0, Z.land_spec.
  destruct (Z.ltb_spec n 8).
  - change 256 with (2 ^ 8). by rewrite Z.mul_pow2_bits_low.
  - rewrite (Z.bits_above_log2 b n), andb_false_r; [done|lia|].
    destruct (Z.eq_dec b 0) as [->|]; [simpl; lia|].
    apply Z.log2_lt_pow2; [lia|]. assert (2 ^ 8 <= 2 ^ n) by (apply Z.pow_le_mono_r; lia). lia.
Qed.

(** ** Positional notation *)

Section digits.
Context (base : Z) (base_pos : 1 < base).

Definition push (v d : Z) : Z := v * base + d.
Definition value_from (v : Z) (ds : list Z) : Z := foldl push v ds.

Fixpoint digits (fuel : nat) (n : Z) : list Z :=
  match fuel with
  | O => []
  | S f => if n =? 0 then [] else digits f (n / base) ++ [n mod base]
  end.

Definition is_digits (ds : list Z) : Prop := Forall (fun d => 0 <= d < base) ds.
Definition minimal (ds : list Z) : Prop := match ds with d :: _ => d <> 0 | [] => True end.

Lemma value_from_nonneg v ds : 0 <= v -> is_digits ds -> v <= value_from v ds.
Proof using base_pos.
  intros Hv Hds. revert v Hv.
  induction Hds as [|d ds Hd Hds IH]; intros v Hv; [reflexivity|].
  change (v <= value_from (push v d) ds).
  assert (v <= push v d) by (unfold push; nia).
  specialize (IH (push v d) ltac:(lia)). lia.
Qed.

Lemma value_scale v ds :
  0 <= v -> is_digits ds -> v * base ^ Z.of_nat (length ds) <= value_from v ds.
Proof using base_pos.
  intros Hv Hds. revert v Hv. induction Hds as [|f ds Hf Hds IH]; intros v Hv; [cbn; lia|].
  cbn [length]. rewrite Nat2Z.inj_succ, Z.pow_succ_r by lia.
  specialize (IH (push v f) ltac:(unfold push; nia)).
  change (value_from v (f :: ds)) with (value_from (push v f) ds).
  assert (0 < base ^ Z.of_nat (length ds)) by (apply Z.pow_pos_nonneg; lia). unfold push in *. nia.
Qed.

Lemma value_upper ds : is_digits ds -> value_from 0 ds < base ^ Z.of_nat (length ds).
Proof using base_pos.
  induction ds as [|d ds IH] using rev_ind; intros Hds; [cbn; lia|].
  apply Forall_app in Hds as [Hds [Hd _]%Forall_cons]. specialize (IH Hds).
  rewrite length_app, Nat2Z.inj_add, Z.pow_add_r by lia. unfold value_from.
  rewrite foldl_app. fold (value_from 0 ds). cbn [foldl length]. unfold push.
  change (Z.of_nat 1) with 1. rewrite Z.pow_1_r. nia.
Qed.

(** A number has one minimal notation... *)
Lemma digits_value ds fuel :
  is_digits ds -> minimal ds -> (length ds <= fuel)%nat -> digits fuel (value_from 0 ds) = ds.
Proof using base_pos.
  revert fuel. induction ds as [|d ds IH] using rev_ind; intros fuel Hds Hm Hf.
  { by destruct fuel. }
  apply Forall_app in Hds as [Hds [Hd _]%Forall_cons]. rewrite length_app in Hf. simpl in Hf.
  destruct fuel as [|fuel]; [lia|]. unfold value_from. rewrite foldl_app. cbn [foldl digits].
  fold (value_from 0 ds). pose proof (value_from_nonneg 0 ds ltac:(lia) Hds) as Hnn.
  assert (minimal ds) as Hm' by (by destruct ds).
  assert (push (value_from 0 ds) d / base = value_from 0 ds) as Hq.
  { unfold push. rewrite Z.div_add_l, Z.div_small by lia. lia. }
  assert (push (value_from 0 ds) d mod base = d) as Hr.
  { unfold push. rewrite Z.add_comm, Z_mod_plus_full, Z.mod_small by lia. done. }
  rewrite Hq, Hr, IH by (done || lia).
  destruct (Z.eqb_spec (push (value_from 0 ds) d) 0) as [E|]; [|done].
  exfalso. destruct ds as [|e ds]; [unfold push in E; simpl in *; lia|].
  apply Forall_cons in Hds as [He Hds]. simpl in Hm.
  pose proof (value_from_nonneg e ds ltac:(lia) Hds). unfold push in E.
  change (value_from 0 (e :: ds)) with (value_from (push 0 e) ds) in *.
  replace (push 0 e) with e in * by (unfold push; lia). nia.
Qed.

(** ... and [digits] finds it. *)
Lemma digits_spec fuel n :
  0 <= n < base ^ Z.of_nat fuel ->
  value_from 0 (digits fuel n) = n /\ is_digits (digits fuel n) /\ minimal (digits fuel n) /\
  (length (digits fuel n) <= fuel)%nat /\ (n <> 0 -> digits fuel n <> []).
Proof using base_pos.
  revert n. induction fuel as [|fuel IH]; intros n Hn.
  { cbn in *. split_and!; [lia|constructor|done|lia|lia]. }
  rewrite Nat2Z.inj_succ, Z.pow_succ_r in Hn by lia. cbn [digits].
  destruct (Z.eqb_spec n 0) as [->|Hnz]; [split_and!; [done|constructor|done|simpl; lia|done]|].
  assert (0 <= n / base < base ^ Z.of_nat fuel) as Hq.
  { split; [apply Z.div_pos; lia|]. apply Z.div_lt_upper_bound; lia. }
  pose proof (Z.mod_pos_bound n base ltac:(lia)) as Hr.
  destruct (IH _ Hq) as (Hv & Hd & Hm & Hl & Hne).
  split_and!.
  - unfold value_from. rewrite foldl_app. fold (value_from 0 (digits fuel (n / base))).
    rewrite Hv. cbn. unfold push. pose proof (Z.div_mod n base ltac:(lia)). lia.
  - apply Forall_app. split; [done|]. by constructor.
  - destruct (Z.eq_dec (n / base) 0) as [E|E].
    + rewrite E. replace (digits fuel 0) with (@nil Z) by (by destruct fuel). simpl.
      pose proof (Z.div_mod n base ltac:(lia)). lia.
    + destruct (digits fuel (n / base)); [by destruct (Hne E)|done].
  - rewrite length_app. simpl. lia.
  - intros _. by destruct (digits fuel (n / base)).
Qed.

Lemma length_minimal ds fuel :
  is_digits ds -> minimal ds -> value_from 0 ds < base ^ Z.of_nat fuel -> (length ds <= fuel)%nat.
Proof using base_pos.
  intros Hds Hm Hv. destruct ds as [|d ds]; [simpl; lia|].
  apply Forall_cons in Hds as [Hd Hds]. simpl in Hm.
  pose proof (value_scale d ds ltac:(lia) Hds) as Hs.
  change (value_from 0 (d :: ds)) with (value_from (push 0 d) ds) in Hv.
  replace (push 0 d) with d in Hv by (unfold push; lia).
  assert (base ^ Z.of_nat (length ds) < base ^ Z.of_nat fuel) as Hp.
  { assert (0 < base ^ Z.of_nat (length ds)) by (apply Z.pow_pos_nonneg; lia). nia. }
  apply Z.pow_lt_mono_r_iff in Hp; simpl; lia.
Qed.
End digits.

Module DerProps.
Import Der.

(** ** The encoder *)

(** All but the last base-128 digit carry the continuation bit. *)
Fixpoint continued (ds : list Z) : bytes :=
  match ds with
  | [] => []
  | [d] => [d]
  | d :: ds' => (d + 128) :: continued ds'
  end.

Definition encode_tag (t : Tlv) : bytes :=
  let low := if number t <? 31 then number t else 31 in
  (class t * 64 + (if constructed t then 32 else 0) + low)
    :: (if number t <? 31 then [] else continued (digits 128 5 (number t))).

Definition encode_length (len : Z) : bytes :=
  if len <? 128 then [len]
  else let ds := digits 256 4 len in (128 + Z.of_nat (length ds)) :: ds.

Definition encode_tlv (t : Tlv) : bytes :=
  encode_tag t ++ encode_length (Z.of_nat (length (content t))) ++ content t.

Record tlv_ok (t : Tlv) : Prop := {
  ok_class : 0 <= class t <= 3;
  ok_number : 0 <= number t <= U32_MAX;
  ok_content : bytes_ok (content t);
  ok_length : Z.of_nat (length (content t)) <= U32_MAX;
}.

(** ** High-form tags *)

Lemma continued_cons d ds : ds <> [] -> continued (d :: ds) = (d + 128) :: continued ds.
Proof. by destruct ds. Qed.

Lemma high_form_sound first num input n rest :
  bytes_ok input -> 0 <= num -> high_form first num input = Ok (n, rest) ->
  exists ds, ds <> [] /\ is_digits 128 ds /\ (first = true -> minimal ds) /\
    input = continued ds ++ rest /\ n = value_from 128 num ds /\ n <= U32_MAX.
Proof.
  intros Hin; revert first num. induction Hin as [|b input Hb Hin IH]; intros first num Hnum; [done|].
  destruct (byte_split b Hb) as (H127 & H128 & _). cbn [high_form]. rewrite H127, H128.
  pose proof (Z.mod_pos_bound b 128 ltac:(lia)) as Hm.
  destruct (first && (b mod 128 =? 0)) eqn:Ef; [done|].
  assert (first = true -> b mod 128 <> 0) as Hmin by (intros ->; simpl in Ef; lia).
  destruct (u32_checked (num * 128) ≫= _) as [v|] eqn:Ev; [|done].
  assert (v = num * 128 + b mod 128 /\ v <= U32_MAX) as [-> Hv].
  { unfold u32_checked in Ev. cbn in Ev. repeat (case_match; simplify_eq/=). lia. }
  destruct (Z.ltb_spec b 128).
  - intros [= <- <-]. exists [b]. rewrite Z.mod_small in * by (unfold is_byte, U8_MAX in Hb; lia).
    split_and!; [done|by apply Forall_singleton|exact Hmin|done|done|done].
  - intros Hrec. destruct (IH false (num * 128 + b mod 128) ltac:(lia) Hrec)
      as (ds & Hne & Hds & _ & -> & -> & Hle).
    assert (b = b mod 128 + 128) as Hbb.
    { unfold is_byte, U8_MAX in Hb. pose proof (Z.div_mod b 128 ltac:(lia)).
      lia. }
    exists (b mod 128 :: ds). split_and!; [done|by constructor|exact Hmin| |done|done].
    rewrite continued_cons by done. simpl. by rewrite <-Hbb.
Qed.

Lemma high_form_complete first num ds rest :
  0 <= num -> ds <> [] -> is_digits 128 ds -> (first = true -> minimal ds) ->
  value_from 128 num ds <= U32_MAX ->
  high_form first num (continued ds ++ rest) = Ok (value_from 128 num ds, rest).
Proof.
  intros Hnum Hne Hds. revert first num Hnum Hne.
  induction Hds as [|d ds Hd Hds IH]; intros first num Hnum Hne Hmin Hle; [done|].
  change (value_from 128 num (d :: ds)) with (value_from 128 (num * 128 + d) ds) in *.
  pose proof (value_from_nonneg 128 ltac:(lia) (num * 128 + d) ds ltac:(lia) Hds) as Hge.
  assert ((n ← u32_checked (num * 128); u32_checked (n + d)) = Some (num * 128 + d)) as Hck.
  { unfold u32_checked. rewrite (proj2 (Z.leb_le _ _)) by lia. cbn.
    by rewrite (proj2 (Z.leb_le _ _)) by lia. }
  assert ((first && (d =? 0)) = false) as Hf.
  { destruct first; [|done]. specialize (Hmin eq_refl). simpl in *. lia. }
  destruct (decide (ds = [])) as [->|Hds'].
  - cbn [continued app high_form].
    destruct (byte_split d ltac:(unfold is_byte, U8_MAX; lia)) as (H127 & H128 & _).
    rewrite H127, H128, Z.mod_small by lia. rewrite Hf, Hck.
    by rewrite (proj2 (Z.ltb_lt _ _)) by lia.
  - rewrite continued_cons by done. cbn [app high_form].
    destruct (byte_split (d + 128) ltac:(unfold is_byte, U8_MAX; lia)) as (H127 & H128 & _).
    rewrite H127, H128. replace ((d + 128) mod 128) with d by (rewrite <-Z.add_mod_idemp_r, Z.add_0_r, Z.mod_small; lia).
    rewrite Hf, Hck, (proj2 (Z.ltb_ge _ _)) by lia. by apply IH; [lia| | |].
Qed.

(** ** Long-form lengths *)

Lemma long_form_sound n first len input v rest :
  bytes_ok input -> 0 <= len -> long_form n first len input = Ok (v, rest) ->
  exists ds, length ds = n /\ is_digits 256 ds /\ (first = true -> minimal ds) /\
    input = ds ++ rest /\ v = value_from 256 len ds.
Proof.
  revert first len input. induction n as [|n IH]; intros first len input Hin Hlen; simpl.
  { intros [= <- <-]. exists []. split_and!; [done|constructor|done..]. }
  destruct Hin as [|b input Hb Hin]; [done|].
  destruct (first && (b =? 0)) eqn:Ef; [done|]. rewrite shift_in by done.
  intros Hrec. destruct (IH false (len * 256 + b) input Hin ltac:(unfold is_byte, U8_MAX in Hb; lia) Hrec)
    as (ds & <- & Hds & _ & -> & ->).
  exists (b :: ds). split_and!; [done|constructor; [by apply is_byte_lt|done]| |done|done].
  intros ->. simpl in *. lia.
Qed.

Lemma long_form_complete first len ds rest :
  0 <= len -> is_digits 256 ds -> (first = true -> minimal ds) ->
  long_form (length ds) first len (ds ++ rest) = Ok (value_from 256 len ds, rest).
Proof.
  intros Hlen Hds. revert first len Hlen. induction Hds as [|d ds Hd Hds IH]; intros first len Hlen Hmin.
  { done. }
  cbn [length long_form app]. rewrite shift_in by (done || by apply is_byte_lt).
  destruct (first && (d =? 0)) eqn:Ef; [destruct first; [specialize (Hmin eq_refl); simpl in *; lia|done]|].
  apply IH; [lia|done].
Qed.

(** ** One TLV *)

Lemma pow128_5 n : n <= U32_MAX -> n < 128 ^ Z.of_nat 5.
Proof. unfold U32_MAX. change (128 ^ Z.of_nat 5) with 34359738368. lia. Qed.
Lemma pow256_4 n : n <= U32_MAX <-> n < 256 ^ Z.of_nat 4.
Proof. unfold U32_MAX. change (256 ^ Z.of_nat 4) with 4294967296. lia. Qed.

Lemma read_number_sound b0 input n rest :
  bytes_ok input -> read_number b0 input = Ok (n, rest) -> 0 <= Z.land b0 31 <= 31 ->
  0 <= n <= U32_MAX /\
  Z.land b0 31 = (if n <? 31 then n else 31) /\
  input = (if n <? 31 then [] else continued (digits 128 5 n)) ++ rest.
Proof.
  intros Hin Hr Hlow. unfold read_number in Hr.
  destruct (Z.eqb_spec (Z.land b0 31) 31) as [E|E].
  - destruct (high_form true 0 input) as [[m rest']|] eqn:Eh; [|done]. cbn in Hr.
    destruct (Z.ltb_spec m 31); [done|]. injection Hr as -> ->.
    destruct (high_form_sound true 0 _ _ _ Hin ltac:(lia) Eh) as (ds & Hne & Hds & Hm & -> & Hv & Hle).
    assert (0 <= n) by lia. rewrite (proj2 (Z.ltb_ge n 31)) by done. split; [lia|]. split; [done|].
    subst n. rewrite digits_value; [done|lia|done|by apply Hm|].
    apply (length_minimal 128); [lia|done|by apply Hm|by apply pow128_5].
  - injection Hr as <- <-. rewrite (proj2 (Z.ltb_lt _ 31)) by lia. unfold U32_MAX. split; [lia|done].
Qed.

Lemma read_length_sound input len rest :
  bytes_ok input -> read_length input = Ok (len, rest) ->
  0 <= len <= U32_MAX /\ input = encode_length len ++ rest.
Proof.
  intros Hin Hr. unfold read_length in Hr. destruct Hin as [|l0 input Hl0 Hin]; [done|].
  destruct (byte_split l0 Hl0) as (H127 & H128 & _). rewrite H127, H128 in Hr.
  unfold is_byte, U8_MAX in Hl0. unfold encode_length.
  destruct (Z.ltb_spec l0 128).
  { injection Hr as <- <-. rewrite (proj2 (Z.ltb_lt _ _)) by done. unfold U32_MAX. split; [lia|done]. }
  assert (l0 mod 128 = l0 - 128) as Hmod.
  { pose proof (Z.div_mod l0 128 ltac:(lia)). pose proof (Z.mod_pos_bound l0 128 ltac:(lia)). lia. }
  rewrite Hmod in Hr.
  destruct ((l0 - 128 =? 0) || (4 <? l0 - 128)) eqn:En; [done|]. bool_prop.
  destruct (long_form _ true 0 input) as [[v rest']|] eqn:El; [|done]. cbn in Hr.
  destruct (Z.ltb_spec v 128); [done|]. injection Hr as -> ->.
  destruct (long_form_sound _ true 0 _ _ _ Hin ltac:(lia) El) as (ds & Hlen & Hds & Hm & -> & ->).
  specialize (Hm eq_refl).
  assert (value_from 256 0 ds <= U32_MAX) as Hle.
  { apply pow256_4. eapply Z.lt_le_trans; [by apply value_upper|].
    apply Z.pow_le_mono_r; lia. }
  rewrite (proj2 (Z.ltb_ge _ 128)) by done. rewrite digits_value; [|lia|done|done|lia].
  split; [lia|]. simpl. f_equal. lia.
Qed.

(** Whatever the reader accepts is the encoding of what it returns. *)
Lemma read_tlv_sound input t rest :
  bytes_ok input -> read_tlv input = Ok (t, rest) -> input = encode_tlv t ++ rest /\ tlv_ok t.
Proof.
  intros Hin Hr. unfold read_tlv in Hr. destruct Hin as [|b0 input Hb0 Hin]; [done|].
  destruct (read_number b0 input) as [[n r1]|] eqn:En; [|done]. cbn in Hr.
  destruct (byte_parts b0 Hb0) as [Hc Hlow].
  destruct (read_number_sound _ _ _ _ Hin En Hlow) as (Hn & Hnum & ->).
  apply Forall_app in Hin as [_ Hr1].
  destruct (read_length r1) as [[len r2]|] eqn:El; [|done]. cbn in Hr.
  destruct (read_length_sound _ _ _ Hr1 El) as (Hlen & ->).
  apply Forall_app in Hr1 as [_ Hr2].
  destruct (Z.ltb_spec (Z.of_nat (length r2)) len); [done|]. injection Hr as <- <-.
  assert (Z.of_nat (length (take (Z.to_nat len) r2)) = len) as Hl.
  { rewrite length_take_le by lia. lia. }
  split.
  - unfold encode_tlv, encode_tag. cbn [class constructed number content]. rewrite Hl.
    rewrite <-!app_assoc. rewrite take_drop. simpl. f_equal. rewrite <-Hnum.
    destruct (byte_split b0 Hb0) as (_ & _ & Hb). rewrite Hb at 1. by destruct (Z.land b0 32 =? 0).
  - constructor; cbn; [done|done|by apply Forall_take|rewrite Hl; lia].
Qed.

Lemma read_number_complete low n rest :
  0 <= n <= U32_MAX -> Z.land low 31 = (if n <? 31 then n else 31) ->
  read_number low ((if n <? 31 then [] else continued (digits 128 5 n)) ++ rest) = Ok (n, rest).
Proof.
  intros Hn Hlow. unfold read_number. rewrite Hlow.
  destruct (Z.ltb_spec n 31).
  { by rewrite (proj2 (Z.eqb_neq n 31)) by lia. }
  rewrite Z.eqb_refl.
  destruct (digits_spec 128 ltac:(lia) 5 n) as (Hv & Hds & Hm & _ & Hne).
  { split; [lia|]. apply pow128_5; lia. }
  rewrite high_form_complete; [|lia|apply Hne; lia|done|done|lia]. rewrite Hv. cbn.
  by rewrite (proj2 (Z.ltb_ge n 31)) by lia.
Qed.

Lemma read_length_complete len rest :
  0 <= len <= U32_MAX -> read_length (encode_length len ++ rest) = Ok (len, rest).
Proof.
  intros Hlen. unfold encode_length. destruct (Z.ltb_spec len 128) as [Hs|Hs].
  { cbn [app read_length]. destruct (byte_split len ltac:(unfold is_byte, U8_MAX; lia)) as (_ & -> & _).
    by rewrite (proj2 (Z.ltb_lt len 128)) by lia. }
  destruct (digits_spec 256 ltac:(lia) 4 len) as (Hv & Hds & Hm & Hl & Hne).
  { split; [lia|]. apply pow256_4; lia. }
  specialize (Hne ltac:(lia)). set (ds := digits 256 4 len) in *.
  assert (0 < Z.of_nat (length ds) <= 4) as Hd by (destruct ds; simpl in *; [done|lia]).
  cbn [app read_length].
  destruct (byte_split (128 + Z.of_nat (length ds)) ltac:(unfold is_byte, U8_MAX; lia)) as (-> & -> & _).
  rewrite (proj2 (Z.ltb_ge _ 128)) by lia.
  replace ((128 + Z.of_nat (length ds)) mod 128) with (Z.of_nat (length ds))
    by (rewrite <-Z.add_mod_idemp_l, Z.add_0_l, Z.mod_small; lia).
  rewrite (proj2 (Z.eqb_neq _ 0)), (proj2 (Z.ltb_ge 4 _)) by lia. cbn [orb].
  rewrite Nat2Z.id, long_form_complete by (lia || done). rewrite Hv. cbn.
  by rewrite (proj2 (Z.ltb_ge len 128)) by lia.
Qed.

Lemma tag_byte (c : Z) (k : bool) (low : Z) :
  0 <= c <= 3 -> 0 <= low <= 31 ->
  let b := c * 64 + (if k then 32 else 0) + low in
  Z.shiftr b 6 = c /\ negb (Z.land b 32 =? 0) = k /\ Z.land b 31 = low.
Proof.
  intros Hc Hl. destruct k; cbv zeta.
  - pose proof (byte_cases (fun b => if (b / 32) mod 2 =? 1
      then (Z.shiftr b 6 =? b / 64) && negb (Z.land b 32 =? 0) && (Z.land b 31 =? b mod 32) else true)
      ltac:(vm_compute; reflexivity) (c * 64 + 32 + low) ltac:(unfold is_byte, U8_MAX; lia)) as H.
    cbv beta in H. revert H.
    replace ((c * 64 + 32 + low) / 32) with (1 + c * 2) by (apply Z.div_unique with low; lia).
    replace ((c * 64 + 32 + low) / 64) with c by (apply Z.div_unique with (32 + low); lia).
    replace ((c * 64 + 32 + low) mod 32) with low by (apply Z.mod_unique with (c * 2 + 1); lia).
    rewrite Z_mod_plus_full. change (1 mod 2 =? 1) with true. cbv iota.
    intros H. apply andb_true_iff in H as [[H1 H2]%andb_true_iff H3].
    rewrite H2. apply Z.eqb_eq in H1, H3. done.
  - pose proof (byte_cases (fun b => if (b / 32) mod 2 =? 0
      then (Z.shiftr b 6 =? b / 64) && (Z.land b 32 =? 0) && (Z.land b 31 =? b mod 32) else true)
      ltac:(vm_compute; reflexivity) (c * 64 + 0 + low) ltac:(unfold is_byte, U8_MAX; lia)) as H.
    cbv beta in H. revert H.
    replace ((c * 64 + 0 + low) / 32) with (0 + c * 2) by (apply Z.div_unique with low; lia).
    replace ((c * 64 + 0 + low) / 64) with c by (apply Z.div_unique with low; lia).
    replace ((c * 64 + 0 + low) mod 32) with low by (apply Z.mod_unique with (c * 2); lia).
    rewrite Z_mod_plus_full. change (0 mod 2 =? 0) with true. cbv iota.
    intros H. apply andb_true_iff in H as [[H1 H2]%andb_true_iff H3].
    rewrite H2. apply Z.eqb_eq in H1, H3. done.
Qed.

(** Reading an encoding gives the value back. *)
Lemma read_tlv_complete t rest : tlv_ok t -> read_tlv (encode_tlv t ++ rest) = Ok (t, rest).
Proof.
  intros [Hc Hn Hb Hl]. unfold encode_tlv, encode_tag, read_tlv. rewrite <-!app_assoc. simpl.
  destruct (tag_byte (class t) (constructed t) (if number t <? 31 then number t else 31) Hc)
    as (Hcl & Hk & Hlow).
  { destruct (Z.ltb_spec (number t) 31); lia. }
  rewrite read_number_complete by done. cbn [rbind].
  rewrite read_length_complete by lia. cbn [rbind].
  rewrite (proj2 (Z.ltb_ge _ _)) by (rewrite length_app; lia).
  rewrite Hcl, Hk, Nat2Z.id, take_app_length, drop_app_length. by destruct t.
Qed.

Lemma encode_tlv_length t : tlv_ok t -> (2 <= length (encode_tlv t))%nat.
Proof.
  intros _. unfold encode_tlv, encode_tag, encode_length. rewrite !length_app.
  destruct (Z.of_nat (length (content t)) <? 128); simpl; lia.
Qed.

(** ** Runs of TLVs *)

Definition encode_tlvs (l : list Tlv) : bytes := concat (encode_tlv <$> l).

Lemma children_rounds_complete l rounds :
  Forall tlv_ok l -> (length (encode_tlvs l) <= rounds)%nat ->
  children_rounds rounds (encode_tlvs l) = Ok l.
Proof.
  intros Hl. revert rounds. induction Hl as [|t l Ht Hl IH]; intros rounds Hr; [by destruct rounds|].
  change (encode_tlvs (t :: l)) with (encode_tlv t ++ encode_tlvs l) in *.
  rewrite length_app in Hr. pose proof (encode_tlv_length t Ht).
  pose proof (read_tlv_complete t (encode_tlvs l) Ht) as Hread.
  destruct (encode_tlv t ++ encode_tlvs l) as [|b bs] eqn:E.
  { apply (f_equal length) in E. rewrite length_app in E. simpl in E. lia. }
  destruct rounds as [|rounds]; [lia|]. cbn [children_rounds]. rewrite Hread. cbn [rbind].
  by rewrite IH by lia.
Qed.

Lemma children_rounds_sound rounds input l :
  bytes_ok input -> children_rounds rounds input = Ok l -> input = encode_tlvs l /\ Forall tlv_ok l.
Proof.
  revert input l. induction rounds as [|rounds IH]; intros input l Hin Hr.
  { destruct input; [|done]. injection Hr as <-. done. }
  destruct input as [|b input']; [injection Hr as <-; done|]. set (input := b :: input') in *.
  change (children_rounds (S rounds) input) with
    (rbind (read_tlv input) (fun '(t, rest) => rbind (children_rounds rounds rest) (fun out => Ok (t :: out)))) in Hr.
  destruct (read_tlv input) as [[t rest]|] eqn:Et; [|done]. cbn in Hr.
  destruct (read_tlv_sound _ _ _ Hin Et) as [Heq Ht].
  rewrite Heq in Hin |- *. apply Forall_app in Hin as [_ Hrest].
  destruct (children_rounds rounds rest) as [out|] eqn:Eo; [|done]. injection Hr as <-.
  destruct (IH _ _ Hrest Eo) as [-> Hout]. split; [done|by constructor].
Qed.

(** [children] splits exactly the concatenations of encodings, whatever the bound
    on its rounds. *)
Lemma children_spec input l :
  bytes_ok input -> children input = Ok l <-> input = encode_tlvs l /\ Forall tlv_ok l.
Proof.
  intros Hin. split; [by apply children_rounds_sound|].
  intros [-> Hl]. by apply children_rounds_complete.
Qed.

Lemma children_complete l : Forall tlv_ok l -> children (encode_tlvs l) = Ok l.
Proof. intros Hl. by apply children_rounds_complete. Qed.

(** ** Key descriptions *)

Definition primitive (num : Z) (c : bytes) : Tlv :=
  {| class := 0; constructed := false; number := num; content := c |}.
Definition composite (num : Z) (l : list Tlv) : Tlv :=
  {| class := 0; constructed := true; number := num; content := encode_tlvs l |}.
(** A context-specific tag around one TLV. *)
Definition explicit (num : Z) (t : Tlv) : Tlv :=
  {| class := 2; constructed := true; number := num; content := encode_tlv t |}.

Definition octets (c : bytes) : Tlv := primitive TAG_OCTET_STRING c.
Definition boolean (b : bool) : Tlv := primitive TAG_BOOLEAN [if b then 255 else 0].

Definition fits (c : bytes) : Prop := bytes_ok c /\ Z.of_nat (length c) <= U32_MAX.

Lemma fits_app a b : fits (a ++ b) -> fits a /\ fits b.
Proof.
  intros [Hb Hl]. apply Forall_app in Hb as [Ha Hb]. rewrite length_app in Hl.
  split; (split; [done|lia]).
Qed.

Lemma fits_content t : fits (encode_tlv t) -> fits (content t).
Proof. unfold encode_tlv. by intros [_ [_ H]%fits_app]%fits_app. Qed.

Lemma fits_tlvs l : fits (encode_tlvs l) -> Forall (fun t => fits (encode_tlv t)) l.
Proof.
  induction l as [|t l IH]; [constructor|].
  change (encode_tlvs (t :: l)) with (encode_tlv t ++ encode_tlvs l).
  intros [Ht Hl]%fits_app. constructor; auto.
Qed.

(** A tag the format uses: its encoding fits, so the value is one the reader takes. *)
Definition tag_ok (t : Tlv) : Prop := 0 <= class t <= 3 /\ 0 <= number t <= U32_MAX.

Lemma fits_ok t : tag_ok t -> fits (encode_tlv t) -> tlv_ok t.
Proof. intros [Hc Hn] [Hb Hl]%fits_content. by constructor. Qed.

Lemma fits_all l : Forall tag_ok l -> fits (encode_tlvs l) -> Forall tlv_ok l.
Proof.
  intros Ht Hf%fits_tlvs. rewrite Forall_forall in *. intros t Hin. apply fits_ok; auto.
Qed.

Lemma tag_ok_primitive num c : 0 <= num <= 31 -> tag_ok (primitive num c).
Proof. unfold tag_ok, U32_MAX. simpl. lia. Qed.
Lemma tag_ok_composite num l : 0 <= num <= 31 -> tag_ok (composite num l).
Proof. unfold tag_ok, U32_MAX. simpl. lia. Qed.
Lemma tag_ok_explicit num t : 0 <= num <= 1000 -> tag_ok (explicit num t).
Proof. unfold tag_ok, U32_MAX. simpl. lia. Qed.

Lemma read_one t : tag_ok t -> fits (encode_tlv t) -> read_tlv (encode_tlv t) = Ok (t, []).
Proof.
  intros Ht Hf. rewrite <-(app_nil_r (encode_tlv t)). by apply read_tlv_complete, fits_ok.
Qed.

Lemma read_children num l :
  Forall tag_ok l -> fits (encode_tlv (composite num l)) -> children (encode_tlvs l) = Ok l.
Proof. intros Ht Hf%fits_content. by apply children_complete, fits_all. Qed.

Lemma foldl_shift (c : bytes) v :
  bytes_ok c -> 0 <= v ->
  foldl (fun v b => Z.lor (Z.shiftl v 8) b) v c = value_from 256 v c.
Proof.
  intros Hc. revert v. induction Hc as [|b c Hb Hc IH]; intros v Hv; [done|]. simpl.
  rewrite shift_in by done. apply IH. unfold is_byte, U8_MAX in Hb. unfold push. lia.
Qed.

Ltac tag :=
  first [apply tag_ok_primitive|apply tag_ok_composite|apply tag_ok_explicit];
  split; vm_compute; discriminate.
Ltac tags := repeat first [apply Forall_nil; exact I|apply Forall_cons; split; [tag|]].

(** *** The grammar of the extension *)

(** The tagged entry a root of trust [r] is read from: its first three fields, and
    any fields after them (the verified boot hash of later versions). *)
Definition rot_entry (r : RootOfTrust) (e : Tlv) : Prop :=
  exists state more, class e = 2 /\ number e = TAG_ROOT_OF_TRUST /\
    content e = encode_tlv (composite TAG_SEQUENCE
      (octets (verified_boot_key r) :: boolean (device_locked r) :: primitive TAG_ENUMERATED state :: more)) /\
    (0 < length state <= 8)%nat /\ verified_boot_state r = value_from 256 0 state /\ Forall tag_ok more.

(** The tagged entry an application id is read from. *)
Definition app_entry (app_id : bytes) (e : Tlv) : Prop :=
  class e = 2 /\ number e = TAG_ATTESTATION_APPLICATION_ID /\ content e = encode_tlv (octets app_id).

(** An entry of an authorization list this service does not look into. *)
Definition other_entry (e : Tlv) : Prop :=
  class e <> 2 \/ (number e <> TAG_ATTESTATION_APPLICATION_ID /\ number e <> TAG_ROOT_OF_TRUST).

(** The entries of an authorization list, in any order and among any others, with
    the application id and the root of trust listed last. *)
Inductive authorizations : list Tlv -> option bytes -> option RootOfTrust -> Prop :=
| no_authorization : authorizations [] None None
| application_listed entries app rot a e :
    authorizations entries app rot -> app_entry a e -> authorizations (entries ++ [e]) (Some a) rot
| root_listed entries app rot r e :
    authorizations entries app rot -> rot_entry r e -> authorizations (entries ++ [e]) app (Some r)
| other_listed entries app rot e :
    authorizations entries app rot -> other_entry e -> authorizations (entries ++ [e]) app rot.

(** A package: its name, and any fields after it (its version). *)
Definition package_of (info : Tlv) (name : string) : Prop :=
  valid_utf8 (as_bytes name) = true /\
  exists more, Forall tag_ok more /\ info = composite TAG_SEQUENCE (octets (as_bytes name) :: more).

(** The application id [der] lists exactly [names] and [digests]. *)
Definition application_of (der : bytes) (names : list string) (digests : list bytes) : Prop :=
  exists infos, Forall2 package_of infos names /\
    der = encode_tlv (composite TAG_SEQUENCE
            [composite TAG_SET infos; composite TAG_SET (octets <$> digests)]).

(** [content] is the number [level] in at most eight octets. *)
Definition level_of (content : bytes) (level : Z) : Prop :=
  (0 < length content <= 8)%nat /\ level = value_from 256 0 content.

(** The extension value [v] describes the key as [d]: eight fields and possibly
    more, the application id of the software-enforced list, or of the
    hardware-enforced one when the former has none, and the root of trust of the
    hardware-enforced list, never of the software-enforced one. *)
Definition describes (v : bytes) (d : KeyDescription) : Prop :=
  exists f0 att f2 key f5 software hardware more sw_app sw_rot hw_app app_id,
    let fields := f0 :: primitive TAG_ENUMERATED att :: f2 :: primitive TAG_ENUMERATED key
       :: octets (attestation_challenge d) :: f5
       :: composite TAG_SEQUENCE software :: composite TAG_SEQUENCE hardware :: more in
    v = encode_tlv (composite TAG_SEQUENCE fields) /\
    Z.of_nat (length (encode_tlvs fields)) <= U32_MAX /\
    Forall tag_ok (f0 :: f2 :: f5 :: more ++ software ++ hardware) /\
    level_of att (attestation_security_level d) /\ level_of key (key_security_level d) /\
    authorizations software sw_app sw_rot /\ authorizations hardware hw_app (root_of_trust d) /\
    (sw_app = Some app_id \/ (sw_app = None /\ hw_app = Some app_id)) /\
    application_of app_id (package_names d) (signing_digests d).

(** *** The parser reads that grammar *)

Lemma expect_primitive_Ok t num what u :
  expect_primitive t num what = Ok u -> t = primitive num (content t).
Proof.
  unfold expect_primitive. destruct t as [c k n b]; simpl. intros H. case_match; [done|].
  bool_prop. destruct k; [done|]. by subst.
Qed.

Lemma expect_constructed_Ok t num what u l :
  expect_constructed t num what = Ok u -> content t = encode_tlvs l -> t = composite num l.
Proof.
  unfold expect_constructed. destruct t as [c k n b]; simpl. intros H ->. case_match; [done|].
  bool_prop. destruct k; [|done]. by subst.
Qed.

Lemma as_u64_Ok t v :
  bytes_ok (content t) -> as_u64 t = Ok v ->
  (0 < length (content t) <= 8)%nat /\ v = value_from 256 0 (content t).
Proof.
  intros Hb H. unfold as_u64 in H. destruct (content t) as [|b c] eqn:E; [done|].
  destruct (Nat.ltb_spec 8 (length (b :: c))); [done|]. injection H as <-.
  pose proof (foldl_shift (b :: c) 0 Hb ltac:(lia)) as <-. cbn [length] in *. split; [lia|done].
Qed.

Lemma as_bool_Ok t v : as_bool t = Ok v -> content t = [if v then 255 else 0].
Proof.
  unfold as_bool. intros H. destruct (content t) as [|b [|]]; [done| |done].
  destruct (Z.eqb_spec b 0) as [E|]; [injection H as <-; by rewrite E|].
  destruct (Z.eqb_spec b 255) as [E|]; [injection H as <-; by rewrite E|done].
Qed.

Lemma tlv_tag t : tlv_ok t -> tag_ok t.
Proof. by intros [Hc Hn _ _]. Qed.
Lemma tlv_tags l : Forall tlv_ok l -> Forall tag_ok l.
Proof. intros H. eapply Forall_impl; [exact H|apply tlv_tag]. Qed.
Lemma ok_fits t : tlv_ok t -> fits (content t).
Proof. by intros [_ _ Hb Hl]. Qed.

Lemma expect_primitive_intro num c what : expect_primitive (primitive num c) num what = Ok tt.
Proof. unfold expect_primitive. cbn. by rewrite Z.eqb_refl. Qed.
Lemma expect_constructed_intro num l what : expect_constructed (composite num l) num what = Ok tt.
Proof. unfold expect_constructed. cbn. by rewrite Z.eqb_refl. Qed.

Lemma as_u64_intro num c :
  bytes_ok c -> (0 < length c <= 8)%nat -> as_u64 (primitive num c) = Ok (value_from 256 0 c).
Proof.
  intros Hb Hl. unfold as_u64. cbn [primitive content]. destruct c as [|b c]; [simpl in Hl; lia|].
  rewrite (proj2 (Nat.ltb_ge _ _)) by lia. by rewrite foldl_shift.
Qed.


Lemma parse_root_of_trust_complete key locked state more :
  let fields := octets key :: boolean locked :: primitive TAG_ENUMERATED state :: more in
  fits (encode_tlvs fields) -> (0 < length state <= 8)%nat -> Forall tag_ok more ->
  parse_root_of_trust (encode_tlvs fields) =
    Ok {| verified_boot_key := key; device_locked := locked; verified_boot_state := value_from 256 0 state |}.
Proof.
  intros fields Hf Hl Hm. unfold parse_root_of_trust.
  rewrite children_complete by (apply fits_all; [|done]; do 3 (apply Forall_cons; split; [tag|]); done).
  cbn [rbind fields]. rewrite !expect_primitive_intro. cbn [rbind].
  assert (bytes_ok state) as Hb.
  { apply fits_tlvs in Hf as [_ [_ [[H _]%fits_content _]%Forall_cons]%Forall_cons]%Forall_cons. exact H. }
  rewrite as_u64_intro by done. by destruct locked.
Qed.

Lemma parse_root_of_trust_sound input r :
  bytes_ok input -> parse_root_of_trust input = Ok r ->
  exists state more,
    input = encode_tlvs (octets (verified_boot_key r) :: boolean (device_locked r)
                         :: primitive TAG_ENUMERATED state :: more) /\
    (0 < length state <= 8)%nat /\ verified_boot_state r = value_from 256 0 state /\ Forall tag_ok more.
Proof.
  intros Hin H. unfold parse_root_of_trust in H.
  destruct (children input) as [fields|] eqn:Ef; [|done]. cbn in H.
  apply children_spec in Ef as [-> Hok]; [|done].
  destruct fields as [|f0 [|f1 [|f2 more]]]; try done.
  destruct (expect_primitive f0 _ _) eqn:E0; [|done].
  destruct (expect_primitive f1 _ _) eqn:E1; [|done].
  destruct (expect_primitive f2 _ _) eqn:E2; [|done]. cbn in H.
  destruct (as_bool f1) as [locked|] eqn:Eb; [|done]. cbn in H.
  destruct (as_u64 f2) as [state|] eqn:Eu; [|done]. injection H as <-.
  apply expect_primitive_Ok in E0, E1, E2. apply as_bool_Ok in Eb. rewrite Eb in E1.
  apply Forall_cons in Hok as [_ [_ [H2 Hm%tlv_tags]%Forall_cons]%Forall_cons].
  apply as_u64_Ok in Eu as [Hl ->]; [|by apply ok_content].
  exists (content f2), more. cbn [verified_boot_key device_locked verified_boot_state].
  split; [|done]. by rewrite E0 at 1; rewrite E1 at 1; rewrite E2 at 1.
Qed.

Lemma read_whole input t : bytes_ok input -> read_tlv input = Ok (t, []) -> input = encode_tlv t /\ tlv_ok t.
Proof. intros Hin [-> Ht]%read_tlv_sound; [|done]. by rewrite app_nil_r. Qed.

(** One turn of the loop: exactly what it makes of an entry. *)
Lemma authorization_entry_exact acc e out :
  tlv_ok e ->
  authorization_entry acc e = Ok out <->
    (exists a, app_entry a e /\ out = {| application_id := Some a; al_root_of_trust := al_root_of_trust acc |}) \/
    (exists r, rot_entry r e /\ out = {| application_id := application_id acc; al_root_of_trust := Some r |}) \/
    (other_entry e /\ out = acc).
Proof.
  intros He. unfold authorization_entry. split.
  - destruct (Z.eqb_spec (class e) 2) as [Hc|Hc]; cbn [negb]; [|intros [= <-]; right; right; split; [by left|done]].
    destruct (Z.eqb_spec (number e) TAG_ATTESTATION_APPLICATION_ID) as [Hn|Hn].
    { intros ([inner [|]] & Er & H)%rbind_ok; [|done].
      apply read_whole in Er as [Hcon _]; [|by apply ok_content].
      apply rbind_ok in H as (u & Ep%expect_primitive_Ok & [= <-]). left.
      exists (content inner). split; [|done]. split_and!; [done|done|]. by rewrite Hcon, Ep at 1. }
    destruct (Z.eqb_spec (number e) TAG_ROOT_OF_TRUST) as [Hn'|Hn'];
      [|intros [= <-]; right; right; split; [by right|done]].
    intros ([inner [|]] & Er & H)%rbind_ok; [|done].
    apply read_whole in Er as [Hcon Hi]; [|by apply ok_content].
    apply rbind_ok in H as (u & Ec & (rot & Ep & [= <-])%rbind_ok).
    apply parse_root_of_trust_sound in Ep as (state & more & Heq & Hrest); [|by apply ok_content].
    apply (expect_constructed_Ok _ _ _ _ _ Ec) in Heq. right; left. exists rot. split; [|done].
    exists state, more. split_and!; [done|done|by rewrite Hcon, Heq|apply Hrest..].
  - pose proof (ok_fits _ He) as Hf. intros [(a & (Hc & Hn & Hcon) & ->)|[(r & Hr & ->)|[Ho ->]]].
    + rewrite Hc, Hn. cbn [negb Z.eqb]. rewrite !Z.eqb_refl. rewrite Hcon in Hf |- *. cbn [negb].
      rewrite read_one by (done || tag). cbn [rbind]. unfold octets at 1. by rewrite expect_primitive_intro.
    + destruct Hr as (state & more & Hc & Hn & Hcon & Hl & Hv & Hm).
      rewrite Hc, Hn. rewrite Hcon in Hf |- *.
      change (negb (2 =? 2)) with false. change (TAG_ROOT_OF_TRUST =? TAG_ATTESTATION_APPLICATION_ID) with false.
      rewrite Z.eqb_refl. cbv iota. rewrite read_one by (done || tag). cbn [rbind].
      rewrite expect_constructed_intro. cbn [rbind composite content].
      rewrite parse_root_of_trust_complete; [|exact (fits_content _ Hf)|done|done].
      rewrite <-Hv. by destruct r.
    + destruct (Z.eqb_spec (class e) 2) as [Hc|]; [|done]. cbn [negb].
      destruct Ho as [|[Ha Hr]]; [done|]. by rewrite (proj2 (Z.eqb_neq _ _) Ha), (proj2 (Z.eqb_neq _ _) Hr).
Qed.

Lemma try_fold_snoc {A B E} (f : A -> B -> result A E) acc l x :
  try_fold f acc (l ++ [x]) = rbind (try_fold f acc l) (fun acc' => f acc' x).
Proof.
  revert acc. induction l as [|y l IH]; intros acc; cbn [app try_fold].
  { cbn. by destruct (f acc x). }
  destruct (f acc y) as [acc'|]; [|done]. cbn [rbind]. apply IH.
Qed.

Lemma authorizations_exact entries app rot :
  Forall tlv_ok entries ->
  try_fold authorization_entry {| application_id := None; al_root_of_trust := None |} entries
    = Ok {| application_id := app; al_root_of_trust := rot |} <->
  authorizations entries app rot.
Proof.
  revert app rot. induction entries as [|e entries IH] using rev_ind; intros app rot Hok.
  { split; [intros [= <- <-]; constructor|]. intros H. inversion H; [done|..]; by destruct entries. }
  apply Forall_app in Hok as [Hok [He _]%Forall_cons].
  rewrite try_fold_snoc, rbind_ok. split.
  - intros ([app' rot'] & Hl%IH & H); [|done]. apply authorization_entry_exact in H; [|done].
    destruct H as [(a & Ha & [= -> ->])|[(r & Hr & [= -> ->])|[Ho [= -> ->]]]]; by econstructor.
  - intros H. inversion H as [Hnil|? app' ? ? ? Hl He' Hs|? ? rot' ? ? Hl He' Hs|? ? ? ? Hl He' Hs].
    { by destruct entries. }
    all: apply app_inj_tail in Hs as [-> ->]; apply IH in Hl; [|done];
      eexists; (split; [exact Hl|]); apply authorization_entry_exact; [done|]; cbn; eauto 6.
Qed.

Lemma parse_authorization_list_exact entries app rot :
  Forall tag_ok entries -> fits (encode_tlvs entries) ->
  parse_authorization_list (composite TAG_SEQUENCE entries)
    = Ok {| application_id := app; al_root_of_trust := rot |} <->
  authorizations entries app rot.
Proof.
  intros Ht Hf. unfold parse_authorization_list. rewrite expect_constructed_intro. cbn [rbind composite content].
  pose proof (fits_all _ Ht Hf) as Hok. rewrite children_complete by done. cbn [rbind].
  by apply authorizations_exact.
Qed.

Lemma fits_snoc entries e :
  fits (encode_tlvs (entries ++ [e])) -> fits (encode_tlvs entries) /\ fits (encode_tlv e).
Proof.
  unfold encode_tlvs. rewrite fmap_app, concat_app. cbn. rewrite app_nil_r. apply fits_app.
Qed.

Lemma listed_fits entries a rot :
  fits (encode_tlvs entries) -> authorizations entries (Some a) rot -> fits a.
Proof.
  intros Hf H. remember (Some a) as app eqn:E. revert E Hf.
  induction H as [|es app rot a' e _ _ (_ & _ & Hcon)|es app rot r e _ IH _|es app rot e _ IH _];
    intros E Hf; [done|apply fits_snoc in Hf as [Hf He]..]; [|by apply IH..].
  injection E as ->. apply fits_content in He. rewrite Hcon in He. by apply fits_content in He.
Qed.

Lemma parse_authorization_list_entries l out :
  tlv_ok l -> parse_authorization_list l = Ok out ->
  exists entries, l = composite TAG_SEQUENCE entries /\ Forall tag_ok entries /\ fits (encode_tlvs entries).
Proof.
  intros Hl H. unfold parse_authorization_list in H.
  apply rbind_ok in H as (u & Ec & (entries & Ech & _)%rbind_ok).
  apply children_spec in Ech as [Hcon Hok%tlv_tags]; [|by apply ok_content].
  exists entries. split; [by eapply expect_constructed_Ok|]. split; [done|].
  rewrite <-Hcon. by apply ok_fits.
Qed.

Lemma package_info_sound acc info out :
  tlv_ok info -> package_info acc info = Ok out ->
  exists name, out = acc ++ [name] /\ package_of info name.
Proof.
  intros Hi H. unfold package_info in H.
  destruct (expect_constructed info _ _) eqn:Ec; [|done]. cbn in H.
  destruct (children (content info)) as [fields|] eqn:Ef; [|done]. cbn in H.
  apply children_spec in Ef as [Hcon Hok]; [|by apply ok_content].
  destruct fields as [|name more]; [done|].
  destruct (expect_primitive name _ _) eqn:Ep; [|done]. cbn in H. apply expect_primitive_Ok in Ep.
  unfold from_utf8 in H. destruct (valid_utf8 (content name)) eqn:Eu; [|done]. injection H as <-.
  apply Forall_cons in Hok as [Hn Hm%tlv_tags].
  exists (string_of_bytes (content name)). split; [done|].
  assert (as_bytes (string_of_bytes (content name)) = content name) as Hb
    by (apply as_bytes_of_string, (ok_content _ Hn)).
  unfold package_of. rewrite Hb. split; [done|]. exists more. split; [done|]. unfold octets. rewrite <-Ep.
  by eapply expect_constructed_Ok.
Qed.

Lemma package_info_complete acc info name :
  fits (content info) -> package_of info name -> package_info acc info = Ok (acc ++ [name]).
Proof.
  intros Hf (Hu & more & Hm & ->). unfold package_info. rewrite expect_constructed_intro.
  cbn [rbind composite content] in *.
  rewrite children_complete by (apply fits_all; [apply Forall_cons; split; [tag|done]|done]).
  cbn [rbind]. unfold octets at 1. rewrite expect_primitive_intro. cbn [rbind octets primitive content].
  unfold from_utf8. by rewrite Hu, string_of_as_bytes.
Qed.

Lemma package_infos_complete infos names acc :
  Forall (fun t => fits (encode_tlv t)) infos -> Forall2 package_of infos names ->
  try_fold package_info acc infos = Ok (acc ++ names).
Proof.
  intros Hf Hp. revert acc Hf. induction Hp as [|i n infos names Hi Hp IH]; intros acc Hf; cbn [try_fold].
  { by rewrite app_nil_r. }
  apply Forall_cons in Hf as [Hi' Hf]. rewrite (package_info_complete _ _ n) by (done || by apply fits_content).
  cbn [rbind]. rewrite IH by done. by rewrite <-app_assoc.
Qed.

Lemma digests_complete digests acc :
  try_fold signature_digest acc (octets <$> digests) = Ok (acc ++ digests).
Proof.
  revert acc. induction digests as [|d digests IH]; intros acc; cbn [fmap list_fmap try_fold].
  { by rewrite app_nil_r. }
  unfold signature_digest at 1. change (expect_primitive (octets d) _ _) with (@Ok unit string tt).
  cbn [rbind octets primitive content]. rewrite IH. by rewrite <-app_assoc.
Qed.

Lemma package_infos_sound infos acc out :
  Forall tlv_ok infos -> try_fold package_info acc infos = Ok out ->
  exists names, out = acc ++ names /\ Forall2 package_of infos names.
Proof.
  intros Hok. revert acc. induction Hok as [|i infos Hi Hok IH]; intros acc H; simpl in H.
  { injection H as <-. exists []. rewrite app_nil_r. by split; [|constructor]. }
  destruct (package_info acc i) as [acc'|] eqn:Ei; [|done]. cbn in H.
  apply package_info_sound in Ei as (name & -> & Hp); [|done].
  destruct (IH _ H) as (names & -> & Hn). exists (name :: names).
  rewrite <-app_assoc. split; [done|by constructor].
Qed.

Lemma digests_sound ts acc out :
  try_fold signature_digest acc ts = Ok out -> exists ds, out = acc ++ ds /\ ts = octets <$> ds.
Proof.
  revert acc. induction ts as [|t ts IH]; intros acc H; simpl in H.
  { injection H as <-. exists []. by rewrite app_nil_r. }
  unfold signature_digest at 1 in H. destruct (expect_primitive t _ _) eqn:Ep; [|done]. cbn in H.
  apply expect_primitive_Ok in Ep. destruct (IH _ H) as (ds & -> & ->). exists (content t :: ds).
  rewrite <-app_assoc. split; [done|]. cbn. f_equal. exact Ep.
Qed.

Lemma parse_application_id_sound der names digests :
  bytes_ok der -> parse_application_id der = Ok (names, digests) -> application_of der names digests.
Proof.
  intros Hd H. unfold parse_application_id in H.
  destruct (read_tlv der) as [[top [|]]|] eqn:Er; [|done..]. cbn in H.
  apply read_whole in Er as [-> Ht]; [|done].
  destruct (expect_constructed top _ _) eqn:Ec; [|done]. cbn in H.
  destruct (children (content top)) as [sets|] eqn:Es; [|done]. cbn in H.
  apply children_spec in Es as [Hcon Hok]; [|by apply ok_content].
  apply (expect_constructed_Ok _ _ _ _ _ Ec) in Hcon. destruct sets as [|i [|g [|]]]; try done.
  apply Forall_cons in Hok as [Hi [Hg _]%Forall_cons].
  destruct (expect_constructed i _ _) eqn:Ei; [|done]. cbn in H.
  destruct (expect_constructed g _ _) eqn:Eg; [|done]. cbn in H.
  destruct (children (content i)) as [infos|] eqn:Eci; [|done]. cbn in H.
  destruct (try_fold package_info [] infos) as [ns|] eqn:En; [|done]. cbn in H.
  destruct (children (content g)) as [ds|] eqn:Ecg; [|done]. cbn in H.
  destruct (try_fold signature_digest [] ds) as [dg|] eqn:Edg; [|done]. injection H as -> ->.
  apply children_spec in Eci as [Hci Hinfos], Ecg as [Hcg _]; [|by apply ok_content..].
  apply (expect_constructed_Ok _ _ _ _ _ Ei) in Hci. apply (expect_constructed_Ok _ _ _ _ _ Eg) in Hcg.
  apply package_infos_sound in En as (? & -> & Hp); [|done].
  apply digests_sound in Edg as (? & -> & ->).
  exists infos. split; [done|]. by rewrite Hcon, Hci, Hcg.
Qed.

Lemma package_of_tag info name : package_of info name -> tag_ok info.
Proof. intros (_ & more & _ & ->). tag. Qed.

Lemma parse_application_id_complete der names digests :
  fits der -> application_of der names digests -> parse_application_id der = Ok (names, digests).
Proof.
  intros Hf (infos & Hp & ->). unfold parse_application_id.
  rewrite read_one by (done || tag). cbn [rbind]. rewrite expect_constructed_intro. cbn [rbind composite content].
  rewrite (read_children TAG_SEQUENCE) by (done || tags). cbn [rbind].
  rewrite !expect_constructed_intro. cbn [rbind composite content].
  pose proof (fits_tlvs _ (fits_content _ Hf)) as [Hi%fits_content [Hd%fits_content _]%Forall_cons]%Forall_cons.
  cbn [composite content] in Hi, Hd.
  rewrite children_complete; [|apply fits_all; [|done]]; cycle 1.
  { clear -Hp. induction Hp as [|i n infos names Hi _ IH]; [by apply Forall_nil|].
    apply Forall_cons; split; [by eapply package_of_tag|done]. }
  cbn [rbind]. rewrite (package_infos_complete _ names) by (done || by apply fits_tlvs). cbn [rbind].
  rewrite children_complete by (apply fits_all; [by apply Forall_fmap, Forall_true; intros; tag|done]).
  cbn [rbind]. by rewrite digests_complete.
Qed.

(** ** Every round of the reader's loop consumes input *)

#[local] Open Scope dub_scope.

Lemma high_form_consumes first num input n rest :
  high_form first num input = Ok (n, rest) -> (length rest < length input)%nat.
Proof.
  revert first num. induction input as [|b input IH]; intros first num H; [done|]. simpl in H.
  destruct (first && _); [done|]. destruct (u32_checked (num * 128) ≫= _) as [m|]; [|done].
  destruct (Z.land b 128 =? 0); [injection H as _ <-; simpl; lia|].
  apply IH in H. simpl. lia.
Qed.

Lemma long_form_consumes n first len input v rest :
  long_form n first len input = Ok (v, rest) -> (length rest <= length input)%nat.
Proof.
  revert first len input. induction n as [|n IH]; intros first len input H; [injection H as _ <-; done|].
  destruct input as [|b input]; [done|]. simpl in H. destruct (first && _); [done|].
  apply IH in H. simpl. lia.
Qed.

Lemma read_tlv_consumes input t rest :
  read_tlv input = Ok (t, rest) -> (2 + length (content t) + length rest <= length input)%nat.
Proof.
  destruct input as [|b0 input]; [done|]. unfold read_tlv.
  intros ([num r1] & E1 & ([len r2] & E2 & H)%rbind_ok)%rbind_ok.
  apply if_err_ok in H as [Hlen%Z.ltb_ge [= <- <-]].
  assert (length r1 <= length input)%nat as H1.
  { unfold read_number in E1. destruct (Z.land b0 31 =? 31); [|injection E1 as _ <-; done].
    apply rbind_ok in E1 as ([n r] & E & H). apply if_err_ok in H as [_ [= _ <-]].
    apply high_form_consumes in E. lia. }
  assert (length r2 < length r1)%nat as H2.
  { unfold read_length in E2. destruct r1 as [|l0 r1]; [done|].
    destruct (Z.land l0 128 =? 0); [injection E2 as _ <-; simpl; lia|].
    apply if_err_ok in E2 as [_ ([v r] & E & H)%rbind_ok].
    apply if_err_ok in H as [_ [= _ <-]]. apply long_form_consumes in E. simpl. lia. }
  cbn [content]. rewrite length_take, length_drop. simpl. lia.
Qed.

Lemma children_rounds_enough rounds input :
  (length input <= rounds)%nat -> children_rounds rounds input = children input.
Proof.
  assert (forall r1 r2 input, (length input <= r1)%nat -> (length input <= r2)%nat ->
            children_rounds r1 input = children_rounds r2 input) as Hind.
  { clear. induction r1 as [|r1 IH]; intros r2 input H1 H2.
    - destruct input; [by destruct r2|simpl in H1; lia].
    - destruct input as [|b input]; [by destruct r2|]. destruct r2 as [|r2]; [simpl in H2; lia|].
      cbn [children_rounds]. destruct (read_tlv (b :: input)) as [[t rest]|] eqn:E; [|done].
      apply read_tlv_consumes in E. cbn [rbind]. rewrite (IH r2); [done|simpl in *; lia..]. }
  intros Hr. by apply Hind.
Qed.

Lemma children_unfold input :
  children input =
    match input with
    | [] => Ok []
    | _ :: _ => let? (t, rest) := read_tlv input in let? out := children rest in Ok (t :: out)
    end.
Proof.
  destruct input as [|b input]; [done|]. unfold children at 1. cbn [length children_rounds].
  destruct (read_tlv (b :: input)) as [[t rest]|] eqn:E; [|done].
  apply read_tlv_consumes in E. cbn [rbind]. rewrite children_rounds_enough; [done|simpl in *; lia].
Qed.

(** The [while] loop of [children] terminates on every input: it satisfies the
    loop's own equation without any bound on its rounds, each round shortens what is
    left by at least two bytes and the content it returns, so the loop allocates at
    most one element for every two bytes of the certificate. *)
Theorem children_terminates input :
  children input =
    match input with
    | [] => Ok []
    | _ :: _ => let? (t, rest) := read_tlv input in let? out := children rest in Ok (t :: out)
    end
  /\ (forall t rest, read_tlv input = Ok (t, rest) ->
        (2 + length (content t) + length rest <= length input)%nat)
  /\ (forall out, children input = Ok out -> (2 * length out <= length input)%nat).
Proof.
  split_and!; [apply children_unfold|apply read_tlv_consumes|].
  induction (Nat.lt_wf_0_projected (@length Z) input) as [input _ IH].
  intros out H. rewrite children_unfold in H. destruct input as [|b input]; [by injection H as <-|].
  apply rbind_ok in H as ([t rest] & E & (l & El & [= <-])%rbind_ok).
  apply read_tlv_consumes in E. apply IH in El; [|simpl in *; lia]. simpl in *. lia.
Qed.

(** C39. The DER reader accepts exactly the distinguished encodings: a byte string
    splits into the values [l] if and only if it is the concatenation of their
    encodings, so no two byte strings read as the same values. *)
Theorem der_canonical input l :
  bytes_ok input -> children input = Ok l <-> input = encode_tlvs l /\ Forall tlv_ok l.
Proof. apply children_spec. Qed.

Lemma der_canonical_witness :
  bytes_ok [1; 1; 255; 191; 133; 64; 0] /\
  (children [1; 1; 255; 191; 133; 64; 0]
     = Ok [boolean true; {| class := 2; constructed := true; number := 704; content := [] |}] <->
   [1; 1; 255; 191; 133; 64; 0]
     = encode_tlvs [boolean true; {| class := 2; constructed := true; number := 704; content := [] |}] /\
   Forall tlv_ok [boolean true; {| class := 2; constructed := true; number := 704; content := [] |}]).
Proof.
  assert (bytes_ok [1; 1; 255; 191; 133; 64; 0]) as H.
  { unfold bytes_ok, is_byte, U8_MAX. repeat (apply Forall_cons; split; [lia|]). by apply Forall_nil. }
  split; [exact H|]. exact (der_canonical _ _ H).
Defined.

(** ** The parser reads exactly the grammar *)

Lemma parse_complete v d : bytes_ok v -> describes v d -> parse v = Ok d.
Proof.
  intros Hv (f0 & att & f2 & key & f5 & software & hardware & more & sw_app & sw_rot & hw_app & app_id &
             -> & Hlen & Ht & [Hal Ha] & [Hkl Hk] & Hsw & Hhw & Happ & Hof).
  apply Forall_cons in Ht as [H0 [H2 [H5 [Hm [Hs Hh]%Forall_app]%Forall_app]%Forall_cons]%Forall_cons].
  set (fields := f0 :: _) in *.
  assert (fits (encode_tlvs fields)) as Hf
    by (split; [|done]; unfold encode_tlv in Hv; by apply Forall_app in Hv as [_ [_ H]%Forall_app]).
  assert (Forall tlv_ok fields) as Hok.
  { apply fits_all; [|done]. by repeat (apply Forall_cons; split; [done || tag|]). }
  assert (tlv_ok (composite TAG_SEQUENCE fields)) as Htop by (by constructor; [| |apply Hf|]).
  unfold parse. rewrite <-(app_nil_r (encode_tlv _)), read_tlv_complete by done. cbn [rbind].
  rewrite expect_constructed_intro. cbn [rbind composite content]. rewrite children_complete by done.
  cbn [rbind fields].
  apply fits_tlvs in Hf. unfold fields in Hf. apply Forall_cons in Hf as [_ [Hfa%fits_content Hf]%Forall_cons].
  apply Forall_cons in Hf as [_ [Hfk%fits_content [_ [_ Hf]%Forall_cons]%Forall_cons]%Forall_cons].
  apply Forall_cons in Hf as [Hfs%fits_content [Hfh%fits_content _]%Forall_cons].
  cbn [primitive composite content] in Hfa, Hfk, Hfs, Hfh.
  rewrite expect_primitive_intro, as_u64_intro by (apply Hfa || done). cbn [rbind].
  rewrite expect_primitive_intro, as_u64_intro by (apply Hfk || done). cbn [rbind].
  unfold octets at 1. rewrite expect_primitive_intro. cbn [rbind].
  rewrite (proj2 (parse_authorization_list_exact _ _ _ Hs Hfs) Hsw). cbn [rbind].
  rewrite (proj2 (parse_authorization_list_exact _ _ _ Hh Hfh) Hhw). cbn [rbind application_id al_root_of_trust].
  assert (fits app_id) as Hfit.
  { destruct Happ as [->|[_ ->]]; [exact (listed_fits _ _ _ Hfs Hsw)|exact (listed_fits _ _ _ Hfh Hhw)]. }
  replace (match sw_app with Some a => Some a | None => hw_app end) with (Some app_id)
    by (destruct Happ as [->|[-> ->]]; done).
  rewrite (parse_application_id_complete _ _ _ Hfit Hof). cbn [rbind octets primitive content].
  rewrite <-Ha, <-Hk. by destruct d.
Qed.

Lemma parse_sound v d : bytes_ok v -> parse v = Ok d -> describes v d.
Proof.
  intros Hv ([top [|]] & Er & H)%rbind_ok; [|done].
  apply read_whole in Er as [-> Ht]; [|done].
  apply rbind_ok in H as (u & Ec & (fields & Ef & H)%rbind_ok).
  apply children_spec in Ef as [Hcon Hok]; [|by apply ok_content].
  pose proof (ok_fits _ Ht) as [_ Hlen].
  destruct fields as [|f0 [|f1 [|f2 [|f3 [|f4 [|f5 [|f6 [|f7 more]]]]]]]]; try done.
  apply rbind_ok in H as (? & E1%expect_primitive_Ok & (att & Ea & H)%rbind_ok).
  apply rbind_ok in H as (? & E3%expect_primitive_Ok & (key & Ek & H)%rbind_ok).
  apply rbind_ok in H as (? & E4%expect_primitive_Ok & ([sa sr] & Es & H)%rbind_ok).
  apply rbind_ok in H as ([ha hr] & Eh & H).
  destruct (match application_id _ with Some _ => _ | None => _ end) as [app_id|] eqn:Eapp; [|done].
  apply rbind_ok in H as ([names digests] & Ep & [= <-]).
  apply Forall_cons in Hok as [H0 [H1 [H2 [H3 [_ Hok]%Forall_cons]%Forall_cons]%Forall_cons]%Forall_cons].
  apply Forall_cons in Hok as [H5 [H6 [H7 Hm]%Forall_cons]%Forall_cons].
  apply as_u64_Ok in Ea, Ek; [|by apply ok_content..].
  destruct (parse_authorization_list_entries _ _ H6 Es) as (sl & -> & Hst & Hsf).
  destruct (parse_authorization_list_entries _ _ H7 Eh) as (hl & -> & Hht & Hhf).
  apply parse_authorization_list_exact in Es, Eh; [|done..].
  exists f0, (content f1), f2, (content f3), f5, sl, hl, more, sa, sr, ha, app_id.
  cbn [attestation_security_level key_security_level attestation_challenge package_names signing_digests
       root_of_trust al_root_of_trust application_id] in *.
  unfold octets. rewrite <-E1, <-E3, <-E4, <-Hcon. cbv zeta.
  split_and!; [|done| |done|done|done|done| |].
  - by rewrite (expect_constructed_Ok _ _ _ _ _ Ec Hcon) at 1.
  - do 3 (apply Forall_cons; split; [by apply tlv_tag|]).
    apply Forall_app; split; [by apply tlv_tags|by apply Forall_app].
  - destruct sa; [left; done|right; done].
  - apply parse_application_id_sound; [|done].
    destruct sa as [a|]; [injection Eapp as ->; exact (proj1 (listed_fits _ _ _ Hsf Es))|].
    rewrite Eapp in Eh. exact (proj1 (listed_fits _ _ _ Hhf Eh)).
Qed.

(** *** A description to run on *)

(** The extension the tests of the parser build ([key_description] of
    [extension.rs]), a version in the package, with further entries of the kind
    devices list around those the service reads. *)
Definition fixture (d : KeyDescription) (name : string) (state : Z) (boot_key : bytes) : bytes :=
  let integer v := primitive 2 [v] in
  let package := composite TAG_SEQUENCE [octets (as_bytes name); integer 1] in
  let app_id := composite TAG_SEQUENCE [composite TAG_SET [package]; composite TAG_SET (octets <$> signing_digests d)] in
  let root := composite TAG_SEQUENCE
    [octets boot_key; boolean true; primitive TAG_ENUMERATED [state]; octets [5; 5]] in
  encode_tlv (composite TAG_SEQUENCE
    [integer 100; primitive TAG_ENUMERATED [attestation_security_level d];
     integer 100; primitive TAG_ENUMERATED [key_security_level d];
     octets (attestation_challenge d); octets [];
     composite TAG_SEQUENCE
       [explicit 701 (integer 9); explicit TAG_ATTESTATION_APPLICATION_ID (octets (encode_tlv app_id))];
     composite TAG_SEQUENCE
       [explicit 1 (composite TAG_SET [integer 2]); explicit 2 (integer 3);
        explicit TAG_ROOT_OF_TRUST root; explicit 705 (integer 7)]]).

Definition demo_description : KeyDescription :=
  {| attestation_security_level := 1; key_security_level := 2; attestation_challenge := [17; 34];
     package_names := ["io.pcf.polkadotapp"%string]; signing_digests := [[7; 7; 7]];
     root_of_trust := Some {| verified_boot_key := [9; 9]; device_locked := true; verified_boot_state := 0 |} |}.
Definition demo_extension : bytes := fixture demo_description "io.pcf.polkadotapp" 0 [9; 9].

Lemma demo_extension_ok : bytes_ok demo_extension.
Proof. apply (bool_decide_unpack _). vm_compute. exact I. Qed.

(** C38. The key-description parser reads exactly the extension's grammar
    ([describes]): an extension value is accepted, and read as [d], if and only if
    it is one sequence of at least eight fields, of content that four length octets
    can count, with the levels and the challenge of [d] in their places, two
    authorization lists, and nothing after it, where the lists may hold any other entries in any order, a root of trust and a package any
    further fields (a boot hash, a version), the application id is the last one of
    the software-enforced list, or of the hardware-enforced list when the former has
    none, it lists the names (as UTF-8) and the digests of [d] in order, and the root
    of trust is the last one of the hardware-enforced list. *)
Theorem parse_exact v d : bytes_ok v -> parse v = Ok d <-> describes v d.
Proof. intros Hv. split; [by apply parse_sound|by apply parse_complete]. Qed.

Lemma parse_exact_witness :
  bytes_ok demo_extension /\ parse demo_extension = Ok demo_description /\ describes demo_extension demo_description.
Proof.
  split; [exact demo_extension_ok|].
  assert (parse demo_extension = Ok demo_description) as Hp by (vm_compute; reflexivity).
  split; [exact Hp|]. exact (proj1 (parse_exact demo_extension demo_description demo_extension_ok) Hp).
Defined.
End DerProps.
