(* ===== verification/KeyAttest.v ===== *)
(** * KeyAttest: Android key attestation ([auth/key_attest/], [auth/x509.rs])

    Certificates as the [x509_parser] crate reads them, the signature dispatch of
    [x509.rs], the chain and policy checks of [key_attest/verify.rs], the body
    format ([key_attest.rs]) and the revocation-list cache ([key_attest/crl.rs]).
    X.509 parsing, the hashes and the signature schemes are parameters. *)

From stdpp Require Import pretty.
From S2P Require Import Prelude Strings Der.

#[local] Open Scope string_scope.
#[local] Open Scope Z_scope.

(** ** [x509.rs] *)

Module X509.

(** What the accessors of [X509Certificate] return. *)
Record Cert := {
  subject : bytes;
  issuer : bytes;
  not_before : Z;
  not_after : Z;
  signature_algorithm : string;
  tbs_certificate : bytes;
  signature_value : bytes;
  public_key : bytes;
  key_curve : option string;
  (** [Ok(Some(usage))]: [digital_signature] and [key_cert_sign]. *)
  key_usage : option (bool * bool);
  (** [serial.to_str_radix(16)], [serial.to_str_radix(10)] and [raw_serial]. *)
  serial_hex : string;
  serial_decimal : string;
  raw_serial : bytes;
  extensions : list (string * bytes);
}.

(** The crates behind it; a parsed key or signature is represented by its bytes. *)
Record Crypto := {
  from_der : bytes -> result Cert string;
  asn1_from_timestamp : Z -> result Z string;
  sha256 : bytes -> bytes;
  sha384 : bytes -> bytes;
  rsa_from_pkcs1_der : bytes -> result bytes string;
  (** [rsa_verify sha384 key prehash signature]. *)
  rsa_verify : bool -> bytes -> bytes -> bytes -> bool;
  p256_key : bytes -> result bytes string;
  p256_signature : bytes -> result bytes string;
  p256_verify_prehash : bytes -> bytes -> bytes -> bool;
  p384_key : bytes -> result bytes string;
  p384_signature : bytes -> result bytes string;
  p384_verify_prehash : bytes -> bytes -> bytes -> bool;
}.

Definition ECDSA_WITH_SHA256 : string := "1.2.840.10045.4.3.2".
Definition ECDSA_WITH_SHA384 : string := "1.2.840.10045.4.3.3".
Definition SHA256_WITH_RSA : string := "1.2.840.113549.1.1.11".
Definition SHA384_WITH_RSA : string := "1.2.840.113549.1.1.12".
Definition CURVE_P256 : string := "1.2.840.10045.3.1.7".
Definition CURVE_P384 : string := "1.3.132.0.34".

Section x509.
Context (cr : Crypto).
#[local] Open Scope dub_scope.

Definition is_valid_at (c : Cert) (at_ : Z) : bool := (not_before c <=? at_) && (at_ <=? not_after c).

Definition check_validity (cert : Cert) (now_unix : Z) : result unit string :=
  let? at_ := map_err (fun e => "timestamp: " +:+ e) (asn1_from_timestamp cr now_unix) in
  if is_valid_at cert at_ then Ok tt else Err "certificate outside validity window".

Definition ecdsa_verified (key_of sig_of : bytes -> result bytes string)
    (verify : bytes -> bytes -> bytes -> bool) (curve : string) (key_bytes prehash signature : bytes)
    : result bool string :=
  let? key := map_err (fun e => "parent " +:+ curve +:+ " key: " +:+ e) (key_of key_bytes) in
  let? sig := map_err (fun e => "signature: " +:+ e) (sig_of signature) in
  Ok (verify key prehash sig).

Definition verify_signed_by (child parent : Cert) : result unit string :=
  let sig_alg := signature_algorithm child in
  let tbs := tbs_certificate child in
  let? prehash :=
    (if String.eqb sig_alg ECDSA_WITH_SHA256 || String.eqb sig_alg SHA256_WITH_RSA then Ok (sha256 cr tbs)
     else if String.eqb sig_alg ECDSA_WITH_SHA384 || String.eqb sig_alg SHA384_WITH_RSA then Ok (sha384 cr tbs)
     else Err ("unsupported signature alg " +:+ sig_alg)) in
  let signature := signature_value child in
  let key_bytes := public_key parent in
  let? verified :=
    (if String.eqb sig_alg SHA256_WITH_RSA || String.eqb sig_alg SHA384_WITH_RSA then
       let? key := map_err (fun e => "parent RSA key: " +:+ e) (rsa_from_pkcs1_der cr key_bytes) in
       Ok (rsa_verify cr (negb (String.eqb sig_alg SHA256_WITH_RSA)) key prehash signature)
     else
       match key_curve parent with
       | None => Err "parent key has no curve"
       | Some curve =>
           if String.eqb curve CURVE_P256 then
             ecdsa_verified (p256_key cr) (p256_signature cr) (p256_verify_prehash cr) "P-256"
               key_bytes prehash signature
           else if String.eqb curve CURVE_P384 then
             ecdsa_verified (p384_key cr) (p384_signature cr) (p384_verify_prehash cr) "P-384"
               key_bytes prehash signature
           else Err ("unsupported curve " +:+ curve)
       end) in
  if (verified : bool) then Ok tt else Err "signature verification failed".

Definition find_extension (oid : string) (cert : Cert) : option bytes :=
  first_some (fun ext : string * bytes => if String.eqb ext.1 oid then Some ext.2 else None)
    (extensions cert).
End x509.
End X509.

(** ** [key_attest/verify.rs] *)

Module KeyAttest.
Export X509.
Import Der.

Definition MAX_CHAIN_LENGTH : nat := 10.

Definition GOOGLE_ROOT_CA_RSA_B64 : string :=
  "MIIFHDCCAwSgAwIBAgIJAPHBcqaZ6vUdMA0GCSqGSIb3DQEBCwUAMBsxGTAXBgNVBAUTEGY5MjAwOWU4NTNiNmIw" +:+
  "NDUwHhcNMjIwMzIwMTgwNzQ4WhcNNDIwMzE1MTgwNzQ4WjAbMRkwFwYDVQQFExBmOTIwMDllODUzYjZiMDQ1MIIC" +:+
  "IjANBgkqhkiG9w0BAQEFAAOCAg8AMIICCgKCAgEAr7bHgiuxpwHsK7Qui8xUFmOr75gvMsd/dTEDDJdSSxtf6An7" +:+
  "xyqpRR90PL2abxM1dEqlXnf2tqw1Ne4Xwl5jlRfdnJLmN0pTy/4lj4/7tv0Sk3iiKkypnEUtR6WfMgH0QZfKHM1+" +:+
  "di+y9TFRtv6y//0rb+T+W8a9nsNL/ggjnar86461qO0rOs2cXjp3kOG1FEJ5MVmFmBGtnrKpa73XpXyTqRxB/M0n" +:+
  "1n/W9nGqC4FSYa04T6N5RIZGBN2z2MT5IKGbFlbC8UrW0DxW7AYImQQcHtGl/m00QLVWutHQoVJYnFPlXTcHYvAS" +:+
  "Lu+RhhsbDmxMgJJ0mcDpvsC4PjvB+TxywElgS70vE0XmLD+OJtvsBslHZvPBKCOdT0MS+tgSOIfga+z1Z1g7+DVa" +:+
  "gf7quvmag8jfPioyKvxnK/EgsTUVi2ghzq8wm27ud/mIM7AY2qEORR8Go3TVB4HzWQgpZrt3i5MIlCaY504LzSRi" +:+
  "igHCzAPlHws+W0rB5N+er5/2pJKnfBSDiCiFAVtCLOZ7gLiMm0jhO2B6tUXHI/+MRPjy02i59lINMRRev56GKtcd" +:+
  "9qO/0kUJWdZTdA2XoS82ixPvZtXQpUpuL12ab+9EaDK8Z4RHJYYfCT3Q5vNAXaiWQ+8PTWm2QgBR/bkwSWc+NpUF" +:+
  "gNPN9PvQi8WEg5UmAGMCAwEAAaNjMGEwHQYDVR0OBBYEFDZh4QB8iAUJUYtEbEf/GkzJ6k8SMB8GA1UdIwQYMBaA" +:+
  "FDZh4QB8iAUJUYtEbEf/GkzJ6k8SMA8GA1UdEwEB/wQFMAMBAf8wDgYDVR0PAQH/BAQDAgIEMA0GCSqGSIb3DQEB" +:+
  "CwUAA4ICAQB8cMqTllHc8U+qCrOlg3H7174lmaCsbo/bJ0C17JEgMLb4kvrqsXZs01U3mB/qABg/1t5Pd5AORHAR" +:+
  "s1hhqGICW/nKMav574f9rZN4PC2ZlufGXb7sIdJpGiO9ctRhiLuYuly10JccUZGEHpHSYM2GtkgYbZba6lsCPYAA" +:+
  "P83cyDV+1aOkTf1RCp/lM0PKvmxYN10RYsK631jrleGdcdkxoSK//mSQbgcWnmAEZrzHoF1/0gso1HZgIn0YLzVh" +:+
  "LSA/iXCX4QT2h3J5z3znluKG1nv8NQdxei2DIIhASWfu804CA96cQKTTlaae2fweqXjdN1/v2nqOhngNyz1361mF" +:+
  "mr4XmaKH/ItTwOe72NI9ZcwS1lVaCvsIkTDCEXdm9rCNPAY10iTunIHFXRh+7KPzlHGewCq/8TOohBRn0/NNfh7u" +:+
  "RslOSZ/xKbN9tMBtw37Z8d2vvnXq/YWdsm1+JLVwn6yYD/yacNJBlwpddla8eaVMjsF6nBnIgQOf9zKSe06nSTqv" +:+
  "gwUHosgOECZJZ1EuzbH4yswbt02tKtKEFhx+v+OTge/06V+jGsqTWLsfrOCNLuA8H++z+pUENmpqnnHovaI47gC+" +:+
  "TNpkgYGkkBT6B/m/U01BuOBBTzhIlMEZq9qkDWuM2cA5kW5V3FJUcfHnw1IdYIg2Wxg7yHcQZemFQg==".

Definition GOOGLE_ROOT_CA_ECDSA_B64 : string :=
  "MIICIjCCAaigAwIBAgIRAISp0Cl7DrWK5/8OgN52BgUwCgYIKoZIzj0EAwMwUjEcMBoGA1UEAwwTS2V5IEF0dGVz" +:+
  "dGF0aW9uIENBMTEQMA4GA1UECwwHQW5kcm9pZDETMBEGA1UECgwKR29vZ2xlIExMQzELMAkGA1UEBhMCVVMwHhcN" +:+
  "MjUwNzE3MjIzMjE4WhcNMzUwNzE1MjIzMjE4WjBSMRwwGgYDVQQDDBNLZXkgQXR0ZXN0YXRpb24gQ0ExMRAwDgYD" +:+
  "VQQLDAdBbmRyb2lkMRMwEQYDVQQKDApHb29nbGUgTExDMQswCQYDVQQGEwJVUzB2MBAGByqGSM49AgEGBSuBBAAi" +:+
  "A2IABCPaI3FO3z5bBQo8cuiEas4HjqCtG/mLFfRT0MsIssPBEEU5Cfbt6sH5yOAxqEi5QagpU1yX4HwnGb7OtBYp" +:+
  "DTB57uH5Eczm34A5FNijV3s0/f0UPl7zbJcTx6xwqMIRq6NCMEAwDwYDVR0TAQH/BAUwAwEB/zAOBgNVHQ8BAf8E" +:+
  "BAMCAQYwHQYDVR0OBBYEFFIyuyz7RkOb3NaBqQ5lZuA0QepAMAoGCCqGSM49BAMDA2gAMGUCMETfjPO/HwqReR2C" +:+
  "S7p0ZWoD/LHs6hDi422opifHEUaYLxwGlT9SLdjkVpz0UUOR5wIxAIoGyxGKRHVTpqpGRFiJtQEOOTp/+s1GcxeY" +:+
  "uR2zh/80lQyu9vAFCj6E4AXc+osmRg==".
Definition GRAPHENEOS_VERIFIED_BOOT_KEYS : list string :=
  ["d8f879d10419eddc9fcda6280718be763f6bf12299e1f72df3ea8ad8a8eb7f80";
   "55a2d44103e56d5ec65496399c417987ba77730e6488fc60ba058d09fc3caee3";
   "141d7fc32af7958a416f2661b37cf6f27bfb376fb5ce616aeaa27a82c7a04f74";
   "4e8ee8f717754052198ca6d2d3aaa232e2461b4293c0d6f297e519cc778de093";
   "3f7415ea26f5df5b14ea6d153256071a7a1af9ce7b0970b7311cc463c7ea02c7";
   "0508de44ee00bfb49ece32c418af1896391abde0f05b64f41bc9a2dfb589445b";
   "af4d2c6e62be0fec54f0271b9776ff061dd8392d9f51cf6ab1551d346679e24c";
   "55d3c2323db91bb91f20d38d015e85112d038f6b6b5738fe352c1a80dba57023";
   "f729cab861da1b83fdfab402fc9480758f2ae78ee0b61c1f2137dd1ab7076e86";
   "9e6a8f3e0d761a780179f93acd5721ba1ab7c8c537c7761073c0a754b0e932de";
   "096b8bd6d44527a24ac1564b308839f67e78202185cbff9cfdcb10e63250bc5e";
   "896db2d09d84e1d6bb747002b8a114950b946e5825772a9d48ba7eb01d118c1c";
   "cd7479653aa88208f9f03034810ef9b7b0af8a9d41e2000e458ac403a2acb233";
   "ee0c9dfef6f55a878538b0dbf7e78e3bc3f1a13c8c44839b095fe26dd5fe2842";
   "94df136e6c6aa08dc26580af46f36419b5f9baf46039db076f5295b91aaff230";
   "508d75dea10c5cbc3e7632260fc0b59f6055a8a49dd84e693b6d8899edbb01e4";
   "bc1c0dd95664604382bb888412026422742eb333071ea0b2d19036217d49182f";
   "3efe5392be3ac38afb894d13de639e521675e62571a8a9b3ef9fc8c44fd17fa1";
   "08c860350a9600692d10c8512f7b8e80707757468e8fbfeea2a870c0a83d6031";
   "439b76524d94c40652ce1bf0d8243773c634d2f99ba3160d8d02aa5e29ff925c";
   "f0a890375d1405e62ebfd87e8d3f475f948ef031bbf9ddd516d5f600a23677e8"].

Definition KNOWN_PUBLIC_VERIFIED_BOOT_KEYS : list string :=
  ["22de3994532196f61c039e90260d78a93a4c57362c7e789be928036e80b77c8c";
   "7728e30f50bfa5cea165f473175a08803f6a8346642b5aa10913e9d9e6defef6";
   "e15e2365469ce672a91d02cc8d9c2f29b787481e574d3b56ac774153d7ced614"].

(** [expect]: the pinned constants decode. *)
Definition google_roots_der (b64_decode : string -> option bytes) : list bytes :=
  omap b64_decode [GOOGLE_ROOT_CA_RSA_B64; GOOGLE_ROOT_CA_ECDSA_B64].

Definition BOOT_STATE_VERIFIED : Z := 0.
Definition BOOT_STATE_SELF_SIGNED : Z := 1.

Record VerifyParams := {
  vp_challenge : bytes;
  vp_package_names : list string;
  vp_playstore_digest : bytes;
  vp_website_digest : bytes;
  trusted_roots_der : list bytes;
  trusted_verified_boot_keys : list string;
  revoked_serials : gset string;
  now_unix : Z;
}.

Inductive KeyAttestError :=
| Malformed (m : string)
| Chain (m : string)
| RootNotTrusted
| Revoked (serial : string)
| Extension (m : string)
| SecurityLevel (attestation key : Z)
| RootOfTrustRejected (m : string)
| Challenge
| Package (name : string)
| SigningDigest (m : string).

(** [Display]. *)
Definition to_string (e : KeyAttestError) : string :=
  match e with
  | Malformed m => "malformed attestation chain: " +:+ m
  | Chain m => "certificate chain rejected: " +:+ m
  | RootNotTrusted => "chain does not terminate at a trusted Google root"
  | Revoked serial => "certificate serial " +:+ serial +:+ " is revoked"
  | Extension m => "key-description extension rejected: " +:+ m
  | SecurityLevel a k =>
      "attestation security level " +:+ pretty a +:+ "/" +:+ pretty k +:+ " is not TEE or StrongBox"
  | RootOfTrustRejected m => "root of trust rejected: " +:+ m
  | Challenge => "attestation challenge mismatch"
  | Package name => "attested package " +:+ debug_str name +:+ " is not allow-listed"
  | SigningDigest m => "signing digest rejected: " +:+ m
  end.

Section verify.
Context (cr : Crypto).
#[local] Open Scope dub_scope.

Definition find_attestation_extension (cert : Cert) : option bytes :=
  find_extension ANDROID_ATTESTATION_OID cert.

Definition check_key_usage (cert : Cert) (index len : nat) : result unit string :=
  match key_usage cert with
  | None => Ok tt
  | Some (digital_signature, key_cert_sign) =>
      let is_leaf := (index =? 0)%nat in
      let is_intermediate := ((0 <? index) && (index <? len - 1))%nat in
      if is_leaf && negb digital_signature then
        Err ("leaf certificate " +:+ pretty index +:+ " missing digitalSignature")
      else if is_intermediate && negb key_cert_sign then
        Err ("intermediate certificate " +:+ pretty index +:+ " missing keyCertSign")
      else Ok tt
  end.

Definition check_revocation (cert : Cert) (revoked : gset string) : result unit KeyAttestError :=
  if existsb (fun candidate => bool_decide (candidate ∈ revoked))
       [serial_hex cert; hex_encode (raw_serial cert); serial_decimal cert]
  then Err (Revoked (serial_hex cert)) else Ok tt.

Definition contains_str (s : string) (l : list string) : bool := existsb (String.eqb s) l.

Definition check_boot (rot : RootOfTrust) (trusted : list string) : result unit KeyAttestError :=
  let key_hex := hex_encode (verified_boot_key rot) in
  if contains_str key_hex KNOWN_PUBLIC_VERIFIED_BOOT_KEYS then
    Err (RootOfTrustRejected ("known-public AVB test key " +:+ key_hex))
  else
    let? _ :=
      (if verified_boot_state rot =? BOOT_STATE_VERIFIED then Ok tt
       else if verified_boot_state rot =? BOOT_STATE_SELF_SIGNED then
         (if contains_str key_hex trusted then Ok tt
          else Err (RootOfTrustRejected ("untrusted self-signed verified-boot key " +:+ key_hex)))
       else Err (RootOfTrustRejected ("verified boot state " +:+ pretty (verified_boot_state rot)
                                      +:+ " is not Verified or SelfSigned"))) in
    if device_locked rot then Ok tt else Err (RootOfTrustRejected "bootloader is not locked").

Definition check_digest (digests : list bytes) (params : VerifyParams) : result unit KeyAttestError :=
  match digests with
  | [digest] =>
      if bool_decide (digest = vp_playstore_digest params) || bool_decide (digest = vp_website_digest params)
      then Ok tt else Err (SigningDigest ("unknown digest " +:+ hex_encode digest))
  | _ => Err (SigningDigest ("expected one attested digest, got " +:+ pretty (length digests)))
  end.

Definition level_ok (level : Z) : bool := (level =? 1) || (level =? 2).

Definition check_policy (description : KeyDescription) (params : VerifyParams)
    : result unit KeyAttestError :=
  if negb (level_ok (attestation_security_level description))
     || negb (level_ok (key_security_level description)) then
    Err (SecurityLevel (attestation_security_level description) (key_security_level description))
  else
    match root_of_trust description with
    | None => Err (RootOfTrustRejected "missing")
    | Some rot =>
        let? _ := check_boot rot (trusted_verified_boot_keys params) in
        if negb (bool_decide (attestation_challenge description = vp_challenge params)) then Err Challenge
        else
          match package_names description with
          | [] => Err (Package EmptyString)
          | names =>
              let? _ := for_each (fun _ name =>
                if contains_str name (vp_package_names params) then Ok tt else Err (Package name)) 0 names in
              check_digest (signing_digests description) params
          end
    end.

(** Each certificate with its successor. *)
Definition links (certs : list Cert) : list (Cert * Cert) := zip certs (tail certs).

Definition check_cert (params : VerifyParams) (len : nat) (i : nat) (cert : Cert)
    : result unit KeyAttestError :=
  let? _ := map_err (fun e => Chain ("certificate " +:+ pretty i +:+ ": " +:+ e))
              (check_validity cr cert (now_unix params)) in
  let? _ := map_err Chain (check_key_usage cert i len) in
  check_revocation cert (revoked_serials params).

Definition trusted_by (chain_root : Cert) (der : bytes) : bool :=
  match from_der cr der with
  | Ok root => is_ok (verify_signed_by cr chain_root root)
  | Err _ => false
  end.

(** [certs[0].subject() == certs[0].issuer()]: a root-first chain is turned round. *)
Definition leaf_first (certs : list Cert) : list Cert :=
  match certs with
  | c0 :: _ => if bool_decide (subject c0 = issuer c0) then rev certs else certs
  | [] => certs
  end.

Definition verify_chain (chain_der : list bytes) (params : VerifyParams) : result unit KeyAttestError :=
  if ((length chain_der <? 2) || (MAX_CHAIN_LENGTH <? length chain_der))%nat then
    Err (Malformed ("chain length " +:+ pretty (length chain_der) +:+ " outside 2..=10"))
  else
    let? parsed := try_map (fun i der =>
      map_err (fun e => Malformed ("certificate " +:+ pretty i +:+ ": " +:+ e)) (from_der cr der)) 0 chain_der in
    let certs := leaf_first parsed in
    let? _ := for_each (fun i (l : Cert * Cert) =>
      if bool_decide (issuer l.1 = subject l.2) then Ok tt
      else Err (Chain ("certificate " +:+ pretty i +:+ " issuer does not match certificate "
                       +:+ pretty (S i) +:+ " subject"))) 0 (links certs) in
    let? _ := for_each (check_cert params (length certs)) 0 certs in
    let? _ := for_each (fun i (l : Cert * Cert) =>
      map_err (fun e => Chain ("certificate " +:+ pretty i +:+ ": " +:+ e)) (verify_signed_by cr l.1 l.2))
      0 (links certs) in
    if negb (match last certs with
             | Some chain_root => existsb (trusted_by chain_root) (trusted_roots_der params)
             | None => false
             end) then Err RootNotTrusted
    else
      let? _ := for_each (fun _ cert =>
        match find_attestation_extension cert with
        | Some _ => Err (Extension "key-description extension on a non-leaf certificate")
        | None => Ok tt
        end) 0 (tail certs) in
      match head certs ≫= find_attestation_extension with
      | None => Err (Extension "leaf has no key-description extension")
      | Some ext_value =>
          let? description := map_err Extension (parse ext_value) in
          check_policy description params
      end.
End verify.

(** ** [key_attest.rs] *)

Definition MIN_CHAIN_ENTRIES : nat := 2.
Definition MAX_CHAIN_ENTRIES : nat := 10.
Definition MAX_ENTRY_CHARS : nat := Z.to_nat 8192.

(** [parse_body] is the derived decoder of the body: its [attestationChain] field. *)
Definition chain_from_body (parse_body : bytes -> result (option (list string)) string)
    (b64_decode : string -> option bytes) (body : bytes) : result (list bytes) string :=
  rbind (map_err (fun e => "body is not valid JSON: " +:+ e) (parse_body body)) (fun field =>
    match field with
    | None => Err "body has no attestationChain field"
    | Some chain =>
        if ((length chain <? MIN_CHAIN_ENTRIES) || (MAX_CHAIN_ENTRIES <? length chain))%nat then
          Err ("attestationChain has " +:+ pretty (length chain) +:+ " entries, expected 2..=10")
        else
          try_map (fun i entry =>
            if (MAX_ENTRY_CHARS <? String.length entry)%nat then
              Err ("attestationChain[" +:+ pretty i +:+ "] exceeds 8192 chars")
            else
              match b64_decode (trim entry) with
              | None => Err ("attestationChain[" +:+ pretty i +:+ "] is not valid base64")
              | Some der => Ok der
              end) 0 chain
    end).
End KeyAttest.

(** ** [key_attest/crl.rs] *)

Module Crl.

Inductive CrlError := Fetch (m : string) | Parse (m : string).

Definition crl_error (e : CrlError) : string :=
  match e with
  | Fetch m => "attestation CRL fetch failed: " +:+ m
  | Parse m => "attestation CRL parse failed: " +:+ m
  end.

(** The keys of the [entries] object ([serde_json]) and [str::to_lowercase]. *)
Section crl.
Context (entries_of : bytes -> result (list string) string) (to_lowercase : string -> string).

Definition normalize (keys : list string) : gset string := list_to_set (to_lowercase <$> keys).

Definition parse_crl (body : bytes) : result (gset string) CrlError :=
  rbind (map_err Parse (entries_of body)) (fun keys => Ok (normalize keys)).

(** [fetch], with what the request gave: the body of a success, or the error. *)
Definition fetch (response : result bytes string) : result (gset string) CrlError :=
  rbind (map_err Fetch response) parse_crl.

Record Snapshot := { fetched_at : Z; serials : gset string }.

(** One call: the instant it looks at the cache, the response its fetch would get,
    and the instant after that fetch. *)
Record Call := { started : Z; response : result bytes string; finished : Z }.

(** [Instant::elapsed] saturates at zero. *)
Definition elapsed (now : Z) (s : Snapshot) : Z := Z.max 0 (now - fetched_at s).
Definition within_max_stale (age max_stale : Z) : bool := age <=? max_stale.

Context (ttl max_stale : Z).

(** The cache is locked for the whole call. *)
Definition revoked_serials (c : Call) (cache : option Snapshot)
    : result (gset string) CrlError * option Snapshot :=
  let fetched :=
    match fetch (response c) with
    | Ok s => (Ok s, Some {| fetched_at := finished c; serials := s |})
    | Err err =>
        match cache with
        | Some snapshot =>
            if within_max_stale (elapsed (finished c) snapshot) max_stale
            then (Ok (serials snapshot), cache) else (Err err, cache)
        | None => (Err err, cache)
        end
    end in
  match cache with
  | Some snapshot =>
      let age := elapsed (started c) snapshot in
      if (age <? ttl) && within_max_stale age max_stale then (Ok (serials snapshot), cache) else fetched
  | None => fetched
  end.

(** The cache after a sequence of calls. *)
Definition after (calls : list Call) : option Snapshot :=
  foldl (fun cache c => (revoked_serials c cache).2) None calls.

(** *** How old an answer can be *)

Definition from_fetch (s : Snapshot) (c : Call) : Prop :=
  fetch (response c) = Ok (serials s) /\ finished c = fetched_at s.

Lemma after_from_fetch calls s : after calls = Some s -> exists c, c ∈ calls /\ from_fetch s c.
Proof.
  induction calls as [|c calls IH] using rev_ind; [done|].
  unfold after. rewrite foldl_app. fold (after calls). cbn [foldl].
  assert ((revoked_serials c (after calls)).2 = after calls \/
          exists r, fetch (response c) = Ok r /\
            (revoked_serials c (after calls)).2 = Some {| fetched_at := finished c; serials := r |})
    as [->|(r & Hr & ->)].
  { unfold revoked_serials. destruct (fetch (response c)) as [r|e].
    - destruct (after calls) as [x|]; [case_match; [by left|]|]; right; by exists r.
    - left. destruct (after calls) as [x|]; [|done]. by repeat case_match. }
  - intros (c' & ? & ?)%IH. exists c'. rewrite elem_of_app. auto.
  - intros [= <-]. exists c. rewrite elem_of_app, list_elem_of_singleton. split; [by right|done].
Qed.

(** A revocation list that is served was fetched at most [max_stale] before the
    call starts, by an earlier call, or by this one; and a call refuses only when its
    fetch failed and nothing that recent is cached. *)
Theorem crl_bounded_staleness calls c :
  started c <= finished c ->
  match (revoked_serials c (after calls)).1 with
  | Ok s => exists c', (c' ∈ calls \/ c' = c) /\ fetch (response c') = Ok s /\
              (started c - finished c' <= max_stale \/ c' = c)
  | Err e => fetch (response c) = Err e /\
             forall s, after calls = Some s -> max_stale < Z.max 0 (finished c - fetched_at s)
  end.
Proof.
  intros Ht. pose proof (after_from_fetch calls) as Hf. unfold revoked_serials, within_max_stale, elapsed.
  destruct (after calls) as [x|].
  - destruct (Hf x eq_refl) as (c' & Hc & Hx & Hfin).
    assert (forall now, started c <= now -> Z.max 0 (now - fetched_at x) <= max_stale ->
      started c - finished c' <= max_stale) by lia.
    destruct (_ && _) eqn:E; cbn.
    { bool_prop. exists c'. split_and!; [by left|done|left; lia]. }
    destruct (fetch (response c)) as [r|e] eqn:Er; cbn; [exists c; by eauto|].
    destruct (Z.leb_spec (Z.max 0 (finished c - fetched_at x)) max_stale); cbn.
    + exists c'. split_and!; [by left|done|left; lia].
    + split; [done|]. intros s [= <-]. lia.
  - destruct (fetch (response c)) as [r|e] eqn:Er; cbn; [exists c; by eauto|]. by split.
Qed.
End crl.

(** A list of one serial, fetched at instant 100; at 250 the fetch fails. *)
Definition demo_calls : list Call :=
  [{| started := 90; response := Ok [1]; finished := 100 |}].
Definition demo_call : Call :=
  {| started := 240; response := Err "timeout"; finished := 250 |}.
Definition demo_entries (_ : bytes) : result (list string) string := Ok ["ABC"].

Lemma crl_bounded_staleness_witness :
  started demo_call <= finished demo_call /\
  (revoked_serials demo_entries (fun s => s) 60 200 demo_call
     (after demo_entries (fun s => s) 60 200 demo_calls)).1 = Ok {["ABC"]} /\
  exists c', fetch demo_entries (fun s => s) (response c') = Ok {["ABC"]} /\
    (started demo_call - finished c' <= 200 \/ c' = demo_call).
Proof.
  split; [vm_compute; discriminate|].
  assert ((revoked_serials demo_entries (fun s => s) 60 200 demo_call
     (after demo_entries (fun s => s) 60 200 demo_calls)).1 = Ok {["ABC"]}) as E by (vm_compute; reflexivity).
  split; [exact E|].
  pose proof (crl_bounded_staleness demo_entries (fun s => s) 60 200 demo_calls demo_call
                ltac:(vm_compute; discriminate)) as H.
  rewrite E in H. destruct H as (c' & _ & Hf & Hs). exists c'. split; [exact Hf|exact Hs].
Defined.
End Crl.
