(* ===== verification/KeyAttestProps.v ===== *)
(** * KeyAttestProps: what an accepted attestation chain is

    [chain_ok] states the acceptance policy without the order of the checks;
    [verify_chain] accepts exactly the chains that satisfy it. *)

From S2P Require Import Prelude Strings Der DerProps KeyAttest.

#[local] Open Scope Z_scope.

Module KeyAttestProps.
Export KeyAttest.
Import Der.

Section spec.
Context (cr : Crypto) (params : VerifyParams).

(** [cert], at position [i] of [len], may be part of a chain now. *)
Record cert_ok (len i : nat) (cert : Cert) : Prop := {
  co_valid : exists at_, asn1_from_timestamp cr (now_unix params) = Ok at_ /\
               not_before cert <= at_ <= not_after cert;
  co_usage : forall signs certifies, key_usage cert = Some (signs, certifies) ->
               (i = 0%nat -> signs = true) /\ ((0 < i < len - 1)%nat -> certifies = true);
  co_revoked : (serial_hex cert ∉ revoked_serials params) /\
               (hex_encode (raw_serial cert) ∉ revoked_serials params) /\
               (serial_decimal cert ∉ revoked_serials params);
}.

(** The root of trust of a locked device that booted an image we trust. *)
Record boot_ok (r : RootOfTrust) : Prop := {
  bo_locked : device_locked r = true;
  bo_public : hex_encode (verified_boot_key r) ∉ KNOWN_PUBLIC_VERIFIED_BOOT_KEYS;
  bo_state : verified_boot_state r = BOOT_STATE_VERIFIED \/
             verified_boot_state r = BOOT_STATE_SELF_SIGNED /\
             hex_encode (verified_boot_key r) ∈ trusted_verified_boot_keys params;
}.

Record policy_ok (d : KeyDescription) : Prop := {
  po_attestation : attestation_security_level d = 1 \/ attestation_security_level d = 2;
  po_key : key_security_level d = 1 \/ key_security_level d = 2;
  po_root : exists r, root_of_trust d = Some r /\ boot_ok r;
  po_challenge : attestation_challenge d = vp_challenge params;
  po_packages : package_names d <> [] /\
                forall name, name ∈ package_names d -> name ∈ vp_package_names params;
  po_digest : signing_digests d = [vp_playstore_digest params] \/
              signing_digests d = [vp_website_digest params];
}.

Definition signed_by (child parent : Cert) : Prop := verify_signed_by cr child parent = Ok tt.

Record certs_ok (certs : list Cert) : Prop := {
  cs_links : forall i child parent, certs !! i = Some child -> certs !! S i = Some parent ->
               issuer child = subject parent /\ signed_by child parent;
  cs_each : forall i cert, certs !! i = Some cert -> cert_ok (length certs) i cert;
  cs_root : exists chain_root der root, last certs = Some chain_root /\
              der ∈ trusted_roots_der params /\ from_der cr der = Ok root /\ signed_by chain_root root;
  cs_leaf : forall i cert, certs !! S i = Some cert -> find_attestation_extension cert = None;
  cs_policy : exists leaf ext d, certs !! 0%nat = Some leaf /\
                find_attestation_extension leaf = Some ext /\ parse ext = Ok d /\ policy_ok d;
}.

Definition chain_ok (chain_der : list bytes) : Prop :=
  (2 <= length chain_der <= 10)%nat /\
  exists parsed, length parsed = length chain_der /\
    (forall i der cert, chain_der !! i = Some der -> parsed !! i = Some cert -> from_der cr der = Ok cert) /\
    certs_ok (leaf_first parsed).
End spec.

Lemma existsb_eq s (l : list string) : existsb (String.eqb s) l = true <-> s ∈ l.
Proof.
  rewrite existsb_exists. setoid_rewrite list_elem_of_In. setoid_rewrite String.eqb_eq.
  split; [by intros (? & ? & ->)|by exists s].
Qed.

Section verify.
Context (cr : Crypto) (params : VerifyParams).

Lemma check_boot_iff r : check_boot r (trusted_verified_boot_keys params) = Ok tt <-> boot_ok params r.
Proof.
  unfold check_boot, contains_str.
  destruct (existsb _ KNOWN_PUBLIC_VERIFIED_BOOT_KEYS) eqn:Ek.
  { apply existsb_eq in Ek. split; [done|]. intros [_ Hp _]. done. }
  assert (hex_encode (verified_boot_key r) ∉ KNOWN_PUBLIC_VERIFIED_BOOT_KEYS) as Hp
    by (rewrite <-existsb_eq; congruence).
  rewrite rbind_ok, unit_ok.
  assert ((if device_locked r then Ok tt else Err (RootOfTrustRejected "bootloader is not locked")) = Ok tt
          <-> device_locked r = true) as -> by (by destruct (device_locked r)).
  destruct (Z.eqb_spec (verified_boot_state r) BOOT_STATE_VERIFIED) as [E|E].
  { split; [intros [_ ?]; by constructor; [| |left]|]. intros []. done. }
  destruct (Z.eqb_spec (verified_boot_state r) BOOT_STATE_SELF_SIGNED) as [E'|E'].
  2: { split; [by intros [??]|]. intros [_ _ [|[]]]; done. }
  destruct (existsb _ (trusted_verified_boot_keys params)) eqn:Et.
  - apply existsb_eq in Et. split; [intros [_ ?]; by constructor; [| |right]|]. intros []. done.
  - split; [by intros [??]|]. intros [_ _ [|[_ H]]]; [done|]. apply existsb_eq in H. congruence.
Qed.

Lemma level_ok_iff l : level_ok l = true <-> l = 1 \/ l = 2.
Proof. unfold level_ok. rewrite orb_true_iff, !Z.eqb_eq. done. Qed.

Lemma check_digest_iff ds :
  check_digest ds params = Ok tt <-> ds = [vp_playstore_digest params] \/ ds = [vp_website_digest params].
Proof.
  unfold check_digest. destruct ds as [|d [|e ds]]; [by split; [|intros [|]]| |by split; [|intros [|]]].
  rewrite !(bool_decide_decide _). repeat case_decide; subst; simpl; naive_solver.
Qed.

Lemma names_iff names :
  for_each (fun _ name => if contains_str name (vp_package_names params) then Ok tt else Err (Package name)) 0 names
    = Ok tt <-> forall name, name ∈ names -> name ∈ vp_package_names params.
Proof.
  rewrite for_each_ok. setoid_rewrite list_elem_of_lookup. unfold contains_str. split.
  - intros H n [i Hi]. specialize (H i n Hi). apply list_elem_of_lookup, existsb_eq. by destruct existsb.
  - intros H i n Hi. assert (n ∈ vp_package_names params) as Hn%existsb_eq by (apply list_elem_of_lookup, H; eauto).
    by rewrite Hn.
Qed.

Lemma check_policy_iff d : check_policy d params = Ok tt <-> policy_ok params d.
Proof.
  unfold check_policy.
  destruct (level_ok (attestation_security_level d)) eqn:Ea; cbn [negb orb].
  2: { split; [done|]. intros [H _ _ _ _ _]. apply level_ok_iff in H. congruence. }
  destruct (level_ok (key_security_level d)) eqn:Ek; cbn [negb orb].
  2: { split; [done|]. intros [_ H _ _ _ _]. apply level_ok_iff in H. congruence. }
  apply level_ok_iff in Ea, Ek.
  destruct (root_of_trust d) as [r|] eqn:Er.
  2: { split; [done|]. intros [_ _ (? & ? & _) _ _ _]. congruence. }
  rewrite rbind_ok, unit_ok, check_boot_iff.
  case_bool_decide as Hch; cbn [negb].
  2: { split; [by intros []|]. by intros []. }
  destruct (package_names d) as [|n ns] eqn:En.
  { split; [by intros []|]. intros [_ _ _ _ [? _] _]. congruence. }
  rewrite rbind_ok, unit_ok, names_iff, check_digest_iff. rewrite <-En. split.
  - intros (Hb & Hn & Hd). constructor; eauto. split; [congruence|done].
  - intros [_ _ (r' & Hr' & Hb) _ [_ Hn] Hd]. rewrite Er in Hr'. injection Hr' as <-. done.
Qed.

Lemma check_revocation_iff c :
  check_revocation c (revoked_serials params) = Ok tt <->
  (serial_hex c ∉ revoked_serials params) /\ (hex_encode (raw_serial c) ∉ revoked_serials params) /\
  (serial_decimal c ∉ revoked_serials params).
Proof.
  unfold check_revocation. cbn [existsb]. rewrite !(bool_decide_decide _).
  repeat case_decide; cbn [orb]; naive_solver.
Qed.

Lemma check_key_usage_iff c i len :
  check_key_usage c i len = Ok tt <->
  forall signs certifies, key_usage c = Some (signs, certifies) ->
    (i = 0%nat -> signs = true) /\ ((0 < i < len - 1)%nat -> certifies = true).
Proof.
  unfold check_key_usage. destruct (key_usage c) as [[s k]|]; [|split; [done|]; done].
  destruct (Nat.eqb_spec i 0) as [->|Hi]; cbn [andb].
  - destruct s; cbn; [|split; [done|]; intros H; by destruct (H _ _ eq_refl) as [?%eq_sym _]].
    split; [|done]. intros _ ? ? [= <- <-]. split; [done|]. lia.
  - destruct ((0 <? i) && (i <? len - 1))%nat eqn:E; cbn [andb].
    + apply andb_true_iff in E as [E1%Nat.ltb_lt E2%Nat.ltb_lt]. destruct k; cbn.
      * split; [|done]. intros _ ? ? [= <- <-]. done.
      * split; [done|]. intros H. destruct (H _ _ eq_refl) as [_ H']. by specialize (H' (conj E1 E2)).
    + split; [|done]. intros _ ? ? [= <- <-]. split; [lia|]. intros [??].
      apply andb_false_iff in E as [?%Nat.ltb_ge|?%Nat.ltb_ge]; lia.
Qed.

Lemma check_cert_iff len i c : check_cert cr params len i c = Ok tt <-> cert_ok cr params len i c.
Proof.
  unfold check_cert. rewrite rbind_ok, unit_ok, map_err_ok, rbind_ok, unit_ok, map_err_ok.
  rewrite check_key_usage_iff, check_revocation_iff.
  unfold check_validity. rewrite rbind_ok. setoid_rewrite map_err_ok. unfold is_valid_at.
  split.
  - intros ((at_ & Ha & Hv) & Hu & Hr). constructor; [|done|done]. exists at_. split; [done|].
    destruct ((not_before c <=? at_) && (at_ <=? not_after c)) eqn:E; [|done]. bool_prop. lia.
  - intros [(at_ & Ha & Hv) Hu Hr]. split; [|done]. exists at_. split; [done|].
    by rewrite (proj2 (Z.leb_le _ _)), (proj2 (Z.leb_le _ _)) by lia.
Qed.

Lemma links_lookup certs i a b :
  links certs !! i = Some (a, b) <-> certs !! i = Some a /\ certs !! S i = Some b.
Proof.
  unfold links. rewrite lookup_zip_with_Some. setoid_rewrite lookup_tail. naive_solver.
Qed.

Lemma links_forall certs (P : Cert -> Cert -> Prop) :
  (forall i l, links certs !! i = Some l -> P l.1 l.2) <->
  (forall i a b, certs !! i = Some a -> certs !! S i = Some b -> P a b).
Proof.
  split.
  - intros H i a b Ha Hb. apply (H i (a, b)). by apply links_lookup.
  - intros H i [a b] [Ha Hb]%links_lookup. by eapply H.
Qed.

Lemma trusted_by_iff c der :
  trusted_by cr c der = true <-> exists root, from_der cr der = Ok root /\ signed_by cr c root.
Proof.
  unfold trusted_by, signed_by. destruct (from_der cr der) as [root|e].
  - destruct (verify_signed_by cr c root) as [[]|] eqn:E; simpl.
    + split; [by eexists|done].
    + split; [done|]. intros (? & [= <-] & ?). congruence.
  - split; [done|]. by intros (? & ? & ?).
Qed.

Lemma root_trusted_iff certs :
  match last certs with
  | Some chain_root => existsb (trusted_by cr chain_root) (trusted_roots_der params)
  | None => false
  end = true <->
  exists chain_root der root, last certs = Some chain_root /\
    der ∈ trusted_roots_der params /\ from_der cr der = Ok root /\ signed_by cr chain_root root.
Proof.
  destruct (last certs) as [c|]; [|split; [done|]; by intros (? & ? & ? & ? & _)].
  rewrite existsb_exists. setoid_rewrite <-list_elem_of_In. setoid_rewrite trusted_by_iff.
  naive_solver.
Qed.

(** The checks after parsing, in the order of the code. *)
Lemma if_negb_ok {A X} (b : bool) (e : X) (r : result A X) a :
  (if negb b then Err e else r) = Ok a <-> b = true /\ r = Ok a.
Proof. destruct b; simpl; naive_solver. Qed.

Lemma policy_step_iff certs :
  match head certs ≫= find_attestation_extension with
  | None => Err (Extension "leaf has no key-description extension")
  | Some ext_value =>
      rbind (map_err Extension (parse ext_value)) (fun description => check_policy description params)
  end = Ok tt <->
  exists leaf ext d, certs !! 0%nat = Some leaf /\
    find_attestation_extension leaf = Some ext /\ parse ext = Ok d /\ policy_ok params d.
Proof.
  destruct certs as [|leaf certs]; cbn [head mbind option_bind].
  { split; [done|]. by intros (? & ? & ? & ? & _). }
  destruct (find_attestation_extension leaf) as [ext|] eqn:E.
  - rewrite rbind_ok. setoid_rewrite map_err_ok. setoid_rewrite check_policy_iff.
    split; [intros (d & ? & ?); by exists leaf, ext, d|].
    intros (l & x & d & [= <-] & Hx & ? & ?). rewrite E in Hx. injection Hx as <-. by exists d.
  - split; [done|]. intros (l & x & d & [= <-] & Hx & _). congruence.
Qed.

Lemma verify_chain_iff chain_der :
  verify_chain cr chain_der params = Ok tt <-> chain_ok cr params chain_der.
Proof.
  unfold verify_chain, chain_ok, MAX_CHAIN_LENGTH.
  destruct ((length chain_der <? 2) || (10 <? length chain_der))%nat eqn:El.
  { split; [done|]. intros [Hl _].
    apply orb_true_iff in El as [?%Nat.ltb_lt|?%Nat.ltb_lt]; lia. }
  apply orb_false_iff in El as [Hlo%Nat.ltb_ge Hhi%Nat.ltb_ge].
  rewrite rbind_ok. setoid_rewrite try_map_ok. setoid_rewrite map_err_ok.
  split.
  - intros (parsed & (Hlen & Hp) & H). split; [lia|]. exists parsed. split; [done|]. split; [eauto|].
    set (certs := leaf_first parsed) in *.
    apply rbind_ok in H as ([] & Hlinks & H). apply rbind_ok in H as ([] & Heach & H).
    apply rbind_ok in H as ([] & Hsig & H). apply if_negb_ok in H as [Hroot H].
    apply rbind_ok in H as ([] & Hleaf & H). apply policy_step_iff in H.
    rewrite for_each_ok in Hlinks. rewrite for_each_ok in Heach.
    rewrite for_each_ok in Hsig. rewrite for_each_ok in Hleaf. constructor; [| | | |done].
    + intros i a b Ha Hb. assert (links certs !! i = Some (a, b)) as Hi by (by apply links_lookup).
      specialize (Hlinks i _ Hi). specialize (Hsig i _ Hi). apply map_err_ok in Hsig.
      by case_bool_decide.
    + intros i c Hi. by apply check_cert_iff, Heach.
    + by apply root_trusted_iff.
    + intros i c Hi. rewrite <-lookup_tail in Hi. specialize (Hleaf i c Hi). by case_match.
  - intros [_ (parsed & Hlen & Hp & [Hlinks Heach Hroot Hleaf Hpol])].
    exists parsed. split; [split; [done|eauto]|]. set (certs := leaf_first parsed) in *.
    apply rbind_ok. exists tt. split.
    { apply for_each_ok. intros i [a b] [Ha Hb]%links_lookup.
      rewrite bool_decide_eq_true_2; [done|]. by eapply Hlinks. }
    apply rbind_ok. exists tt. split.
    { apply for_each_ok. intros i c Hi. by apply check_cert_iff, Heach. }
    apply rbind_ok. exists tt. split.
    { apply for_each_ok. intros i [a b] [Ha Hb]%links_lookup. apply map_err_ok. by eapply Hlinks. }
    apply if_negb_ok. split; [by apply root_trusted_iff|].
    apply rbind_ok. exists tt. split; [|by apply policy_step_iff].
    apply for_each_ok. intros i c Hi. rewrite lookup_tail in Hi. by rewrite (Hleaf i c Hi).
Qed.

(** C7. Android key attestation accepts exactly the chains of the stated policy: two
    to ten certificates that parse, each issued and signed by the next, valid
    now, used as their key usage allows and not revoked in any spelling of their
    serial; the last signed by a pinned Google root; the key description on the
    leaf alone, with TEE or StrongBox levels, a locked device in a trusted boot
    state, the expected challenge, allow-listed packages only and one known
    signing digest. *)
Theorem verify_chain_exact chain_der :
  verify_chain cr chain_der params = Ok tt <-> chain_ok cr params chain_der.
Proof. apply verify_chain_iff. Qed.

(** The challenge a chain attests: what its leaf's key description says. *)
Definition attested_challenge (chain_der : list bytes) : option bytes :=
  match try_map (fun _ der => from_der cr der) 0 chain_der with
  | Ok parsed =>
      match head (leaf_first parsed) ≫= find_attestation_extension with
      | Some ext => match parse ext with Ok d => Some (attestation_challenge d) | Err _ => None end
      | None => None
      end
  | Err _ => None
  end.

(** An accepted chain attests the expected challenge. *)
Lemma verify_chain_challenge chain_der :
  verify_chain cr chain_der params = Ok tt -> attested_challenge chain_der = Some (vp_challenge params).
Proof.
  intros (_ & parsed & Hlen & Hp & [_ _ _ _ (leaf & ext & d & Hl & He & Hd & Hpol)])%verify_chain_iff.
  unfold attested_challenge.
  rewrite (proj2 (try_map_ok _ 0 chain_der parsed)) by (split; [done|]; intros; by eapply Hp).
  destruct (leaf_first parsed) as [|c cs]; [done|]. injection Hl as ->.
  cbn [head mbind option_bind]. rewrite He, Hd. by rewrite (po_challenge _ _ Hpol).
Qed.
End verify.

(** ** A chain to run on

    A certificate is named by one byte: 1 is the leaf, 2 its issuer, 3 the pinned
    root; a signature verifies when it is the parent's key. *)

Definition demo_cert (subject_ issuer_ : Z) (exts : list (string * bytes)) : Cert :=
  {| subject := [subject_]; issuer := [issuer_]; not_before := 0; not_after := 100;
     signature_algorithm := ECDSA_WITH_SHA256; tbs_certificate := [subject_]; signature_value := [issuer_];
     public_key := [subject_]; key_curve := Some CURVE_P256; key_usage := Some (true, true);
     serial_hex := "a"; serial_decimal := "10"; raw_serial := [10]; extensions := exts |}.

Definition demo_crypto : Crypto :=
  {| from_der := fun b =>
       if bool_decide (b = [1]) then Ok (demo_cert 1 2 [(ANDROID_ATTESTATION_OID, DerProps.demo_extension)])
       else if bool_decide (b = [2]) then Ok (demo_cert 2 3 [])
       else if bool_decide (b = [3]) then Ok (demo_cert 3 3 [])
       else Err "not a certificate"%string;
     asn1_from_timestamp := fun t => Ok t; sha256 := fun b => b; sha384 := fun b => b;
     rsa_from_pkcs1_der := fun b => Ok b; rsa_verify := fun _ _ _ _ => false;
     p256_key := fun b => Ok b; p256_signature := fun b => Ok b;
     p256_verify_prehash := fun key _ sig => bool_decide (key = sig);
     p384_key := fun b => Ok b; p384_signature := fun b => Ok b; p384_verify_prehash := fun _ _ _ => false |}.

Definition demo_verify_params (challenge : bytes) (revoked : gset string) : VerifyParams :=
  {| vp_challenge := challenge; vp_package_names := ["io.pcf.polkadotapp"%string];
     vp_playstore_digest := [7; 7; 7]; vp_website_digest := [8]; trusted_roots_der := [[3]];
     trusted_verified_boot_keys := GRAPHENEOS_VERIFIED_BOOT_KEYS; revoked_serials := revoked; now_unix := 50 |}.

(** The chain is accepted in either order; another challenge, a revoked serial in
    any spelling or a chain that stops short of the root is refused. *)
Example demo_chain_runs :
  verify_chain demo_crypto [[1]; [2]] (demo_verify_params [17; 34] ∅) = Ok tt /\
  verify_chain demo_crypto [[3]; [2]; [1]] (demo_verify_params [17; 34] ∅) = Ok tt /\
  verify_chain demo_crypto [[1]; [2]] (demo_verify_params [17] ∅) = Err Challenge /\
  verify_chain demo_crypto [[1]; [2]] (demo_verify_params [17; 34] {["0a"%string]}) = Err (Revoked "a") /\
  verify_chain demo_crypto [[2]; [3]] (demo_verify_params [17; 34] ∅)
    = Err (Extension "leaf has no key-description extension").
Proof. vm_compute. done. Qed.
End KeyAttestProps.
