(* ===== verification/AppAttest.v ===== *)
(** * AppAttest: Apple App Attest objects ([auth/app_attest/verify.rs])

    The CBOR envelopes, the authenticator data and the two verifications: of the
    attestation of a key, and of the assertion made with it.  The CBOR reader,
    X.509 parsing, the hashes and the signature schemes are parameters.  The
    theorems say exactly which objects are accepted, as layouts of their bytes. *)

From stdpp Require Import pretty.
From S2P Require Import Prelude Strings Der DerProps KeyAttest.

#[local] Open Scope string_scope.
#[local] Open Scope Z_scope.

Module AppAttest.
Export X509.

(** [ciborium::Value]; a float by its bits. *)
Inductive Value :=
| Integer (n : Z)
| Bytes (b : bytes)
| Float (bits : Z)
| Text (s : string)
| Bool (b : bool)
| Null
| Tag (t : Z) (v : Value)
| Array (l : list Value)
| Map (m : list (Value * Value)).

Definition as_map (v : Value) : option (list (Value * Value)) :=
  match v with Map m => Some m | _ => None end.
Definition as_text (v : Value) : option string :=
  match v with Text s => Some s | _ => None end.
Definition value_bytes (v : Value) : option bytes :=
  match v with Bytes b => Some b | _ => None end.
Definition as_array (v : Value) : option (list Value) :=
  match v with Array l => Some l | _ => None end.

Definition APPLE_APP_ATTESTATION_ROOT_CA_B64 : string :=
  "MIICITCCAaegAwIBAgIQC/O+DvHN0uD7jG5yH2IXmDAKBggqhkjOPQQDAzBSMSYwJAYDVQQDDB1BcHBsZSBBcHAg" +:+
  "QXR0ZXN0YXRpb24gUm9vdCBDQTETMBEGA1UECgwKQXBwbGUgSW5jLjETMBEGA1UECAwKQ2FsaWZvcm5pYTAeFw0y" +:+
  "MDAzMTgxODMyNTNaFw00NTAzMTUwMDAwMDBaMFIxJjAkBgNVBAMMHUFwcGxlIEFwcCBBdHRlc3RhdGlvbiBSb290" +:+
  "IENBMRMwEQYDVQQKDApBcHBsZSBJbmMuMRMwEQYDVQQIDApDYWxpZm9ybmlhMHYwEAYHKoZIzj0CAQYFK4EEACID" +:+
  "YgAERTHhmLW07ATaFQIEVwTtT4dyctdhNbJhFs/Ii2FdCgAHGbpphY3+d8qjuDngIN3WVhQUBHAoMeQ/cLiP1sOU" +:+
  "tgjqK9auYen1mMEvRq9Sk3Jm5X8U62H+xTD3FE9TgS41o0IwQDAPBgNVHRMBAf8EBTADAQH/MB0GA1UdDgQWBBSs" +:+
  "kRBTM72+aEH/pwyp5frq5eWKoTAOBgNVHQ8BAf8EBAMCAQYwCgYIKoZIzj0EAwMDaAAwZQIwQgFGnByvsiVbpTKw" +:+
  "Sga0kP0e8EeDS4+sQmTvb7vn53O5+FRXgeLhpJ06ysC5PrOyAjEAp5U4xDgEgllF7En3VcE3iexZZtKeYnpqtijV" +:+
  "oyFraWVIyd/dganmrduC1bmTBGwD".

Definition APPLE_APP_ATTEST_NONCE_OID : string := "1.2.840.113635.100.8.2".
Definition PROD_AAGUID : bytes := as_bytes "appattest" ++ replicate 7 0.
Definition DEV_AAGUID : bytes := as_bytes "appattestdevelop".

Inductive AttestError :=
| Malformed (m : string)
| Chain (m : string)
| Nonce
| KeyId
| AppId
| Counter
| Aaguid
| Signature
| SignCount.

(** [Display]. *)
Definition attest_error (e : AttestError) : string :=
  match e with
  | Malformed m => "malformed attestation payload: " +:+ m
  | Chain m => "certificate chain rejected: " +:+ m
  | Nonce => "attestation nonce mismatch"
  | KeyId => "key id mismatch"
  | AppId => "no configured App ID matches rpIdHash"
  | Counter => "attestation counter is not 0"
  | Aaguid => "unrecognized AAGUID"
  | Signature => "assertion signature invalid"
  | SignCount => "assertion sign count did not increase"
  end.

Record AttestedKey := { ak_public_key : bytes; ak_receipt : bytes }.

Record AttestationDoc := {
  cred_cert : bytes;
  intermediate_cert : bytes;
  receipt : bytes;
  auth_data : bytes;
}.

Record AuthenticatorData := {
  rp_id_hash : bytes;
  counter : Z;
  aaguid : option bytes;
  credential_id : option bytes;
}.

(** [u32::from_be_bytes], [u16::from_be_bytes]. *)
Definition from_be_bytes (b : bytes) : Z := value_from 256 0 b.

(** [data[a..b]]. *)
Definition slice (a b : nat) (data : bytes) : bytes := take (b - a) (drop a data).

Section verify.
Context (cr : Crypto) (cbor : bytes -> result Value string).
#[local] Open Scope dub_scope.

Definition map_get (m : list (Value * Value)) (key : string) : option Value :=
  first_some (fun kv : Value * Value =>
    if bool_decide (as_text kv.1 = Some key) then Some kv.2 else None) m.

(** [.ok_or_else(|| AttestError::Malformed(what.into()))]. *)
Definition required {A} (o : option A) (what : string) : result A AttestError :=
  match o with Some a => Ok a | None => Err (Malformed what) end.

Definition read_cbor (b : bytes) : result Value AttestError :=
  map_err (fun e => Malformed ("cbor: " +:+ e)) (cbor b).

Definition decode_attestation (b : bytes) : result AttestationDoc AttestError :=
  let? value := read_cbor b in
  let? m := required (as_map value) "attestation is not a map" in
  let? fmt := required (map_get m "fmt" ≫= as_text) "missing fmt" in
  if negb (String.eqb fmt "apple-appattest") then Err (Malformed ("unexpected fmt " +:+ debug_str fmt))
  else
    let? att_stmt := required (map_get m "attStmt" ≫= as_map) "missing attStmt" in
    let? data := required (map_get m "authData" ≫= value_bytes) "missing authData" in
    let? rcpt := required (map_get att_stmt "receipt" ≫= value_bytes) "missing receipt" in
    let? x5c := required (map_get att_stmt "x5c" ≫= as_array) "missing x5c" in
    match x5c with
    | [cred; intermediate] =>
        let? c := required (value_bytes cred) "x5c entry is not bytes" in
        let? i := required (value_bytes intermediate) "x5c entry is not bytes" in
        Ok {| cred_cert := c; intermediate_cert := i; receipt := rcpt; auth_data := data |}
    | _ => Err (Malformed ("x5c has " +:+ pretty (length x5c) +:+ " certificates, expected exactly 2"))
    end.

Definition decode_assertion (b : bytes) : result (bytes * bytes) AttestError :=
  let? value := read_cbor b in
  let? m := required (as_map value) "assertion is not a map" in
  let? signature := required (map_get m "signature" ≫= value_bytes) "missing signature" in
  let? data := required (map_get m "authenticatorData" ≫= value_bytes) "missing authenticatorData" in
  Ok (signature, data).

(** [AuthenticatorData::parse]. *)
Definition parse_authenticator (data : bytes) : result AuthenticatorData AttestError :=
  if (length data <? 37)%nat then Err (Malformed "authenticator data too short")
  else
    let hash := slice 0 32 data in
    let count := from_be_bytes (slice 33 37 data) in
    if (55 <=? length data)%nat then
      let len := Z.to_nat (from_be_bytes (slice 53 55 data)) in
      if (length data <? 55 + len)%nat then Err (Malformed "credential id out of bounds")
      else Ok {| rp_id_hash := hash; counter := count; aaguid := Some (slice 37 53 data);
                 credential_id := Some (slice 55 (55 + len) data) |}
    else Ok {| rp_id_hash := hash; counter := count; aaguid := None; credential_id := None |}.

Definition check_app_id (hash : bytes) (app_ids : list string) : result unit AttestError :=
  if existsb (fun app_id => bool_decide (sha256 cr (as_bytes app_id) = hash)) app_ids
  then Ok tt else Err AppId.

Definition verify_cert (child parent : Cert) (now_unix : Z) : result unit AttestError :=
  let? _ := map_err Chain (check_validity cr child now_unix) in
  map_err Chain (verify_signed_by cr child parent).

Definition read_cert (what : string) (der : bytes) : result Cert AttestError :=
  map_err (fun e => Malformed (what +:+ ": " +:+ e)) (from_der cr der).

(** The last 32 bytes of the nonce extension. *)
Definition attested_nonce (cred : Cert) : option bytes :=
  value ← find_extension APPLE_APP_ATTEST_NONCE_OID cred;
  if (length value <? 32)%nat then None else Some (drop (length value - 32) value).

Definition verify_attestation (attestation challenge key_id : bytes) (app_ids : list string)
    (trusted_root_der : bytes) (now_unix : Z) : result AttestedKey AttestError :=
  let? doc := decode_attestation attestation in
  let? auth := parse_authenticator (auth_data doc) in
  let? root := read_cert "root cert" trusted_root_der in
  let? cred := read_cert "cred cert" (cred_cert doc) in
  let? intermediate := read_cert "intermediate cert" (intermediate_cert doc) in
  let? _ := verify_cert cred intermediate now_unix in
  let? _ := verify_cert intermediate root now_unix in
  let nonce := sha256 cr (auth_data doc ++ sha256 cr challenge) in
  match attested_nonce cred with
  | None => Err Nonce
  | Some expected =>
      if negb (bool_decide (expected = nonce)) then Err Nonce
      else
        let public_key := X509.public_key cred in
        if negb (bool_decide (sha256 cr public_key = key_id)) then Err KeyId
        else if negb (bool_decide (credential_id auth = Some key_id)) then Err KeyId
        else
          let? _ := check_app_id (rp_id_hash auth) app_ids in
          if negb (counter auth =? 0) then Err Counter
          else if negb (bool_decide (aaguid auth = Some PROD_AAGUID))
                  && negb (bool_decide (aaguid auth = Some DEV_AAGUID)) then Err Aaguid
          else Ok {| ak_public_key := public_key; ak_receipt := receipt doc |}
  end.

(** [key.verify(&nonce, ..)] hashes the nonce once more: the signed digest is
    [SHA256(nonce)]. *)
Definition verify_assertion (assertion client_data_hash public_key : bytes) (app_ids : list string)
    (prev_sign_count : Z) : result Z AttestError :=
  let? (signature_der, data) := decode_assertion assertion in
  let? auth := parse_authenticator data in
  let nonce := sha256 cr (data ++ client_data_hash) in
  let? key := map_err (fun e => Malformed ("stored public key: " +:+ e)) (p256_key cr public_key) in
  let? signature := map_err (fun _ => Signature) (p256_signature cr signature_der) in
  if negb (p256_verify_prehash cr key (sha256 cr nonce) signature) then Err Signature
  else
    let? _ := check_app_id (rp_id_hash auth) app_ids in
    let next := counter auth in
    if next <=? prev_sign_count then Err SignCount else Ok next.
End verify.

(** ** Which objects are accepted *)

Section spec.
Context (cr : Crypto) (cbor : bytes -> result Value string).

Lemma required_ok {A} (o : option A) what a : required o what = Ok a <-> o = Some a.
Proof. destruct o; simpl; split; congruence. Qed.

Definition app_id_ok (hash : bytes) (app_ids : list string) : Prop :=
  exists app_id, app_id ∈ app_ids /\ sha256 cr (as_bytes app_id) = hash.

Lemma check_app_id_ok hash app_ids : check_app_id cr hash app_ids = Ok tt <-> app_id_ok hash app_ids.
Proof.
  unfold check_app_id, app_id_ok. setoid_rewrite list_elem_of_In.
  destruct (existsb _ app_ids) eqn:E.
  - split; [|done]. intros _. apply existsb_exists in E as (a & ? & ?%bool_decide_eq_true). by exists a.
  - split; [done|]. intros (a & Ha & Hs).
    enough (existsb (fun a => bool_decide (sha256 cr (as_bytes a) = hash)) app_ids = true) by congruence.
    apply existsb_exists. exists a. split; [done|]. by apply bool_decide_eq_true.
Qed.

(** The signature on [child] verifies under the key of [parent]: RSA or ECDSA on one
    of the two curves, over the digest that the certificate's algorithm names. *)
Definition signed (child parent : Cert) : Prop :=
  exists long : bool,
    let prehash := if long then sha384 cr (tbs_certificate child) else sha256 cr (tbs_certificate child) in
    (signature_algorithm child = (if long then SHA384_WITH_RSA else SHA256_WITH_RSA) /\
     exists key, rsa_from_pkcs1_der cr (X509.public_key parent) = Ok key /\
       rsa_verify cr long key prehash (signature_value child) = true) \/
    (signature_algorithm child = (if long then ECDSA_WITH_SHA384 else ECDSA_WITH_SHA256) /\
     ((key_curve parent = Some CURVE_P256 /\
       exists key sig, p256_key cr (X509.public_key parent) = Ok key /\
         p256_signature cr (signature_value child) = Ok sig /\ p256_verify_prehash cr key prehash sig = true) \/
      (key_curve parent = Some CURVE_P384 /\
       exists key sig, p384_key cr (X509.public_key parent) = Ok key /\
         p384_signature cr (signature_value child) = Ok sig /\ p384_verify_prehash cr key prehash sig = true))).

Lemma ecdsa_verified_ok key_of sig_of verify curve key_bytes prehash signature :
  ecdsa_verified key_of sig_of verify curve key_bytes prehash signature = Ok true <->
  exists key sig, key_of key_bytes = Ok key /\ sig_of signature = Ok sig /\ verify key prehash sig = true.
Proof.
  unfold ecdsa_verified. rewrite rbind_ok. setoid_rewrite rbind_ok. setoid_rewrite map_err_ok. split.
  - intros (key & Hk & sig & Hs & [= Hv]). by exists key, sig.
  - intros (key & sig & Hk & Hs & Hv). exists key. split; [done|]. exists sig. by rewrite Hv.
Qed.

Lemma verified_ok (b : result bool string) e :
  rbind b (fun v : bool => if v then Ok tt else Err e) = Ok tt <-> b = Ok true.
Proof. destruct b as [[]|]; cbn; split; congruence. Qed.

Lemma curve_ok parent key_bytes prehash signature :
  (match key_curve parent with
   | None => Err "parent key has no curve"
   | Some curve =>
       if String.eqb curve CURVE_P256 then
         ecdsa_verified (p256_key cr) (p256_signature cr) (p256_verify_prehash cr) "P-256" key_bytes prehash signature
       else if String.eqb curve CURVE_P384 then
         ecdsa_verified (p384_key cr) (p384_signature cr) (p384_verify_prehash cr) "P-384" key_bytes prehash signature
       else Err ("unsupported curve " +:+ curve)
   end) = Ok true <->
  (key_curve parent = Some CURVE_P256 /\
   exists key sig, p256_key cr key_bytes = Ok key /\ p256_signature cr signature = Ok sig /\
     p256_verify_prehash cr key prehash sig = true) \/
  (key_curve parent = Some CURVE_P384 /\
   exists key sig, p384_key cr key_bytes = Ok key /\ p384_signature cr signature = Ok sig /\
     p384_verify_prehash cr key prehash sig = true).
Proof.
  destruct (key_curve parent) as [c|]; [|split; [done|by intros [[] |[]]]].
  destruct (String.eqb_spec c CURVE_P256) as [->|H1].
  { rewrite ecdsa_verified_ok. split; [by left|]. intros [[_ ?]|[? _]]; [done|]. exfalso. clear -H. discriminate H. }
  destruct (String.eqb_spec c CURVE_P384) as [->|H2].
  { rewrite ecdsa_verified_ok. split; [by right|]. intros [[? _]|[_ ?]]; [|done]. exfalso. clear -H. discriminate H. }
  split; [done|]. intros [[[= ?] _]|[[= ?] _]]; done.
Qed.

Lemma verify_signed_by_ok child parent : verify_signed_by cr child parent = Ok tt <-> signed child parent.
Proof.
  unfold verify_signed_by, signed. split.
  - destruct (String.eqb_spec (signature_algorithm child) ECDSA_WITH_SHA256) as [E|N1].
    { rewrite E. cbn -[ecdsa_verified]. rewrite verified_ok, curve_ok. intros H. exists false. right. by split. }
    destruct (String.eqb_spec (signature_algorithm child) SHA256_WITH_RSA) as [E|N2].
    { rewrite E. cbn. rewrite verified_ok. intros (key & Hk%map_err_ok & [= Hv])%rbind_ok.
      exists false. left. split; [done|]. by exists key. }
    destruct (String.eqb_spec (signature_algorithm child) ECDSA_WITH_SHA384) as [E|N3].
    { rewrite E. cbn -[ecdsa_verified]. rewrite verified_ok, curve_ok. intros H. exists true. right. by split. }
    destruct (String.eqb_spec (signature_algorithm child) SHA384_WITH_RSA) as [E|N4]; [|done].
    rewrite E. cbn. rewrite verified_ok. intros (key & Hk%map_err_ok & [= Hv])%rbind_ok.
    exists true. left. split; [done|]. by exists key.
  - intros (long & [(-> & key & Hk & Hv)|(-> & Hc%curve_ok)]); destruct long; cbn -[ecdsa_verified];
      rewrite verified_ok; [| |exact Hc..].
    all: apply rbind_ok; exists key; split; [by apply map_err_ok|]; by rewrite Hv.
Qed.

(** A certificate valid at [now_unix] whose signature the parent's key verifies. *)
Definition cert_by (child parent : Cert) (now_unix : Z) : Prop :=
  (exists at_, asn1_from_timestamp cr now_unix = Ok at_ /\ not_before child <= at_ <= not_after child) /\
  signed child parent.

Lemma verify_cert_ok child parent now_unix :
  verify_cert cr child parent now_unix = Ok tt <-> cert_by child parent now_unix.
Proof.
  unfold verify_cert, cert_by, check_validity, is_valid_at.
  rewrite rbind_ok, unit_ok, !map_err_ok, rbind_ok, verify_signed_by_ok. setoid_rewrite map_err_ok.
  split.
  - intros ((t & Ht & Hv) & Hs). split; [|done]. exists t. split; [done|].
    destruct (_ && _) eqn:E; [|done]. bool_prop. lia.
  - intros ((t & Ht & Hv) & Hs). split; [|done]. exists t. split; [done|].
    by rewrite (proj2 (Z.leb_le _ _)), (proj2 (Z.leb_le _ _)) by lia.
Qed.

(** [v] is the first value under [key]. *)
Definition entry {K V : Type} (key : K) (v : V) (m : list (K * V)) : Prop :=
  exists before after, m = (before ++ (key, v) :: after)%list /\ (key ∉ before.*1).

Lemma first_some_entry {K V : Type} (f : K * V -> option V) key v m :
  (forall k w, (k = key /\ f (k, w) = Some w) \/ (k <> key /\ f (k, w) = None)) ->
  first_some f m = Some v <-> entry key v m.
Proof.
  intros Hf. unfold entry. split.
  - induction m as [|[k w] m IH]; [done|]. cbn [first_some].
    destruct (Hf k w) as [[-> ->]|[Hk ->]]; [intros [= ->]; exists [], m; split; [done|apply not_elem_of_nil]|].
    intros (before & after & -> & Hn)%IH. exists ((k, w) :: before), after. split; [done|].
    cbn. apply not_elem_of_cons. by split; [apply not_eq_sym|].
  - intros (before & after & -> & Hn). induction before as [|[k w] before IH]; cbn [app first_some].
    { by destruct (Hf key v) as [[_ ->]|[]]. }
    cbn in Hn. apply not_elem_of_cons in Hn as [Hk Hn].
    destruct (Hf k w) as [[-> _]|[_ ->]]; [done|by apply IH].
Qed.

Lemma map_get_ok m key v : map_get m key = Some v <-> entry (Text key) v m.
Proof.
  apply first_some_entry. intros k w. cbn [fst snd]. case_bool_decide as E.
  - left. split; [|done]. destruct k; try discriminate E. by injection E as ->.
  - right. split; [|done]. by intros ->.
Qed.

Lemma find_extension_ok oid c v : find_extension oid c = Some v <-> entry oid v (extensions c).
Proof. apply first_some_entry. intros k w. cbn [fst snd]. destruct (String.eqb_spec k oid); auto. Qed.

(** The envelope of an attestation. *)
Definition attestation_object (b cred intermediate rcpt data : bytes) : Prop :=
  exists m stmt, cbor b = Ok (Map m) /\
    entry (Text "fmt") (Text "apple-appattest") m /\ entry (Text "authData") (Bytes data) m /\
    entry (Text "attStmt") (Map stmt) m /\ entry (Text "receipt") (Bytes rcpt) stmt /\
    entry (Text "x5c") (Array [Bytes cred; Bytes intermediate]) stmt.

Lemma field_ok {A : Type} (read : Value -> option A) (wrap : A -> Value) m key what a :
  (forall v a, read v = Some a <-> v = wrap a) ->
  required (map_get m key ≫= read) what = Ok a <-> entry (Text key) (wrap a) m.
Proof.
  intros Hr. rewrite required_ok, bind_Some, <-map_get_ok. split.
  - by intros (v & Hv & ->%Hr).
  - intros H. exists (wrap a). split; [done|by apply Hr].
Qed.

Lemma as_text_ok v t : as_text v = Some t <-> v = Text t.
Proof. destruct v; split; cbn; congruence. Qed.
Lemma as_map_ok v m : as_map v = Some m <-> v = Map m.
Proof. destruct v; split; cbn; congruence. Qed.
Lemma as_array_ok v l : as_array v = Some l <-> v = Array l.
Proof. destruct v; split; cbn; congruence. Qed.
Lemma value_bytes_ok v b : value_bytes v = Some b <-> v = Bytes b.
Proof. destruct v; split; cbn; congruence. Qed.

Lemma decode_attestation_exact b doc :
  decode_attestation cbor b = Ok doc <->
  attestation_object b (cred_cert doc) (intermediate_cert doc) (receipt doc) (auth_data doc).
Proof.
  unfold decode_attestation, read_cbor, attestation_object. split.
  - intros (v & Hc%map_err_ok & H)%rbind_ok. apply rbind_ok in H as (m & ->%required_ok%as_map_ok & H).
    apply rbind_ok in H as (fmt & Hf%(field_ok _ _ _ _ _ _ as_text_ok) & H).
    apply if_err_ok in H as [->%negb_false_iff%String.eqb_eq H].
    apply rbind_ok in H as (stmt & Hs%(field_ok _ _ _ _ _ _ as_map_ok) & H).
    apply rbind_ok in H as (data & Hd%(field_ok _ _ _ _ _ _ value_bytes_ok) & H).
    apply rbind_ok in H as (rcpt & Hr%(field_ok _ _ _ _ _ _ value_bytes_ok) & H).
    apply rbind_ok in H as (x5c & Hx%(field_ok _ _ _ _ _ _ as_array_ok) & H).
    destruct x5c as [|c [|i [|]]]; try done.
    apply rbind_ok in H as (cb & ->%required_ok%value_bytes_ok & H).
    apply rbind_ok in H as (ib & ->%required_ok%value_bytes_ok & [= <-]).
    exists m, stmt. by split_and!.
  - intros (m & stmt & Hc & Hf & Hd & Hs & Hr & Hx). rewrite Hc. cbn [map_err rbind required as_map].
    apply (field_ok _ _ _ _ "missing fmt" _ as_text_ok) in Hf. rewrite Hf. cbn [rbind].
    rewrite String.eqb_refl. cbn [negb].
    apply (field_ok _ _ _ _ "missing attStmt" _ as_map_ok) in Hs. rewrite Hs. cbn [rbind].
    apply (field_ok _ _ _ _ "missing authData" _ value_bytes_ok) in Hd. rewrite Hd. cbn [rbind].
    apply (field_ok _ _ _ _ "missing receipt" _ value_bytes_ok) in Hr. rewrite Hr. cbn [rbind].
    apply (field_ok _ _ _ _ "missing x5c" _ as_array_ok) in Hx. rewrite Hx. cbn. by destruct doc.
Qed.

(** The envelope of an assertion. *)
Definition assertion_object (b signature data : bytes) : Prop :=
  exists m, cbor b = Ok (Map m) /\
    entry (Text "signature") (Bytes signature) m /\ entry (Text "authenticatorData") (Bytes data) m.

Lemma decode_assertion_exact b signature data :
  decode_assertion cbor b = Ok (signature, data) <-> assertion_object b signature data.
Proof.
  unfold decode_assertion, read_cbor, assertion_object. split.
  - intros (v & Hc%map_err_ok & H)%rbind_ok. apply rbind_ok in H as (m & ->%required_ok%as_map_ok & H).
    apply rbind_ok in H as (sg & Hs%(field_ok _ _ _ _ _ _ value_bytes_ok) & H).
    apply rbind_ok in H as (d & Hd%(field_ok _ _ _ _ _ _ value_bytes_ok) & [= -> ->]). by exists m.
  - intros (m & Hc & Hs & Hd). rewrite Hc. cbn [map_err rbind required as_map].
    apply (field_ok _ _ _ _ "missing signature" _ value_bytes_ok) in Hs. rewrite Hs. cbn [rbind].
    apply (field_ok _ _ _ _ "missing authenticatorData" _ value_bytes_ok) in Hd. by rewrite Hd.
Qed.

(** *** The layout of authenticator data *)

(** 32 bytes of relying-party hash, a byte of flags, a big-endian counter of four. *)
Definition header (data hash : bytes) (count : Z) (rest : bytes) : Prop :=
  exists flags c0 c1 c2 c3,
    data = (hash ++ [flags; c0; c1; c2; c3] ++ rest)%list /\ length hash = 32%nat /\
    count = ((c0 * 256 + c1) * 256 + c2) * 256 + c3.

(** 16 bytes of AAGUID, a big-endian length of two, and a credential id that long. *)
Definition credential (rest guid id : bytes) : Prop :=
  exists hi lo tail, rest = (guid ++ [hi; lo] ++ id ++ tail)%list /\ length guid = 16%nat /\
    length id = Z.to_nat (hi * 256 + lo).

Lemma slice_app a b x y z :
  length x = a -> (length x + length y)%nat = b -> slice a b (x ++ y ++ z)%list = y.
Proof.
  intros <- <-. unfold slice. rewrite drop_app_length.
  replace (length x + length y - length x)%nat with (length y) by lia. apply take_app_length.
Qed.

Lemma slice_start n y z : length y = n -> slice 0 n (y ++ z)%list = y.
Proof. intros H. by apply (slice_app 0 n [] y z). Qed.

Lemma split_at (n : nat) (l : bytes) : (n <= length l)%nat -> exists a b, l = (a ++ b)%list /\ length a = n.
Proof. intros H. exists (take n l), (drop n l). by rewrite take_drop, length_take_le. Qed.

Lemma header_split data :
  (37 <= length data)%nat <-> exists hash count rest, header data hash count rest.
Proof.
  split.
  - intros H. destruct (split_at 32 data ltac:(lia)) as (hash & l & -> & Hh). rewrite length_app in H.
    destruct l as [|f [|c0 [|c1 [|c2 [|c3 rest]]]]]; cbn in H; try lia. exists hash. eexists. by exists rest, f, c0, c1, c2, c3.
  - intros (hash & count & rest & f & c0 & c1 & c2 & c3 & -> & Hh & _). rewrite length_app. cbn. lia.
Qed.

Lemma header_reads data hash count rest :
  header data hash count rest ->
  slice 0 32 data = hash /\ from_be_bytes (slice 33 37 data) = count /\ length data = (37 + length rest)%nat /\
  (forall a b, slice (37 + a) (37 + b) data = slice a b rest).
Proof.
  intros (f & c0 & c1 & c2 & c3 & -> & Hh & ->). split_and!.
  - by apply slice_start.
  - replace (hash ++ [f; c0; c1; c2; c3] ++ rest)%list with ((hash ++ [f]) ++ [c0; c1; c2; c3] ++ rest)%list
      by (by rewrite <-app_assoc).
    rewrite slice_app by (rewrite length_app; cbn; lia). cbn. unfold push. lia.
  - rewrite length_app. cbn. lia.
  - intros a b. unfold slice. replace (37 + b - (37 + a))%nat with (b - a)%nat by lia. f_equal.
    rewrite app_assoc, drop_app_ge by (rewrite length_app; cbn; lia). f_equal. rewrite length_app. cbn. lia.
Qed.

Lemma credential_split (rest : bytes) :
  (18 <= length rest)%nat ->
  exists (guid more : bytes) hi lo, rest = (guid ++ [hi; lo] ++ more)%list /\ length guid = 16%nat.
Proof.
  intros H. destruct (split_at 16 rest ltac:(lia)) as (guid & l & -> & Hg). rewrite length_app in H.
  destruct l as [|hi [|lo more]]; cbn in H; try lia. by exists guid, more, hi, lo.
Qed.

(** What the parser takes authenticator data for. *)
Lemma parse_authenticator_exact data auth :
  parse_authenticator data = Ok auth <->
  exists rest, header data (rp_id_hash auth) (counter auth) rest /\
    (((length rest < 18)%nat /\ aaguid auth = None /\ credential_id auth = None) \/
     (exists guid id, aaguid auth = Some guid /\ credential_id auth = Some id /\ credential rest guid id)).
Proof.
  unfold parse_authenticator. split.
  - intros [Hl%Nat.ltb_ge H]%if_err_ok. apply header_split in Hl as (hash & count & rest & Hh).
    destruct (header_reads _ _ _ _ Hh) as (E1 & E2 & Hlen & Hs). rewrite E1, E2, Hlen in H. exists rest.
    destruct (Nat.leb_spec 55 (37 + length rest)).
    + destruct (credential_split rest ltac:(lia)) as (guid & more & hi & lo & -> & Hg).
      change (slice 53 55 data) with (slice (37 + 16) (37 + 18) data) in H.
      change (slice 37 53 data) with (slice (37 + 0) (37 + 16) data) in H. rewrite !Hs in H.
      rewrite (slice_app 16 18 guid [hi; lo]) in H by (cbn; lia).
      rewrite slice_start in H by done.
      change (from_be_bytes [hi; lo]) with (push 256 (push 256 0 hi) lo) in H.
      replace (push 256 (push 256 0 hi) lo) with (hi * 256 + lo) in H by (unfold push; lia).
      apply if_err_ok in H as [Hb%Nat.ltb_ge [= <-]]. split; [exact Hh|]. right. cbn [aaguid credential_id].
      rewrite !length_app in Hb. cbn in Hb.
      destruct (split_at (Z.to_nat (hi * 256 + lo)) more ltac:(lia)) as (id & tail & -> & Hi).
      exists guid, id. split_and!; [done| |by exists hi, lo, tail].
      f_equal. etransitivity; [exact (Hs 18%nat (18 + Z.to_nat (hi * 256 + lo))%nat)|].
      rewrite app_assoc. apply slice_app; rewrite length_app; cbn; lia.
    + injection H as <-. split; [exact Hh|]. left. split_and!; [lia|done|done].
  - intros (rest & Hh & Hrest). destruct (header_reads _ _ _ _ Hh) as (E1 & E2 & Hlen & Hs).
    rewrite (proj2 (Nat.ltb_ge _ _)) by lia. rewrite E1, E2, Hlen.
    destruct Hrest as [(Hl & Ha & Hc)|(guid & id & Ha & Hc & hi & lo & tail & -> & Hg & Hi)].
    { rewrite (proj2 (Nat.leb_gt _ _)) by lia. destruct auth as [h c g i]. cbn in *. by subst. }
    rewrite !length_app. cbn [length]. rewrite (proj2 (Nat.leb_le _ _)) by lia.
    change (slice 53 55 data) with (slice (37 + 16) (37 + 18) data).
    change (slice 37 53 data) with (slice (37 + 0) (37 + 16) data). rewrite !Hs.
    rewrite (slice_app 16 18 guid [hi; lo]), slice_start by (cbn; lia).
    change (from_be_bytes [hi; lo]) with (push 256 (push 256 0 hi) lo).
    replace (push 256 (push 256 0 hi) lo) with (hi * 256 + lo) by (unfold push; lia). rewrite <-Hi.
    rewrite (proj2 (Nat.ltb_ge _ _)) by lia. replace (slice 55 _ data) with (slice 18 (18 + length id) (guid ++ [hi; lo] ++ id ++ tail)%list) by (symmetry; exact (Hs 18%nat (18 + length id)%nat)).
    rewrite (app_assoc guid), (slice_app _ _ (guid ++ [hi; lo])%list id) by (rewrite length_app; cbn; lia).
    destruct auth as [h c g i]. cbn in *. by subst.
Qed.

(** *** Assertions *)

Record assertion_ok (assertion client_data_hash public_key : bytes) (app_ids : list string)
    (prev next : Z) : Prop := {
  as_read : exists signature_der data key signature hash rest,
    assertion_object assertion signature_der data /\
    p256_key cr public_key = Ok key /\ p256_signature cr signature_der = Ok signature /\
    p256_verify_prehash cr key (sha256 cr (sha256 cr (data ++ client_data_hash))) signature = true /\
    header data hash next rest /\ app_id_ok hash app_ids /\
    ((length rest < 18)%nat \/ exists guid id, credential rest guid id);
  as_increases : prev < next;
}.

(** An App Attest assertion is accepted with count [next] exactly when its
    signature by the registered key covers the authenticator data and the client
    data hash, its relying party is a configured App ID, its counter is [next],
    and [next] exceeds the stored count. *)
Theorem assertion_exact assertion client_data_hash public_key app_ids prev next :
  verify_assertion cr cbor assertion client_data_hash public_key app_ids prev = Ok next <->
  assertion_ok assertion client_data_hash public_key app_ids prev next.
Proof.
  unfold verify_assertion. rewrite rbind_ok. split.
  - intros ([sd data] & Hd%decode_assertion_exact & H). apply rbind_ok in H as (auth & Ha & H).
    apply rbind_ok in H as (key & Hk%map_err_ok & H). apply rbind_ok in H as (sg & Hs%map_err_ok & H).
    apply if_err_ok in H as [Hv%negb_false_iff H]. apply rbind_ok in H as ([] & Hi%check_app_id_ok & H).
    apply if_err_ok in H as [Hc%Z.leb_gt [= <-]].
    apply parse_authenticator_exact in Ha as (rest & Hh & Hr).
    constructor; [|done]. exists sd, data, key, sg, (rp_id_hash auth), rest. split_and!; try done.
    destruct Hr as [[? _]|(guid & id & _ & _ & ?)]; [by left|right; by exists guid, id].
  - intros [(sd & data & key & sg & hash & rest & Hd%decode_assertion_exact & Hk & Hs & Hv & Hh & Hi & Hr) Hc].
    assert (exists auth, parse_authenticator data = Ok auth /\ rp_id_hash auth = hash /\ counter auth = next)
      as (auth & Ha & <- & <-).
    { destruct Hr as [Hr|(guid & id & Hr)];
        [exists {| rp_id_hash := hash; counter := next; aaguid := None; credential_id := None |}
        |exists {| rp_id_hash := hash; counter := next; aaguid := Some guid; credential_id := Some id |}];
        (split; [|done]); apply parse_authenticator_exact; exists rest; (split; [done|]);
        [by left|right; by exists guid, id]. }
    exists (sd, data). split; [done|]. apply rbind_ok. exists auth. split; [done|].
    apply rbind_ok. exists key. split; [by apply map_err_ok|].
    apply rbind_ok. exists sg. split; [by apply map_err_ok|].
    apply if_err_ok. split; [by apply negb_false_iff|].
    apply rbind_ok. exists tt. split; [by apply check_app_id_ok|].
    by rewrite (proj2 (Z.leb_gt _ _)).
Qed.

(** *** Attestations *)

(** The certificate's nonce extension ends in the 32 bytes of [nonce]. *)
Definition nonce_attested (cred : Cert) (nonce : bytes) : Prop :=
  exists prefix, entry "1.2.840.113635.100.8.2" (prefix ++ nonce)%list (extensions cred) /\ length nonce = 32%nat.

Lemma attested_nonce_exact cred nonce : attested_nonce cred = Some nonce <-> nonce_attested cred nonce.
Proof.
  unfold attested_nonce, nonce_attested. rewrite bind_Some. setoid_rewrite find_extension_ok. split.
  - intros (v & Hv & H). destruct (Nat.ltb_spec (length v) 32); [done|]. injection H as <-.
    exists (take (length v - 32) v). rewrite take_drop, length_drop. split; [exact Hv|lia].
  - intros (prefix & Hv & Hl). exists (prefix ++ nonce)%list. split; [exact Hv|]. rewrite length_app, Hl.
    rewrite (proj2 (Nat.ltb_ge _ _)) by lia. replace (length prefix + 32 - 32)%nat with (length prefix) by lia.
    by rewrite drop_app_length.
Qed.

Record attestation_ok (attestation challenge key_id : bytes) (app_ids : list string)
    (trusted_root_der : bytes) (now_unix : Z) (k : AttestedKey) : Prop := {
  at_read : exists cred_der intermediate_der data root cred intermediate hash guid rest,
    attestation_object attestation cred_der intermediate_der (ak_receipt k) data /\
    from_der cr trusted_root_der = Ok root /\ from_der cr cred_der = Ok cred /\
    from_der cr intermediate_der = Ok intermediate /\
    cert_by cred intermediate now_unix /\ cert_by intermediate root now_unix /\
    nonce_attested cred (sha256 cr (data ++ sha256 cr challenge)) /\
    header data hash 0 rest /\ credential rest guid key_id /\ app_id_ok hash app_ids /\
    (guid = as_bytes "appattest" ++ replicate 7 0 \/ guid = as_bytes "appattestdevelop")%list /\
    ak_public_key k = X509.public_key cred;
  at_key_id : sha256 cr (ak_public_key k) = key_id;
}.

(** C40. An App Attest attestation is accepted, with public key and receipt [k],
    exactly when it is laid out and signed as Apple does: the CBOR object is a map
    whose [fmt] is [apple-appattest] and whose statement holds the receipt of [k]
    and two certificates; the first certificate is valid now and signed by the
    second, the second valid now and signed by the trusted root; the first one's
    nonce extension ends in the 32-byte hash of the authenticator data and the
    hashed challenge; the authenticator data is the 32-byte hash of a configured
    App ID, a byte of flags, a four-byte big-endian counter of value 0, the 16
    bytes of one of the two App Attest environments, and a two-byte length before
    a credential id that is the key id asked for; and that key id is the hash of
    the public key of [k], which is the first certificate's. *)
Theorem attestation_exact attestation challenge key_id app_ids root_der now_unix k :
  verify_attestation cr cbor attestation challenge key_id app_ids root_der now_unix = Ok k <->
  attestation_ok attestation challenge key_id app_ids root_der now_unix k.
Proof.
  unfold verify_attestation, read_cert. split.
  - intros H. apply rbind_ok in H as (doc & Hd%decode_attestation_exact & H).
    apply rbind_ok in H as (auth & Ha%parse_authenticator_exact & H).
    apply rbind_ok in H as (root & Hr%map_err_ok & H). apply rbind_ok in H as (cred & Hc%map_err_ok & H).
    apply rbind_ok in H as (inter & Hi%map_err_ok & H).
    apply rbind_ok in H as ([] & H1%verify_cert_ok & H). apply rbind_ok in H as ([] & H2%verify_cert_ok & H).
    destruct (attested_nonce cred) as [n|] eqn:En; [|done].
    apply if_err_ok in H as [->%negb_decide_false H]. apply if_err_ok in H as [Hk%negb_decide_false H].
    apply if_err_ok in H as [Hid%negb_decide_false H].
    apply rbind_ok in H as ([] & Happ%check_app_id_ok & H).
    apply if_err_ok in H as [Hcount%negb_false_iff%Z.eqb_eq H].
    apply if_err_ok in H as [Haa%andb_false_iff [= <-]]. rewrite !negb_decide_false in Haa.
    destruct Ha as (rest & Hh & [(_ & _ & ?)|(guid & id & Hg & Hid' & Hcr)]); [congruence|].
    rewrite Hg in Haa. assert (id = key_id) as -> by congruence. rewrite Hcount in Hh.
    constructor; [|done]. exists (cred_cert doc), (intermediate_cert doc), (auth_data doc).
    exists root, cred, inter, (rp_id_hash auth), guid, rest. apply attested_nonce_exact in En. split_and!; try done.
    by destruct Haa as [[= ->]|[= ->]]; [left|right].
  - intros [(cd & id & data & root & cred & inter & hash & guid & rest & Hd & Hr & Hc & Hi & H1 & H2
             & Hn%attested_nonce_exact & Hh & Hcr & Happ & Haa & Hpk) Hk].
    apply rbind_ok. eexists {| cred_cert := cd; intermediate_cert := id; receipt := ak_receipt k; auth_data := data |}.
    split; [by apply decode_attestation_exact|]. cbn [cred_cert intermediate_cert receipt auth_data].
    apply rbind_ok.
    exists {| rp_id_hash := hash; counter := 0; aaguid := Some guid; credential_id := Some key_id |}.
    split; [apply parse_authenticator_exact; exists rest; split; [done|right; by exists guid, key_id]|].
    cbn [rp_id_hash counter aaguid credential_id].
    apply rbind_ok. exists root. split; [by apply map_err_ok|].
    apply rbind_ok. exists cred. split; [by apply map_err_ok|].
    apply rbind_ok. exists inter. split; [by apply map_err_ok|].
    apply rbind_ok. exists tt. split; [by apply verify_cert_ok|].
    apply rbind_ok. exists tt. split; [by apply verify_cert_ok|]. rewrite Hn, <-Hpk.
    apply if_err_ok. split; [by apply negb_decide_false|]. apply if_err_ok. split; [by apply negb_decide_false|].
    apply if_err_ok. split; [by apply negb_decide_false|].
    apply rbind_ok. exists tt. split; [by apply check_app_id_ok|].
    apply if_err_ok. split; [done|]. apply if_err_ok. split; [|by destruct k].
    rewrite andb_false_iff, !negb_decide_false. destruct Haa as [-> | ->]; [by left|by right].
Qed.

(** The counter is a [u32]. *)
Lemma counter_range data auth :
  bytes_ok data -> parse_authenticator data = Ok auth -> 0 <= counter auth <= U32_MAX.
Proof.
  intros Hb H. unfold parse_authenticator in H. apply if_err_ok in H as [Hl%Nat.ltb_ge H].
  assert (counter auth = from_be_bytes (slice 33 37 data)) as ->.
  { destruct (55 <=? length data)%nat; [apply if_err_ok in H as [_ [= <-]]|injection H as <-]; done. }
  assert (is_digits 256 (slice 33 37 data)) as Hd.
  { apply Forall_take, Forall_drop. eapply Forall_impl; [exact Hb|]. intros. by apply is_byte_lt. }
  split; [by apply (value_from_nonneg 256)|]. apply DerProps.pow256_4.
  eapply Z.lt_le_trans; [by apply (value_upper 256)|]. unfold slice. rewrite length_take, length_drop.
  apply Z.pow_le_mono_r; lia.
Qed.
End spec.
End AppAttest.
