(* ===== verification/PlayIntegrity.v ===== *)
(** * PlayIntegrity: Play Integrity tokens ([auth/play_integrity.rs], [auth/play_integrity/])

    Decryption and signature check of the token ([token.rs]), the nonce check
    ([play_integrity.rs]) and the verdict policy of the three modes
    ([verdict.rs]).  Base64, JSON, AES and ECDSA are parameters. *)

From stdpp Require Import pretty.
From S2P Require Import Prelude Strings.

#[local] Open Scope string_scope.
#[local] Open Scope Z_scope.

Module PlayIntegrity.

Inductive PlayIntegrityMode := Strict | RelaxedDevice | RelaxedAll.

Definition mode_from_str (s : string) : result PlayIntegrityMode string :=
  if String.eqb s "strict" then Ok Strict
  else if String.eqb s "relaxed_device" then Ok RelaxedDevice
  else if String.eqb s "relaxed_all" then Ok RelaxedAll
  else Err (debug_str s +:+ " is not one of strict, relaxed_device, relaxed_all").

Inductive PlayIntegrityError :=
| Malformed (m : string)
| Decrypt (m : string)
| Signature
| Nonce
| Rejected (codes : list string).

(** [Display]; [join]. *)
Definition integrity_error (e : PlayIntegrityError) : string :=
  match e with
  | Malformed m => "malformed integrity token: " +:+ m
  | Decrypt m => "integrity token decryption failed: " +:+ m
  | Signature => "integrity token signature invalid"
  | Nonce => "integrity token nonce mismatch"
  | Rejected codes => "integrity verdicts rejected: " +:+ String.concat "," codes
  end.

(** ** [token.rs]: the payload *)

Record AppIntegrity := {
  app_recognition_verdict : option string;
  package_name : option string;
  certificate_sha256_digest : option (list string);
}.

Record TokenPayload := {
  (** [request_details], with its [nonce]. *)
  request_details : option (option string);
  app_integrity : option AppIntegrity;
  (** [device_integrity], with its [device_recognition_verdict]. *)
  device_integrity : option (option (list string));
  (** [account_details], with its [app_licensing_verdict]. *)
  account_details : option (option string);
}.

Record PolicyParams := {
  expected_nonce : bytes;
  mode : PlayIntegrityMode;
  pp_package_names : list string;
  pp_playstore_digest : bytes;
  pp_website_digest : bytes;
}.

(** The crates: base64 (both URL-safe alphabets), JSON, AES key wrap, AES-GCM,
    ECDSA P-256 and SHA-256. *)
Record TokenCrates := {
  b64_url_no_pad : string -> option bytes;
  b64_url : string -> option bytes;
  jwe_header : bytes -> option (string * string);
  jws_header : bytes -> option string;
  payload_of_json : bytes -> result TokenPayload string;
  unwrap_key : bytes -> bytes -> result bytes string;
  gcm_decrypt : bytes -> bytes -> bytes -> bytes -> option bytes;
  p256_public_key_der : bytes -> result bytes string;
  p256_signature_slice : bytes -> option bytes;
  p256_verify : bytes -> bytes -> bytes -> bool;
  token_sha256 : bytes -> bytes;
}.

(** [str::split('.')]. *)
Fixpoint split_dots (s : string) : list string :=
  match s with
  | EmptyString => [EmptyString]
  | String c s' =>
      if Ascii.eqb c "." then EmptyString :: split_dots s'
      else match split_dots s' with
           | p :: ps => String c p :: ps
           | [] => [String c EmptyString]
           end
  end.

Section token.
Context (cr : TokenCrates).
#[local] Open Scope dub_scope.

Definition b64url (input : string) : option bytes :=
  match b64_url_no_pad cr (trim input) with
  | Some b => Some b
  | None => b64_url cr (trim input)
  end.

Definition required {A} (o : option A) (e : PlayIntegrityError) : result A PlayIntegrityError :=
  match o with Some a => Ok a | None => Err e end.

Definition decrypt_jwe (token : string) (decryption_key : bytes) : result bytes PlayIntegrityError :=
  let malformed what := Malformed ("jwe: " +:+ what) in
  match split_dots (trim token) with
  | [header_b64; encrypted_key; iv; ciphertext; tag] =>
      let? header_bytes := required (b64url header_b64) (malformed "header base64") in
      let? (alg, enc) := required (jwe_header cr header_bytes) (malformed "header json") in
      if negb (String.eqb alg "A256KW") || negb (String.eqb enc "A256GCM") then
        Err (malformed ("unsupported alg/enc " +:+ alg +:+ "/" +:+ enc))
      else
        let? wrapped_cek := required (b64url encrypted_key) (malformed "encrypted key base64") in
        let? cek := map_err (fun e => Decrypt ("key unwrap: " +:+ e))
                      (unwrap_key cr decryption_key wrapped_cek) in
        let? iv := required (b64url iv) (malformed "iv base64") in
        if negb (length iv =? 12)%nat then Err (malformed "iv is not 96 bits")
        else
          let? ct := required (b64url ciphertext) (malformed "ciphertext base64") in
          let? tag := required (b64url tag) (malformed "tag base64") in
          if negb (length cek =? 32)%nat then Err (Decrypt "content key is not 256 bits")
          else required (gcm_decrypt cr cek iv (ct ++ tag)%list (as_bytes header_b64))
                 (Decrypt "authenticated decryption failed")
  | _ => Err (malformed "expected 5 dot-separated parts")
  end.

Definition verify_jws (jws : bytes) (verification_key_der : bytes) : result bytes PlayIntegrityError :=
  let malformed what := Malformed ("jws: " +:+ what) in
  let? jws := required (from_utf8 jws) (malformed "not utf-8") in
  match split_dots (trim jws) with
  | [header_b64; payload_b64; signature_b64] =>
      let? header_bytes := required (b64url header_b64) (malformed "header base64") in
      let? alg := required (jws_header cr header_bytes) (malformed "header json") in
      if negb (String.eqb alg "ES256") then Err (malformed ("unsupported alg " +:+ alg))
      else
        let? key := map_err (fun e => Malformed ("verification key: " +:+ e))
                      (p256_public_key_der cr verification_key_der) in
        let? signature_bytes := required (b64url signature_b64) (malformed "signature base64") in
        let? signature := required (p256_signature_slice cr signature_bytes) Signature in
        let signing_input := header_b64 +:+ "." +:+ payload_b64 in
        if negb (p256_verify cr key (token_sha256 cr (as_bytes signing_input)) signature)
        then Err Signature
        else required (b64url payload_b64) (malformed "payload base64")
  | _ => Err (malformed "expected 3 dot-separated parts")
  end.

Definition decrypt_and_verify (integrity_token : string) (decryption_key verification_key_der : bytes)
    : result TokenPayload PlayIntegrityError :=
  let? jws := decrypt_jwe integrity_token decryption_key in
  let? payload := verify_jws jws verification_key_der in
  map_err (fun e => Malformed ("verdict payload: " +:+ e)) (payload_of_json cr payload).

(** ** [verdict.rs] *)

Definition APP_INTEGRITY_FAILED : string := "APP_INTEGRITY_FAILED".
Definition DEVICE_INTEGRITY_FAILED : string := "DEVICE_INTEGRITY_FAILED".
Definition LICENSE_CHECK_FAILED : string := "LICENSE_CHECK_FAILED".
Definition APK_FINGERPRINT_MISMATCH : string := "APK_FINGERPRINT_MISMATCH".
Definition PACKAGE_NAME_MISMATCH : string := "PACKAGE_NAME_MISMATCH".

Record ModePolicy := {
  accept_app_recognition : list string;
  accept_device_recognition : list string;
  accept_empty_device_recognition : bool;
  accept_app_licensing : list string;
  accept_missing_app_integrity : bool;
}.

Definition STRICT : ModePolicy :=
  {| accept_app_recognition := ["PLAY_RECOGNIZED"];
     accept_device_recognition := ["MEETS_STRONG_INTEGRITY"; "MEETS_DEVICE_INTEGRITY"];
     accept_empty_device_recognition := false;
     accept_app_licensing := ["LICENSED"];
     accept_missing_app_integrity := false |}.

Definition RELAXED_DEVICE : ModePolicy :=
  {| accept_app_recognition := ["PLAY_RECOGNIZED"];
     accept_device_recognition :=
       ["MEETS_DEVICE_INTEGRITY"; "MEETS_BASIC_INTEGRITY"; "MEETS_STRONG_INTEGRITY"];
     accept_empty_device_recognition := false;
     accept_app_licensing := ["LICENSED"];
     accept_missing_app_integrity := false |}.

Definition KNOWN_APP_RECOGNITION : list string := ["PLAY_RECOGNIZED"; "UNRECOGNIZED_VERSION"; "UNEVALUATED"].
Definition KNOWN_DEVICE_RECOGNITION : list string :=
  ["MEETS_DEVICE_INTEGRITY"; "MEETS_BASIC_INTEGRITY"; "MEETS_STRONG_INTEGRITY"; "MEETS_VIRTUAL_INTEGRITY"].
Definition KNOWN_APP_LICENSING : list string := ["LICENSED"; "UNLICENSED"; "UNEVALUATED"].

Definition RELAXED_ALL : ModePolicy :=
  {| accept_app_recognition := ["PLAY_RECOGNIZED"; "UNRECOGNIZED_VERSION"; "UNEVALUATED"];
     accept_device_recognition :=
       ["MEETS_DEVICE_INTEGRITY"; "MEETS_BASIC_INTEGRITY"; "MEETS_STRONG_INTEGRITY"; "MEETS_VIRTUAL_INTEGRITY"];
     accept_empty_device_recognition := true;
     accept_app_licensing := ["LICENSED"; "UNLICENSED"; "UNEVALUATED"];
     accept_missing_app_integrity := true |}.

Definition policy (m : PlayIntegrityMode) : ModePolicy :=
  match m with Strict => STRICT | RelaxedDevice => RELAXED_DEVICE | RelaxedAll => RELAXED_ALL end.

Definition mem (s : string) (l : list string) : bool := bool_decide (s ∈ l).

Definition known (value : option string) (known_values : list string) : option string :=
  v ← value; if mem v known_values then Some v else None.

Definition accepted (value : option string) (l : list string) : bool :=
  match value with Some v => mem v l | None => false end.

(** The verdicts [validate] reads off the payload. *)
Definition app_recognition (p : TokenPayload) : option string :=
  known (app_integrity p ≫= app_recognition_verdict) KNOWN_APP_RECOGNITION.
Definition licensing (p : TokenPayload) : option string :=
  known (account_details p ≫= fun v => v) KNOWN_APP_LICENSING.
Definition device_verdicts (p : TokenPayload) : list string :=
  match device_integrity p ≫= fun v => v with
  | Some l => filter (fun v => v ∈ KNOWN_DEVICE_RECOGNITION) l
  | None => []
  end.
Definition token_digests (p : TokenPayload) : list bytes :=
  match app_integrity p ≫= certificate_sha256_digest with
  | Some l => omap b64url l
  | None => []
  end.

Definition code (failed : bool) (c : string) : list string := if failed then [c] else [].

Definition validate (payload : TokenPayload) (params : PolicyParams) : result bool PlayIntegrityError :=
  let policy := policy (mode params) in
  let app := app_recognition payload in
  let c1 := code (negb (accepted app (accept_app_recognition policy))) APP_INTEGRITY_FAILED in
  let device_ok :=
    match device_verdicts payload with
    | [] => accept_empty_device_recognition policy
    | vs => existsb (fun v => mem v (accept_device_recognition policy)) vs
    end in
  let c2 := code (negb device_ok) DEVICE_INTEGRITY_FAILED in
  let lic := licensing payload in
  let c3 := code (negb (accepted lic (accept_app_licensing policy))) LICENSE_CHECK_FAILED in
  let digests := token_digests payload in
  let matches_expected d :=
    bool_decide (d = pp_playstore_digest params) || bool_decide (d = pp_website_digest params) in
  let c4 :=
    match digests with
    | [] => code (negb (accept_missing_app_integrity policy)) APK_FINGERPRINT_MISMATCH
    | _ => code (negb (existsb matches_expected digests)) APK_FINGERPRINT_MISMATCH
    end in
  let c5 :=
    match app_integrity payload ≫= package_name with
    | Some name => code (negb (mem name (pp_package_names params))) PACKAGE_NAME_MISMATCH
    | None => code (negb (accept_missing_app_integrity policy)) PACKAGE_NAME_MISMATCH
    end in
  match (c1 ++ c2 ++ c3 ++ c4 ++ c5)%list with
  | [] =>
      let play_distributed :=
        bool_decide (app = Some "PLAY_RECOGNIZED") && bool_decide (lic = Some "LICENSED") in
      Ok (play_distributed && existsb (fun d => bool_decide (d = pp_playstore_digest params)) digests)
  | codes => Err (Rejected codes)
  end.

(** ** [play_integrity.rs] *)

Definition check_payload (payload : TokenPayload) (policy : PolicyParams) : result bool PlayIntegrityError :=
  match request_details payload ≫= fun nonce => nonce with
  | None => Err Nonce
  | Some nonce =>
      match b64url nonce with
      | None => Err Nonce
      | Some nonce_bytes =>
          if negb (bool_decide (nonce_bytes = expected_nonce policy)) then Err Nonce
          else validate payload policy
      end
  end.

Definition verify_token (integrity_token : string) (decryption_key verification_key_der : bytes)
    (policy : PolicyParams) : result bool PlayIntegrityError :=
  let? payload := decrypt_and_verify integrity_token decryption_key verification_key_der in
  check_payload payload policy.
End token.

(** ** What the verdict policy accepts *)

Section spec.
Context (cr : TokenCrates).

Definition device_accepted (pol : ModePolicy) (p : TokenPayload) : Prop :=
  (device_verdicts p = [] /\ accept_empty_device_recognition pol = true) \/
  exists v, v ∈ device_verdicts p /\ v ∈ accept_device_recognition pol.

Definition fingerprint_accepted (pol : ModePolicy) (params : PolicyParams) (p : TokenPayload) : Prop :=
  (token_digests cr p = [] /\ accept_missing_app_integrity pol = true) \/
  pp_playstore_digest params ∈ token_digests cr p \/ pp_website_digest params ∈ token_digests cr p.

Definition package_accepted (pol : ModePolicy) (params : PolicyParams) (p : TokenPayload) : Prop :=
  match app_integrity p ≫= package_name with
  | Some name => name ∈ pp_package_names params
  | None => accept_missing_app_integrity pol = true
  end.

(** The five conditions of a policy. *)
Record verdict_ok (pol : ModePolicy) (params : PolicyParams) (p : TokenPayload) : Prop := {
  vo_app : exists v, app_recognition p = Some v /\ v ∈ accept_app_recognition pol;
  vo_device : device_accepted pol p;
  vo_license : exists v, licensing p = Some v /\ v ∈ accept_app_licensing pol;
  vo_fingerprint : fingerprint_accepted pol params p;
  vo_package : package_accepted pol params p;
}.

(** Play distributed this install, signed with the Play key. *)
Definition from_store (params : PolicyParams) (p : TokenPayload) : Prop :=
  app_recognition p = Some "PLAY_RECOGNIZED" /\ licensing p = Some "LICENSED" /\
  pp_playstore_digest params ∈ token_digests cr p.

Lemma code_nil b c : code (negb b) c = [] <-> b = true.
Proof. by destruct b. Qed.

Lemma accepted_iff value l : accepted value l = true <-> exists v, value = Some v /\ v ∈ l.
Proof.
  unfold accepted, mem. destruct value as [v|].
  - rewrite bool_decide_eq_true. naive_solver.
  - naive_solver.
Qed.

Lemma existsb_iff {A} (f : A -> bool) l : existsb f l = true <-> exists x, x ∈ l /\ f x = true.
Proof. rewrite existsb_exists. by setoid_rewrite list_elem_of_In. Qed.

Lemma device_iff pol p :
  match device_verdicts p with
  | [] => accept_empty_device_recognition pol
  | vs => existsb (fun v => mem v (accept_device_recognition pol)) vs
  end = true <-> device_accepted pol p.
Proof.
  unfold device_accepted. destruct (device_verdicts p) as [|v vs] eqn:E.
  - split; [by left|]. intros [[_ ?]|(? & ?%not_elem_of_nil & _)]; done.
  - rewrite existsb_iff. unfold mem. setoid_rewrite bool_decide_eq_true.
    split; [by right|]. by intros [[? _]|].
Qed.

Lemma digest_iff params (ds : list bytes) :
  existsb (fun d => bool_decide (d = pp_playstore_digest params) || bool_decide (d = pp_website_digest params)) ds = true <->
  pp_playstore_digest params ∈ ds \/ pp_website_digest params ∈ ds.
Proof.
  rewrite existsb_iff. setoid_rewrite orb_true_iff. setoid_rewrite bool_decide_eq_true. naive_solver.
Qed.

Lemma fingerprint_iff pol params p :
  match token_digests cr p with
  | [] => code (negb (accept_missing_app_integrity pol)) APK_FINGERPRINT_MISMATCH
  | _ => code (negb (existsb (fun d => bool_decide (d = pp_playstore_digest params)
                                       || bool_decide (d = pp_website_digest params)) (token_digests cr p)))
           APK_FINGERPRINT_MISMATCH
  end = [] <-> fingerprint_accepted pol params p.
Proof.
  unfold fingerprint_accepted. destruct (token_digests cr p) as [|d ds] eqn:E; rewrite code_nil.
  - split; [by left|]. intros [[_ ?]|[?%not_elem_of_nil|?%not_elem_of_nil]]; done.
  - rewrite digest_iff. split; [by right|]. intros [[? _]|?]; done.
Qed.

Lemma package_iff pol params p :
  match app_integrity p ≫= package_name with
  | Some name => code (negb (mem name (pp_package_names params))) PACKAGE_NAME_MISMATCH
  | None => code (negb (accept_missing_app_integrity pol)) PACKAGE_NAME_MISMATCH
  end = [] <-> package_accepted pol params p.
Proof.
  unfold package_accepted, mem. destruct (app_integrity p ≫= package_name) as [n|]; rewrite code_nil; [|done].
  apply bool_decide_eq_true.
Qed.

Lemma from_store_iff params p :
  bool_decide (app_recognition p = Some "PLAY_RECOGNIZED") && bool_decide (licensing p = Some "LICENSED")
  && existsb (fun d => bool_decide (d = pp_playstore_digest params)) (token_digests cr p) = true
  <-> from_store params p.
Proof.
  unfold from_store. rewrite !andb_true_iff, !bool_decide_eq_true, existsb_iff.
  setoid_rewrite bool_decide_eq_true. naive_solver.
Qed.

Lemma validate_ok params p b :
  validate cr p params = Ok b <->
  verdict_ok (policy (mode params)) params p /\ (b = true <-> from_store params p).
Proof.
  unfold validate. set (pol := policy (mode params)).
  match goal with |- match ?l with _ => _ end = _ <-> _ => assert (l = [] <-> verdict_ok pol params p) as Hl end.
  { rewrite !app_nil. rewrite fingerprint_iff, package_iff, !code_nil, !accepted_iff, device_iff.
    split; [by intros (? & ? & ? & ? & ?)|]. by intros []. }
  match goal with |- match ?l with _ => _ end = _ <-> _ => destruct l as [|c cs] end.
  - rewrite <-from_store_iff. split.
    + intros [= <-]. split; [by apply Hl|done].
    + intros [_ Hb]. f_equal. apply eq_bool_prop_intro. rewrite !Is_true_true. by rewrite Hb.
  - split; [done|]. intros [?%Hl _]. done.
Qed.

(** A Play Integrity payload is accepted exactly when its nonce is the expected
    one and the mode's five conditions hold; it counts as installed from the
    store exactly when Play recognised and licensed the app and the Play signing
    digest is among its certificates, in every mode. *)
Theorem payload_exact params p b :
  check_payload cr p params = Ok b <->
  (exists nonce, request_details p = Some (Some nonce) /\ b64url cr nonce = Some (expected_nonce params)) /\
  verdict_ok (policy (mode params)) params p /\ (b = true <-> from_store params p).
Proof.
  unfold check_payload. destruct (request_details p) as [[nonce|]|]; cbn; [|naive_solver..].
  destruct (b64url cr nonce) as [n|] eqn:En; [|naive_solver].
  case_bool_decide as Hn; cbn [negb].
  - rewrite validate_ok. naive_solver.
  - split; [done|]. intros [(? & [= <-] & ?) _]. congruence.
Qed.
End spec.

(** The modes are ordered: each accepts what the one before accepts. *)
Definition stricter (a b : ModePolicy) : Prop :=
  accept_app_recognition a ⊆ accept_app_recognition b /\
  accept_device_recognition a ⊆ accept_device_recognition b /\
  (accept_empty_device_recognition a = true -> accept_empty_device_recognition b = true) /\
  accept_app_licensing a ⊆ accept_app_licensing b /\
  (accept_missing_app_integrity a = true -> accept_missing_app_integrity b = true).

Lemma verdict_ok_mono cr a b params p : stricter a b -> verdict_ok cr a params p -> verdict_ok cr b params p.
Proof.
  intros (Ha & Hd & He & Hl & Hm) [(v & ? & ?) Hdev (w & ? & ?) Hfp Hpk]. constructor.
  - exists v. auto.
  - destruct Hdev as [[? ?]|(x & ? & ?)]; [left; auto|right; eauto].
  - exists w. auto.
  - destruct Hfp as [[? ?]|?]; [left; auto|by right].
  - unfold package_accepted in *. destruct (app_integrity p ≫= package_name); auto.
Qed.

Definition with_mode (m : PlayIntegrityMode) (params : PolicyParams) : PolicyParams :=
  {| expected_nonce := expected_nonce params; mode := m; pp_package_names := pp_package_names params;
     pp_playstore_digest := pp_playstore_digest params; pp_website_digest := pp_website_digest params |}.

Definition mode_le (a b : PlayIntegrityMode) : bool :=
  match a, b with
  | Strict, _ | RelaxedDevice, RelaxedDevice | RelaxedDevice, RelaxedAll | RelaxedAll, RelaxedAll => true
  | _, _ => false
  end.

Lemma mode_le_stricter a b : mode_le a b = true -> stricter (policy a) (policy b).
Proof.
  destruct a, b; try done; intros _; unfold stricter; split_and!; cbn; try done; set_solver.
Qed.

(** Relaxing the mode never refuses what a stricter mode accepts, and never
    changes the store verdict: only the set of admitted installs grows. *)
Theorem modes_monotone cr m m' params p b :
  mode_le m m' = true ->
  check_payload cr p (with_mode m params) = Ok b -> check_payload cr p (with_mode m' params) = Ok b.
Proof.
  intros Hm. unfold check_payload. cbn [with_mode expected_nonce].
  destruct (request_details p ≫= _) as [n|]; [|done]. destruct (b64url cr n) as [bs|]; [|done].
  destruct (negb _); [done|]. rewrite !validate_ok. cbn [with_mode mode].
  intros [Hv Hb]. split; [|exact Hb].
  apply (verdict_ok_mono cr (policy m)); [by apply mode_le_stricter|].
  destruct Hv. by constructor.
Qed.

(** A store install, under crates that pass every string through. *)
Definition demo_token_crates : TokenCrates :=
  {| b64_url_no_pad := fun s => Some (as_bytes s); b64_url := fun _ => None;
     jwe_header := fun _ => None; jws_header := fun _ => None; payload_of_json := fun _ => Err EmptyString;
     unwrap_key := fun _ _ => Err EmptyString; gcm_decrypt := fun _ _ _ _ => None;
     p256_public_key_der := fun _ => Err EmptyString; p256_signature_slice := fun _ => None;
     p256_verify := fun _ _ _ => false; token_sha256 := fun b => b |}.
Definition demo_params : PolicyParams :=
  {| expected_nonce := as_bytes "nonce"; mode := Strict; pp_package_names := ["io.pcf.polkadotapp"];
     pp_playstore_digest := as_bytes "play"; pp_website_digest := as_bytes "web" |}.
Definition demo_payload : TokenPayload :=
  {| request_details := Some (Some "nonce");
     app_integrity := Some {| app_recognition_verdict := Some "PLAY_RECOGNIZED";
                              package_name := Some "io.pcf.polkadotapp";
                              certificate_sha256_digest := Some ["play"] |};
     device_integrity := Some (Some ["MEETS_DEVICE_INTEGRITY"]);
     account_details := Some (Some "LICENSED") |}.

Lemma modes_monotone_witness :
  check_payload demo_token_crates demo_payload (with_mode Strict demo_params) = Ok true /\
  check_payload demo_token_crates demo_payload (with_mode RelaxedAll demo_params) = Ok true.
Proof.
  assert (check_payload demo_token_crates demo_payload (with_mode Strict demo_params) = Ok true) as H
    by (vm_compute; reflexivity).
  split; [exact H|].
  exact (modes_monotone demo_token_crates Strict RelaxedAll demo_params demo_payload true eq_refl H).
Defined.
End PlayIntegrity.
