(* ===== verification/Auth.v ===== *)
(** * Auth: tokens, refresh rotation and App Attest keys ([auth.rs], [auth/])

    [POST /auth/token] ([token.rs]) with its dispatch on the platform attestation,
    refresh rotation ([refresh.rs]), App Attest key registration and assertion
    counters ([app_attest.rs], [app_attest/store.rs]), and the client proof
    ([proof.rs]), on top of the platform attestations ([KeyAttest], [AppAttest],
    [PlayIntegrity]) and the token issuer ([Jwt]).  Base64, JSON, CBOR, X.509, the
    hashes and the signature schemes are parameters; so is Google's
    [decodeIntegrityToken] service. *)

From stdpp Require Import pretty.
From S2P Require Import Prelude Strings Schema DeviceGate Jwt KeyAttest AppAttest PlayIntegrity.

#[local] Open Scope string_scope.
#[local] Open Scope Z_scope.

Module Auth.

(** ** State *)

Record Session := {
  account_id : string;
  app_from_official_store : bool;
  platform : option string;
}.

(** [refresh_tokens], keyed by [token]. *)
Record RefreshRow := {
  rt_session : Session;
  rt_created_at : Z;
  rt_expires_at : Z;
  rt_used_at : option Z;
  rt_replaced_by : option string;
}.

(** [app_attest_keys], keyed by [key_id]. *)
Record KeyRow := {
  k_public_key : bytes;
  k_receipt : bytes;
  k_registering_client_id : option bytes;
  k_sign_count : Z;
  k_created_at : Z;
  k_last_asserted_at : option Z;
}.

Record AuthDb := {
  a_db : Db;
  a_refresh : gmap string RefreshRow;
  a_keys : gmap bytes KeyRow;
}.

Definition with_db (d : Db) (s : AuthDb) : AuthDb :=
  {| a_db := d; a_refresh := a_refresh s; a_keys := a_keys s |}.
Definition with_refresh (t : gmap string RefreshRow) (s : AuthDb) : AuthDb :=
  {| a_db := a_db s; a_refresh := t; a_keys := a_keys s |}.
Definition with_keys (t : gmap bytes KeyRow) (s : AuthDb) : AuthDb :=
  {| a_db := a_db s; a_refresh := a_refresh s; a_keys := t |}.

(** ** [refresh.rs] *)

(** The insert both paths share; [false] when the primary key is taken. *)
Definition insert_refresh (now expires : Z) (token : string) (session : Session) (s : AuthDb)
    : bool * AuthDb :=
  match a_refresh s !! token with
  | Some _ => (false, s)
  | None =>
      (true, with_refresh (<[token := {| rt_session := session; rt_created_at := now;
                                         rt_expires_at := expires; rt_used_at := None;
                                         rt_replaced_by := None |}]> (a_refresh s)) s)
  end.

(** [mint], with the random token drawn; [None] when the insert failed. *)
Definition mint (now app_now ttl : Z) (token : string) (session : Session) (s : AuthDb)
    : option string * AuthDb :=
  let '(ok, s') := insert_refresh now (app_now + secs ttl) token session s in
  (if (ok : bool) then Some token else None, s').

(** The body of the transaction: [Err false] rolls back and answers [Ok None],
    [Err true] is a database error. *)
Definition rotate_txn (now app_now ttl : Z) (new_token presented : string) (s : AuthDb)
    : result (Session * string) bool * AuthDb :=
  match a_refresh s !! presented with
  | None => (Err false, s)
  | Some row =>
      if bool_decide (is_Some (rt_used_at row)) || (rt_expires_at row <=? app_now) then (Err false, s)
      else
        let s1 := with_refresh
          (<[presented := {| rt_session := rt_session row; rt_created_at := rt_created_at row;
                             rt_expires_at := rt_expires_at row; rt_used_at := Some now;
                             rt_replaced_by := Some new_token |}]> (a_refresh s)) s in
        let '(ok, s2) := insert_refresh now (app_now + secs ttl) new_token (rt_session row) s1 in
        if (ok : bool) then (Ok (rt_session row, new_token), s2) else (Err true, s2)
  end.

(** [rotate_token] with the fate of the transaction: [None] is [Err(sqlx::Error)]. *)
Definition rotate_token (fate : DbFate) (now app_now ttl : Z) (new_token presented : string)
    (s : AuthDb) : option (option (Session * string)) * AuthDb :=
  let '(r, s') := rotate_txn now app_now ttl new_token presented s in
  let committed := match r with Ok _ => s' | Err _ => s end in
  match fate with
  | Refused => (None, s)
  | AckLost => (None, committed)
  | Fine =>
      (match r with
       | Ok x => Some (Some x)
       | Err false => Some None
       | Err true => None
       end, committed)
  end.

(** ** [app_attest/store.rs] *)

Definition find (key_id : bytes) (s : AuthDb) : option (bytes * Z) :=
  (fun k => (k_public_key k, k_sign_count k)) <$> a_keys s !! key_id.

Definition upsert (now : Z) (key_id public_key receipt : bytes) (registering_client_id : option bytes)
    (s : AuthDb) : AuthDb :=
  with_keys
    (<[key_id :=
         match a_keys s !! key_id with
         | None => {| k_public_key := public_key; k_receipt := receipt;
                      k_registering_client_id := registering_client_id; k_sign_count := 0;
                      k_created_at := now; k_last_asserted_at := None |}
         | Some k => {| k_public_key := public_key; k_receipt := receipt;
                        k_registering_client_id := k_registering_client_id k; k_sign_count := 0;
                        k_created_at := k_created_at k; k_last_asserted_at := k_last_asserted_at k |}
         end]> (a_keys s)) s.

Definition commit_sign_count (now : Z) (key_id : bytes) (sign_count : Z) (s : AuthDb) : bool * AuthDb :=
  match a_keys s !! key_id with
  | Some k =>
      if k_sign_count k <? sign_count then
        (true, with_keys
           (<[key_id := {| k_public_key := k_public_key k; k_receipt := k_receipt k;
                           k_registering_client_id := k_registering_client_id k; k_sign_count := sign_count; k_created_at := k_created_at k;
                           k_last_asserted_at := Some now |}]> (a_keys s)) s)
      else (false, s)
  | None => (false, s)
  end.

(** ** [http/error.rs] *)

Inductive AppError :=
| RateLimited
| BadRequest (m : string)
| Unauthorized
| Forbidden (m : string)
| IntegrityFailed (m : string)
| CrlUnavailable
| Conflict (m : string)
| Internal (m : string).

Definition status_code (e : AppError) : Z * string :=
  match e with
  | RateLimited => (429, "RATE_LIMITED")
  | BadRequest _ => (400, "WRONG_DATA")
  | Unauthorized => (401, "UNAUTHORIZED")
  | Forbidden _ => (403, "FORBIDDEN")
  | IntegrityFailed _ => (403, "INTEGRITY_FAILED")
  | CrlUnavailable => (503, "ATTESTATION_CRL_UNAVAILABLE")
  | Conflict _ => (409, "CONFLICT")
  | Internal _ => (500, "INTERNAL")
  end.

Definition error_message (e : AppError) : string :=
  match e with
  | BadRequest m | Forbidden m | IntegrityFailed m | Conflict m | Internal m => m
  | RateLimited => "rate limited"
  | Unauthorized => "unauthorized"
  | CrlUnavailable => "attestation CRL unavailable"
  end.

(** ** The handlers *)

(** A header as [get] and [to_str] give it: absent, not text, or its text. *)
Definition Headers : Type := string -> option (option string).

Definition header_text (headers : Headers) (name : string) : option string :=
  match headers name with Some (Some v) => Some v | _ => None end.
Definition contains_key (headers : Headers) (name : string) : bool :=
  match headers name with Some _ => true | None => false end.

Definition detect_platform (headers : Headers) : option string :=
  if contains_key headers "auth-ios-package" then Some "ios"
  else if contains_key headers "auth-android-package"
          || bool_decide (header_text headers "auth-attestation-type" = Some "key-attestation")
       then Some "android"
  else None.

Record AuthConfig := {
  auth_enabled : bool;
  enforce_auth : bool;
  access_ttl : Z;
  refresh_ttl : Z;
  ios_package_names : list string;
  apple_app_attest_app_ids : list string;
  android_package_names : list string;
  android_signing_digest_playstore : option bytes;
  android_signing_digest_website : option bytes;
  play_integrity_mode : PlayIntegrity.PlayIntegrityMode;
  play_integrity_decryption_key : option bytes;
  play_integrity_verification_key : option bytes;
}.

(** The crates; [google] is the decoder service, when it is configured. *)
Record AuthCrates := {
  b64_decode : string -> option bytes;
  sr25519_verify : bytes -> bytes -> bytes -> bool;
  crypto : X509.Crypto;
  cbor : bytes -> result AppAttest.Value string;
  parse_body : bytes -> result (option (list string)) string;
  token_crates : PlayIntegrity.TokenCrates;
  google : option (string -> string -> result PlayIntegrity.TokenPayload string);
}.

(** What one request meets. *)
Record AuthEnv := {
  now : Z;
  app_now : Z;
  random_token : string;
  crl : result (gset string) string;
  others : nat -> AuthDb -> AuthDb;
  fate : nat -> DbFate;
}.

Section handlers.
Context {jwt_crates : Jwt.JwtCrates} (jwt : Jwt.JwtKeys) (cr : AuthCrates) (config : AuthConfig) (env : AuthEnv).
#[local] Open Scope dub_scope.

Definition decode_header (headers : Headers) (name : string) : result bytes AppError :=
  match header_text headers name with
  | None => Err (BadRequest ("missing or invalid header " +:+ name))
  | Some raw =>
      match b64_decode cr (trim raw) with
      | Some b => Ok b
      | None => Err (BadRequest ("header " +:+ name +:+ " is not valid base64"))
      end
  end.

Definition decode_header_fixed (n : nat) (headers : Headers) (name : string) : result bytes AppError :=
  let? b := decode_header headers name in
  if decide (length b = n) then Ok b
  else Err (BadRequest ("header " +:+ name +:+ " must decode to " +:+ pretty n +:+ " bytes")).

Definition client_data_hash (challenge client_id body : bytes) : bytes :=
  X509.sha256 (crypto cr) (challenge ++ client_id ++ X509.sha256 (crypto cr) body)%list.

Definition proof_verify (challenge client_id body proof : bytes) : bool :=
  sr25519_verify cr proof (client_data_hash challenge client_id body) client_id.

(** State and errors. *)
Definition H (A : Type) : Type := AuthDb -> result A AppError * AuthDb.
Definition hret {A} (a : A) : H A := fun s => (Ok a, s).
Definition herr {A} (e : AppError) : H A := fun s => (Err e, s).
Definition hbind {A B} (m : H A) (k : A -> H B) : H B := fun s =>
  match m s with (Ok a, s') => k a s' | (Err e, s') => (Err e, s') end.
Definition hlift {A} (r : result A AppError) : H A := fun s => (r, s).

(** Statement [i]: the rest of the system first, then the statement and its fate. *)
Definition stmt {A} (i : nat) (f : AuthDb -> A * AuthDb) : H A := fun s =>
  let s0 := others env i s in
  match fate env i with
  | Fine => let '(a, s') := f s0 in (Ok a, s')
  | Refused => (Err (Internal "database"), s0)
  | AckLost => (Err (Internal "database"), (f s0).2)
  end.

#[local] Notation "'let*' x ':=' c 'in' k" := (hbind c (fun x => k))
  (at level 10, x pattern, c at level 100, k at level 200).

Definition consume_stmt (challenge : bytes) (s : AuthDb) : bool * AuthDb :=
  let '(ok, d) := DeviceGate.consume (now env) challenge (a_db s) in (ok, with_db d s).

Definition ios_attestation_verdict (headers : Headers) (challenge client_id body : bytes)
    : H (result unit string) :=
  match header_text headers "auth-ios-package" with
  | None => hret (Err "no iOS package header; platform attestation unavailable")
  | Some package =>
      if negb (bool_decide (package ∈ ios_package_names config))
      then hret (Err ("unknown iOS package " +:+ package))
      else
        match decode_header headers "auth-payload", decode_header headers "auth-ios-keyid" with
        | Err _, _ => hret (Err "missing or invalid Auth-Payload assertion")
        | Ok _, Err _ => hret (Err "missing or invalid Auth-iOS-KeyId")
        | Ok assertion, Ok key_id =>
            let* key := stmt 1 (fun s => (find key_id s, s)) in
            match (key : option (bytes * Z)) with
            | None => hret (Err "unregistered App Attest key")
            | Some (public_key, sign_count) =>
                match AppAttest.verify_assertion (crypto cr) (cbor cr) assertion
                        (client_data_hash challenge client_id body) public_key
                        (apple_app_attest_app_ids config) sign_count with
                | Err e => hret (Err (AppAttest.attest_error e))
                | Ok next =>
                    let* committed := stmt 2 (commit_sign_count (now env) key_id next) in
                    hret (if (committed : bool) then Ok tt
                          else Err "assertion sign count no longer monotonic")
                end
            end
        end
  end.

Definition key_attestation_verdict (challenge body : bytes) : result (result bool string) AppError :=
  match KeyAttest.chain_from_body (parse_body cr) (b64_decode cr) body with
  | Err reason => Ok (Err reason)
  | Ok chain =>
      match android_signing_digest_playstore config, android_signing_digest_website config with
      | Some playstore, Some website =>
          match crl env with
          | Err e => if enforce_auth config then Err CrlUnavailable
                     else Ok (Err ("attestation CRL unavailable: " +:+ e))
          | Ok revoked =>
              Ok (match KeyAttest.verify_chain (crypto cr) chain
                          {| KeyAttest.vp_challenge := challenge;
                             KeyAttest.vp_package_names := android_package_names config;
                             KeyAttest.vp_playstore_digest := playstore;
                             KeyAttest.vp_website_digest := website;
                             KeyAttest.trusted_roots_der := KeyAttest.google_roots_der (b64_decode cr);
                             KeyAttest.trusted_verified_boot_keys := KeyAttest.GRAPHENEOS_VERIFIED_BOOT_KEYS;
                             KeyAttest.revoked_serials := revoked;
                             KeyAttest.now_unix := unix_timestamp (app_now env) |} with
                  | Ok _ => Ok false
                  | Err e => Err (KeyAttest.to_string e)
                  end)
          end
      | _, _ => Ok (Err "android signing digests are not configured")
      end
  end.

Definition play_integrity_verdict (headers : Headers) (challenge client_id body : bytes)
    : result bool string :=
  match header_text headers "auth-android-package" with
  | None => Err "missing Auth-Android-Package header"
  | Some package =>
      if negb (bool_decide (package ∈ android_package_names config))
      then Err ("unknown Android package " +:+ package)
      else
        match header_text headers "auth-payload" with
        | None => Err "missing Auth-Payload integrity token"
        | Some integrity_token =>
            match android_signing_digest_playstore config, android_signing_digest_website config with
            | Some playstore, Some website =>
                let policy :=
                  {| PlayIntegrity.expected_nonce := client_data_hash challenge client_id body;
                     PlayIntegrity.mode := play_integrity_mode config;
                     PlayIntegrity.pp_package_names := android_package_names config;
                     PlayIntegrity.pp_playstore_digest := playstore;
                     PlayIntegrity.pp_website_digest := website |} in
                match play_integrity_decryption_key config, play_integrity_verification_key config with
                | Some decryption_key, Some verification_key =>
                    map_err PlayIntegrity.integrity_error
                      (PlayIntegrity.verify_token (token_crates cr) integrity_token decryption_key
                         verification_key policy)
                | _, _ =>
                    match google cr with
                    | Some decode =>
                        let? payload := map_err (fun e => "google decode fallback: " +:+ e)
                                          (decode package integrity_token) in
                        map_err PlayIntegrity.integrity_error
                          (PlayIntegrity.check_payload (token_crates cr) payload policy)
                    | None =>
                        Err "play integrity is not configured (neither self-managed keys nor GOOGLE_CREDENTIALS)"
                    end
                end
            | _, _ => Err "android signing digests are not configured"
            end
        end
  end.

Definition attestation_verdict (headers : Headers) (challenge client_id body : bytes)
    : H (result bool string) :=
  if contains_key headers "auth-ios-package" then
    let* v := ios_attestation_verdict headers challenge client_id body in
    hret (let? _ := v in Ok true)
  else
    match header_text headers "auth-attestation-type" with
    | Some t =>
        if String.eqb t "key-attestation" then hlift (key_attestation_verdict challenge body)
        else if String.eqb t "play-integrity" then
          hret (play_integrity_verdict headers challenge client_id body)
        else hret (Err ("unknown Auth-Attestation-Type " +:+ debug_str t))
    | None =>
        hret (Err "no attestation evidence (no Auth-iOS-Package or Auth-Attestation-Type)")
    end.

Definition account_of (client_id : bytes) : string := "0x" +:+ hex_encode client_id.

(** [POST /auth/token]. *)
Definition issue (headers : Headers) (body : bytes) : H (string * string) :=
  let* client_id := hlift (decode_header_fixed 32 headers "auth-clientid") in
  let* client_proof := hlift (decode_header_fixed 64 headers "auth-clientproof") in
  let* challenge := hlift (decode_header headers "auth-challenge") in
  let* consumed := stmt 0 (consume_stmt challenge) in
  if negb (consumed : bool) then herr Unauthorized
  else if negb (proof_verify challenge client_id body client_proof) then herr Unauthorized
  else
    let* from_store :=
      (if auth_enabled config then
         let* verdict := attestation_verdict headers challenge client_id body in
         match (verdict : result bool string) with
         | Ok from_store => hret from_store
         | Err reason => if enforce_auth config then herr (IntegrityFailed reason) else hret false
         end
       else hret true) in
    let session := {| account_id := account_of client_id; app_from_official_store := from_store;
                      platform := detect_platform headers |} in
    let token := Jwt.issue jwt (unix_timestamp (app_now env)) (account_id session)
                   (app_from_official_store session) (platform session) (access_ttl config) in
    let* refresh := stmt 3 (mint (now env) (app_now env) (refresh_ttl config) (random_token env) session) in
    match (refresh : option string) with
    | None => herr (Internal "database")
    | Some refresh_token => hret (token, refresh_token)
    end.

(** [POST /auth/token/refresh]. *)
Definition rotate (presented : string) : H (string * string) := fun s =>
  let '(r, s') :=
    rotate_token (fate env 0) (now env) (app_now env) (refresh_ttl config) (random_token env) presented
      (others env 0 s) in
  (match r with
   | None => Err (Internal "database")
   | Some None => Err Unauthorized
   | Some (Some (session, refresh_token)) => 
      Ok (Jwt.issue jwt (unix_timestamp (app_now env)) (account_id session)
            (app_from_official_store session) (platform session) (access_ttl config), refresh_token)
   end, s').

Definition decode_b64_field (value name : string) : result bytes AppError :=
  match b64_decode cr (trim value) with
  | Some b => Ok b
  | None => Err (BadRequest ("body field " +:+ name +:+ " is not valid base64"))
  end.

Definition apple_root_ca_der : bytes :=
  default [] (b64_decode cr AppAttest.APPLE_APP_ATTESTATION_ROOT_CA_B64).

(** [POST /auth/app-attest/attestations]: the 202, or a 401 with its tag and error. *)
Inductive RegisterKey := KeyAccepted | KeyRejected (tag error : string).

Definition register_key (key_id challenge attestation : string) : H RegisterKey :=
  if negb (auth_enabled config) then hret KeyAccepted
  else
    let* key_id := hlift (decode_b64_field key_id "keyId") in
    let* challenge := hlift (decode_b64_field challenge "challenge") in
    let* attestation := hlift (decode_b64_field attestation "attestation") in
    let* consumed := stmt 0 (consume_stmt challenge) in
    if negb (consumed : bool) then hret (KeyRejected "CHALLENGE_NOT_FOUND" "Challenge Not Found")
    else
      match AppAttest.verify_attestation (crypto cr) (cbor cr) attestation challenge key_id
              (apple_app_attest_app_ids config) apple_root_ca_der (unix_timestamp (app_now env)) with
      | Ok attested =>
          let* _ := stmt 1 (fun s => (tt, upsert (now env) key_id (AppAttest.ak_public_key attested)
                                            (AppAttest.ak_receipt attested) None s)) in
          hret KeyAccepted
      | Err err =>
          if enforce_auth config
          then hret (KeyRejected "VERIFY_ATTESTATION_FAILED" (AppAttest.attest_error err))
          else hret KeyAccepted
      end.
End handlers.

End Auth.
