(* ===== verification/AuthProps.v ===== *)
(** * AuthProps: refresh tokens, assertion counters and token issuance

    A refresh token rotates once and a login's tokens form one chain; accepted
    assertion counts increase; an issued token means a fresh challenge, a valid
    proof and, for the store claim, platform evidence. *)

From S2P Require Import Prelude Strings Schema Queue DeviceGate Jwt KeyAttest KeyAttestProps.
From S2P Require Import AppAttest PlayIntegrity Auth.

#[local] Open Scope Z_scope.

Module AuthProps.
Export Auth.
Import Jwt.Demo.

(** ** The refresh-token table over time *)

(** Everything that writes the table: a login and a rotation, with their fate. *)
Inductive TokenOp :=
| OpMint (now app_now ttl : Z) (token : string) (session : Session)
| OpRotate (fate : DbFate) (now app_now ttl : Z) (new_token presented : string).

Definition run_op (op : TokenOp) (s : AuthDb) : AuthDb :=
  match op with
  | OpMint now app_now ttl token session => (mint now app_now ttl token session s).2
  | OpRotate f now app_now ttl new_token presented =>
      (rotate_token f now app_now ttl new_token presented s).2
  end.

(** The rotation of [t] took effect: it was answered, or it committed and the
    acknowledgement was lost. *)
Definition rotated (t : string) (op : TokenOp) (s : AuthDb) : bool :=
  match op with
  | OpMint _ _ _ _ _ => false
  | OpRotate f now app_now ttl new_token presented =>
      String.eqb presented t &&
      match f, (rotate_txn now app_now ttl new_token presented s).1 with
      | Refused, _ => false
      | _, Ok _ => true
      | _, Err _ => false
      end
  end.

Fixpoint rotations (t : string) (ops : list TokenOp) (s : AuthDb) : nat :=
  match ops with
  | [] => 0
  | op :: ops' => (if rotated t op s then 1 else 0) + rotations t ops' (run_op op s)
  end.

Definition spent (t : string) (s : AuthDb) : Prop :=
  exists r, a_refresh s !! t = Some r /\ is_Some (rt_used_at r).

(** What a rotation that took effect did to the table. *)
Lemma rotate_txn_Ok now app_now ttl new_token presented s session token s' :
  rotate_txn now app_now ttl new_token presented s = (Ok (session, token), s') ->
  exists r, a_refresh s !! presented = Some r /\ rt_used_at r = None /\ app_now < rt_expires_at r /\
    session = rt_session r /\ token = new_token /\ new_token <> presented /\
    a_refresh s !! new_token = None /\
    a_refresh s' =
      <[new_token := {| rt_session := rt_session r; rt_created_at := now;
                        rt_expires_at := app_now + secs ttl; rt_used_at := None; rt_replaced_by := None |}]>
      (<[presented := {| rt_session := rt_session r; rt_created_at := rt_created_at r;
                         rt_expires_at := rt_expires_at r; rt_used_at := Some now;
                         rt_replaced_by := Some new_token |}]> (a_refresh s)).
Proof.
  unfold rotate_txn. destruct (a_refresh s !! presented) as [r|] eqn:Er; [|done].
  case_bool_decide as Hu; [done|]. cbn [orb]. destruct (Z.leb_spec (rt_expires_at r) app_now); [done|].
  unfold insert_refresh. cbn [a_refresh with_refresh].
  destruct (decide (new_token = presented)) as [->|Hne]; [by rewrite lookup_insert_eq|].
  rewrite lookup_insert_ne by done. destruct (a_refresh s !! new_token) eqn:En; [done|].
  intros [= <- <- <-]. exists r. split_and!; try done.
  by destruct (rt_used_at r); [destruct Hu|].
Qed.

(** [run_op] on a rotation: nothing, or what [rotate_txn_Ok] says. *)
Lemma run_rotate_cases f now app_now ttl new_token presented s :
  (run_op (OpRotate f now app_now ttl new_token presented) s = s /\
   rotated presented (OpRotate f now app_now ttl new_token presented) s = false) \/
  exists session s', rotate_txn now app_now ttl new_token presented s = (Ok (session, new_token), s') /\
    run_op (OpRotate f now app_now ttl new_token presented) s = s' /\
    rotated presented (OpRotate f now app_now ttl new_token presented) s = true.
Proof.
  cbn [run_op rotated]. unfold rotate_token. rewrite String.eqb_refl. cbn [andb].
  destruct (rotate_txn _ _ _ _ _ s) as [[[session token]|e] s'] eqn:E.
  - assert (token = new_token) as -> by (by apply rotate_txn_Ok in E as (? & _ & _ & _ & _ & -> & _)).
    destruct f; [right; by exists session, s'|by left|right; by exists session, s'].
  - left. by destruct f, e.
Qed.

Lemma run_mint_refresh now app_now ttl token session s t r :
  a_refresh s !! t = Some r -> a_refresh (run_op (OpMint now app_now ttl token session) s) !! t = Some r.
Proof.
  intros Hr. cbn [run_op]. unfold mint, insert_refresh. destruct (a_refresh s !! token) eqn:E; [done|].
  cbn. rewrite lookup_insert_ne; [done|]. by intros ->; simplify_eq.
Qed.

Lemma spent_persists t op s : spent t s -> spent t (run_op op s).
Proof.
  intros (r & Hr & Hu). destruct op as [|f now app_now ttl new_token presented].
  { exists r. split; [|done]. by apply run_mint_refresh. }
  destruct (run_rotate_cases f now app_now ttl new_token presented s)
    as [[-> _]|(session & s' & E & -> & _)]; [by exists r|].
  apply rotate_txn_Ok in E as (r' & Hr' & Hn & _ & _ & _ & Hne & Hfresh & Htab).
  exists r. split; [|done]. rewrite Htab, lookup_insert_ne by (intros ->; simplify_eq).
  rewrite lookup_insert_ne; [done|]. intros ->. simplify_eq. rewrite Hn in Hu. by destruct Hu.
Qed.

Lemma rotated_spends t op s : rotated t op s = true -> ~ spent t s /\ spent t (run_op op s).
Proof.
  destruct op as [|f now app_now ttl new_token presented]; [done|]. intros H.
  assert (presented = t) as ->. { cbn in H. bool_prop. done. }
  destruct (run_rotate_cases f now app_now ttl new_token t s) as [[_ ?]|(session & s' & E & -> & _)]; [congruence|].
  apply rotate_txn_Ok in E as (r' & Hr' & Hn & _ & _ & _ & Hne & Hfresh & Htab). split.
  - intros (r & Hr & Hu). simplify_eq. rewrite Hn in Hu. by destruct Hu.
  - eexists. rewrite Htab, lookup_insert_ne by done. rewrite lookup_insert_eq. split; [done|]. by eexists.
Qed.

Lemma rotations_spent t ops s : spent t s -> rotations t ops s = 0%nat.
Proof.
  revert s. induction ops as [|op ops IH]; intros s Hs; [done|]. simpl.
  destruct (rotated t op s) eqn:E; [by apply rotated_spends in E as [? _]|].
  simpl. by apply IH, spent_persists.
Qed.

(** C18. A refresh token is single use: in any sequence of logins and rotations,
    whatever tokens they present or draw and whichever acknowledgements are lost,
    at most one rotation of a given token takes effect. *)
Theorem refresh_single_use t ops s : (rotations t ops s <= 1)%nat.
Proof.
  revert s. induction ops as [|op ops IH]; intros s; simpl; [lia|].
  destruct (rotated t op s) eqn:E; [|simpl; apply IH].
  apply rotated_spends in E as [_ Hs]. rewrite rotations_spent by done. lia.
Qed.

(** *** Lineage *)

(** Spent tokens point to their successor, which carries the same session; a token
    succeeds at most one other. *)
Record lineage (s : AuthDb) : Prop := {
  ln_spent : forall t r, a_refresh s !! t = Some r ->
    is_Some (rt_used_at r) <-> is_Some (rt_replaced_by r);
  ln_session : forall t r t', a_refresh s !! t = Some r -> rt_replaced_by r = Some t' ->
    exists r', a_refresh s !! t' = Some r' /\ rt_session r' = rt_session r;
  ln_unique : forall t1 t2 r1 r2 t', a_refresh s !! t1 = Some r1 -> a_refresh s !! t2 = Some r2 ->
    rt_replaced_by r1 = Some t' -> rt_replaced_by r2 = Some t' -> t1 = t2;
}.

(** A fresh row that replaces nothing keeps the lineage. *)
Lemma lineage_insert_fresh s s' token r :
  lineage s -> a_refresh s !! token = None -> rt_used_at r = None -> rt_replaced_by r = None ->
  a_refresh s' = <[token := r]> (a_refresh s) -> lineage s'.
Proof.
  intros [Hs Hse Hu] Hf Hnu Hnr E. constructor; rewrite E.
  - intros t x [[-> <-]|[_ Hx]]%lookup_insert_Some; [rewrite Hnu, Hnr; split; by intros []|eauto].
  - intros t x t' [[-> <-]|[_ Hx]]%lookup_insert_Some Ht'; [congruence|].
    destruct (Hse _ _ _ Hx Ht') as (x' & Hx' & ?). exists x'. split; [|done].
    rewrite lookup_insert_ne; [done|]. by intros ->; simplify_eq.
  - intros t1 t2 r1 r2 t' [[-> <-]|[_ H1]]%lookup_insert_Some [[-> <-]|[_ H2]]%lookup_insert_Some;
      [done|congruence|congruence|eauto].
Qed.

Lemma lineage_step op s : lineage s -> lineage (run_op op s).
Proof.
  intros Hl. destruct op as [now app_now ttl token session|f now app_now ttl new_token presented].
  { cbn. unfold mint, insert_refresh. destruct (a_refresh s !! token) eqn:E; [done|].
    eapply lineage_insert_fresh; [done|done| | |reflexivity]; done. }
  destruct (run_rotate_cases f now app_now ttl new_token presented s)
    as [[-> _]|(session & s' & E & -> & _)]; [done|].
  apply rotate_txn_Ok in E as (r & Hr & Hn & _ & _ & _ & Hne & Hfresh & E).
  pose proof Hl as [Hs Hse Hu]. constructor; rewrite E.
  - intros t x [[-> <-]|[_ [[-> <-]|[_ Hx]]%lookup_insert_Some]]%lookup_insert_Some;
      [by split; intros []|by split; eexists|eauto].
  - intros t x t' [[-> <-]|[_ [[-> <-]|[Hp Hx]]%lookup_insert_Some]]%lookup_insert_Some Ht'; [done| |].
    + injection Ht' as <-. eexists. by rewrite lookup_insert_eq.
    + destruct (Hse _ _ _ Hx Ht') as (x' & Hx' & Hsx).
      rewrite lookup_insert_ne by (intros ->; simplify_eq).
      destruct (decide (t' = presented)) as [->|]; [|rewrite lookup_insert_ne by done; by exists x'].
      rewrite lookup_insert_eq. eexists. split; [done|]. simpl. congruence.
  - assert (forall t x, a_refresh s !! t = Some x -> rt_replaced_by x <> Some new_token) as Hno.
    { intros t x Hx Hrep. destruct (Hse _ _ _ Hx Hrep) as (? & ? & _). congruence. }
    intros t1 t2 r1 r2 t'
      [[-> <-]|[_ [[-> <-]|[_ H1]]%lookup_insert_Some]]%lookup_insert_Some
      [[-> <-]|[_ [[-> <-]|[_ H2]]%lookup_insert_Some]]%lookup_insert_Some; try done; cbn.
    + intros [= <-] H. by destruct (Hno _ _ H2).
    + intros H [= <-]. by destruct (Hno _ _ H1).
    + eauto.
Qed.

Definition run_ops (ops : list TokenOp) (s : AuthDb) : AuthDb := foldl (fun s op => run_op op s) s ops.

Lemma run_ops_lineage ops s : lineage s -> lineage (run_ops ops s).
Proof. revert s. induction ops as [|op ops IH]; intros s Hs; [done|]. by apply IH, lineage_step. Qed.

(** The refresh tokens of a login form one chain: after any sequence of logins
    and rotations from an empty table, a spent token has a successor that carries
    the same account, platform and store verdict, an unspent one has none, and no
    token succeeds two others. *)
Theorem refresh_lineage ops db keys :
  lineage (run_ops ops {| a_db := db; a_refresh := ∅; a_keys := keys |}).
Proof. apply run_ops_lineage. by constructor. Qed.

(** ** Assertion counters *)

Inductive KeyOp :=
| KUpsert (now : Z) (key_id public_key receipt : bytes) (registering : option bytes)
| KCommit (now : Z) (key_id : bytes) (sign_count : Z).

Definition run_key (op : KeyOp) (s : AuthDb) : AuthDb :=
  match op with
  | KUpsert now k pk r c => upsert now k pk r c s
  | KCommit now k n => (commit_sign_count now k n s).2
  end.

(** The counts accepted for [k]. *)
Fixpoint accepted_counts (k : bytes) (ops : list KeyOp) (s : AuthDb) : list Z :=
  match ops with
  | [] => []
  | op :: ops' =>
      match op with
      | KCommit now k' n =>
          if bool_decide (k' = k) && (commit_sign_count now k' n s).1 then [n] else []
      | KUpsert _ _ _ _ _ => []
      end ++ accepted_counts k ops' (run_key op s)
  end.

Definition registers (k : bytes) (op : KeyOp) : bool :=
  match op with KUpsert _ k' _ _ _ => bool_decide (k' = k) | KCommit _ _ _ => false end.

(** The count never goes down while the key is not registered again. *)
Lemma run_key_count k op s c :
  registers k op = false -> k_sign_count <$> a_keys s !! k = Some c ->
  exists c', k_sign_count <$> a_keys (run_key op s) !! k = Some c' /\ c <= c' /\
    match op with
    | KCommit now k' n => k' = k -> (commit_sign_count now k' n s).1 = true -> c < n /\ c' = n
    | _ => True
    end.
Proof.
  intros Hr Hc. destruct op as [now k' pk r ci|now k' n]; cbn [run_key registers] in *.
  - bool_prop. exists c. unfold upsert. cbn. rewrite lookup_insert_ne by done. done.
  - unfold commit_sign_count. destruct (a_keys s !! k') as [row|] eqn:Ek; [|by exists c].
    destruct (Z.ltb_spec (k_sign_count row) n); [|by exists c]. cbn.
    destruct (decide (k' = k)) as [->|Hne].
    + rewrite Ek in Hc. injection Hc as <-. exists n. rewrite lookup_insert_eq. cbn.
      split_and!; [done|lia|]. intros _ _. lia.
    + exists c. rewrite lookup_insert_ne by done. split_and!; [done|lia|]. done.
Qed.

Lemma run_key_missing k op s :
  registers k op = false -> a_keys s !! k = None -> a_keys (run_key op s) !! k = None.
Proof.
  intros Hr Hc. destruct op as [now k' pk r ci|now k' n]; cbn [run_key registers] in *.
  - bool_prop. unfold upsert. cbn. by rewrite lookup_insert_ne.
  - unfold commit_sign_count. destruct (a_keys s !! k') as [row|] eqn:Ek; [|done].
    destruct (k_sign_count row <? n); [|done]. cbn.
    rewrite lookup_insert_ne; [done|]. by intros ->; simplify_eq.
Qed.

Lemma accepted_counts_missing k ops s :
  Forall (fun op => registers k op = false) ops -> a_keys s !! k = None -> accepted_counts k ops s = [].
Proof.
  intros Hops. revert s. induction Hops as [|op ops Hop Hops IH]; intros s Hs; [done|]. simpl.
  rewrite IH by (by apply run_key_missing). rewrite app_nil_r. destruct op as [|now k' n]; [done|].
  case_bool_decide as E; [subst|done]. unfold commit_sign_count. by rewrite Hs.
Qed.

Lemma accepted_counts_above k ops s c :
  Forall (fun op => registers k op = false) ops -> k_sign_count <$> a_keys s !! k = Some c ->
  Forall (fun n => c < n) (accepted_counts k ops s) /\ StronglySorted Z.lt (accepted_counts k ops s).
Proof.
  intros Hops. revert s c. induction Hops as [|op ops Hop Hops IH]; intros s c Hs; [by split; constructor|].
  destruct (run_key_count k op s c Hop Hs) as (c' & Hc' & Hle & Hop'). simpl.
  destruct (IH _ _ Hc') as [Habove Hsorted].
  assert (Forall (fun n => c < n) (accepted_counts k ops (run_key op s))) as Hc.
  { eapply Forall_impl; [exact Habove|]. intros; simpl in *; lia. }
  destruct op as [|now k' n]; [done|]. case_bool_decide as E; [|done]. simpl in *.
  destruct (commit_sign_count now k' n s).1; [|done]. destruct (Hop' E eq_refl) as [Hlt ->].
  split; constructor; done.
Qed.

(** App Attest assertions do not replay: between two registrations of a key, the
    counts its assertions are accepted with strictly increase, whatever other
    assertions and registrations are interleaved. *)
Theorem counts_increase k ops s :
  Forall (fun op => registers k op = false) ops -> StronglySorted Z.lt (accepted_counts k ops s).
Proof.
  intros Hops. destruct (a_keys s !! k) as [row|] eqn:E.
  - apply (accepted_counts_above k ops s (k_sign_count row)); [done|]. by rewrite E.
  - rewrite accepted_counts_missing by done. constructor.
Qed.

Lemma counts_increase_witness :
  let s := upsert 0 [1] [2] [3] None {| a_db := empty_db; a_refresh := ∅; a_keys := ∅ |} in
  let ops := [KCommit 1 [1] 1; KCommit 2 [1] 1; KUpsert 3 [9] [2] [3] None; KCommit 4 [1] 5] in
  accepted_counts [1] ops s = [1; 5] /\ StronglySorted Z.lt (accepted_counts [1] ops s).
Proof.
  split; [vm_compute; reflexivity|]. apply counts_increase. by repeat constructor.
Defined.

(** ** Token issuance *)

Section issue.
Context {jwt_crates : Jwt.JwtCrates} (jwt : Jwt.JwtKeys) (cr : AuthCrates) (config : AuthConfig) (env : AuthEnv).

Lemma hbind_Ok {A B} (m : H A) (k : A -> H B) s b s' :
  hbind m k s = (Ok b, s') <-> exists a s1, m s = (Ok a, s1) /\ k a s1 = (Ok b, s').
Proof.
  unfold hbind. destruct (m s) as [[a|e] s1].
  - split; [by exists a, s1|]. by intros (? & ? & [= <- <-] & ?).
  - split; [done|]. by intros (? & ? & ? & _).
Qed.

Lemma stmt_Ok {A} i (f : AuthDb -> A * AuthDb) s a s' :
  stmt env i f s = (Ok a, s') -> f (others env i s) = (a, s').
Proof. unfold stmt. destruct (fate env i); [|done..]. by destruct (f (others env i s)) as [??]; intros [= <- <-]. Qed.

Lemma hlift_Ok {A} (r : result A AppError) s a s' : hlift r s = (Ok a, s') -> r = Ok a /\ s' = s.
Proof. unfold hlift. by intros [= -> ->]. Qed.

(** The payload an integrity token stands for: decrypted and verified with the keys of
    the configuration, or, without them, decoded by the configured Google service. *)
Definition token_payload (package token : string) (payload : PlayIntegrity.TokenPayload) : Prop :=
  match play_integrity_decryption_key config, play_integrity_verification_key config with
  | Some dk, Some vk => PlayIntegrity.decrypt_and_verify (token_crates cr) token dk vk = Ok payload
  | _, _ => exists decode, google cr = Some decode /\ decode package token = Ok payload
  end.

(** The evidence a verdict can rest on when the handler asks for it in state [s], and
    the store claim it gives.  On iOS: the registered key that statement 1 finds, and a
    count above the one statement 2 finds for it.  On Android: the chain in the body,
    against the revocation list of this request; or the token of the request. *)
Inductive attested (headers : Headers) (challenge client_id body : bytes) (s : AuthDb) : bool -> Prop :=
| attested_ios package assertion key_id row next row' :
    header_text headers "auth-ios-package" = Some package -> package ∈ ios_package_names config ->
    decode_header cr headers "auth-payload" = Ok assertion ->
    decode_header cr headers "auth-ios-keyid" = Ok key_id ->
    a_keys (others env 1 s) !! key_id = Some row ->
    AppAttest.verify_assertion (crypto cr) (cbor cr) assertion
      (client_data_hash cr challenge client_id body) (k_public_key row) (apple_app_attest_app_ids config)
      (k_sign_count row) = Ok next ->
    a_keys (others env 2 (others env 1 s)) !! key_id = Some row' -> k_sign_count row' < next ->
    attested headers challenge client_id body s true
| attested_android_key chain playstore website revoked :
    header_text headers "auth-attestation-type" = Some "key-attestation" ->
    KeyAttest.chain_from_body (parse_body cr) (b64_decode cr) body = Ok chain ->
    android_signing_digest_playstore config = Some playstore ->
    android_signing_digest_website config = Some website ->
    crl env = Ok revoked ->
    KeyAttest.verify_chain (crypto cr) chain
      {| KeyAttest.vp_challenge := challenge; KeyAttest.vp_package_names := android_package_names config;
         KeyAttest.vp_playstore_digest := playstore; KeyAttest.vp_website_digest := website;
         KeyAttest.trusted_roots_der := KeyAttest.google_roots_der (b64_decode cr);
         KeyAttest.trusted_verified_boot_keys := KeyAttest.GRAPHENEOS_VERIFIED_BOOT_KEYS;
         KeyAttest.revoked_serials := revoked; KeyAttest.now_unix := unix_timestamp (app_now env) |} = Ok tt ->
    attested headers challenge client_id body s false
| attested_play package token payload playstore website b :
    header_text headers "auth-attestation-type" = Some "play-integrity" ->
    header_text headers "auth-android-package" = Some package -> package ∈ android_package_names config ->
    header_text headers "auth-payload" = Some token ->
    token_payload package token payload ->
    android_signing_digest_playstore config = Some playstore ->
    android_signing_digest_website config = Some website ->
    PlayIntegrity.check_payload (token_crates cr) payload
      {| PlayIntegrity.expected_nonce := client_data_hash cr challenge client_id body;
         PlayIntegrity.mode := play_integrity_mode config;
         PlayIntegrity.pp_package_names := android_package_names config;
         PlayIntegrity.pp_playstore_digest := playstore; PlayIntegrity.pp_website_digest := website |} = Ok b ->
    attested headers challenge client_id body s b.

Lemma commit_sign_count_true t key_id n s s' :
  commit_sign_count t key_id n s = (true, s') -> exists row, a_keys s !! key_id = Some row /\ k_sign_count row < n.
Proof.
  unfold commit_sign_count. destruct (a_keys s !! key_id) as [row|]; [|done].
  destruct (Z.ltb_spec (k_sign_count row) n); [|done]. intros _. by exists row.
Qed.

Lemma ios_verdict_attested headers challenge client_id body s u s' :
  ios_attestation_verdict cr config env headers challenge client_id body s = (Ok (Ok u), s') ->
  attested headers challenge client_id body s true.
Proof.
  unfold ios_attestation_verdict. destruct (header_text headers "auth-ios-package") as [package|] eqn:Ep; [|done].
  case_bool_decide as Hin; [|done]. cbn [negb].
  destruct (decode_header cr headers "auth-payload") as [assertion|] eqn:Ea; [|done].
  destruct (decode_header cr headers "auth-ios-keyid") as [key_id|] eqn:Ek; [|done].
  intros (key & s1 & Hk%stmt_Ok & H)%hbind_Ok. injection Hk as Hk <-.
  destruct key as [[pk count]|]; [|done]. unfold find in Hk.
  destruct (a_keys (others env 1 s) !! key_id) as [row|] eqn:Er; [|done]. injection Hk as <- <-.
  destruct (AppAttest.verify_assertion _ _ _ _ _ _ _) as [next|] eqn:Ev; [|done].
  apply hbind_Ok in H as (c & s2 & Hc%stmt_Ok & H). destruct c; [|by injection H].
  apply commit_sign_count_true in Hc as (row' & Hr' & Hlt). by eapply attested_ios.
Qed.

(** The last leg of [play_integrity_verdict]. *)
Lemma play_payload package token policy b :
  match play_integrity_decryption_key config, play_integrity_verification_key config with
  | Some dk, Some vk =>
      map_err PlayIntegrity.integrity_error (PlayIntegrity.verify_token (token_crates cr) token dk vk policy)
  | _, _ =>
      match google cr with
      | Some decode =>
          rbind (map_err (fun e => "google decode fallback: " +:+ e) (decode package token))
            (fun payload => map_err PlayIntegrity.integrity_error
                              (PlayIntegrity.check_payload (token_crates cr) payload policy))
      | None => Err "play integrity is not configured (neither self-managed keys nor GOOGLE_CREDENTIALS)"
      end
  end = Ok b ->
  exists payload, token_payload package token payload /\
    PlayIntegrity.check_payload (token_crates cr) payload policy = Ok b.
Proof.
  unfold token_payload.
  destruct (play_integrity_decryption_key config) as [dk|], (play_integrity_verification_key config) as [vk|].
  { intros H%map_err_ok. unfold PlayIntegrity.verify_token in H.
    apply rbind_ok in H as (payload & Hd & Hp). by exists payload. }
  all: destruct (google cr) as [decode|]; [|done]; intros (payload & Hd%map_err_ok & Hp%map_err_ok)%rbind_ok;
    exists payload; split; [by exists decode|done].
Qed.

Lemma verdict_attested headers challenge client_id body s b s' :
  attestation_verdict cr config env headers challenge client_id body s = (Ok (Ok b), s') ->
  attested headers challenge client_id body s b.
Proof.
  unfold attestation_verdict. destruct (contains_key headers "auth-ios-package").
  { intros (v & s1 & Hv & H)%hbind_Ok. destruct v as [u|e]; [|done]. injection H as <- <-.
    by eapply ios_verdict_attested. }
  destruct (header_text headers "auth-attestation-type") as [t|] eqn:Et; [|done].
  destruct (String.eqb_spec t "key-attestation") as [->|_].
  { intros [H _]%hlift_Ok. unfold key_attestation_verdict in H.
    destruct (KeyAttest.chain_from_body _ _ body) as [chain|] eqn:Ec; [|done].
    destruct (android_signing_digest_playstore config) as [ps|] eqn:Eps; [|done].
    destruct (android_signing_digest_website config) as [ws|] eqn:Ews; [|done].
    destruct (crl env) as [revoked|e] eqn:Er; [|by destruct (enforce_auth config)].
    destruct (KeyAttest.verify_chain _ _ _) as [[]|e] eqn:Ev; [|done]. injection H as <-.
    by eapply attested_android_key. }
  destruct (String.eqb_spec t "play-integrity") as [->|_]; [|done]. intros [= H _].
  unfold play_integrity_verdict in H.
  destruct (header_text headers "auth-android-package") as [package|] eqn:Epk; [|done].
  case_bool_decide as Hin; [|done]. cbn [negb] in H.
  destruct (header_text headers "auth-payload") as [token|] eqn:Etk; [|done].
  destruct (android_signing_digest_playstore config) as [ps|] eqn:Eps; [|done].
  destruct (android_signing_digest_website config) as [ws|] eqn:Ews; [|done].
  destruct (play_payload package token _ b H) as (payload & Hp & Hc). by eapply attested_play.
Qed.

Lemma parse_account client_id :
  length client_id = 32%nat -> Forall is_byte client_id -> Queue.parse_subject (account_of client_id) = Some client_id.
Proof.
  intros Hl Hb. unfold Queue.parse_subject, account_of. rewrite strip_prefix_app, hex_decode_encode by done.
  by rewrite decide_True.
Qed.

(** What a granted token rests on, in the states of the run: [others env 0 s] is the
    database the statement that spends the challenge finds, and [spent] the one it
    leaves. *)
Record granted (headers : Headers) (body : bytes) (s : AuthDb) (access refresh : string) (s' : AuthDb) : Prop := {
  gr_evidence : exists client_id client_proof challenge from_store row spent,
    decode_header_fixed cr 32 headers "auth-clientid" = Ok client_id /\
    decode_header_fixed cr 64 headers "auth-clientproof" = Ok client_proof /\
    decode_header cr headers "auth-challenge" = Ok challenge /\
    db_challenges (a_db (others env 0 s)) !! challenge = Some row /\
    c_consumed_at row = None /\ now env < c_expires_at row /\
    consume_stmt env challenge (others env 0 s) = (true, spent) /\
    DeviceGate.taken challenge (a_db spent) /\
    proof_verify cr challenge client_id body client_proof = true /\
    (auth_enabled config = false -> from_store = true) /\
    (auth_enabled config = true -> from_store = true \/ enforce_auth config = true ->
       attested headers challenge client_id body spent from_store) /\
    access = Jwt.issue jwt (unix_timestamp (app_now env)) (account_of client_id) from_store
               (detect_platform headers) (access_ttl config) /\
    a_refresh s' !! refresh = Some
      {| rt_session := {| account_id := account_of client_id; app_from_official_store := from_store;
                          platform := detect_platform headers |};
         rt_created_at := now env; rt_expires_at := app_now env + secs (refresh_ttl config);
         rt_used_at := None; rt_replaced_by := None |} /\
    length client_id = 32%nat /\
    (Forall is_byte client_id -> Queue.parse_subject (account_of client_id) = Some client_id);
}.

Lemma consume_stmt_true e challenge s s' :
  consume_stmt e challenge s = (true, s') ->
  (exists row, db_challenges (a_db s) !! challenge = Some row /\ c_consumed_at row = None /\
     now e < c_expires_at row) /\ DeviceGate.taken challenge (a_db s').
Proof.
  unfold consume_stmt. pose proof (DeviceGate.consume_ok (now e) challenge (a_db s)) as Hc.
  destruct (DeviceGate.consume _ _ _) as [ok d]. intros [= -> <-]. by apply Hc.
Qed.

Lemma decode_header_fixed_Ok n headers name b :
  decode_header_fixed cr n headers name = Ok b -> length b = n.
Proof.
  unfold decode_header_fixed. intros (x & _ & H)%rbind_ok. by case_decide; simplify_eq.
Qed.

(** C6. A token is granted only on evidence, found in the states this request ran in:
    the challenge's row was in the table, unspent and unexpired, when the request spent
    it, and is spent afterwards; the proof by the client key covers the challenge and
    the body; the access token and the new refresh row name that key (which reads back
    from the token's subject); and, with attestation on, a store claim, and under
    enforcement any token at all, rests on platform evidence bound to the same challenge
    and body: an assertion by the registered key this request found, with a count above
    the stored one; the key attestation chain of the body, against the revocation list
    of this request; or the payload of the integrity token of this request. *)
Theorem issue_sound headers body s access refresh s' :
  issue jwt cr config env headers body s = (Ok (access, refresh), s') ->
  granted headers body s access refresh s'.
Proof.
  unfold issue. intros (client_id & ? & [Hid ->]%hlift_Ok & H)%hbind_Ok.
  apply hbind_Ok in H as (client_proof & ? & [Hpr ->]%hlift_Ok & H).
  apply hbind_Ok in H as (challenge & ? & [Hch ->]%hlift_Ok & H).
  apply hbind_Ok in H as (consumed & s1 & Hc%stmt_Ok & H).
  destruct consumed; [|done]. cbn [negb] in H.
  destruct (proof_verify cr challenge client_id body client_proof) eqn:Ep; [|done]. cbn [negb] in H.
  apply hbind_Ok in H as (from_store & s2 & Hf & H).
  apply hbind_Ok in H as (r & s3 & Hr%stmt_Ok & H). destruct r as [tok|]; [|done].
  injection H as <- <- <-. unfold mint, insert_refresh in Hr.
  destruct (a_refresh (others env 3 s2) !! random_token env) eqn:El; [done|]. injection Hr as <- <-.
  destruct (consume_stmt_true _ _ _ _ Hc) as [(row & Hrow & Hnew & Hexp) Htaken].
  constructor. exists client_id, client_proof, challenge, from_store, row, s1.
  pose proof (decode_header_fixed_Ok _ _ _ _ Hid) as Hlen.
  split_and!; try done; [| |by apply lookup_insert_eq|by apply parse_account].
  - intros Hen. rewrite Hen in Hf. by injection Hf.
  - intros Hen Hor. rewrite Hen in Hf. apply hbind_Ok in Hf as (verdict & s4 & Hv & Hf).
    destruct verdict as [b|reason].
    + injection Hf as -> ->. by eapply verdict_attested.
    + destruct (enforce_auth config); [done|]. injection Hf as <- <-. by destruct Hor.
Qed.
End issue.

(** *** A login to run: Play Integrity evidence under enforcement *)

Fixpoint repeat_char (n : nat) (c : ascii) : string :=
  match n with O => EmptyString | S n' => String c (repeat_char n' c) end.

Definition demo_client : string := repeat_char 32 "c".
Definition demo_headers : Headers := fun name =>
  if String.eqb name "auth-clientid" then Some (Some demo_client)
  else if String.eqb name "auth-clientproof" then Some (Some (repeat_char 64 "p"))
  else if String.eqb name "auth-challenge" then Some (Some "challenge"%string)
  else if String.eqb name "auth-android-package" then Some (Some "io.pcf.polkadotapp"%string)
  else if String.eqb name "auth-attestation-type" then Some (Some "play-integrity"%string)
  else if String.eqb name "auth-payload" then Some (Some "token"%string)
  else None.

Definition demo_auth_config : AuthConfig :=
  {| auth_enabled := true; enforce_auth := true; access_ttl := 900; refresh_ttl := 86400;
     ios_package_names := []; apple_app_attest_app_ids := [];
     android_package_names := ["io.pcf.polkadotapp"%string];
     android_signing_digest_playstore := Some (as_bytes "play");
     android_signing_digest_website := Some (as_bytes "web");
     play_integrity_mode := PlayIntegrity.Strict; play_integrity_decryption_key := None;
     play_integrity_verification_key := None |}.

Definition demo_login_payload : PlayIntegrity.TokenPayload :=
  {| PlayIntegrity.request_details := Some (Some ("challenge" +:+ demo_client +:+ "{}"));
     PlayIntegrity.app_integrity := PlayIntegrity.app_integrity PlayIntegrity.demo_payload;
     PlayIntegrity.device_integrity := PlayIntegrity.device_integrity PlayIntegrity.demo_payload;
     PlayIntegrity.account_details := PlayIntegrity.account_details PlayIntegrity.demo_payload |}.

Definition demo_auth_crates : AuthCrates :=
  {| b64_decode := fun s => Some (as_bytes s); sr25519_verify := fun _ _ _ => true;
     crypto := KeyAttestProps.demo_crypto; cbor := fun _ => Err "none"%string;
     parse_body := fun _ => Err "none"%string; token_crates := PlayIntegrity.demo_token_crates;
     google := Some (fun _ _ => Ok demo_login_payload) |}.

Definition demo_auth_env : AuthEnv :=
  {| now := secs 1000; app_now := secs 1000; random_token := "refresh"; crl := Ok ∅;
     others := fun _ s => s; fate := fun _ => Fine |}.

Definition demo_auth_db : AuthDb :=
  {| a_db := (DeviceGate.create (secs 990) (secs 990) 60 (as_bytes "challenge") empty_db).2;
     a_refresh := ∅; a_keys := ∅ |}.

Lemma issue_sound_witness :
  exists access s',
    issue (Jwt.Jwt_new [7] "dub") demo_auth_crates demo_auth_config demo_auth_env demo_headers (as_bytes "{}")
      demo_auth_db = (Ok (access, "refresh"%string), s') /\
    granted (Jwt.Jwt_new [7] "dub") demo_auth_crates demo_auth_config demo_auth_env demo_headers (as_bytes "{}")
      demo_auth_db access "refresh" s'.
Proof.
  destruct (issue (Jwt.Jwt_new [7] "dub") demo_auth_crates demo_auth_config demo_auth_env demo_headers
              (as_bytes "{}") demo_auth_db) as [[[access refresh]|e] s'] eqn:E.
  - assert (refresh = "refresh"%string) as Hr.
    { change refresh with (default EmptyString (match (Ok (access, refresh) : result (string * string) AppError, s').1
        with Ok (_, r) => Some r | Err _ => None end)). rewrite <-E. vm_compute. reflexivity. }
    subst refresh. exists access, s'. split; [reflexivity|]. exact (issue_sound _ _ _ _ _ _ _ _ _ _ E).
  - exfalso.
    assert (is_ok (issue (Jwt.Jwt_new [7] "dub") demo_auth_crates demo_auth_config demo_auth_env demo_headers
              (as_bytes "{}") demo_auth_db).1 = true) as Ho by (vm_compute; reflexivity).
    rewrite E in Ho. discriminate Ho.
Defined.
End AuthProps.
