(* ===== verification/Poc.v ===== *)
(** * Poc: the proof-of-compute gate ([username-indexer/src/poc.rs], [poc/], [http/middleware.rs])

    Puzzles are issued without being stored: a checksum binds the session, the
    time and the difficulty.  A solution is accepted once, by an insert into
    [spent_puzzles]; rows are pruned when no replica can still accept them.
    HKDF, HMAC, SHA-256, base64 and UUID text are parameters. *)

From stdpp Require Import gmap.
From S2P Require Import Prelude Strings Text Schema DeviceGate Jwt.

#[local] Open Scope string_scope.
#[local] Open Scope Z_scope.

Module Poc.

Record PocCrates := {
  hkdf_sha256 : bytes -> bytes -> bytes; hmac_sha256 : bytes -> bytes -> bytes; sha256 : bytes -> bytes;
  b64_encode : bytes -> string; b64_decode : string -> option bytes;
  uuid_parse : string -> option bytes; uuid_text : bytes -> string }.

(** [to_be_bytes] of an unsigned integer of [k] bytes. *)
Fixpoint be_bytes (k : nat) (n : Z) : bytes :=
  match k with
  | O => []
  | S k' => (n / 256 ^ Z.of_nat k') mod 256 :: be_bytes k' n
  end.

Definition as_u64 (n : Z) : Z := n mod 2 ^ 64.

(** ** [poc.rs] *)

Definition SESSION_TTL_SECS : Z := 60.
Definition CLOCK_SKEW_SECS : Z := 30.
Definition validity_window_ms : Z := (SESSION_TTL_SECS + CLOCK_SKEW_SECS) * 1000.

Inductive Rejection := Malformed | Missing | Checksum | Expired | Replayed | InsufficientWork.

Definition detail (r : Rejection) : string :=
  match r with
  | Malformed => "The Proof-Of-Compute header is malformed."
  | Missing =>
      "Proof of compute required. Request a puzzle from POST /api/v1/poc/issue and present the solved proof in the Proof-Of-Compute header."
  | Checksum => "The proof checksum does not match; the puzzle was not issued by this server."
  | Expired => "The proof of compute puzzle has expired; request a new one."
  | Replayed => "The proof of compute puzzle has already been used."
  | InsufficientWork => "The proof of compute solution does not meet the required difficulty."
  end.

(** [AppError::Poc]: a malformed header is a 400, everything else a 402. *)
Definition rejection_status (r : Rejection) : Z := match r with Malformed => 400 | _ => 402 end.

(** [spent_puzzles]: the session and its [expires_at], in microseconds. *)
Abbreviation Spent := (gmap bytes Z).

Section poc.
Context (cr : PocCrates).
#[local] Open Scope dub_scope.

(** ** [puzzle.rs] *)

Definition HKDF_INFO : bytes := as_bytes "identity-backend/proof-of-compute/hmac-v1".

Definition derive_secret (ikm : string) : bytes := hkdf_sha256 cr (as_bytes ikm) HKDF_INFO.

Definition checksum_preimage (session_id : bytes) (timestamp_ms difficulty : Z) : bytes :=
  (session_id ++ be_bytes 8 (as_u64 timestamp_ms) ++ [difficulty])%list.

Definition checksum_hex (secret session_id : bytes) (timestamp_ms difficulty : Z) : string :=
  hex_encode (hmac_sha256 cr secret (checksum_preimage session_id timestamp_ms difficulty)).

Record Puzzle := { pz_session_id : bytes; pz_timestamp : Z; pz_difficulty : Z; pz_checksum : string }.

Definition Puzzle_new (secret session_id : bytes) (timestamp_ms difficulty : Z) : Puzzle :=
  {| pz_session_id := session_id; pz_timestamp := timestamp_ms; pz_difficulty := difficulty;
     pz_checksum := checksum_hex secret session_id timestamp_ms difficulty |}.

(** ** [solution.rs] *)

Definition MAX_TIMESTAMP_MS : Z := 8640000000000000.

Record Solution := {
  session_id : bytes; timestamp_ms : Z; difficulty : Z; counter : Z; checksum : string }.

Definition COLON : ascii := ":"%char.

Definition parse_header (raw : string) : result Solution Rejection :=
  match (b ← b64_decode cr (trim raw); from_utf8 b) with
  | None => Err Malformed
  | Some text =>
      match split_on COLON text with
      | [sid; ts; d; n; sum] =>
          match uuid_parse cr sid, parse_i64 ts with
          | Some session, Some timestamp =>
              if negb ((0 <=? timestamp) && (timestamp <=? MAX_TIMESTAMP_MS)) then Err Malformed
              else
                match parse_unsigned U8_MAX d with
                | None => Err Malformed
                | Some difficulty =>
                    if negb ((1 <=? difficulty) && (difficulty <=? 32)) then Err Malformed
                    else
                      match parse_unsigned U64_MAX n with
                      | None => Err Malformed
                      | Some counter =>
                          if negb ((String.length sum =? 64)%nat && all_chars is_ascii_hexdigit sum)
                          then Err Malformed
                          else Ok {| session_id := session; timestamp_ms := timestamp;
                                     difficulty := difficulty; counter := counter;
                                     checksum := to_ascii_lowercase sum |}
                      end
                end
          | _, _ => Err Malformed
          end
      | _ => Err Malformed
      end
  end.

(** [{timestamp_ms}] of an [i64]. *)
Definition i64_text (n : Z) : string := if n <? 0 then String "-"%char (decimal (- n)) else decimal n.

Definition header_text (s : Solution) : string :=
  uuid_text cr (session_id s) +:+ String COLON (i64_text (timestamp_ms s) +:+ String COLON
    (decimal (difficulty s) +:+ String COLON (decimal (counter s) +:+ String COLON (checksum s)))).

Definition to_header (s : Solution) : string := b64_encode cr (as_bytes (header_text s)).

(** [fold(0u8, |acc, (a, b)| acc | (a ^ b))] over the zipped bytes. *)
Definition xor_fold (a b : string) : Z :=
  foldl (fun acc '(x, y) => Z.lor acc (Z.lxor x y)) 0 (zip (as_bytes a) (as_bytes b)).

Definition checksum_matches (secret : bytes) (s : Solution) : bool :=
  let expected := checksum_hex secret (session_id s) (timestamp_ms s) (difficulty s) in
  (String.length expected =? String.length (checksum s))%nat && (xor_fold expected (checksum s) =? 0).

Definition work_preimage (session_id : bytes) (timestamp_ms counter : Z) : bytes :=
  (session_id ++ be_bytes 8 (as_u64 timestamp_ms) ++ be_bytes 8 counter)%list.

(** [u32::leading_zeros]. *)
Definition leading_zeros (n : Z) : Z := if n =? 0 then 32 else 31 - Z.log2 n.

Definition leading_zero_bits (session_id : bytes) (timestamp_ms counter : Z) : Z :=
  leading_zeros (foldl (fun v b => v * 256 + b) 0
                   (take 4 (sha256 cr (work_preimage session_id timestamp_ms counter)))).

Definition work_bits (s : Solution) : Z := leading_zero_bits (session_id s) (timestamp_ms s) (counter s).

(** [mine]: the counters from zero; [fuel] bounds how many are tried, and none is past
    the type. *)
Fixpoint mine_from (fuel : nat) (session_id : bytes) (timestamp_ms difficulty counter : Z) : option Z :=
  match fuel with
  | O => None
  | S fuel' =>
      if U64_MAX <? counter then None
      else if difficulty <=? leading_zero_bits session_id timestamp_ms counter then Some counter
      else mine_from fuel' session_id timestamp_ms difficulty (counter + 1)
  end.
Definition mine (fuel : nat) (session_id : bytes) (timestamp_ms difficulty : Z) : option Z :=
  mine_from fuel session_id timestamp_ms difficulty 0.

(** ** The body of a puzzle, and the solver ([examples/poc_solve.rs]) *)

Definition puzzle_json (p : Puzzle) : Json :=
  JObject [("sessionId", JString (uuid_text cr (pz_session_id p))); ("timestamp", JNumber (pz_timestamp p));
           ("difficulty", JNumber (pz_difficulty p)); ("checksum", JString (pz_checksum p))].

(** [IssuedPuzzle], as it is deserialized. *)
Definition issued_puzzle (j : Json) : option Puzzle :=
  match json_get "sessionId" j, json_get "timestamp" j, json_get "difficulty" j, json_get "checksum" j with
  | Some (JString sid), Some (JNumber ts), Some (JNumber d), Some (JString sum) =>
      session ← uuid_parse cr sid;
      if (I64_MIN <=? ts) && (ts <=? I64_MAX) && (0 <=? d) && (d <=? 255)
      then Some {| pz_session_id := session; pz_timestamp := ts; pz_difficulty := d; pz_checksum := sum |}
      else None
  | _, _, _, _ => None
  end.

(** [Solution::new] of a mined counter. *)
Definition solve (p : Puzzle) (c : Z) : Solution :=
  {| session_id := pz_session_id p; timestamp_ms := pz_timestamp p; difficulty := pz_difficulty p;
     counter := c; checksum := pz_checksum p |}.

(** The solver's [main]: the header it prints, from the body it is given. *)
Definition poc_solve (fuel : nat) (body : Json) : option string :=
  puzzle ← issued_puzzle body;
  counter ← mine fuel (pz_session_id puzzle) (pz_timestamp puzzle) (pz_difficulty puzzle);
  Some (to_header (solve puzzle counter)).

(** ** [store.rs] *)

(** The largest instant of [OffsetDateTime], in milliseconds. *)
Definition MAX_INSTANT_MS : Z := 253402300799999.

Definition PRUNE_GRACE : Z := secs 600.

(** [INSERT .. ON CONFLICT DO NOTHING], with [rows_affected() == 1]; [None] is the
    panic of [expect] on an instant out of range. *)
Definition consume (session : bytes) (retain_until_ms : Z) (t : Spent) : option (bool * Spent) :=
  if MAX_INSTANT_MS <? retain_until_ms then None
  else
    match t !! session with
    | Some _ => Some (false, t)
    | None => Some (true, <[session := retain_until_ms * 1000]> t)
    end.

Definition prune_expired (db_now : Z) (t : Spent) : Spent :=
  filter (fun '(_, expires_at) => db_now - PRUNE_GRACE <= expires_at) t.

(** ** The gate *)

Record PocGate := { secret : bytes; gate_difficulty : Z }.

Definition issue (g : PocGate) (session : bytes) (now_ms : Z) : Puzzle :=
  Puzzle_new (secret g) session now_ms (gate_difficulty g).

Definition verify_offline (g : PocGate) (s : Solution) (now_ms : Z) : result unit Rejection :=
  if negb (checksum_matches (secret g) s) then Err Checksum
  else if validity_window_ms <? now_ms - timestamp_ms s then Err Expired
  else if work_bits s <? difficulty s then Err InsufficientWork
  else Ok tt.

Inductive Verified := Passed | Rejected (r : Rejection) | DbError | Panic.

(** [Poc::verify]: the offline checks, then the one-shot consume. *)
Definition verify (g : PocGate) (fate : DbFate) (s : Solution) (now_ms : Z) (t : Spent) : Verified * Spent :=
  match verify_offline g s now_ms with
  | Err r => (Rejected r, t)
  | Ok _ =>
      match consume (session_id s) (timestamp_ms s + validity_window_ms) t with
      | None => (Panic, t)
      | Some (fresh, t') =>
          match fate with
          | Refused => (DbError, t)
          | AckLost => (DbError, t')
          | Fine => (if (fresh : bool) then Passed else Rejected Replayed, t')
          end
      end
  end.

End poc.

(** [http/middleware.rs]: what the gate does with a request; [None] is pass-through. *)
Section gate.
Context `{JwtCrates : Jwt.JwtCrates} (cr : PocCrates).

Definition bearer_token (authorization : option (option string)) : option string :=
  match authorization with Some (Some h) => Jwt.bearer_token h | _ => None end.

Definition poc_gate (gate : option (PocGate * Jwt.Verifier)) (fate : DbFate)
    (authorization proof : option (option string)) (now_secs now_ms : Z) (t : Spent) : Verified * Spent :=
  match gate with
  | None => (Passed, t)
  | Some (g, verifier) =>
      if match bearer_token authorization with
         | Some token => is_ok (Jwt.verify verifier now_secs token)
         | None => false
         end
      then (Passed, t)
      else
        match proof with
        | Some (Some header) =>
            match parse_header cr header with
            | Err r => (Rejected r, t)
            | Ok s => verify cr g fate s now_ms t
            end
        | _ => (Rejected Missing, t)
        end
  end.
End gate.
End Poc.
