(* ===== verification/PocProps.v ===== *)
(** * PocProps: puzzles are bound, checked and spent once *)

From stdpp Require Import gmap.
From S2P Require Import Prelude Strings Text Schema DeviceGate Jwt Poc.

#[local] Open Scope string_scope.
#[local] Open Scope Z_scope.

Module PocProps.
Import Poc.

(** ** Hexadecimal text *)

Lemma hex_digit_all :
  forallb (fun n => is_ascii_hexdigit (hex_digit (Z.of_nat n))
                    && Ascii.eqb (ascii_lower (hex_digit (Z.of_nat n))) (hex_digit (Z.of_nat n))) (seq 0 16) = true.
Proof. vm_compute. reflexivity. Qed.

Lemma hex_digit_ok n :
  0 <= n < 16 -> is_ascii_hexdigit (hex_digit n) = true /\ ascii_lower (hex_digit n) = hex_digit n.
Proof.
  intros Hn. pose proof hex_digit_all as H. rewrite forallb_forall in H. specialize (H (Z.to_nat n)).
  rewrite in_seq, Z2Nat.id in H by lia. apply andb_true_iff in H as [H1 H2%Ascii.eqb_eq]; [done|lia].
Qed.

Lemma hex_encode_ok bs :
  Forall is_byte bs ->
  String.length (hex_encode bs) = (2 * length bs)%nat /\ all_chars is_ascii_hexdigit (hex_encode bs) = true /\
  to_ascii_lowercase (hex_encode bs) = hex_encode bs.
Proof.
  induction 1 as [|b bs Hb Hbs (H1 & H2 & H3)]; [done|]. unfold is_byte, U8_MAX in Hb.
  destruct (hex_digit_ok (b / 16)) as [Ha1 Ha2]; [split; [apply Z.div_pos; lia|apply Z.div_lt_upper_bound; lia]|].
  destruct (hex_digit_ok (b mod 16)) as [Hb1 Hb2]; [apply Z.mod_pos_bound; lia|].
  cbn [hex_encode String.length all_chars to_ascii_lowercase]. rewrite H1, H2, H3, Ha1, Ha2, Hb1, Hb2.
  split_and!; [simpl; lia|done|done].
Qed.

(** ** The comparison *)

Lemma xor_fold_go acc l1 l2 :
  0 <= acc -> Forall (fun b => 0 <= b) l1 -> Forall (fun b => 0 <= b) l2 -> length l1 = length l2 ->
  foldl (fun acc '(x, y) => Z.lor acc (Z.lxor x y)) acc (zip l1 l2) = 0 <-> acc = 0 /\ l1 = l2.
Proof.
  intros Hacc Hl1. revert acc l2 Hacc. induction Hl1 as [|x l1 Hx Hl1 IH]; intros acc l2 Hacc Hl2 Hlen.
  { destruct l2; [simpl; naive_solver|done]. }
  destruct Hl2 as [|y l2 Hy Hl2]; [done|]. simpl. rewrite IH; [|by apply Z.lor_nonneg; split; [|apply Z.lxor_nonneg]|done|by injection Hlen].
  rewrite Z.lor_eq_0_iff, Z.lxor_eq_0_iff. naive_solver.
Qed.

Lemma as_bytes_nonneg s : Forall (fun b => 0 <= b) (as_bytes s).
Proof. induction s as [|c s IH]; constructor; [unfold byte_of_ascii; lia|done]. Qed.

Lemma length_as_bytes s : length (as_bytes s) = String.length s.
Proof. induction s as [|c s IH]; simpl; [done|]. by rewrite IH. Qed.

(** The comparison in constant time is equality. *)
Lemma constant_time_eq a b :
  (String.length a =? String.length b)%nat && (xor_fold a b =? 0) = true <-> a = b.
Proof.
  rewrite andb_true_iff, Nat.eqb_eq, Z.eqb_eq. unfold xor_fold. split.
  - intros [Hl Hx]. rewrite <-!length_as_bytes in Hl.
    apply xor_fold_go in Hx as [_ Hx]; [by apply as_bytes_inj|done|apply as_bytes_nonneg..|done].
  - intros ->. split; [done|]. by apply xor_fold_go; auto using as_bytes_nonneg.
Qed.

Lemma checksum_matches_iff cr key s :
  checksum_matches cr key s = true <->
  checksum s = checksum_hex cr key (session_id s) (timestamp_ms s) (difficulty s).
Proof. unfold checksum_matches. rewrite constant_time_eq. naive_solver. Qed.

(** ** Headers *)

Definition is_uuid (u : bytes) : Prop := length u = 16%nat /\ Forall is_byte u.

(** The crates' text forms read back, and a UUID is printed without a colon. *)
Record poc_laws (cr : PocCrates) : Prop := {
  b64_inverse t : b64_decode cr (trim (b64_encode cr (as_bytes t))) = Some (as_bytes t);
  uuid_inverse u : is_uuid u -> uuid_parse cr (uuid_text cr u) = Some u;
  uuid_ascii u : is_uuid u -> all_chars (fun c => is_ascii_hexdigit c || Ascii.eqb c "-"%char) (uuid_text cr u) = true;
  hmac_bytes k m : Forall is_byte (hmac_sha256 cr k m) /\ length (hmac_sha256 cr k m) = 32%nat }.

(** What [parse_header] guarantees of its result, and what a client sends. *)
Record solution_ok (s : Solution) : Prop := {
  sol_timestamp : 0 <= timestamp_ms s <= MAX_TIMESTAMP_MS;
  sol_difficulty : 1 <= difficulty s <= 32;
  sol_counter : 0 <= counter s <= U64_MAX;
  sol_checksum : String.length (checksum s) = 64%nat /\ all_chars is_ascii_hexdigit (checksum s) = true /\
                 to_ascii_lowercase (checksum s) = checksum s }.

Definition is_plain (c : ascii) : bool := is_ascii_hexdigit c || Ascii.eqb c "-"%char.
Definition is_ascii (c : ascii) : bool := (0 <=? byte_of_ascii c) && (byte_of_ascii c <=? 127).

Lemma plain_no_colon c : is_plain c = true -> negb (Ascii.eqb c COLON) = true.
Proof. destruct c as [[] [] [] [] [] [] [] []]; vm_compute; congruence. Qed.
Lemma plain_ascii c : is_plain c = true -> is_ascii c = true.
Proof. destruct c as [[] [] [] [] [] [] [] []]; vm_compute; congruence. Qed.
Lemma digit_plain c : is_ascii_digit c = true -> is_plain c = true.
Proof. destruct c as [[] [] [] [] [] [] [] []]; vm_compute; congruence. Qed.
Lemma hex_plain c : is_ascii_hexdigit c = true -> is_plain c = true.
Proof. unfold is_plain. by intros ->. Qed.

Lemma ascii_utf8 s : all_chars is_ascii s = true -> from_utf8 (as_bytes s) = Some s.
Proof.
  intros Hs. unfold from_utf8. assert (valid_utf8 (as_bytes s) = true) as ->; [|by rewrite string_of_as_bytes].
  induction s as [|c s IH]; [done|]. simpl in Hs. apply andb_true_iff in Hs as [Hc Hs]. simpl.
  unfold is_ascii in Hc. rewrite Hc. by apply IH.
Qed.

(** Fields joined by colons split back into themselves. *)
Fixpoint joined (l : list string) (x : string) : string :=
  match l with [] => x | w :: l' => w +:+ String COLON (joined l' x) end.

Lemma split_joined l x :
  Forall (fun w => all_chars is_plain w = true) l -> all_chars is_plain x = true ->
  split_on COLON (joined l x) = (l ++ [x])%list /\ all_chars is_ascii (joined l x) = true.
Proof.
  intros Hl Hx. assert (forall w, all_chars is_plain w = true -> lacks COLON w = true /\ all_chars is_ascii w = true) as Hw.
  { intros w Hw. split; [by apply (all_chars_impl _ _ _ plain_no_colon)|by apply (all_chars_impl _ _ _ plain_ascii)]. }
  induction Hl as [|w l Hwl Hl [IH1 IH2]]; simpl.
  - destruct (Hw x Hx). split; [by apply split_on_lacks|done].
  - destruct (Hw w Hwl). split; [by rewrite split_on_app, IH1|]. by rewrite all_chars_app; simpl; rewrite IH2, andb_true_r.
Qed.

Lemma decimal_plain n : 0 <= n -> all_chars is_plain (decimal n) = true.
Proof. intros Hn. by apply (all_chars_impl _ _ _ digit_plain), decimal_digits. Qed.

Lemma parse_i64_decimal n : 0 <= n <= I64_MAX -> parse_i64 (decimal n) = Some n.
Proof.
  intros Hn. pose proof (decimal_digits n ltac:(lia)) as Hd. rewrite <-(parse_unsigned_decimal I64_MAX n Hn).
  destruct (decimal n) as [|c t]; [done|]. simpl in Hd. apply andb_true_iff in Hd as [Hc _].
  unfold parse_i64. destruct (Ascii.eqb_spec c "-"%char) as [->|]; [by vm_compute in Hc|done].
Qed.

Lemma header_roundtrip_lemma cr s :
  poc_laws cr -> is_uuid (session_id s) -> solution_ok s -> parse_header cr (to_header cr s) = Ok s.
Proof.
  intros Hlaws Hsid [[Ht1 Ht2] Hd [Hc1 Hc2] (Hs1 & Hs2 & Hs3)]. unfold parse_header, to_header. rewrite b64_inverse by done.
  assert (header_text cr s = joined [uuid_text cr (session_id s); decimal (timestamp_ms s); decimal (difficulty s);
                                     decimal (counter s)] (checksum s)) as ->.
  { unfold header_text, i64_text. rewrite (proj2 (Z.ltb_ge _ _)) by lia. done. }
  match goal with |- context [joined ?l ?x] => destruct (split_joined l x) as [Hsp Has] end.
  { repeat apply Forall_cons_2; [by apply (uuid_ascii cr Hlaws)|apply decimal_plain; lia..|constructor]. }
  { by apply (all_chars_impl _ _ _ hex_plain). }
  cbn [mbind option_bind]. rewrite ascii_utf8, Hsp by done. cbn [app]. rewrite (uuid_inverse cr Hlaws) by done.
  rewrite parse_i64_decimal by (unfold MAX_TIMESTAMP_MS, I64_MAX in *; lia).
  rewrite (proj2 (Z.leb_le 0 (timestamp_ms s))), (proj2 (Z.leb_le (timestamp_ms s) MAX_TIMESTAMP_MS)) by done. cbn [negb andb].
  rewrite (parse_unsigned_decimal U8_MAX) by (unfold U8_MAX; lia).
  rewrite (proj2 (Z.leb_le 1 (difficulty s))), (proj2 (Z.leb_le (difficulty s) 32)) by lia. cbn [negb andb].
  rewrite (parse_unsigned_decimal U64_MAX) by done. rewrite Hs1, Hs2, Hs3. by destruct s.
Qed.

(** A solution survives its header: what the client encodes, the gate reads back. *)
Theorem header_roundtrip cr s :
  poc_laws cr -> is_uuid (session_id s) -> solution_ok s -> parse_header cr (to_header cr s) = Ok s.
Proof. apply header_roundtrip_lemma. Qed.

Lemma to_lower_hex c : is_ascii_hexdigit c = true ->
  is_ascii_hexdigit (ascii_lower c) = true /\ ascii_lower (ascii_lower c) = ascii_lower c.
Proof. destruct c as [[] [] [] [] [] [] [] []]; vm_compute; try congruence; by split. Qed.

Lemma lower_checksum s :
  all_chars is_ascii_hexdigit s = true ->
  String.length (to_ascii_lowercase s) = String.length s /\
  all_chars is_ascii_hexdigit (to_ascii_lowercase s) = true /\
  to_ascii_lowercase (to_ascii_lowercase s) = to_ascii_lowercase s.
Proof.
  induction s as [|c s IH]; [done|]. simpl. intros [Hc Hs]%andb_true_iff. destruct (IH Hs) as (H1 & H2 & H3).
  destruct (to_lower_hex c Hc) as [H4 H5]. rewrite H1, H2, H3, H4, H5. done.
Qed.

(** A header that parses is within the wire bounds. *)
Lemma parse_header_bounds cr raw s : parse_header cr raw = Ok s -> solution_ok s.
Proof.
  unfold parse_header. destruct (_ ≫= _) as [text|]; [|done].
  destruct (split_on COLON text) as [|sid [|ts [|d [|n [|sum [|]]]]]]; try done.
  destruct (uuid_parse cr sid) as [u|]; [|done]. destruct (parse_i64 ts) as [t|]; [|done].
  intros [Ht%negb_false_iff H]%if_err_ok. destruct (parse_unsigned U8_MAX d) as [dd|]; [|done].
  apply if_err_ok in H as [Hd%negb_false_iff H]. destruct (parse_unsigned U64_MAX n) as [c|] eqn:Ec; [|done].
  apply if_err_ok in H as [[Hl Hh]%negb_false_iff%andb_true_iff [= <-]].
  apply parse_unsigned_range in Ec; [|done]. apply Nat.eqb_eq in Hl. bool_prop.
  destruct (lower_checksum sum Hh) as (L1 & L2 & L3). split; simpl; try done. by rewrite L1.
Qed.

(** ** The checks *)

Lemma verify_offline_ok cr g s now :
  verify_offline cr g s now = Ok tt <->
  checksum s = checksum_hex cr (secret g) (session_id s) (timestamp_ms s) (difficulty s) /\
  now - timestamp_ms s <= validity_window_ms /\ difficulty s <= work_bits cr s.
Proof.
  unfold verify_offline. rewrite !if_err_ok, negb_false_iff, checksum_matches_iff, Z.ltb_ge, Z.ltb_ge. tauto.
Qed.

Lemma verify_passed cr g fate s now t t' :
  verify cr g fate s now t = (Passed, t') <->
  verify_offline cr g s now = Ok tt /\ timestamp_ms s + validity_window_ms <= MAX_INSTANT_MS /\
  t !! session_id s = None /\ fate = Fine /\
  t' = <[session_id s := (timestamp_ms s + validity_window_ms) * 1000]> t.
Proof.
  unfold verify. destruct (verify_offline cr g s now) as [[]|r]; [|naive_solver]. unfold consume.
  destruct (Z.ltb_spec MAX_INSTANT_MS (timestamp_ms s + validity_window_ms)).
  { split; [done|]. intros (_ & ? & _). lia. }
  destruct (t !! session_id s); destruct fate; naive_solver.
Qed.

(** The gate admits a request exactly when it carries a token that verifies, or a
    solution of a puzzle this server's key signed, inside its validity window, with
    the work its difficulty asks for, whose session was not spent; and it is spent
    by the admission. *)
Theorem gate_exact `{jwt_crates : Jwt.JwtCrates} cr g verifier fate authorization proof now_secs now_ms t t' :
  poc_gate cr (Some (g, verifier)) fate authorization proof now_secs now_ms t = (Passed, t') <->
  ((exists token claims, bearer_token authorization = Some token /\
      Jwt.verify verifier now_secs token = Ok claims) /\ t' = t) \/
  (~ (exists token claims, bearer_token authorization = Some token /\
      Jwt.verify verifier now_secs token = Ok claims) /\
   exists header s, proof = Some (Some header) /\ parse_header cr header = Ok s /\
     checksum s = checksum_hex cr (secret g) (session_id s) (timestamp_ms s) (difficulty s) /\
     now_ms - timestamp_ms s <= validity_window_ms /\ difficulty s <= work_bits cr s /\
     timestamp_ms s + validity_window_ms <= MAX_INSTANT_MS /\ t !! session_id s = None /\ fate = Fine /\
     t' = <[session_id s := (timestamp_ms s + validity_window_ms) * 1000]> t).
Proof.
  unfold poc_gate.
  assert ((match bearer_token authorization with
           | Some token => is_ok (Jwt.verify verifier now_secs token) | None => false end = true) <->
          exists token claims, bearer_token authorization = Some token /\
            Jwt.verify verifier now_secs token = Ok claims) as Hjwt.
  { destruct (bearer_token authorization) as [token|]; [|split; [done|by intros (? & ? & ? & _)]].
    destruct (Jwt.verify verifier now_secs token) as [claims|] eqn:E; split; [by exists token, claims|done|done|].
    by intros (? & ? & [= <-] & [=]%(eq_trans (eq_sym E))). }
  destruct (match bearer_token authorization with Some _ => _ | None => false end).
  { pose proof (proj1 Hjwt eq_refl) as Hj. split; [intros [= <-]; by left|]. intros [[_ ->]|[Hn _]]; [done|by destruct Hn]. }
  assert (~ exists token claims, bearer_token authorization = Some token /\
            Jwt.verify verifier now_secs token = Ok claims) as Hn by (rewrite <-Hjwt; done). clear Hjwt.
  transitivity (exists header s, proof = Some (Some header) /\ parse_header cr header = Ok s /\
     verify cr g fate s now_ms t = (Passed, t')).
  - destruct proof as [[header|]|]; [|split; [done|by intros (? & ? & ? & _)]..].
    destruct (parse_header cr header) as [s|] eqn:E; split; [by exists header, s| |done|].
    + by intros (? & ? & [= <-] & [= <-]%(eq_trans (eq_sym E)) & ?).
    + by intros (? & ? & [= <-] & [=]%(eq_trans (eq_sym E)) & ?).
  - setoid_rewrite verify_passed. setoid_rewrite verify_offline_ok. split.
    + intros (header & s & H). right. split; [done|]. exists header, s. tauto.
    + intros [[? _]|[_ (header & s & H)]]; [done|]. exists header, s. tauto.
Qed.

(** ** Spending *)

Inductive PocOp :=
| OpVerify (fate : DbFate) (s : Solution) (now_ms : Z)
| OpPrune (db_now : Z).

Definition poc_step (cr : PocCrates) (g : PocGate) (t : Spent) (op : PocOp) : Verified * Spent :=
  match op with
  | OpVerify fate s now => verify cr g fate s now t
  | OpPrune db_now => (DbError, prune_expired db_now t)
  end.

(** How often the puzzle of session [sid] issued at [ts] is admitted. *)
Fixpoint admissions (cr : PocCrates) (g : PocGate) (sid : bytes) (ts : Z) (ops : list PocOp) (t : Spent) : nat :=
  match ops with
  | [] => 0%nat
  | op :: ops' =>
      let '(v, t') := poc_step cr g t op in
      let here := match op, v with
                  | OpVerify _ s _, Passed =>
                      if bool_decide (session_id s = sid) && (timestamp_ms s =? ts) then 1%nat else 0%nat
                  | _, _ => 0%nat
                  end in
      (here + admissions cr g sid ts ops' t')%nat
  end.

(** No replica's clock is further behind the database's than the prune grace. *)
Definition clocks_ok (ops : list PocOp) : Prop :=
  forall i j p fate s now, (i < j)%nat -> ops !! i = Some (OpPrune p) -> ops !! j = Some (OpVerify fate s now) ->
    p - PRUNE_GRACE <= now * 1000.

Lemma clocks_tail op ops : clocks_ok (op :: ops) -> clocks_ok ops.
Proof. intros H i j p fate s now Hij Hi Hj. apply (H (S i) (S j) p fate s now); [lia|done..]. Qed.

(** A spent puzzle: its row is there, or every later check finds it expired. *)
Definition closed (sid : bytes) (ts : Z) (ops : list PocOp) (t : Spent) : Prop :=
  t !! sid = Some ((ts + validity_window_ms) * 1000) \/
  forall fate s now, OpVerify fate s now ∈ ops -> ts + validity_window_ms < now.

Lemma verify_keeps cr g fate s now t sid e :
  t !! sid = Some e -> (verify cr g fate s now t).2 !! sid = Some e.
Proof.
  intros Hs. unfold verify. destruct (verify_offline cr g s now); [|done]. unfold consume.
  destruct (_ <? _); [done|]. destruct (t !! session_id s) eqn:E; destruct fate; simpl; try done;
    (rewrite lookup_insert_ne; [done|]; intros Heq; congruence).
Qed.

Lemma closed_silent cr g sid ts ops t : clocks_ok ops -> closed sid ts ops t -> admissions cr g sid ts ops t = 0%nat.
Proof.
  revert t. induction ops as [|op ops IH]; intros t Hck Hcl; [done|]. cbn [admissions].
  destruct (poc_step cr g t op) as [v t'] eqn:E.
  assert (closed sid ts ops t') as Hcl'.
  { destruct Hcl as [Hrow|Hstale]; [|right; intros; eapply Hstale; by right]. destruct op as [fate s now|p]; simpl in E.
    - left. pose proof (verify_keeps cr g fate s now t sid _ Hrow) as Hk. by rewrite E in Hk.
    - injection E as <- <-. unfold closed, prune_expired.
      destruct (decide (p - PRUNE_GRACE <= (ts + validity_window_ms) * 1000)) as [Hk|Hk].
      + left. by apply map_lookup_filter_Some.
      + right. intros fate s now [i Hi]%list_elem_of_lookup.
        pose proof (Hck 0%nat (S i) p fate s now ltac:(lia) eq_refl Hi). lia. }
  rewrite (IH t' (clocks_tail _ _ Hck) Hcl'). destruct op as [fate s now|p]; [|done].
  simpl in E. destruct v; try done. apply verify_passed in E as (Hoff & _ & Hnone & _).
  case_bool_decide as Hsid; [|done]. destruct (Z.eqb_spec (timestamp_ms s) ts) as [Hts|]; [|done]. exfalso.
  destruct Hcl as [Hrow|Hstale]; [congruence|].
  apply verify_offline_ok in Hoff as (_ & Hwin & _). specialize (Hstale fate s now ltac:(apply list_elem_of_here)). lia.
Qed.

(** C16. A puzzle is admitted at most once, on any number of replicas and with rows
    being pruned meanwhile, as long as no replica's clock lags the database's by
    more than the grace the prune leaves. *)
Theorem puzzle_single_use cr g sid ts ops t :
  clocks_ok ops -> (admissions cr g sid ts ops t <= 1)%nat.
Proof.
  revert t. induction ops as [|op ops IH]; intros t Hck; simpl; [lia|].
  destruct (poc_step cr g t op) as [v t'] eqn:E. pose proof (clocks_tail _ _ Hck) as Hck'.
  specialize (IH t' Hck'). destruct op as [fate s now|p]; [|done]. destruct v; try done.
  case_bool_decide as Hsid; [|done]. destruct (Z.eqb_spec (timestamp_ms s) ts) as [Hts|]; [|done].
  simpl in E. apply verify_passed in E as (_ & _ & _ & _ & ->).
  rewrite closed_silent; [simpl; lia|done|]. left. subst. by rewrite lookup_insert_eq.
Qed.

(** ** From issue to admission *)

(** A puzzle the gate issued, solved by its client and presented inside the
    window, is admitted: the header it travels in parses back, its checksum
    matches and it is spent by the admission. *)
Lemma solved_passes `{jwt_crates : Jwt.JwtCrates} cr g verifier sid issued_at c now_secs now_ms t :
  poc_laws cr -> is_uuid sid -> 1 <= gate_difficulty g <= 32 ->
  0 <= issued_at <= MAX_INSTANT_MS - validity_window_ms -> now_ms <= issued_at + validity_window_ms ->
  0 <= c <= U64_MAX -> gate_difficulty g <= leading_zero_bits cr sid issued_at c -> t !! sid = None ->
  poc_gate cr (Some (g, verifier)) Fine None (Some (Some (to_header cr (solve (issue cr g sid issued_at) c))))
    now_secs now_ms t
  = (Passed, <[sid := (issued_at + validity_window_ms) * 1000]> t).
Proof.
  intros Hlaws Hsid Hd Hts Hnow Hc Hwork Ht. unfold poc_gate. cbn [bearer_token].
  destruct (hmac_bytes cr Hlaws (secret g) (checksum_preimage sid issued_at (gate_difficulty g))) as [Hb Hl].
  destruct (hex_encode_ok _ Hb) as (H1 & H2 & H3). rewrite Hl in H1.
  rewrite header_roundtrip_lemma; [|done|done|].
  2: { split; simpl; [unfold MAX_TIMESTAMP_MS, MAX_INSTANT_MS, validity_window_ms, SESSION_TTL_SECS, CLOCK_SKEW_SECS in *; lia|done..]. }
  apply verify_passed. rewrite verify_offline_ok. simpl. split_and!; try done; lia.
Qed.

(** *** Mining *)

Lemma mine_from_least cr sid ts d fuel k c :
  k <= c <= U64_MAX -> d <= leading_zero_bits cr sid ts c -> (Z.to_nat (c - k) < fuel)%nat ->
  exists least, mine_from cr fuel sid ts d k = Some least /\ k <= least <= c /\ d <= leading_zero_bits cr sid ts least /\
    forall n, k <= n < least -> leading_zero_bits cr sid ts n < d.
Proof.
  revert k. induction fuel as [|fuel IH]; intros k Hk Hc Hf; [lia|]. cbn [mine_from].
  destruct (Z.ltb_spec U64_MAX k); [lia|]. destruct (Z.leb_spec d (leading_zero_bits cr sid ts k)) as [Hd|Hd].
  - exists k. split_and!; [done|lia|lia|done|]. intros n Hn. lia.
  - assert (k <> c) by (intros ->; lia).
    destruct (IH (k + 1)) as (least & Hm & Hl & Hw & Hn); [lia|done|lia|]. exists least. split_and!; [done|lia|lia|done|].
    intros n Hkn. destruct (decide (n = k)) as [->|]; [done|]. apply Hn. lia.
Qed.

(** The body of the puzzle route reads back as the puzzle. *)
Lemma issued_puzzle_roundtrip cr p :
  poc_laws cr -> is_uuid (pz_session_id p) -> I64_MIN <= pz_timestamp p <= I64_MAX -> 0 <= pz_difficulty p <= 255 ->
  issued_puzzle cr (puzzle_json cr p) = Some p.
Proof.
  intros Hl Hu Ht Hd. unfold issued_puzzle, puzzle_json. cbn. rewrite (uuid_inverse cr Hl _ Hu). cbn [mbind option_bind].
  rewrite !(proj2 (Z.leb_le _ _)) by lia. by destruct p.
Qed.

(** C37. The client and the gate agree on what a solution is.  Given the body of the puzzle
    route, and as long as some counter of 64 bits reaches the difficulty, the solver
    stops after trying the counters up to the first that does, and the header it prints,
    presented inside the window, is admitted by the gate, which spends the puzzle. *)
Theorem mined_puzzle_admitted `{jwt_crates : Jwt.JwtCrates} cr g verifier sid issued_at c fuel now_secs now_ms t :
  poc_laws cr -> is_uuid sid -> 1 <= gate_difficulty g <= 32 ->
  0 <= issued_at <= MAX_INSTANT_MS - validity_window_ms -> now_ms <= issued_at + validity_window_ms -> t !! sid = None ->
  0 <= c <= U64_MAX -> gate_difficulty g <= leading_zero_bits cr sid issued_at c -> (Z.to_nat c < fuel)%nat ->
  exists least header,
    mine cr fuel sid issued_at (gate_difficulty g) = Some least /\ 0 <= least <= c /\
    (forall n, 0 <= n < least -> leading_zero_bits cr sid issued_at n < gate_difficulty g) /\
    poc_solve cr fuel (puzzle_json cr (issue cr g sid issued_at)) = Some header /\
    poc_gate cr (Some (g, verifier)) Fine None (Some (Some header)) now_secs now_ms t
    = (Passed, <[sid := (issued_at + validity_window_ms) * 1000]> t).
Proof.
  intros Hlaws Hsid Hd Hts Hnow Ht Hc Hwork Hfuel.
  destruct (mine_from_least cr sid issued_at (gate_difficulty g) fuel 0 c Hc Hwork ltac:(lia)) as (least & Hm & Hl & Hw & Hn).
  exists least, (to_header cr (solve (issue cr g sid issued_at) least)). split_and!; [done|lia|lia|done| |].
  - unfold poc_solve. rewrite issued_puzzle_roundtrip; [|done|done| |cbn; lia].
    + cbn [mbind option_bind]. unfold mine, issue. cbn [pz_session_id pz_timestamp pz_difficulty Puzzle_new]. by rewrite Hm.
    + cbn. unfold MAX_INSTANT_MS, validity_window_ms, SESSION_TTL_SECS, CLOCK_SKEW_SECS, I64_MIN, I64_MAX in *. lia.
  - apply solved_passes; try done. lia.
Qed.

(** ** An instance of the interface *)

Lemma rev_app_app a b s : String.rev_app (a +:+ b) s = String.rev_app b (String.rev_app a s).
Proof. revert s. induction a as [|c a IH]; intros s; simpl; [done|]. apply IH. Qed.

Lemma rev_app_rev a b s : String.rev_app (String.rev_app a b) s = String.rev_app b (a +:+ s).
Proof. revert b. induction a as [|c a IH]; intros b; simpl; [done|]. by rewrite IH. Qed.

Lemma string_app_nil s : s +:+ EmptyString = s.
Proof. induction s as [|c s IH]; simpl; [done|]. by rewrite IH. Qed.

(** Text that starts and ends with a letter is left alone by [trim]. *)
Lemma trim_letters s : trim (String "h" (s +:+ "h")) = String "h" (s +:+ "h").
Proof.
  unfold trim. set (x := String "h" (s +:+ "h")).
  assert (strip_all WHITE_SPACE (String.length x) x = x) as -> by reflexivity.
  assert (exists y, String.rev x = String "h" y) as [y Hy].
  { exists (String.rev_app s "h"). unfold x, String.rev. simpl. by rewrite rev_app_app. }
  rewrite Hy. assert (strip_all (String.rev <$> WHITE_SPACE) (String.length (String "h" y)) (String "h" y) = String "h" y)
    as -> by reflexivity.
  rewrite <-Hy. unfold String.rev. rewrite rev_app_rev. simpl. by rewrite string_app_nil.
Qed.

Lemma as_bytes_is_byte s : Forall is_byte (as_bytes s).
Proof.
  induction s as [|c s IH]; constructor; [|done]. unfold is_byte, U8_MAX, byte_of_ascii.
  pose proof (nat_ascii_bounded c). lia.
Qed.

Lemma hex_no_h c : is_ascii_hexdigit c = true -> negb (Ascii.eqb c "h"%char) = true.
Proof. destruct c as [[] [] [] [] [] [] [] []]; vm_compute; congruence. Qed.

Definition demo_poc : PocCrates :=
  {| hkdf_sha256 := fun a b => (a ++ b)%list; hmac_sha256 := fun _ _ => replicate 32 171;
     sha256 := fun m => match last m with Some b => if b <? 3 then [255; 0; 0; 0] else [0; 0; 1; 0] | None => [] end;
     b64_encode := fun b => String "h" (hex_encode b +:+ "h");
     b64_decode := fun s => match s with
                            | String _ s' => match split_on "h"%char s' with h :: _ => hex_decode h | [] => None end
                            | EmptyString => None
                            end;
     uuid_parse := hex_decode; uuid_text := hex_encode |}.

Lemma demo_poc_laws : poc_laws demo_poc.
Proof.
  split.
  - intros t. simpl. rewrite trim_letters. pose proof (as_bytes_is_byte t) as Hb.
    destruct (hex_encode_ok _ Hb) as (_ & Hh & _).
    rewrite (split_on_app "h"%char (hex_encode (as_bytes t)) EmptyString) by by apply (all_chars_impl _ _ _ hex_no_h).
    by apply hex_decode_encode.
  - intros u [_ Hu]. by apply hex_decode_encode.
  - intros u [_ Hu]. destruct (hex_encode_ok _ Hu) as (_ & Hh & _). by apply (all_chars_impl _ _ _ hex_plain).
  - intros k m. split; [|done]. by apply Forall_replicate.
Qed.

Definition demo_session : bytes := replicate 16 5.

Lemma demo_uuid : is_uuid demo_session.
Proof. split; [done|]. by apply Forall_replicate. Qed.

Definition demo_gate : PocGate := {| secret := [1]; gate_difficulty := 8 |}.

Definition demo_solution : Solution := solve (issue demo_poc demo_gate demo_session 1700000000000) 3.

Lemma demo_solution_ok : solution_ok demo_solution.
Proof. split; by vm_compute. Qed.

Lemma header_roundtrip_witness : parse_header demo_poc (to_header demo_poc demo_solution) = Ok demo_solution.
Proof. exact (header_roundtrip demo_poc demo_solution demo_poc_laws demo_uuid demo_solution_ok). Defined.

(** Two replicas race on one puzzle, and a prune runs between them. *)
Definition demo_ops : list PocOp :=
  [OpVerify Fine demo_solution 1700000010000; OpPrune 1700000020000000; OpVerify Fine demo_solution 1700000020000].

Lemma puzzle_single_use_witness : (admissions demo_poc demo_gate demo_session 1700000000000 demo_ops ∅ <= 1)%nat.
Proof.
  apply puzzle_single_use. intros i j p fate s now Hij Hi Hj.
  destruct i as [|[|[|]]]; simplify_eq/=. destruct j as [|[|[|]]]; simplify_eq/=; try lia.
  vm_compute. congruence.
Defined.

#[local] Existing Instance Jwt.Demo.demo_crates.

(** The first counter that does is 3. *)
Lemma mined_puzzle_admitted_witness :
  mine demo_poc 10 demo_session 1700000000000 8 = Some 3 /\
  exists header, poc_solve demo_poc 10 (puzzle_json demo_poc (issue demo_poc demo_gate demo_session 1700000000000)) = Some header /\
    poc_gate demo_poc (Some (demo_gate, {| Jwt.keys := [] |})) Fine None (Some (Some header)) 1700000010 1700000010000 ∅
    = (Passed, <[demo_session := 1700000090000000]> ∅).
Proof.
  split; [vm_compute; reflexivity|].
  destruct (mined_puzzle_admitted demo_poc demo_gate {| Jwt.keys := [] |} demo_session 1700000000000 7 10
           1700000010 1700000010000 ∅ demo_poc_laws demo_uuid) as (least & header & _ & _ & _ & Hs & Hg);
    [by vm_compute|by vm_compute|by vm_compute|by vm_compute|by vm_compute|by vm_compute|lia|].
  exists header. exact (conj Hs Hg).
Defined.
End PocProps.
