(* ===== verification/Projection.v ===== *)
(** * Projection: the indexed usernames ([username-indexer/src/projection.rs], [ss58.rs])

    Decoding of a consumer entry of the People Chain into the row the search API
    serves, the SS58 text of an account, and the statements over
    [assigned_usernames].  BLAKE2b and base-58 are the crates' and parameters of
    the encoder. *)

From stdpp Require Import gmap.
From S2P Require Import Prelude Strings Text.

#[local] Open Scope string_scope.
#[local] Open Scope Z_scope.

Module Projection.

(** ** [ss58.rs] *)

Inductive Ss58Error := InvalidPrefix (prefix : Z).

Record Ss58Crates := { blake2b512 : bytes -> bytes; bs58_encode : bytes -> string }.

Definition validate_prefix (prefix : Z) : result Z Ss58Error :=
  if 16384 <=? prefix then Err (InvalidPrefix prefix) else Ok prefix.

(** The one or two bytes of a network identifier; [as u8] keeps the low byte. *)
Definition prefix_bytes (prefix : Z) : option bytes :=
  if prefix <=? 63 then Some [prefix]
  else if prefix <=? 16383 then
    Some [Z.lor (Z.land (Z.shiftr (Z.land prefix 252) 2) 255) 64;
          Z.lor (Z.land (Z.shiftr prefix 8) 255) (Z.land (Z.shiftl (Z.land prefix 3) 6) 255)]
  else None.

Definition encode (cr : Ss58Crates) (account_id : bytes) (prefix : Z) : result string Ss58Error :=
  match prefix_bytes prefix with
  | None => Err (InvalidPrefix prefix)
  | Some pb =>
      let payload := (pb ++ account_id)%list in
      let checksum := blake2b512 cr (as_bytes "SS58PRE" ++ payload)%list in
      Ok (bs58_encode cr (payload ++ take 2 checksum)%list)
  end.

(** ** Records *)

Record AssignedUsername := {
  account_id : bytes; account_id_ss58 : string; identifier_key : bytes;
  lite_username : string; lite_base : string; lite_digits : string;
  full_username : option string; display_username : string;
  snapshot_hash : bytes; snapshot_number : Z }.

Inductive DecodeError := LiteUtf8 | FullUtf8 | LiteFormat | EmptyFull | NulByte.

(** [Resources::Consumers] as the chain types decode it. *)
Record ConsumerInfo := {
  c_identifier_key : bytes; c_lite_username : bytes; c_full_username : option bytes }.

Definition NUL : ascii := ascii_of_nat 0.

Section decode.
Context (cr : Ss58Crates).
#[local] Open Scope dub_scope.

Definition full_text (full : option bytes) : result (option string) DecodeError :=
  match full with
  | None => Ok None
  | Some value => match from_utf8 value with Some s => Ok (Some s) | None => Err FullUtf8 end
  end.

Definition contains_nul (s : string) : bool := negb (lacks NUL s).

(** The checks, in order: the lite name, its base and digits, the full name. *)
Definition decode_names (c : ConsumerInfo)
    : result (string * string * string * option string) DecodeError :=
  match from_utf8 (c_lite_username c) with
  | None => Err LiteUtf8
  | Some lite =>
      match rsplit_once "."%char lite with
      | None => Err LiteFormat
      | Some (base, digits) =>
          if String.eqb base EmptyString || String.eqb digits EmptyString
             || negb (all_chars is_ascii_digit digits)
          then Err LiteFormat
          else
            let? full := full_text (c_full_username c) in
            if bool_decide (full = Some EmptyString) then Err EmptyFull
            else if contains_nul lite
                    || match full with Some f => contains_nul f | None => false end
            then Err NulByte
            else Ok (lite, base, digits, full)
      end
  end.

(** [None] is the panic of [expect] on a prefix [encode] refuses. *)
Definition decode_consumer (account : bytes) (c : ConsumerInfo) (ss58_prefix : Z)
    (hash : bytes) (number : Z) : option (result AssignedUsername DecodeError) :=
  match decode_names c with
  | Err e => Some (Err e)
  | Ok (lite, base, digits, full) =>
      match encode cr account ss58_prefix with
      | Err _ => None
      | Ok ss58 =>
          Some (Ok {| account_id := account; account_id_ss58 := ss58;
                      identifier_key := c_identifier_key c; lite_username := lite;
                      lite_base := base; lite_digits := digits; full_username := full;
                      display_username := default lite full;
                      snapshot_hash := hash; snapshot_number := number |})
      end
  end.
End decode.

(** ** The table *)

(** The seven columns [upsert_speculative] compares with [IS DISTINCT FROM]. *)
Record Content := {
  ct_ss58 : string; ct_key : bytes; ct_lite : string; ct_base : string; ct_digits : Z;
  ct_full : option string; ct_display : string }.

#[export] Instance Content_eq_dec : EqDecision Content.
Proof. solve_decision. Defined.

Record Row := {
  row_content : Content; row_hash : bytes; row_number : Z;
  row_created_at : Z; row_updated_at : Z; speculative_from_block : option Z }.

Abbreviation Table := (gmap bytes Row).

(** [$6::numeric]: the decoder only lets digits through. *)
Definition content_of (r : AssignedUsername) : Content :=
  {| ct_ss58 := account_id_ss58 r; ct_key := identifier_key r; ct_lite := lite_username r;
     ct_base := lite_base r; ct_digits := numeral 0 (lite_digits r);
     ct_full := full_username r; ct_display := display_username r |}.

Definition created_or (now : Z) (old : option Row) : Z :=
  match old with Some r => row_created_at r | None => now end.

Definition upsert (now : Z) (record : AssignedUsername) (number : Z) (t : Table) : Table :=
  <[account_id record :=
      {| row_content := content_of record; row_hash := snapshot_hash record; row_number := number;
         row_created_at := created_or now (t !! account_id record); row_updated_at := now;
         speculative_from_block := None |}]> t.

Definition delete_account (account : bytes) (t : Table) : Table := delete account t.

(** With [rows_affected() > 0]. *)
Definition upsert_speculative (now : Z) (record : AssignedUsername) (best_number : Z) (t : Table)
    : bool * Table :=
  let new created from :=
    {| row_content := content_of record; row_hash := snapshot_hash record; row_number := best_number;
       row_created_at := created; row_updated_at := now; speculative_from_block := Some from |} in
  match t !! account_id record with
  | None => (true, <[account_id record := new now best_number]> t)
  | Some old =>
      match speculative_from_block old with
      | None => (false, t)
      | Some from =>
          if bool_decide (row_content old = content_of record) then (false, t)
          else (true, <[account_id record := new (row_created_at old) from]> t)
      end
  end.

Definition is_speculative (r : Row) : bool := bool_decide (is_Some (speculative_from_block r)).

Definition delete_if_speculative (account : bytes) (t : Table) : bool * Table :=
  match t !! account with
  | Some r => if is_speculative r then (true, delete account t) else (false, t)
  | None => (false, t)
  end.

(** Membership in the returned set. *)
Definition finalized_accounts (t : Table) (accounts : list bytes) : list bytes :=
  filter (fun a => match t !! a with Some r => negb (is_speculative r) | None => false end = true) accounts.

Definition speculative_accounts (t : Table) : list bytes :=
  (filter (fun '(_, r) => is_speculative r = true) (map_to_list t)).*1.

Definition clear_speculative (t : Table) : Table :=
  filter (fun '(_, r) => is_speculative r = false) t.

End Projection.
