(* ===== verification/Indexer.v ===== *)
(** * Indexer: keeping the projection in step with the People Chain

    [username-indexer/src/incremental.rs], [bootstrap.rs], [sync.rs]: the full
    finalized scan, the pass over finalized blocks, the speculative pass over the
    unfinalized window, and the loop that wakes them.  What the node answers is an
    input ([Chain], [Block]): every call may fail.  Each transaction meets a
    [DbFate].  The projection lock serialises the writers, so a pass runs alone;
    whether it gets the lock is an input. *)

From stdpp Require Import gmap.
From S2P Require Import Prelude Strings Schema Text Projection.

#[local] Open Scope string_scope.
#[local] Open Scope Z_scope.

Module Indexer.
Import Projection.

(** ** What the node answers *)

Inductive EventKind :=
| LitePersonRegistered | PersonRegistered | IdentifierKeyUpdated | ConsumerRegistered | OtherEvent.

#[export] Instance EventKind_eq_dec : EqDecision EventKind.
Proof. solve_decision. Defined.

(** An event, and the account it names; [None]: it does not decode. *)
Record Event := { ev_kind : EventKind; ev_account : option bytes }.

(** A read of one [Resources::Consumers] entry. *)
Inductive Fetched := FetchFailed | Absent | Undecodable | Present (c : ConsumerInfo).

(** An item of the storage iterator. *)
Inductive Entry := IterError | BadKey | BadValue (account : bytes) | Good (account : bytes) (c : ConsumerInfo).

(** A block; [None] is a query that failed. *)
Record Block := {
  b_hash : bytes; b_number : Z; b_events : option (list Event); b_prefix : option Z;
  b_consumer : bytes -> Fetched; b_entries : option (list Entry) }.

Record Chain := {
  genesis_hash : bytes; at_block : Z -> option Block; at_current_block : option Block;
  best_head_number : option Z }.

(** ** The database *)

Record SyncRow := {
  last_finalized_number : Z; last_finalized_hash : bytes; sync_genesis : option bytes;
  last_synced_at : Z; sy_records_indexed : Z; sy_decode_failures : Z; sync_updated_at : Z }.

Record IndexDb := { usernames : Table; sync_state : option SyncRow }.

Definition with_usernames (t : Table) (db : IndexDb) : IndexDb :=
  {| usernames := t; sync_state := sync_state db |}.
Definition with_sync (s : option SyncRow) (db : IndexDb) : IndexDb :=
  {| usernames := usernames db; sync_state := s |}.

(** ** Errors *)

Inductive ChainError := Query | NoBestHeader.
Inductive IndexError :=
| EChain (e : ChainError) | EStorage | ESs58 (e : Ss58Error) | EDatabase
| ESnapshotNumber (n : Z) | EIncompleteScan (iterator_errors : Z).

(** A task ends a pass with an error, or unwinds. *)
Inductive stop := Failed (e : IndexError) | Panicked.

Abbreviation R A := (result A stop * IndexDb)%type.

(** The transaction [db -> db'] and its fate. *)
Definition commit {A} (fate : DbFate) (db db' : IndexDb) (a : A) : R A :=
  match fate with
  | Fine => (Ok a, db')
  | Refused => (Err (Failed EDatabase), db)
  | AckLost => (Err (Failed EDatabase), db')
  end.

Definition read_ok (ok : bool) : result unit stop := if ok then Ok tt else Err (Failed EDatabase).

Section indexer.
Context (cr : Ss58Crates).
#[local] Open Scope dub_scope.

(** ** [incremental.rs]: finalized blocks *)

Record IndexReport := {
  from_block : Z; to_block : Z; blocks_processed : Z;
  accounts_upserted : Z; accounts_deleted : Z; decode_failures : Z }.

Definition idle (block : Z) : IndexReport :=
  {| from_block := block; to_block := block; blocks_processed := 0; accounts_upserted := 0;
     accounts_deleted := 0; decode_failures := 0 |}.

Definition find_events (kind : EventKind) (events : list Event) : result (list bytes) stop :=
  try_map (fun _ ev => match ev_account ev with Some a => Ok a | None => Err (Failed EStorage) end)
    0 (filter (fun ev => ev_kind ev = kind) events).

Definition accounts_from_events (events : list Event) : result (list bytes) stop :=
  let? lite := find_events LitePersonRegistered events in
  let? person := find_events PersonRegistered events in
  let? key := find_events IdentifierKeyUpdated events in
  let? consumer := find_events ConsumerRegistered events in
  Ok (lite ++ person ++ key ++ consumer)%list.

Definition account_le (a b : bytes) : bool :=
  match bytes_cmp a b with Gt => false | _ => true end.

(** A [BTreeSet] read back in order. *)
Definition dedupe_accounts (accounts : list bytes) : list bytes :=
  sort_by account_le (remove_dups accounts).

Definition block_number_db (b : Block) : result Z stop :=
  if I64_MAX <? b_number b then Err (Failed (ESnapshotNumber (b_number b))) else Ok (b_number b).

Definition ss58_prefix (b : Block) : result Z stop :=
  match b_prefix b with
  | None => Err (Failed EStorage)
  | Some p => map_err (fun e => Failed (ESs58 e)) (validate_prefix p)
  end.

Record Tally := { t_upserts : Z; t_deletes : Z; t_failures : Z }.

(** One account of the loop of [index_block]. *)
Definition index_account (now : Z) (b : Block) (number_db prefix : Z) (acc : Table * Tally)
    (account : bytes) : result (Table * Tally) stop :=
  let '(t, n) := acc in
  match b_consumer b account with
  | FetchFailed | Undecodable => Err (Failed EStorage)
  | Absent =>
      Ok (delete_account account t,
          {| t_upserts := t_upserts n; t_deletes := t_deletes n + 1; t_failures := t_failures n |})
  | Present c =>
      match decode_consumer cr account c prefix (b_hash b) (b_number b) with
      | None => Err Panicked
      | Some (Ok record) =>
          Ok (upsert now record number_db t,
              {| t_upserts := t_upserts n + 1; t_deletes := t_deletes n; t_failures := t_failures n |})
      | Some (Err _) =>
          Ok (delete_account account t,
              {| t_upserts := t_upserts n; t_deletes := t_deletes n; t_failures := t_failures n + 1 |})
      end
  end.

Definition advance_checkpoint (now number : Z) (hash : bytes) (records failures : Z) (db : IndexDb)
    : IndexDb :=
  with_sync
    ((fun s => {| last_finalized_number := number; last_finalized_hash := hash;
                  sync_genesis := sync_genesis s; last_synced_at := now;
                  sy_records_indexed := records; sy_decode_failures := failures;
                  sync_updated_at := now |}) <$> sync_state db) db.

Definition index_block (now : Z) (fate : DbFate) (chain : Chain) (num : Z) (report : IndexReport)
    (db : IndexDb) : R IndexReport :=
  match at_block chain num with
  | None => (Err (Failed (EChain Query)), db)
  | Some b =>
      match
        (let? number_db := block_number_db b in
         match b_events b with
         | None => Err (Failed (EChain Query))
         | Some events =>
             let? accounts := accounts_from_events events in
             match dedupe_accounts accounts with
             | [] => Ok (advance_checkpoint now number_db (b_hash b) 0 0 db, report)
             | affected =>
                 let? prefix := ss58_prefix b in
                 let? (t, n) := try_fold (index_account now b number_db prefix)
                   (usernames db, {| t_upserts := 0; t_deletes := 0; t_failures := 0 |}) affected in
                 Ok (advance_checkpoint now number_db (b_hash b) (t_upserts n) (t_failures n)
                       (with_usernames t db),
                     {| from_block := from_block report; to_block := to_block report;
                        blocks_processed := blocks_processed report;
                        accounts_upserted := accounts_upserted report + t_upserts n;
                        accounts_deleted := accounts_deleted report + t_deletes n;
                        decode_failures := decode_failures report + t_failures n |})
             end
         end)
      with
      | Err e => (Err e, db)
      | Ok (db', report') => commit fate db db' report'
      end
  end.

Definition processed (r : IndexReport) : IndexReport :=
  {| from_block := from_block r; to_block := to_block r; blocks_processed := blocks_processed r + 1;
     accounts_upserted := accounts_upserted r; accounts_deleted := accounts_deleted r;
     decode_failures := decode_failures r |}.

(** [for number in (checkpoint + 1)..=head_number]. *)
Fixpoint index_blocks (now : Z) (fate : Z -> DbFate) (chain : Chain) (numbers : list Z)
    (report : IndexReport) (db : IndexDb) : R IndexReport :=
  match numbers with
  | [] => (Ok report, db)
  | n :: numbers' =>
      let '(r, db') := index_block now (fate n) chain n report db in
      match r with
      | Err e => (Err e, db')
      | Ok report' => index_blocks now fate chain numbers' (processed report') db'
      end
  end.

Definition read_checkpoint (db : IndexDb) : option Z :=
  (fun s => Z.max 0 (last_finalized_number s)) <$> sync_state db.

Definition index_from_checkpoint (now : Z) (fate : Z -> DbFate) (chain : Chain)
    (checkpoint head_number : Z) (db : IndexDb) : R (option IndexReport) :=
  if head_number <=? checkpoint then (Ok (Some (idle checkpoint)), db)
  else
    let '(r, db') := index_blocks now fate chain (seqZ (checkpoint + 1) (head_number - checkpoint))
      {| from_block := checkpoint + 1; to_block := head_number; blocks_processed := 0;
         accounts_upserted := 0; accounts_deleted := 0; decode_failures := 0 |} db in
    (let? report := r in Ok (Some report), db').

Definition index_finalized_range_locked (read : bool) (now : Z) (fate : Z -> DbFate) (chain : Chain)
    (head_number : Z) (db : IndexDb) : R (option IndexReport) :=
  if negb read then (Err (Failed EDatabase), db)
  else
    match read_checkpoint db with
    | None => (Ok (Some (idle 0)), db)
    | Some checkpoint => index_from_checkpoint now fate chain checkpoint head_number db
    end.

(** [lock]: the answer of [try_projection_lock], or a failure. *)
Definition index_finalized_range_to (lock : option bool) (read : bool) (now : Z) (fate : Z -> DbFate) (chain : Chain)
    (head_number : Z) (db : IndexDb) : R (option IndexReport) :=
  match lock with
  | None => (Err (Failed EDatabase), db)
  | Some false => (Ok None, db)
  | Some true => index_finalized_range_locked read now fate chain head_number db
  end.

(** The head is asked of the chain last; [head]: its answer. *)
Definition index_finalized_range (lock : option bool) (read : bool) (now : Z) (fate : Z -> DbFate) (chain : Chain)
    (head : result Z stop) (db : IndexDb) : R (option IndexReport) :=
  match lock with
  | None => (Err (Failed EDatabase), db)
  | Some false => (Ok None, db)
  | Some true =>
      if negb read then (Err (Failed EDatabase), db)
      else
        match read_checkpoint db with
        | None => (Ok (Some (idle 0)), db)
        | Some checkpoint =>
            match head with
            | Err e => (Err e, db)
            | Ok head_number => index_from_checkpoint now fate chain checkpoint head_number db
            end
        end
  end.

(** Both entries do the same once the head is known; without the lock or a checkpoint
    the chain's answer does not matter. *)
Lemma range_entries_agree lock read now fate chain head db :
  (forall head_number, head = Ok head_number ->
     index_finalized_range lock read now fate chain head db =
     index_finalized_range_to lock read now fate chain head_number db) /\
  (lock <> Some true \/ read_checkpoint db = None -> forall head',
     index_finalized_range lock read now fate chain head db = index_finalized_range lock read now fate chain head' db).
Proof.
  unfold index_finalized_range, index_finalized_range_to, index_finalized_range_locked. split.
  - intros head_number ->. destruct lock as [[]|]; [|done..]. destruct read; [|done]. by destruct (read_checkpoint db).
  - intros Hor head'. destruct lock as [[]|]; [|done..]. destruct Hor as [|Hn]; [done|]. by rewrite Hn.
Qed.

(** ** [incremental.rs]: the unfinalized window *)

Definition MAX_SPECULATIVE_WINDOW : Z := 64.

Inductive SpeculativeWindow := Nothing | StandDown | Scan (from to : Z).

Definition plan_speculative_window (finalized best : Z) : SpeculativeWindow :=
  if best <=? finalized then Nothing
  else if MAX_SPECULATIVE_WINDOW <? best - finalized then StandDown
  else Scan (finalized + 1) best.

Record SpeculativeReport := {
  sr_from_block : Z; sr_to_block : Z; blocks_scanned : Z; accounts_checked : Z;
  accounts_admitted : Z; accounts_retracted : Z; sr_decode_failures : Z;
  skipped_wide_window : bool }.

Record CachedBlock := { cb_hash : bytes; cb_accounts : list bytes }.
#[local] Abbreviation SpeculativeCache := (gmap Z CachedBlock).

Definition cache_get (cache : SpeculativeCache) (num : Z) (hash : bytes) : option (list bytes) :=
  match cache !! num with
  | Some c => if bool_decide (cb_hash c = hash) then Some (cb_accounts c) else None
  | None => None
  end.

Definition cache_insert (num : Z) (hash : bytes) (accounts : list bytes) (cache : SpeculativeCache)
    : SpeculativeCache := <[num := {| cb_hash := hash; cb_accounts := accounts |}]> cache.

Definition u64_succ (n : Z) : Z := Z.min U64_MAX (n + 1).

(** [split_off(&finalized.saturating_add(1))]. *)
Definition prune_finalized (finalized : Z) (cache : SpeculativeCache) : SpeculativeCache :=
  filter (fun '(n, _) => u64_succ finalized <= n) cache.

(** The scan of [from..=to]; a failure keeps what was cached before it. *)
Fixpoint scan_window (chain : Chain) (numbers : list Z) (cache : SpeculativeCache)
    : result (list bytes) stop * SpeculativeCache :=
  match numbers with
  | [] => (Ok [], cache)
  | n :: numbers' =>
      match at_block chain n with
      | None => (Err (Failed (EChain Query)), cache)
      | Some b =>
          match
            (match cache_get cache n (b_hash b) with
             | Some accounts => Ok (accounts, cache)
             | None =>
                 match b_events b with
                 | None => Err (Failed (EChain Query))
                 | Some events =>
                     let? accounts := accounts_from_events events in
                     Ok (accounts, cache_insert n (b_hash b) accounts cache)
                 end
             end)
          with
          | Err e => (Err e, cache)
          | Ok (accounts, cache1) =>
              let '(r, cache2) := scan_window chain numbers' cache1 in
              (let? rest := r in Ok (accounts ++ rest)%list, cache2)
          end
      end
  end.

Record SpecTally := { st_admitted : Z; st_retracted : Z; st_failures : Z }.

Definition speculative_account (now : Z) (b : Block) (number_db prefix : Z) (acc : Table * SpecTally)
    (account : bytes) : result (Table * SpecTally) stop :=
  let '(t, n) := acc in
  let retract (failed : bool) :=
    let '(gone, t') := delete_if_speculative account t in
    Ok (t', {| st_admitted := st_admitted n;
               st_retracted := st_retracted n + (if (gone : bool) then 1 else 0);
               st_failures := st_failures n + (if failed then 1 else 0) |}) in
  match b_consumer b account with
  | FetchFailed | Undecodable => Err (Failed EStorage)
  | Absent => retract false
  | Present c =>
      match decode_consumer cr account c prefix (b_hash b) (b_number b) with
      | None => Err Panicked
      | Some (Err _) => retract true
      | Some (Ok record) =>
          let '(changed, t') := upsert_speculative now record number_db t in
          Ok (t', {| st_admitted := st_admitted n + (if (changed : bool) then 1 else 0);
                     st_retracted := st_retracted n; st_failures := st_failures n |})
      end
  end.

(** The accounts to re-read: those of the window and those held, less the confirmed. *)
Definition to_check (db : IndexDb) (named : list bytes) : list bytes :=
  let affected := dedupe_accounts (named ++ speculative_accounts (usernames db))%list in
  let already := finalized_accounts (usernames db) affected in
  filter (fun a => a ∉ already) affected.

Definition index_speculative_window (reads : bool) (now : Z) (fate : DbFate) (chain : Chain)
    (finalized best : Z) (cache : SpeculativeCache) (db : IndexDb)
    : R SpeculativeReport * SpeculativeCache :=
  let plan := plan_speculative_window finalized best in
  let scan := match plan with Scan from to => seqZ from (to - from + 1) | _ => [] end in
  let cache := prune_finalized finalized cache in
  let '(named, cache) := scan_window chain scan cache in
  let report checked n :=
    {| sr_from_block := u64_succ finalized;
       sr_to_block := match plan with Nothing => finalized | _ => best end;
       blocks_scanned := Z.of_nat (length scan); accounts_checked := checked;
       accounts_admitted := st_admitted n; accounts_retracted := st_retracted n;
       sr_decode_failures := st_failures n;
       skipped_wide_window := match plan with StandDown => true | _ => false end |} in
  let zero := {| st_admitted := 0; st_retracted := 0; st_failures := 0 |} in
  match named with
  | Err e => ((Err e, db), cache)
  | Ok named =>
      if negb reads then ((Err (Failed EDatabase), db), cache)
      else
        match to_check db named with
        | [] => ((Ok (report 0 zero), db), cache)
        | affected =>
            match at_block chain (Z.max best finalized) with
            | None => ((Err (Failed (EChain Query)), db), cache)
            | Some b =>
                match
                  (let? number_db := block_number_db b in
                   let? prefix := ss58_prefix b in
                   try_fold (speculative_account now b number_db prefix) (usernames db, zero) affected)
                with
                | Err e => ((Err e, db), cache)
                | Ok (t, n) =>
                    (commit fate db (with_usernames t db) (report (Z.of_nat (length affected)) n), cache)
                end
            end
        end
  end.
End indexer.

Abbreviation SpeculativeCache := (gmap Z CachedBlock).
End Indexer.
