(* ===== verification/IndexerRun.v ===== *)
(** * IndexerRun: bootstrap and the sync loop

    [username-indexer/src/bootstrap.rs], [sync.rs] and the start of the role in
    [dub/src/roles/username_indexer.rs]: the full finalized scan with its
    chain-identity check, one pass, and the loop that runs passes on best-block
    headers, on a timer and while the subscription is down.  Metrics and logging
    are not modelled; sleeping is. *)

From stdpp Require Import gmap.
From S2P Require Import Prelude Strings Schema Text Projection Indexer.

#[local] Open Scope string_scope.
#[local] Open Scope Z_scope.

Module IndexerRun.
Import Projection Indexer.

Section run.
Context (cr : Ss58Crates).
#[local] Open Scope dub_scope.

(** ** [bootstrap.rs] *)

Inductive BootstrapTrigger := FreshDatabase | ChainChanged.
Record BootstrapReport := {
  br_indexed : Z; br_skipped : Z; br_snapshot_number : Z; br_trigger : BootstrapTrigger }.
Inductive CheckpointState := CsAbsent | CsUsable | CsDiscarded.

(** The answers of the database and of the node during one [ensure_seeded]. *)
Record SeedEnv := {
  se_now : Z; se_chain : Chain; se_lock : bool; se_read : bool;
  se_adopt : DbFate; se_discard : DbFate; se_flush : nat -> DbFate;
  se_sweep : DbFate; se_checkpoint : DbFate }.

Definition reconcile_chain_identity (env : SeedEnv) (db : IndexDb) : R CheckpointState :=
  let live := genesis_hash (se_chain env) in
  if negb (se_read env) then (Err (Failed EDatabase), db)
  else
    match sync_state db with
    | None => (Ok CsAbsent, db)
    | Some s =>
        match sync_genesis s with
        | None =>
            commit (se_adopt env) db
              (with_sync (Some {| last_finalized_number := last_finalized_number s;
                                  last_finalized_hash := last_finalized_hash s;
                                  sync_genesis := Some live; last_synced_at := last_synced_at s;
                                  sy_records_indexed := sy_records_indexed s;
                                  sy_decode_failures := sy_decode_failures s;
                                  sync_updated_at := se_now env |}) db) CsUsable
        | Some stored =>
            if bool_decide (stored = live) then (Ok CsUsable, db)
            else commit (se_discard env) db {| usernames := ∅; sync_state := None |} CsDiscarded
        end
    end.

(** The loop over the storage iterator: [i] numbers the entries. *)
Record ScanState := { batch : list AssignedUsername; indexed : Z; skipped : Z; iterator_errors : Z }.

Definition skip (errors : Z) (s : ScanState) : ScanState :=
  {| batch := batch s; indexed := indexed s; skipped := skipped s + 1;
     iterator_errors := iterator_errors s + errors |}.

Definition upsert_batch (now : Z) (records : list AssignedUsername) (number : Z) (t : Table) : Table :=
  foldl (fun t r => upsert now r number t) t records.

Definition flush (env : SeedEnv) (i : nat) (number_db : Z) (s : ScanState) (db : IndexDb) : R ScanState :=
  commit (se_flush env i) db
    (with_usernames (upsert_batch (se_now env) (batch s) number_db (usernames db)) db)
    {| batch := []; indexed := indexed s + Z.of_nat (length (batch s)); skipped := skipped s;
       iterator_errors := iterator_errors s |}.

Definition scan_entry (env : SeedEnv) (page_size number_db prefix : Z) (b : Block) (i : nat)
    (e : Entry) (s : ScanState) (db : IndexDb) : R ScanState :=
  match e with
  | IterError => (Ok (skip 1 s), db)
  | BadKey | BadValue _ => (Ok (skip 0 s), db)
  | Good account c =>
      match decode_consumer cr account c prefix (b_hash b) (b_number b) with
      | None => (Err Panicked, db)
      | Some d =>
          let s' := match d with
                    | Ok record => {| batch := (batch s ++ [record])%list; indexed := indexed s;
                                      skipped := skipped s; iterator_errors := iterator_errors s |}
                    | Err _ => skip 0 s
                    end in
          if Z.of_nat (length (batch s')) =? page_size then flush env i number_db s' db else (Ok s', db)
      end
  end.

Fixpoint scan_entries (env : SeedEnv) (page_size number_db prefix : Z) (b : Block) (i : nat)
    (l : list Entry) (s : ScanState) (db : IndexDb) : R (nat * ScanState) :=
  match l with
  | [] => (Ok (i, s), db)
  | e :: l' =>
      let '(r, db') := scan_entry env page_size number_db prefix b i e s db in
      match r with
      | Err x => (Err x, db')
      | Ok s' => scan_entries env page_size number_db prefix b (S i) l' s' db'
      end
  end.

Definition write_checkpoint (now number : Z) (hash genesis : bytes) (indexed skipped : Z) (db : IndexDb)
    : IndexDb :=
  with_sync (Some {| last_finalized_number := number; last_finalized_hash := hash;
                     sync_genesis := Some genesis; last_synced_at := now;
                     sy_records_indexed := indexed; sy_decode_failures := skipped;
                     sync_updated_at := now |}) db.

(** [DELETE FROM assigned_usernames WHERE snapshot_hash <> $1]. *)
Definition sweep (hash : bytes) (db : IndexDb) : IndexDb :=
  with_usernames (filter (fun '(_, r) => row_hash r = hash) (usernames db)) db.

(** After the scan: the last page, the sweep, the checkpoint. *)
Definition finish_scan (env : SeedEnv) (trigger : BootstrapTrigger) (b : Block) (number_db : Z)
    (i : nat) (s : ScanState) (db : IndexDb) : R BootstrapReport :=
  let '(r, db1) := match batch s with [] => (Ok s, db) | _ => flush env i number_db s db end in
  match r with
  | Err x => (Err x, db1)
  | Ok s =>
      if negb (iterator_errors s =? 0) then (Err (Failed (EIncompleteScan (iterator_errors s))), db1)
      else
        let '(r2, db2) := commit (se_sweep env) db1 (sweep (b_hash b) db1) tt in
        match r2 with
        | Err x => (Err x, db2)
        | Ok _ =>
            commit (se_checkpoint env) db2
              (write_checkpoint (se_now env) number_db (b_hash b) (genesis_hash (se_chain env))
                 (indexed s) (skipped s) db2)
              {| br_indexed := indexed s; br_skipped := skipped s;
                 br_snapshot_number := b_number b; br_trigger := trigger |}
        end
  end.

Definition bootstrap_locked (env : SeedEnv) (page_size : Z) (trigger : BootstrapTrigger) (db : IndexDb)
    : R BootstrapReport :=
  match at_current_block (se_chain env) with
  | None => (Err (Failed (EChain Query)), db)
  | Some b =>
      match
        (let? number_db := block_number_db b in
         let? prefix := ss58_prefix b in
         match b_entries b with
         | None => Err (Failed EStorage)
         | Some entries => Ok (number_db, prefix, entries)
         end)
      with
      | Err x => (Err x, db)
      | Ok (number_db, prefix, entries) =>
          let '(r, db') := scan_entries env page_size number_db prefix b 0 entries
            {| batch := []; indexed := 0; skipped := 0; iterator_errors := 0 |} db in
          match r with
          | Err x => (Err x, db')
          | Ok (i, s) => finish_scan env trigger b number_db i s db'
          end
      end
  end.

Definition ensure_seeded (env : SeedEnv) (page_size : Z) (db : IndexDb) : R (option BootstrapReport) :=
  if negb (se_lock env) then (Err (Failed EDatabase), db)
  else
    let '(state, db1) := reconcile_chain_identity env db in
    match state with
    | Err x => (Err x, db1)
    | Ok CsUsable => (Ok None, db1)
    | Ok CsAbsent =>
        let '(r, db2) := bootstrap_locked env page_size FreshDatabase db1 in
        (let? report := r in Ok (Some report), db2)
    | Ok CsDiscarded =>
        let '(r, db2) := bootstrap_locked env page_size ChainChanged db1 in
        (let? report := r in Ok (Some report), db2)
    end.

(** [build_state] before the seed: rows a previous run left are dropped when the
    lock is free. *)
Definition clear_at_start (lock : option bool) (fate : DbFate) (db : IndexDb) : R unit :=
  match lock with
  | None => (Err (Failed EDatabase), db)
  | Some false => (Ok tt, db)
  | Some true => commit fate db (with_usernames (clear_speculative (usernames db)) db) tt
  end.

(** ** [sync.rs] *)

Definition BACKOFF_BASE_SECS : Z := 1.
Definition BACKOFF_MAX_SECS : Z := 60.

(** Seconds; [failures] is a [u32]. *)
Definition backoff (failures : Z) : Z :=
  let shift := Z.min (Z.max 0 (failures - 1)) 16 in
  Z.min (Z.min U64_MAX (BACKOFF_BASE_SECS * Z.shiftl 1 shift)) BACKOFF_MAX_SECS.

Inductive Wake := WBlock (best : Z) | WTimer | WResubscribe.

Definition best_head (w : Wake) : option Z :=
  match w with WBlock n => Some n | WTimer | WResubscribe => None end.

(** What the header stream yields: a number, a failure, or its end. *)
Inductive Header := HNumber (n : Z) | HError | HEnd.

(** [headers.next().now_or_never()] until nothing is ready. *)
Fixpoint drain_headers (head : Z) (ready : list Header) : Wake :=
  match ready with
  | [] => WBlock head
  | HNumber n :: ready' => drain_headers (Z.max head n) ready'
  | (HError | HEnd) :: _ => WResubscribe
  end.

(** [first] is [None] when the timer wins the [select!]. *)
Definition wait_for_wake (first : option Header) (ready : list Header) : Wake :=
  match first with
  | None => WTimer
  | Some (HNumber n) => drain_headers n ready
  | Some (HError | HEnd) => WResubscribe
  end.

Record PassReport := { pr_finalized : IndexReport; pr_speculative : option SpeculativeReport }.

(** The answers during one pass. *)
Record PassEnv := {
  pe_started : Z; pe_now : Z; pe_chain : Chain; pe_lock : option bool; pe_read : bool;
  pe_block_fate : Z -> DbFate; pe_spec_reads : bool; pe_spec_fate : DbFate }.

Definition finalized_head_number (chain : Chain) : option Z := b_number <$> at_current_block chain.

Definition reconcile_speculative (env : PassEnv) (finalized : Z) (best : option Z)
    (cache : SpeculativeCache) (db : IndexDb)
    : option SpeculativeReport * IndexDb * SpeculativeCache :=
  match (match best with Some b => Some b | None => best_head_number (pe_chain env) end) with
  | None => (None, db, cache)
  | Some b =>
      let '((r, db'), cache') :=
        index_speculative_window cr (pe_spec_reads env) (pe_now env) (pe_spec_fate env) (pe_chain env)
          finalized b cache db in
      (match r with Ok report => Some report | Err _ => None end, db', cache')
  end.

(** A failure of the speculative half is logged and dropped; the prefix is validated
    before an account is decoded, so the decoder does not panic there. *)
Definition pass (env : PassEnv) (best : option Z) (speculative_indexing : bool)
    (cache : SpeculativeCache) (db : IndexDb) : R (option PassReport) * SpeculativeCache :=
  match finalized_head_number (pe_chain env) with
  | None => ((Err (Failed (EChain Query)), db), cache)
  | Some finalized =>
      match pe_lock env with
      | None => ((Err (Failed EDatabase), db), cache)
      | Some false => ((Ok None, db), cache)
      | Some true =>
          let '(r, db1) := index_finalized_range_locked cr (pe_read env) (pe_now env)
            (pe_block_fate env) (pe_chain env) finalized db in
          match r with
          | Err x => ((Err x, db1), cache)
          | Ok None => ((Ok None, db1), cache)
          | Ok (Some report) =>
              if speculative_indexing then
                let '(spec, db2, cache') := reconcile_speculative env finalized best cache db1 in
                ((Ok (Some {| pr_finalized := report; pr_speculative := spec |}), db2), cache')
              else ((Ok (Some {| pr_finalized := report; pr_speculative := None |}), db1), cache)
          end
      end
  end.

Record FreshnessSnapshot := {
  fs_last_finalized_number : Z; fs_last_synced_at : Z; fs_records_indexed : Z; fs_decode_failures : Z }.

Record PassState := { consecutive_failures : Z; cache : SpeculativeCache; last_pass : option Z }.

(** The process: its tables, its pass state, the freshness readers see, and how
    long it has slept. *)
Record Proc := {
  p_db : IndexDb; p_state : PassState; p_freshness : option FreshnessSnapshot;
  p_subscribed : bool; p_subscribe_failures : Z; p_slept : Z }.

Definition u32_incr (n : Z) : Z := Z.min U32_MAX (n + 1).

Definition run_pass (env : PassEnv) (speculative_indexing : bool) (w : Wake) (p : Proc) : Proc :=
  let '((r, db'), cache') :=
    pass env (best_head w) speculative_indexing (cache (p_state p)) (p_db p) in
  let failures := match r with
                  | Ok _ => 0
                  | Err _ => u32_incr (consecutive_failures (p_state p))
                  end in
  {| p_db := db';
     p_state := {| consecutive_failures := failures; cache := cache'; last_pass := Some (pe_started env) |};
     p_freshness := match r with
                    | Ok (Some report) =>
                        Some {| fs_last_finalized_number := to_block (pr_finalized report);
                                fs_last_synced_at := pe_now env;
                                fs_records_indexed := accounts_upserted (pr_finalized report);
                                fs_decode_failures := decode_failures (pr_finalized report) |}
                    | _ => p_freshness p
                    end;
     p_subscribed := p_subscribed p; p_subscribe_failures := p_subscribe_failures p;
     p_slept := p_slept p + match r with Ok _ => 0 | Err _ => backoff failures end |}.

Definition fallback_is_due (last : option Z) (now fallback : Z) : bool :=
  match last with None => true | Some l => fallback <=? now - l end.

(** [checked_at] is when [elapsed] is read. *)
Definition degraded_pass (env : PassEnv) (speculative_indexing : bool) (checked_at fallback : Z) (p : Proc)
    : Proc :=
  if fallback_is_due (last_pass (p_state p)) checked_at fallback
  then run_pass env speculative_indexing WTimer p else p.

Definition with_subscription (subscribed : bool) (failures slept : Z) (p : Proc) : Proc :=
  {| p_db := p_db p; p_state := p_state p; p_freshness := p_freshness p;
     p_subscribed := subscribed; p_subscribe_failures := failures; p_slept := p_slept p + slept |}.

(** One turn of [run]: an attempt to subscribe, or a wake of the subscription. *)
Inductive Turn :=
| TSubscribe (ok : bool) (env : PassEnv) (checked_at : Z)
| TWake (first : option Header) (ready : list Header) (env : PassEnv) (checked_at : Z).

Definition run_turn (speculative_indexing : bool) (fallback : Z) (p : Proc) (turn : Turn) : Proc :=
  match turn with
  | TSubscribe ok env checked_at =>
      if p_subscribed p then p
      else if ok then with_subscription true (p_subscribe_failures p) 0 p
      else
        let failures := u32_incr (p_subscribe_failures p) in
        degraded_pass env speculative_indexing checked_at fallback
          (with_subscription false failures (backoff failures) p)
  | TWake first ready env checked_at =>
      if negb (p_subscribed p) then p
      else
        match wait_for_wake first ready with
        | WResubscribe =>
            let failures := u32_incr (p_subscribe_failures p) in
            degraded_pass env speculative_indexing checked_at fallback
              (with_subscription false failures (backoff failures) p)
        | WBlock best => run_pass env speculative_indexing (WBlock best) (with_subscription true 0 0 p)
        | WTimer => run_pass env speculative_indexing WTimer p
        end
  end.

Definition run (speculative_indexing : bool) (fallback : Z) (turns : list Turn) (p : Proc) : Proc :=
  foldl (run_turn speculative_indexing fallback) p turns.

(** [checkpoint_freshness]: the snapshot a restart resumes from. *)
Definition checkpoint_freshness (db : IndexDb) : option FreshnessSnapshot :=
  (fun s => {| fs_last_finalized_number := Z.max 0 (last_finalized_number s);
               fs_last_synced_at := last_synced_at s;
               fs_records_indexed := Z.max 0 (sy_records_indexed s);
               fs_decode_failures := Z.max 0 (sy_decode_failures s) |}) <$> sync_state db.

Definition start_proc (db : IndexDb) (freshness : option FreshnessSnapshot) : Proc :=
  {| p_db := db; p_state := {| consecutive_failures := 0; cache := ∅; last_pass := None |};
     p_freshness := freshness; p_subscribed := false; p_subscribe_failures := 0; p_slept := 0 |}.

(** [build_state] up to the spawn of the sync task; [read] is the outcome of the
    checkpoint read on a resume. *)
Definition build_state (lock : option bool) (clear : DbFate) (env : SeedEnv) (page_size : Z) (read : bool)
    (db : IndexDb) : R Proc :=
  let '(r, db1) := clear_at_start lock clear db in
  match r with
  | Err x => (Err x, db1)
  | Ok _ =>
      let '(r, db2) := ensure_seeded env page_size db1 in
      match r with
      | Err x => (Err x, db2)
      | Ok (Some report) =>
          (Ok (start_proc db2
                 (Some {| fs_last_finalized_number := br_snapshot_number report;
                          fs_last_synced_at := se_now env; fs_records_indexed := br_indexed report;
                          fs_decode_failures := br_skipped report |})), db2)
      | Ok None =>
          if read then (Ok (start_proc db2 (checkpoint_freshness db2)), db2)
          else (Err (Failed EDatabase), db2)
      end
  end.

(** A process from its start to its end. *)
Record Lifetime := {
  lf_lock : option bool; lf_clear : DbFate; lf_seed : SeedEnv; lf_page_size : Z; lf_read : bool;
  lf_speculative : bool; lf_fallback : Z; lf_turns : list Turn }.

Definition lifetime (db : IndexDb) (l : Lifetime) : IndexDb :=
  match build_state (lf_lock l) (lf_clear l) (lf_seed l) (lf_page_size l) (lf_read l) db with
  | (Err _, db') => db'
  | (Ok p, _) => p_db (run (lf_speculative l) (lf_fallback l) (lf_turns l) p)
  end.

End run.
End IndexerRun.
