(* ===== verification/IndexerProps.v ===== *)
(** * IndexerProps: the projection is the chain's consumers

    The world the indexer mirrors is given by block hash ([World]): what a block's
    storage holds, which accounts its events name, and the finalized chain of each
    genesis.  Against it: every row is true of the block it is stamped with, the
    confirmed rows are the consumers of the checkpoint block, and speculation
    neither touches them nor leaves anything behind that the best block lacks. *)

From stdpp Require Import gmap.
From S2P Require Import Prelude Strings Schema Text Projection Indexer IndexerRun.

#[local] Open Scope string_scope.
#[local] Open Scope Z_scope.

Module IndexerProps.
Import Projection Indexer IndexerRun.

Record World := {
  state : bytes -> bytes -> Fetched;
  named : bytes -> list bytes;
  prefix_of : bytes -> Z;
  canon : bytes -> Z -> bytes }.

(** An entry changes only in a block whose events name its account, and the SS58
    prefix of a chain is fixed. *)
Definition world_ok (w : World) : Prop :=
  forall g n, 0 <= n ->
    prefix_of w (canon w g (n + 1)) = prefix_of w (canon w g n) /\
    forall a, a ∉ named w (canon w g (n + 1)) -> state w (canon w g (n + 1)) a = state w (canon w g n) a.

Section props.
Context (cr : Ss58Crates) (w : World).

Definition expected (h a : bytes) : option Content :=
  match state w h a with
  | Present c =>
      match decode_consumer cr a c (prefix_of w h) h 0 with
      | Some (Ok r) => Some (content_of r)
      | _ => None
      end
  | _ => None
  end.

(** The node's answers about a block are true, when it answers. *)
Record block_honest (b : Block) : Prop := {
  honest_consumer a : b_consumer b a = FetchFailed \/ b_consumer b a = state w (b_hash b) a;
  honest_events evs accts :
    b_events b = Some evs -> accounts_from_events evs = Ok accts -> accts = named w (b_hash b);
  honest_prefix p : b_prefix b = Some p -> p = prefix_of w (b_hash b);
  honest_entries l a c :
    b_entries b = Some l -> IterError ∉ l -> state w (b_hash b) a = Present c <-> Good a c ∈ l;
  honest_good l a c : b_entries b = Some l -> Good a c ∈ l -> state w (b_hash b) a = Present c;
  honest_number : 0 <= b_number b }.

(** Blocks up to the finalized head are the canonical ones. *)
Record chain_honest (chain : Chain) : Prop := {
  chain_current b : at_current_block chain = Some b ->
    block_honest b /\ b_hash b = canon w (genesis_hash chain) (b_number b);
  chain_block n b : at_block chain n = Some b -> block_honest b /\ b_number b = n;
  chain_finalized n b cur : at_block chain n = Some b -> at_current_block chain = Some cur ->
    n <= b_number cur -> b_hash b = canon w (genesis_hash chain) n }.

(** ** Decoding *)

(** What a decoded record holds. *)
Lemma decode_record a c p h n r :
  decode_consumer cr a c p h n = Some (Ok r) ->
  account_id r = a /\ snapshot_hash r = h /\ snapshot_number r = n.
Proof.
  unfold decode_consumer. intros H. destruct (decode_names c) as [[[[lite base] digits] full]|]; [|done].
  destruct (encode cr a p); [|done]. by injection H as <-.
Qed.

(** The snapshot fields do not reach the content. *)
Lemma decode_content a c p h h' n n' :
  match decode_consumer cr a c p h n, decode_consumer cr a c p h' n' with
  | Some (Ok r), Some (Ok r') => content_of r = content_of r'
  | Some (Err e), Some (Err e') => e = e'
  | None, None => True
  | _, _ => False
  end.
Proof.
  unfold decode_consumer. destruct (decode_names c) as [[[[lite base] digits] full]|e]; [|done].
  by destruct (encode cr a p).
Qed.

(** A validated prefix does not panic. *)
Lemma decode_no_panic a c p h n : p < 16384 -> is_Some (decode_consumer cr a c p h n).
Proof.
  intros Hp. unfold decode_consumer. destruct (decode_names c) as [[[[lite base] digits] full]|e]; [|by eexists].
  unfold encode, prefix_bytes. destruct (p <=? 63); [by eexists|].
  rewrite (proj2 (Z.leb_le p 16383)) by lia. by eexists.
Qed.

Lemma expected_decode h a c n :
  state w h a = Present c ->
  match decode_consumer cr a c (prefix_of w h) h n with
  | Some (Ok r) => expected h a = Some (content_of r)
  | _ => expected h a = None
  end.
Proof.
  intros Hs. unfold expected. rewrite Hs.
  pose proof (decode_content a c (prefix_of w h) h h n 0) as H.
  destruct (decode_consumer cr a c (prefix_of w h) h n) as [[r|e]|],
    (decode_consumer cr a c (prefix_of w h) h 0) as [[r'|e']|]; try done. by rewrite H.
Qed.

Lemma ss58_prefix_ok b p : block_honest b -> ss58_prefix b = Ok p -> p = prefix_of w (b_hash b) /\ p < 16384.
Proof.
  intros Hb. unfold ss58_prefix. destruct (b_prefix b) as [q|] eqn:E; [|done].
  rewrite map_err_ok. unfold validate_prefix. destruct (Z.leb_spec 16384 q); [done|].
  intros [= <-]. split; [by eapply honest_prefix|done].
Qed.

(** ** Rows *)

Definition row_true (a : bytes) (r : Row) : Prop := expected (row_hash r) a = Some (row_content r).
Definition honest (t : Table) : Prop := map_Forall row_true t.

Definition confirmed (t : Table) (a : bytes) : option Content :=
  r ← t !! a; if is_speculative r then None else Some (row_content r).

Definition mirrors (t : Table) (h : bytes) : Prop := forall a, confirmed t a = expected h a.

Lemma is_speculative_iff r : is_speculative r = true <-> exists n, speculative_from_block r = Some n.
Proof. unfold is_speculative. by rewrite bool_decide_eq_true. Qed.

Lemma is_speculative_false r : is_speculative r = false <-> speculative_from_block r = None.
Proof. unfold is_speculative. rewrite bool_decide_eq_false, <-eq_None_not_Some. done. Qed.

Lemma confirmed_insert t a r b :
  confirmed (<[a := r]> t) b =
    if decide (a = b) then (if is_speculative r then None else Some (row_content r)) else confirmed t b.
Proof.
  unfold confirmed. destruct (decide (a = b)) as [->|H].
  - by rewrite lookup_insert_eq.
  - by rewrite lookup_insert_ne.
Qed.

Lemma confirmed_delete t a b : confirmed (delete a t) b = if decide (a = b) then None else confirmed t b.
Proof.
  unfold confirmed. destruct (decide (a = b)) as [->|H].
  - by rewrite lookup_delete_eq.
  - by rewrite lookup_delete_ne.
Qed.

Lemma honest_insert t a r : honest t -> row_true a r -> honest (<[a := r]> t).
Proof. intros Ht Hr. by apply map_Forall_insert_2. Qed.

Lemma honest_delete t a : honest t -> honest (delete a t).
Proof. apply map_Forall_delete. Qed.

(** A record decoded from a block's storage is a true row of that block. *)
Lemma upsert_true now r number t h :
  honest t -> snapshot_hash r = h -> expected h (account_id r) = Some (content_of r) ->
  honest (upsert now r number t).
Proof. intros Ht Hh He. apply honest_insert; [done|]. unfold row_true. simpl. by rewrite Hh. Qed.

Lemma confirmed_upsert now r number t b :
  confirmed (upsert now r number t) b =
    if decide (account_id r = b) then Some (content_of r) else confirmed t b.
Proof. unfold upsert. by rewrite confirmed_insert. Qed.

(** ** One finalized block *)

Lemma index_account_spec now b number_db p t n a t' n' :
  block_honest b -> p = prefix_of w (b_hash b) ->
  index_account cr now b number_db p (t, n) a = Ok (t', n') -> honest t ->
  honest t' /\ forall x, confirmed t' x = if decide (a = x) then expected (b_hash b) a else confirmed t x.
Proof.
  intros Hb -> H Ht. unfold index_account in H.
  destruct (honest_consumer b Hb a) as [E|E]; [by rewrite E in H|]. rewrite E in H.
  destruct (state w (b_hash b) a) as [| | |c] eqn:Es; [done| |done|].
  - injection H as <- <-. split; [by apply honest_delete|]. intros x. unfold delete_account.
    rewrite confirmed_delete. unfold expected. by rewrite Es.
  - pose proof (expected_decode (b_hash b) a c (b_number b) Es) as Hexp.
    destruct (decode_consumer cr a c (prefix_of w (b_hash b)) (b_hash b) (b_number b)) as [[r|e]|] eqn:Ed; [| |done].
    + destruct (decode_record _ _ _ _ _ _ Ed) as (Ha & Hh & _). injection H as <- <-. split.
      * eapply upsert_true; [done|done|]. by rewrite Ha.
      * intros x. rewrite confirmed_upsert, Ha. by rewrite Hexp.
    + injection H as <- <-. split; [by apply honest_delete|]. intros x. unfold delete_account.
      rewrite confirmed_delete. by rewrite Hexp.
Qed.

Lemma index_accounts_spec now b number_db p l t n t' n' :
  block_honest b -> p = prefix_of w (b_hash b) ->
  try_fold (index_account cr now b number_db p) (t, n) l = Ok (t', n') -> honest t ->
  honest t' /\ forall x, confirmed t' x = if bool_decide (x ∈ l) then expected (b_hash b) x else confirmed t x.
Proof.
  intros Hb Hp. revert t n. induction l as [|a l IH]; intros t n H Ht; simpl in H.
  { injection H as <- <-. split; [done|]. intros x. by rewrite bool_decide_eq_false_2 by apply not_elem_of_nil. }
  apply rbind_ok in H as ([t1 n1] & H1 & H). destruct (index_account_spec _ _ _ _ _ _ _ _ _ Hb Hp H1 Ht) as [Ht1 Hc1].
  destruct (IH _ _ H Ht1) as [Ht' Hc']. split; [done|]. intros x. rewrite Hc', Hc1.
  destruct (decide (a = x)) as [->|Hne].
  - rewrite (bool_decide_eq_true_2 (x ∈ x :: l)) by apply list_elem_of_here. by case_bool_decide.
  - case_bool_decide as Hx.
    + by rewrite bool_decide_eq_true_2 by (by apply list_elem_of_further).
    + rewrite bool_decide_eq_false_2; [done|]. intros [->|?]%elem_of_cons; done.
Qed.

Lemma elem_of_dedupe a l : a ∈ dedupe_accounts l <-> a ∈ l.
Proof. unfold dedupe_accounts. by rewrite elem_of_sort_by, elem_of_remove_dups. Qed.

(** ** The invariant of the database *)

Definition inv (db : IndexDb) : Prop :=
  honest (usernames db) /\
  forall s, sync_state db = Some s ->
    0 <= last_finalized_number s /\
    exists g, sync_genesis s = Some g /\ mirrors (usernames db) (canon w g (last_finalized_number s)).

Definition stamped (g : bytes) (db : IndexDb) : Prop :=
  forall s, sync_state db = Some s -> sync_genesis s = Some g.

Definition checkpoint (db : IndexDb) : option Z := last_finalized_number <$> sync_state db.

Lemma commit_cases {A} fate db db' (a : A) :
  commit fate db db' a = (Ok a, db') \/ commit fate db db' a = (Err (Failed EDatabase), db) \/
  commit fate db db' a = (Err (Failed EDatabase), db').
Proof. destruct fate; simpl; tauto. Qed.

Lemma expected_unnamed g n a :
  world_ok w -> 0 <= n -> a ∉ named w (canon w g (n + 1)) ->
  expected (canon w g (n + 1)) a = expected (canon w g n) a.
Proof.
  intros Hw Hn Ha. destruct (Hw g n Hn) as [Hp Hs]. unfold expected. rewrite Hs, Hp by done.
  destruct (state w (canon w g n) a) as [| | |c]; try done.
  pose proof (decode_content a c (prefix_of w (canon w g n)) (canon w g (n + 1)) (canon w g n) 0 0) as H.
  destruct (decode_consumer _ _ _ _ (canon w g (n + 1)) _) as [[]|],
    (decode_consumer _ _ _ _ (canon w g n) _) as [[]|]; try done. by rewrite H.
Qed.

Lemma block_number_ok b n : block_number_db b = Ok n -> n = b_number b.
Proof. unfold block_number_db. destruct (_ <? _); [done|]. by intros [= <-]. Qed.

(** A table that agrees with the block on the accounts its events name, and with
    the checkpoint on the others, is ready for the next checkpoint. *)
Lemma advance_spec now g db s t h rec fail :
  world_ok w -> inv db -> sync_state db = Some s -> sync_genesis s = Some g ->
  h = canon w g (last_finalized_number s + 1) -> honest t ->
  (forall x, confirmed t x = if bool_decide (x ∈ named w h) then expected h x else confirmed (usernames db) x) ->
  let db' := advance_checkpoint now (last_finalized_number s + 1) h rec fail (with_usernames t db) in
  inv db' /\ stamped g db' /\ checkpoint db' = Some (last_finalized_number s + 1).
Proof.
  intros Hw [_ Hmir] Hs Hg Hh Ht Hconf. destruct (Hmir s Hs) as [Hpos (g' & Hg' & Hm)].
  assert (g' = g) as -> by congruence.
  unfold advance_checkpoint, inv, stamped, checkpoint. simpl. rewrite Hs. simpl.
  split_and!; [done| |by intros ? [= <-]|done].
  intros ? [= <-]. simpl. split; [lia|]. exists g. split; [done|].
  intros x. rewrite Hconf, Hh. case_bool_decide as Hx; [done|]. rewrite (Hm x). symmetry.
  apply expected_unnamed; done.
Qed.

Lemma index_block_body now chain b report db s db1 report1 :
  world_ok w -> block_honest b -> b_hash b = canon w (genesis_hash chain) (last_finalized_number s + 1) ->
  b_number b = last_finalized_number s + 1 -> inv db -> sync_state db = Some s ->
  sync_genesis s = Some (genesis_hash chain) ->
  at_block chain (b_number b) = Some b ->
  index_block cr now Fine chain (b_number b) report db = (Ok report1, db1) ->
  inv db1 /\ stamped (genesis_hash chain) db1 /\ checkpoint db1 = Some (b_number b).
Proof.
  intros Hw Hb Hhash Hnum Hinv Hs Hg Hat H. unfold index_block in H. rewrite Hat in H.
  match type of H with context [match ?m with Ok _ => _ | Err _ => _ end] => destruct m as [[db2 r2]|e] eqn:Em end;
    [|done]. injection H as -> ->.
  apply rbind_ok in Em as (nd & ->%block_number_ok & Em).
  destruct (b_events b) as [evs|] eqn:Ee; [|done]. apply rbind_ok in Em as (accts & Ea & Em).
  pose proof (honest_events b Hb _ _ Ee Ea) as ->. pose proof Hinv as [Hhon _]. rewrite Hnum in *.
  destruct (dedupe_accounts (named w (b_hash b))) as [|a0 l0] eqn:Ed.
  - injection Em as <- <-. destruct db as [t0 s0].
    apply (advance_spec now _ _ s t0 _ 0 0 Hw Hinv Hs Hg Hhash Hhon).
    intros x. rewrite bool_decide_eq_false_2; [done|]. rewrite <-elem_of_dedupe, Ed. apply not_elem_of_nil.
  - rewrite <-Ed in Em. apply rbind_ok in Em as (p & Hp & Em). apply rbind_ok in Em as ([t n] & Hf & [= <- <-]).
    destruct (ss58_prefix_ok b p Hb Hp) as [Hpp _].
    destruct (index_accounts_spec _ _ _ _ _ _ _ _ _ Hb Hpp Hf Hhon) as [Ht Hconf].
    apply (advance_spec now _ _ s t _ _ _ Hw Hinv Hs Hg Hhash Ht).
    intros x. rewrite Hconf. by rewrite (bool_decide_ext _ _ (elem_of_dedupe x _)).
Qed.

(** A block's fate only decides whether its transaction took and whether that is
    known. *)
Lemma index_block_fate now fate chain num report db :
  index_block cr now fate chain num report db =
    match index_block cr now Fine chain num report db with
    | (Ok report', db') => commit fate db db' report'
    | (Err e, db') => (Err e, db')
    end.
Proof.
  unfold index_block. destruct (at_block chain num); [|done].
  match goal with |- context [match ?m with Ok _ => _ | Err _ => _ end] => destruct m as [[db2 r2]|e] end; done.
Qed.

Lemma index_block_err now chain num report db e db' :
  index_block cr now Fine chain num report db = (Err e, db') -> db' = db.
Proof.
  unfold index_block. destruct (at_block chain num); [|by intros [= _ ->]].
  match goal with |- context [match ?m with Ok _ => _ | Err _ => _ end] => destruct m as [[db2 r2]|e'] end; [done|].
  by intros [= _ ->].
Qed.

(** The transaction of a block takes the table from the consumers of the
    checkpoint to those of the next block, or does nothing. *)
Lemma index_block_spec now fate chain report db s cur r db' :
  world_ok w -> chain_honest chain -> at_current_block chain = Some cur ->
  last_finalized_number s + 1 <= b_number cur -> inv db -> sync_state db = Some s ->
  sync_genesis s = Some (genesis_hash chain) ->
  index_block cr now fate chain (last_finalized_number s + 1) report db = (r, db') ->
  (db' = db /\ is_ok r = false) \/
  (inv db' /\ stamped (genesis_hash chain) db' /\ checkpoint db' = Some (last_finalized_number s + 1)).
Proof.
  intros Hw Hch Hcur Hnum Hinv Hs Hg H. rewrite index_block_fate in H.
  destruct (index_block cr now Fine chain _ report db) as [[report1|e] db1] eqn:E.
  2: { apply index_block_err in E as ->. injection H as <- <-. by left. }
  assert (exists b, at_block chain (last_finalized_number s + 1) = Some b) as [b Eb].
  { unfold index_block in E. destruct (at_block chain _); [by eexists|done]. }
  destruct (chain_block chain Hch _ _ Eb) as [Hb Hbn].
  pose proof (chain_finalized chain Hch _ _ _ Eb Hcur Hnum) as Hhash. rewrite <-Hbn in E, Eb.
  pose proof (index_block_body _ _ _ _ _ _ _ _ Hw Hb Hhash Hbn Hinv Hs Hg Eb E) as Hd. rewrite Hbn in Hd.
  destruct (commit_cases fate db db1 report1) as [Ec|[Ec|Ec]]; rewrite Ec in H; injection H as <- <-; auto.
Qed.

Lemma seqZ_step m n : 0 < n -> seqZ m n = m :: seqZ (m + 1) (n - 1).
Proof. intros Hn. by rewrite seqZ_cons by lia. Qed.

(** What a stretch of finalized blocks leaves, wherever it stops. *)
Record stretch (g : bytes) (from to : Z) (ok : bool) (db' : IndexDb) : Prop := {
  stretch_inv : inv db';
  stretch_stamped : stamped g db';
  stretch_checkpoint : exists n, checkpoint db' = Some n /\ from <= n <= to /\ (ok = true -> n = to) }.

Lemma index_blocks_spec now fate chain (k : nat) report db s cur r db' :
  world_ok w -> chain_honest chain -> at_current_block chain = Some cur ->
  last_finalized_number s + Z.of_nat k <= b_number cur -> inv db -> sync_state db = Some s ->
  sync_genesis s = Some (genesis_hash chain) ->
  index_blocks cr now fate chain (seqZ (last_finalized_number s + 1) (Z.of_nat k)) report db = (r, db') ->
  stretch (genesis_hash chain) (last_finalized_number s) (last_finalized_number s + Z.of_nat k) (is_ok r) db'.
Proof.
  intros Hw Hch Hcur. revert report db s. induction k as [|k IH]; intros report db s Hle Hinv Hs Hg H.
  { simpl in H. injection H as <- <-. split; [done| |].
    - intros s'. congruence.
    - exists (last_finalized_number s). split; [unfold checkpoint; by rewrite Hs|]. lia. }
  rewrite seqZ_step in H by lia. simpl in H.
  destruct (index_block cr now (fate (last_finalized_number s + 1)) chain _ report db) as [r1 db1] eqn:E1.
  assert (last_finalized_number s + 1 <= b_number cur) as Hnext by lia.
  destruct (index_block_spec _ _ _ _ _ _ _ _ _ Hw Hch Hcur Hnext Hinv Hs Hg E1) as [[-> Hr]|(Hi & Hst & Hcp)].
  - destruct r1; [done|]. injection H as <- <-. split; [done|by intros ? ?; congruence|].
    exists (last_finalized_number s). split; [unfold checkpoint; by rewrite Hs|]. simpl. lia.
  - unfold checkpoint in Hcp. destruct (sync_state db1) as [s1|] eqn:Es1; [|done]. injection Hcp as Hn1.
    destruct r1 as [report1|e].
    + assert (seqZ (last_finalized_number s + 1 + 1) (Z.of_nat (S k) - 1) = seqZ (last_finalized_number s1 + 1) (Z.of_nat k)) as Hseq
        by (rewrite Hn1; f_equal; lia).
      rewrite Hseq in H. destruct (IH _ _ s1 ltac:(lia) Hi Es1 (Hst _ Es1) H) as [H1 H2 (n & H3 & H4 & H5)].
      split; [done..|]. exists n. split; [done|]. split; [lia|]. intros Hok. rewrite H5 by done. lia.
    + injection H as <- <-. split; [done..|]. exists (last_finalized_number s1).
      unfold checkpoint. rewrite Es1. split; [done|]. simpl. lia.
Qed.

Lemma finalized_range_spec read now fate chain db cur r db' :
  world_ok w -> chain_honest chain -> at_current_block chain = Some cur ->
  inv db -> stamped (genesis_hash chain) db ->
  index_finalized_range_locked cr read now fate chain (b_number cur) db = (r, db') ->
  inv db' /\ stamped (genesis_hash chain) db' /\
  forall n, checkpoint db = Some n ->
    exists n', checkpoint db' = Some n' /\ n <= n' <= Z.max n (b_number cur) /\
      (is_ok r = true -> n' = Z.max n (b_number cur)).
Proof.
  intros Hw Hch Hcur Hinv Hst H. unfold index_finalized_range_locked in H.
  destruct read; simpl in H.
  2: { injection H as <- <-. split_and!; [done..|]. intros n Hn. exists n. split; [done|]. simpl. lia. }
  unfold read_checkpoint in H. destruct (sync_state db) as [s|] eqn:Es; simpl in H.
  2: { injection H as <- <-. split_and!; [done..|]. intros n Hn. unfold checkpoint in Hn. by rewrite Es in Hn. }
  destruct (proj2 Hinv s Es) as [Hpos _]. rewrite Z.max_r in H by done. unfold index_from_checkpoint in H.
  destruct (Z.leb_spec (b_number cur) (last_finalized_number s)).
  { injection H as <- <-. split_and!; [done..|]. intros n Hn. exists n. split; [done|].
    unfold checkpoint in Hn. rewrite Es in Hn. injection Hn as <-. lia. }
  replace (b_number cur - last_finalized_number s)
    with (Z.of_nat (Z.to_nat (b_number cur - last_finalized_number s))) in H by lia.
  match type of H with (let '(_, _) := ?m in _) = _ => destruct m as [r1 db1] eqn:E end.
  apply (index_blocks_spec _ _ _ _ _ _ s _ _ _ Hw Hch Hcur) in E as [H1 H2 (n & Hn & Hle & Hok)];
    [|lia|done|done|by apply Hst].
  injection H as <- <-. split_and!; [done..|]. intros m Hm. unfold checkpoint in Hm. rewrite Es in Hm.
  injection Hm as <-. exists n. split; [done|]. split; [lia|]. intros Hr.
  rewrite Hok; [lia|]. by destruct r1.
Qed.
(** ** The unfinalized window *)

Definition pending (t : Table) (a : bytes) : option Content :=
  r ← t !! a; if is_speculative r then Some (row_content r) else None.

Lemma pending_insert t a r b :
  pending (<[a := r]> t) b =
    if decide (a = b) then (if is_speculative r then Some (row_content r) else None) else pending t b.
Proof.
  unfold pending. destruct (decide (a = b)) as [->|H]; [by rewrite lookup_insert_eq|by rewrite lookup_insert_ne].
Qed.

Lemma pending_delete t a b : pending (delete a t) b = if decide (a = b) then None else pending t b.
Proof.
  unfold pending. destruct (decide (a = b)) as [->|H]; [by rewrite lookup_delete_eq|by rewrite lookup_delete_ne].
Qed.

(** A row is confirmed or pending, never both. *)
Lemma confirmed_none t a : confirmed t a = None <-> forall r, t !! a = Some r -> is_speculative r = true.
Proof.
  unfold confirmed. destruct (t !! a) as [r|]; simpl; [|done].
  destruct (is_speculative r) eqn:E; split; try done.
  - by intros _ ? [= <-].
  - intros H. specialize (H r eq_refl). congruence.
Qed.

(** What the speculative pass does to one account: an unconfirmed one becomes what
    the block says of it, and a confirmed row is out of reach. *)
Record speculated (h a : bytes) (t t' : Table) : Prop := {
  spec_honest : honest t';
  spec_confirmed x : confirmed t' x = confirmed t x;
  spec_pending : confirmed t a = None -> pending t' a = expected h a;
  spec_others x : a <> x -> pending t' x = pending t x }.

Lemma retract_spec h a t :
  honest t -> expected h a = None -> speculated h a t (delete_if_speculative a t).2.
Proof.
  intros Ht He. unfold delete_if_speculative. destruct (t !! a) as [r|] eqn:Er; [destruct (is_speculative r) eqn:Es|];
    simpl; split; try done.
  - by apply honest_delete.
  - intros x. rewrite confirmed_delete. destruct (decide (a = x)) as [<-|]; [|done].
    unfold confirmed. rewrite Er. simpl. by rewrite Es.
  - intros _. rewrite pending_delete. by rewrite decide_True, He.
  - intros x Hx. rewrite pending_delete. by rewrite decide_False.
  - intros Hc. rewrite confirmed_none in Hc. specialize (Hc r Er). congruence.
  - intros _. unfold pending. by rewrite Er, He.
Qed.

Lemma admit_spec now r n h t :
  honest t -> snapshot_hash r = h -> expected h (account_id r) = Some (content_of r) ->
  speculated h (account_id r) t (upsert_speculative now r n t).2.
Proof.
  intros Ht Hh He. unfold upsert_speculative. destruct (t !! account_id r) as [old|] eqn:Er.
  - destruct (speculative_from_block old) as [from|] eqn:Es.
    + assert (is_speculative old = true) as Hsp by (apply is_speculative_iff; eauto).
      case_bool_decide as Hct; simpl; split; try done.
      * intros _. unfold pending. rewrite Er. simpl. by rewrite Hsp, He, Hct.
      * apply honest_insert; [done|]. unfold row_true. simpl. by rewrite Hh.
      * intros x. rewrite confirmed_insert. destruct (decide _) as [<-|]; [|done].
        unfold confirmed. rewrite Er. simpl. by rewrite Hsp.
      * intros _. rewrite pending_insert. by rewrite decide_True, He.
      * intros x Hx. rewrite pending_insert. by rewrite decide_False.
    + simpl. split; try done. intros Hc. rewrite confirmed_none in Hc. specialize (Hc old Er).
      apply is_speculative_iff in Hc as [? ?]. congruence.
  - simpl. split.
    + apply honest_insert; [done|]. unfold row_true. simpl. by rewrite Hh.
    + intros x. rewrite confirmed_insert. destruct (decide _) as [<-|]; [|done].
      unfold confirmed. by rewrite Er.
    + intros _. rewrite pending_insert. by rewrite decide_True, He.
    + intros x Hx. rewrite pending_insert. by rewrite decide_False.
Qed.

Lemma speculative_account_spec now b number_db p t n a t' n' :
  block_honest b -> p = prefix_of w (b_hash b) -> honest t ->
  speculative_account cr now b number_db p (t, n) a = Ok (t', n') -> speculated (b_hash b) a t t'.
Proof.
  intros Hb -> Ht H. unfold speculative_account in H.
  destruct (honest_consumer b Hb a) as [E|E]; [by rewrite E in H|]. rewrite E in H.
  pose proof (retract_spec (b_hash b) a t Ht) as Hretract.
  destruct (state w (b_hash b) a) as [| | |c] eqn:Es; [done| |done|].
  - destruct (delete_if_speculative a t) as [gone t1]. injection H as <- <-. apply Hretract.
    unfold expected. by rewrite Es.
  - pose proof (expected_decode (b_hash b) a c (b_number b) Es) as Hexp.
    destruct (decode_consumer cr a c (prefix_of w (b_hash b)) (b_hash b) (b_number b)) as [[r|e]|] eqn:Ed; [| |done].
    + destruct (decode_record _ _ _ _ _ _ Ed) as (Ha & Hh & _).
      pose proof (admit_spec now r number_db (b_hash b) t Ht Hh) as Hadmit. rewrite Ha in Hadmit.
      destruct (upsert_speculative now r number_db t) as [changed t1]. injection H as <- <-. by apply Hadmit.
    + destruct (delete_if_speculative a t) as [gone t1]. injection H as <- <-. by apply Hretract.
Qed.

Lemma speculative_accounts_spec now b number_db p l t n t' n' :
  block_honest b -> p = prefix_of w (b_hash b) -> honest t ->
  try_fold (speculative_account cr now b number_db p) (t, n) l = Ok (t', n') ->
  honest t' /\ (forall x, confirmed t' x = confirmed t x) /\
  ((forall x, x ∈ l -> confirmed t x = None) ->
   forall x, pending t' x = if bool_decide (x ∈ l) then expected (b_hash b) x else pending t x).
Proof.
  intros Hb Hp. revert t n. induction l as [|a l IH]; intros t n Ht H; simpl in H.
  { injection H as <- <-. split_and!; [done..|]. intros _ x. by rewrite bool_decide_eq_false_2 by apply not_elem_of_nil. }
  apply rbind_ok in H as ([t1 n1] & H1 & H).
  destruct (speculative_account_spec _ _ _ _ _ _ _ _ _ Hb Hp Ht H1) as [Hh Hc Ha Ho].
  destruct (IH _ _ Hh H) as (Hh' & Hc' & Hp'). split_and!; [done|by intros x; rewrite Hc', Hc|].
  intros Hun x. rewrite Hp' by (intros y Hy; rewrite Hc; apply Hun; by right).
  destruct (decide (a = x)) as [->|Hne].
  - rewrite (bool_decide_eq_true_2 (x ∈ x :: l)) by apply list_elem_of_here.
    case_bool_decide; [done|]. apply Ha, Hun. apply list_elem_of_here.
  - rewrite Ho by done. case_bool_decide as Hx.
    + by rewrite bool_decide_eq_true_2 by (by apply list_elem_of_further).
    + rewrite bool_decide_eq_false_2; [done|]. intros [->|?]%elem_of_cons; done.
Qed.

(** *** The scan and its cache *)

Definition cache_ok (cache : SpeculativeCache) : Prop :=
  map_Forall (fun _ c => cb_accounts c = named w (cb_hash c)) cache.

Lemma cache_get_ok cache n h l : cache_ok cache -> cache_get cache n h = Some l -> l = named w h.
Proof.
  intros Hc. unfold cache_get. destruct (cache !! n) as [c|] eqn:E; [|done].
  case_bool_decide as Hh; [|done]. intros [= <-]. rewrite <-Hh. by apply (Hc n).
Qed.

Lemma prune_ok f cache : cache_ok cache -> cache_ok (prune_finalized f cache).
Proof. intros H n c [Hc _]%map_lookup_filter_Some. by apply (H n). Qed.

Lemma scan_window_spec chain numbers cache r cache' :
  chain_honest chain -> cache_ok cache -> scan_window chain numbers cache = (r, cache') ->
  cache_ok cache' /\
  forall l, r = Ok l -> forall x, x ∈ l <-> exists n b, n ∈ numbers /\ at_block chain n = Some b /\ x ∈ named w (b_hash b).
Proof.
  intros Hch. revert cache r cache'. induction numbers as [|n numbers IH]; intros cache r cache' Hc H; simpl in H.
  { injection H as <- <-. split; [done|]. intros l [= <-] x. split; [by intros ?%not_elem_of_nil|].
    by intros (? & ? & ?%not_elem_of_nil & _). }
  destruct (at_block chain n) as [b|] eqn:Eb; [|by injection H as <- <-].
  destruct (chain_block chain Hch _ _ Eb) as [Hb _].
  match type of H with context [match ?m with Ok _ => _ | Err _ => _ end] => destruct m as [[accts c1]|e] eqn:Em end;
    [|by injection H as <- <-].
  assert (accts = named w (b_hash b) /\ cache_ok c1) as [-> Hc1].
  { destruct (cache_get cache n (b_hash b)) as [l|] eqn:Eg.
    - injection Em as <- <-. split; [by eapply cache_get_ok|done].
    - destruct (b_events b) as [evs|] eqn:Ee; [|done]. apply rbind_ok in Em as (l & El & [= <- <-]).
      pose proof (honest_events b Hb _ _ Ee El) as ->. split; [done|]. by apply map_Forall_insert_2. }
  destruct (scan_window chain numbers c1) as [r2 c2] eqn:E2. destruct (IH _ _ _ Hc1 E2) as [Hc2 Hl].
  injection H as <- <-. split; [done|]. intros l Hr. apply rbind_ok in Hr as (l2 & -> & [= <-]).
  intros x. rewrite elem_of_app, (Hl l2 eq_refl). split.
  - intros [Hx|(m & b' & Hm & Hb' & Hx)]; [exists n, b|exists m, b']; split_and!; try done; [by left|by right].
  - intros (m & b' & [->|Hm]%elem_of_cons & Hb' & Hx); [left|right; eauto]. congruence.
Qed.
(** An account named by an event of the window that is scanned. *)
Definition in_window (chain : Chain) (finalized best : Z) (x : bytes) : Prop :=
  best - finalized <= MAX_SPECULATIVE_WINDOW /\
  exists n b, finalized < n <= best /\ at_block chain n = Some b /\ x ∈ named w (b_hash b).

Lemma elem_of_plan finalized best n :
  n ∈ match plan_speculative_window finalized best with Scan from to => seqZ from (to - from + 1) | _ => [] end
  <-> best - finalized <= MAX_SPECULATIVE_WINDOW /\ finalized < n <= best.
Proof.
  unfold plan_speculative_window.
  destruct (Z.leb_spec best finalized); [split; [by intros ?%not_elem_of_nil|lia]|].
  destruct (Z.ltb_spec MAX_SPECULATIVE_WINDOW (best - finalized)); [split; [by intros ?%not_elem_of_nil|lia]|].
  rewrite elem_of_seqZ. lia.
Qed.

Lemma pending_speculative t x : x ∈ speculative_accounts t <-> pending t x <> None.
Proof.
  unfold speculative_accounts, pending. rewrite list_elem_of_fmap. split.
  - intros ([y r] & -> & [Hs Hr%elem_of_map_to_list]%list_elem_of_filter). simpl. rewrite Hr. simpl. by rewrite Hs.
  - destruct (t !! x) as [r|] eqn:E; [|done]. simpl. destruct (is_speculative r) eqn:Es; [|done].
    intros _. exists (x, r). split; [done|]. apply list_elem_of_filter. by rewrite elem_of_map_to_list.
Qed.

Lemma pending_unconfirmed t x : pending t x <> None -> confirmed t x = None.
Proof.
  unfold pending, confirmed. destruct (t !! x) as [r|]; [|done]. simpl. by destruct (is_speculative r).
Qed.

Lemma elem_of_to_check db l x :
  x ∈ to_check db l <->
  (x ∈ l \/ pending (usernames db) x <> None) /\ confirmed (usernames db) x = None.
Proof.
  unfold to_check. rewrite list_elem_of_filter, elem_of_dedupe, elem_of_app, pending_speculative.
  unfold finalized_accounts. rewrite list_elem_of_filter, elem_of_dedupe, elem_of_app, pending_speculative.
  unfold confirmed. destruct (usernames db !! x) as [r|]; simpl; [destruct (is_speculative r); simpl|]; naive_solver.
Qed.

(** The speculative pass is safe however it ends. *)
Lemma window_safe reads now fate chain finalized best cache db r db' cache' :
  chain_honest chain -> honest (usernames db) -> cache_ok cache ->
  index_speculative_window cr reads now fate chain finalized best cache db = ((r, db'), cache') ->
  honest (usernames db') /\ (forall x, confirmed (usernames db') x = confirmed (usernames db) x) /\
  sync_state db' = sync_state db /\ cache_ok cache'.
Proof.
  intros Hch Hh Hc H. unfold index_speculative_window in H.
  destruct (scan_window chain _ (prune_finalized finalized cache)) as [rs c1] eqn:Es.
  destruct (scan_window_spec _ _ _ _ _ Hch (prune_ok _ _ Hc) Es) as [Hc1 _].
  destruct rs as [l|e]; [|by injection H as <- <- <-].
  destruct reads; cbn [negb] in H; [|by injection H as <- <- <-].
  destruct (to_check db l) as [|a0 l0] eqn:Ec; [by injection H as <- <- <-|]. rewrite <-Ec in H.
  destruct (at_block chain (Z.max best finalized)) as [b|] eqn:Eb; [|by injection H as <- <- <-].
  destruct (chain_block chain Hch _ _ Eb) as [Hb _].
  match type of H with context [match ?m with Ok _ => _ | Err _ => _ end] => destruct m as [[t n]|e] eqn:Em end;
    [|by injection H as <- <- <-].
  apply rbind_ok in Em as (nd & _ & Em). apply rbind_ok in Em as (p & Hp & Em).
  destruct (ss58_prefix_ok b p Hb Hp) as [Hpp _].
  destruct (speculative_accounts_spec _ _ _ _ _ _ _ _ _ Hb Hpp Hh Em) as (Hh' & Hcf & _).
  match type of H with (commit ?f ?d ?d' ?x, _) = _ => destruct (commit_cases f d d' x) as [E|[E|E]]; rewrite E in H end;
    injection H as <- <- <-; by split_and!.
Qed.

Lemma window_exact reads now fate chain finalized best cache db report db' cache' b :
  chain_honest chain -> honest (usernames db) -> cache_ok cache ->
  index_speculative_window cr reads now fate chain finalized best cache db = ((Ok report, db'), cache') ->
  at_block chain (Z.max best finalized) = Some b ->
  forall x ct, pending (usernames db') x = Some ct <->
    (in_window chain finalized best x \/ pending (usernames db) x <> None) /\
    confirmed (usernames db) x = None /\ expected (b_hash b) x = Some ct.
Proof.
  intros Hch Hh Hc H Eb x ct. unfold index_speculative_window in H.
  destruct (scan_window chain _ (prune_finalized finalized cache)) as [rs c1] eqn:Es.
  destruct (scan_window_spec _ _ _ _ _ Hch (prune_ok _ _ Hc) Es) as [_ Hl].
  destruct rs as [l|e]; [|done]. destruct reads; cbn [negb] in H; [|done].
  assert (forall y, y ∈ l <-> in_window chain finalized best y) as Hwin.
  { intros y. rewrite (Hl l eq_refl y). unfold in_window. setoid_rewrite elem_of_plan. naive_solver. }
  assert (forall y, y ∈ to_check db l <->
    (in_window chain finalized best y \/ pending (usernames db) y <> None) /\ confirmed (usernames db) y = None) as Hck.
  { intros y. by rewrite elem_of_to_check, Hwin. }
  rewrite (assoc and), <-Hck. clear Hck Hwin.
  assert (pending (usernames db) x = Some ct -> x ∈ to_check db l) as Hkeep.
  { intros Hx. apply elem_of_to_check. assert (pending (usernames db) x <> None) as Hp by congruence.
    split; [by right|by apply pending_unconfirmed]. }
  destruct (to_check db l) as [|a0 l0] eqn:Ec.
  { injection H as <- <- <-. split; [intros Hx; by apply Hkeep, not_elem_of_nil in Hx|].
    by intros [?%not_elem_of_nil _]. }
  rewrite Eb, <-Ec in H. rewrite <-Ec in Hkeep |- *. destruct (chain_block chain Hch _ _ Eb) as [Hb _].
  match type of H with context [match ?m with Ok _ => _ | Err _ => _ end] => destruct m as [[t n]|e] eqn:Em end; [|done].
  apply rbind_ok in Em as (nd & _ & Em). apply rbind_ok in Em as (p & Hp & Em).
  destruct (ss58_prefix_ok b p Hb Hp) as [Hpp _].
  destruct (speculative_accounts_spec _ _ _ _ _ _ _ _ _ Hb Hpp Hh Em) as (_ & _ & Hpend).
  destruct fate; simpl in H; [|done..]. injection H as <- <- <-. simpl.
  rewrite Hpend by (intros y; rewrite elem_of_to_check; tauto). case_bool_decide as Hx; [tauto|].
  split; [intros Hx'; by apply Hkeep in Hx'|tauto].
Qed.
(** ** The full scan *)

Definition landed (h a : bytes) (t : Table) : Prop :=
  exists r, t !! a = Some r /\ row_hash r = h /\ is_speculative r = false.

(** A record decoded from the storage of [h]. *)
Definition record_of (h : bytes) (r : AssignedUsername) : Prop :=
  snapshot_hash r = h /\ expected h (account_id r) = Some (content_of r).

Lemma upsert_batch_spec now h l number t :
  Forall (record_of h) l -> honest t ->
  honest (upsert_batch now l number t) /\
  forall a, landed h a t \/ a ∈ account_id <$> l -> landed h a (upsert_batch now l number t).
Proof.
  unfold upsert_batch. intros Hl. revert t. induction Hl as [|r l [Hr1 Hr2] Hl IH]; intros t Ht; simpl.
  { split; [done|]. intros a [?|?%not_elem_of_nil]; done. }
  destruct (IH (upsert now r number t)) as [Hh Hland]; [by eapply upsert_true|].
  split; [done|]. intros a Ha. apply Hland. rewrite elem_of_cons in Ha.
  destruct (decide (account_id r = a)) as [<-|Hne].
  - left. eexists. split; [unfold upsert; apply lookup_insert_eq|]. done.
  - destruct Ha as [(row & Ha & ?)|[->|Ha]]; [|done|by right].
    left. exists row. split; [|done]. unfold upsert. by rewrite lookup_insert_ne.
Qed.

Record scanning (h : bytes) (done : list Entry) (s : ScanState) (db : IndexDb) : Prop := {
  sc_honest : honest (usernames db);
  sc_sync : sync_state db = None;
  sc_batch : Forall (record_of h) (batch s);
  sc_done a c : Good a c ∈ done -> expected h a <> None ->
    landed h a (usernames db) \/ a ∈ account_id <$> batch s;
  sc_nonneg : 0 <= iterator_errors s;
  sc_errors : iterator_errors s = 0 -> IterError ∉ done }.

(** A database with no checkpoint, whose rows are true. *)
Definition unseeded (db : IndexDb) : Prop := honest (usernames db) /\ sync_state db = None.

Lemma scanning_unseeded h done s db : scanning h done s db -> unseeded db.
Proof. by intros []. Qed.

Lemma flush_spec env i number h done s db r db' :
  scanning h done s db -> flush env i number s db = (r, db') ->
  unseeded db' /\ forall s', r = Ok s' -> scanning h done s' db' /\ batch s' = [].
Proof.
  intros [H1 H2 H3 H4 H5 H6] H. unfold flush in H.
  destruct (upsert_batch_spec (se_now env) h (batch s) number (usernames db) H3 H1) as [Hh Hland].
  match type of H with commit ?f ?d ?d' ?x = _ => destruct (commit_cases f d d' x) as [E|[E|E]]; rewrite E in H end;
    injection H as <- <-; split; try done.
  intros s' [= <-]. split; [|done]. split; try done; simpl.
  intros a c Ha He. left. apply Hland. by eapply H4.
Qed.

Lemma scanning_skip h done s db e n :
  scanning h done s db -> (forall a c, e <> Good a c) -> (e = IterError -> n = 1) -> 0 <= n ->
  scanning h (done ++ [e]) (skip n s) db.
Proof.
  intros [H1 H2 H3 H4 H5 H6] He Hn Hn0. split; simpl; try done; [|lia|].
  - intros a c [Ha|Ha%list_elem_of_singleton]%elem_of_app; [by eapply H4|]. by destruct (He a c).
  - intros Hz [Ha|Ha%list_elem_of_singleton]%elem_of_app; [by apply H6; [lia|]|].
    specialize (Hn (eq_sym Ha)). lia.
Qed.

Lemma scan_entry_spec env page number p b i e done s db r db' :
  block_honest b -> p = prefix_of w (b_hash b) ->
  (forall a c, e = Good a c -> state w (b_hash b) a = Present c) ->
  scanning (b_hash b) done s db -> scan_entry cr env page number p b i e s db = (r, db') ->
  unseeded db' /\ forall s', r = Ok s' -> scanning (b_hash b) (done ++ [e]) s' db'.
Proof.
  intros Hb -> Hgood Hsc H. pose proof (scanning_unseeded _ _ _ _ Hsc) as Hun.
  destruct e as [| |a|a c]; simpl in H.
  1-3: injection H as <- <-; split; [done|]; intros s' [= <-]; by apply scanning_skip.
  specialize (Hgood a c eq_refl). pose proof (expected_decode _ _ _ (b_number b) Hgood) as Hexp.
  destruct (decode_consumer cr a c (prefix_of w (b_hash b)) (b_hash b) (b_number b)) as [d|] eqn:Ed;
    [|by injection H as <- <-].
  match type of H with context [length (batch ?x)] => set (s1 := x) in H end.
  assert (scanning (b_hash b) (done ++ [Good a c]) s1 db) as Hsc1.
  { destruct Hsc as [H1 H2 H3 H4 H5 H6]. destruct d as [rec|e0]; subst s1; split; simpl; try done.
    - destruct (decode_record _ _ _ _ _ _ Ed) as (Ha & Hh & _). apply Forall_app. split; [done|].
      constructor; [|done]. split; [done|]. by rewrite Ha.
    - destruct (decode_record _ _ _ _ _ _ Ed) as (Ha & Hh & _). rewrite fmap_app. simpl.
      intros a' c' [Hx|Hx%list_elem_of_singleton]%elem_of_app He; rewrite elem_of_app, list_elem_of_singleton.
      + destruct (H4 _ _ Hx He); tauto.
      + injection Hx as -> ->. by right; right.
    - intros Hz [Hx|Hx%list_elem_of_singleton]%elem_of_app; [by apply H6|done].
    - intros a' c' [Hx|Hx%list_elem_of_singleton]%elem_of_app He; [by eapply H4|]. injection Hx as -> ->. done.
    - lia.
    - intros Hz [Hx|Hx%list_elem_of_singleton]%elem_of_app; [by apply H6; [lia|]|done]. }
  destruct (_ =? page).
  - destruct (flush_spec _ _ _ _ _ _ _ _ _ Hsc1 H) as [Hu Hs]. split; [done|]. intros s' Hs'. by apply Hs.
  - injection H as <- <-. split; [done|]. by intros s' [= <-].
Qed.

Lemma scan_entries_spec env page number p b i l done s db r db' :
  block_honest b -> p = prefix_of w (b_hash b) ->
  (forall a c, Good a c ∈ l -> state w (b_hash b) a = Present c) ->
  scanning (b_hash b) done s db -> scan_entries cr env page number p b i l s db = (r, db') ->
  unseeded db' /\ forall j s', r = Ok (j, s') -> scanning (b_hash b) (done ++ l) s' db'.
Proof.
  intros Hb Hp. revert i done s db. induction l as [|e l IH]; intros i done s db Hgood Hsc H; simpl in H.
  { injection H as <- <-. split; [by eapply scanning_unseeded|]. intros j s' [= <- <-]. by rewrite app_nil_r. }
  destruct (scan_entry cr env page number p b i e s db) as [r1 db1] eqn:E1.
  assert (forall a c, e = Good a c -> state w (b_hash b) a = Present c) as Hhd
    by (intros a c ->; apply Hgood, list_elem_of_here).
  destruct (scan_entry_spec _ _ _ _ _ _ _ done _ _ _ _ Hb Hp Hhd Hsc E1) as [Hu Hs].
  destruct r1 as [s1|x]; [|by injection H as <- <-].
  destruct (IH (S i) (done ++ [e])%list s1 db1) as [Hu' Hs']; [|by apply Hs|done|].
  - intros a c Ha. by apply Hgood, list_elem_of_further.
  - split; [done|]. intros j s' Hr. rewrite <-app_assoc in Hs'. by eapply Hs'.
Qed.
(** After a scan without iterator errors, every consumer of the block has its row. *)
Lemma scanned_landed b l s db a :
  block_honest b -> b_entries b = Some l -> scanning (b_hash b) l s db -> batch s = [] ->
  iterator_errors s = 0 -> expected (b_hash b) a <> None -> landed (b_hash b) a (usernames db).
Proof.
  intros Hb Hl [_ _ _ H4 _ H6] Hbatch Herr He.
  assert (exists c, state w (b_hash b) a = Present c) as [c Hc].
  { unfold expected in He. destruct (state w (b_hash b) a); try done. by eexists. }
  assert (Good a c ∈ l) as Hin by (by apply (honest_entries b Hb l); [|apply H6|]).
  destruct (H4 a c Hin He) as [|Hx]; [done|]. rewrite Hbatch in Hx. by apply not_elem_of_nil in Hx.
Qed.

(** The sweep keeps the rows of the scanned block, which are its consumers. *)
Lemma sweep_mirrors b l s db :
  block_honest b -> b_entries b = Some l -> scanning (b_hash b) l s db -> batch s = [] -> iterator_errors s = 0 ->
  honest (usernames (sweep (b_hash b) db)) /\ mirrors (usernames (sweep (b_hash b) db)) (b_hash b).
Proof.
  intros Hb Hl Hsc Hbatch Herr. pose proof (sc_honest _ _ _ _ Hsc) as H1.
  pose proof (fun a => scanned_landed b l s db a Hb Hl Hsc Hbatch Herr) as Hland.
  assert (forall a r, usernames (sweep (b_hash b) db) !! a = Some r <->
            usernames db !! a = Some r /\ row_hash r = b_hash b) as Hf by (intros; apply map_lookup_filter_Some).
  split; [by intros a r [Hr _]%Hf; apply (H1 a)|]. intros a. unfold confirmed.
  destruct (usernames (sweep (b_hash b) db) !! a) as [r|] eqn:Er; simpl.
  - pose proof Er as [Hr Hh]%Hf. pose proof (H1 a r Hr) as Htrue. unfold row_true in Htrue. rewrite Hh in Htrue.
    destruct (Hland a ltac:(congruence)) as (r' & Hr' & _ & Hs).
    assert (r' = r) as -> by congruence. by rewrite Hs, Htrue.
  - destruct (expected (b_hash b) a) as [ct|] eqn:He; [|done].
    destruct (Hland a ltac:(congruence)) as (r & Hr & Hh & _).
    assert (usernames (sweep (b_hash b) db) !! a = Some r) by (by apply Hf). congruence.
Qed.

Lemma unseeded_inv g db : unseeded db -> inv db /\ stamped g db.
Proof. intros [H1 H2]. unfold inv, stamped. rewrite H2. by split_and!. Qed.

Lemma finish_scan_spec env trigger b number i l s db r db' :
  block_honest b -> b_hash b = canon w (genesis_hash (se_chain env)) (b_number b) ->
  number = b_number b -> b_entries b = Some l -> scanning (b_hash b) l s db ->
  finish_scan env trigger b number i s db = (r, db') ->
  inv db' /\ stamped (genesis_hash (se_chain env)) db' /\ (is_ok r = true -> checkpoint db' = Some (b_number b)).
Proof.
  intros Hb Hcanon -> Hl Hsc H. unfold finish_scan in H.
  destruct (match batch s with [] => _ | _ => _ end) as [r1 db1] eqn:E1.
  assert (unseeded db1 /\ forall s', r1 = Ok s' -> scanning (b_hash b) l s' db1 /\ batch s' = []) as [Hu Hs].
  { destruct (batch s) as [|x xs] eqn:Eb.
    - injection E1 as <- <-. split; [by eapply scanning_unseeded|]. by intros s' [= <-].
    - by eapply flush_spec. }
  assert (forall d, unseeded d -> inv d /\ stamped (genesis_hash (se_chain env)) d) as Hun by apply unseeded_inv.
  destruct r1 as [s1|x]; [|injection H as <- <-; destruct (Hun db1 Hu); by split_and!].
  destruct (Hs s1 eq_refl) as [Hsc1 Hb1].
  destruct (Z.eqb_spec (iterator_errors s1) 0) as [Herr|Herr]; simpl in H;
    [|injection H as <- <-; destruct (Hun db1 Hu); by split_and!].
  destruct (sweep_mirrors b l s1 db1 Hb Hl Hsc1 Hb1 Herr) as [Hh Hm].
  assert (unseeded (sweep (b_hash b) db1)) as Hu2 by (split; [done|apply Hu]).
  destruct (commit (se_sweep env) db1 (sweep (b_hash b) db1) ()) as [r2 db2] eqn:E2.
  destruct (commit_cases (se_sweep env) db1 (sweep (b_hash b) db1) ()) as [E|[E|E]]; rewrite E in E2;
    injection E2 as <- <-; [|injection H as <- <-; destruct (Hun _ Hu); by split_and!
                             |injection H as <- <-; destruct (Hun _ Hu2); by split_and!].
  assert (inv (write_checkpoint (se_now env) (b_number b) (b_hash b) (genesis_hash (se_chain env))
                 (indexed s1) (skipped s1) (sweep (b_hash b) db1))) as Hinv.
  { split; [done|]. intros ? [= <-]. simpl. split; [by apply honest_number|].
    eexists. split; [done|]. by rewrite <-Hcanon. }
  match type of H with commit ?f ?d ?d' ?x = _ => destruct (commit_cases f d d' x) as [E'|[E'|E']]; rewrite E' in H end;
    injection H as <- <-; [|destruct (Hun _ Hu2); by split_and!|].
  - split_and!; [done|by intros ? [= <-]|done].
  - split_and!; [done|by intros ? [= <-]|done].
Qed.

Lemma bootstrap_spec env page trigger db r db' :
  chain_honest (se_chain env) -> unseeded db -> bootstrap_locked cr env page trigger db = (r, db') ->
  inv db' /\ stamped (genesis_hash (se_chain env)) db' /\ (is_ok r = true -> is_Some (checkpoint db')).
Proof.
  intros Hch Hu H. unfold bootstrap_locked in H.
  pose proof (unseeded_inv (genesis_hash (se_chain env)) db Hu) as [Hi Hst].
  destruct (at_current_block (se_chain env)) as [b|] eqn:Eb; [|injection H as <- <-; by split_and!].
  destruct (chain_current _ Hch _ Eb) as [Hb Hcanon].
  match type of H with context [match ?m with Ok _ => _ | Err _ => _ end] => destruct m as [[[nd p] l]|e] eqn:Em end;
    [|injection H as <- <-; by split_and!].
  apply rbind_ok in Em as (nd' & Hnd%block_number_ok & Em). apply rbind_ok in Em as (p' & Hp & Em).
  destruct (b_entries b) as [l'|] eqn:El; [|done]. injection Em as -> -> ->.
  destruct (ss58_prefix_ok b p Hb Hp) as [Hpp _].
  assert (scanning (b_hash b) [] {| batch := []; indexed := 0; skipped := 0; iterator_errors := 0 |} db) as Hsc.
  { destruct Hu. split; simpl; try done; [|intros _; apply not_elem_of_nil]. by intros a c ?%not_elem_of_nil. }
  destruct (scan_entries cr env page nd p b 0 l _ db) as [r1 db1] eqn:E1.
  destruct (scan_entries_spec _ _ _ _ _ _ _ _ _ _ _ _ Hb Hpp (fun a c => honest_good b Hb l a c El) Hsc E1) as [Hu1 Hs1].
  destruct r1 as [[i s]|x]; [|injection H as <- <-; destruct (unseeded_inv (genesis_hash (se_chain env)) _ Hu1); by split_and!].
  destruct (finish_scan_spec _ _ _ _ _ _ _ _ _ _ Hb Hcanon Hnd El (Hs1 i s eq_refl) H) as (H1 & H2 & H3).
  split_and!; [done..|]. intros Hr. rewrite H3 by done. by eexists.
Qed.

Lemma inv_empty : inv {| usernames := ∅; sync_state := None |}.
Proof. split; [apply map_Forall_empty|done]. Qed.

Lemma ensure_seeded_spec env page db r db' :
  chain_honest (se_chain env) -> inv db -> ensure_seeded cr env page db = (r, db') ->
  inv db' /\ (is_ok r = true -> stamped (genesis_hash (se_chain env)) db' /\ is_Some (checkpoint db')).
Proof.
  intros Hch Hinv H. unfold ensure_seeded in H. destruct (se_lock env); simpl in H; [|by injection H as <- <-].
  unfold reconcile_chain_identity in H. destruct (se_read env); simpl in H; [|by injection H as <- <-].
  assert (forall trigger d r2 d2, unseeded d -> bootstrap_locked cr env page trigger d = (r2, d2) ->
            inv d2 /\ (is_ok (let? report := r2 in Ok (Some report))%dub = true ->
                       stamped (genesis_hash (se_chain env)) d2 /\ is_Some (checkpoint d2))) as Hboot.
  { intros trigger d r2 d2 Hd H2. destruct (bootstrap_spec _ _ _ _ _ _ Hch Hd H2) as (H3 & H4 & H5).
    split; [done|]. intros Hr. split; [done|]. apply H5. by destruct r2. }
  destruct (sync_state db) as [s|] eqn:Es.
  2: { destruct (bootstrap_locked cr env page FreshDatabase db) as [r2 d2] eqn:E2. injection H as <- <-.
       eapply Hboot; [|done]. split; [apply Hinv|done]. }
  destruct (proj2 Hinv s Es) as (_ & g & Hg & _). rewrite Hg in H.
  case_bool_decide as Hgen; simpl in H.
  - injection H as <- <-. split; [done|]. intros _. split.
    + intros s' Hs'. congruence.
    + unfold checkpoint. rewrite Es. by eexists.
  - destruct (commit_cases (se_discard env) db {| usernames := ∅; sync_state := None |} CsDiscarded) as [E|[E|E]];
      rewrite E in H; simpl in H.
    + destruct (bootstrap_locked cr env page ChainChanged _) as [r2 d2] eqn:E2. injection H as <- <-.
      eapply Hboot; [|done]. split; [apply inv_empty|done].
    + by injection H as <- <-.
    + injection H as <- <-. split; [apply inv_empty|done].
Qed.
End props.
End IndexerProps.
