(* ===== verification/IndexerClaims.v ===== *)
(** * IndexerClaims: what the indexer guarantees through its lifetimes

    The theorems over passes, the sync loop and restarts, from the lemmas of
    [IndexerProps]. *)

From stdpp Require Import gmap.
From S2P Require Import Prelude Strings Schema Text Projection Indexer IndexerRun IndexerProps.

#[local] Open Scope string_scope.
#[local] Open Scope Z_scope.

Module IndexerClaims.
Import Projection Indexer IndexerRun IndexerProps.

Definition empty_db : IndexDb := {| usernames := ∅; sync_state := None |}.

Section claims.
Context (cr : Ss58Crates) (w : World) (Hw : world_ok w).

(** ** One pass *)

(** Moving between states that agree on confirmed rows and the checkpoint. *)
Lemma inv_confirmed db db' :
  inv cr w db -> honest cr w (usernames db') -> sync_state db' = sync_state db ->
  (forall x, confirmed (usernames db') x = confirmed (usernames db) x) -> inv cr w db'.
Proof.
  intros [_ Hm] Hh Hs Hc. split; [done|]. intros s Hs'. rewrite Hs in Hs'.
  destruct (Hm s Hs') as (Hn & g & Hg & Hmir). split; [done|]. exists g. split; [done|].
  intros x. rewrite Hc. apply Hmir.
Qed.

Definition steps_to (g : bytes) (cache' : SpeculativeCache) (db db' : IndexDb) : Prop :=
  inv cr w db' /\ stamped g db' /\ cache_ok w cache' /\
  forall n, checkpoint db = Some n -> exists n', checkpoint db' = Some n' /\ n <= n'.

Lemma steps_same g cache db : inv cr w db -> stamped g db -> cache_ok w cache -> steps_to g cache db db.
Proof. intros. split_and!; [done..|]. intros n Hn. exists n. split; [done|lia]. Qed.

Lemma pass_spec env best spec cache db r db' cache' :
  chain_honest w (pe_chain env) -> inv cr w db -> stamped (genesis_hash (pe_chain env)) db -> cache_ok w cache ->
  pass cr env best spec cache db = ((r, db'), cache') ->
  steps_to (genesis_hash (pe_chain env)) cache' db db' /\
  forall report n cur, r = Ok (Some report) -> checkpoint db = Some n ->
    at_current_block (pe_chain env) = Some cur -> checkpoint db' = Some (Z.max n (b_number cur)).
Proof.
  intros Hch Hinv Hst Hc H. unfold pass, finalized_head_number in H.
  pose proof (steps_same _ _ _ Hinv Hst Hc) as Hsame.
  destruct (at_current_block (pe_chain env)) as [cur|] eqn:Ecur; simpl in H; [|by injection H as <- <- <-].
  destruct (pe_lock env) as [[]|]; [|by injection H as <- <- <-..].
  destruct (index_finalized_range_locked cr _ _ _ _ _ db) as [r1 db1] eqn:E1.
  destruct (finalized_range_spec cr w _ _ _ _ _ _ _ _ Hw Hch Ecur Hinv Hst E1) as (Hi1 & Hst1 & Hcp1).
  assert (steps_to (genesis_hash (pe_chain env)) cache db db1) as Hstep1.
  { split_and!; [done..|]. intros n Hn. destruct (Hcp1 n Hn) as (n' & ? & ? & _). exists n'. split; [done|lia]. }
  destruct r1 as [[report|]|e]; [|by injection H as <- <- <-..].
  assert (forall n, checkpoint db = Some n -> checkpoint db1 = Some (Z.max n (b_number cur))) as Hdone.
  { intros n Hn. destruct (Hcp1 n Hn) as (n' & Hn' & _ & Heq). rewrite Hn'. f_equal. by apply Heq. }
  destruct spec.
  2: { injection H as <- <- <-. split; [done|]. intros ? n c _ Hn [= <-]. by apply Hdone. }
  destruct (reconcile_speculative cr env _ best cache db1) as [[sp db2] c2] eqn:E2. injection H as <- <- <-.
  assert (honest cr w (usernames db2) /\ (forall x, confirmed (usernames db2) x = confirmed (usernames db1) x) /\
          sync_state db2 = sync_state db1 /\ cache_ok w c2) as (Hh2 & Hc2 & Hs2 & Hk2).
  { unfold reconcile_speculative in E2. destruct (match best with Some b => Some b | None => _ end) as [bh|].
    - destruct (index_speculative_window cr _ _ _ _ _ _ cache db1) as [[r3 db3] c3] eqn:E3.
      injection E2 as _ <- <-. by eapply window_safe; [|apply Hi1|..].
    - injection E2 as _ <- <-. split_and!; [apply Hi1|done..]. }
  unfold steps_to, stamped, checkpoint in *. rewrite Hs2. split.
  - split_and!; [|apply Hstep1|done|apply Hstep1]. by eapply inv_confirmed.
  - intros ? n c _ Hn [= <-]. by apply Hdone.
Qed.

(** ** The loop *)

Definition turn_env (t : Turn) : PassEnv := match t with TSubscribe _ env _ | TWake _ _ env _ => env end.

(** The node a process talks to. *)
Definition turn_honest (g : bytes) (t : Turn) : Prop :=
  chain_honest w (pe_chain (turn_env t)) /\ genesis_hash (pe_chain (turn_env t)) = g.

Definition proc_inv (g : bytes) (p : Proc) : Prop :=
  inv cr w (p_db p) /\ stamped g (p_db p) /\ cache_ok w (cache (p_state p)).

Lemma run_pass_inv g env spec wk p :
  chain_honest w (pe_chain env) -> genesis_hash (pe_chain env) = g -> proc_inv g p ->
  proc_inv g (run_pass cr env spec wk p) /\
  forall n, checkpoint (p_db p) = Some n ->
    exists n', checkpoint (p_db (run_pass cr env spec wk p)) = Some n' /\ n <= n'.
Proof.
  intros Hch <- (Hi & Hs & Hc). unfold run_pass.
  destruct (pass cr env (best_head wk) spec (cache (p_state p)) (p_db p)) as [[r db'] c'] eqn:E.
  destruct (pass_spec _ _ _ _ _ _ _ _ Hch Hi Hs Hc E) as [(H1 & H2 & H3 & H4) _]. by split.
Qed.

Lemma run_turn_inv g spec fallback p t :
  turn_honest g t -> proc_inv g p ->
  proc_inv g (run_turn cr spec fallback p t) /\
  forall n, checkpoint (p_db p) = Some n ->
    exists n', checkpoint (p_db (run_turn cr spec fallback p t)) = Some n' /\ n <= n'.
Proof.
  intros [Hch Hg] Hp.
  assert (proc_inv g p /\ forall n, checkpoint (p_db p) = Some n -> exists n', checkpoint (p_db p) = Some n' /\ n <= n') as Hsame.
  { split; [done|]. intros n Hn. exists n. split; [done|lia]. }
  destruct t as [ok env at_|first ready env at_]; simpl in *; unfold run_turn, degraded_pass.
  - destruct (p_subscribed p); [done|]. destruct ok; [done|].
    destruct (fallback_is_due _ at_ fallback); [|done]. by apply (run_pass_inv g env spec WTimer (with_subscription _ _ _ p)).
  - destruct (p_subscribed p); [|done]. simpl. destruct (wait_for_wake first ready) as [best| |].
    + by apply (run_pass_inv g env spec (WBlock best) (with_subscription _ _ _ p)).
    + by apply run_pass_inv.
    + destruct (fallback_is_due _ at_ fallback); [|done]. by apply (run_pass_inv g env spec WTimer (with_subscription _ _ _ p)).
Qed.

Lemma run_inv g spec fallback turns p :
  Forall (turn_honest g) turns -> proc_inv g p ->
  proc_inv g (run cr spec fallback turns p) /\
  forall n, checkpoint (p_db p) = Some n ->
    exists n', checkpoint (p_db (run cr spec fallback turns p)) = Some n' /\ n <= n'.
Proof.
  unfold run. intros Ht. revert p. induction Ht as [|t turns Ht Hts IH]; intros p Hp; simpl.
  { split; [done|]. intros n Hn. exists n. split; [done|lia]. }
  destruct (run_turn_inv g spec fallback p t Ht Hp) as [Hp1 Hn1]. destruct (IH _ Hp1) as [Hp2 Hn2].
  split; [done|]. intros n Hn. destruct (Hn1 n Hn) as (n1 & H1 & Hle1). destruct (Hn2 n1 H1) as (n2 & H2 & Hle2).
  exists n2. split; [done|lia].
Qed.

(** ** Restarts *)

Lemma clear_confirmed t x : confirmed (clear_speculative t) x = confirmed t x.
Proof.
  unfold confirmed, clear_speculative. rewrite map_lookup_filter. destruct (t !! x) as [r|]; simpl; [|done].
  destruct (is_speculative r) eqn:E; case_guard; simpl; [done|done|by rewrite E|done].
Qed.

Lemma clear_inv lock fate db r db' :
  inv cr w db -> clear_at_start lock fate db = (r, db') -> inv cr w db'.
Proof.
  intros Hinv H. unfold clear_at_start in H. destruct lock as [[]|]; [|by injection H as <- <-..].
  assert (inv cr w (with_usernames (clear_speculative (usernames db)) db)) as Hinv'.
  { eapply inv_confirmed; [done| |done|intros x; apply clear_confirmed].
    intros a row [Hr _]%map_lookup_filter_Some. by apply (proj1 Hinv a). }
  match type of H with commit ?f ?d ?d' ?x = _ => destruct (commit_cases f d d' x) as [E|[E|E]]; rewrite E in H end;
    by injection H as <- <-.
Qed.

Definition lifetime_honest (l : Lifetime) : Prop :=
  chain_honest w (se_chain (lf_seed l)) /\
  Forall (turn_honest (genesis_hash (se_chain (lf_seed l)))) (lf_turns l).

Lemma cache_ok_empty : cache_ok w ∅.
Proof. apply map_Forall_empty. Qed.

Lemma lifetime_inv db l : lifetime_honest l -> inv cr w db -> inv cr w (lifetime cr db l).
Proof.
  intros [Hch Ht] Hinv. unfold lifetime, build_state.
  destruct (clear_at_start (lf_lock l) (lf_clear l) db) as [r1 db1] eqn:E1.
  pose proof (clear_inv _ _ _ _ _ Hinv E1) as Hinv1. destruct r1; [|done].
  destruct (ensure_seeded cr (lf_seed l) (lf_page_size l) db1) as [r2 db2] eqn:E2.
  destruct (ensure_seeded_spec cr w _ _ _ _ _ Hch Hinv1 E2) as [Hinv2 Hst].
  assert (forall f, is_ok r2 = true -> proc_inv (genesis_hash (se_chain (lf_seed l))) (start_proc db2 f)) as Hp.
  { intros f Hr. destruct (Hst Hr). split_and!; [done..|apply cache_ok_empty]. }
  destruct r2 as [[report|]|x]; [| |done].
  - apply (run_inv _ _ _ _ _ Ht), Hp. done.
  - destruct (lf_read l); [|done]. apply (run_inv _ _ _ _ _ Ht), Hp. done.
Qed.

(** ** Progress *)

(** The node answers what a pass asks of a block. *)
Definition readable (b : Block) : Prop :=
  b_number b <= I64_MAX /\
  exists evs accts p, b_events b = Some evs /\ accounts_from_events evs = Ok accts /\
    b_prefix b = Some p /\ p < 16384 /\
    forall a, a ∈ accts -> b_consumer b a <> FetchFailed /\ b_consumer b a <> Undecodable.

Lemma index_accounts_ok now b number p l t n :
  p < 16384 -> (forall a, a ∈ l -> b_consumer b a <> FetchFailed /\ b_consumer b a <> Undecodable) ->
  exists t' n', try_fold (index_account cr now b number p) (t, n) l = Ok (t', n').
Proof.
  intros Hp. revert t n. induction l as [|a l IH]; intros t n Hl; simpl; [by eauto|].
  destruct (Hl a ltac:(apply list_elem_of_here)) as [H1 H2].
  assert (exists t1 n1, index_account cr now b number p (t, n) a = Ok (t1, n1)) as (t1 & n1 & E).
  { unfold index_account. destruct (b_consumer b a) as [| | |c]; try done; [by eauto|].
    destruct (decode_no_panic cr a c p (b_hash b) (b_number b) Hp) as [d ->]. destruct d; eauto. }
  unfold index_account in E. rewrite E. simpl. apply IH. intros x Hx. apply Hl. by right.
Qed.

Lemma index_block_ok now chain num report db b :
  at_block chain num = Some b -> readable b ->
  exists report' db', index_block cr now Fine chain num report db = (Ok report', db').
Proof.
  intros Hb (Hn & evs & accts & p & He & Ha & Hp & Hlt & Hc). unfold index_block. rewrite Hb.
  unfold block_number_db. rewrite (proj2 (Z.ltb_ge _ _)) by done. cbn [rbind]. rewrite He, Ha. cbn [rbind].
  destruct (dedupe_accounts accts) as [|a0 l0] eqn:Ed; [by eauto|]. rewrite <-Ed.
  unfold ss58_prefix. rewrite Hp. unfold validate_prefix. rewrite (proj2 (Z.leb_gt _ _)) by done. cbn [rbind map_err].
  destruct (index_accounts_ok now b (b_number b) p (dedupe_accounts accts) (usernames db)
              {| t_upserts := 0; t_deletes := 0; t_failures := 0 |} Hlt) as (t' & n' & ->).
  { intros a. rewrite elem_of_dedupe. apply Hc. }
  simpl. eauto.
Qed.

Lemma index_blocks_ok now fate chain numbers report db :
  (forall n, fate n = Fine) -> (forall n, n ∈ numbers -> exists b, at_block chain n = Some b /\ readable b) ->
  exists report' db', index_blocks cr now fate chain numbers report db = (Ok report', db').
Proof.
  intros Hf. revert report db. induction numbers as [|n numbers IH]; intros report db Hn; simpl; [by eauto|].
  destruct (Hn n ltac:(apply list_elem_of_here)) as (b & Hb & Hr). rewrite Hf.
  destruct (index_block_ok now chain n report db b Hb Hr) as (r1 & db1 & ->).
  apply IH. intros m Hm. apply Hn. by right.
Qed.

Lemma lifetimes_inv ls db : Forall lifetime_honest ls -> inv cr w db -> inv cr w (foldl (lifetime cr) db ls).
Proof.
  intros Hls. revert db. induction Hls as [|l ls Hl Hls IH]; intros db Hdb; simpl; [done|].
  apply IH. by apply lifetime_inv.
Qed.
End claims.

(** C10. The projection mirrors the chain through any sequence of process lifetimes,
    whatever fails in them: every row, speculative or not, is true of the block it
    is stamped with; and when there is a checkpoint, the confirmed rows are exactly
    the consumers of the checkpoint block of the chain it is stamped with, decoded. *)
Theorem projection_mirrors_chain cr w ls :
  world_ok w -> Forall (lifetime_honest w) ls ->
  let db := foldl (lifetime cr) empty_db ls in
  (forall a r, usernames db !! a = Some r -> expected cr w (row_hash r) a = Some (row_content r)) /\
  (forall s, sync_state db = Some s ->
     exists g, sync_genesis s = Some g /\
       forall a, confirmed (usernames db) a = expected cr w (canon w g (last_finalized_number s)) a).
Proof.
  intros Hw Hls db. assert (inv cr w db) as [Hh Hm] by (by apply lifetimes_inv; [..|apply inv_empty]).
  split; [exact Hh|]. intros s Hs. by destruct (Hm s Hs).
Qed.

(** C33. A pass whose questions are answered catches up: with the lock, a readable
    database and every block between the checkpoint and the finalized head
    readable, the checkpoint moves to the finalized head and the confirmed rows
    are that block's consumers. *)
Theorem pass_catches_up cr w env best spec cache db n cur :
  world_ok w -> chain_honest w (pe_chain env) -> inv cr w db ->
  stamped (genesis_hash (pe_chain env)) db -> cache_ok w cache ->
  checkpoint db = Some n -> at_current_block (pe_chain env) = Some cur ->
  pe_lock env = Some true -> pe_read env = true -> (forall k, pe_block_fate env k = Fine) ->
  (forall k, n < k <= b_number cur -> exists b, at_block (pe_chain env) k = Some b /\ readable b) ->
  exists report db' cache', pass cr env best spec cache db = ((Ok (Some report), db'), cache') /\
    checkpoint db' = Some (Z.max n (b_number cur)) /\
    forall a, confirmed (usernames db') a =
      expected cr w (canon w (genesis_hash (pe_chain env)) (Z.max n (b_number cur))) a.
Proof.
  intros Hw Hch Hinv Hst Hc Hn Hcur Hlock Hread Hfate Hav.
  assert (exists report db' cache', pass cr env best spec cache db = ((Ok (Some report), db'), cache'))
    as (report & db' & cache' & E).
  { unfold pass, finalized_head_number. rewrite Hcur, Hlock, Hread. simpl.
    assert (exists r1 db1, index_finalized_range_locked cr true (pe_now env) (pe_block_fate env) (pe_chain env)
              (b_number cur) db = (Ok (Some r1), db1)) as (r1 & db1 & ->).
    { unfold index_finalized_range_locked, read_checkpoint. simpl.
      unfold checkpoint in Hn. destruct (sync_state db) as [s|] eqn:Es; [|done]. injection Hn as Hn. simpl.
      destruct (proj2 Hinv s Es) as [Hpos _]. rewrite Z.max_r, Hn by done. unfold index_from_checkpoint.
      destruct (b_number cur <=? n); [by eauto|].
      match goal with |- context [index_blocks cr ?a ?b ?c ?d ?e ?f] =>
        destruct (index_blocks_ok cr a b c d e f Hfate) as (r1 & db1 & ->) end; [|by eauto].
      intros k Hk%elem_of_seqZ. apply Hav. lia. }
    destruct spec; [|by eauto].
    destruct (reconcile_speculative cr env _ best cache db1) as [[sp db2] c2]. eauto. }
  exists report, db', cache'. split; [done|].
  destruct (pass_spec cr w Hw _ _ _ _ _ _ _ _ Hch Hinv Hst Hc E) as [(Hi & Hs & _) Hcp].
  specialize (Hcp report n cur eq_refl Hn Hcur). split; [done|].
  unfold checkpoint in Hcp. destruct (sync_state db') as [s'|] eqn:Es'; [|done]. injection Hcp as <-.
  destruct (proj2 Hi s' Es') as (_ & g & Hg & Hm). rewrite (Hs s' Es') in Hg. injection Hg as <-. apply Hm.
Qed.

(** C32. A speculative pass leaves the confirmed rows and the checkpoint alone
    however it ends, and when it succeeds the pending rows are exactly what the
    head block says of the accounts the window names or that were pending before,
    less the confirmed ones: a registration on a fork that lost is gone. *)
Theorem speculation_exact cr w reads now fate chain finalized best cache db r db' cache' :
  chain_honest w chain -> honest cr w (usernames db) -> cache_ok w cache ->
  index_speculative_window cr reads now fate chain finalized best cache db = ((r, db'), cache') ->
  (forall x, confirmed (usernames db') x = confirmed (usernames db) x) /\
  sync_state db' = sync_state db /\
  (is_ok r = true -> forall b, at_block chain (Z.max best finalized) = Some b ->
   forall x ct, pending (usernames db') x = Some ct <->
     (in_window w chain finalized best x \/ pending (usernames db) x <> None) /\
     confirmed (usernames db) x = None /\ expected cr w (b_hash b) x = Some ct).
Proof.
  intros Hch Hh Hc H. destruct (window_safe cr w _ _ _ _ _ _ _ _ _ _ _ Hch Hh Hc H) as (_ & H1 & H2 & _).
  split_and!; [done..|]. intros Hr b Hb. destruct r as [report|]; [|done].
  by eapply window_exact.
Qed.

(** ** A small chain *)

Definition demo_cr : Ss58Crates := {| blake2b512 := fun _ => [0; 0]; bs58_encode := string_of_bytes |}.
Definition ann : bytes := replicate 32 7.
Definition demo_consumer : ConsumerInfo :=
  {| c_identifier_key := [0]; c_lite_username := as_bytes "ann.07"; c_full_username := None |}.

(** Block [n] has hash [[n]]; [ann] registers in block 1. *)
Definition demo_world : World :=
  {| state := fun h a => match h with
                         | [n] => if (1 <=? n) && bool_decide (a = ann) then Present demo_consumer else Absent
                         | _ => Absent
                         end;
     named := fun h => if bool_decide (h = [1]) then [ann] else [];
     prefix_of := fun _ => 42; canon := fun _ n => [n] |}.

Definition demo_block (n : Z) : Block :=
  {| b_hash := [n]; b_number := n;
     b_events := Some (if n =? 1 then [{| ev_kind := ConsumerRegistered; ev_account := Some ann |}] else []);
     b_prefix := Some 42; b_consumer := state demo_world [n];
     b_entries := Some (if 1 <=? n then [Good ann demo_consumer] else []) |}.

Definition demo_chain (cur : Z) : Chain :=
  {| genesis_hash := [9]; at_block := fun n => if 0 <=? n then Some (demo_block n) else None;
     at_current_block := Some (demo_block cur); best_head_number := Some (cur + 1) |}.

Lemma demo_world_ok : world_ok demo_world.
Proof.
  intros g n Hn. split; [done|]. intros a Ha. simpl in *. rewrite (proj2 (Z.leb_le 1 (n + 1))) by lia. simpl.
  destruct (Z.leb_spec 1 n); [done|]. simpl. assert (n = 0) as -> by lia. simpl in Ha.
  rewrite bool_decide_eq_false_2; [done|]. intros ->. apply Ha, list_elem_of_here.
Qed.

Lemma demo_block_honest n : 0 <= n -> block_honest demo_world (demo_block n).
Proof.
  intros Hn. assert (forall a c, Good a c ∈ (if 1 <=? n then [Good ann demo_consumer] else []) <->
    state demo_world [n] a = Present c) as Hgood.
  { intros a c. simpl. destruct (1 <=? n); simpl; [|split; [by intros ?%not_elem_of_nil|done]].
    rewrite list_elem_of_singleton. case_bool_decide as Ha; [subst; naive_solver|]. split; [by intros [= -> ->]|done]. }
  split.
  - intros a. by right.
  - intros evs accts [= <-] Ha. simpl. destruct (Z.eqb_spec n 1) as [->|Hne].
    + vm_compute in Ha. by injection Ha as <-.
    + rewrite bool_decide_eq_false_2 by congruence. vm_compute in Ha. by injection Ha as <-.
  - by intros p [= <-].
  - intros l a c [= <-] _. by rewrite Hgood.
  - intros l a c [= <-]. by rewrite Hgood.
  - done.
Qed.

Lemma demo_chain_honest cur : 0 <= cur -> chain_honest demo_world (demo_chain cur).
Proof.
  intros Hc. split; simpl.
  - intros b [= <-]. split; [by apply demo_block_honest|done].
  - intros n b. destruct (Z.leb_spec 0 n); [|done]. intros [= <-]. split; [by apply demo_block_honest|done].
  - intros n b c. destruct (Z.leb_spec 0 n); [|done]. by intros [= <-].
Qed.

Definition demo_env (cur : Z) : PassEnv :=
  {| pe_started := 0; pe_now := 5; pe_chain := demo_chain cur; pe_lock := Some true; pe_read := true;
     pe_block_fate := fun _ => Fine; pe_spec_reads := true; pe_spec_fate := Fine |}.

Definition demo_lifetime : Lifetime :=
  {| lf_lock := Some true; lf_clear := Fine;
     lf_seed := {| se_now := 1; se_chain := demo_chain 0; se_lock := true; se_read := true; se_adopt := Fine;
                   se_discard := Fine; se_flush := fun _ => Fine; se_sweep := Fine; se_checkpoint := Fine |};
     lf_page_size := 100; lf_read := true; lf_speculative := true; lf_fallback := 30;
     lf_turns := [TSubscribe true (demo_env 0) 0; TWake (Some (HNumber 3)) [] (demo_env 2) 0] |}.

Lemma demo_lifetime_honest : Forall (lifetime_honest demo_world) [demo_lifetime].
Proof.
  apply Forall_singleton. split; [by apply demo_chain_honest|].
  apply Forall_cons_2; [|apply Forall_singleton]; (split; [by apply demo_chain_honest|done]).
Qed.

(** From an empty database, through a restart, to the consumers of block 2. *)
Lemma projection_mirrors_chain_witness :
  let db := foldl (lifetime demo_cr) empty_db [demo_lifetime] in
  checkpoint db = Some 2 /\ is_Some (confirmed (usernames db) ann) /\
  confirmed (usernames db) ann = expected demo_cr demo_world [2] ann.
Proof.
  destruct (projection_mirrors_chain demo_cr demo_world [demo_lifetime] demo_world_ok demo_lifetime_honest) as [_ H].
  split; [vm_compute; reflexivity|]. split; [vm_compute; eexists; reflexivity|].
  destruct (sync_state (foldl (lifetime demo_cr) empty_db [demo_lifetime])) as [s|] eqn:Es; [|vm_compute in Es; discriminate].
  destruct (H s eq_refl) as (g & _ & Hm). rewrite Hm. simpl canon.
  assert (last_finalized_number s = 2) as -> by (vm_compute in Es; by injection Es as <-). reflexivity.
Defined.

Definition demo_seeded : IndexDb :=
  {| usernames := ∅;
     sync_state := Some {| last_finalized_number := 0; last_finalized_hash := [0]; sync_genesis := Some [9];
                           last_synced_at := 0; sy_records_indexed := 0; sy_decode_failures := 0;
                           sync_updated_at := 0 |} |}.

Lemma demo_seeded_inv : inv demo_cr demo_world demo_seeded.
Proof.
  split; [apply map_Forall_empty|]. intros s [= <-]. split; [done|]. by exists [9].
Qed.

Lemma pass_catches_up_witness :
  exists report db' cache',
    pass demo_cr (demo_env 2) (Some 3) true ∅ demo_seeded = ((Ok (Some report), db'), cache') /\
    checkpoint db' = Some 2.
Proof.
  destruct (pass_catches_up demo_cr demo_world (demo_env 2) (Some 3) true ∅ demo_seeded 0 (demo_block 2)
              demo_world_ok (demo_chain_honest 2 ltac:(lia)) demo_seeded_inv) as (r & db' & c' & H & Hc & _); try reflexivity.
  - intros s [= <-]. reflexivity.
  - apply map_Forall_empty.
  - intros k Hk. exists (demo_block k). simpl in Hk. split; [simpl; by rewrite (proj2 (Z.leb_le 0 k)) by lia|].
    split; [simpl; unfold I64_MAX; lia|]. destruct (decide (k = 1)) as [->|Hne].
    + eexists _, [ann], 42. split_and!; try reflexivity. intros a ->%list_elem_of_singleton. split; discriminate.
    + eexists _, [], 42. split_and!; try reflexivity.
      * simpl. by rewrite (proj2 (Z.eqb_neq k 1)).
      * by intros a ?%not_elem_of_nil.
  - exists r, db', c'. split; [exact H|exact Hc].
Defined.

(** Block 1 is on the best chain only: [ann] is pending, and nothing is confirmed. *)
Lemma speculation_exact_witness :
  let out := index_speculative_window demo_cr true 5 Fine (demo_chain 0) 0 1 ∅ demo_seeded in
  pending (usernames out.1.2) ann = expected demo_cr demo_world [1] ann /\
  is_Some (pending (usernames out.1.2) ann) /\ confirmed (usernames out.1.2) ann = None.
Proof.
  intros out. destruct out as [[r db'] c'] eqn:E. unfold out in E. simpl.
  destruct (speculation_exact demo_cr demo_world true 5 Fine (demo_chain 0) 0 1 ∅ demo_seeded r db' c'
              (demo_chain_honest 0 ltac:(lia)) (map_Forall_empty _) (map_Forall_empty _) E) as (H1 & _ & H3).
  assert (is_ok r = true) as Hr by (vm_compute in E; injection E as <- _ _; reflexivity).
  assert (pending (usernames db') ann = expected demo_cr demo_world [1] ann) as Hp.
  { destruct (expected demo_cr demo_world [1] ann) as [ct|] eqn:Ee; [|vm_compute in Ee; discriminate].
    apply (H3 Hr (demo_block 1) eq_refl). split; [left|by split].
    split; [done|]. exists 1, (demo_block 1). split; [lia|]. split; [done|]. apply list_elem_of_here. }
  split; [exact Hp|]. split; [rewrite Hp; vm_compute; eexists; reflexivity|]. by rewrite H1.
Defined.
End IndexerClaims.
