(* ===== verification/DeviceCheck.v ===== *)
(** * DeviceCheck: the client of Apple's service ([device_check/client.rs])

    The cached team-key JWT, the bounded retry of a call, and the fail-closed
    reading of a query.  Apple's service is an interface ([AppleService]) with
    the documented behaviour the gate relies on ([AppleLaws]); the JSON decoder,
    the JWT signer and the lossy text of error bodies are parameters. *)

From stdpp Require Import pretty.
From S2P Require Import Prelude Strings Schema DeviceGate.

#[local] Open Scope Z_scope.

Module DeviceCheck.

Export DeviceGate.

Definition JWT_TTL_SECS : Z := 600.
Definition JWT_REFRESH_GRACE_SECS : Z := 30.
Definition MAX_RETRIES : nat := 3.

Inductive DeviceCheckError :=
| Jwt (m : string)
| Api (m : string).

Definition error_text (e : DeviceCheckError) : string :=
  match e with
  | Jwt m => "devicecheck jwt: " +:+ m
  | Api m => "devicecheck api: " +:+ m
  end.

Inductive TryError :=
| Transient (e : DeviceCheckError)
| Fatal (e : DeviceCheckError).

Record CachedJwt := { token : string; expires_at : Z }.

(** What one HTTP exchange gives the client. *)
Inductive HttpReply :=
| SendFailed (e : string)
| BodyFailed (e : string)
| Replied (status : Z) (body : bytes).

Definition is_success (status : Z) : bool := (200 <=? status) && (status <? 300).
Definition is_server_error (status : Z) : bool := (500 <=? status) && (status <? 600).

(** The service at the other end: endpoint, device token, bits to store.  A lost
    reply may have had its effect. *)
Class AppleService := {
  Apple : Type;
  serve : string -> bytes -> option (bool * bool) -> Apple -> HttpReply * Apple;
}.

(** What DeviceCheck documents: an acknowledged update is stored for the token's
    device, a query reports what is stored, and the bits stay as long as nobody
    stores other ones. *)
Class AppleLaws `{AppleService} (bits_of_json : bytes -> option BitState) := {
  device_of : bytes -> bytes;
  claimed : bytes -> Apple -> Prop;
  update_stores t a status body a' :
    serve "update_two_bits" t (Some (false, true)) a = (Replied status body, a') ->
    is_success status = true -> claimed (device_of t) a';
  query_reports t a status body a' :
    claimed (device_of t) a -> serve "query_two_bits" t None a = (Replied status body, a') ->
    is_success status = true -> bits_of_json body = Some {| bit0 := false; bit1 := true |};
  bits_persist d endpoint t bits a :
    claimed d a -> bits = None \/ bits = Some (false, true) -> claimed d (serve endpoint t bits a).2;
}.

Definition NO_BITS_MARKER : string := "Failed to find bit state".

Definition to_ascii_lowercase (c : ascii) : ascii :=
  if is_ascii_uppercase c then ascii_of_nat (nat_of_ascii c + 32) else c.
Fixpoint eq_ignore_ascii_case (a b : string) : bool :=
  match a, b with
  | EmptyString, EmptyString => true
  | String c a', String d b' =>
      Ascii.eqb (to_ascii_lowercase c) (to_ascii_lowercase d) && eq_ignore_ascii_case a' b'
  | _, _ => false
  end.

Fixpoint text_of (b : bytes) : string :=
  match b with [] => EmptyString | x :: b' => String (ascii_of_nat (Z.to_nat x)) (text_of b') end.

Section client.
Context `{AppleService}.
Context (lossy : bytes -> string) (bits_of_json : bytes -> option BitState).
Context (encode : Z -> Z -> result string string).

(** [serde_json] first, then the marker.  A body that is not UTF-8 cannot be
    white space around an ASCII marker, so the comparison is on the bytes. *)
Definition classify_query_response (body : bytes) : result (option BitState) DeviceCheckError :=
  match bits_of_json body with
  | Some bits => Ok (Some bits)
  | None =>
      if eq_ignore_ascii_case (trim (text_of body)) NO_BITS_MARKER then Ok None
      else Err (Api ("unrecognized query_two_bits body: " +:+ trim (lossy body)))
  end.

(** The client: its token cache, and the service. *)
Definition Client : Type := option CachedJwt * Apple.

(** [encode iat exp] signs the claims. *)
Definition jwt (now : Z) (cache : option CachedJwt)
    : result string DeviceCheckError * option CachedJwt :=
  let mint :=
    match encode now (now + JWT_TTL_SECS) with
    | Ok t => (Ok t, Some {| token := t; expires_at := now + JWT_TTL_SECS |})
    | Err e => (Err (Jwt e), cache)
    end in
  match cache with
  | Some cached =>
      if JWT_REFRESH_GRACE_SECS <? expires_at cached - now then (Ok (token cached), cache) else mint
  | None => mint
  end.

Definition try_call (endpoint : string) (device_token : bytes) (bits : option (bool * bool)) (a : Apple)
    : result bytes TryError * Apple :=
  let '(reply, a') := serve endpoint device_token bits a in
  (match reply with
   | SendFailed e => Err (Transient (Api (endpoint +:+ " request failed: " +:+ e)))
   | BodyFailed e => Err (Transient (Api (endpoint +:+ " body: " +:+ e)))
   | Replied status body =>
       if is_success status then Ok body
       else
         let err := Api (endpoint +:+ " rejected (" +:+ pretty status +:+ "): " +:+ lossy body) in
         Err (if is_server_error status then Transient err else Fatal err)
   end, a').

(** One attempt and [retries] more after transient failures. *)
Fixpoint call_attempts (retries : nat) (endpoint : string) (device_token : bytes)
    (bits : option (bool * bool)) (a : Apple) : result bytes DeviceCheckError * Apple :=
  let '(r, a') := try_call endpoint device_token bits a in
  match r with
  | Ok body => (Ok body, a')
  | Err (Fatal e) => (Err e, a')
  | Err (Transient e) =>
      match retries with
      | O => (Err e, a')
      | S retries' => call_attempts retries' endpoint device_token bits a'
      end
  end.

Definition call (now : Z) (endpoint : string) (device_token : bytes) (bits : option (bool * bool))
    (c : Client) : result bytes DeviceCheckError * Client :=
  let '(j, cache) := jwt now c.1 in
  match j with
  | Err e => (Err e, (cache, c.2))
  | Ok _ =>
      let '(r, a) := call_attempts MAX_RETRIES endpoint device_token bits c.2 in
      (r, (cache, a))
  end.

Definition query_bits (now : Z) (device_token : bytes) (c : Client)
    : result (option BitState) DeviceCheckError * Client :=
  let '(r, c') := call now "query_two_bits" device_token None c in
  (rbind r classify_query_response, c').

Definition already_used (now : Z) (device_token : bytes) (c : Client)
    : result bool DeviceCheckError * Client :=
  let '(r, c') := query_bits now device_token c in
  (rbind r (fun bits => Ok match bits with Some b => is_registered b | None => false end), c').

Definition register_device (now : Z) (device_token : bytes) (c : Client)
    : result unit DeviceCheckError * Client :=
  let '(r, c') := call now "update_two_bits" device_token (Some (false, true)) c in
  (rbind r (fun _ => Ok tt), c').

(** [device_check.rs]. *)
Definition evaluate (now : Z) (device_token : option bytes) (c : Client) : Verdict * Client :=
  match device_token with
  | None => (Inactive, c)
  | Some t =>
      let '(r, c') := already_used now t c in
      (match r with
       | Ok true => AlreadyUsed
       | Ok false => Available
       | Err e => Failed (error_text e)
       end, c')
  end.

(** ** Lemmas *)

(** Nothing the client sends un-marks a device. *)
Section marks.
Context {laws : AppleLaws bits_of_json}.

Definition client_bits (bits : option (bool * bool)) : Prop := bits = None \/ bits = Some (false, true).

Lemma call_attempts_persist d n endpoint t bits a :
  client_bits bits -> claimed d a -> claimed d (call_attempts n endpoint t bits a).2.
Proof.
  intros Hb. revert a; induction n as [|n IH]; intros a Hc; simpl; unfold try_call;
    pose proof (bits_persist d endpoint t bits a Hc Hb) as Hp;
    destruct (serve endpoint t bits a) as [reply a']; simpl in *; repeat destr_match; simplify_eq/=; auto.
Qed.

(** A successful call ends in a successful exchange, before which only calls that
    keep the marks were made. *)
Lemma call_attempts_Ok d n endpoint t bits a body a' :
  client_bits bits -> call_attempts n endpoint t bits a = (Ok body, a') ->
  exists a0 status, serve endpoint t bits a0 = (Replied status body, a') /\ is_success status = true /\
    (claimed d a -> claimed d a0).
Proof.
  intros Hb. revert a; induction n as [|n IH]; intros a; simpl; unfold try_call;
    pose proof (fun Hc => bits_persist d endpoint t bits a Hc Hb) as Hp;
    destruct (serve endpoint t bits a) as [reply a1] eqn:Es; simpl in *; intros Hr;
    repeat destr_match_in Hr; simplify_eq/=; eauto 10.
  all: apply IH in Hr as (a0 & st & ? & ? & ?); eauto 10.
Qed.

Lemma call_persist d now endpoint t bits c :
  client_bits bits -> claimed d c.2 -> claimed d (call now endpoint t bits c).2.2.
Proof.
  intros Hb Hc. unfold call. destruct (jwt now c.1) as [[j|e] cache]; [|done].
  pose proof (call_attempts_persist d MAX_RETRIES endpoint t bits c.2 Hb Hc).
  by destruct (call_attempts MAX_RETRIES endpoint t bits c.2).
Qed.

Lemma already_used_persist d now t c : claimed d c.2 -> claimed d (already_used now t c).2.2.
Proof.
  intros Hc. unfold already_used, query_bits.
  pose proof (call_persist d now "query_two_bits" t None c (or_introl eq_refl) Hc).
  by destruct (call now "query_two_bits" t None c).
Qed.

Lemma register_device_persist d now t c : claimed d c.2 -> claimed d (register_device now t c).2.2.
Proof.
  intros Hc. unfold register_device.
  pose proof (call_persist d now "update_two_bits" t _ c (or_intror eq_refl) Hc).
  by destruct (call now "update_two_bits" t _ c).
Qed.

(** A marked device is never read as fresh. *)
Lemma already_used_claimed now t c :
  claimed (device_of t) c.2 -> (already_used now t c).1 <> Ok false.
Proof.
  intros Hc. unfold already_used, query_bits, call.
  destruct (jwt now c.1) as [[j|e] cache]; [|done].
  destruct (call_attempts MAX_RETRIES "query_two_bits" t None c.2) as [[body|e] a'] eqn:Ec; [|done].
  apply (call_attempts_Ok (device_of t)) in Ec as (a0 & st & Hs & Hok & Hk); [|by left].
  pose proof (query_reports _ _ _ _ _ (Hk Hc) Hs Hok) as Hb.
  simpl. unfold classify_query_response. by rewrite Hb.
Qed.

(** A device reported as marked is marked. *)
Lemma register_device_marks now t c :
  (register_device now t c).1 = Ok tt -> claimed (device_of t) (register_device now t c).2.2.
Proof.
  unfold register_device, call. destruct (jwt now c.1) as [[j|e] cache]; [|done].
  destruct (call_attempts MAX_RETRIES "update_two_bits" t _ c.2) as [[body|e] a'] eqn:Ec; [|done].
  apply (call_attempts_Ok (device_of t)) in Ec as (a0 & st & Hs & Hok & _); [|by right].
  intros _. by eapply update_stores.
Qed.
End marks.

(** A token handed out outlives the refresh grace, and the cache holds the last
    token handed out. *)
Lemma jwt_fresh now cache t cache' :
  jwt now cache = (Ok t, cache') ->
  exists c, cache' = Some c /\ token c = t /\ JWT_REFRESH_GRACE_SECS < expires_at c - now.
Proof.
  unfold jwt, JWT_REFRESH_GRACE_SECS, JWT_TTL_SECS. intros Hj.
  repeat destr_match_in Hj; simplify_eq/=; bool_prop; eexists; (split; [done|]); simpl;
    (split; [done|]); lia.
Qed.
End client.

End DeviceCheck.
