(* ===== verification/WriterLane.v ===== *)
(** * WriterLane: the pure parts of the chain writer

    Outcomes and deferrals ([chain/writer/lane.rs]), errors
    ([chain/writer/error.rs]), the classification of refusals
    ([chain/writer/engine.rs]), the reading of extrinsic events
    ([chain/writer/events.rs], [chain-client/src/batch.rs]) and the adaptive
    batch size. *)

From S2P Require Import Prelude Strings Schema Lease Outbox.

#[local] Open Scope Z_scope.

Module WriterLane.

Export Outbox.

(** ** [error.rs] *)

Inductive Op :=
| Landing | Failing | Expiring | Retrying | Parking | Deferring
| OpSubmitting | Draining | Finalizing.

Definition Op_fmt (o : Op) : string :=
  match o with
  | Landing => "recording a row as landed"
  | Failing => "failing a row"
  | Expiring => "expiring a reservation"
  | Retrying => "scheduling a retry"
  | Parking => "parking a row"
  | Deferring => "re-queueing a batch"
  | OpSubmitting => "marking rows submitting"
  | Draining => "draining"
  | Finalizing => "awaiting finalization"
  end.

(** An [anyhow] or [sqlx] error is its rendering. *)
Inductive WriterError :=
| LeaseLost (op : Op)
| DbError (e : string)
| Chain (e : string).

Definition WriterError_fmt (e : WriterError) : string :=
  match e with
  | LeaseLost op => "lost the writer lease while " +:+ Op_fmt op
  | DbError e => e
  | Chain e => e
  end.

Definition is_lease_lost (e : WriterError) : bool :=
  match e with LeaseLost _ => true | _ => false end.

(** ** [lane.rs]: outcomes *)

Inductive Defer := DBatch | DSigner | DStaleNonce | DNotYet.

Inductive Outcome :=
| Landed
| Observed
| Retry (reason : string)
| Park (reason : string)
| Deferred (until : Z) (reason : string) (cause : Defer)
| OFailed (reason : string)
| OExpired (reason : string).

Definition is_landed (o : Outcome) : bool :=
  match o with Landed | Observed => true | _ => false end.

Inductive Gate :=
| GFailed (reason : string)
| GExpired (reason : string)
| GNotYet (until : Z) (reason : string).

Definition Gate_outcome (g : Gate) : Outcome :=
  match g with
  | GFailed reason => OFailed reason
  | GExpired reason => OExpired reason
  | GNotYet until reason => Deferred until reason DNotYet
  end.

(** ** [engine.rs]: classification *)

Definition ALREADY_REGISTERED : string := "PeopleLite::AlreadyRegistered".
Definition UNFUNDED_SIGNER : string := "Inability to pay some fees".
Definition UNFUNDED_PARK_BACKOFF_SECS : Z := 300.

Definition SIGNER_CONTENTION : list string :=
  ["Priority is too low";
   "priority of the transaction is too low";
   "too low priority";
   "Transaction Already Imported";
   "chainHead_follow emitted 'stop' event during transaction submission";
   "the connection was lost"]%string.

Definition SIGNER_CONTENTION_BACKOFF_SECS : Z := 30.
Definition STALE_NONCE : string := "Transaction is outdated".
Definition STALE_NONCE_BACKOFF_SECS : Z := 6.
Definition FINALIZE_TIMEOUT : string := "finalization timed out".

Definition is_signer_contention (reason : string) : bool :=
  contains FINALIZE_TIMEOUT reason || contains STALE_NONCE reason
  || existsb (fun refusal => contains refusal reason) SIGNER_CONTENTION.

Definition DETERMINISTIC_REJECTIONS : list string :=
  ["Resources::UsernameReservationTaken"; "Resources::QueueFull";
   "Resources::AlreadyHasReservation"]%string.

Definition is_deterministic_rejection (reason : string) : bool :=
  existsb (fun rejection => contains rejection reason) DETERMINISTIC_REJECTIONS.

Definition terminal_reason (reason : string) : string :=
  if is_deterministic_rejection reason
  then "rejected deterministically, not retried: " +:+ reason
  else "max attempts reached: " +:+ reason.

Inductive SubmitFailureAction := AAssign | APark | ARetry | ADefer | AFail.

#[export] Instance SubmitFailureAction_eq_dec : EqDecision SubmitFailureAction.
Proof. solve_decision. Defined.

Definition classify_submit_failure (reason : string) (observed_owner : option bytes)
    (candidate : bytes) (completed_attempts max_attempts : Z) : SubmitFailureAction :=
  if bool_decide (observed_owner = Some candidate) || contains ALREADY_REGISTERED reason then AAssign
  else if contains UNFUNDED_SIGNER reason then APark
  else if is_signer_contention reason then ADefer
  else if is_deterministic_rejection reason || (max_attempts <=? completed_attempts) then AFail
  else ARetry.

(** ** [lane.rs]: backoffs *)

Definition signer_defer_cause (reason : string) : Z * Defer :=
  if contains STALE_NONCE reason then (STALE_NONCE_BACKOFF_SECS, DStaleNonce)
  else (SIGNER_CONTENTION_BACKOFF_SECS, DSigner).

Definition signer_defer (now : Z) (reason : string) : Outcome :=
  let '(backoff, cause) := signer_defer_cause reason in
  Deferred (now + secs backoff) reason cause.

Definition park_until (now : Z) : Z := now + secs UNFUNDED_PARK_BACKOFF_SECS.

Definition row_backoff (attempt : Z) : Z := i64_saturating_pow2 (clamp 0 6 attempt).

(** ** [events.rs] and [batch.rs] *)

Record ChainEvent := {
  pallet_name : string;
  event_name : string;
  field_bytes : bytes;
}.

(** [batch_item_results]: one result per item event, in order. *)
Definition batch_item_results (events : list ChainEvent) : list (result unit ChainEvent) :=
  omap (fun event =>
    if String.eqb (pallet_name event) "Utility" then
      if String.eqb (event_name event) "ItemCompleted" then Some (Ok tt)
      else if String.eqb (event_name event) "ItemFailed" then Some (Err event)
      else None
    else None) events.

(** [settle_batch_size]: additive increase, multiplicative decrease. *)
Definition settle_batch_size (current max : Z) (succeeded : bool) : Z :=
  if succeeded then Z.min (u16_saturating_add current 1) max
  else Z.max (current / 2) 1.

Section events.
(** The rendering of a dispatch error against the runtime metadata. *)
Context (describe : bytes -> string).

Definition check_dispatch_result (field_bytes : bytes) : result unit string :=
  match field_bytes with
  | 0 :: _ => Ok tt
  | 1 :: error => Err ("proxied call failed: " +:+ describe error)
  | _ => Err "ProxyExecuted's result is not a Result<(), DispatchError>"
  end.

(** An event that does not decode is an [Err]. *)
Fixpoint check_proxied_call (events : list (result ChainEvent string)) : result unit string :=
  match events with
  | [] => Ok tt
  | Err _ :: _ => Err "decoding events"
  | Ok event :: rest =>
      if String.eqb (pallet_name event) "Proxy" && String.eqb (event_name event) "ProxyExecuted" then
        match check_dispatch_result (field_bytes event) with
        | Ok _ => check_proxied_call rest
        | Err e => Err e
        end
      else check_proxied_call rest
  end.

Fixpoint decode_all (events : list (result ChainEvent string)) : result (list ChainEvent) string :=
  match events with
  | [] => Ok []
  | Err _ :: _ => Err "decoding batch events"
  | Ok event :: rest =>
      match decode_all rest with
      | Ok l => Ok (event :: l)
      | Err e => Err e
      end
  end.

Definition item_results (events : list (result ChainEvent string))
    : result (list (result unit string)) string :=
  match decode_all events with
  | Err e => Err e
  | Ok decoded =>
      Ok (map_err (fun event => describe (field_bytes event)) <$> batch_item_results decoded)
  end.
End events.

(** ** [BatchLane] *)

Definition CEILING_PROBE_RUN : Z := 20.

Record BatchLane := {
  size : Z;
  max : Z;
  failures : Z;
  ceiling : option Z;
  clean : Z;
}.

Definition BatchLane_new (m : Z) : BatchLane :=
  let m := Z.max m 1 in
  {| size := m; max := m; failures := 0; ceiling := None; clean := 0 |}.

Definition grow_limit (ceiling : option Z) (max : Z) : Z :=
  match ceiling with
  | Some c => Z.max (Z.min max (u16_saturating_sub c 1)) 1
  | None => max
  end.

Definition succeeded (l : BatchLane) : BatchLane :=
  let clean1 := u16_saturating_add (clean l) 1 in
  let '(clean2, ceiling2) :=
    if CEILING_PROBE_RUN <=? clean1 then
      (0, match ceiling l with
          | Some c => if c <? max l then Some (c + 1) else None
          | None => None
          end)
    else (clean1, ceiling l) in
  {| size := settle_batch_size (size l) (grow_limit ceiling2 (max l)) true;
     max := max l; failures := 0; ceiling := ceiling2; clean := clean2 |}.

(** [failed] also returns the shared backoff, in seconds. *)
Definition failed (l : BatchLane) : Z * BatchLane :=
  let attempted := size l in
  let size1 := settle_batch_size (size l) (max l) false in
  let ceiling1 :=
    if size1 <? attempted then
      Some (match ceiling l with Some c => Z.min c attempted | None => attempted end)
    else ceiling l in
  let failures1 := u16_saturating_add (failures l) 1 in
  (i64_saturating_pow2 (clamp 1 6 failures1),
   {| size := size1; max := max l; failures := failures1; ceiling := ceiling1; clean := 0 |}).

(** What every reachable lane satisfies. *)
Record lane_ok (l : BatchLane) : Prop := {
  lo_size : 1 <= size l <= max l;
  lo_max : 1 <= max l <= U16_MAX;
  lo_failures : 0 <= failures l <= U16_MAX;
  lo_clean : 0 <= clean l < CEILING_PROBE_RUN;
  lo_ceiling : forall c, ceiling l = Some c -> 2 <= c <= max l /\ size l < c;
}.

Lemma new_ok m : 0 <= m <= U16_MAX -> lane_ok (BatchLane_new m).
Proof. intros Hm. unfold U16_MAX in *. split; simpl; unfold U16_MAX, CEILING_PROBE_RUN; try lia. done. Qed.

Lemma succeeded_ok l : lane_ok l -> lane_ok (succeeded l).
Proof.
  intros [Hs Hm Hf Hc Hceil].
  unfold succeeded, settle_batch_size, u16_saturating_add, CEILING_PROBE_RUN, U16_MAX in *.
  destruct (20 <=? _) eqn:E; bool_prop; simpl.
  - destruct (ceiling l) as [c|].
    + destruct (Hceil c eq_refl). destruct (c <? max l) eqn:Ec; bool_prop; split; simpl;
        unfold u16_saturating_sub, CEILING_PROBE_RUN, U16_MAX; try lia; intros; simplify_eq; lia.
    + split; simpl; unfold CEILING_PROBE_RUN, U16_MAX; try lia; done.
  - destruct (ceiling l) as [c|].
    + destruct (Hceil c eq_refl). split; simpl;
        unfold u16_saturating_sub, CEILING_PROBE_RUN, U16_MAX; try lia; intros; simplify_eq; lia.
    + split; simpl; unfold CEILING_PROBE_RUN, U16_MAX; try lia; done.
Qed.

Lemma half_spec s : 1 <= s -> 1 <= Z.max (s / 2) 1 <= s /\ (1 < s -> Z.max (s / 2) 1 < s).
Proof.
  intros Hs. pose proof (Z.div_lt_upper_bound s 2 s ltac:(lia)). 
  pose proof (Z.div_pos s 2). split; [|lia]. lia.
Qed.

Lemma failed_ok l : lane_ok l -> lane_ok (failed l).2.
Proof.
  intros [Hs Hm Hf Hc Hceil]. pose proof (half_spec (size l) ltac:(lia)) as [Hh Hlt].
  unfold failed, settle_batch_size, u16_saturating_add, U16_MAX in *. simpl.
  split; simpl; unfold CEILING_PROBE_RUN, U16_MAX; try lia.
  intros c. destruct (_ <? size l) eqn:E; bool_prop.
  - intros [= <-]. destruct (ceiling l) as [c'|]; [destruct (Hceil c' eq_refl)|]; lia.
  - intros Heq. destruct (Hceil c Heq). lia.
Qed.

Lemma failed_backoff l : lane_ok l -> 2 <= (failed l).1 <= 64.
Proof.
  intros [Hs Hm Hf Hc Hceil]. unfold failed, i64_saturating_pow2, clamp, u16_saturating_add, I64_MAX, U16_MAX in *.
  simpl. set (n := Z.max 1 _). assert (1 <= n <= 6) as Hn by lia. clearbody n.
  assert (n = 1 \/ n = 2 \/ n = 3 \/ n = 4 \/ n = 5 \/ n = 6) as H by lia.
  destruct H as [->|[->|[->|[->|[->| ->]]]]]; vm_compute; split; discriminate.
Qed.

(** A history of passes. *)
Definition lane_event (l : BatchLane) (ok : bool) : BatchLane :=
  if ok then succeeded l else (failed l).2.

Lemma lane_events_ok l evs : lane_ok l -> lane_ok (foldl lane_event l evs).
Proof.
  revert l; induction evs as [|[] evs IH]; intros l Hl; simpl; [done|..]; apply IH;
    [by apply succeeded_ok|by apply failed_ok].
Qed.

Lemma lane_event_max l b : max (lane_event l b) = max l.
Proof. destruct b; [|done]. simpl. unfold succeeded. by destr_match. Qed.

(** How far a lane is from its full size. *)
Definition distance (l : BatchLane) : Z :=
  match ceiling l with
  | Some c => (max l - c + 1) * CEILING_PROBE_RUN + (CEILING_PROBE_RUN - clean l) + max l
  | None => max l - size l
  end.

Lemma succeeded_progress l :
  lane_ok l -> 0 < distance l ->
  0 <= distance (succeeded l) < distance l.
Proof.
  intros Hok Hd. pose proof (succeeded_ok l Hok) as Hok'.
  destruct Hok as [Hs Hm Hf Hc Hceil], Hok' as [Hs' Hm' _ Hc' Hceil'].
  revert Hs' Hm' Hc' Hceil'.
  unfold distance, succeeded, settle_batch_size, u16_saturating_add, CEILING_PROBE_RUN, U16_MAX in *.
  destruct (ceiling l) as [c|]; [destruct (Hceil c eq_refl)|];
    (destruct (20 <=? Z.min 65535 (clean l + 1)) eqn:E; bool_prop; simpl;
     [try (destruct (c <? max l) eqn:Ec; bool_prop; simpl)|]); intros Hs' Hm' Hc' Hceil'; lia.
Qed.

Lemma distance_0 l : lane_ok l -> distance l = 0 -> size l = max l /\ ceiling l = None.
Proof.
  intros [Hs Hm Hf Hc Hceil]. unfold distance, CEILING_PROBE_RUN in *.
  destruct (ceiling l) as [c|]; [destruct (Hceil c eq_refl); lia|]. intros; split; [lia|done].
Qed.

Lemma distance_nonneg l : lane_ok l -> 0 <= distance l.
Proof.
  intros [Hs Hm Hf Hc Hceil]. unfold distance, CEILING_PROBE_RUN in *.
  destruct (ceiling l) as [c|]; [destruct (Hceil c eq_refl)|]; lia.
Qed.

(** ** Properties *)

(** The adaptive batch size stays in bounds under any history of batch
    successes and failures: between 1 and the configured maximum, strictly below
    the smallest size known to fail, with every shared backoff between 2 and 64
    seconds and no counter leaving [u16]. *)
Theorem batch_lane_invariant m evs :
  0 <= m <= U16_MAX ->
  let l := foldl lane_event (BatchLane_new m) evs in
  lane_ok l /\ 2 <= (failed l).1 <= 64.
Proof.
  intros Hm l. assert (lane_ok l) by (by apply lane_events_ok, new_ok).
  split; [done|by apply failed_backoff].
Qed.

(** A lane recovers: whatever history it has been through, a long enough run
    of successes brings it back to its full size with no ceiling left. *)
Theorem batch_lane_recovers m evs :
  0 <= m <= U16_MAX ->
  exists n, let l := foldl lane_event (BatchLane_new m) (evs ++ replicate n true) in
    size l = Z.max m 1 /\ ceiling l = None.
Proof.
  intros Hm. assert (lane_ok (foldl lane_event (BatchLane_new m) evs)) as Hok
    by (by apply lane_events_ok, new_ok).
  assert (max (foldl lane_event (BatchLane_new m) evs) = Z.max m 1) as Hmax.
  { clear Hok. change (Z.max m 1) with (max (BatchLane_new m)). generalize (BatchLane_new m).
    induction evs as [|b evs IH]; intros l; simpl; [done|]. by rewrite IH, lane_event_max. }
  cut (exists n, let l := foldl lane_event (foldl lane_event (BatchLane_new m) evs) (replicate n true) in
         size l = Z.max m 1 /\ ceiling l = None).
  { intros [n Hn]. exists n. by rewrite foldl_app. }
  revert Hok Hmax.
  generalize (foldl lane_event (BatchLane_new m) evs). intros l Hok Hmax. rewrite <-Hmax.
  clear Hm Hmax. pose proof (distance_nonneg l Hok) as Hd.
  remember (Z.to_nat (distance l)) as d eqn:Ed. revert l Hok Hd Ed.
  induction d as [d IH] using lt_wf_ind; intros l Hok Hd Ed.
  destruct (Z.eq_dec (distance l) 0) as [H0|Hne].
  { exists 0%nat. simpl. by apply distance_0. }
  destruct (succeeded_progress l Hok ltac:(lia)) as [Hp1 Hp2].
  destruct (IH (Z.to_nat (distance (succeeded l))) ltac:(lia) (succeeded l)) as [n Hn];
    [by apply succeeded_ok|done|done|].
  exists (S n). simpl. rewrite <-(lane_event_max l true). exact Hn.
Qed.

(** A refusal that belongs to the signer never kills a row: whatever the
    attempt budget, a contention or stale-nonce refusal, a finalization timeout or
    an unfunded signer neither fails nor retries the row (both of which spend
    attempts), unless the chain already shows the row as landed. *)
Theorem signer_refusals_spend_nothing reason owner cand done_ max_ :
  is_signer_contention reason = true \/ contains UNFUNDED_SIGNER reason = true ->
  let a := classify_submit_failure reason owner cand done_ max_ in
  a = AAssign \/ a = APark \/ a = ADefer.
Proof.
  unfold classify_submit_failure. intros H.
  destruct (_ || contains ALREADY_REGISTERED reason); [by left|].
  destruct (contains UNFUNDED_SIGNER reason); [by right; left|].
  destruct H as [->|?]; [by right; right|done].
Qed.

(** A lost lease is never mistaken for a chain verdict: the rendering of
    every [LeaseLost] error classifies as an ordinary retry (or as exhausted
    attempts), never as a landing, a park or a deferral. *)
Theorem lease_lost_is_not_a_refusal op cand done_ max_ :
  classify_submit_failure (WriterError_fmt (LeaseLost op)) None cand done_ max_ =
  if max_ <=? done_ then AFail else ARetry.
Proof. destruct op; vm_compute; by destruct (max_ <=? done_). Qed.

(** *** Witnesses *)

Lemma batch_lane_invariant_witness :
  lane_ok (foldl lane_event (BatchLane_new 25) [false; false; true]).
Proof. refine (proj1 (batch_lane_invariant 25 [false; false; true] _)). vm_compute. split; discriminate. Defined.

Lemma batch_lane_recovers_witness :
  exists n, let l := foldl lane_event (BatchLane_new 25) ([false; false; true] ++ replicate n true) in
    size l = 25 /\ ceiling l = None.
Proof. apply (batch_lane_recovers 25 [false; false; true]). vm_compute. split; discriminate. Defined.

Lemma signer_refusals_spend_nothing_witness :
  classify_submit_failure "Priority is too low: (278 vs 278)" None [7] 9 8 <> AFail.
Proof.
  destruct (signer_refusals_spend_nothing "Priority is too low: (278 vs 278)" None [7] 9 8
    (or_introl eq_refl)) as [H|[H|H]]; rewrite H; discriminate.
Defined.

End WriterLane.
