(* ===== verification/WriterTx.v ===== *)
(** * WriterTx: the calls the writer submits ([chain/writer/tx.rs])

    [Value] is the dynamic call value of [subxt]; a payload is a pallet, a call
    and its arguments. *)

From S2P Require Import Prelude Strings Schema Lease Outbox.

#[local] Open Scope Z_scope.
#[local] Open Scope string_scope.

Module WriterTx.

Export Outbox.

Inductive Value :=
| from_bytes (b : bytes)
| u128 (n : Z)
| unnamed_variant (name : string) (fields : list Value)
| unnamed_composite (fields : list Value)
| named_composite (fields : list (string * Value)).

(** [DynamicPayload<Vec<Value>>]. *)
Record Payload := tx {
  tx_pallet : string;
  tx_call : string;
  tx_args : list Value;
}.

Abbreviation Claimed := (Reservation * bytes)%type.

Definition sr25519_signature (b : bytes) : Value := unnamed_variant "Sr25519" [from_bytes b].

Definition optional_name (name : option string) : Value :=
  match name with
  | Some n => unnamed_variant "Some" [from_bytes (as_bytes n)]
  | None => unnamed_variant "None" []
  end.

Definition attest_args (r : Reservation) (candidate : bytes) : list Value :=
  let consumer := named_composite
    [("signature", sr25519_signature (consumer_registration_signature r));
     ("account", from_bytes candidate);
     ("identifier_key", from_bytes (identifier_key r));
     ("username", from_bytes (as_bytes (full_username r)));
     ("reserved_username", optional_name (reserved_username r))] in
  [from_bytes candidate;
   sr25519_signature (candidate_signature r);
   from_bytes (ring_vrf_key r);
   from_bytes (proof_of_ownership r);
   unnamed_variant "Some" [consumer]].

Definition attest_call (r : Reservation) (candidate : bytes) : Value :=
  unnamed_variant "PeopleLite" [unnamed_variant "attest" (attest_args r candidate)].

Definition force_batch_call (calls : Value) : Value :=
  unnamed_variant "Utility" [unnamed_variant "force_batch" [calls]].

Definition build_registration_tx (r : Reservation) (candidate : bytes) (proxy_for : option bytes)
    : Payload :=
  match proxy_for with
  | Some real =>
      tx "Proxy" "proxy"
        [unnamed_variant "Id" [from_bytes real]; unnamed_variant "None" [];
         attest_call r candidate]
  | None => tx "PeopleLite" "attest" (attest_args r candidate)
  end.

Definition build_registration_batch_tx (rows : list Claimed) (proxy_for : option bytes) : Payload :=
  let calls := unnamed_composite ((fun rc : Claimed => attest_call rc.1 rc.2) <$> rows) in
  match proxy_for with
  | Some real =>
      tx "Proxy" "proxy"
        [unnamed_variant "Id" [from_bytes real]; unnamed_variant "None" [];
         force_batch_call calls]
  | None => tx "Utility" "force_batch" [calls]
  end.

Definition reserve_name_args (r : Reservation) (candidate : bytes) : list Value :=
  [from_bytes candidate;
   sr25519_signature (match dotns_signature r with Some s => s | None => [] end);
   from_bytes (as_bytes (full_username r));
   from_bytes (identifier_key r);
   optional_name (reserved_username r);
   u128 (Z.abs (match dotns_signed_at r with Some t => t | None => 0 end))].

Definition reserve_name_call (r : Reservation) (candidate : bytes) : Value :=
  unnamed_variant "DotnsGateway" [unnamed_variant "reserve_name" (reserve_name_args r candidate)].

Definition build_reserve_name_tx (r : Reservation) (candidate : bytes) (proxy_for : option bytes)
    : Payload :=
  match proxy_for with
  | Some real =>
      tx "Proxy" "proxy"
        [unnamed_variant "Id" [from_bytes real]; unnamed_variant "None" [];
         reserve_name_call r candidate]
  | None => tx "DotnsGateway" "reserve_name" (reserve_name_args r candidate)
  end.

Definition build_reserve_name_batch_tx (rows : list Claimed) (proxy_for : option bytes) : Payload :=
  let calls := unnamed_composite ((fun rc : Claimed => reserve_name_call rc.1 rc.2) <$> rows) in
  match proxy_for with
  | Some real =>
      tx "Proxy" "proxy"
        [unnamed_variant "Id" [from_bytes real]; unnamed_variant "None" [];
         force_batch_call calls]
  | None => tx "Utility" "force_batch" [calls]
  end.

(** ** What the chain executes

    The calls a payload dispatches as the attester, in order: a [Proxy.proxy]
    runs its inner call, a [force_batch] its calls one by one. *)

Definition unwrap_proxy (p : Payload) : option Value :=
  match p with
  | {| tx_pallet := "Proxy"; tx_call := "proxy"; tx_args := [_; _; inner] |} => Some inner
  | {| tx_pallet := pallet; tx_call := call; tx_args := args |} =>
      Some (unnamed_variant pallet [unnamed_variant call args])
  end.

Definition dispatched (p : Payload) : list Value :=
  match unwrap_proxy p with
  | Some (unnamed_variant "Utility" [unnamed_variant "force_batch" [unnamed_composite calls]]) => calls
  | Some call => [call]
  | None => []
  end.

(** The account a dispatched [attest] or [reserve_name] call binds, and its
    name. *)
Definition call_target (v : Value) : option (bytes * bytes) :=
  match v with
  | unnamed_variant "PeopleLite"
      [unnamed_variant "attest"
         [from_bytes who; _; _; _;
          unnamed_variant "Some" [named_composite [_; _; _; (_, from_bytes name); _]]]] =>
      Some (who, name)
  | unnamed_variant "DotnsGateway"
      [unnamed_variant "reserve_name" [from_bytes who; _; from_bytes name; _; _; _]] =>
      Some (who, name)
  | _ => None
  end.

Lemma dispatched_registrations rows proxy_for :
  dispatched (build_registration_batch_tx rows proxy_for) =
  (fun rc : Claimed => attest_call rc.1 rc.2) <$> rows.
Proof. by destruct proxy_for. Qed.

Lemma dispatched_reserve_names rows proxy_for :
  dispatched (build_reserve_name_batch_tx rows proxy_for) =
  (fun rc : Claimed => reserve_name_call rc.1 rc.2) <$> rows.
Proof. by destruct proxy_for. Qed.

(** ** Properties *)

(** Item [i] of a batch is row [i]: whether or not the call is proxied, the
    extrinsic dispatches exactly one call per claimed row, in the rows' order,
    each for that row's candidate and username, on both lanes.  This is what
    makes the positional reading of the item events sound. *)
Theorem batch_is_positional rows proxy_for :
  (call_target <$> dispatched (build_registration_batch_tx rows proxy_for)) =
    (fun rc : Claimed => Some (rc.2, as_bytes (full_username rc.1))) <$> rows /\
  (call_target <$> dispatched (build_reserve_name_batch_tx rows proxy_for)) =
    (fun rc : Claimed => Some (rc.2, as_bytes (full_username rc.1))) <$> rows.
Proof.
  rewrite dispatched_registrations, dispatched_reserve_names, <-!list_fmap_compose.
  split; by apply list_fmap_ext.
Qed.

(** Proxying changes who pays and signs, not what is registered: a single
    row's extrinsic dispatches the same call with and without a proxy, and it is
    the call the row would be given inside a batch. *)
Theorem single_matches_batch r candidate proxy_for :
  dispatched (build_registration_tx r candidate proxy_for) =
    dispatched (build_registration_batch_tx [(r, candidate)] proxy_for) /\
  dispatched (build_reserve_name_tx r candidate proxy_for) =
    dispatched (build_reserve_name_batch_tx [(r, candidate)] proxy_for).
Proof. by destruct proxy_for. Qed.

End WriterTx.
