(* ===== verification/WriterEngine.v ===== *)
(** * WriterEngine: one claimed set of one lane, drained onto its chain
    ([chain/writer/engine.rs])

    The engine is written once over the interface [Lane] and runs on a state of
    the database, the world, the drain of the lane, and a trace of what was
    observed and recorded.  The world is a parameter: it answers every chain
    read, decides the fate of every statement, moves both clocks, and lets other
    processes change the database between two statements of the writer.  Every
    effect moves the world one step. *)

From stdpp Require Import pretty.
From S2P Require Import Prelude Strings Schema Lease Outbox WriterLane WriterTx.

#[local] Open Scope Z_scope.

Module WriterEngine.

Export WriterLane WriterTx.

(** ** The world *)

Inductive ChainId := PeopleChain | AssetHub.

(** How the wait for finalization ends; [wait_for_success]'s error is the
    dispatch error of the outer extrinsic. *)
Inductive WaitEnd :=
| Finalized (events : result (list (result ChainEvent string)) string)
| TimedOut.

Class World (W : Type) := {
  w_next : W -> W;
  w_now : W -> Z;
  w_app_now : W -> Z;
  w_fate : W -> DbFate;
  w_db_error : W -> string;
  w_interfere : W -> Db -> Db;
  w_owner : ChainId -> W -> string -> result (option bytes) string;
  w_owners : ChainId -> W -> list string -> result (gmap string bytes) string;
  w_nonce : ChainId -> W -> result Z string;
  w_sign : ChainId -> W -> Payload -> Z -> result string string;
  w_broadcast : ChainId -> W -> result unit string;
  w_finality : ChainId -> W -> nat * WaitEnd;
}.

(** What the writer saw and what it recorded. *)
Inductive Obs :=
| SawOwners (owners : gmap string bytes)
| SawOwner (name : string) (owner : option bytes)
| SawFinalized (rows : list Claimed) (events : list (result ChainEvent string))
| SawRefusal (rows : list Claimed) (reason : string)
| DidClaim (rs : list Reservation)
| DidRecord (r : Reservation) (o : Outcome).

(** What the chain said, as opposed to what the writer did. *)
Definition of_chain (o : Obs) : bool :=
  match o with DidClaim _ | DidRecord _ _ => false | _ => true end.

(** ** The lane interface ([lane.rs], [link.rs]) *)

Class Lane (W Link Ctx : Type) := {
  lane_chain : ChainId;
  OWNED_ELSEWHERE : string;
  RECONCILED : string;
  NONCE_FETCH : string;
  lane_attempt : Reservation -> Z;
  lane_claim : Z -> Z -> Db -> option (list Reservation);
  lane_submitting : Db -> option (list Reservation);
  lane_gate : Reservation -> Ctx -> Z -> Z -> result bytes Gate;
  lane_tx : list Claimed -> option bytes -> Payload;
  lane_mark : Z -> Guard -> Reservation -> string -> Z -> Db -> bool * Db;
  lane_record : Z -> Z -> Guard -> Reservation -> Outcome -> Db -> result unit Op * Db;
  link_up : W -> Link -> bool * Link;
  link_ctx : W -> Link -> result Ctx string;
}.

Record Cx := {
  guard : Guard;
  proxy_for : option bytes;
  max_attempts : Z;
  cx_lease_ttl : Z;
}.

Definition BATCH_RECONCILE_BACKOFF : Z := 10.
Definition RECONCILE_READ_CHUNK : nat := 50.

Section engine.
Context {W Link Ctx : Type} `{!World W, !Lane W Link Ctx}.
(** [AccountId32::from_str] of the [subxt] crate, and the rendering of dispatch
    errors. *)
Context (account_from_str : string -> option bytes) (describe : bytes -> string).
Context (cx : Cx).

Record Drain := {
  d_batch : BatchLane;
  d_nonce : option Z;
  d_link : Link;
}.

Record St := {
  st_db : Db;
  st_w : W;
  st_trace : list Obs;
  st_drain : Drain;
}.

(** ** The effects *)

Definition M (E A : Type) : Type := St -> result A E * St.

#[global] Instance M_ret {E} : MRet (M E) := fun A a st => (Ok a, st).
#[global] Instance M_bind {E} : MBind (M E) := fun A B k m st =>
  match m st with
  | (Ok a, st') => k a st'
  | (Err e, st') => (Err e, st')
  end.

Definition throw {E A} (e : E) : M E A := fun st => (Err e, st).
Definition lift_err {E F A} (f : E -> F) (m : M E A) : M F A := fun st =>
  let '(r, st') := m st in (map_err f r, st').
Definition try {E F A} (m : M E A) : M F (result A E) := fun st =>
  let '(r, st') := m st in (Ok r, st').

Fixpoint for_each {E X} (f : X -> M E unit) (l : list X) : M E unit :=
  match l with
  | [] => mret tt
  | x :: l' => f x ≫= fun _ => for_each f l'
  end.

Definition get_drain {E} : M E Drain := fun st => (Ok (st_drain st), st).
Definition set_drain {E} (d : Drain) : M E unit := fun st =>
  (Ok tt, {| st_db := st_db st; st_w := st_w st; st_trace := st_trace st; st_drain := d |}).
Definition app_now {E} : M E Z := fun st => (Ok (w_app_now (st_w st)), st).

(** One statement: other processes may have moved the database since the last
    one; the statement then runs at the database's clock and meets its fate. *)
Definition stmt {A} (f : Z -> Db -> A * Db) : M WriterError A := fun st =>
  let w := st_w st in
  let '(r, db') := run_stmt (w_fate w) (f (w_now w)) (w_interfere w (st_db st)) in
  (match r with Some a => Ok a | None => Err (DbError (w_db_error w)) end,
   {| st_db := db'; st_w := w_next w; st_trace := st_trace st; st_drain := st_drain st |}).

(** A chain read, logged. *)
Definition ask {A} (q : W -> result A string) (log : A -> list Obs) : M string A := fun st =>
  let w := st_w st in
  let r := q w in
  (r, {| st_db := st_db st; st_w := w_next w;
         st_trace := (match r with Ok a => log a | Err _ => [] end) ++ st_trace st;
         st_drain := st_drain st |}).

Definition observe {E} (o : Obs) : M E unit := fun st =>
  (Ok tt, {| st_db := st_db st; st_w := w_next (st_w st); st_trace := o :: st_trace st;
             st_drain := st_drain st |}).

Definition log {E} (o : Obs) : M E unit := fun st =>
  (Ok tt, {| st_db := st_db st; st_w := st_w st; st_trace := o :: st_trace st;
             st_drain := st_drain st |}).

(** ** The lease and finalization *)

Definition renew_lease (now : Z) (db : Db) : bool * Db :=
  let '(ok, t) := renew now (guard cx) (cx_lease_ttl cx) (db_leases db) in (ok, with_leases t db).

Definition heartbeat : M WriterError bool := stmt renew_lease.

Definition hold : M WriterError unit :=
  ok ← heartbeat; if (ok : bool) then mret tt else throw (LeaseLost Draining).

Fixpoint renew_ticks (n : nat) : M string unit :=
  match n with
  | O => mret tt
  | S n' =>
      ok ← lift_err WriterError_fmt heartbeat;
      if (ok : bool) then renew_ticks n' else throw (WriterError_fmt (LeaseLost Finalizing))
  end.

(** The renewal ticks that fire before the wait ends, then its end. *)
Definition finalize (rows : list Claimed) : M string (list (result ChainEvent string)) :=
  e ← ask (fun w => Ok (w_finality lane_chain w)) (fun _ => []);
  _ ← renew_ticks e.1;
  match e.2 with
  | TimedOut => throw FINALIZE_TIMEOUT
  | Finalized (Err e) => throw e
  | Finalized (Ok events) => _ ← observe (SawFinalized rows events); mret events
  end.

(** ** The lane's submissions ([people.rs], [dotns.rs]) *)

Definition mark (r : Reservation) (tx_hash : string) (nonce : Z) : M WriterError unit :=
  ok ← stmt (fun now => lane_mark now (guard cx) r tx_hash nonce);
  if (ok : bool) then mret tt else throw (LeaseLost OpSubmitting).

Definition submit (rows : list Claimed) (nonce : Z) : M string (list (result ChainEvent string)) :=
  tx_hash ← ask (fun w => w_sign lane_chain w (lane_tx rows (proxy_for cx)) nonce) (fun _ => []);
  _ ← for_each (fun rc : Claimed => lift_err WriterError_fmt (mark rc.1 tx_hash nonce)) rows;
  _ ← ask (fun w => w_broadcast lane_chain w) (fun _ => []);
  finalize rows.

Definition of_result {E A} (r : result A E) : M E A := fun st => (r, st).

Definition submit_one (nonce : Z) (rc : Claimed) : M string unit :=
  events ← submit [rc] nonce;
  of_result (check_proxied_call describe events).

Definition submit_batch (nonce : Z) (rows : list Claimed) : M string (list (result unit string)) :=
  events ← submit rows nonce;
  _ ← of_result (check_proxied_call describe events);
  of_result (item_results describe events).

(** [L::record]: the row's new state, one statement or one transaction. *)
Definition record (r : Reservation) (o : Outcome) : M WriterError unit := fun st =>
  let app := w_app_now (st_w st) in
  (res ← stmt (fun now => lane_record now app (guard cx) r o);
   match res with
   | Ok _ => log (DidRecord r o)
   | Err op => throw (LeaseLost op)
   end) st.

(** ** The drain *)

Definition set_nonce {E} (n : option Z) : M E unit :=
  d ← get_drain;
  set_drain {| d_batch := d_batch d; d_nonce := n; d_link := d_link d |}.
Definition set_batch {E} (b : BatchLane) : M E unit :=
  d ← get_drain;
  set_drain {| d_batch := b; d_nonce := d_nonce d; d_link := d_link d |}.

Definition next_nonce : M string Z :=
  d ← get_drain;
  match d_nonce d with
  | Some n => mret n
  | None => n ← ask (w_nonce lane_chain) (fun _ => []); _ ← set_nonce (Some n); mret n
  end.

Definition link_up_m : M WriterError bool := fun st =>
  let '(ok, l) := link_up (st_w st) (d_link (st_drain st)) in
  (Ok ok, {| st_db := st_db st; st_w := w_next (st_w st); st_trace := st_trace st;
             st_drain := {| d_batch := d_batch (st_drain st); d_nonce := d_nonce (st_drain st);
                            d_link := l |} |}).

Definition read_rows (f : Z -> Db -> option (list Reservation)) : M WriterError (list Reservation) :=
  rs ← stmt (fun now db => (f now db, db));
  match rs with
  | Some l => _ ← log (DidClaim l); mret l
  | None => throw (DbError "column decode")
  end.

Definition owners (names : list string) : M string (gmap string bytes) :=
  ask (fun w => w_owners lane_chain w names) (fun m => [SawOwners m]).

Definition owner (name : string) : M string (option bytes) :=
  ask (fun w => w_owner lane_chain w name) (fun o => [SawOwner name o]).

Definition defer (rows : list Reservation) (backoff : Z) (reason : string) : M WriterError unit :=
  now ← app_now;
  for_each (fun r => record r (Deferred (now + secs backoff) reason DBatch)) rows.

Definition retry_batch (rows : list Reservation) (reason : string) : M WriterError unit :=
  d ← get_drain;
  let '(backoff, b) := failed (d_batch d) in
  _ ← set_batch b;
  defer rows backoff reason.

Definition defer_reconciled (rows : list Claimed) (reason : string) : M WriterError unit :=
  defer rows.*1 BATCH_RECONCILE_BACKOFF reason.

Definition settle (rc : Claimed) (observed : option bytes) (reason : string) : M WriterError unit :=
  let '(r, candidate) := rc in
  now ← app_now;
  record r match classify_submit_failure reason observed candidate (lane_attempt r + 1)
                   (max_attempts cx) with
           | AAssign => Landed
           | APark => Park reason
           | ARetry => Retry reason
           | ADefer => signer_defer now reason
           | AFail => OFailed (terminal_reason reason)
           end.

(** Record the landed rows as [o], return the others. *)
Fixpoint landed_or (owners : gmap string bytes) (o : Outcome) (rows : list Claimed)
    : M WriterError (list Claimed) :=
  match rows with
  | [] => mret []
  | (r, candidate) :: rows' =>
      if bool_decide (owners !! full_username r = Some candidate) then
        _ ← record r o; landed_or owners o rows'
      else
        rest ← landed_or owners o rows'; mret ((r, candidate) :: rest)
  end.

Definition reconcile_batch (rows : list Claimed) (reason : string) : M WriterError unit :=
  res ← try (owners ((fun rc : Claimed => full_username rc.1) <$> rows));
  match res with
  | Err e => defer_reconciled rows (reason +:+ "; owner read failed: " +:+ e)
  | Ok own =>
      unlanded ← landed_or own Landed rows;
      match (unlanded : list Claimed) with
      | [] => mret tt
      | _ => defer_reconciled unlanded reason
      end
  end.

Fixpoint apply_items (own : gmap string bytes) (rows : list Claimed)
    (items : list (result unit string)) : M WriterError unit :=
  match rows, items with
  | rc :: rows', Ok _ :: items' => _ ← record rc.1 Landed; apply_items own rows' items'
  | rc :: rows', Err reason :: items' =>
      _ ← settle rc (own !! full_username rc.1) reason; apply_items own rows' items'
  | _, _ => mret tt
  end.

Definition failed_names (rows : list Claimed) (items : list (result unit string)) : list string :=
  omap (fun p : Claimed * result unit string =>
    match p.2 with Err _ => Some (full_username p.1.1) | Ok _ => None end) (zip rows items).

Definition apply_results (rows : list Claimed) (items : list (result unit string))
    : M WriterError unit :=
  if negb (length items =? length rows)%nat then
    reconcile_batch rows "batch item events did not match the calls submitted"
  else
    res ← try (owners (failed_names rows items));
    apply_items (match res with Ok own => own | Err _ => ∅ end) rows items.

Definition one (rc : Claimed) : M WriterError unit :=
  n ← try next_nonce;
  match n with
  | Err e => record rc.1 (Retry (NONCE_FETCH +:+ ": " +:+ e))
  | Ok nonce =>
      res ← try (submit_one nonce rc);
      match res with
      | Ok _ =>
          _ ← set_nonce (Some (nonce + 1));
          d ← get_drain;
          _ ← set_batch (succeeded (d_batch d));
          record rc.1 Landed
      | Err reason =>
          _ ← set_nonce None;
          _ ← observe (SawRefusal [rc] reason);
          own ← try (owner (full_username rc.1));
          settle rc (match own with Ok o => o | Err _ => None end) reason
      end
  end.

Definition batch (rows : list Claimed) : M WriterError unit :=
  n ← try next_nonce;
  match n with
  | Err e => retry_batch rows.*1 (NONCE_FETCH +:+ ": " +:+ e)
  | Ok nonce =>
      res ← try (submit_batch nonce rows);
      match res with
      | Ok items =>
          _ ← set_nonce (Some (nonce + 1));
          d ← get_drain;
          _ ← set_batch (succeeded (d_batch d));
          apply_results rows items
      | Err reason =>
          _ ← set_nonce None;
          _ ← observe (SawRefusal rows reason);
          retry_batch rows.*1 reason
      end
  end.

(** [triage], first loop: record the rows a gate refuses, keep the others. *)
Fixpoint gate_rows (gate : Reservation -> result bytes Gate) (due : list Reservation)
    : M WriterError (list Claimed) :=
  match due with
  | [] => mret []
  | r :: due' =>
      match gate r with
      | Ok candidate => rest ← gate_rows gate due'; mret ((r, candidate) :: rest)
      | Err g => _ ← record r (Gate_outcome g); gate_rows gate due'
      end
  end.

(** [triage], second loop. *)
Fixpoint submittable_rows (own : gmap string bytes) (gated : list Claimed)
    : M WriterError (list Claimed) :=
  match gated with
  | [] => mret []
  | (r, candidate) :: gated' =>
      match own !! full_username r with
      | Some o =>
          _ ← record r (if bool_decide (o = candidate) then Observed else OFailed OWNED_ELSEWHERE);
          submittable_rows own gated'
      | None => rest ← submittable_rows own gated'; mret ((r, candidate) :: rest)
      end
  end.

Definition triage (ctx : Ctx) (due : list Reservation) : M WriterError (list Claimed) :=
  now ← app_now;
  gated ← gate_rows (fun r => lane_gate r ctx (unix_timestamp now) now) due;
  match (gated : list Claimed) with
  | [] => mret []
  | _ =>
      res ← try (owners ((fun rc : Claimed => full_username rc.1) <$> gated));
      match res with
      | Err e => _ ← retry_batch gated.*1 ("owner read failed: " +:+ e); mret []
      | Ok own => submittable_rows own gated
      end
  end.

(** [Drain::pass]. [triage] returns an [anyhow] error, so a lease lost in it
    comes out as [Chain]. *)
Definition pass : M WriterError bool :=
  up ← link_up_m;
  if negb up then mret true else
  d ← get_drain;
  due ← read_rows (fun now => lane_claim now (size (d_batch d)));
  match (due : list Reservation) with
  | [] => mret true
  | _ =>
      _ ← hold;
      d ← get_drain;
      ctx ← try (ask (fun w => link_ctx w (d_link d)) (fun _ => []));
      match ctx with
      | Err e => _ ← retry_batch due ("lane context read failed: " +:+ e); mret false
      | Ok ctx =>
          submittable ← lift_err (fun e => Chain (WriterError_fmt e)) (triage ctx due);
          _ ← match (submittable : list Claimed) with
              | [] => mret tt
              | [rc] => one rc
              | _ => batch submittable
              end;
          mret false
      end
  end.

(** [parse_candidate], the only gate of the reconcile. *)
Definition parse_candidate (r : Reservation) : result bytes Gate :=
  match account_from_str (candidate_account_id r) with
  | Some a => Ok a
  | None => Err (GFailed "invalid candidate SS58")
  end.

(** [slice::chunks]; the fuel is the length. *)
Fixpoint chunks_fuel {X} (fuel n : nat) (l : list X) : list (list X) :=
  match fuel, l with
  | _, [] => []
  | O, _ => []
  | S fuel', _ => take n l :: chunks_fuel fuel' n (drop n l)
  end.
Definition chunks {X} (n : nat) (l : list X) : list (list X) := chunks_fuel (length l) n l.

(** One chunk: the number of rows left unread. *)
Definition reconcile_chunk (chunk : list Claimed) : M WriterError nat :=
  res ← try (owners ((fun rc : Claimed => full_username rc.1) <$> chunk));
  match res with
  | Err _ => mret (length chunk)
  | Ok own =>
      _ ← for_each (fun rc : Claimed =>
            record rc.1 (if bool_decide (own !! full_username rc.1 = Some rc.2)
                         then Observed else Retry RECONCILED)) chunk;
      mret 0%nat
  end.

Fixpoint reconcile_chunks (cs : list (list Claimed)) : M WriterError nat :=
  match cs with
  | [] => mret 0%nat
  | c :: cs' => n ← reconcile_chunk c; m ← reconcile_chunks cs'; mret (n + m)%nat
  end.

Definition reconcile_submitting : M WriterError unit :=
  up ← link_up_m;
  if negb up then mret tt else
  stuck ← read_rows (fun _ => lane_submitting);
  parsed ← gate_rows parse_candidate stuck;
  match (parsed : list Claimed) with
  | [] => mret tt
  | _ =>
      unread ← reconcile_chunks (chunks RECONCILE_READ_CHUNK parsed);
      if (unread =? 0)%nat then mret tt
      else throw (Chain ("reconcile could not read " +:+ pretty unread +:+ " of " +:+
                         pretty (length parsed) +:+ " SUBMITTING rows"))
  end.
End engine.

End WriterEngine.
