(* ===== verification/WriterSpec.v ===== *)
(** * WriterSpec: what a drain is allowed to do, and that it does only that

    [wstep] is the abstract specification of the writer on one lane: it may claim
    rows, renew its lease, mark and record rows it has claimed and not yet
    recorded, each record consuming the claim, and it may record a landing only
    on evidence the chain gave.  The engine refines it. *)

From S2P Require Import Prelude Strings Schema Lease Outbox WriterLane WriterTx WriterEngine.

#[local] Open Scope Z_scope.

Module WriterSpec.

Export WriterEngine.

Section spec.
Context {W Link Ctx : Type} `{!World W, !Lane W Link Ctx}.
Context (account_from_str : string -> option bytes) (describe : bytes -> string).
Context (cx : Cx).

(** ** Evidence *)

(** The chain told the writer that [r] is registered to [c]. *)
Definition justifies (o : Obs) (r : Reservation) (c : bytes) : Prop :=
  match o with
  | SawOwners own => own !! full_username r = Some c
  | SawOwner name own => name = full_username r /\ own = Some c
  | SawFinalized rows events =>
      check_proxied_call describe events = Ok tt /\
      (rows = [(r, c)] \/
       exists items i, item_results describe events = Ok items /\ length items = length rows /\
         rows !! i = Some (r, c) /\
         (items !! i = Some (Ok tt) \/
          exists reason, items !! i = Some (Err reason) /\ contains ALREADY_REGISTERED reason = true))
  | SawRefusal rows reason => rows = [(r, c)] /\ contains ALREADY_REGISTERED reason = true
  | DidClaim _ | DidRecord _ _ => False
  end.

Definition candidate_of (r : Reservation) : option bytes :=
  account_from_str (candidate_account_id r).

Definition evidence (tr : list Obs) (r : Reservation) : Prop :=
  exists c o, candidate_of r = Some c /\ o ∈ tr /\ justifies o r c.

Lemma evidence_mono tr tr' r : tr ⊆ tr' -> evidence tr r -> evidence tr' r.
Proof. intros Hs (c & o & Hc & Ho & Hj). exists c, o. split; [done|]. split; [by apply Hs|done]. Qed.

(** A claimed row with its candidate: [tr] shows it registered. *)
Definition justifies_claim (rc : Claimed) (tr : list Obs) : Prop :=
  exists o, o ∈ tr /\ justifies o rc.1 rc.2.

Definition cand_ok (rc : Claimed) : Prop := candidate_of rc.1 = Some rc.2.

Lemma justifies_claim_evidence rc tr : cand_ok rc -> justifies_claim rc tr -> evidence tr rc.1.
Proof. intros Hc (o & Ho & Hj). by exists rc.2, o. Qed.

Lemma justifies_claim_mono rc tr tr' : tr ⊆ tr' -> justifies_claim rc tr -> justifies_claim rc tr'.
Proof. intros Hs (o & Ho & Hj). exists o. split; [by apply Hs|done]. Qed.

(** ** The abstract writer *)

(** [ws_todo]: the rows claimed and not yet recorded; [None] once a record was
    not acknowledged, after which the drain stops. *)
Record WS := {
  ws_todo : option (list Reservation);
  ws_w : W;
  ws_db : Db;
  ws_trace : list Obs;
}.

(** One statement of the writer, at the database clock [now], on the database it
    finds. *)
Inductive act (now app : Z) (tr : list Obs) :
    option (list Reservation) -> Db -> option (list Reservation) -> Db -> list Obs -> Prop :=
| a_none todo db : act now app tr todo db todo db tr
| a_claim db limit rs :
    lane_claim now limit db = Some rs -> act now app tr (Some []) db (Some rs) db (DidClaim rs :: tr)
| a_stuck db rs :
    lane_submitting db = Some rs -> act now app tr (Some []) db (Some rs) db (DidClaim rs :: tr)
| a_renew todo db : act now app tr todo db todo (renew_lease cx now db).2 tr
| a_mark todo db r h n :
    r ∈ todo ->
    act now app tr (Some todo) db (Some todo) (lane_mark now (guard cx) r h n db).2 tr
| a_record todo todo' db r o db' :
    todo ≡ₚ r :: todo' -> (is_landed o = true -> evidence tr r) ->
    lane_record now app (guard cx) r o db = (Ok tt, db') ->
    act now app tr (Some todo) db (Some todo') db' (DidRecord r o :: tr)
| a_lost todo db r o :
    r ∈ todo -> (is_landed o = true -> evidence tr r) ->
    act now app tr (Some todo) db None (lane_record now app (guard cx) r o db).2 tr.

(** An owner that was seen is the answer to a read of the chain in that world. *)
Definition read_in (w : W) (o : Obs) : Prop :=
  match o with
  | SawOwners own => exists names, w_owners lane_chain w names = Ok own
  | SawOwner name own => w_owner lane_chain w name = Ok own
  | _ => True
  end.

Inductive wstep : WS -> WS -> Prop :=
| ws_stmt todo w db tr todo' db' tr' :
    act (w_now w) (w_app_now w) tr todo (w_interfere w db) todo' db' tr' ->
    wstep {| ws_todo := todo; ws_w := w; ws_db := db; ws_trace := tr |}
          {| ws_todo := todo'; ws_w := w_next w; ws_db := db'; ws_trace := tr' |}
| ws_see todo w db tr o :
    of_chain o = true -> read_in w o ->
    wstep {| ws_todo := todo; ws_w := w; ws_db := db; ws_trace := tr |}
          {| ws_todo := todo; ws_w := w_next w; ws_db := db; ws_trace := o :: tr |}
| ws_tick todo w db tr :
    wstep {| ws_todo := todo; ws_w := w; ws_db := db; ws_trace := tr |}
          {| ws_todo := todo; ws_w := w_next w; ws_db := db; ws_trace := tr |}.

Abbreviation St := (WriterEngine.St (W := W) (Link := Link)).

Definition view (todo : option (list Reservation)) (st : St) : WS :=
  {| ws_todo := todo; ws_w := st_w st; ws_db := st_db st; ws_trace := st_trace st |}.

(** ** Triples

    [spec todo tr m Q]: run with the claims [todo] outstanding on a trace that
    extends [tr], [m] performs only steps of the abstract writer, and if it
    returns a value, [Q] holds of it, of the claims left, and of the trace. *)

Definition spec {E A} (todo : list Reservation) (tr : list Obs) (m : M E A)
    (Q : A -> list Reservation -> list Obs -> Prop) : Prop :=
  forall st, tr ⊆ st_trace st ->
    exists otodo, rtc wstep (view (Some todo) st) (view otodo (m st).2) /\
      st_trace st ⊆ st_trace (m st).2 /\
      match (m st).1 with
      | Ok a => exists todo', otodo = Some todo' /\ Q a todo' (st_trace (m st).2)
      | Err _ => True
      end.

Lemma spec_ret {E A} (a : A) todo tr (Q : A -> list Reservation -> list Obs -> Prop) :
  (forall tr', tr ⊆ tr' -> Q a todo tr') -> spec (E := E) todo tr (mret a) Q.
Proof.
  intros HQ st Hst. exists (Some todo). simpl. split; [done|]. split; [done|].
  exists todo. split; [done|]. by apply HQ.
Qed.

Lemma spec_throw {E A} (e : E) todo tr (Q : A -> list Reservation -> list Obs -> Prop) :
  spec todo tr (throw e) Q.
Proof. intros st Hst. by exists (Some todo). Qed.

Lemma spec_bind {E A B} todo tr (m : M E A) (k : A -> M E B) Q R :
  spec todo tr m Q ->
  (forall a todo' tr', tr ⊆ tr' -> Q a todo' tr' -> spec todo' tr' (k a) R) ->
  spec todo tr (m ≫= k) R.
Proof.
  intros Hm Hk st Hst. destruct (Hm st Hst) as (otodo & Hs1 & Ht1 & Hq).
  unfold mbind, M_bind. destruct (m st) as [[a|e] st1]; simpl in *; [|by exists otodo].
  destruct Hq as (todo1 & -> & Hq).
  destruct (Hk a todo1 (st_trace st1)) with (st := st1) as (todo2 & Hs2 & Ht2 & Hr);
    [by etrans|done|done|].
  exists todo2. split; [by etrans|]. split; [by etrans|done].
Qed.

Lemma spec_weaken {E A} todo tr tr0 (m : M E A) (Q R : A -> list Reservation -> list Obs -> Prop) :
  spec todo tr m Q -> tr ⊆ tr0 -> (forall a todo' tr', tr0 ⊆ tr' -> Q a todo' tr' -> R a todo' tr') ->
  spec todo tr0 m R.
Proof.
  intros Hm Hs HQ st Hst. destruct (Hm st) as (otodo & ? & Ht & Hq); [by etrans|].
  exists otodo. split; [done|]. split; [done|]. destruct (m st).1; [|done].
  destruct Hq as (todo' & -> & Hq). exists todo'. split; [done|]. apply HQ; [by etrans|done].
Qed.

Lemma spec_lift_err {E F A} (f : E -> F) todo tr (m : M E A) Q :
  spec todo tr m Q -> spec todo tr (lift_err f m) Q.
Proof.
  intros Hm st Hst. destruct (Hm st Hst) as (otodo & Hs & Ht & Hq). exists otodo.
  unfold lift_err. by destruct (m st) as [[a|e] st'].
Qed.

(** Runs that keep every claim, whether they succeed or fail; [Q] sees the
    failure too. *)
Definition keeps {E A} (todo : list Reservation) (tr : list Obs) (m : M E A)
    (Q : result A E -> list Obs -> Prop) : Prop :=
  forall st, tr ⊆ st_trace st ->
    rtc wstep (view (Some todo) st) (view (Some todo) (m st).2) /\
    st_trace st ⊆ st_trace (m st).2 /\ Q (m st).1 (st_trace (m st).2).

Definition any {E A} : result A E -> list Obs -> Prop := fun _ _ => True.

Lemma spec_try {E F A} todo tr (m : M E A) Q :
  keeps todo tr m Q -> spec (E := F) todo tr (try m) (fun r todo' tr' => todo' = todo /\ Q r tr').
Proof.
  intros Hm st Hst. destruct (Hm st Hst) as (Hs & Ht & Hq). exists (Some todo).
  unfold try. destruct (m st) as [r st']. split; [done|]. split; [done|]. by exists todo.
Qed.

Lemma keeps_spec {E A} todo tr (m : M E A) Q :
  keeps todo tr m Q -> spec todo tr m (fun a todo' tr' => todo' = todo /\ Q (Ok a) tr').
Proof.
  intros Hm st Hst. destruct (Hm st Hst) as (Hs & Ht & Hq). exists (Some todo).
  split; [done|]. split; [done|]. destruct (m st).1; [|done]. by exists todo.
Qed.

Lemma keeps_ret {E A} (r : result A E) todo tr (Q : result A E -> list Obs -> Prop) :
  (forall tr', tr ⊆ tr' -> Q r tr') -> keeps todo tr (of_result r) Q.
Proof. intros HQ st Hst. simpl. split; [done|]. split; [done|]. by apply HQ. Qed.

Lemma keeps_bind {E A B} todo tr (m : M E A) (k : A -> M E B) P Q :
  keeps todo tr m P ->
  (forall a tr', tr ⊆ tr' -> P (Ok a) tr' -> keeps todo tr' (k a) Q) ->
  (forall e tr', tr ⊆ tr' -> P (Err e) tr' -> Q (Err e) tr') ->
  keeps todo tr (m ≫= k) Q.
Proof.
  intros Hm Hk He st Hst. destruct (Hm st Hst) as (Hs1 & Ht1 & Hp).
  unfold mbind, M_bind. destruct (m st) as [[a|e] st1]; simpl in *.
  - destruct (Hk a (st_trace st1)) with (st := st1) as (Hs2 & Ht2 & Hq); [by etrans|done|done|].
    split; [by etrans|]. split; [by etrans|done].
  - split; [done|]. split; [done|]. apply He; [by etrans|done].
Qed.

(** The same, when only the state matters. *)
Lemma keeps_bind_any {E A B} todo tr (m : M E A) (k : A -> M E B) :
  keeps todo tr m any -> (forall a tr', tr ⊆ tr' -> keeps todo tr' (k a) any) ->
  keeps todo tr (m ≫= k) any.
Proof. intros Hm Hk. eapply keeps_bind; [exact Hm|intros; by apply Hk|done]. Qed.

Lemma keeps_lift_err {E F A} (f : E -> F) todo tr (m : M E A) :
  keeps todo tr m any -> keeps todo tr (lift_err f m) any.
Proof.
  intros Hm st Hst. destruct (Hm st Hst) as (Hs & Ht & _). unfold lift_err.
  by destruct (m st) as [r st'].
Qed.

Lemma keeps_for_each {E X} (f : X -> M E unit) l todo tr :
  (forall x tr', x ∈ l -> tr ⊆ tr' -> keeps todo tr' (f x) any) -> keeps todo tr (for_each f l) any.
Proof.
  revert tr; induction l as [|x l IH]; intros tr Hf; simpl; [by apply (keeps_ret (Ok tt))|].
  apply keeps_bind_any; [apply Hf; [left|done]|]. intros _ tr' Htr. apply IH.
  intros y tr'' Hy Htr'. apply Hf; [by right|by etrans].
Qed.

(** *** The primitive effects *)

Lemma keeps_ask {A} todo tr (q : W -> result A string) (obs : A -> list Obs) :
  (forall w a, q w = Ok a -> match obs a with [] => True | [o] => of_chain o = true /\ read_in w o | _ => False end) ->
  keeps todo tr (ask q obs) (fun r tr' => match r with Ok a => obs a ⊆ tr' | Err _ => True end).
Proof.
  intros Hobs st Hst. unfold ask. cbn [fst snd st_trace].
  destruct (q (st_w st)) as [a|e] eqn:Eq; simpl.
  - specialize (Hobs _ a Eq). destruct (obs a) as [|o []]; [| |done].
    + split; [|set_solver]. apply rtc_once. apply ws_tick.
    + destruct Hobs. split; [|set_solver]. apply rtc_once. by apply ws_see.
  - split; [|set_solver]. apply rtc_once. apply ws_tick.
Qed.

Lemma keeps_observe {E} todo tr (o : Obs) :
  of_chain o = true -> (forall w, read_in w o) -> keeps (E := E) todo tr (observe o) (fun _ tr' => o ∈ tr').
Proof.
  intros Ho Hr st Hst. simpl. split; [apply rtc_once; by apply ws_see|]. set_solver.
Qed.

Lemma keeps_stmt {A} todo tr (f : Z -> Db -> A * Db) :
  (forall now app tr' db, act now app tr' (Some todo) db (Some todo) (f now db).2 tr') ->
  keeps todo tr (stmt f) any.
Proof.
  intros Hf st Hst. unfold stmt, run_stmt.
  destruct (w_fate (st_w st)); simpl.
  - destruct (f _ _) as [a db'] eqn:Ef. simpl. split; [|done]. apply rtc_once, ws_stmt.
    replace db' with (f (w_now (st_w st)) (w_interfere (st_w st) (st_db st))).2 by (by rewrite Ef).
    apply Hf.
  - split; [|done]. apply rtc_once, ws_stmt, a_none.
  - split; [|done]. apply rtc_once, ws_stmt, Hf.
Qed.

Lemma keeps_set_nonce {E} todo tr n : keeps (E := E) todo tr (set_nonce n) any.
Proof. intros st Hst. by simpl. Qed.
Lemma keeps_set_batch {E} todo tr b : keeps (E := E) todo tr (set_batch b) any.
Proof. intros st Hst. by simpl. Qed.
Lemma keeps_get_drain {E} todo tr : keeps (E := E) todo tr get_drain any.
Proof. intros st Hst. by simpl. Qed.
Lemma keeps_app_now {E} todo tr : keeps (E := E) todo tr app_now any.
Proof. intros st Hst. by simpl. Qed.

Lemma keeps_weaken {E A} todo tr (m : M E A) P : keeps todo tr m P -> keeps todo tr m any.
Proof. intros Hm st Hst. by destruct (Hm st Hst) as (? & ? & _). Qed.

(** ** The engine's parts *)

Lemma keeps_heartbeat todo tr : keeps todo tr (heartbeat cx) any.
Proof. apply keeps_stmt. intros. apply a_renew. Qed.

Lemma keeps_throw {E A} (e : E) todo tr (Q : result A E -> list Obs -> Prop) :
  (forall tr', tr ⊆ tr' -> Q (Err e) tr') -> keeps todo tr (throw e) Q.
Proof. apply keeps_ret. Qed.

Lemma keeps_hold todo tr : keeps todo tr (hold cx) any.
Proof.
  apply keeps_bind_any; [apply keeps_heartbeat|]. intros [] tr' _; [by apply (keeps_ret (Ok tt))|].
  by apply keeps_throw.
Qed.

Lemma keeps_renew_ticks n todo tr : keeps todo tr (renew_ticks cx n) any.
Proof.
  revert tr; induction n as [|n IH]; intros tr; simpl; [by apply (keeps_ret (Ok tt))|].
  apply keeps_bind_any; [apply keeps_lift_err, keeps_heartbeat|].
  intros [] tr' _; [apply IH|by apply keeps_throw].
Qed.

Lemma keeps_mark todo tr r h n : r ∈ todo -> keeps todo tr (mark cx r h n) any.
Proof.
  intros Hr. apply keeps_bind_any.
  - apply keeps_stmt. intros. by apply a_mark.
  - intros [] tr' _; [by apply (keeps_ret (Ok tt))|by apply keeps_throw].
Qed.

Definition finalized (rows : list Claimed) (r : result (list (result ChainEvent string)) string)
    (tr : list Obs) : Prop :=
  match r with Ok events => SawFinalized rows events ∈ tr | Err _ => True end.

Lemma keeps_finalize rows todo tr : keeps todo tr (finalize cx rows) (finalized rows).
Proof.
  eapply keeps_bind; [by apply keeps_ask| |done]. intros [n e] tr1 _ _. simpl.
  eapply keeps_bind; [apply keeps_renew_ticks| |done]. intros _ tr2 _ _.
  destruct e as [[events|e]|]; [|by apply keeps_throw..].
  eapply keeps_bind; [by apply keeps_observe| |done]. intros ? tr3 _ Hin.
  apply (keeps_ret (Ok events)). intros tr4 Htr. simpl. by apply Htr.
Qed.

Lemma keeps_submit rows n todo tr :
  rows.*1 ⊆ todo -> keeps todo tr (submit cx rows n) (finalized rows).
Proof.
  intros Hrows. eapply keeps_bind; [by apply keeps_ask| |done]. intros h tr1 _ _.
  eapply keeps_bind; [|intros _ tr2 _ _|done].
  - apply keeps_for_each. intros [r c] tr2 Hin _. apply keeps_lift_err, keeps_mark. apply Hrows.
    apply list_elem_of_fmap. by exists (r, c).
  - eapply keeps_bind; [by apply keeps_ask| |done]. intros _ tr3 _ _. apply keeps_finalize.
Qed.

Lemma keeps_submit_one n rc todo tr :
  rc.1 ∈ todo ->
  keeps todo tr (submit_one describe cx n rc) (fun res tr' =>
    match res with Ok _ => justifies_claim rc tr' | Err _ => True end).
Proof.
  intros Hr. eapply keeps_bind; [apply keeps_submit; set_solver| |done].
  intros events tr1 _ Hfin. apply keeps_ret. intros tr2 Htr.
  destruct (check_proxied_call describe events) as [[]|] eqn:Ec; [|done].
  exists (SawFinalized [rc] events). split; [by apply Htr|]. split; [done|]. left. by destruct rc.
Qed.

(** The batch was finalized with these items. *)
Definition batch_result (rows : list Claimed) (items : list (result unit string)) (tr : list Obs)
    : Prop :=
  exists events, SawFinalized rows events ∈ tr /\ check_proxied_call describe events = Ok tt /\
    item_results describe events = Ok items.

Lemma keeps_submit_batch n rows todo tr :
  rows.*1 ⊆ todo ->
  keeps todo tr (submit_batch describe cx n rows) (fun res tr' =>
    match res with Ok items => batch_result rows items tr' | Err _ => True end).
Proof.
  intros Hr. eapply keeps_bind; [by apply keeps_submit| |done]. intros events tr1 _ Hfin.
  eapply (keeps_bind _ _ _ _ (fun r _ => r = check_proxied_call describe events));
    [by apply keeps_ret| |done].
  intros [] tr2 Htr Hc. apply keeps_ret. intros tr3 Htr'.
  destruct (item_results describe events) as [items|] eqn:Ei; [|done].
  exists events. split; [by apply Htr', Htr|done].
Qed.

Lemma keeps_next_nonce todo tr : keeps todo tr next_nonce any.
Proof.
  apply keeps_bind_any; [apply keeps_get_drain|]. intros d tr1 _.
  destruct (d_nonce d); [by apply (keeps_ret (Ok _))|].
  eapply keeps_bind; [by apply keeps_ask| |done]. intros n tr2 _ _.
  apply keeps_bind_any; [apply keeps_set_nonce|]. intros _ tr3 _. by apply (keeps_ret (Ok _)).
Qed.

(** ** Recording *)

Definition recorded (rows : list Reservation) (tr : list Obs) : Prop :=
  forall r, r ∈ rows -> exists o, DidRecord r o ∈ tr.

Lemma recorded_mono rows tr tr' : tr ⊆ tr' -> recorded rows tr -> recorded rows tr'.
Proof. intros Hs Hr r Hin. destruct (Hr r Hin) as [o Ho]. exists o. by apply Hs. Qed.

Lemma recorded_nil tr : recorded [] tr.
Proof. intros r Hr. by apply not_elem_of_nil in Hr. Qed.

Lemma recorded_app a b tr : recorded a tr -> recorded b tr -> recorded (a ++ b) tr.
Proof. intros Ha Hb r [Hr|Hr]%elem_of_app; [by apply Ha|by apply Hb]. Qed.

Lemma recorded_cons r a tr : recorded [r] tr -> recorded a tr -> recorded (r :: a) tr.
Proof. apply recorded_app. Qed.

(** Every row of [rows] has been recorded, and the claims left are [rest]. *)
Definition resolves (rows rest : list Reservation) (_ : unit) (todo' : list Reservation)
    (tr : list Obs) : Prop :=
  todo' ≡ₚ rest /\ recorded rows tr.

Lemma spec_record todo rest tr r o :
  todo ≡ₚ r :: rest -> (is_landed o = true -> evidence tr r) ->
  spec todo tr (record cx r o) (resolves [r] rest).
Proof.
  intros Hp He st Hst. unfold record, stmt, run_stmt, mbind, M_bind. simpl.
  set (w := st_w st). set (db := w_interfere w (st_db st)).
  assert (is_landed o = true -> evidence (st_trace st) r) as He'
    by (intros Ho; eapply evidence_mono; [exact Hst|by apply He]).
  assert (r ∈ todo) as Hin by (rewrite Hp; left).
  pose proof (a_lost (w_now w) (w_app_now w) (st_trace st) todo db r o Hin He') as Hlost.
  destruct (w_fate w); simpl.
  - destruct (lane_record _ _ _ r o db) as [[[]|op] db'] eqn:El; simpl.
    + exists (Some rest). split; [|split; [set_solver|]].
      * apply rtc_once. apply ws_stmt. by eapply a_record.
      * exists rest. split; [done|]. split; [done|]. intros r' ->%list_elem_of_singleton.
        exists o. left.
    + exists None. split; [|done]. apply rtc_once. by apply ws_stmt.
  - exists (Some todo). split; [|done]. apply rtc_once. apply ws_stmt. apply a_none.
  - exists None. split; [|done]. apply rtc_once. by apply ws_stmt.
Qed.

(** A loop that resolves its rows one by one. *)
Lemma spec_for_each {X} (f : X -> M WriterError unit) (row : X -> Reservation) l todo rest tr :
  (forall x todo rest tr', x ∈ l -> tr ⊆ tr' -> todo ≡ₚ row x :: rest ->
     spec todo tr' (f x) (resolves [row x] rest)) ->
  todo ≡ₚ (row <$> l) ++ rest -> spec todo tr (for_each f l) (resolves (row <$> l) rest).
Proof.
  revert todo tr; induction l as [|x l IH]; intros todo tr Hf Hp; simpl.
  { apply spec_ret. intros tr' _. split; [done|apply recorded_nil]. }
  eapply spec_bind; [apply (Hf x _ ((row <$> l) ++ rest)); [left|done|exact Hp]|].
  intros _ todo1 tr1 Htr [Hp1 Hr1]. eapply spec_weaken; [apply IH| |].
  - intros y t rst tr' Hy Htr' Hpy. apply Hf; [by right|by etrans|done].
  - exact Hp1.
  - done.
  - intros [] t tr2 Htr2 [Hp2 Hr2]. split; [done|]. apply recorded_cons; [|done].
    by eapply recorded_mono.
Qed.

Lemma spec_defer rows backoff reason todo rest tr :
  todo ≡ₚ rows ++ rest -> spec todo tr (defer cx rows backoff reason) (resolves rows rest).
Proof.
  intros Hp. eapply spec_bind; [apply keeps_spec, keeps_app_now|].
  intros now todo1 tr1 _ [-> _]. rewrite <-(list_fmap_id rows) at 2.
  apply (spec_for_each _ (fun r => r)); [|by rewrite list_fmap_id].
  intros r t rst tr2 _ _ Hp'. by apply spec_record.
Qed.

Lemma spec_retry_batch rows reason todo rest tr :
  todo ≡ₚ rows ++ rest -> spec todo tr (retry_batch cx rows reason) (resolves rows rest).
Proof.
  intros Hp. eapply spec_bind; [apply keeps_spec, keeps_get_drain|].
  intros d todo1 tr1 _ [-> _]. destruct (failed (d_batch d)) as [backoff b].
  eapply spec_bind; [apply keeps_spec, keeps_set_batch|]. intros [] todo2 tr2 _ [-> _].
  by apply spec_defer.
Qed.

Lemma spec_settle rc observed reason todo rest tr :
  todo ≡ₚ rc.1 :: rest -> cand_ok rc ->
  (observed = Some rc.2 -> justifies_claim rc tr) ->
  (contains ALREADY_REGISTERED reason = true -> justifies_claim rc tr) ->
  spec todo tr (settle cx rc observed reason) (resolves [rc.1] rest).
Proof.
  intros Hp Hc Ho Ha. destruct rc as [r c]. simpl in *.
  eapply spec_bind; [apply keeps_spec, keeps_app_now|]. intros now todo1 tr1 Htr [-> _].
  apply spec_record; [done|]. unfold classify_submit_failure.
  destruct (bool_decide _ || _) eqn:E.
  - intros _. apply (justifies_claim_evidence (r, c)); [done|].
    eapply justifies_claim_mono; [exact Htr|]. bool_prop. destruct E; bool_prop; eauto.
  - unfold signer_defer. repeat destr_match; done.
Qed.

(** ** Loops that keep some rows *)

(** Of [rows], [out] is left to do; the others have been recorded. *)
Definition splits (rows rest : list Reservation) (out : list Claimed) (todo' : list Reservation)
    (tr : list Obs) : Prop :=
  exists gone, rows ≡ₚ gone ++ out.*1 /\ recorded gone tr /\ todo' ≡ₚ out.*1 ++ rest /\
    Forall cand_ok out.

Lemma splits_nil rest todo tr : todo ≡ₚ rest -> splits [] rest [] todo tr.
Proof. intros Hp. exists []. split; [done|]. split; [apply recorded_nil|done]. Qed.

Lemma splits_keep r c rows rest out todo' tr :
  cand_ok (r, c) -> splits rows (r :: rest) out todo' tr ->
  splits (r :: rows) rest ((r, c) :: out) todo' tr.
Proof.
  intros Hc (gone & Hrows & Hrec & Htodo & Hout). exists gone. split; [|split; [done|split]].
  - rewrite Hrows. simpl. by rewrite Permutation_middle.
  - rewrite Htodo. simpl. by rewrite Permutation_middle.
  - by constructor.
Qed.

Lemma splits_gone r rows rest out todo' tr tr' :
  recorded [r] tr -> tr ⊆ tr' -> splits rows rest out todo' tr' -> splits (r :: rows) rest out todo' tr'.
Proof.
  intros Hr Hs (gone & Hrows & Hrec & Htodo & Hout). exists (r :: gone).
  split; [by rewrite Hrows|]. split; [|done]. apply recorded_cons; [by eapply recorded_mono|done].
Qed.

(** Keep the head row, go on with the others. *)
Lemma spec_keep {r c rows rest tr todo} (m : M WriterError (list Claimed)) :
  cand_ok (r, c) -> spec todo tr m (splits rows (r :: rest)) ->
  spec todo tr (out ← m; mret ((r, c) :: out)) (splits (r :: rows) rest).
Proof.
  intros Hc Hm. eapply spec_bind; [exact Hm|]. intros out todo1 tr1 _ Hs.
  apply spec_ret. intros tr2 Htr. apply splits_keep; [done|].
  destruct Hs as (gone & ? & Hrec & ? & ?). exists gone. split; [done|]. split; [|done].
  by eapply recorded_mono.
Qed.

(** Record the head row, go on with the others. *)
Lemma spec_gone {r rows rest tr todo} o (m : M WriterError (list Claimed)) :
  todo ≡ₚ r :: rows ++ rest -> (is_landed o = true -> evidence tr r) ->
  (forall todo' tr', tr ⊆ tr' -> todo' ≡ₚ rows ++ rest -> spec todo' tr' m (splits rows rest)) ->
  spec todo tr (_ ← record cx r o; m) (splits (r :: rows) rest).
Proof.
  intros Hp He Hm. eapply spec_bind; [by apply spec_record|]. intros _ todo1 tr1 Htr [Hp1 Hr].
  eapply spec_weaken; [by apply Hm|done|]. intros out todo2 tr2 Htr2 Hs.
  by eapply splits_gone.
Qed.

Lemma perm_keep (r : Reservation) rows rest todo : todo ≡ₚ r :: rows ++ rest -> todo ≡ₚ rows ++ r :: rest.
Proof. intros ->. by rewrite Permutation_middle. Qed.

Lemma saw_owner_justifies own tr r c :
  SawOwners own ∈ tr -> own !! full_username r = Some c -> justifies_claim (r, c) tr.
Proof. intros Hin Ho. by exists (SawOwners own). Qed.

Lemma spec_landed_or own o rows todo rest tr :
  SawOwners own ∈ tr -> Forall cand_ok rows -> todo ≡ₚ rows.*1 ++ rest ->
  spec todo tr (landed_or cx own o rows) (splits rows.*1 rest).
Proof.
  revert todo rest tr; induction rows as [|[r c] rows IH]; intros todo rest tr Hown Hc Hp; simpl.
  { apply spec_ret. intros. by apply splits_nil. }
  apply Forall_cons in Hc as [Hrc Hc]. case_bool_decide as Ho.
  - apply spec_gone; [done| |].
    + intros _. apply (justifies_claim_evidence (r, c)); [done|]. by eapply saw_owner_justifies.
    + intros todo' tr' Htr Hp'. apply IH; [by apply Htr|done|done].
  - apply spec_keep; [done|]. apply IH; [done|done|]. by apply perm_keep.
Qed.

Lemma spec_submittable_rows own rows todo rest tr :
  SawOwners own ∈ tr -> Forall cand_ok rows -> todo ≡ₚ rows.*1 ++ rest ->
  spec todo tr (submittable_rows cx own rows) (splits rows.*1 rest).
Proof.
  revert todo rest tr; induction rows as [|[r c] rows IH]; intros todo rest tr Hown Hc Hp; simpl.
  { apply spec_ret. intros. by apply splits_nil. }
  apply Forall_cons in Hc as [Hrc Hc]. destruct (own !! full_username r) as [o|] eqn:Ho.
  - apply spec_gone; [done| |].
    + case_bool_decide; [|done]. subst. intros _.
      apply (justifies_claim_evidence (r, c)); [done|]. by eapply saw_owner_justifies.
    + intros todo' tr' Htr Hp'. apply IH; [by apply Htr|done|done].
  - apply spec_keep; [done|]. apply IH; [done|done|]. by apply perm_keep.
Qed.

Lemma spec_gate_rows gate due todo rest tr :
  (forall r c, gate r = Ok c -> candidate_of r = Some c) -> todo ≡ₚ due ++ rest ->
  spec todo tr (gate_rows cx gate due) (splits due rest).
Proof.
  intros Hg. revert todo rest tr; induction due as [|r due IH]; intros todo rest tr Hp; simpl.
  { apply spec_ret. intros. by apply splits_nil. }
  destruct (gate r) as [c|g] eqn:Eg.
  - apply spec_keep; [by apply Hg|]. apply IH. by apply perm_keep.
  - apply spec_gone; [done|by destruct g|]. intros todo' tr' _ Hp'. by apply IH.
Qed.

(** ** Batches *)

Lemma spec_try_owners names todo tr :
  spec (E := WriterError) todo tr (try (owners names)) (fun r todo' tr' =>
    todo' = todo /\ match r with Ok own => SawOwners own ∈ tr' | Err _ => True end).
Proof.
  eapply spec_weaken; [apply spec_try, keeps_ask; intros w own Hw; split; [done|by exists names]|done|].
  intros [own|e] t tr' _ [-> H]; split; try done. set_solver.
Qed.

Lemma spec_reconcile_batch rows reason todo rest tr :
  Forall cand_ok rows -> todo ≡ₚ rows.*1 ++ rest ->
  spec todo tr (reconcile_batch cx rows reason) (resolves rows.*1 rest).
Proof.
  intros Hc Hp. eapply spec_bind; [apply spec_try_owners|].
  intros [own|e] todo1 tr1 Htr [-> Hown]; [|by apply spec_defer].
  eapply spec_bind; [by apply (spec_landed_or _ _ _ _ rest)|].
  intros un todo2 tr2 Htr2 (gone & Hrows & Hrec & Htodo & _).
  assert (spec todo2 tr2 (match un with [] => mret tt | _ => defer_reconciled cx un reason end)
            (resolves un.*1 rest)) as Hun.
  { destruct un; [apply spec_ret; intros; split; [done|apply recorded_nil]|by apply spec_defer]. }
  eapply spec_weaken; [exact Hun|done|]. intros [] t tr3 Htr3 [Ht Hr]. split; [done|].
  intros r Hr'. rewrite Hrows in Hr'. revert r Hr'. apply recorded_app; [|done].
  by eapply recorded_mono.
Qed.

Lemma spec_apply_items all own rows items items_all events n todo rest tr :
  SawFinalized all events ∈ tr -> check_proxied_call describe events = Ok tt ->
  item_results describe events = Ok items_all -> length items_all = length all ->
  drop n all = rows -> drop n items_all = items ->
  (own = ∅ \/ SawOwners own ∈ tr) -> Forall cand_ok rows -> todo ≡ₚ rows.*1 ++ rest ->
  spec todo tr (apply_items cx own rows items) (resolves rows.*1 rest).
Proof.
  intros Hfin Hck Hit Hlen. revert items n todo tr Hfin; induction rows as [|rc rows IH];
    intros items n todo tr Hfin Hd1 Hd2 Hown Hc Hp.
  { simpl. apply spec_ret. intros. split; [done|apply recorded_nil]. }
  assert (all !! n = Some rc) as Hn by (by rewrite <-(Nat.add_0_r n), <-lookup_drop, Hd1).
  destruct (lookup_lt_is_Some_2 items_all n) as [item Hitem];
    [rewrite Hlen; by eapply lookup_lt_Some|].
  assert (items = item :: drop (S n) items_all) as -> by (rewrite <-Hd2; by apply drop_S).
  assert (rows = drop (S n) all) as Hd1'
    by (rewrite (drop_S _ rc) in Hd1 by done; by simplify_eq).
  apply Forall_cons in Hc as [Hrc Hc].
  assert (forall todo' tr', tr ⊆ tr' -> todo' ≡ₚ rows.*1 ++ rest -> recorded [rc.1] tr' ->
    spec todo' tr' (apply_items cx own rows (drop (S n) items_all)) (resolves (rc :: rows).*1 rest))
    as Hrest.
  { intros todo' tr' Htr Hp' Hr. eapply spec_weaken; [eapply (IH _ (S n))| |]; try done.
    intros [] t tr2 Htr2 [Ht Hr2]. split; [done|]. apply recorded_cons; [|done].
    by eapply recorded_mono. }
  assert (forall ok, item = ok -> match ok with Ok _ => True | Err reason =>
            contains ALREADY_REGISTERED reason = true end -> justifies_claim rc tr) as Hj.
  { intros ok -> Hok. exists (SawFinalized all events). split; [done|]. split; [done|]. right.
    exists items_all, n. split; [done|]. split; [done|]. split; [rewrite Hn; by destruct rc|].
    destruct ok as [[]|reason]; [by left|right; by exists reason]. }
  destruct item as [[]|reason]; simpl.
  - eapply spec_bind; [apply (spec_record _ (rows.*1 ++ rest)); [exact Hp|]|].
    + intros _. apply justifies_claim_evidence; [done|]. by apply (Hj (Ok tt)).
    + intros _ todo' tr' Htr [Hp' Hr]. by apply Hrest.
  - eapply spec_bind; [apply (spec_settle rc _ _ _ (rows.*1 ++ rest)); [exact Hp|done| |]|].
    + intros Ho. destruct Hown as [->|Hown]; [by rewrite lookup_empty in Ho|].
      by exists (SawOwners own).
    + intros Hal. by apply (Hj (Err reason)).
    + intros _ todo' tr' Htr [Hp' Hr]. by apply Hrest.
Qed.

Lemma spec_apply_results rows items todo rest tr :
  batch_result rows items tr -> Forall cand_ok rows -> todo ≡ₚ rows.*1 ++ rest ->
  spec todo tr (apply_results cx rows items) (resolves rows.*1 rest).
Proof.
  intros (events & Hfin & Hck & Hit) Hc Hp. unfold apply_results.
  destruct (Nat.eqb_spec (length items) (length rows)) as [Hlen|Hne]; simpl;
    [|by apply spec_reconcile_batch].
  eapply spec_bind; [apply spec_try_owners|]. intros res todo1 tr1 Htr [-> Hown].
  eapply (spec_apply_items rows _ rows items items events 0); try done.
  - by apply Htr.
  - destruct res; [by right|by left].
Qed.

Lemma spec_batch rows todo rest tr :
  Forall cand_ok rows -> todo ≡ₚ rows.*1 ++ rest ->
  spec todo tr (batch describe cx rows) (resolves rows.*1 rest).
Proof.
  intros Hc Hp. eapply spec_bind; [apply spec_try, keeps_next_nonce|].
  intros [n|e] todo1 tr1 _ [-> _]; [|by apply spec_retry_batch].
  eapply spec_bind; [apply spec_try, keeps_submit_batch; intros r; rewrite Hp; set_solver|].
  intros [items|reason] todo2 tr2 _ [-> Hres].
  - eapply spec_bind; [apply keeps_spec, keeps_set_nonce|]. intros _ todo3 tr3 H3 [-> _].
    eapply spec_bind; [apply keeps_spec, keeps_get_drain|]. intros d todo4 tr4 H4 [-> _].
    eapply spec_bind; [apply keeps_spec, keeps_set_batch|]. intros _ todo5 tr5 H5 [-> _].
    apply spec_apply_results; [|done|done].
    destruct Hres as (events & ? & ? & ?). exists events. split; [by apply H5, H4, H3|done].
  - eapply spec_bind; [apply keeps_spec, keeps_set_nonce|]. intros _ todo3 tr3 _ [-> _].
    eapply spec_bind; [by apply keeps_spec, keeps_observe|]. intros _ todo4 tr4 _ [-> _].
    by apply spec_retry_batch.
Qed.

Lemma spec_one rc todo rest tr :
  cand_ok rc -> todo ≡ₚ rc.1 :: rest -> spec todo tr (one describe cx rc) (resolves [rc.1] rest).
Proof.
  intros Hc Hp. eapply spec_bind; [apply spec_try, keeps_next_nonce|].
  intros [n|e] todo1 tr1 _ [-> _]; [|by apply spec_record].
  eapply spec_bind; [apply spec_try, keeps_submit_one; rewrite Hp; left|].
  intros [[]|reason] todo2 tr2 _ [-> Hres].
  - eapply spec_bind; [apply keeps_spec, keeps_set_nonce|]. intros _ todo3 tr3 H3 [-> _].
    eapply spec_bind; [apply keeps_spec, keeps_get_drain|]. intros d todo4 tr4 H4 [-> _].
    eapply spec_bind; [apply keeps_spec, keeps_set_batch|]. intros _ todo5 tr5 H5 [-> _].
    apply spec_record; [done|]. intros _. apply justifies_claim_evidence; [done|].
    eapply justifies_claim_mono; [|exact Hres]. by do 2 (etrans; [done|]).
  - eapply spec_bind; [apply keeps_spec, keeps_set_nonce|]. intros _ todo3 tr3 _ [-> _].
    eapply spec_bind; [by apply keeps_spec, keeps_observe|]. intros _ todo4 tr4 _ [-> Href].
    eapply spec_bind; [apply spec_try, keeps_ask; by intros|].
    intros own todo5 tr5 Htr [-> Hown]. apply spec_settle; [done|done| |].
    + destruct own as [o|]; [|done]. intros ->. exists (SawOwner (full_username rc.1) (Some rc.2)).
      split; [set_solver|done].
    + intros Ha. exists (SawRefusal [rc] reason). split; [by apply Htr|].
      split; [by destruct rc|done].
Qed.

Lemma keeps_link_up todo tr : keeps todo tr link_up_m any.
Proof.
  intros st Hst. unfold link_up_m. destruct (link_up _ _) as [ok l]. simpl.
  split; [|done]. apply rtc_once. apply ws_tick.
Qed.

Lemma spec_read_rows tr f :
  (forall now app tr' db rs, f now db = Some rs ->
     act now app tr' (Some []) db (Some rs) db (DidClaim rs :: tr')) ->
  spec [] tr (read_rows f) (fun rs todo' _ => todo' = rs).
Proof.
  intros Hf st Hst. unfold read_rows, stmt, run_stmt, mbind, M_bind. simpl.
  set (w := st_w st). set (db := w_interfere w (st_db st)).
  destruct (w_fate w); simpl; [|exists (Some []); split; [|done]..].
  - destruct (f (w_now w) db) as [rs|] eqn:Ef; simpl.
    + exists (Some rs). split; [|split; [set_solver|by exists rs]].
      apply rtc_once. apply ws_stmt. by apply Hf.
    + exists (Some []). split; [|done]. apply rtc_once. apply ws_stmt, a_none.
  - apply rtc_once. apply ws_stmt, a_none.
  - apply rtc_once. apply ws_stmt, a_none.
Qed.

(** ** The startup reconcile *)

Lemma concat_chunks_fuel {X} fuel n (l : list X) :
  (0 < n)%nat -> (length l <= fuel)%nat -> concat (chunks_fuel fuel n l) = l.
Proof.
  intros Hn. revert l; induction fuel as [|fuel IH]; intros [|x l] Hl; simpl; try done.
  { simpl in Hl. lia. }
  destruct n as [|n]; [lia|]. rewrite IH; [by rewrite take_drop|].
  rewrite length_drop. simpl in *. lia.
Qed.

Lemma concat_chunks {X} n (l : list X) : (0 < n)%nat -> concat (chunks n l) = l.
Proof. intros Hn. by apply concat_chunks_fuel. Qed.

(** [n] rows are left unread, none if [n] is zero. *)
Definition leaves (rest : list Reservation) (n : nat) (todo' : list Reservation) (_ : list Obs) : Prop :=
  exists left, todo' ≡ₚ left ++ rest /\ (n = 0%nat -> left = []).

Lemma spec_reconcile_chunk chunk todo rest tr :
  Forall cand_ok chunk -> todo ≡ₚ chunk.*1 ++ rest ->
  spec todo tr (reconcile_chunk cx chunk) (leaves rest).
Proof.
  intros Hc Hp. eapply spec_bind; [apply spec_try_owners|].
  intros [own|e] todo1 tr1 Htr [-> Hown].
  - eapply spec_bind; [apply (spec_for_each _ (fun rc : Claimed => rc.1) chunk _ rest)|].
    + intros rc t rst tr2 Hin Htr2 Hp2. apply spec_record; [done|].
      case_bool_decide as Ho; [|done]. intros _. rewrite Forall_forall in Hc.
      apply justifies_claim_evidence; [by apply Hc|]. exists (SawOwners own).
      split; [by apply Htr2|done].
    + exact Hp.
    + intros [] todo2 tr2 _ [Hp2 _]. apply spec_ret. intros. by exists [].
  - apply spec_ret. intros tr2 _. exists chunk.*1. split; [done|]. by destruct chunk.
Qed.

Lemma spec_reconcile_chunks cs todo rest tr :
  Forall cand_ok (concat cs) -> todo ≡ₚ (concat cs).*1 ++ rest ->
  spec todo tr (reconcile_chunks cx cs) (leaves rest).
Proof.
  revert todo rest tr; induction cs as [|c cs IH]; intros todo rest tr Hc Hp; simpl.
  { apply spec_ret. intros. by exists []. }
  simpl in Hc, Hp. apply Forall_app in Hc as [Hc1 Hc2]. rewrite fmap_app, <-app_assoc in Hp.
  eapply spec_bind; [by apply spec_reconcile_chunk|].
  intros n todo1 tr1 _ (l1 & Hl1 & Hn1).
  eapply spec_bind; [apply (IH _ (l1 ++ rest)); [done|]|].
  { rewrite Hl1. by rewrite !app_assoc, (Permutation_app_comm l1). }
  intros m todo2 tr2 _ (l2 & Hl2 & Hn2). apply spec_ret. intros tr3 _.
  exists (l2 ++ l1). split; [by rewrite Hl2, app_assoc|]. intros Hz.
  rewrite Hn1, Hn2 by lia. done.
Qed.

Lemma spec_reconcile_submitting tr :
  spec [] tr (reconcile_submitting account_from_str cx) (fun _ todo' _ => todo' = []).
Proof.
  eapply spec_bind; [apply keeps_spec, keeps_link_up|]. intros up todo1 tr1 _ [-> _].
  destruct up; simpl; [|by apply spec_ret].
  eapply spec_bind; [apply spec_read_rows; intros; by eapply a_stuck|]. intros stuck todo2 tr2 _ ->.
  eapply spec_bind; [apply (spec_gate_rows _ _ _ [])|].
  { intros r c. unfold parse_candidate, candidate_of. by destruct (account_from_str _); intros; simplify_eq. }
  { by rewrite app_nil_r. }
  intros parsed todo3 tr3 _ (gone & _ & _ & Htodo & Hc).
  destruct parsed as [|rc parsed]; [apply spec_ret; intros; by apply Permutation_nil_r in Htodo|].
  set (all := rc :: parsed) in *. assert (concat (chunks RECONCILE_READ_CHUNK all) = all) as Hcc
    by (apply concat_chunks; unfold RECONCILE_READ_CHUNK; lia).
  eapply spec_bind; [apply (spec_reconcile_chunks _ _ []); by rewrite Hcc|].
  intros unread todo4 tr4 _ (l & Hl & Hn).
  destruct (Nat.eqb_spec unread 0) as [Hz|Hz]; [|apply spec_throw].
  apply spec_ret. intros. rewrite (Hn Hz) in Hl. by apply Permutation_nil_r in Hl.
Qed.

(** ** The drain *)

Section drain.
(** What the lane's gate lets through is the row's own candidate. *)
Context (gate_candidate : forall r ctx now app c,
  lane_gate r ctx now app = Ok c -> candidate_of r = Some c).

Lemma spec_triage ctx due todo rest tr :
  todo ≡ₚ due ++ rest -> spec todo tr (triage cx ctx due) (splits due rest).
Proof using gate_candidate.
  intros Hp. eapply spec_bind; [apply keeps_spec, keeps_app_now|]. intros now todo1 tr1 _ [-> _].
  eapply spec_bind; [apply (spec_gate_rows _ _ _ rest); [|exact Hp]; intros r c; apply gate_candidate|].
  intros gated todo2 tr2 Htr2 (gone & Hdue & Hrec & Htodo & Hc).
  assert (forall out t tr', tr2 ⊆ tr' -> splits gated.*1 rest out t tr' -> splits due rest out t tr')
    as Hcomp.
  { intros out t tr' Htr' (gone' & Hg & Hrec' & Ht & Hc'). exists (gone ++ gone').
    split; [by rewrite Hdue, Hg, app_assoc|]. split; [|done].
    apply recorded_app; [by eapply recorded_mono|done]. }
  assert (spec todo2 tr2 (match gated with
    | [] => mret []
    | _ =>
        res ← try (owners ((fun rc : Claimed => full_username rc.1) <$> gated));
        match res with
        | Err e => _ ← retry_batch cx gated.*1 ("owner read failed: " +:+ e); mret []
        | Ok own => submittable_rows cx own gated
        end
    end) (splits gated.*1 rest)) as Hg.
  2:{ eapply spec_weaken; [exact Hg|done|]. intros out t tr' Htr'. by apply Hcomp. }
  destruct gated as [|rc gated]; [apply spec_ret; intros; by apply splits_nil|].
  eapply spec_bind; [apply spec_try_owners|]. intros [own|e] todo3 tr3 _ [-> Hown].
  - by apply spec_submittable_rows.
  - eapply spec_bind; [by apply spec_retry_batch|]. intros [] todo4 tr4 _ [Hp4 Hr4].
    apply spec_ret. intros tr5 Htr5. exists (rc :: gated).*1.
    split; [by rewrite app_nil_r|]. split; [by eapply recorded_mono|done].
Qed.

Lemma spec_pass tr : spec [] tr (pass describe cx) (fun _ todo' _ => todo' = []).
Proof using gate_candidate.
  eapply spec_bind; [apply keeps_spec, keeps_link_up|]. intros up todo1 tr1 _ [-> _].
  destruct up; simpl; [|by apply spec_ret].
  eapply spec_bind; [apply keeps_spec, keeps_get_drain|]. intros d todo2 tr2 _ [-> _].
  eapply spec_bind; [apply spec_read_rows; intros; by eapply a_claim|].
  intros due todo3 tr3 _ ->.
  destruct due as [|r0 due0]; [by apply spec_ret|]. generalize (r0 :: due0). clear r0 due0.
  intros due. assert (due ≡ₚ due ++ []) as Hp by (by rewrite app_nil_r).
  eapply spec_bind; [apply keeps_spec, keeps_hold|]. intros [] todo4 tr4 _ [-> _].
  eapply spec_bind; [apply keeps_spec, keeps_get_drain|]. intros d' todo5 tr5 _ [-> _].
  eapply spec_bind; [by apply spec_try, keeps_ask|]. intros [ctx|e] todo6 tr6 _ [-> _].
  - eapply spec_bind; [apply spec_lift_err; by apply (spec_triage ctx due due [])|].
    intros sub todo7 tr7 _ Hsub.
    assert (spec todo7 tr7 (match sub with
              | [] => mret tt
              | [rc] => one describe cx rc
              | _ => batch describe cx sub
              end) (fun _ todo' _ => todo' = [])) as Hlast.
    { destruct Hsub as (gone & _ & _ & Htodo & Hc). destruct sub as [|rc [|rc' sub]].
      - apply spec_ret. intros. by apply Permutation_nil_r in Htodo.
      - rewrite Forall_singleton in Hc. eapply spec_weaken; [apply (spec_one rc _ []); [exact Hc|exact Htodo]|done|].
        intros [] t tr' _ [Ht _]. by apply Permutation_nil_r in Ht.
      - eapply spec_weaken; [by apply (spec_batch _ _ [])|done|].
        intros [] t tr' _ [Ht _]. by apply Permutation_nil_r in Ht. }
    eapply spec_bind; [exact Hlast|]. intros [] todo8 tr8 _ ->. by apply spec_ret.
  - eapply spec_bind; [by apply (spec_retry_batch _ _ _ [])|]. intros [] todo7 tr7 _ [Ht _].
    apply spec_ret. intros. by apply Permutation_nil_r in Ht.
Qed.

End drain.
End spec.
End WriterSpec.
