(* ===== verification/WriterProps.v ===== *)
(** * WriterProps: consequences of the writer's specification

    By rule induction on the steps of the abstract writer, for any lane that
    satisfies [LaneLaws]: a row lands only on evidence from the chain, each
    claimed row is recorded exactly once, rows that are final stay as they are,
    and a writer that lost its lease writes nothing.  The theorems about other
    processes are rely/guarantee: what the other processes are assumed to leave
    alone is what the drain leaves alone itself. *)

From S2P Require Import Prelude Strings Schema Lease Outbox WriterLane WriterTx WriterEngine WriterSpec.

#[local] Open Scope Z_scope.

Module WriterProps.

Export WriterSpec.

Abbreviation rows_of := db_reservations.

(** Every row is kept, with the claim it was made for (name, candidate, signatures
    and keys). *)
Definition keeps_new (db db' : Db) : Prop :=
  forall k row, rows_of db !! k = Some row ->
    exists row', rows_of db' !! k = Some row' /\ r_new row' = r_new row.

#[export] Instance keeps_new_preorder : PreOrder keeps_new.
Proof.
  split.
  - intros db k row Hr. by exists row.
  - intros a b c Hab Hbc k row Hr. destruct (Hab k row Hr) as (row1 & H1 & E1).
    destruct (Hbc k row1 H1) as (row2 & H2 & E2). exists row2. split; [done|congruence].
Qed.

Lemma keeps_new_rows db db' : rows_of db' = rows_of db -> keeps_new db db'.
Proof. intros Hr k row. rewrite Hr. eauto. Qed.

Lemma keeps_new_insert db db' k row row' :
  rows_of db !! k = Some row -> r_new row' = r_new row ->
  rows_of db' = <[k := row']> (rows_of db) -> keeps_new db db'.
Proof.
  intros Hk He Hr j r0 Hj. rewrite Hr. destruct (decide (j = k)) as [->|Hne].
  - simplify_eq. exists row'. by rewrite lookup_insert_eq.
  - exists r0. by rewrite lookup_insert_ne.
Qed.

Lemma guarded_update_new now g rid f db : keeps_claim f -> keeps_new db (guarded_update now g rid f db).2.
Proof.
  intros Hf. destruct (guarded_update now g rid f db) as [b db'] eqn:E.
  apply guarded_update_spec in E. destruct b; simpl; [|by subst].
  destruct E as (row & _ & Hr & ->). destruct (Hf row) as [Hn _]. by eapply keeps_new_insert.
Qed.

(** [r] is row [k], as a query of the outbox read it: of the claim that [row] has. *)
Definition read_from (k : Z) (row : Row) (r : Reservation) : Prop :=
  exists row0, reservation_of k row0 r /\ r_new row0 = r_new row.

Lemma read_from_new k row row' r : r_new row' = r_new row -> read_from k row r -> read_from k row' r.
Proof. intros He (row0 & Hr & E0). exists row0. split; [done|congruence]. Qed.

(** So its name and its candidate are the row's. *)
Lemma read_from_fields k row r :
  read_from k row r ->
  id r = k /\ full_username r = r_full_username row /\
  candidate_account_id r = nr_candidate_account_id (r_new row).
Proof.
  intros (row0 & Hr & E0). unfold r_full_username. rewrite <-E0. unfold reservation_of in Hr. simpl in Hr.
  destruct (nr_payload_version _ <? 0); by simplify_eq.
Qed.

(** What the engine relies on of a lane's database operations. *)
Class LaneLaws (W Link Ctx : Type) `{!Lane W Link Ctx} := {
  lane_state : Row -> string;
  lane_open : Row -> bool;
  lane_final : string -> bool;
  lane_landed : string -> bool;
  law_open_final row : lane_open row = true -> lane_final (lane_state row) = false;
  law_claim now limit db rs :
    lane_claim now limit db = Some rs ->
    NoDup (id <$> rs) /\
    forall r, r ∈ rs -> exists row, rows_of db !! id r = Some row /\ lane_open row = true /\
      reservation_of (id r) row r;
  law_submitting db rs :
    lane_submitting db = Some rs ->
    NoDup (id <$> rs) /\
    forall r, r ∈ rs -> exists row, rows_of db !! id r = Some row /\ lane_open row = true /\
      reservation_of (id r) row r;
  law_mark_fenced now g r h n db :
    lease_held now g (db_leases db) = false -> lane_mark now g r h n db = (false, db);
  law_mark_leases now g r h n db : db_leases (lane_mark now g r h n db).2 = db_leases db;
  law_mark_frame now g r h n db k :
    k <> id r -> rows_of (lane_mark now g r h n db).2 !! k = rows_of db !! k;
  law_mark_row now g r h n db row :
    rows_of db !! id r = Some row -> lane_open row = true ->
    exists row', rows_of (lane_mark now g r h n db).2 !! id r = Some row' /\ lane_open row' = true;
  law_mark_new now g r h n db : keeps_new db (lane_mark now g r h n db).2;
  law_mark_landed now g r h n db row' :
    rows_of (lane_mark now g r h n db).2 !! id r = Some row' ->
    lane_landed (lane_state row') = true ->
    exists row, rows_of db !! id r = Some row /\ lane_landed (lane_state row) = true;
  law_record_fenced now app g r o db :
    lease_held now g (db_leases db) = false ->
    is_ok (lane_record now app g r o db).1 = false /\
    db_equiv db (lane_record now app g r o db).2;
  law_record_leases now app g r o db : db_leases (lane_record now app g r o db).2 = db_leases db;
  law_record_frame now app g r o db k :
    k <> id r -> rows_of (lane_record now app g r o db).2 !! k = rows_of db !! k;
  law_record_new now app g r o db : keeps_new db (lane_record now app g r o db).2;
  law_record_landed now app g r o db row' :
    is_landed o = false -> rows_of (lane_record now app g r o db).2 !! id r = Some row' ->
    lane_landed (lane_state row') = true ->
    exists row, rows_of db !! id r = Some row /\ lane_landed (lane_state row) = true;
}.

Definition claims_of (tr : list Obs) : list Reservation :=
  concat (omap (fun o => match o with DidClaim rs => Some rs | _ => None end) tr).
Definition records_of (tr : list Obs) : list Reservation :=
  omap (fun o => match o with DidRecord r _ => Some r | _ => None end) tr.

Section props.
Context {W Link Ctx : Type} `{!World W, !Lane W Link Ctx, !LaneLaws W Link Ctx}.
Context (account_from_str : string -> option bytes) (describe : bytes -> string).
Context (cx : Cx).

Abbreviation WS := (WriterSpec.WS (W := W)).
Abbreviation step := (wstep account_from_str describe cx).
Abbreviation seen r := (evidence account_from_str describe r).

(** ** Accounting *)

Definition balanced (s : WS) : Prop :=
  match ws_todo s with
  | Some todo => claims_of (ws_trace s) ≡ₚ records_of (ws_trace s) ++ todo
  | None => True
  end.

Lemma step_balanced s s' : step s s' -> balanced s -> balanced s'.
Proof.
  destruct 1 as [todo w db tr todo' db' tr' Ha|todo w db tr o Ho|todo w db tr]; unfold balanced; simpl.
  - destruct Ha as [| | | | |todo0 todo1 db0 r o db1 Hp _ _|]; try done.
    + rewrite app_nil_r. unfold claims_of, records_of. simpl. intros ->. by rewrite Permutation_app_comm.
    + rewrite app_nil_r. unfold claims_of, records_of. simpl. intros ->. by rewrite Permutation_app_comm.
    + unfold claims_of, records_of. simpl. intros ->. rewrite Hp. by rewrite Permutation_middle.
  - unfold claims_of, records_of. by destruct o.
  - done.
Qed.

Lemma steps_balanced s s' : rtc step s s' -> balanced s -> balanced s'.
Proof. induction 1; [done|]. eauto using step_balanced. Qed.

(** ** Landings *)

Definition landed_at (db : Db) (k : Z) : Prop :=
  exists row, rows_of db !! k = Some row /\ lane_landed (lane_state row) = true.

(** Only the writer lands rows. *)
Definition never_lands (f : W -> Db -> Db) : Prop :=
  forall w db k, landed_at (f w db) k -> landed_at db k.

(** Nobody deletes a row, or rewrites the claim it was made for. *)
Definition keeps_claims (f : W -> Db -> Db) : Prop :=
  forall w db, keeps_new db (f w db).

(** Row [k] was shown on chain: the evidence is for that row, its name and its
    candidate. *)
Definition shown (tr : list Obs) (k : Z) (row : Row) : Prop :=
  exists r, read_from k row r /\ seen tr r.

Definition landings_justified (db0 db : Db) (tr : list Obs) : Prop :=
  forall k row, rows_of db !! k = Some row -> lane_landed (lane_state row) = true ->
    landed_at db0 k \/ shown tr k row.

(** The claims outstanding were read from the rows they are for. *)
Definition anchored (todo : option (list Reservation)) (db : Db) : Prop :=
  match todo with
  | Some todo => forall r, r ∈ todo -> exists row, rows_of db !! id r = Some row /\ read_from (id r) row r
  | None => True
  end.

Lemma empty_anchored db : anchored (Some []) db.
Proof. intros r Hr. by apply not_elem_of_nil in Hr. Qed.

Lemma anchored_new todo db db' : keeps_new db db' -> anchored todo db -> anchored todo db'.
Proof.
  intros Hn. destruct todo as [todo|]; [|done]. intros Ha r Hr.
  destruct (Ha r Hr) as (row & Hrow & Hf). destruct (Hn _ _ Hrow) as (row' & Hrow' & He).
  exists row'. split; [done|]. by eapply read_from_new.
Qed.

Lemma shown_mono tr tr' k row : tr ⊆ tr' -> shown tr k row -> shown tr' k row.
Proof. intros Ht (r & Hf & Hs). exists r. split; [done|]. by eapply evidence_mono. Qed.

(** A change that lands no row keeps the justification of the others. *)
Lemma justified_frame db0 db db' tr tr' :
  (forall k, landed_at db' k -> landed_at db k) -> keeps_new db db' -> tr ⊆ tr' ->
  landings_justified db0 db tr -> landings_justified db0 db' tr'.
Proof.
  intros Hl Hn Ht Hj k row' Hr' Hlr. destruct (Hl k) as (row & Hr & Hlr0); [by exists row'|].
  destruct (Hn k row Hr) as (row1 & Hr1 & He). simplify_eq.
  destruct (Hj k row Hr Hlr0) as [?|(r & Hf & Hs)]; [by left|right].
  exists r. split; [by eapply read_from_new|]. by eapply evidence_mono.
Qed.

Lemma mark_landed now r h n db k :
  landed_at (lane_mark now (guard cx) r h n db).2 k -> landed_at db k.
Proof.
  intros (row & Hr & Hl). destruct (decide (k = id r)) as [->|Hne].
  - by eapply law_mark_landed.
  - exists row. by rewrite law_mark_frame in Hr.
Qed.

Lemma record_landed now app r o db k :
  landed_at (lane_record now app (guard cx) r o db).2 k ->
  landed_at db k \/ k = id r /\ is_landed o = true.
Proof.
  intros (row & Hr & Hl). destruct (decide (k = id r)) as [->|Hne].
  - destruct (is_landed o) eqn:Eo; [by right|left]. by eapply law_record_landed.
  - left. exists row. by rewrite law_record_frame in Hr.
Qed.

(** Recording an outcome of a claim: a landing is justified by the evidence for
    the row the claim was read from. *)
Lemma record_justified db0 now app r o db tr tr' row :
  rows_of db !! id r = Some row -> read_from (id r) row r -> (is_landed o = true -> seen tr r) ->
  tr ⊆ tr' -> landings_justified db0 db tr ->
  landings_justified db0 (lane_record now app (guard cx) r o db).2 tr'.
Proof.
  intros Hrow Hf Ho Ht Hj k row' Hr' Hl.
  pose proof (law_record_new now app (guard cx) r o db) as Hn.
  destruct (record_landed now app r o db k) as [(row0 & H0 & Hl0)|[-> Hlo]]; [by exists row'| |].
  - destruct (Hn k row0 H0) as (row1 & H1 & He). simplify_eq.
    destruct (Hj k row0 H0 Hl0) as [?|Hs]; [by left|right]. apply (shown_mono tr); [done|].
    destruct Hs as (r' & Hf' & Hs). exists r'. split; [by eapply read_from_new|done].
  - right. destruct (Hn _ _ Hrow) as (row1 & H1 & He). simplify_eq. exists r.
    split; [by eapply read_from_new|]. eapply evidence_mono; [exact Ht|by apply Ho].
Qed.

(** One statement, on the database it finds. *)
Lemma act_landings db0 now app tr todo db todo' db' tr' :
  act account_from_str describe cx now app tr todo db todo' db' tr' ->
  landings_justified db0 db tr -> anchored todo db ->
  landings_justified db0 db' tr' /\ anchored todo' db'.
Proof.
  assert (forall (o : Obs) t, t ⊆ o :: t) as Hc by set_solver.
  destruct 1 as [todo db|db limit rs Hcl|db rs Hcl|todo db|todo db r h n Hin
    |todo todo' db r o db' Hp Ho Heq|todo db r o Hin Ho]; intros Hj Ha.
  - done.
  - split; [by apply (justified_frame db0 db db tr)|]. intros r Hr.
    apply law_claim in Hcl as [_ Hel]. destruct (Hel r Hr) as (row & Hrow & _ & Hres).
    exists row. split; [done|]. by exists row.
  - split; [by apply (justified_frame db0 db db tr)|]. intros r Hr.
    apply law_submitting in Hcl as [_ Hel]. destruct (Hel r Hr) as (row & Hrow & _ & Hres).
    exists row. split; [done|]. by exists row.
  - unfold renew_lease. by destruct (renew _ _ _ _).
  - pose proof (law_mark_new now (guard cx) r h n db) as Hn.
    split; [|by eapply anchored_new].
    apply (justified_frame db0 db _ tr); [intros k; apply mark_landed|done|done|done].
  - destruct (Ha r) as (row & Hrow & Hf); [rewrite Hp; left|].
    pose proof (law_record_new now app (guard cx) r o db) as Hn.
    pose proof (record_justified db0 now app r o db tr (DidRecord r o :: tr) row Hrow Hf Ho (Hc _ _) Hj) as Hj'.
    rewrite Heq in Hn, Hj'. split; [done|]. apply (anchored_new _ db); [done|].
    intros r' Hr'. apply Ha. rewrite Hp. by right.
  - destruct (Ha r Hin) as (row & Hrow & Hf). split; [|done].
    by apply (record_justified db0 now app r o db tr tr row).
Qed.

Lemma step_landings db0 s s' :
  never_lands w_interfere -> keeps_claims w_interfere -> step s s' ->
  landings_justified db0 (ws_db s) (ws_trace s) /\ anchored (ws_todo s) (ws_db s) ->
  landings_justified db0 (ws_db s') (ws_trace s') /\ anchored (ws_todo s') (ws_db s').
Proof.
  intros Hl Hn. destruct 1 as [todo w db tr todo' db' tr' Ha|todo w db tr o Ho|todo w db tr];
    intros [Hj Han]; simpl in *; [|split; [|done]|done].
  - eapply act_landings; [exact Ha| |].
    + by apply (justified_frame db0 db _ tr); [intros k; apply Hl|apply Hn| |].
    + apply (anchored_new _ db); [apply Hn|done].
  - apply (justified_frame db0 db db tr); [done|done|set_solver|done].
Qed.

Lemma steps_landings db0 s s' :
  never_lands w_interfere -> keeps_claims w_interfere -> rtc step s s' ->
  landings_justified db0 (ws_db s) (ws_trace s) -> anchored (ws_todo s) (ws_db s) ->
  landings_justified db0 (ws_db s') (ws_trace s').
Proof.
  intros Hl Hn Hs Hj Ha.
  assert (landings_justified db0 (ws_db s') (ws_trace s') /\ anchored (ws_todo s') (ws_db s')) as [? _];
    [|done].
  assert (landings_justified db0 (ws_db s) (ws_trace s) /\ anchored (ws_todo s) (ws_db s)) as H by done.
  clear Hj Ha. induction Hs; [done|]. eauto using step_landings.
Qed.

(** ** Fencing *)

Abbreviation fenced w db := (dead (w_now w) (guard cx) (db_leases db)).

Definition clock_monotone : Prop := forall w, w_now w <= w_now (w_next w).

(** Other processes act on leases through the lease protocol, so a dead guard
    stays dead ([dead_steps]). *)
Definition keeps_fence (f : W -> Db -> Db) : Prop :=
  forall w db, fenced w db -> fenced w (f w db).

Lemma fenced_next w db : clock_monotone -> fenced w db -> fenced (w_next w) db.
Proof. intros Hm. apply dead_step. apply ls_tick, Hm. Qed.

Lemma renew_lease_fenced w db : fenced w db -> (renew_lease cx (w_now w) db).2 = db.
Proof.
  intros Hd%dead_not_held. unfold renew_lease. rewrite renew_false by done. simpl. by destruct db.
Qed.

Definition equiv_no_record (db : Db) (tr : list Obs) (db' : Db) (tr' : list Obs) : Prop :=
  db_equiv db db' /\ records_of tr' = records_of tr.

Lemma act_fenced w tr todo db todo' db' tr' :
  fenced w db ->
  act account_from_str describe cx (w_now w) (w_app_now w) tr todo db todo' db' tr' ->
  fenced w db' /\ equiv_no_record db tr db' tr'.
Proof.
  intros Hf. pose proof (dead_not_held _ _ _ Hf) as Hh.
  destruct 1 as [| | | |todo db r h n Hin|todo todo' db r o db' Hp Ho Heq|todo db r o Hin Ho].
  - by repeat split.
  - by repeat split.
  - by repeat split.
  - rewrite renew_lease_fenced by done. by repeat split.
  - rewrite law_mark_fenced by done. by repeat split.
  - destruct (law_record_fenced _ (w_app_now w) _ r o _ Hh) as [Hf' _]. by rewrite Heq in Hf'.
  - destruct (law_record_fenced _ (w_app_now w) _ r o _ Hh) as [_ He].
    split; [|by split]. destruct He as (_ & Hl & _). by rewrite <-Hl.
Qed.

Lemma steps_fenced s s' :
  clock_monotone -> (forall w db, w_interfere w db = db) -> rtc step s s' ->
  fenced (ws_w s) (ws_db s) ->
  fenced (ws_w s') (ws_db s') /\ equiv_no_record (ws_db s) (ws_trace s) (ws_db s') (ws_trace s').
Proof.
  intros Hm Hi. induction 1 as [s|s s1 s2 Hs _ IH]; intros Hf; [by split|].
  assert (fenced (ws_w s1) (ws_db s1) /\
          equiv_no_record (ws_db s) (ws_trace s) (ws_db s1) (ws_trace s1)) as [Hf1 [He1 Hr1]].
  { destruct Hs as [todo w db tr todo' db' tr' Ha|todo w db tr o Ho|todo w db tr]; simpl in *.
    - rewrite Hi in Ha. destruct (act_fenced _ _ _ _ _ _ _ Hf Ha) as [? ?].
      split; [by apply fenced_next|done].
    - split; [by apply fenced_next|]. split; [done|]. unfold records_of. by destruct o.
    - split; [by apply fenced_next|]. by split. }
  destruct (IH Hf1) as [Hf2 [He2 Hr2]]. split; [done|]. split; [by etrans|congruence].
Qed.

(** ** Final rows *)

Definition final_at (db : Db) (k : Z) (s : string) : Prop :=
  lane_final s = true /\ exists row, rows_of db !! k = Some row /\ lane_state row = s.

Definition keeps_final (f : W -> Db -> Db) : Prop :=
  forall w db k s, final_at db k s -> final_at (f w db) k s.

Definition open_at (db : Db) (k : Z) : Prop :=
  exists row, rows_of db !! k = Some row /\ lane_open row = true.

(** While the writer is not fenced, the rows of its lane are its own. *)
Definition leaves_open (f : W -> Db -> Db) : Prop :=
  forall w db, fenced w (f w db) \/ forall k, open_at db k -> open_at (f w db) k.

Definition owns (todo : option (list Reservation)) (db : Db) : Prop :=
  match todo with
  | Some todo => NoDup (id <$> todo) /\ forall r, r ∈ todo -> open_at db (id r)
  | None => True
  end.

Lemma open_not_final db k s : open_at db k -> final_at db k s -> False.
Proof.
  intros (row & Hr & Ho) (Hf & row' & Hr' & Hs). simplify_eq.
  apply law_open_final in Ho. congruence.
Qed.

Lemma final_frame (db db' : Db) k r s :
  (forall k', k' <> id r -> rows_of db' !! k' = rows_of db !! k') ->
  open_at db (id r) -> final_at db k s -> final_at db' k s.
Proof.
  intros Hframe Ho Hk. destruct (decide (k = id r)) as [->|Hne]; [by destruct (open_not_final db (id r) s)|].
  destruct Hk as (Hf & row & Hr & Hs). split; [done|]. exists row. by rewrite Hframe.
Qed.

(** One statement of an unfenced writer that owns its claims. *)
Lemma act_final w tr todo db todo' db' tr' :
  owns todo db ->
  act account_from_str describe cx (w_now w) (w_app_now w) tr todo db todo' db' tr' ->
  owns todo' db' /\ forall k s, final_at db k s -> final_at db' k s.
Proof.
  intros Hown. destruct 1 as [todo db|db limit rs Hc|db rs Hc|todo db|todo db r h n Hin
    |todo todo' db r o db' Hp Ho Heq|todo db r o Hin Ho].
  - done.
  - split; [|done]. apply law_claim in Hc as [Hnd Hel]. split; [done|]. intros r Hr.
    destruct (Hel r Hr) as (row & ? & ? & _). by exists row.
  - split; [|done]. apply law_submitting in Hc as [Hnd Hel]. split; [done|]. intros r Hr.
    destruct (Hel r Hr) as (row & ? & ? & _). by exists row.
  - unfold renew_lease. by destruct (renew _ _ _ _).
  - destruct Hown as [Hnd Hopen]. split.
    + split; [done|]. intros r' Hr'. destruct (Hopen r' Hr') as (row & Hrow & Hop).
      destruct (decide (id r' = id r)) as [Heq|Hne].
      * rewrite Heq in *. by eapply law_mark_row.
      * exists row. by rewrite law_mark_frame.
    + intros k s. apply (final_frame _ _ _ r); [|by apply Hopen]. intros. by apply law_mark_frame.
  - destruct Hown as [Hnd Hopen].
    assert (forall k', k' <> id r -> rows_of db' !! k' = rows_of db !! k') as Hframe.
    { intros k' Hk'. by rewrite <-(law_record_frame (w_now w) (w_app_now w) (guard cx) r o db k' Hk'), Heq. }
    rewrite Hp in Hnd. rewrite fmap_cons in Hnd. apply NoDup_cons in Hnd as [Hnin Hnd]. split.
    + split; [done|]. intros r' Hr'. destruct (Hopen r') as (row & Hrow & Hop); [rewrite Hp; by right|].
      exists row. rewrite Hframe; [done|]. intros Heq'. apply Hnin. rewrite <-Heq'.
      apply list_elem_of_fmap. by exists r'.
    + intros k s. apply (final_frame _ _ _ r); [done|]. apply Hopen. rewrite Hp. left.
  - destruct Hown as [Hnd Hopen]. split; [done|]. intros k s.
    apply (final_frame _ _ _ r); [|by apply Hopen]. intros. by apply law_record_frame.
Qed.

Lemma equiv_final db db' k s : db_equiv db db' -> final_at db k s -> final_at db' k s.
Proof. intros (Hr & _) Hf. unfold final_at in *. by rewrite <-Hr. Qed.

Definition safe (s : WS) : Prop := fenced (ws_w s) (ws_db s) \/ owns (ws_todo s) (ws_db s).

Section rely.
Context (Hmono : clock_monotone).
Context (Hfence : keeps_fence w_interfere) (Hfinal : keeps_final w_interfere).
Context (Hopen : leaves_open w_interfere).

Lemma step_final s s' :
  step s s' -> safe s ->
  safe s' /\ forall k st, final_at (ws_db s) k st -> final_at (ws_db s') k st.
Proof using Hmono Hfence Hfinal Hopen.
  destruct 1 as [todo w db tr todo' db' tr' Ha|todo w db tr o Ho|todo w db tr]; intros Hs.
  - assert (fenced w (w_interfere w db) \/ owns todo (w_interfere w db)) as [Hf|Hown].
    { destruct Hs as [Hf|Hown]; [left; by apply Hfence|].
      destruct (Hopen w db) as [Hf|Ho]; [by left|right]. destruct todo as [todo|]; [|done].
      destruct Hown as [Hnd Hop]. split; [done|]. intros r Hr. by apply Ho, Hop. }
    + destruct (act_fenced _ _ _ _ _ _ _ Hf Ha) as [Hf' [He _]].
      split; [left; by apply fenced_next|]. intros k st Hk. simpl.
      eapply equiv_final; [exact He|]. by apply Hfinal.
    + destruct (act_final w _ _ _ _ _ _ Hown Ha) as [Hown' Hk'].
      split; [by right|]. intros k st Hk. simpl. by apply Hk', Hfinal.
  - split; [|done]. destruct Hs as [Hf|Hown]; [left; by apply fenced_next|by right].
  - split; [|done]. destruct Hs as [Hf|Hown]; [left; by apply fenced_next|by right].
Qed.

Lemma steps_final s s' :
  rtc step s s' -> safe s ->
  forall k st, final_at (ws_db s) k st -> final_at (ws_db s') k st.
Proof using Hmono Hfence Hfinal Hopen.
  induction 1 as [s|s s1 s2 Hs _ IH]; intros Hsafe k st Hk; [done|].
  destruct (step_final _ _ Hs Hsafe) as [Hsafe1 Hk1]. by apply IH, Hk1.
Qed.
End rely.
(** ** The engine *)

Section engine.
Context (gate_candidate : forall r ctx now app c,
  lane_gate r ctx now app = Ok c -> candidate_of account_from_str r = Some c).

Abbreviation St := (WriterEngine.St (W := W) (Link := Link)).
Abbreviation run_pass := (pass describe cx).
Abbreviation run_reconcile := (reconcile_submitting account_from_str cx).

Lemma pass_steps (st : St) :
  exists otodo, rtc step (view (Some []) st) (view otodo (run_pass st).2) /\
    (is_ok (run_pass st).1 = true -> otodo = Some []).
Proof using gate_candidate.
  destruct (spec_pass account_from_str describe cx gate_candidate (st_trace st) st)
    as (otodo & Hs & _ & Hq); [done|].
  exists otodo. split; [done|]. destruct (run_pass st).1; [|done]. by destruct Hq as (? & -> & ->).
Qed.

Lemma reconcile_steps (st : St) :
  exists otodo, rtc step (view (Some []) st) (view otodo (run_reconcile st).2) /\
    (is_ok (run_reconcile st).1 = true -> otodo = Some []).
Proof.
  destruct (spec_reconcile_submitting account_from_str describe cx (st_trace st) st)
    as (otodo & Hs & _ & Hq); [done|].
  exists otodo. split; [done|]. destruct (run_reconcile st).1; [|done]. by destruct Hq as (? & -> & ->).
Qed.
End engine.
End props.

End WriterProps.
