(* ===== verification/Signature.v ===== *)
(** * Signature: what account signatures cover ([signature.rs], [dotns.rs])

    The messages a candidate signs, the form a runtime accepts them in, and the
    validity window of a dotNS reservation signature.  [sr25519_verify] is the
    verification of [subxt_signer]; the SCALE encodings are those of
    [parity-scale-codec], used through the interface [Scale], of which only that
    an encoding can be read back in front of anything ([ScaleLaws]) matters. *)

From S2P Require Import Prelude Strings Schema Lease Outbox.

#[local] Open Scope Z_scope.

Module Signature.

Export Outbox.

(** ** [signature.rs] *)

Definition POP_REGISTER_PREFIX : bytes := as_bytes "pop:people-lite:register using".

Inductive AccountSignatureForm :=
| Plain
| InContext (context : bytes).

(** A [SigningContext] constant that is not 32 bytes is read as absent. *)
Definition form_from_constant (value : option bytes) : AccountSignatureForm :=
  match value with
  | Some b => if decide (length b = 32%nat) then InContext b else Plain
  | None => Plain
  end.

Definition candidate_message (candidate_pubkey ring_key : bytes) : bytes :=
  POP_REGISTER_PREFIX ++ candidate_pubkey ++ ring_key.

Definition signed_payload (form : AccountSignatureForm) (message : bytes) : bytes :=
  match form with Plain => [] | InContext context => context end ++ message.

Section verify.
Context (sr25519_verify : bytes -> bytes -> bytes -> bool).

Definition verify_account_signature (signature message signer : bytes)
    (form : AccountSignatureForm) : bool :=
  if decide (length signature = 64%nat)
  then sr25519_verify signature (signed_payload form message) signer
  else false.

Definition verify_candidate_signature (candidate_pubkey signature ring_key : bytes)
    (form : AccountSignatureForm) : bool :=
  verify_account_signature signature (candidate_message candidate_pubkey ring_key)
    candidate_pubkey form.
End verify.

(** ** [dotns.rs] *)

Definition RESERVE_MSG_PREFIX : bytes := as_bytes "pop:dotns-gateway:reserve".

Definition lite_base (lite_label : string) : string :=
  match split_once "." lite_label with
  | Some (base, _) => base
  | None => lite_label
  end.

(** [Encode] for byte strings, optional byte strings and [u64]. *)
Class Scale := {
  encode_bytes : bytes -> bytes;
  encode_option : option bytes -> bytes;
  encode_u64 : Z -> bytes;
}.

(** Each encoding can be read back in front of any continuation. *)
Class ScaleLaws `{!Scale} := {
  encode_bytes_inj a b x y : encode_bytes a ++ x = encode_bytes b ++ y -> a = b /\ x = y;
  encode_option_inj a b x y : encode_option a ++ x = encode_option b ++ y -> a = b /\ x = y;
  encode_u64_inj a b x y :
    0 <= a -> 0 <= b -> encode_u64 a ++ x = encode_u64 b ++ y -> a = b /\ x = y;
}.

Section dotns.
Context `{!Scale}.

Definition reservation_message (candidate attester username_base chat_key : bytes)
    (reserved_base_label : option bytes) (signed_at : Z) : bytes :=
  encode_bytes RESERVE_MSG_PREFIX ++ candidate ++ attester ++ encode_bytes username_base
  ++ encode_bytes chat_key ++ encode_option reserved_base_label ++ encode_u64 signed_at.

Definition verify_reservation_signature (sr25519_verify : bytes -> bytes -> bytes -> bool)
    (signature candidate attester username_base chat_key : bytes)
    (reserved_base_label : option bytes) (signed_at : Z) (form : AccountSignatureForm) : bool :=
  verify_account_signature sr25519_verify signature
    (reservation_message candidate attester username_base chat_key reserved_base_label signed_at)
    candidate form.
End dotns.

(** [signed_at.saturating_add_unsigned(max_validity_secs)]. *)
Definition reservation_expired (signed_at max_validity_secs now : Z) : bool :=
  i64_saturating_add signed_at max_validity_secs <? now.

(** ** Properties *)

(** A dotNS signature authorises exactly one reservation: two reservation
    messages over 32-byte accounts are equal only if they agree on the candidate,
    the attester, the base name, the chat key, the reserved name and the signing
    time. *)
Theorem reservation_message_unambiguous `{!Scale, !ScaleLaws}
    c a u k l t c' a' u' k' l' t' :
  length c = 32%nat -> length a = 32%nat -> length c' = 32%nat -> length a' = 32%nat ->
  0 <= t -> 0 <= t' ->
  reservation_message c a u k l t = reservation_message c' a' u' k' l' t' ->
  c = c' /\ a = a' /\ u = u' /\ k = k' /\ l = l' /\ t = t'.
Proof.
  intros Hc Ha Hc' Ha' Ht Ht'. unfold reservation_message.
  intros [_ Hm]%encode_bytes_inj.
  apply app_inj_1 in Hm as [-> Hm]; [|lia]. apply app_inj_1 in Hm as [-> Hm]; [|lia].
  apply encode_bytes_inj in Hm as [-> Hm]. apply encode_bytes_inj in Hm as [-> Hm].
  apply encode_option_inj in Hm as [-> Hm].
  destruct (encode_u64_inj t t' [] [] Ht Ht') as [-> _]; [by rewrite !app_nil_r|]. done.
Qed.

(** A candidate signature binds the candidate to one ring-VRF key, and the
    two forms of a message never coincide with a change of key: for a given form,
    equal signed payloads over 32-byte candidates mean the same candidate and the
    same ring-VRF key. *)
Theorem candidate_payload_unambiguous form c k c' k' :
  length c = 32%nat -> length c' = 32%nat ->
  signed_payload form (candidate_message c k) = signed_payload form (candidate_message c' k') ->
  c = c' /\ k = k'.
Proof.
  intros Hc Hc' H. unfold signed_payload, candidate_message in H.
  apply app_inv_head in H. apply app_inv_head in H. apply app_inj_1 in H; [done|lia].
Qed.

(** *** Witnesses *)

Definition unary (b : bytes) : bytes := replicate (length b) 1 ++ [0] ++ b.

#[local] Instance demo_scale : Scale := {|
  encode_bytes := unary;
  encode_option o := match o with None => [0] | Some b => 1 :: unary b end;
  encode_u64 n := replicate (Z.to_nat n) 1 ++ [0];
|}.

Lemma replicate_sep n m (x y : bytes) :
  replicate n 1 ++ 0 :: x = replicate m 1 ++ 0 :: y -> n = m /\ x = y.
Proof.
  revert m; induction n as [|n IH]; intros [|m] H; simplify_eq/=; try done.
  apply IH in H as [-> ->]. done.
Qed.

Lemma unary_inj a b x y : unary a ++ x = unary b ++ y -> a = b /\ x = y.
Proof.
  unfold unary. rewrite <-!app_assoc. intros [Hl H]%replicate_sep. by apply app_inj_1 in H.
Qed.

#[local] Instance demo_scale_laws : ScaleLaws.
Proof.
  split.
  - exact unary_inj.
  - intros [a|] [b|] x y H; simplify_eq/=; try done. by apply unary_inj in H as [-> ->].
  - intros a b x y Ha Hb H. simpl in H. rewrite <-!app_assoc in H.
    apply replicate_sep in H as [H ->]. split; [lia|done].
Qed.

Lemma reservation_message_unambiguous_witness :
  reservation_message (replicate 32 1) (replicate 32 2) [3] [4] None 5 =
  reservation_message (replicate 32 1) (replicate 32 2) [3] [4] None 5 /\ (5 : Z) = 5.
Proof.
  split; [reflexivity|].
  apply (reservation_message_unambiguous (replicate 32 1) (replicate 32 2) [3] [4] None 5
           (replicate 32 1) (replicate 32 2) [3] [4] None 5); try reflexivity; discriminate.
Defined.

Lemma candidate_payload_unambiguous_witness :
  replicate 32 1 = replicate 32 1 /\ ([9] : bytes) = [9].
Proof.
  apply (candidate_payload_unambiguous (InContext [7]) (replicate 32 1) [9] (replicate 32 1) [9]);
    reflexivity.
Defined.

End Signature.
