(* ===== verification/WriterPeople.v ===== *)
(** * WriterPeople: the People lane ([chain/writer/people.rs])

    The lane's gate, its records (with the device table updated in the same
    transaction) and its instance of the engine's interface; the properties of
    the engine on this lane. *)

From S2P Require Import Prelude Strings Schema Lease Outbox DeviceGate WriterLane WriterTx WriterEngine.
From S2P Require Import WriterSpec WriterProps Signature.

#[local] Open Scope Z_scope.

Module WriterPeople.

Export WriterProps Signature.

Definition BAD_CANDIDATE_SIGNATURE : string := "candidate signature does not verify".

(** ** [People::record] *)

(** Landed or observed: assign the row and consume its device, or neither. *)
Definition people_land (now : Z) (g : Guard) (rid : Z) (db : Db) : result unit Op * Db :=
  txn (fun db =>
    if negb (fence now g (db_leases db)) then (Err Landing, db)
    else
      let '(ok, db1) := mark_assigned now g rid db in
      if negb ok then (Err Landing, db1)
      else (Ok tt, DeviceGate.consume_for_reservation rid db1)) db.

(** Terminal failure: fail the row and release its device, or neither. *)
Definition people_fail (now : Z) (g : Guard) (rid : Z) (reason : string) (db : Db)
    : result unit Op * Db :=
  txn (fun db =>
    if negb (fence now g (db_leases db)) then (Err Failing, db)
    else
      let '(ok, db1) := mark_failed now g rid reason db in
      if negb ok then (Err Failing, db1)
      else (Ok tt, (DeviceGate.release_for_reservation rid db1).2)) db.

Definition people_requeue (op : Op) (now : Z) (g : Guard) (rid until att : Z) (reason : string)
    (db : Db) : result unit Op * Db :=
  let '(ok, db') := mark_retry now g rid until att reason db in
  (if (ok : bool) then Ok tt else Err op, db').

Definition people_record (now app : Z) (g : Guard) (r : Reservation) (o : Outcome) (db : Db)
    : result unit Op * Db :=
  match o with
  | Landed | Observed => people_land now g (id r) db
  | Retry reason =>
      let att := attempt r + 1 in
      people_requeue Retrying now g (id r) (app + secs (row_backoff att)) att reason db
  | Park reason => people_requeue Parking now g (id r) (park_until app) (attempt r) reason db
  | Deferred until reason _ => people_requeue Deferring now g (id r) until (attempt r) reason db
  | OFailed reason | OExpired reason => people_fail now g (id r) reason db
  end.

Definition people_mark (now : Z) (g : Guard) (r : Reservation) (tx_hash : string) (nonce : Z)
    (db : Db) : bool * Db :=
  mark_submitting now g (id r) tx_hash nonce (attempt r + 1) db.

Definition people_tx (rows : list Claimed) (proxy_for : option bytes) : Payload :=
  match rows with
  | [(r, candidate)] => build_registration_tx r candidate proxy_for
  | _ => build_registration_batch_tx rows proxy_for
  end.

(** [PeopleLink]: always connected. *)
Record PeopleLink := {}.

Section people.
Context {W : Type}.
Context (account_from_str : string -> option bytes) (sr25519_verify : bytes -> bytes -> bytes -> bool).
(** The [SigningContext] constant of the [PeopleLite] pallet at the current
    block. *)
Context (people_constant : W -> result (option bytes) string).

Definition people_gate (r : Reservation) (form : AccountSignatureForm) (now app : Z)
    : result bytes Gate :=
  match parse_candidate account_from_str r with
  | Err g => Err g
  | Ok candidate =>
      if verify_candidate_signature sr25519_verify candidate (candidate_signature r)
           (ring_vrf_key r) form
      then Ok candidate
      else Err (GFailed BAD_CANDIDATE_SIGNATURE)
  end.

Definition people_ctx (w : W) : result AccountSignatureForm string :=
  match people_constant w with
  | Ok value => Ok (form_from_constant value)
  | Err e => Err e
  end.

Definition People : Lane W PeopleLink AccountSignatureForm := {|
  lane_chain := PeopleChain;
  OWNED_ELSEWHERE := "username owned by another account";
  RECONCILED := "reconcile: not yet on-chain, re-queued";
  NONCE_FETCH := "nonce fetch";
  lane_attempt := attempt;
  lane_claim := claim_due;
  lane_submitting := submitting;
  lane_gate := people_gate;
  lane_tx := people_tx;
  lane_mark := people_mark;
  lane_record := people_record;
  link_up := fun _ l => (true, l);
  link_ctx := fun w _ => people_ctx w;
|}.

Lemma people_gate_candidate r form now app c :
  people_gate r form now app = Ok c -> candidate_of account_from_str r = Some c.
Proof.
  unfold people_gate, parse_candidate, candidate_of. intros H. repeat destr_match_in H; by simplify_eq.
Qed.
End people.

(** ** The lane's laws *)

Definition people_open (r : Row) : bool :=
  match r_status r with Reserved | Submitting | RetryAfter => true | _ => false end.
Definition people_state (r : Row) : string := Status_as_str (r_status r).
Definition people_final (s : string) : bool :=
  String.eqb s "ASSIGNED" || String.eqb s "FAILED_TERMINAL".
Definition people_landed (s : string) : bool := String.eqb s "ASSIGNED".

Lemma people_due_open now r : people_due now r = true -> people_open r = true.
Proof. unfold people_due, people_open. by destruct (r_status r). Qed.

Lemma is_submitting_open r : is_submitting r = true -> people_open r = true.
Proof. unfold is_submitting, people_open. by destruct (r_status r). Qed.

(** A transaction around a guarded status change and a device update. *)
Definition landing_txn (op : Op) (now : Z) (g : Guard) (rid : Z) (f : Row -> Row) (devs : Db -> Db)
    (db : Db) : result unit Op * Db :=
  txn (fun db =>
    if negb (fence now g (db_leases db)) then (Err op, db)
    else
      let '(ok, db1) := guarded_update now g rid f db in
      if negb ok then (Err op, db1) else (Ok tt, devs db1)) db.

Section landing.
Context (op : Op) (now : Z) (g : Guard) (rid : Z) (f : Row -> Row) (devs : Db -> Db).
Context (devs_rows : forall db, rows_of (devs db) = rows_of db).
Context (devs_leases : forall db, db_leases (devs db) = db_leases db).

Lemma landing_txn_cases db :
  (exists db', landing_txn op now g rid f devs db = (Err op, db') /\ db_equiv db db') \/
  (exists row, rows_of db !! rid = Some row /\ lease_held now g (db_leases db) = true /\
     landing_txn op now g rid f devs db =
       (Ok tt, devs (with_reservations (<[rid := f row]> (rows_of db)) db))).
Proof.
  unfold landing_txn. destruct (txn _ db) as [[[]|e] db'] eqn:Et.
  - right. rewrite txn_ok in Et. destruct (fence _ _ _) eqn:Ef; simpl in Et; [|done].
    destruct (guarded_update now g rid f db) as [b db1] eqn:Eg.
    apply guarded_update_spec in Eg. destruct b; simpl in Et; [|done].
    destruct Eg as (row & Hh & Hr & ->). simplify_eq. eauto.
  - left. exists db'. split; [|by eapply txn_err_equiv].
    unfold txn in Et. destruct (fence _ _ _) eqn:Ef; simpl in Et; [|by simplify_eq].
    destruct (guarded_update now g rid f db) as [[] db1] eqn:Eg; simpl in Et; by simplify_eq.
Qed.

Lemma landing_txn_fenced db :
  lease_held now g (db_leases db) = false ->
  is_ok (landing_txn op now g rid f devs db).1 = false /\
  db_equiv db (landing_txn op now g rid f devs db).2.
Proof.
  intros Hf. destruct (landing_txn_cases db) as [(db' & -> & He)|(row & _ & Hh & _)]; [done|congruence].
Qed.

Lemma landing_txn_leases db : db_leases (landing_txn op now g rid f devs db).2 = db_leases db.
Proof using devs_leases.
  destruct (landing_txn_cases db) as [(db' & -> & _ & Hl & _)|(row & _ & _ & ->)]; [done|].
  simpl. by rewrite devs_leases.
Qed.

Lemma landing_txn_frame db k :
  k <> rid -> rows_of (landing_txn op now g rid f devs db).2 !! k = rows_of db !! k.
Proof using devs_rows.
  intros Hk. destruct (landing_txn_cases db) as [(db' & -> & Hr & _)|(row & _ & _ & ->)]; simpl.
  - by rewrite Hr.
  - rewrite devs_rows. simpl. by rewrite lookup_insert_ne.
Qed.

Lemma landing_txn_new db : keeps_claim f -> keeps_new db (landing_txn op now g rid f devs db).2.
Proof using devs_rows.
  intros Hf. destruct (landing_txn_cases db) as [(db' & -> & Hr & _)|(row & Hrow & _ & ->)]; simpl.
  - by apply keeps_new_rows.
  - destruct (Hf row) as [Hn _]. eapply keeps_new_insert; [exact Hrow|exact Hn|]. by rewrite devs_rows.
Qed.

Lemma landing_txn_row db r' :
  rows_of (landing_txn op now g rid f devs db).2 !! rid = Some r' ->
  exists r, rows_of db !! rid = Some r /\ (r' = f r \/ r' = r).
Proof using devs_rows.
  destruct (landing_txn_cases db) as [(db' & -> & Hr & _)|(row & Hrow & _ & ->)]; simpl.
  - rewrite <-Hr. eauto.
  - rewrite devs_rows. simpl. rewrite lookup_insert_eq. intros [= <-]. eauto.
Qed.
End landing.

Lemma people_land_txn now g rid db :
  people_land now g rid db =
  landing_txn Landing now g rid (set_status now Assigned None None)
    (DeviceGate.consume_for_reservation rid) db.
Proof. done. Qed.

Lemma people_fail_txn now g rid reason db :
  people_fail now g rid reason db =
  landing_txn Failing now g rid (set_status now FailedTerminal None (Some reason))
    (fun d => (DeviceGate.release_for_reservation rid d).2) db.
Proof. done. Qed.

Lemma people_requeue_snd op now g rid u a reason db :
  (people_requeue op now g rid u a reason db).2 = (mark_retry now g rid u a reason db).2.
Proof. unfold people_requeue. by destruct (mark_retry _ _ _ _ _ _ _). Qed.

Lemma people_requeue_fenced op now g rid u a reason db :
  lease_held now g (db_leases db) = false ->
  people_requeue op now g rid u a reason db = (Err op, db).
Proof.
  intros Hf. unfold people_requeue, mark_retry, guarded_status. by rewrite guarded_update_fenced.
Qed.

Section laws.
Context {W : Type} (account_from_str : string -> option bytes)
  (sr25519_verify : bytes -> bytes -> bytes -> bool)
  (people_constant : W -> result (option bytes) string).

#[global] Instance PeopleLaws :
  LaneLaws W PeopleLink AccountSignatureForm
    (Lane0 := People account_from_str sr25519_verify people_constant).
Proof.
  refine {| lane_state := people_state; lane_open := people_open; lane_final := people_final;
            lane_landed := people_landed |}; simpl.
  - intros row. unfold people_open, people_state. by destruct (r_status row).
  - intros now limit db rs Hc. split; [by eapply claim_NoDup|]. intros r Hr.
    destruct (claim_elem _ _ _ _ _ Hc Hr) as (row & ? & Hd & Hres). exists row.
    split; [done|]. split; [by eapply people_due_open|done].
  - intros db rs Hc. destruct (query_elem _ _ _ Hc) as [Hnd Hel]. split; [done|]. intros r Hr.
    destruct (Hel r Hr) as (row & ? & Hd & Hres). exists row.
    split; [done|]. split; [by apply is_submitting_open|done].
  - intros. by apply guarded_update_fenced.
  - intros. apply guarded_update_leases.
  - intros. by apply guarded_update_frame.
  - intros now g r h n db row Hr Ho.
    destruct (guarded_update_row_2 now g (id r) (set_submitting now h n (attempt r + 1)) db row Hr)
      as (row' & Hr' & [->| ->]); eauto.
  - intros. apply guarded_update_new. eauto with dub.
  - intros now g r h n db row' Hr Hl.
    apply guarded_update_row in Hr as (row & Hr & [->| ->]); [done|eauto].
  - intros now app g r o db Hf.
    destruct o; cbn [people_record];
      rewrite ?people_requeue_fenced by done; try done; by apply landing_txn_fenced.
  - intros now app g r o db. destruct o; cbn [people_record];
      rewrite ?people_requeue_snd; try apply guarded_update_leases; by apply landing_txn_leases.
  - intros now app g r o db k Hk. destruct o; cbn [people_record];
      rewrite ?people_requeue_snd; try (by apply guarded_update_frame); by apply landing_txn_frame.
  - intros now app g r o db. destruct o; cbn [people_record]; rewrite ?people_requeue_snd;
      first [apply guarded_update_new | apply landing_txn_new; [done|]]; eauto with dub.
  - intros now app g r o db row' Ho Hr Hl. destruct o; try done; cbn [people_record] in Hr;
      rewrite ?people_requeue_snd in Hr;
      first [apply guarded_update_row in Hr | apply landing_txn_row in Hr; [|done]];
      destruct Hr as (row & Hr & [->| ->]); try done; eauto.
Defined.
End laws.

End WriterPeople.
