(* ===== verification/WriterDotns.v ===== *)
(** * WriterDotns: the dotNS lane ([chain/writer/dotns.rs], [chain/writer/link.rs])

    The offline gate of a dotNS reservation, the lane's records, the Asset Hub
    link with its reconnection schedule, and the lane's instance of the engine's
    interface. *)

From stdpp Require Import pretty.
From S2P Require Import Prelude Strings Schema Lease Outbox WriterLane WriterTx WriterEngine WriterSpec.
From S2P Require Import WriterProps Signature.

#[local] Open Scope Z_scope.

Module WriterDotns.

Export WriterProps Signature.

(** ** The gate *)

Record ValidityWindow := {
  max_validity_secs : Z;
  max_future_skew_secs : Z;
}.

Record Window := {
  window : ValidityWindow;
  attester : bytes;
  signature_form : AccountSignatureForm;
}.

Inductive DotnsReject :=
| NotInLane
| UnbuildableLabel (why : string)
| UnbuildableReserved (why : string)
| BadSignature
| RExpired (signed_at deadline_secs : Z)
| FutureDated (signed_at submittable_at : Z).

Definition MAX_LABEL_BYTES : nat := 32.

#[local] Open Scope string_scope.

Definition check_dotns_submittable `{!Scale} (sr25519_verify : bytes -> bytes -> bytes -> bool)
    (r : Reservation) (candidate : bytes) (ctx : Window) (now : Z) : result unit DotnsReject :=
  match dotns_signature r, dotns_signed_at r with
  | Some signature, Some signed_at =>
      let label := full_username r in
      if (MAX_LABEL_BYTES <? String.length label)%nat then
        Err (UnbuildableLabel ("lite label is " +:+ pretty (String.length label) +:+
                               " bytes, over BaseLabel's 32"))
      else
      let base := lite_base label in
      if (String.length base =? String.length label)%nat then
        Err (UnbuildableLabel "lite label has no digit suffix")
      else
      let reserved_len := match reserved_username r with Some s => String.length s | None => 0%nat end in
      if (MAX_LABEL_BYTES <? reserved_len)%nat then
        Err (UnbuildableReserved ("reservedUsername is " +:+ pretty reserved_len +:+
                                  " bytes, over BaseLabel's 32"))
      else
      let max_future_skew := Z.min I64_MAX (max_future_skew_secs (window ctx)) in
      if (i64_saturating_add now max_future_skew <? signed_at)%Z then
        Err (FutureDated signed_at (i64_saturating_sub signed_at max_future_skew))
      else if reservation_expired signed_at (max_validity_secs (window ctx)) now then
        Err (RExpired signed_at (max_validity_secs (window ctx)))
      else if (signed_at <? 0)%Z then Err BadSignature
      else if verify_reservation_signature sr25519_verify signature candidate (attester ctx)
                (as_bytes base) (identifier_key r) (as_bytes <$> reserved_username r) signed_at
                (signature_form ctx)
      then Ok tt
      else Err BadSignature
  | _, _ => Err NotInLane
  end.

(** The range of [OffsetDateTime::from_unix_timestamp]. *)
Definition from_unix_timestamp (t : Z) : option Z :=
  if ((-377705116800 <=? t) && (t <=? 253402300799))%Z then Some (secs t) else None.

Definition DotnsReject_gate (reject : DotnsReject) (win : ValidityWindow) (now app : Z) : Gate :=
  match reject with
  | RExpired signed_at deadline_secs =>
      GExpired ("reservation signature expired: signed_at=" +:+ pretty signed_at +:+ ", window " +:+
                pretty deadline_secs +:+ "s, now=" +:+ pretty now +:+
                ". Only the client can re-sign.")
  | NotInLane => GFailed "row has no complete dotns block"
  | BadSignature => GFailed "dotns signature does not verify"
  | UnbuildableLabel why | UnbuildableReserved why => GFailed why
  | FutureDated signed_at submittable_at =>
      GNotYet (match from_unix_timestamp submittable_at with Some t => t | None => app end)
        ("reservation signature is future-dated: signed_at=" +:+ pretty signed_at +:+ ", now=" +:+
         pretty now +:+ ", gateway tolerates " +:+ pretty (max_future_skew_secs win) +:+
         "s of skew. Re-queued until " +:+ pretty submittable_at +:+ ".")
  end.

(** ** [Dotns::record] *)

Definition dotns_op (op : Op) (res : bool * Db) : result unit Op * Db :=
  (if res.1 then Ok tt else Err op, res.2).

Definition dotns_record (now app : Z) (g : Guard) (r : Reservation) (o : Outcome) (db : Db)
    : result unit Op * Db :=
  match o with
  | Landed | Observed => dotns_op Landing (mark_dotns_reserved now g (id r) db)
  | Retry reason =>
      let att := (dotns_attempt r + 1)%Z in
      dotns_op Retrying
        (mark_dotns_retry now g (id r) (app + secs (row_backoff att))%Z att reason db)
  | Park reason =>
      dotns_op Parking
        (mark_dotns_retry now g (id r) (park_until app) (dotns_attempt r) reason db)
  | Deferred until reason _ =>
      dotns_op Deferring (mark_dotns_retry now g (id r) until (dotns_attempt r) reason db)
  | OFailed reason => dotns_op Failing (mark_dotns_failed now g (id r) reason db)
  | OExpired reason => dotns_op Expiring (mark_dotns_expired now g (id r) reason db)
  end.

Definition dotns_mark (now : Z) (g : Guard) (r : Reservation) (tx_hash : string) (nonce : Z)
    (db : Db) : bool * Db :=
  mark_dotns_submitting now g (id r) tx_hash (dotns_attempt r + 1)%Z db.

Definition dotns_tx (rows : list Claimed) (proxy_for : option bytes) : Payload :=
  match rows with
  | [(r, candidate)] => build_reserve_name_tx r candidate proxy_for
  | _ => build_reserve_name_batch_tx rows proxy_for
  end.

(** ** [DotnsLink] *)

#[local] Close Scope string_scope.

Definition DOTNS_RECONNECT_INTERVAL : Z := secs 30.

(** The connection is its validity window; [retry_at] is on the monotonic
    clock. *)
Record DotnsLink := {
  dl_attester : bytes;
  connected : option ValidityWindow;
  last_error : option string;
  retry_at : option Z;
}.

Definition DotnsLink_new (att : bytes) : DotnsLink :=
  {| dl_attester := att; connected := None; last_error := None; retry_at := None |}.

Inductive DotnsDial := Ready | Dial | Skip.

Definition dial_state (l : DotnsLink) (now : Z) : DotnsDial :=
  match connected l with
  | Some _ => Ready
  | None =>
      match retry_at l with
      | Some t => if now <? t then Skip else Dial
      | None => Dial
      end
  end.

Definition record_dial_failure (l : DotnsLink) (reason : string) (now : Z) : bool * DotnsLink :=
  let is_new := negb (bool_decide (last_error l = Some reason)) in
  (is_new,
   {| dl_attester := dl_attester l; connected := connected l;
      last_error := if is_new then Some reason else last_error l;
      retry_at := Some (now + DOTNS_RECONNECT_INTERVAL) |}).

Definition record_dial_success (l : DotnsLink) (up : ValidityWindow) : DotnsLink :=
  {| dl_attester := dl_attester l; connected := Some up; last_error := None; retry_at := None |}.

(** [up]: [dial] is the outcome of [connect_asset_hub]. *)
Definition dotns_up (now : Z) (dial : result ValidityWindow string) (l : DotnsLink)
    : bool * DotnsLink :=
  match dial_state l now with
  | Skip => (false, l)
  | Ready => (true, l)
  | Dial =>
      match dial with
      | Ok win => (true, record_dial_success l win)
      | Err reason => (false, (record_dial_failure l reason now).2)
      end
  end.

Section dotns.
Context {W : Type} `{!Scale}.
Context (account_from_str : string -> option bytes) (sr25519_verify : bytes -> bytes -> bytes -> bool).
(** The monotonic clock, the outcome of dialling, and the [SigningContext]
    constant of the [DotnsGateway] pallet. *)
Context (instant : W -> Z) (dial : W -> result ValidityWindow string).
Context (dotns_constant : W -> result (option bytes) string).

Definition dotns_gate (r : Reservation) (ctx : Window) (now app : Z) : result bytes Gate :=
  match parse_candidate account_from_str r with
  | Err g => Err g
  | Ok candidate =>
      match check_dotns_submittable sr25519_verify r candidate ctx now with
      | Ok _ => Ok candidate
      | Err reject => Err (DotnsReject_gate reject (window ctx) now app)
      end
  end.

Definition dotns_ctx (w : W) (l : DotnsLink) : result Window string :=
  match connected l with
  | None => Err "dotns lane is not connected"%string
  | Some win =>
      match dotns_constant w with
      | Err e => Err e
      | Ok value => Ok {| window := win; attester := dl_attester l;
                          signature_form := form_from_constant value |}
      end
  end.

Definition Dotns : Lane W DotnsLink Window := {|
  lane_chain := AssetHub;
  OWNED_ELSEWHERE := "lite label reserved by another account";
  RECONCILED := "reconcile: not yet on Asset Hub, re-queued";
  NONCE_FETCH := "asset hub nonce fetch";
  lane_attempt := dotns_attempt;
  lane_claim := claim_dotns_due;
  lane_submitting := dotns_submitting;
  lane_gate := dotns_gate;
  lane_tx := dotns_tx;
  lane_mark := dotns_mark;
  lane_record := dotns_record;
  link_up := fun w l => dotns_up (instant w) (dial w) l;
  link_ctx := dotns_ctx;
|}.

Lemma dotns_gate_candidate r ctx now app c :
  dotns_gate r ctx now app = Ok c -> candidate_of account_from_str r = Some c.
Proof.
  unfold dotns_gate, parse_candidate, candidate_of. intros Hg.
  destruct (account_from_str _); [|done]. by destruct (check_dotns_submittable _ _ _ _ _); simplify_eq.
Qed.
End dotns.

(** ** The lane's laws *)

Definition dotns_lane_open (r : Row) : bool :=
  match r_dotns_status r with
  | Some DPending | Some DSubmitting | Some DRetryAfter => true
  | _ => false
  end.
Definition dotns_state (r : Row) : string :=
  match r_dotns_status r with Some s => DotnsStatus_as_str s | None => "NULL" end.
Definition dotns_final (s : string) : bool :=
  existsb (String.eqb s) ["RESERVED"; "FAILED_TERMINAL"; "EXPIRED"; "ABANDONED"]%string.
Definition dotns_landed (s : string) : bool := String.eqb s "RESERVED".

Lemma dotns_due_open now r : dotns_due now r = true -> dotns_lane_open r = true.
Proof. unfold dotns_due, dotns_lane_open. by destruct (r_status r), (r_dotns_status r) as [[]|]. Qed.

Lemma is_dotns_submitting_open r : is_dotns_submitting r = true -> dotns_lane_open r = true.
Proof. unfold is_dotns_submitting, dotns_lane_open. by destruct (r_dotns_status r) as [[]|]. Qed.

(** Every outcome is one guarded update of the dotNS half. *)
Definition dotns_row_after (now app : Z) (r : Reservation) (o : Outcome) : Row -> Row :=
  match o with
  | Landed | Observed => set_dotns_status now DReserved None None
  | Retry reason =>
      set_dotns_status now DRetryAfter
        (Some (app + secs (row_backoff (dotns_attempt r + 1)), dotns_attempt r + 1)) (Some reason)
  | Park reason =>
      set_dotns_status now DRetryAfter (Some (park_until app, dotns_attempt r)) (Some reason)
  | Deferred until reason _ =>
      set_dotns_status now DRetryAfter (Some (until, dotns_attempt r)) (Some reason)
  | OFailed reason => set_dotns_status now DFailedTerminal None (Some reason)
  | OExpired reason => set_dotns_status now DExpired None (Some reason)
  end.

Definition dotns_outcome_op (o : Outcome) : Op :=
  match o with
  | Landed | Observed => Landing
  | Retry _ => Retrying
  | Park _ => Parking
  | Deferred _ _ _ => Deferring
  | OFailed _ => Failing
  | OExpired _ => Expiring
  end.

Lemma dotns_record_update now app g r o db :
  dotns_record now app g r o db =
  dotns_op (dotns_outcome_op o) (guarded_update now g (id r) (dotns_row_after now app r o) db).
Proof. by destruct o. Qed.

Section laws.
Context {W : Type} `{!Scale} (account_from_str : string -> option bytes)
  (sr25519_verify : bytes -> bytes -> bytes -> bool)
  (instant : W -> Z) (dial : W -> result ValidityWindow string)
  (dotns_constant : W -> result (option bytes) string).

#[global] Instance DotnsLaws :
  LaneLaws W DotnsLink Window
    (Lane0 := Dotns account_from_str sr25519_verify instant dial dotns_constant).
Proof.
  refine {| lane_state := dotns_state; lane_open := dotns_lane_open; lane_final := dotns_final;
            lane_landed := dotns_landed |}; simpl.
  - intros row. unfold dotns_lane_open, dotns_state. by destruct (r_dotns_status row) as [[]|].
  - intros now limit db rs Hc. split; [by eapply claim_NoDup|]. intros r Hr.
    destruct (claim_elem _ _ _ _ _ Hc Hr) as (row & ? & Hd & Hres). exists row.
    split; [done|]. split; [by eapply dotns_due_open|done].
  - intros db rs Hc. destruct (query_elem _ _ _ Hc) as [Hnd Hel]. split; [done|]. intros r Hr.
    destruct (Hel r Hr) as (row & ? & Hd & Hres). exists row.
    split; [done|]. split; [by apply is_dotns_submitting_open|done].
  - intros. by apply guarded_update_fenced.
  - intros. apply guarded_update_leases.
  - intros. by apply guarded_update_frame.
  - intros now g r h n db row Hr Ho.
    destruct (guarded_update_row_2 now g (id r) (set_dotns_submitting now h (dotns_attempt r + 1))
      db row Hr) as (row' & Hr' & [->| ->]); eauto.
  - intros. apply guarded_update_new. eauto with dub.
  - intros now g r h n db row' Hr Hl.
    apply guarded_update_row in Hr as (row & Hr & [->| ->]); [done|eauto].
  - intros now app g r o db Hf. rewrite dotns_record_update, guarded_update_fenced by done. done.
  - intros now app g r o db. rewrite dotns_record_update. apply guarded_update_leases.
  - intros now app g r o db k Hk. rewrite dotns_record_update. by apply guarded_update_frame.
  - intros now app g r o db. rewrite dotns_record_update. apply guarded_update_new. by destruct o.
  - intros now app g r o db row' Ho Hr Hl. rewrite dotns_record_update in Hr.
    apply guarded_update_row in Hr as (row & Hr & [->| ->]); [by destruct o|eauto].
Defined.
End laws.

End WriterDotns.
