(* ===== verification/WriterClaims.v ===== *)
(** * WriterClaims: the chain writer on its two lanes

    The properties of [engine.rs] proved from the abstract writer, stated for the
    People and the dotNS lane. *)

From S2P Require Import Prelude Strings Schema Lease Outbox DeviceGate WriterLane WriterTx WriterEngine.
From S2P Require Import WriterSpec WriterProps Signature WriterPeople WriterDotns.

#[local] Open Scope Z_scope.

Module WriterClaims.

Export WriterPeople WriterDotns.

(** What the writer uses that is not part of the repository, and the world it
    runs in. *)
Class Env (W : Type) := {
  env_world :: World W;
  env_scale :: Scale;
  env_account : string -> option bytes;
  env_describe : bytes -> string;
  env_verify : bytes -> bytes -> bytes -> bool;
  env_instant : W -> Z;
  env_dial : W -> result ValidityWindow string;
  env_constant : ChainId -> W -> result (option bytes) string;
}.

Section lanes.
Context {W : Type} `{!Env W}.

Definition people_lane : Lane W PeopleLink AccountSignatureForm :=
  People env_account env_verify (env_constant PeopleChain).
Definition dotns_lane : Lane W DotnsLink Window :=
  Dotns env_account env_verify env_instant env_dial (env_constant AssetHub).

Definition people_pass (cx : Cx) : M WriterError bool := pass (Lane0 := people_lane) env_describe cx.
Definition dotns_pass (cx : Cx) : M WriterError bool := pass (Lane0 := dotns_lane) env_describe cx.
Definition people_reconcile (cx : Cx) : M WriterError unit :=
  reconcile_submitting (Lane0 := people_lane) env_account cx.
Definition dotns_reconcile (cx : Cx) : M WriterError unit :=
  reconcile_submitting (Lane0 := dotns_lane) env_account cx.
End lanes.

(** ** The generic statements

    [drains m]: [m] performs only steps of the abstract writer on lane [L], and
    has no claim outstanding when it succeeds. *)

Section generic.
Context {W Link Ctx : Type} `{!Env W, L : !Lane W Link Ctx, !LaneLaws W Link Ctx}.
Context (cx : Cx).

Abbreviation St := (WriterEngine.St (W := W) (Link := Link)).
Abbreviation saw := (evidence env_account env_describe).

Definition drains {E A} (m : M E A) : Prop :=
  forall st : St, exists otodo,
    rtc (wstep env_account env_describe cx) (view (Some []) st) (view otodo (m st).2) /\
    (is_ok (m st).1 = true -> otodo = Some []).

Definition lands_on_evidence {E A} (m : M E A) : Prop :=
  forall st : St, never_lands w_interfere -> keeps_claims w_interfere -> st_trace st = [] ->
    forall k row, rows_of (st_db (m st).2) !! k = Some row -> lane_landed (lane_state row) = true ->
      landed_at (st_db st) k \/
      exists r, read_from k row r /\ saw (st_trace (m st).2) r.

Definition records_each_claim_once {E A} (m : M E A) : Prop :=
  forall st : St, st_trace st = [] -> is_ok (m st).1 = true ->
    claims_of (st_trace (m st).2) ≡ₚ records_of (st_trace (m st).2).

Definition keeps_final_rows {E A} (m : M E A) : Prop :=
  forall st : St, clock_monotone (W := W) -> keeps_fence cx (w_interfere (W := W)) ->
    keeps_final (w_interfere (W := W)) -> leaves_open cx (w_interfere (W := W)) ->
    forall k s, final_at (st_db st) k s -> final_at (st_db (m st).2) k s.

Definition silent_when_fenced {E A} (m : M E A) : Prop :=
  forall st : St, clock_monotone (W := W) -> (forall (w : W) db, w_interfere w db = db) ->
    dead (w_now (st_w st)) (guard cx) (db_leases (st_db st)) ->
    db_equiv (st_db st) (st_db (m st).2) /\
    records_of (st_trace (m st).2) = records_of (st_trace st).

Context {E A : Type} (m : M E A) (Hm : drains m).

Lemma drains_lands : lands_on_evidence m.
Proof using Hm LaneLaws0.
  intros st Hn Hc Htr. destruct (Hm st) as (otodo & Hs & _).
  apply (steps_landings _ _ _ (st_db st) _ _ Hn Hc Hs); simpl.
  - intros k row Hr Hl. left. by exists row.
  - apply empty_anchored.
Qed.

Lemma drains_records : records_each_claim_once m.
Proof using Hm.
  intros st Htr Hok. destruct (Hm st) as (otodo & Hs & Hdone). rewrite (Hdone Hok) in Hs.
  apply steps_balanced in Hs; [|unfold balanced; simpl; by rewrite Htr].
  unfold balanced in Hs. simpl in Hs. by rewrite app_nil_r in Hs.
Qed.

Lemma drains_final : keeps_final_rows m.
Proof using Hm LaneLaws0.
  intros st Hmono Hf Hfin Hop k s Hk. destruct (Hm st) as (otodo & Hs & _).
  eapply (steps_final _ _ cx Hmono Hf Hfin Hop _ _ Hs); [|exact Hk].
  right. simpl. split; [constructor|]. intros r Hr. by apply not_elem_of_nil in Hr.
Qed.

Lemma drains_silent : silent_when_fenced m.
Proof using Hm LaneLaws0.
  intros st Hmono Hi Hd. destruct (Hm st) as (otodo & Hs & _).
  by destruct (steps_fenced _ _ cx _ _ Hmono Hi Hs Hd) as [_ [He Hr]].
Qed.
End generic.

Section instances.
Context {W : Type} `{!Env W} (cx : Cx).

Lemma people_pass_drains : drains (L := people_lane) cx (people_pass cx).
Proof.
  intros st. apply (pass_steps (Lane0 := people_lane)). intros *. apply people_gate_candidate.
Qed.
Lemma dotns_pass_drains : drains (L := dotns_lane) cx (dotns_pass cx).
Proof.
  intros st. apply (pass_steps (Lane0 := dotns_lane)). intros *. apply dotns_gate_candidate.
Qed.
Lemma people_reconcile_drains : drains (L := people_lane) cx (people_reconcile cx).
Proof. intros st. apply (reconcile_steps (Lane0 := people_lane)). Qed.
Lemma dotns_reconcile_drains : drains (L := dotns_lane) cx (dotns_reconcile cx).
Proof. intros st. apply (reconcile_steps (Lane0 := dotns_lane)). Qed.
End instances.

Lemma row_backoff_spec a : 0 <= a -> row_backoff a = 2 ^ Z.min a 6.
Proof.
  intros Ha. unfold row_backoff, i64_saturating_pow2, clamp.
  rewrite (Z.max_r 0) by lia. rewrite (Z.min_comm 6 a). apply Z.min_r.
  assert (2 ^ Z.min a 6 <= 2 ^ 6) as Hp by (apply Z.pow_le_mono_r; lia).
  etrans; [exact Hp|]. by vm_compute.
Qed.

(** ** Properties *)

(** C1. A row is recorded as landed only when the chain says so: whatever the
    chain answers, whatever statements fail or lose their acknowledgement, and
    whatever other processes do (short of landing rows themselves, deleting rows or
    rewriting the claim a row was made for), a row that is landed after a pass or a
    startup reconcile of either lane was landed before, or the chain showed that very
    row, as the writer read it from the outbox, with its name and its candidate: an
    owner read of its name that named its candidate, a finalized extrinsic that carried
    it and whose own call or whose item at the row's position succeeded, or the
    runtime's [AlreadyRegistered] for it. *)
Theorem writer_lands_on_evidence {W} `{!Env W} cx :
  lands_on_evidence (L := people_lane) (people_pass cx) /\
  lands_on_evidence (L := people_lane) (people_reconcile cx) /\
  lands_on_evidence (L := dotns_lane) (dotns_pass cx) /\
  lands_on_evidence (L := dotns_lane) (dotns_reconcile cx).
Proof.
  split; [|split; [|split]].
  - apply (drains_lands (L := people_lane) cx), people_pass_drains.
  - apply (drains_lands (L := people_lane) cx), people_reconcile_drains.
  - apply (drains_lands (L := dotns_lane) cx), dotns_pass_drains.
  - apply (drains_lands (L := dotns_lane) cx), dotns_reconcile_drains.
Qed.

(** C25. A pass forgets nobody and settles nobody twice: when a pass (or a
    reconcile) returns successfully, the rows it recorded are exactly the rows it
    claimed, each once. *)
Theorem writer_records_each_claim_once {W} `{!Env W} cx :
  records_each_claim_once (people_pass cx) /\ records_each_claim_once (people_reconcile cx) /\
  records_each_claim_once (dotns_pass cx) /\ records_each_claim_once (dotns_reconcile cx).
Proof.
  split; [|split; [|split]].
  - apply (drains_records (L := people_lane) cx), people_pass_drains.
  - apply (drains_records (L := people_lane) cx), people_reconcile_drains.
  - apply (drains_records (L := dotns_lane) cx), dotns_pass_drains.
  - apply (drains_records (L := dotns_lane) cx), dotns_reconcile_drains.
Qed.

(** Final means final, as rely/guarantee: if the other processes leave the
    final rows of a lane as they are, and leave the lane's open rows open unless
    they have taken the lease over, then a pass or a reconcile also leaves every
    final row of its lane in its state, although no statement of the outbox checks
    the state it overwrites. *)
Theorem writer_keeps_final_rows {W} `{!Env W} cx :
  keeps_final_rows (L := people_lane) cx (people_pass cx) /\
  keeps_final_rows (L := people_lane) cx (people_reconcile cx) /\
  keeps_final_rows (L := dotns_lane) cx (dotns_pass cx) /\
  keeps_final_rows (L := dotns_lane) cx (dotns_reconcile cx).
Proof.
  split; [|split; [|split]].
  - apply (drains_final (L := people_lane) cx), people_pass_drains.
  - apply (drains_final (L := people_lane) cx), people_reconcile_drains.
  - apply (drains_final (L := dotns_lane) cx), dotns_pass_drains.
  - apply (drains_final (L := dotns_lane) cx), dotns_reconcile_drains.
Qed.

(** A writer that has lost its lease is silent: with its guard dead, a pass
    or a reconcile changes no table and records nothing, on either lane. *)
Theorem fenced_writer_is_silent {W} `{!Env W} cx :
  silent_when_fenced cx (people_pass cx) /\ silent_when_fenced cx (people_reconcile cx) /\
  silent_when_fenced cx (dotns_pass cx) /\ silent_when_fenced cx (dotns_reconcile cx).
Proof.
  split; [|split; [|split]].
  - apply (drains_silent (L := people_lane) cx), people_pass_drains.
  - apply (drains_silent (L := people_lane) cx), people_reconcile_drains.
  - apply (drains_silent (L := dotns_lane) cx), dotns_pass_drains.
  - apply (drains_silent (L := dotns_lane) cx), dotns_reconcile_drains.
Qed.

(** What each outcome does to a People row, under a held lease: a landing
    assigns the row and uses its device's slot in the same transaction; only a
    retry spends an attempt, and backs off exponentially up to 64 seconds; a park
    and a deferral keep the attempt count; a terminal failure fails the row, frees
    its device's slot and closes an open dotNS half. *)
Theorem people_record_effect now app g r o db row :
  lease_held now g (db_leases db) = true -> rows_of db !! id r = Some row -> 0 <= attempt r ->
  exists row' db', people_record now app g r o db = (Ok tt, db') /\
    rows_of db' !! id r = Some row' /\
    match o with
    | Landed | Observed =>
        r_status row' = Assigned /\ r_attempt row' = r_attempt row /\
        forall h, DeviceGate.slot_of h db' =
          DeviceGate.slot_step h (DeviceGate.slot_of h db) (DeviceGate.OpConsume (id r))
    | Retry _ =>
        r_status row' = RetryAfter /\ r_attempt row' = attempt r + 1 /\
        r_not_before row' = Some (app + secs (2 ^ Z.min (attempt r + 1) 6))
    | Park _ =>
        r_status row' = RetryAfter /\ r_attempt row' = attempt r /\
        r_not_before row' = Some (app + secs 300)
    | Deferred until _ _ =>
        r_status row' = RetryAfter /\ r_attempt row' = attempt r /\ r_not_before row' = Some until
    | OFailed _ | OExpired _ =>
        r_status row' = FailedTerminal /\ dotns_open (r_dotns_status row') = false /\
        forall h, DeviceGate.slot_of h db' =
          DeviceGate.slot_step h (DeviceGate.slot_of h db) (DeviceGate.OpRelease (id r))
    end.
Proof.
  intros Hh Hr Ha.
  assert (forall f, guarded_update now g (id r) f db =
            (true, with_reservations (<[id r := f row]> (rows_of db)) db)) as Hu
    by (intros; by apply guarded_update_held).
  assert (forall f, rows_of (with_reservations (<[id r := f row]> (rows_of db)) db) !! id r =
            Some (f row)) as Hl by (intros f; apply lookup_insert_eq).
  unfold people_record, people_requeue, mark_retry, guarded_status, people_land, people_fail,
    mark_assigned, mark_failed, guarded_status, fence, txn.
  destruct o; rewrite ?Hh; simpl; rewrite Hu; simpl; eexists _, _;
    (split; [reflexivity|]); (split; [apply Hl|]); simpl; try done.
  - split; [done|]. split; [done|]. intros h.
    apply (DeviceGate.device_op_slot h (with_reservations _ db) (DeviceGate.OpConsume (id r))).
  - split; [done|]. split; [done|]. intros h.
    apply (DeviceGate.device_op_slot h (with_reservations _ db) (DeviceGate.OpConsume (id r))).
  - by rewrite row_backoff_spec by lia.
  - split; [done|]. split; [by destruct (r_dotns_status row) as [[]|]|]. intros h.
    apply (DeviceGate.device_op_slot h (with_reservations _ db) (DeviceGate.OpRelease (id r))).
  - split; [done|]. split; [by destruct (r_dotns_status row) as [[]|]|]. intros h.
    apply (DeviceGate.device_op_slot h (with_reservations _ db) (DeviceGate.OpRelease (id r))).
Qed.

(** *** A concrete world

    Time is the world; nothing fails, nobody interferes, no name is owned, and
    every extrinsic is finalized without events. *)

#[local] Instance demo_world : World Z := {|
  w_next w := w + 1;
  w_now w := w;
  w_app_now w := w;
  w_fate _ := Fine;
  w_db_error _ := "io"%string;
  w_interfere _ db := db;
  w_owner _ _ _ := Ok None;
  w_owners _ _ _ := Ok ∅;
  w_nonce _ _ := Ok 7;
  w_sign _ _ _ _ := Ok "0xfeed"%string;
  w_broadcast _ _ := Ok tt;
  w_finality _ _ := (1%nat, Finalized (Ok []));
|}.

#[local] Instance demo_env : Env Z := {|
  env_world := demo_world;
  env_scale := {| encode_bytes b := b; encode_option _ := []; encode_u64 _ := [] |};
  env_account s := if String.eqb s "5Fb" then Some [1] else None;
  env_describe _ := "BadOrigin"%string;
  env_verify _ _ _ := true;
  env_instant w := w;
  env_dial _ := Err "unreachable"%string;
  env_constant _ _ := Ok None;
|}.

Definition signed_new : NewReservation :=
  {| nr_account_id := "0xab"; nr_candidate_account_id := "5Fb"; nr_base := "tallesx";
     nr_digits := "07"; nr_full_username := "tallesx.07";
     nr_candidate_signature := replicate 64 1;
     nr_ring_vrf_key := [2]; nr_proof_of_ownership := [3];
     nr_consumer_registration_signature := [4]; nr_identifier_key := [5];
     nr_dotns_signature := None; nr_dotns_signed_at := None;
     nr_reserved_username := None; nr_payload_version := 1 |}.

Definition demo_writer_db : Db :=
  with_leases demo_table (insert 0 signed_new empty_db).2.

Definition demo_cx : Cx :=
  {| guard := demo_guard; proxy_for := None; max_attempts := 8; cx_lease_ttl := 30 |}.

Definition demo_st : WriterEngine.St (W := Z) (Link := PeopleLink) :=
  {| st_db := demo_writer_db; st_w := 10; st_trace := [];
     st_drain := {| d_batch := BatchLane_new 25; d_nonce := None; d_link := Build_PeopleLink |} |}.

(** In it a pass lands the row it finds, on the evidence of its own extrinsic. *)
Lemma writer_lands_on_evidence_witness :
  (exists row, rows_of (st_db (people_pass demo_cx demo_st).2) !! 1 = Some row /\
               r_status row = Assigned) /\
  exists r, full_username r = "tallesx.07"%string /\ candidate_account_id r = "5Fb"%string /\
    evidence env_account env_describe (st_trace (people_pass demo_cx demo_st).2) r.
Proof.
  assert (exists row, rows_of (st_db (people_pass demo_cx demo_st).2) !! 1 = Some row /\
            r_status row = Assigned /\ r_new row = signed_new) as Hrow
    by (eexists; split; [vm_compute; reflexivity|split; vm_compute; reflexivity]).
  destruct Hrow as (row & Hr & Hs & Hnew). split; [exists row; split; [exact Hr|exact Hs]|].
  destruct (proj1 (writer_lands_on_evidence demo_cx) demo_st) with (k := 1) (row := row)
    as [(row0 & H0 & Hl)|(r & Hf & He)].
  - intros w db k Hk. exact Hk.
  - intros w db. reflexivity.
  - reflexivity.
  - exact Hr.
  - simpl. unfold people_state. rewrite Hs. reflexivity.
  - exfalso. vm_compute in H0. injection H0 as <-. vm_compute in Hl. discriminate Hl.
  - apply read_from_fields in Hf as (_ & Hn & Hc). unfold r_full_username in Hn.
    rewrite Hnew in Hn, Hc. exists r. split; [exact Hn|]. split; [exact Hc|exact He].
Defined.

Lemma writer_records_each_claim_once_witness :
  claims_of (st_trace (people_pass demo_cx demo_st).2) ≡ₚ
  records_of (st_trace (people_pass demo_cx demo_st).2).
Proof.
  apply (proj1 (writer_records_each_claim_once demo_cx) demo_st); vm_compute; reflexivity.
Defined.

Definition demo_res : Reservation :=
  {| id := 1; full_username := "tallesx.07"; candidate_account_id := "5Fb";
     candidate_signature := []; ring_vrf_key := []; proof_of_ownership := [];
     consumer_registration_signature := []; identifier_key := []; reserved_username := None;
     attempt := 2; dotns_signature := None; dotns_signed_at := None; dotns_attempt := 0;
     payload_version := 1; created_at := 0 |}.

Lemma people_record_effect_witness :
  exists row' db', people_record 10 10 demo_guard demo_res (Retry "boom") demo_writer_db = (Ok tt, db') /\
    rows_of db' !! 1 = Some row' /\
    (r_status row' = RetryAfter /\ r_attempt row' = 3 /\ r_not_before row' = Some (10 + secs 8)).
Proof.
  refine (people_record_effect 10 10 demo_guard demo_res (Retry "boom") demo_writer_db
            (fresh_row 0 signed_new Reserved 1) _ _ _).
  - vm_compute. reflexivity.
  - vm_compute. reflexivity.
  - vm_compute. discriminate.
Defined.

(** The hypotheses of the rely/guarantee property hold in this world. *)
Lemma writer_keeps_final_rows_witness :
  let st := {| st_db := st_db (people_pass demo_cx demo_st).2; st_w := 30; st_trace := [];
               st_drain := st_drain demo_st |} in
  final_at (LaneLaws0 := PeopleLaws env_account env_verify (env_constant PeopleChain))
    (st_db (people_pass demo_cx st).2) 1 "ASSIGNED".
Proof.
  apply (proj1 (writer_keeps_final_rows demo_cx)).
  - intros w. simpl. lia.
  - intros w db H. exact H.
  - intros w db k s H. exact H.
  - intros w db. right. intros k H. exact H.
  - split; [reflexivity|]. eexists. split; vm_compute; reflexivity.
Defined.

Lemma fenced_writer_is_silent_witness :
  let st := {| st_db := demo_writer_db; st_w := secs 31; st_trace := [];
               st_drain := st_drain demo_st |} in
  db_equiv demo_writer_db (st_db (people_pass demo_cx st).2).
Proof.
  refine (proj1 (proj1 (fenced_writer_is_silent demo_cx)
    {| st_db := demo_writer_db; st_w := secs 31; st_trace := []; st_drain := st_drain demo_st |} _ _ _)).
  - intros w. simpl. lia.
  - intros w db. reflexivity.
  - eexists. split; [reflexivity|]. right. vm_compute. repeat split. discriminate.
Defined.

End WriterClaims.
