(* ===== verification/Usernames.v ===== *)
(** * Usernames: bases, discriminators and availability

    The rules of [usernames.rs] shared by the read and the write path, the
    availability verdict of [usernames/available.rs], the reservation states of
    [chain/people.rs], and the error replies of [usernames/error.rs]. *)

From stdpp Require Import pretty.
From S2P Require Import Prelude Strings Schema Lease Outbox Eligibility DeviceGate.

#[local] Open Scope Z_scope.
#[local] Open Scope dub_scope.

Module Usernames.

Export Outbox.

Definition MIN_BASE_LEN : nat := 6.
Definition MAX_BASE_LEN : nat := 29.

Definition is_valid_base (base : string) : bool :=
  ((MIN_BASE_LEN <=? String.length base) && (String.length base <=? MAX_BASE_LEN))%nat
  && all_chars is_ascii_lowercase base.

(** [(1..=99u8).filter(|d| !taken.contains(d))]. *)
Definition available_digits (taken : gset Z) : list Z :=
  filter (fun d => d ∉ taken) (Z.of_nat <$> seq 1 99).

Definition merge_discriminators (chain outbox : gset Z) : gset Z := chain ∪ outbox.

(** ** [chain/people.rs] *)

Record ReservationState := {
  rs_full_name_owned : bool;
  rs_queue_len : Z;
  rs_queue_capacity : Z;
}.

Definition queue_full (s : ReservationState) : bool := rs_queue_capacity s <=? rs_queue_len s.
Definition rejects (s : ReservationState) : bool := rs_full_name_owned s || queue_full s.

Record BaseState := {
  taken : gset Z;
  full_name_owned : bool;
  queue_len : Z;
  queue_capacity : Z;
}.

Definition reservation (b : BaseState) : ReservationState :=
  {| rs_full_name_owned := full_name_owned b; rs_queue_len := queue_len b;
     rs_queue_capacity := queue_capacity b |}.
Definition rejects_reservations (b : BaseState) : bool := rejects (reservation b).

(** [base_state_at]: the chain's state of the base, with the digits the outbox
    has allocated added. *)
Definition base_state_at (chain : result BaseState string) (outbox : option (gset Z))
    : result BaseState string :=
  let? c := chain in
  match outbox with
  | None => Err "column decode"%string
  | Some pending =>
      Ok {| taken := merge_discriminators (taken c) pending;
            full_name_owned := full_name_owned c; queue_len := queue_len c;
            queue_capacity := queue_capacity c |}
  end.

(** ** [usernames/available.rs] *)

Inductive NameAvailability :=
| AVAILABLE (digits : list Z)
| EXHAUSTED
| INVALID.

Definition availability_of (b : BaseState) : NameAvailability :=
  let digits := available_digits (taken b) in
  if bool_decide (digits = []) || rejects_reservations b then EXHAUSTED else AVAILABLE digits.

Definition availability_for (base_state : string -> result BaseState string) (base : string)
    : result NameAvailability string :=
  if negb (is_valid_base base) then Ok INVALID
  else let? b := base_state base in Ok (availability_of b).

Record FieldError := { fe_field : string; fe_message : string }.

(** [http-common/src/error.rs]. *)
Definition type_name (v : Json) : string :=
  match v with
  | JNull => "null"
  | JBool _ => "boolean"
  | JNumber _ => "number"
  | JString _ => "string"
  | JArray _ => "array"
  | JObject _ => "object"
  end.
Definition received_name (v : option Json) : string :=
  match v with Some v => type_name v | None => "nothing" end.
Definition expected (e received : string) : string := "expected " +:+ e +:+ ", received " +:+ received.
Definition must_match (pattern : string) : string := "must match " +:+ pattern.
Definition at_most_items (n : nat) : string := "must contain at most " +:+ pretty n +:+ " items".

Definition MAX_USERNAMES : nat := 100.

Fixpoint username_items (index : nat) (items : list Json) : list string * list FieldError :=
  match items with
  | [] => ([], [])
  | item :: items' =>
      let '(names, errors) := username_items (S index) items' in
      match item with
      | JString s => (s :: names, errors)
      | other => (names, {| fe_field := "usernames[" +:+ pretty index +:+ "]";
                            fe_message := expected "string" (type_name other) |} :: errors)
      end
  end.

Definition validate_usernames (value : Json) : result (list string) (list FieldError) :=
  match json_get "usernames" value with
  | Some (JArray items) =>
      let '(names, errors) := username_items 0 items in
      let errors :=
        if (MAX_USERNAMES <? length items)%nat
        then errors ++ [{| fe_field := "usernames"; fe_message := at_most_items MAX_USERNAMES |}]
        else errors in
      match errors with [] => Ok names | _ => Err errors end
  | field =>
      Err [{| fe_field := "usernames"; fe_message := expected "array" (received_name field) |}]
  end.

(** ** [usernames/error.rs] *)

Inductive UsernamesError :=
| RateLimited (retry_after_secs : Z)
| InvalidBody (errors : list FieldError)
| InvalidQuery (errors : list FieldError)
| InvalidHeader (errors : list FieldError)
| MalformedJson
| PreferredDigitsTaken (digits base : string)
| NoDigitsAvailable (base : string)
| UsernameTaken (base digits : string)
| FullNameUnavailable (reserved : string)
| NoQueueEntry
| Voucher (reason : Eligibility.VoucherError)
| PersistenceFailed
| DeviceTokenRequired
| DeviceCheckUnavailable
| DeviceRegistrationFailed
| DeviceEvidenceMalformed
| DeviceEvidenceInvalid
| DeviceEvidenceUnavailable
| Internal (e : string).

(** The status code and the [error] member of the reply. *)
Definition into_response (e : UsernamesError) : Z * string :=
  match e with
  | RateLimited retry => (429, "Rate limit exceeded. Please retry after " +:+ pretty retry +:+ " seconds.")
  | InvalidBody _ => (400, "The request body contains invalid values.")
  | InvalidQuery _ => (400, "The request query contains invalid values.")
  | InvalidHeader _ => (400, "The request headers contain invalid values.")
  | MalformedJson => (400, "Malformed JSON in request body")
  | PreferredDigitsTaken digits base =>
      (409, "Preferred digits " +:+ digits +:+ " already taken for username " +:+ base)
  | NoDigitsAvailable base => (409, "No digits available for username " +:+ base +:+ ".")
  | FullNameUnavailable reserved =>
      (409, "The full name " +:+ reserved +:+ " is not available to reserve. Choose another name.")
  | UsernameTaken base digits =>
      (409, "Username " +:+ base +:+ "." +:+ digits +:+ " already taken. Please try different digits.")
  | NoQueueEntry => (404, "No queue entry found")
  | Voucher reason =>
      (400, match reason with
            | Eligibility.VUnknown => "Voucher not found"
            | Eligibility.VSpent => "Voucher already used"
            | Eligibility.VExpired => "Voucher expired"
            end)
  | PersistenceFailed => (500, "Failed to persist username registration")
  | DeviceTokenRequired => (401, "A valid Device-Token-iOS header is required.")
  | DeviceCheckUnavailable => (502, "iOS DeviceCheck verification failed")
  | DeviceRegistrationFailed =>
      (503, "Failed to mark iOS device as registered with Apple DeviceCheck")
  | DeviceEvidenceMalformed => (400, "DEVICE_EVIDENCE_MALFORMED")
  | DeviceEvidenceInvalid => (403, "DEVICE_EVIDENCE_INVALID")
  | DeviceEvidenceUnavailable => (503, "DEVICE_EVIDENCE_UNAVAILABLE")
  | Internal _ => (500, "Internal server error. Please try again.")
  end%string.

Definition evidence_error (e : DeviceGate.EvidenceError) : UsernamesError :=
  match e with
  | DeviceGate.Malformed _ => DeviceEvidenceMalformed
  | DeviceGate.Invalid _ => DeviceEvidenceInvalid
  end.

(** ** [select_digit] of [usernames/register.rs] *)

(** [choose] picks an element of a non-empty slice; [rng] is the index the
    generator draws. *)
Definition choose {A} (rng : nat) (l : list A) : option A := l !! (rng mod length l)%nat.

Definition select_digit (rng : nat) (taken : gset Z) (preferred : option Z) (base : string)
    : result Z UsernamesError :=
  match preferred with
  | Some d =>
      if bool_decide (d ∈ taken) then Err (PreferredDigitsTaken (fmt02 d) base) else Ok d
  | None =>
      match choose rng (available_digits taken) with
      | Some d => Ok d
      | None => Err (NoDigitsAvailable base)
      end
  end.

(** ** Lemmas *)

Lemma elem_of_available d taken : d ∈ available_digits taken <-> 1 <= d <= 99 /\ d ∉ taken.
Proof.
  unfold available_digits. rewrite list_elem_of_filter, list_elem_of_fmap. split.
  - intros [Hn (n & -> & Hin%elem_of_seq)]. split; [lia|done].
  - intros [Hr Hn]. split; [done|]. exists (Z.to_nat d). rewrite elem_of_seq. lia.
Qed.

Lemma choose_elem {A} rng (l : list A) :
  match choose rng l with Some x => x ∈ l | None => l = [] end.
Proof.
  unfold choose. destruct (l !! _) as [x|] eqn:E; [by eapply list_elem_of_lookup_2|].
  apply lookup_ge_None in E. destruct l as [|y l]; [done|].
  pose proof (Nat.mod_upper_bound rng (length (y :: l))). simpl in *. lia.
Qed.

(** The rows of a base, whatever their status. *)
Definition base_rows (base : string) (db : Db) : list (Z * Row) :=
  filter (fun kr : Z * Row => nr_base (r_new kr.2) = base) (map_to_list (db_reservations db)).

Lemma base_rows_insert base k row db :
  db_reservations db !! k = None ->
  base_rows base (with_reservations (<[k := row]> (db_reservations db)) db) ≡ₚ
    (if decide (nr_base (r_new row) = base) then [(k, row)] else []) ++ base_rows base db.
Proof.
  intros Hk. unfold base_rows. simpl. rewrite (map_to_list_insert _ _ _ Hk), filter_cons. simpl.
  by case_decide.
Qed.

Lemma mapM_elem {A B} (f : A -> option B) l l' y :
  mapM f l = Some l' -> y ∈ l' <-> exists x, x ∈ l /\ f x = Some y.
Proof.
  rewrite mapM_Some. induction 1 as [|x b l l' Hxb _ IH].
  { split; [by intros ?%not_elem_of_nil|]. by intros (x & ?%not_elem_of_nil & _). }
  rewrite elem_of_cons, IH. setoid_rewrite elem_of_cons. naive_solver.
Qed.

Lemma mapM_perm_Some {A B} (f : A -> option B) l1 l2 :
  l1 ≡ₚ l2 -> is_Some (mapM f l1) -> is_Some (mapM f l2).
Proof. intros Hp. rewrite !mapM_is_Some. intros H. by rewrite <-Hp. Qed.

Lemma allocated_Some base db S :
  allocated_discriminators base db = Some S ->
  forall d, d ∈ S <-> exists kr, kr ∈ base_rows base db /\ parse_u8 (nr_digits (r_new kr.2)) = Some d.
Proof.
  unfold allocated_discriminators. fold (base_rows base db). intros H d.
  destruct (mapM _ _) as [l|] eqn:E; simplify_eq/=.
  rewrite elem_of_list_to_set. by apply mapM_elem.
Qed.

(** ** Properties *)

(** What availability offers, registration accepts: for a base the read path
    reports as available, the digits offered are exactly the preferences (between
    1 and 99) the write path would accept on the same state, a claim without a
    preference gets one of them, and nothing is offered when the write path has
    nothing to give. *)
Theorem offered_is_registrable rng b base :
  match availability_of b with
  | AVAILABLE digits =>
      digits <> [] /\
      (forall d, d ∈ digits <-> 1 <= d <= 99 /\ select_digit rng (taken b) (Some d) base = Ok d) /\
      (exists d, select_digit rng (taken b) None base = Ok d /\ d ∈ digits)
  | EXHAUSTED =>
      rejects_reservations b = true \/
      select_digit rng (taken b) None base = Err (NoDigitsAvailable base)
  | INVALID => False
  end.
Proof.
  unfold availability_of. set (ds := available_digits (taken b)).
  pose proof (choose_elem rng ds) as Hch. unfold select_digit. fold ds.
  destruct (bool_decide (ds = []) || rejects_reservations b) eqn:E.
  - apply orb_true_iff in E as [E|E]; [|by left]. bool_prop. right. rewrite E. done.
  - apply orb_false_iff in E as [E _]. bool_prop. split; [done|]. split.
    + intros d. unfold ds. rewrite elem_of_available. case_bool_decide; naive_solver.
    + destruct (choose rng ds) as [d|]; [|done]. by exists d.
Qed.

(** A reserved digit is gone: after a claim for [base.dd] is inserted, on
    either lane, the outbox's allocated discriminators of that base are the old
    ones and [dd], so neither availability nor [select_digit] offers it again,
    before the chain has seen anything. *)
Theorem reserved_digit_is_taken now new st q db i db' d S rng :
  insert_with now new st q db = (Ok i, db') -> ids_below (db_reservations db) (db_next_id db) ->
  0 <= d <= U8_MAX -> nr_digits new = fmt02 d ->
  allocated_discriminators (nr_base new) db = Some S ->
  exists S', allocated_discriminators (nr_base new) db' = Some S' /\
    (forall e, e ∈ S' <-> e ∈ S \/ e = d) /\
    select_digit rng S' (Some d) (nr_base new) = Err (PreferredDigitsTaken (fmt02 d) (nr_base new)) /\
    d ∉ available_digits S'.
Proof.
  intros (-> & -> & _)%insert_with_Ok Hids Hd Hdig Hall.
  set (row := fresh_row now new st q). set (k := db_next_id db).
  assert (db_reservations db !! k = None) as Hk.
  { destruct (db_reservations db !! k) as [r|] eqn:E; [|done]. apply Hids in E. lia. }
  set (db' := with_reservations _ _).
  assert (base_rows (nr_base new) db' ≡ₚ (k, row) :: base_rows (nr_base new) db) as Hrows.
  { pose proof (base_rows_insert (nr_base new) k row db Hk) as Hp.
    rewrite decide_True in Hp by done. exact Hp. }
  assert (is_Some (allocated_discriminators (nr_base new) db')) as [S' HS'].
  { unfold allocated_discriminators in *. fold (base_rows (nr_base new) db) in Hall.
    fold (base_rows (nr_base new) db'). apply fmap_is_Some.
    eapply mapM_perm_Some; [symmetry; exact Hrows|].
    apply mapM_is_Some. constructor.
    - simpl. rewrite Hdig, parse_u8_fmt02 by done. by eexists.
    - apply mapM_is_Some. destruct (mapM _ (base_rows (nr_base new) db)); [by eexists|done]. }
  assert (forall e, e ∈ S' <-> e ∈ S \/ e = d) as HSS.
  { intros e. rewrite (allocated_Some _ _ _ HS'), (allocated_Some _ _ _ Hall).
    setoid_rewrite Hrows. setoid_rewrite elem_of_cons. split.
    - intros (kr & [->|Hin] & Hp); [|left; by exists kr]. right. simpl in Hp.
      rewrite Hdig, parse_u8_fmt02 in Hp by done. congruence.
    - intros [(kr & Hin & Hp)| ->]; [exists kr; auto|]. exists (k, row). split; [by left|].
      simpl. by rewrite Hdig, parse_u8_fmt02. }
  exists S'. split; [done|]. split; [done|]. split.
  - unfold select_digit. rewrite bool_decide_eq_true_2; [done|]. apply HSS. by right.
  - rewrite elem_of_available. intros [_ Hn]. apply Hn, HSS. by right.
Qed.

(** *** Witnesses *)

Lemma reserved_digit_is_taken_witness :
  exists S', allocated_discriminators "tallesx" demo_db = Some S' /\ 7 ∉ available_digits S'.
Proof.
  destruct (reserved_digit_is_taken 0 demo_new Reserved 1 empty_db 1 demo_db 7 ∅ 0)
    as (S' & H & _ & _ & Hd).
  - reflexivity.
  - intros i r Hi. discriminate Hi.
  - vm_compute. split; discriminate.
  - reflexivity.
  - reflexivity.
  - exists S'. split; [exact H|exact Hd].
Defined.

End Usernames.
