(* ===== verification/ChainReads.v ===== *)
(** * ChainReads: what the services learn from chain storage

    The batched reads of [chain-client/src/storage.rs], the reads of the People Chain
    and Asset Hub built on them ([chain/people.rs], [chain/asset_hub.rs]), and the
    shape check of the calls the writer builds ([lib.rs]).  What a node answers, the
    keys of storage entries and SCALE are parameters.  An error is the text of its
    outermost context. *)

From stdpp Require Import gmap.
From S2P Require Import Prelude Strings Text Usernames.

#[local] Open Scope string_scope.
#[local] Open Scope Z_scope.

Module ChainReads.

(** ** [chain-client/src/storage.rs] *)

Inductive BatchReadError :=
| Rpc (error : string)
| ChangeSetCount (n : nat)
| BlockMismatch (want got : bytes)
| UnknownKey
| DuplicateKey
| MissingKeys (n : nat)
| UndecodableValue
| ValueCount (names values : nat).

(** A change set: the block it speaks for, and a value or none for each key. *)
Record StorageChangeSet := { block : bytes; changes : list (bytes * option bytes) }.

(** The [HashMap] of positions: of two equal keys the later position stays. *)
Fixpoint index_from (i : nat) (keys : list bytes) : gmap bytes nat :=
  match keys with
  | [] => ∅
  | k :: keys' => let m := index_from (S i) keys' in match m !! k with Some _ => m | None => <[k := i]> m end
  end.

Fixpoint fill (index : gmap bytes nat) (ch : list (bytes * option bytes))
    (answered : list bool) (values : list (option bytes)) : result (list bool * list (option bytes)) BatchReadError :=
  match ch with
  | [] => Ok (answered, values)
  | (k, v) :: ch' =>
      match index !! k with
      | None => Err UnknownKey
      | Some i =>
          if default false (answered !! i) then Err DuplicateKey
          else fill index ch' (<[i := true]> answered) (<[i := v]> values)
      end
  end.

Definition unanswered (answered : list bool) : nat := length (filter (fun seen => seen = false) answered).

Definition values_from_changes (keys : list bytes) (want_block : bytes) (sets : list StorageChangeSet)
    : result (list (option bytes)) BatchReadError :=
  match sets with
  | [set] =>
      if negb (bool_decide (block set = want_block)) then Err (BlockMismatch want_block (block set))
      else
        match fill (index_from 0 keys) (changes set) (replicate (length keys) false) (replicate (length keys) None) with
        | Err e => Err e
        | Ok (answered, values) =>
            if (0 <? unanswered answered)%nat then Err (MissingKeys (unanswered answered)) else Ok values
        end
  | _ => Err (ChangeSetCount (length sets))
  end.

(** [present_of]: the positions that hold a value, counted from [i]. *)
Fixpoint present_from (i : nat) (values : list (option bytes)) : gset nat :=
  match values with
  | [] => ∅
  | Some _ :: values' => {[ i ]} ∪ present_from (S i) values'
  | None :: values' => present_from (S i) values'
  end.
Definition present_of (values : list (option bytes)) : gset nat := present_from 0 values.

(** The entries of storage that are read, and what SCALE and the client crate do. *)
Inductive Entry := UsernameOwnerOf | UsernameReservationQueue | LiteLabelOwner.

Record ReadCrates := {
  fetch_key : Entry -> bytes -> result bytes string;
  (** The value, and the bytes after it. *)
  decode_account : bytes -> option (bytes * bytes);
  decode_compact_u32 : bytes -> option (Z * bytes);
  batch_error_text : BatchReadError -> string }.

(** What one read meets: the current block, the answer of [state_queryStorageAt], the
    constant of the runtime. *)
Record Node := {
  at_current_block : result bytes string;
  query_storage_at : list bytes -> bytes -> result (list StorageChangeSet) string;
  max_reservation_queue_length : result Z string }.

Section reads.
Context (cr : ReadCrates) (node : Node).
#[local] Open Scope dub_scope.

Definition fetch_many (keys : list bytes) (at_ : bytes) : result (list (option bytes)) BatchReadError :=
  match query_storage_at node keys at_ with
  | Err e => Err (Rpc e)
  | Ok sets => values_from_changes keys at_ sets
  end.

Definition fetch_present (keys : list bytes) (at_ : bytes) : result (gset nat) BatchReadError :=
  let? values := fetch_many keys at_ in Ok (present_of values).

Definition decode_owner (b : bytes) : result bytes BatchReadError :=
  match decode_account cr b with
  | Some (owner, []) => Ok owner
  | _ => Err UndecodableValue
  end.

Fixpoint collect_owners (names : list string) (values : list (option bytes)) (owners : gmap string bytes)
    : result (gmap string bytes) BatchReadError :=
  match names, values with
  | name :: names', Some b :: values' =>
      let? owner := decode_owner b in collect_owners names' values' (<[name := owner]> owners)
  | _ :: names', None :: values' => collect_owners names' values' owners
  | _, _ => Ok owners
  end.

Definition owners_by_name (names : list string) (values : list (option bytes))
    : result (gmap string bytes) BatchReadError :=
  if negb (length names =? length values)%nat then Err (ValueCount (length names) (length values))
  else collect_owners names values ∅.

(** ** [chain/people.rs], [chain/asset_hub.rs] *)

(** A [BTreeSet<&str>], as its elements in order. *)
Definition str_leb (a b : string) : bool := match str_cmp a b with Gt => false | _ => true end.
Definition unique (names : list string) : list string := sort_by str_leb (remove_dups names).

(** The keys of names under an entry, or the first that cannot be built. *)
Definition entry_keys (e : Entry) (names : list string) : result (list bytes) string :=
  try_map (fun _ name => fetch_key cr e (as_bytes name)) 0 names.

(** [username_owners] and [lite_label_owners], with their context. *)
Definition owners_of (e : Entry) (context : string) (names : list string) : result (gmap string bytes) string :=
  match names with
  | [] => Ok ∅
  | _ =>
      let names := unique names in
      let? block_hash := at_current_block node in
      let? keys := entry_keys e names in
      let? values := map_err (fun _ => context) (fetch_many keys block_hash) in
      map_err (batch_error_text cr) (owners_by_name names values)
  end.

Definition username_owners : list string -> result (gmap string bytes) string :=
  owners_of UsernameOwnerOf "reading username owners".
Definition lite_label_owners : list string -> result (gmap string bytes) string :=
  owners_of LiteLabelOwner "reading dotNS lite label owners".

Definition DISCRIMINATORS : nat := 100.

Definition decode_queue_len (b : bytes) : result Z string :=
  match decode_compact_u32 cr b with
  | Some (len, _) => Ok len
  | None => Err "decoding Resources::UsernameReservationQueue length"
  end.

Definition discriminator_names (base : string) : list string :=
  (fun d => base +:+ "." +:+ fmt02 (Z.of_nat d)) <$> seq 0 DISCRIMINATORS.

(** What both reads make of the values of the bare name. *)
Definition reservation_of (full_name queue : option bytes) : result Usernames.ReservationState string :=
  let? len := match queue with Some b => decode_queue_len b | None => Ok 0 end in
  let? capacity := map_err (fun _ => "reading Resources::MaxReservationQueueLength") (max_reservation_queue_length node) in
  Ok {| Usernames.rs_full_name_owned := bool_decide (is_Some full_name);
        Usernames.rs_queue_len := len; Usernames.rs_queue_capacity := capacity |}.

Definition base_state_at (base : string) (block_hash : bytes) : result Usernames.BaseState string :=
  let? keys := entry_keys UsernameOwnerOf (discriminator_names base) in
  let? full := fetch_key cr UsernameOwnerOf (as_bytes base) in
  let? queue := fetch_key cr UsernameReservationQueue (as_bytes base) in
  let? values := map_err (fun _ => "reading username owners") (fetch_many (keys ++ [full; queue]) block_hash) in
  match rev values with
  | reservation_queue :: full_name :: discriminators =>
      let? r := reservation_of full_name reservation_queue in
      Ok {| Usernames.taken := set_map Z.of_nat (present_of (rev discriminators));
            Usernames.full_name_owned := Usernames.rs_full_name_owned r;
            Usernames.queue_len := Usernames.rs_queue_len r;
            Usernames.queue_capacity := Usernames.rs_queue_capacity r |}
  | _ => Err "batched base-state read returned too few values"
  end.

Definition base_state (base : string) : result Usernames.BaseState string :=
  let? block_hash := at_current_block node in base_state_at base block_hash.

Definition taken_discriminators (base : string) : result (gset Z) string :=
  let? b := base_state base in Ok (Usernames.taken b).

Definition reservation_state (name : string) : result Usernames.ReservationState string :=
  let? block_hash := at_current_block node in
  let? full := fetch_key cr UsernameOwnerOf (as_bytes name) in
  let? queue := fetch_key cr UsernameReservationQueue (as_bytes name) in
  let? values := map_err (fun _ => "reading username reservation state") (fetch_many [full; queue] block_hash) in
  match values with
  | [full_name; reservation_queue] => reservation_of full_name reservation_queue
  | _ => Err "batched reservation-state read returned too few values"
  end.
End reads.

(** ** [lib.rs]: the shape of a call *)

(** A field of a call: its name, and the number of its type in the registry. *)
Record Field := { f_name : option string; f_ty : Z }.

Inductive Pallet := DotnsGateway | PeopleLite.
Definition Pallet_to_string (p : Pallet) : string :=
  match p with DotnsGateway => "DotnsGateway::reserve_name" | PeopleLite => "PeopleLite::attest" end.

Record PalletCallArgsShapeError := { sh_pallet : Pallet; sh_expected : string; sh_found : string }.

(** [join(", ")]. *)
Fixpoint join_comma (l : list string) : string :=
  match l with
  | [] => EmptyString
  | [x] => x
  | x :: l' => x +:+ ", " +:+ join_comma l'
  end.

Definition field_name (f : Field) : string := default "<unnamed>" (f_name f).

Definition check_pallet_call_args (expected : list Field) (p : Pallet) (fields : list Field)
    : result unit PalletCallArgsShapeError :=
  if (length fields =? length expected)%nat &&
     forallb (fun fe : Field * Field => (f_ty fe.1 =? f_ty fe.2) && bool_decide (f_name fe.1 = f_name fe.2))
       (zip fields expected)
  then Ok tt
  else Err {| sh_pallet := p; sh_expected := join_comma (field_name <$> expected);
              sh_found := join_comma (field_name <$> fields) |}.

(** Metadata: the pallets, each with its calls. *)
Abbreviation Metadata := (list (string * list (string * list Field))).

Definition lookup_by_name {A : Type} (name : string) (l : list (string * A)) : option A :=
  first_some (fun kv : string * A => if String.eqb kv.1 name then Some kv.2 else None) l.

Definition extract_call_fields (m : Metadata) (pallet_name call_name : string) (vendored : bool)
    : result (list Field) string :=
  let v := if vendored then "vendored " else EmptyString in
  match lookup_by_name pallet_name m with
  | None => Err (v +:+ "runtime declares no " +:+ pallet_name +:+ " pallet")
  | Some calls =>
      match lookup_by_name call_name calls with
      | None => Err (v +:+ pallet_name +:+ " declares no " +:+ call_name +:+ " call")
      | Some fields => Ok fields
      end
  end.
End ChainReads.
