(* ===== verification/ChainReadProps.v ===== *)
(** * ChainReadProps: a batched read is accepted only when it is complete *)

From stdpp Require Import gmap.
From S2P Require Import Prelude Strings Text Usernames ChainReads.

#[local] Open Scope string_scope.
#[local] Open Scope Z_scope.

Module ChainReadProps.
Import ChainReads.

(** ** Positions *)

Lemma index_from_sound i keys k j :
  index_from i keys !! k = Some j -> (i <= j)%nat /\ keys !! (j - i)%nat = Some k.
Proof.
  revert i. induction keys as [|x keys IH]; intros i; cbn [index_from]; [by rewrite lookup_empty|].
  assert (Hlater : index_from (S i) keys !! k = Some j -> (i <= j)%nat /\ (x :: keys) !! (j - i)%nat = Some k).
  { intros [Hle Hk]%IH. split; [lia|]. by replace (j - i)%nat with (S (j - S i)) by lia. }
  destruct (index_from (S i) keys !! x) eqn:E; [done|].
  destruct (decide (x = k)) as [->|Hne].
  - rewrite lookup_insert_eq. intros [= <-]. split; [lia|]. by rewrite Nat.sub_diag.
  - rewrite lookup_insert_ne by done. done.
Qed.

Lemma index_from_complete i keys k : k ∈ keys -> is_Some (index_from i keys !! k).
Proof.
  revert i. induction keys as [|x keys IH]; intros i Hk; [by apply not_elem_of_nil in Hk|]. cbn [index_from].
  apply elem_of_cons in Hk as [->|Hk].
  - destruct (index_from (S i) keys !! x) eqn:E; [by rewrite E|]. by rewrite lookup_insert_eq.
  - destruct (index_from (S i) keys !! x) eqn:E; [by apply IH|].
    destruct (decide (x = k)) as [->|Hne]; [by rewrite lookup_insert_eq|]. rewrite lookup_insert_ne by done. by apply IH.
Qed.

Lemma index_inj keys k k' j :
  index_from 0 keys !! k = Some j -> index_from 0 keys !! k' = Some j -> k = k'.
Proof. intros [_ H1]%index_from_sound [_ H2]%index_from_sound. congruence. Qed.

(** ** Filling in the answers *)

(** The value an answer gives a key. *)
Definition answer_of (ch : list (bytes * option bytes)) (k : bytes) : option bytes :=
  default None (first_some (fun kv : bytes * option bytes => if bool_decide (kv.1 = k) then Some kv.2 else None) ch).

Section fill.
Context (keys : list bytes).
#[local] Abbreviation index := (index_from 0 keys).

(** The answers are to distinct keys that were asked for and not answered before. *)
Definition fresh (ch : list (bytes * option bytes)) (answered : list bool) : Prop :=
  NoDup ch.*1 /\ forall k, k ∈ ch.*1 -> exists i, index !! k = Some i /\ answered !! i = Some false.

Lemma fill_ok ch answered values :
  length answered = length keys ->
  (exists r, fill index ch answered values = Ok r) <-> fresh ch answered.
Proof.
  revert answered values. induction ch as [|[k v] ch IH]; intros answered values Hl; cbn [fill].
  { split; [intros _|by eexists]. split; [constructor|]. intros k Hk. by apply not_elem_of_nil in Hk. }
  destruct (index !! k) as [i|] eqn:Ei.
  2: { split; [by intros []|]. intros [_ Hk]. destruct (Hk k) as (j & Hj & _); [apply list_elem_of_here|congruence]. }
  pose proof (index_from_sound _ _ _ _ Ei) as [_ Hi]. apply lookup_lt_Some in Hi. rewrite Nat.sub_0_r, <- Hl in Hi.
  destruct (lookup_lt_is_Some_2 answered i Hi) as [b Hb]. rewrite Hb. cbn [default from_option id]. destruct b.
  { split; [by intros []|]. intros [_ Hk]. destruct (Hk k) as (j & Hj & Hjf); [apply list_elem_of_here|congruence]. }
  rewrite IH by by rewrite length_insert. unfold fresh. cbn [fmap list_fmap fst]. rewrite NoDup_cons. split.
  - intros [Hnd Hk].
    assert (Hin : k ∉ ch.*1).
    { intros Hin. destruct (Hk k Hin) as (j & Hj & Hjf). assert (j = i) as -> by congruence.
      by rewrite list_lookup_insert_eq in Hjf by done. }
    split; [by split|]. intros k' [->|Hin']%elem_of_cons; [by exists i|].
    destruct (Hk k' Hin') as (j & Hj & Hjf). exists j. split; [done|].
    destruct (decide (i = j)) as [->|Hne]; [by rewrite list_lookup_insert_eq in Hjf by done|].
    by rewrite list_lookup_insert_ne in Hjf.
  - intros [[Hin Hnd] Hk]. split; [done|]. intros k' Hin'.
    destruct (Hk k') as (j & Hj & Hjf); [by apply list_elem_of_further|]. exists j. split; [done|].
    rewrite list_lookup_insert_ne; [done|]. intros ->. assert (k = k') as -> by by eapply index_inj. done.
Qed.

Lemma fill_result ch answered values answered' values' :
  fill index ch answered values = Ok (answered', values') ->
  length answered = length keys -> length values = length keys ->
  length answered' = length keys /\ length values' = length keys /\
  forall k i, index !! k = Some i ->
    answered' !! i = (if bool_decide (k ∈ ch.*1) then Some true else answered !! i) /\
    values' !! i = (if bool_decide (k ∈ ch.*1) then Some (answer_of ch k) else values !! i).
Proof.
  revert answered values. induction ch as [|[k v] ch IH]; intros answered values Hf Hla Hlv; cbn [fill] in Hf.
  { injection Hf as <- <-. split_and!; [done..|]. intros k i _. rewrite !bool_decide_eq_false_2 by apply not_elem_of_nil. done. }
  destruct (index !! k) as [i|] eqn:Ei; [|done].
  pose proof (index_from_sound _ _ _ _ Ei) as [_ Hi]. apply lookup_lt_Some in Hi. rewrite Nat.sub_0_r in Hi.
  destruct (default false (answered !! i)) eqn:Ed; [done|].
  assert (Hfr : fresh ch (<[i := true]> answered)).
  { apply (fill_ok _ _ (<[i := v]> values)); [by rewrite length_insert|by eexists]. }
  assert (Hin : k ∉ ch.*1).
  { intros Hk. destruct (proj2 Hfr k Hk) as (j & Hj & Hjf). assert (j = i) as -> by congruence.
    by rewrite list_lookup_insert_eq in Hjf by lia. }
  destruct (IH _ _ Hf) as (H1 & H2 & H3); [by rewrite length_insert..|]. split_and!; [done..|].
  intros k' j Hj. destruct (H3 k' j Hj) as [-> ->]. cbn [fmap list_fmap fst]. unfold answer_of. cbn [first_some fst snd].
  destruct (decide (k = k')) as [->|Hne].
  - assert (j = i) as -> by congruence.
    rewrite !(bool_decide_eq_false_2 (k' ∈ ch.*1)), !(bool_decide_eq_true_2 (k' ∈ k' :: ch.*1)), (bool_decide_eq_true_2 (k' = k'))
      by (done || apply list_elem_of_here).
    by rewrite !list_lookup_insert_eq by lia.
  - rewrite (bool_decide_eq_false_2 (k = k')) by done.
    assert (i <> j) by (intros ->; apply Hne; by eapply index_inj).
    rewrite !list_lookup_insert_ne by done.
    destruct (decide (k' ∈ ch.*1)) as [Hk|Hk].
    + by rewrite !bool_decide_eq_true_2 by (done || by apply list_elem_of_further).
    + rewrite !bool_decide_eq_false_2; [done|by apply not_elem_of_cons|done].
Qed.

(** A position no key is mapped to is left alone. *)
Lemma fill_untouched ch answered values answered' values' i :
  fill index ch answered values = Ok (answered', values') ->
  (forall k, index !! k <> Some i) -> answered' !! i = answered !! i.
Proof.
  revert answered values. induction ch as [|[k v] ch IH]; intros answered values Hf Hi; cbn [fill] in Hf; [by injection Hf as <- <-|].
  destruct (index !! k) as [j|] eqn:Ej; [|done]. destruct (default false (answered !! j)); [done|].
  rewrite (IH _ _ Hf Hi). apply list_lookup_insert_ne. intros ->. by destruct (Hi k).
Qed.
End fill.

Lemma unanswered_zero answered : unanswered answered = 0%nat <-> forall i, answered !! i <> Some false.
Proof.
  unfold unanswered. rewrite length_zero_iff_nil. split.
  - intros Hf i Hi. assert (false ∈ filter (fun seen => seen = false) answered) as Hin.
    { apply list_elem_of_filter. split; [done|]. by apply list_elem_of_lookup_2 in Hi. }
    rewrite Hf in Hin. by apply not_elem_of_nil in Hin.
  - intros Hn. destruct (filter _ _) as [|b l] eqn:E; [done|].
    assert (b ∈ filter (fun seen => seen = false) answered) as Hin by (rewrite E; apply list_elem_of_here).
    apply list_elem_of_filter in Hin as [-> [i Hi]%list_elem_of_lookup_1]. by destruct (Hn i).
Qed.

Lemma index_lookup keys i k : NoDup keys -> keys !! i = Some k -> index_from 0 keys !! k = Some i.
Proof.
  intros Hnd Hi. destruct (index_from_complete 0 keys k) as [j Hj]; [by eapply list_elem_of_lookup_2|].
  pose proof (index_from_sound _ _ _ _ Hj) as [_ Hk]. rewrite Nat.sub_0_r in Hk.
  by rewrite (NoDup_lookup keys i j k Hnd Hi Hk).
Qed.

Lemma fill_all keys ch answered values :
  fill (index_from 0 keys) ch (replicate (length keys) false) (replicate (length keys) None) = Ok (answered, values) ->
  unanswered answered = 0%nat <-> NoDup keys /\ ch.*1 ≡ₚ keys.
Proof.
  intros Hf. destruct (fill_result keys ch _ _ _ _ Hf) as (Hl & _ & Hr); [apply length_replicate..|].
  assert (Hfr : fresh keys ch (replicate (length keys) false)).
  { apply (fill_ok keys ch _ (replicate (length keys) None)); [apply length_replicate|by eexists]. }
  assert (Hsub : forall k, k ∈ ch.*1 -> k ∈ keys).
  { intros k Hk. destruct (proj2 Hfr k Hk) as (i & [_ Hi]%index_from_sound & _). by eapply list_elem_of_lookup_2. }
  rewrite unanswered_zero. split.
  - intros Hall.
    assert (Hidx : forall i k, keys !! i = Some k -> index_from 0 keys !! k = Some i).
    { intros i k Hi. destruct (index_from_complete 0 keys k) as [j Hj]; [by eapply list_elem_of_lookup_2|].
      destruct (decide (j = i)) as [->|Hne]; [done|]. destruct (Hall i).
      rewrite (fill_untouched keys _ _ _ _ _ i Hf).
      - apply lookup_replicate_2. by eapply lookup_lt_Some.
      - intros k' Hk'. pose proof (index_from_sound _ _ _ _ Hk') as [_ Hi']. rewrite Nat.sub_0_r in Hi'. congruence. }
    split.
    + apply NoDup_alt. intros i j k Hi Hj. apply Hidx in Hi, Hj. congruence.
    + assert (Hnd : NoDup keys) by (apply NoDup_alt; intros i j k Hi Hj; apply Hidx in Hi, Hj; congruence).
      apply NoDup_Permutation; [by destruct Hfr|done|]. intros k. split; [apply Hsub|].
      intros [i Hi]%list_elem_of_lookup_1. destruct (Hr k i (Hidx i k Hi)) as [Ha _].
      destruct (bool_decide (k ∈ ch.*1)) eqn:E; bool_prop; [done|]. destruct (Hall i). rewrite Ha.
      apply lookup_replicate_2. by eapply lookup_lt_Some.
  - intros [Hnd Hp] i Hi. pose proof (lookup_lt_Some _ _ _ Hi) as Hlt. rewrite Hl in Hlt.
    destruct (lookup_lt_is_Some_2 keys i Hlt) as [k Hk]. destruct (Hr k i) as [Ha _]; [by apply index_lookup|].
    rewrite bool_decide_eq_true_2 in Ha by (rewrite Hp; by eapply list_elem_of_lookup_2). congruence.
Qed.

Lemma fill_values keys ch answered values :
  fill (index_from 0 keys) ch (replicate (length keys) false) (replicate (length keys) None) = Ok (answered, values) ->
  NoDup keys -> ch.*1 ≡ₚ keys -> values = answer_of ch <$> keys.
Proof.
  intros Hf Hnd Hp. destruct (fill_result keys ch _ _ _ _ Hf) as (_ & Hl & Hr); [apply length_replicate..|].
  apply list_eq. intros i. rewrite list_lookup_fmap. destruct (keys !! i) as [k|] eqn:Ek; cbn [fmap option_fmap option_map].
  - destruct (Hr k i) as [_ Hv]; [by apply index_lookup|].
    by rewrite bool_decide_eq_true_2 in Hv by (rewrite Hp; by eapply list_elem_of_lookup_2).
  - apply lookup_ge_None. rewrite Hl. by apply lookup_ge_None.
Qed.

Lemma values_exact keys want sets vs :
  values_from_changes keys want sets = Ok vs <->
  exists ch, sets = [{| block := want; changes := ch |}] /\ NoDup keys /\ ch.*1 ≡ₚ keys /\ vs = answer_of ch <$> keys.
Proof.
  unfold values_from_changes. destruct sets as [|[b ch] [|]]; try (split; [done|]; by intros (? & ? & _)).
  cbn [block changes]. destruct (decide (b = want)) as [->|Hne].
  2: { rewrite bool_decide_eq_false_2 by done. split; [done|]. intros (ch' & [= -> _] & _). done. }
  rewrite bool_decide_eq_true_2 by done. cbn [negb].
  destruct (fill _ ch _ _) as [[answered values]|e] eqn:Ef.
  - pose proof (fill_all keys ch answered values Ef) as Hall. destruct (Nat.ltb_spec 0 (unanswered answered)) as [Hu|Hu].
    + split; [done|]. intros (ch' & [= <-] & Hnd & Hp & _). assert (unanswered answered = 0%nat) by by apply Hall. lia.
    + destruct (proj1 Hall ltac:(lia)) as [Hnd Hp]. pose proof (fill_values keys ch answered values Ef Hnd Hp) as ->.
      split; [intros [= <-]; by exists ch|]. by intros (ch' & [= <-] & _ & _ & ->).
  - split; [done|]. intros (ch' & [= <-] & Hnd & Hp & _).
    assert (exists r, fill (index_from 0 keys) ch (replicate (length keys) false) (replicate (length keys) None) = Ok r) as [r Hr];
      [|congruence].
    apply fill_ok; [apply length_replicate|]. split; [by rewrite Hp|]. intros k Hk. rewrite Hp in Hk.
    destruct (index_from_complete 0 keys k Hk) as [i Hi]. exists i. split; [done|].
    apply lookup_replicate_2. pose proof (index_from_sound _ _ _ _ Hi) as [_ H]. apply lookup_lt_Some in H. lia.
Qed.

(** A batched read is accepted exactly when it answers what was asked: one change
    set, for the requested block, with every requested key once and no other; and
    then each position holds the value given for its key.  Asking for a key twice is
    never accepted. *)
Theorem batched_read_exact keys want sets vs :
  values_from_changes keys want sets = Ok vs <->
  exists ch, sets = [{| block := want; changes := ch |}] /\ NoDup keys /\ ch.*1 ≡ₚ keys /\
    vs = answer_of ch <$> keys.
Proof. apply values_exact. Qed.

(** ** Reads from a node that tells the truth *)

Section honest.
Context (cr : ReadCrates) (node : Node) (store : bytes -> bytes -> option bytes).

(** What the node answers for a block is what that block's storage holds. *)
Definition honest : Prop :=
  forall keys at_ sets set k v, query_storage_at node keys at_ = Ok sets -> set ∈ sets -> (k, v) ∈ changes set ->
    v = store (block set) k.

Hypothesis node_honest : honest.

Lemma answer_of_elem ch k : k ∈ ch.*1 -> (k, answer_of ch k) ∈ ch.
Proof.
  induction ch as [|[k' v] ch IH]; cbn [fmap list_fmap fst]; [intros H; by apply not_elem_of_nil in H|].
  intros Hk. unfold answer_of. cbn [first_some fst snd]. case_bool_decide as E.
  - subst. cbn. apply list_elem_of_here.
  - apply elem_of_cons in Hk as [->|Hk]; [done|]. apply list_elem_of_further. by apply IH.
Qed.

Lemma fetch_many_store keys at_ vs :
  fetch_many node keys at_ = Ok vs -> NoDup keys /\ vs = store at_ <$> keys.
Proof.
  unfold fetch_many. destruct (query_storage_at node keys at_) as [sets|] eqn:Eq; [|done].
  intros (ch & -> & Hnd & Hp & ->)%values_exact. split; [done|]. apply list_fmap_ext. intros i k Hk.
  apply list_elem_of_lookup_2 in Hk. rewrite <- Hp in Hk. apply answer_of_elem in Hk.
  apply (node_honest _ _ _ _ _ _ Eq (list_elem_of_here _ _)) in Hk. exact Hk.
Qed.

Lemma entry_keys_ok e names keys :
  entry_keys cr e names = Ok keys ->
  length keys = length names /\ forall i n k, names !! i = Some n -> keys !! i = Some k -> fetch_key cr e (as_bytes n) = Ok k.
Proof. intros [Hl Hk]%try_map_ok. split; [done|]. intros i n k Hn Hk'. exact (Hk i n k Hn Hk'). Qed.

(** What storage says of the owner of a name. *)
Definition owner_at (e : Entry) (at_ : bytes) (n : string) (o : option bytes) : Prop :=
  exists key, fetch_key cr e (as_bytes n) = Ok key /\
    match store at_ key with
    | None => o = None
    | Some b => exists owner, decode_owner cr b = Ok owner /\ o = Some owner
    end.

Lemma collect_owners_ok names values owners m :
  collect_owners cr names values owners = Ok m -> length names = length values -> NoDup names ->
  (forall n, n ∉ names -> m !! n = owners !! n) /\
  forall i n v, names !! i = Some n -> values !! i = Some v -> owners !! n = None ->
    match v with None => m !! n = None | Some b => exists o, decode_owner cr b = Ok o /\ m !! n = Some o end.
Proof.
  revert values owners. induction names as [|x names IH]; intros [|w values] owners H Hl Hnd; try done.
  { cbn in H. injection H as <-. split; [done|]. by intros i n v Hn. }
  apply NoDup_cons in Hnd as [Hx Hnd]. injection Hl as Hl. destruct w as [b|]; cbn [collect_owners] in H.
  - apply rbind_ok in H as (o & Ho & H). destruct (IH _ _ H Hl Hnd) as [H1 H2]. split.
    + intros n [Hne Hn]%not_elem_of_cons. by rewrite H1, lookup_insert_ne by done.
    + intros [|i] n v Hn Hv Hnone; cbn in Hn, Hv; simplify_eq.
      * exists o. split; [done|]. by rewrite H1, lookup_insert_eq.
      * apply (H2 i n v Hn Hv). rewrite lookup_insert_ne; [done|]. intros ->. apply Hx. by eapply list_elem_of_lookup_2.
  - destruct (IH _ _ H Hl Hnd) as [H1 H2]. split.
    + intros n [Hne Hn]%not_elem_of_cons. by apply H1.
    + intros [|i] n v Hn Hv Hnone; cbn in Hn, Hv; simplify_eq; [by rewrite H1|]. by apply (H2 i n v).
Qed.

Lemma elem_of_unique n names : n ∈ unique names <-> n ∈ names.
Proof. unfold unique. by rewrite elem_of_sort_by, elem_of_remove_dups. Qed.

Lemma NoDup_unique names : NoDup (unique names).
Proof. unfold unique. rewrite sort_by_perm. apply NoDup_remove_dups. Qed.

Lemma owners_read e context names m :
  owners_of cr node e context names = Ok m ->
  (names = [] /\ m = ∅) \/
  exists at_, at_current_block node = Ok at_ /\ (forall n, n ∉ names -> m !! n = None) /\
    forall n, n ∈ names -> owner_at e at_ n (m !! n).
Proof.
  unfold owners_of. destruct names as [|x names]; [intros [= <-]; by left|]. set (l := x :: names). intros H. right.
  apply rbind_ok in H as (at_ & Ha & H). apply rbind_ok in H as (keys & Hk & H). apply rbind_ok in H as (values & Hv & H).
  apply map_err_ok in Hv. apply map_err_ok in H. apply fetch_many_store in Hv as [_ ->].
  apply entry_keys_ok in Hk as [Hlen Hkeys]. unfold owners_by_name in H.
  rewrite length_fmap, Hlen, Nat.eqb_refl in H. cbn [negb] in H.
  destruct (collect_owners_ok _ _ _ _ H) as [H1 H2]; [by rewrite length_fmap|apply NoDup_unique|].
  exists at_. split_and!; [done| |].
  - intros n Hn. rewrite H1; [apply lookup_empty|]. by rewrite elem_of_unique.
  - intros n Hn. rewrite <- elem_of_unique in Hn. apply list_elem_of_lookup_1 in Hn as [i Hi].
    destruct (lookup_lt_is_Some_2 keys i) as [k Hk]; [rewrite Hlen; by eapply lookup_lt_Some|].
    exists k. split; [by eapply Hkeys|].
    specialize (H2 i n (store at_ k) Hi). rewrite list_lookup_fmap, Hk in H2. specialize (H2 eq_refl (lookup_empty _)).
    by destruct (store at_ k).
Qed.

(** The owners the writer takes as evidence are the chain's: of a node that tells
    the truth, the map read for a set of names holds, for each name asked, exactly the
    owner that the storage of one block has for it, and nothing else. *)
Theorem owners_read_exact names m :
  username_owners cr node names = Ok m -> names <> [] ->
  exists at_, at_current_block node = Ok at_ /\ (forall n, n ∉ names -> m !! n = None) /\
    forall n, n ∈ names -> owner_at UsernameOwnerOf at_ n (m !! n).
Proof. intros [[-> _]|H]%owners_read Hne; [done|exact H]. Qed.

(** ** The state of a base *)

Lemma present_from_spec i values d : d ∈ present_from i values <-> (i <= d)%nat /\ exists b, values !! (d - i)%nat = Some (Some b).
Proof.
  revert i. induction values as [|v values IH]; intros i; cbn [present_from].
  { rewrite lookup_nil. split; [set_solver|]. by intros (_ & b & ?). }
  assert (Hlater : (i < d)%nat -> d ∈ present_from (S i) values <-> exists b, (v :: values) !! (d - i)%nat = Some (Some b)).
  { intros Hd. rewrite IH. replace (d - i)%nat with (S (d - S i)) by lia. cbn. split; [by intros [_ ?]|]. intros H. by split; [lia|]. }
  assert (Hnot : (d < S i)%nat -> d ∉ present_from (S i) values) by (intros Hd [Hle _]%IH; lia).
  destruct (decide (d = i)) as [->|Hne].
  - rewrite Nat.sub_diag. cbn [lookup list_lookup]. destruct v as [b|].
    + split; [intros _; split; [lia|by exists b]|]. intros _. set_solver.
    + split; [intros H; by destruct (Hnot ltac:(lia))|]. by intros (_ & b & ?).
  - destruct (decide (i < d)%nat) as [Hlt|Hge].
    + rewrite <- (Hlater Hlt). destruct v; [rewrite elem_of_union, elem_of_singleton|]; split; intros H; try (by destruct H); try (split; [lia|]); try (by right); naive_solver lia.
    + split; [|lia]. intros H. assert (d ∈ present_from (S i) values) by (destruct v; [set_solver|done]).
      by destruct (Hnot ltac:(lia)).
Qed.

Lemma rev_last_two {A : Type} (l : list A) y x d : rev l = y :: x :: d -> l = (rev d ++ [x; y])%list.
Proof. intros H. rewrite <- (rev_involutive l), H. simpl. by rewrite <- app_assoc. Qed.

(** The name under a discriminator, and whether storage has an owner for a name. *)
Definition lite_name (base : string) (d : Z) : string := base +:+ "." +:+ fmt02 d.
Definition owned (at_ : bytes) (n : string) : Prop :=
  exists key, fetch_key cr UsernameOwnerOf (as_bytes n) = Ok key /\ is_Some (store at_ key).
Definition unowned (at_ : bytes) (n : string) : Prop :=
  exists key, fetch_key cr UsernameOwnerOf (as_bytes n) = Ok key /\ store at_ key = None.

Lemma discriminator_name base d :
  (d < DISCRIMINATORS)%nat -> discriminator_names base !! d = Some (lite_name base (Z.of_nat d)).
Proof.
  intros Hd. unfold discriminator_names. rewrite list_lookup_fmap, lookup_seq_lt by done. done.
Qed.

Lemma taken_read base at_ keys (d : Z) :
  entry_keys cr UsernameOwnerOf (discriminator_names base) = Ok keys ->
  d ∈ (set_map Z.of_nat (present_of (store at_ <$> keys)) : gset Z) <-> 0 <= d < 100 /\ owned at_ (lite_name base d).
Proof.
  intros [Hlen Hkeys]%entry_keys_ok. unfold discriminator_names in Hlen. rewrite length_fmap, length_seq in Hlen.
  rewrite elem_of_map. unfold present_of. split.
  - intros (n & -> & (_ & b & Hb)%present_from_spec). rewrite Nat.sub_0_r, list_lookup_fmap in Hb.
    destruct (keys !! n) as [k|] eqn:Ek; [|done]. injection Hb as Hb.
    pose proof (lookup_lt_Some _ _ _ Ek) as Hn. rewrite Hlen in Hn. unfold DISCRIMINATORS in Hn. split; [lia|].
    exists k. split; [|by eexists]. by eapply Hkeys; [apply discriminator_name|].
  - intros (Hd & key & Hk & b & Hb). exists (Z.to_nat d). rewrite Z2Nat.id by lia. split; [done|].
    apply present_from_spec. split; [lia|]. rewrite Nat.sub_0_r, list_lookup_fmap.
    assert (Hn : (Z.to_nat d < DISCRIMINATORS)%nat) by (unfold DISCRIMINATORS; lia).
    destruct (lookup_lt_is_Some_2 keys (Z.to_nat d)) as [k Ek]; [lia|]. rewrite Ek.
    pose proof (Hkeys _ _ _ (discriminator_name base _ Hn) Ek) as Hk'. rewrite Z2Nat.id in Hk' by lia.
    exists b. cbn. congruence.
Qed.

Lemma base_state_read base b :
  base_state cr node base = Ok b ->
  exists at_, at_current_block node = Ok at_ /\
    (forall d, d ∈ Usernames.taken b <-> 0 <= d < 100 /\ owned at_ (lite_name base d)) /\
    (forall d, 0 <= d < 100 -> d ∉ Usernames.taken b -> unowned at_ (lite_name base d)) /\
    (if Usernames.full_name_owned b then owned at_ base else unowned at_ base).
Proof.
  intros (at_ & Ha & H)%rbind_ok. exists at_. split; [done|]. unfold base_state_at in H.
  apply rbind_ok in H as (keys & Hk & H). apply rbind_ok in H as (full & Hf & H). apply rbind_ok in H as (queue & Hq & H).
  apply rbind_ok in H as (values & Hv & H). apply map_err_ok, fetch_many_store in Hv as [_ Hv].
  destruct (rev values) as [|vq [|vf vd]] eqn:Er; try done. apply rev_last_two in Er.
  rewrite Hv, fmap_app in Er. apply app_inj_2 in Er as [Hd Hlast]; [|done]. cbn in Hlast. injection Hlast as Hvf Hvq.
  apply rbind_ok in H as (r & Hr & [= <-]). cbn [Usernames.taken Usernames.full_name_owned]. rewrite <- Hd.
  assert (Ht : forall d, d ∈ (set_map Z.of_nat (present_of (store at_ <$> keys)) : gset Z) <-> 0 <= d < 100 /\ owned at_ (lite_name base d))
    by (intros d; by apply taken_read).
  split_and!; [done| |].
  - intros d Hd' Hn. pose proof (entry_keys_ok _ _ _ Hk) as [Hlen Hkeys].
    unfold discriminator_names in Hlen. rewrite length_fmap, length_seq in Hlen.
    assert (Hn' : (Z.to_nat d < DISCRIMINATORS)%nat) by (unfold DISCRIMINATORS; lia).
    destruct (lookup_lt_is_Some_2 keys (Z.to_nat d)) as [k Ek]; [lia|].
    pose proof (Hkeys _ _ _ (discriminator_name base _ Hn') Ek) as Hk'. rewrite Z2Nat.id in Hk' by lia.
    exists k. split; [done|]. apply eq_None_not_Some. intros Hs. apply Hn, Ht. split; [done|]. by exists k.
  - apply rbind_ok in Hr as (len & _ & Hr). apply rbind_ok in Hr as (cap & _ & [= <-]).
    cbn [Usernames.rs_full_name_owned]. rewrite <- Hvf. destruct (store at_ full) as [o|] eqn:Eo.
    + rewrite bool_decide_eq_true_2 by by eexists. exists full. split; [done|by rewrite Eo].
    + rewrite bool_decide_eq_false_2 by (by intros []). by exists full.
Qed.

(** What availability offers is free on chain: of a node that tells the truth, each
    digit offered for a base, after the digits the outbox has allocated are taken out,
    is between 1 and 99, not allocated, and has no owner in the storage of the block
    that was read, where the bare name has no owner either. *)
Theorem availability_reads_chain base pending b digits d :
  Usernames.base_state_at (base_state cr node base) (Some pending) = Ok b ->
  Usernames.availability_of b = Usernames.AVAILABLE digits -> d ∈ digits ->
  exists at_, at_current_block node = Ok at_ /\ 1 <= d <= 99 /\ (d ∉ pending) /\
    unowned at_ (lite_name base d) /\ unowned at_ base.
Proof.
  intros (c & Hc & [= <-])%rbind_ok Ha Hd. destruct (base_state_read base c Hc) as (at_ & Hat & Ht & Hu & Hf).
  exists at_. split; [exact Hat|]. unfold Usernames.availability_of in Ha. cbv zeta in Ha.
  set (l := Usernames.available_digits _) in Ha. destruct (bool_decide (l = []) || _) eqn:E in Ha; [discriminate Ha|].
  injection Ha as Hl. rewrite <- Hl in Hd. apply orb_false_iff in E as [_ E].
  apply list_elem_of_filter in Hd as [Hnt Hd]. cbn [Usernames.taken] in Hnt.
  apply not_elem_of_union in Hnt as [Hnc Hnp]. apply list_elem_of_fmap in Hd as (n & -> & [Hn1 Hn2]%elem_of_seq).
  apply orb_false_iff in E as [E _]. cbn in E. rewrite E in Hf.
  split; [lia|]. split; [exact Hnp|]. split; [apply Hu; [lia|exact Hnc]|exact Hf].
Qed.
End honest.

(** ** The shape of a call *)

(** The writer starts on a runtime whose call has the arguments of the vendored one,
    by name and by the number of their types. *)
Lemma call_shape_exact expected p fields : check_pallet_call_args expected p fields = Ok tt <-> fields = expected.
Proof.
  assert (H : forall l l', (length l =? length l')%nat && forallb (fun fe : Field * Field =>
    (f_ty fe.1 =? f_ty fe.2) && bool_decide (f_name fe.1 = f_name fe.2)) (zip l l') = true <-> l = l').
  { induction l as [|[n t] l IH]; intros [|[n' t'] l']; cbn; try done.
    rewrite !andb_true_iff, bool_decide_eq_true, Z.eqb_eq. specialize (IH l'). rewrite andb_true_iff in IH.
    split; [intros (? & (-> & ->) & ?); f_equal; by apply IH|]. intros [= -> -> ->]. by destruct (proj2 IH eq_refl). }
  unfold check_pallet_call_args. rewrite <- H. by destruct (_ && _).
Qed.

(** Two runtimes that number their types differently are told apart, and the error
    then shows the same arguments twice. *)
Lemma call_shape_type_numbers :
  exists expected fields e, map f_name expected = map f_name fields /\
    check_pallet_call_args expected PeopleLite fields = Err e /\ sh_expected e = sh_found e.
Proof.
  exists [{| f_name := Some "candidate"; f_ty := 0 |}], [{| f_name := Some "candidate"; f_ty := 1 |}].
  eexists. split; [done|]. split; [reflexivity|done].
Qed.

(** ** Concrete instances *)

Module Demo.
Definition demo : ReadCrates :=
  {| fetch_key := fun e n => Ok ((match e with UsernameOwnerOf => 1 | UsernameReservationQueue => 2 | LiteLabelOwner => 3 end) :: n)%list;
     decode_account := fun b => Some (b, []); decode_compact_u32 := fun b => Some (Z.of_nat (length b), []);
     batch_error_text := fun _ => "error" |}.

(** One name is owned. *)
Definition demo_store (at_ : bytes) (key : bytes) : option bytes :=
  if bool_decide (key = 1 :: as_bytes "alicebob.05") then Some [9] else None.

Definition demo_node : Node :=
  {| at_current_block := Ok [7];
     query_storage_at := fun keys at_ => Ok [{| block := at_; changes := (fun k => (k, demo_store at_ k)) <$> keys |}];
     max_reservation_queue_length := Ok 10 |}.

Lemma demo_honest : honest demo_node demo_store.
Proof.
  intros keys at_ sets set k v [= <-] Hset Hin. apply list_elem_of_singleton in Hset as ->. cbn in Hin.
  by apply list_elem_of_fmap in Hin as (k' & [= -> ->] & _).
Defined.

Lemma owners_read_exact_witness :
  exists m, username_owners demo demo_node ["alicebob.05"; "carolcarol.01"] = Ok m /\
    m !! "alicebob.05" = Some [9] /\
    exists at_, at_current_block demo_node = Ok at_ /\ (forall n, n ∉ ["alicebob.05"; "carolcarol.01"] -> m !! n = None) /\
      forall n, n ∈ ["alicebob.05"; "carolcarol.01"] -> owner_at demo demo_store UsernameOwnerOf at_ n (m !! n).
Proof.
  assert (H : exists m, username_owners demo demo_node ["alicebob.05"; "carolcarol.01"] = Ok m /\ m !! "alicebob.05" = Some [9]).
  { eexists. split; vm_compute; reflexivity. }
  destruct H as (m & H1 & H2). exists m. split; [exact H1|]. split; [exact H2|].
  exact (owners_read_exact demo demo_node demo_store demo_honest ["alicebob.05"; "carolcarol.01"] m H1 ltac:(discriminate)).
Defined.

Definition demo_pending : gset Z := {[ 6 ]}.
Abbreviation demo_free := (Usernames.base_state_at (base_state demo demo_node "alicebob") (Some demo_pending)).

(** 5 is owned on chain, 6 allocated by the outbox, 7 is offered. *)
Lemma availability_reads_chain_witness :
  exists b digits, demo_free = Ok b /\ Usernames.availability_of b = Usernames.AVAILABLE digits /\
    bool_decide (5 ∈ digits) = false /\ bool_decide (6 ∈ digits) = false /\
    exists at_, at_current_block demo_node = Ok at_ /\ 1 <= 7 <= 99 /\ (7 ∉ demo_pending) /\
      unowned demo demo_store at_ (lite_name "alicebob" 7) /\ unowned demo demo_store at_ "alicebob".
Proof.
  assert (H : exists b digits, demo_free = Ok b /\ Usernames.availability_of b = Usernames.AVAILABLE digits /\
    bool_decide (5 ∈ digits) = false /\ bool_decide (6 ∈ digits) = false /\ bool_decide (7 ∈ digits) = true).
  { eexists _, _. split; [vm_compute; reflexivity|]. split; [vm_compute; reflexivity|]. split_and!; vm_compute; reflexivity. }
  destruct H as (b & digits & H1 & H2 & H3 & H4 & H5). exists b, digits.
  exact (conj H1 (conj H2 (conj H3 (conj H4
    (availability_reads_chain demo demo_node demo_store demo_honest "alicebob" demo_pending b digits 7 H1 H2
       (proj1 (bool_decide_eq_true _) H5)))))).
Defined.
End Demo.
End ChainReadProps.
