(* ===== verification/Search.v ===== *)
(** * Search: prefix search over the projection ([username-indexer/src/search.rs])

    Validation of the query, the SQL statement over [assigned_usernames] (prefix
    match, row filter, keyset condition, order and limit), the page and its
    cursor.  base64, serde_json and Postgres's [lower] are parameters. *)

From stdpp Require Import gmap.
From stdpp Require countable.
From S2P Require Import Prelude Strings Text Projection Usernames.

#[local] Open Scope string_scope.
#[local] Open Scope Z_scope.

Module Search.
Import Projection.

Definition DEFAULT_LIMIT : Z := 100.
Definition MAX_LIMIT : Z := 1000.

Definition PREFIX_REQUIRED : string := "Prefix is required".
Definition PREFIX_TOO_LONG : string := "Prefix must be at most 64 characters".
Definition quoted (s : string) : string := String QUOTE (s +:+ String QUOTE EmptyString).
Definition PREFIX_PATTERN : string :=
  "Prefix must be letters/digits, optionally followed by a dot and digits (e.g. "
  +:+ quoted "alice" +:+ ", " +:+ quoted "alice." +:+ ", " +:+ quoted "alice.10" +:+ ")".
Definition MUST_BE_POSITIVE : string := "must be greater than 0".

Record Cursor := { display_key : string; cur_base : string; cur_digits : string; cur_account : bytes }.

Record SearchUsername := {
  su_account_id : string; su_username : string; su_status : string; su_created_at : Z; su_updated_at : Z }.
Record SearchResponse := { sr_usernames : list SearchUsername; next_cursor : option string }.
Record SearchRow := { item : SearchUsername; sr_cursor : Cursor }.

Inductive SearchError := InvalidQuery (errors : list Usernames.FieldError) | InvalidCursor | Database.

Record SearchCrates := {
  b64_encode : bytes -> string; b64_decode : string -> option bytes;
  cursor_to_json : Cursor -> bytes; cursor_from_json : bytes -> option Cursor;
  pg_lower : string -> string }.

Section search.
Context (cr : SearchCrates).
#[local] Open Scope dub_scope.

(** ** Cursors *)

Definition encode_cursor (c : Cursor) : string := b64_encode cr (cursor_to_json cr c).

Definition decode_cursor (encoded : string) : result Cursor SearchError :=
  match (b ← b64_decode cr encoded; cursor_from_json cr b) with
  | None => Err InvalidCursor
  | Some c =>
      if String.eqb (display_key c) EmptyString || String.eqb (cur_base c) EmptyString
         || String.eqb (cur_digits c) EmptyString || negb (all_chars is_ascii_digit (cur_digits c))
      then Err InvalidCursor else Ok c
  end.

(** ** The query *)

(** ASCII letters and digits, then optionally a dot and digits. *)
Definition prefix_matches (prefix : string) : bool :=
  let '(head, tail) := match split_once "."%char prefix with
                       | Some (h, t) => (h, Some t)
                       | None => (prefix, None)
                       end in
  negb (String.eqb head EmptyString) && all_chars is_ascii_alphanumeric head
  && match tail with None => true | Some digits => all_chars is_ascii_digit digits end.

(** [chars().count()] of UTF-8 text: the bytes that start a character. *)
Fixpoint chars_count (s : string) : Z :=
  match s with
  | EmptyString => 0
  | String c s' => (if utf8_cont (byte_of_ascii c) then 0 else 1) + chars_count s'
  end.

Record ValidatedQuery := { vq_prefix : string; vq_limit : Z; vq_cursor : option Cursor }.

Definition field_error (field message : string) : Usernames.FieldError :=
  {| Usernames.fe_field := field; Usernames.fe_message := message |}.

Definition prefix_errors (prefix : option string) : list Usernames.FieldError :=
  match prefix with
  | None => [field_error "prefix" (Usernames.expected "string" "nothing")]
  | Some p =>
      ((if String.eqb p EmptyString then [field_error "prefix" PREFIX_REQUIRED] else [])
       ++ (if 64 <? chars_count p then [field_error "prefix" PREFIX_TOO_LONG] else [])
       ++ (if prefix_matches p then [] else [field_error "prefix" PREFIX_PATTERN]))%list
  end.

Definition limit_of (raw : option string) : Z * list Usernames.FieldError :=
  match raw with
  | None => (DEFAULT_LIMIT, [])
  | Some raw =>
      match parse_unsigned U32_MAX (trim raw) with
      | Some limit =>
          if limit =? 0 then (DEFAULT_LIMIT, [field_error "limit" MUST_BE_POSITIVE]) else (limit, [])
      | None => (DEFAULT_LIMIT, [field_error "limit" (Usernames.expected "a positive integer" raw)])
      end
  end.

Definition validate (params : gmap string string) : result ValidatedQuery SearchError :=
  let? cursor := match params !! "cursor" with
                 | None => Ok None
                 | Some raw => let? c := decode_cursor raw in Ok (Some c)
                 end in
  let prefix := params !! "prefix" in
  let '(limit, limit_errors) := limit_of (params !! "limit") in
  match (prefix_errors prefix ++ limit_errors)%list with
  | [] => Ok {| vq_prefix := default EmptyString prefix; vq_limit := Z.min limit MAX_LIMIT;
                vq_cursor := cursor |}
  | errors => Err (InvalidQuery errors)
  end.

(** ** The statement *)

Fixpoint escape_like (s : string) : string :=
  match s with
  | EmptyString => EmptyString
  | String c s' =>
      if Ascii.eqb c BACKSLASH || Ascii.eqb c "%"%char || Ascii.eqb c "_"%char
      then String BACKSLASH (String c (escape_like s')) else String c (escape_like s')
  end.

(** [s LIKE p ESCAPE '\'] on bytes; [_] is only exact on ASCII, and no pattern of
    this module has one. *)
Fixpoint like (p s : string) {struct p} : bool :=
  match p with
  | EmptyString => String.eqb s EmptyString
  | String c p' =>
      if Ascii.eqb c "%"%char then
        (fix any (s : string) : bool :=
           like p' s || match s with EmptyString => false | String _ s' => any s' end) s
      else if Ascii.eqb c BACKSLASH then
        match p' with
        | String d p'' => match s with String x s' => Ascii.eqb x d && like p'' s' | EmptyString => false end
        | EmptyString => false
        end
      else
        match s with
        | String x s' => (Ascii.eqb c "_"%char || Ascii.eqb x c) && like p' s'
        | EmptyString => false
        end
  end.

(** [display_username ~ '\.[0-9]{1,2}$']. *)
Definition two_digits_at_end (s : string) : bool :=
  match rsplit_once "."%char s with
  | Some (_, d) =>
      all_chars is_ascii_digit d && (1 <=? String.length d)%nat && (String.length d <=? 2)%nat
  | None => false
  end.

(** [get_byte(identifier_key, 0) = 0]. *)
Definition first_byte_zero (key : bytes) : bool := match key with b :: _ => b =? 0 | [] => false end.

Record Key := { k_display : string; k_base : string; k_digits : Z; k_account : bytes }.

Definition key_of (ar : bytes * Row) : Key :=
  {| k_display := pg_lower cr (ct_display (row_content ar.2)); k_base := ct_base (row_content ar.2);
     k_digits := ct_digits (row_content ar.2); k_account := ar.1 |}.

(** [$4::numeric] and the other casts of the keyset. *)
Definition key_of_cursor (c : Cursor) : Key :=
  {| k_display := display_key c; k_base := cur_base c; k_digits := numeral 0 (cur_digits c);
     k_account := cur_account c |}.

(** Row comparison, column by column. *)
Definition key_cmp (a b : Key) : comparison :=
  match str_cmp (k_display a) (k_display b) with
  | Eq =>
      match str_cmp (k_base a) (k_base b) with
      | Eq => match k_digits a ?= k_digits b with Eq => bytes_cmp (k_account a) (k_account b) | c => c end
      | c => c
      end
  | c => c
  end.

Definition row_matches (pattern : string) (ar : bytes * Row) : bool :=
  let c := row_content ar.2 in
  like pattern (pg_lower cr (ct_display c))
  && (bool_decide (is_Some (ct_full c)) || two_digits_at_end (ct_display c))
  && first_byte_zero (ct_key c).

Definition after_cursor (cursor : option Cursor) (ar : bytes * Row) : bool :=
  match cursor with
  | None => true
  | Some c => match key_cmp (key_of ar) (key_of_cursor c) with Gt => true | _ => false end
  end.

Definition row_le (a b : bytes * Row) : bool :=
  match key_cmp (key_of a) (key_of b) with Gt => false | _ => true end.

Definition select (t : Table) (pattern : string) (cursor : option Cursor) (limit : Z)
    : list (bytes * Row) :=
  take (Z.to_nat limit)
    (sort_by row_le
       (filter (fun ar => row_matches pattern ar && after_cursor cursor ar = true) (map_to_list t))).

(** [lite_digits::text] is the canonical decimal. *)
Definition row_from_db (ar : bytes * Row) : result SearchRow SearchError :=
  let '(account, r) := ar in
  if (length account =? 32)%nat then
    Ok {| item := {| su_account_id := ct_ss58 (row_content r); su_username := ct_display (row_content r);
                     su_status := "ASSIGNED"; su_created_at := row_created_at r;
                     su_updated_at := row_updated_at r |};
          sr_cursor := {| display_key := pg_lower cr (ct_display (row_content r));
                          cur_base := ct_base (row_content r);
                          cur_digits := decimal (ct_digits (row_content r)); cur_account := account |} |}
  else Err Database.

(** [rows.pop()] when the extra row is there. *)
Definition assemble_page (rows : list SearchRow) (limit : nat) : list SearchUsername * option string :=
  let has_more := (limit <? length rows)%nat in
  let rows := if has_more then take (length rows - 1) rows else rows in
  (item <$> rows, if has_more then (fun r => encode_cursor (sr_cursor r)) <$> last rows else None).

(** [db_ok]: the query runs. *)
Definition search (db_ok : bool) (t : Table) (params : gmap string string)
    : result SearchResponse SearchError :=
  let? v := validate params in
  if negb db_ok then Err Database
  else
    let pattern := escape_like (to_ascii_lowercase (vq_prefix v)) +:+ "%" in
    let? decoded := try_map (fun _ ar => row_from_db ar) 0
                      (select t pattern (vq_cursor v) (vq_limit v + 1)) in
    let '(usernames, next) := assemble_page decoded (Z.to_nat (vq_limit v)) in
    Ok {| sr_usernames := usernames; next_cursor := next |}.

(** ** [http/error.rs] *)

(** The status and the message of a failed search. *)
Definition search_error (e : SearchError) : Z * string :=
  match e with
  | InvalidQuery _ => (400, "The request query contains invalid values.")
  | InvalidCursor => (400, "Invalid cursor")
  | Database => (500, "Internal server error. Please try again.")
  end.

End search.
End Search.
