(* ===== verification/SearchProps.v ===== *)
(** * SearchProps: paging covers the matches, once, in order

    The keyset order is a total order on rows, the page query is a window of one
    fixed list, and following cursors walks that list from its first element to
    its last. *)

From stdpp Require Import gmap.
From stdpp Require countable.
From S2P Require Import Prelude Strings Schema Text Jwt Projection Usernames Search.
From S2P Require Import Indexer IndexerRun IndexerProps IndexerClaims.

#[local] Open Scope string_scope.
#[local] Open Scope Z_scope.

Module SearchProps.
Import Projection Search Indexer IndexerRun IndexerProps IndexerClaims.

(** ** Comparisons *)

Record cmp_ok {A} (cmp : A -> A -> comparison) : Prop := {
  cmp_eq x y : cmp x y = Eq <-> x = y;
  cmp_opp x y : cmp y x = CompOpp (cmp x y);
  cmp_trans x y z : cmp x y = Lt -> cmp y z = Lt -> cmp x z = Lt }.

Definition lex {A B} (c1 : A -> A -> comparison) (c2 : B -> B -> comparison) (x y : A * B) : comparison :=
  match c1 x.1 y.1 with Eq => c2 x.2 y.2 | c => c end.

Lemma lex_ok {A B} (c1 : A -> A -> comparison) (c2 : B -> B -> comparison) :
  cmp_ok c1 -> cmp_ok c2 -> cmp_ok (lex c1 c2).
Proof.
  intros [E1 O1 T1] [E2 O2 T2]. unfold lex. split.
  - intros [a b] [a' b']; simpl. destruct (c1 a a') eqn:E.
    + rewrite E2. apply E1 in E as ->. split; [by intros ->|by intros [= ->]].
    + split; [done|]. intros [= -> ->]. by rewrite (proj2 (E1 a' a') eq_refl) in E.
    + split; [done|]. intros [= -> ->]. by rewrite (proj2 (E1 a' a') eq_refl) in E.
  - intros [a b] [a' b']; simpl. rewrite (O1 a a'). destruct (c1 a a'); simpl; [apply O2|done..].
  - intros [a b] [a' b'] [a'' b'']; simpl.
    destruct (c1 a a') eqn:H1; [apply E1 in H1 as ->| |done].
    + destruct (c1 a' a''); [apply T2|done..].
    + destruct (c1 a' a'') eqn:H2; [apply E1 in H2 as <-; by rewrite H1| |done].
      by rewrite (T1 _ _ _ H1 H2).
Qed.

Lemma bytes_cmp_ok : cmp_ok bytes_cmp.
Proof. split; [apply bytes_cmp_eq|apply bytes_cmp_antisym|apply bytes_cmp_trans]. Qed.

Lemma str_cmp_ok : cmp_ok str_cmp.
Proof.
  split; [apply str_cmp_eq|intros x y; apply bytes_cmp_antisym|intros x y z; apply bytes_cmp_trans].
Qed.

Lemma Z_compare_ok : cmp_ok Z.compare.
Proof.
  split; [apply Z.compare_eq_iff|intros x y; apply Z.compare_antisym|].
  intros x y z. rewrite !Z.compare_lt_iff. lia.
Qed.

Definition columns (k : Key) : string * (string * (Z * bytes)) :=
  (k_display k, (k_base k, (k_digits k, k_account k))).

Lemma key_cmp_lex a b : key_cmp a b = lex str_cmp (lex str_cmp (lex Z.compare bytes_cmp)) (columns a) (columns b).
Proof. done. Qed.

Lemma columns_ok : cmp_ok (lex str_cmp (lex str_cmp (lex Z.compare bytes_cmp))).
Proof. repeat apply lex_ok; auto using str_cmp_ok, Z_compare_ok, bytes_cmp_ok. Qed.

Lemma key_cmp_ok : cmp_ok key_cmp.
Proof.
  destruct columns_ok as [E O T]. split; intros *; rewrite !key_cmp_lex; [|apply O|apply T].
  rewrite E. unfold columns. destruct x, y; simpl. split; [by intros [= -> -> -> ->]|by intros [= -> -> -> ->]].
Qed.

(** ** Patterns *)

Lemma like_any s : like "%" s = true.
Proof. simpl. induction s as [|c s IH]; simpl; [done|]. by rewrite IH. Qed.

(** The escaped prefix followed by [%] matches the strings it starts. *)
Lemma like_prefix p s : like (escape_like p +:+ "%") s = String.prefix p s.
Proof.
  revert s. induction p as [|c p IH]; intros s.
  { change (like "%" s = String.prefix EmptyString s). rewrite like_any. by destruct s. }
  cbn [escape_like].
  destruct (Ascii.eqb c BACKSLASH || Ascii.eqb c "%"%char || Ascii.eqb c "_"%char) eqn:E.
  - change (like (String BACKSLASH (String c (escape_like p)) +:+ "%") s) with
      (match s with String x s' => Ascii.eqb x c && like (escape_like p +:+ "%") s' | EmptyString => false end).
    destruct s as [|x s]; [done|]. rewrite IH. cbn [String.prefix].
    destruct (ascii_dec c x) as [->|Hne]; [by rewrite Ascii.eqb_refl|].
    destruct (Ascii.eqb_spec x c); [by subst|done].
  - apply orb_false_iff in E as [[E1 E2]%orb_false_iff E3].
    change (like (String c (escape_like p) +:+ "%") s) with
      (if Ascii.eqb c "%"%char then
         (fix any (s : string) : bool := like (escape_like p +:+ "%") s || match s with EmptyString => false | String _ s' => any s' end) s
       else if Ascii.eqb c BACKSLASH then
         match (escape_like p +:+ "%") with
         | String d p'' => match s with String x s' => Ascii.eqb x d && like p'' s' | EmptyString => false end
         | EmptyString => false end
       else match s with String x s' => (Ascii.eqb c "_"%char || Ascii.eqb x c) && like (escape_like p +:+ "%") s'
            | EmptyString => false end).
    rewrite E1, E2. destruct s as [|x s]; [done|]. rewrite E3, IH. cbn [String.prefix].
    destruct (ascii_dec c x) as [->|Hne]; [by rewrite Ascii.eqb_refl|].
    destruct (Ascii.eqb_spec x c); [by subst|done].
Qed.

(** ** Sorted lists *)

Section sorted.
Context {A : Type} (le : A -> A -> bool).
Abbreviation sorted := (StronglySorted (fun a b => le a b = true)).

Lemma sorted_filter (P : A -> Prop) `{forall x, Decision (P x)} l : sorted l -> sorted (filter P l).
Proof.
  induction 1 as [|x l Hl IH Hx]; [constructor|]. rewrite filter_cons. case_decide; [|done].
  constructor; [done|]. apply Forall_forall. intros y [_ Hy]%list_elem_of_filter.
  rewrite Forall_forall in Hx. by apply Hx.
Qed.

Lemma filter_none (P : A -> Prop) `{forall x, Decision (P x)} l : (forall x, x ∈ l -> ~ P x) -> filter P l = [].
Proof.
  induction l as [|x l IH]; intros Hl; [done|]. rewrite filter_cons.
  rewrite decide_False by (apply Hl, list_elem_of_here). apply IH. intros y Hy. apply Hl. by right.
Qed.
End sorted.

Section paging.
Context (cr : SearchCrates).
#[local] Open Scope dub_scope.

Lemma row_le_iff a b : row_le cr a b = true <-> key_cmp (key_of cr a) (key_of cr b) <> Gt.
Proof. unfold row_le. destruct (key_cmp _ _); naive_solver. Qed.

Lemma row_le_total a b : row_le cr a b = true \/ row_le cr b a = true.
Proof.
  rewrite !row_le_iff, (cmp_opp _ key_cmp_ok (key_of cr a) (key_of cr b)).
  destruct (key_cmp (key_of cr a) (key_of cr b)); simpl; auto.
Qed.

Lemma row_le_trans a b c : row_le cr a b = true -> row_le cr b c = true -> row_le cr a c = true.
Proof.
  rewrite !row_le_iff. destruct key_cmp_ok as [E O T].
  destruct (key_cmp (key_of cr a) (key_of cr b)) eqn:H1; [apply E in H1 as ->; done| |done].
  destruct (key_cmp (key_of cr b) (key_of cr c)) eqn:H2; [apply E in H2 as <-; by rewrite H1| |done].
  intros _ _. by rewrite (T _ _ _ H1 H2).
Qed.

(** Rows of the table with the same key are the same row. *)
Lemma row_le_anti (t : Table) a b :
  a ∈ map_to_list t -> b ∈ map_to_list t -> row_le cr a b = true -> row_le cr b a = true -> a = b.
Proof.
  destruct a as [x r], b as [y r']. rewrite !elem_of_map_to_list, !row_le_iff. intros Ha Hb H1 H2.
  rewrite (cmp_opp _ key_cmp_ok (key_of cr (x, r)) (key_of cr (y, r'))) in H2.
  destruct (key_cmp (key_of cr (x, r)) (key_of cr (y, r'))) eqn:E; [|done|done].
  apply (cmp_eq _ key_cmp_ok) in E. injection E as _ _ _ ->. congruence.
Qed.

(** *** The list the pages are cut from *)

Definition serves (prefix : string) (ar : bytes * Row) : bool :=
  String.prefix (to_ascii_lowercase prefix) (pg_lower cr (ct_display (row_content ar.2)))
  && (bool_decide (is_Some (ct_full (row_content ar.2))) || two_digits_at_end (ct_display (row_content ar.2)))
  && first_byte_zero (ct_key (row_content ar.2)).

Definition matching (t : Table) (prefix : string) : list (bytes * Row) :=
  sort_by (row_le cr) (filter (fun ar => serves prefix ar = true) (map_to_list t)).

Lemma row_matches_serves prefix ar :
  row_matches cr (escape_like (to_ascii_lowercase prefix) +:+ "%") ar = serves prefix ar.
Proof. unfold row_matches, serves. by rewrite like_prefix. Qed.

Lemma matching_sorted t prefix : StronglySorted (fun a b => row_le cr a b = true) (matching t prefix).
Proof. apply sort_by_sorted; [apply row_le_total|apply row_le_trans]. Qed.

Lemma elem_of_matching t prefix ar : ar ∈ matching t prefix <-> ar ∈ map_to_list t /\ serves prefix ar = true.
Proof. unfold matching. rewrite elem_of_sort_by, list_elem_of_filter. tauto. Qed.

Lemma matching_nodup t prefix : NoDup (matching t prefix).
Proof. unfold matching. rewrite sort_by_perm. apply NoDup_filter, NoDup_map_to_list. Qed.

Lemma select_matching t prefix cursor limit :
  select cr t (escape_like (to_ascii_lowercase prefix) +:+ "%") cursor limit =
  take (Z.to_nat limit) (filter (fun ar => after_cursor cr cursor ar = true) (matching t prefix)).
Proof.
  unfold select. f_equal. apply (sorted_perm_eq (row_le cr)).
  - intros a b Ha Hb. rewrite elem_of_sort_by, list_elem_of_filter in Ha. rewrite elem_of_sort_by, list_elem_of_filter in Hb.
    apply (row_le_anti t); tauto.
  - apply sort_by_sorted; [apply row_le_total|apply row_le_trans].
  - apply sorted_filter, matching_sorted.
  - rewrite sort_by_perm. unfold matching. rewrite sort_by_perm, list_filter_filter.
    erewrite list_filter_iff; [done|]. intros ar. rewrite row_matches_serves, andb_true_iff. tauto.
Qed.

Definition after (x y : bytes * Row) : bool :=
  match key_cmp (key_of cr y) (key_of cr x) with Gt => true | _ => false end.

(** What lies after an element of the sorted list is the rest of the list. *)
Lemma filter_after t prefix l1 x l2 :
  matching t prefix = (l1 ++ x :: l2)%list ->
  filter (fun y => after x y = true) (matching t prefix) = l2.
Proof.
  intros Heq. pose proof (matching_sorted t prefix) as Hs. pose proof (matching_nodup t prefix) as Hn.
  assert (forall y, y ∈ matching t prefix -> y ∈ map_to_list t) as Hin by (intros y; rewrite elem_of_matching; tauto).
  rewrite Heq in *. apply StronglySorted_app in Hs as (Hl12 & _ & Hs2).
  apply NoDup_app in Hn as (_ & _ & [Hx2 _]%NoDup_cons). apply StronglySorted_inv in Hs2 as [_ Hx].
  destruct key_cmp_ok as [E O _].
  assert (forall y, row_le cr y x = true -> after x y = false) as Hle.
  { intros y. rewrite row_le_iff. unfold after. by destruct (key_cmp _ _). }
  rewrite filter_app, filter_cons. rewrite decide_False by (rewrite Hle; [done|]; by destruct (row_le_total x x)).
  assert (filter (fun y => after x y = true) l1 = []) as ->.
  { apply filter_none. intros y Hy. rewrite Hle; [done|]. apply Hl12; [done|left]. }
  simpl. apply filter_all. intros y Hy. rewrite Forall_forall in Hx. specialize (Hx y Hy).
  unfold after. rewrite (O (key_of cr x) (key_of cr y)). apply row_le_iff in Hx as Hx'.
  destruct (key_cmp (key_of cr x) (key_of cr y)) eqn:Ec; [|done|done].
  exfalso. apply Hx2. replace x with y; [done|].
  apply (row_le_anti t); [by apply Hin, elem_of_app; right; right|by apply Hin, elem_of_app; right; left| |done].
  apply row_le_iff. rewrite (O (key_of cr x) (key_of cr y)), Ec. done.
Qed.

(** *** Rows and their cursors *)

(** The columns a cursor spells are not empty, and accounts have 32 bytes. *)
Definition rows_ok (t : Table) : Prop :=
  map_Forall (fun a r => length a = 32%nat /\ ct_base (row_content r) <> EmptyString /\
                         0 <= ct_digits (row_content r)) t.

(** [decode] inverts [encode] for base64 and for the cursor's JSON. *)
Definition cursor_laws : Prop :=
  forall c, (b ← b64_decode cr (b64_encode cr (cursor_to_json cr c)); cursor_from_json cr b) = Some c.

Definition item_of (ar : bytes * Row) : SearchUsername :=
  {| su_account_id := ct_ss58 (row_content ar.2); su_username := ct_display (row_content ar.2);
     su_status := "ASSIGNED"; su_created_at := row_created_at ar.2; su_updated_at := row_updated_at ar.2 |}.

Definition cursor_of (ar : bytes * Row) : Cursor :=
  {| display_key := pg_lower cr (ct_display (row_content ar.2)); cur_base := ct_base (row_content ar.2);
     cur_digits := decimal (ct_digits (row_content ar.2)); cur_account := ar.1 |}.

Lemma row_from_db_ok ar :
  length ar.1 = 32%nat -> row_from_db cr ar = Ok {| item := item_of ar; sr_cursor := cursor_of ar |}.
Proof. destruct ar as [a r]. simpl. intros ->. done. Qed.

Lemma rows_from_db l :
  Forall (fun ar : bytes * Row => length ar.1 = 32%nat) l ->
  try_map (fun _ ar => row_from_db cr ar) 0 l =
    Ok ((fun ar => {| item := item_of ar; sr_cursor := cursor_of ar |}) <$> l).
Proof.
  intros Hl. apply try_map_ok. rewrite length_fmap. split; [done|]. intros k x y Hx Hy.
  rewrite list_lookup_fmap, Hx in Hy. injection Hy as <-. apply row_from_db_ok.
  rewrite Forall_forall in Hl. by eapply Hl, list_elem_of_lookup_2.
Qed.

Lemma key_of_cursor_of ar : 0 <= ct_digits (row_content ar.2) -> key_of_cursor (cursor_of ar) = key_of cr ar.
Proof. intros H. unfold key_of_cursor, cursor_of, key_of. simpl. by rewrite numeral_decimal. Qed.

(** A served row has a non-empty display key: it starts with the prefix. *)
Lemma served_cursor t prefix ar :
  cursor_laws -> rows_ok t -> prefix <> EmptyString -> ar ∈ matching t prefix ->
  decode_cursor cr (encode_cursor cr (cursor_of ar)) = Ok (cursor_of ar) /\
  0 <= ct_digits (row_content ar.2).
Proof.
  intros Hlaws Ht Hp [Hin Hs]%elem_of_matching. destruct ar as [a r]. apply elem_of_map_to_list in Hin.
  destruct (Ht a r Hin) as (_ & Hb & Hd). split; [|done]. unfold decode_cursor, encode_cursor. rewrite Hlaws. simpl.
  assert (pg_lower cr (ct_display (row_content r)) <> EmptyString) as Hk.
  { unfold serves in Hs. apply andb_true_iff in Hs as [[Hs _]%andb_true_iff _]. simpl in Hs.
    apply prefix_inv in Hs as [tl Hs]. rewrite Hs. destruct prefix as [|c p]; [done|]. done. }
  rewrite (proj2 (String.eqb_neq _ _) Hk), (proj2 (String.eqb_neq _ _) Hb),
    (proj2 (String.eqb_neq _ _) (decimal_nonempty _ Hd)), (decimal_digits _ Hd). done.
Qed.

(** *** One page *)

Lemma page_spec t params v rest :
  rows_ok t -> validate cr params = Ok v -> 0 <= vq_limit v ->
  filter (fun ar => after_cursor cr (vq_cursor v) ar = true) (matching t (vq_prefix v)) = rest ->
  search cr true t params =
    Ok {| sr_usernames := item_of <$> take (Z.to_nat (vq_limit v)) rest;
          next_cursor := if (Z.to_nat (vq_limit v) <? length rest)%nat
                         then (fun ar => encode_cursor cr (cursor_of ar)) <$> last (take (Z.to_nat (vq_limit v)) rest)
                         else None |}.
Proof.
  intros Ht Hv Hlim Hrest. unfold search. rewrite Hv. cbn [rbind negb]. rewrite select_matching, Hrest.
  set (n := Z.to_nat (vq_limit v)). replace (Z.to_nat (vq_limit v + 1)) with (S n) by lia.
  rewrite rows_from_db.
  2: { apply Forall_forall. intros [a r] (i & Hin%list_elem_of_lookup_2 & _)%elem_of_take. rewrite <-Hrest in Hin.
       apply list_elem_of_filter in Hin as [_ [Hin%elem_of_map_to_list _]%elem_of_matching]. by apply (Ht a r). }
  cbn [rbind]. unfold assemble_page. rewrite length_fmap, length_take.
  assert ((n <? S n `min` length rest) = (n <? length rest))%nat as ->.
  { destruct (Nat.ltb_spec n (length rest)); destruct (Nat.ltb_spec n (S n `min` length rest)); lia. }
  destruct (Nat.ltb_spec n (length rest)) as [Hlt|Hge].
  - replace (S n `min` length rest - 1)%nat with n by lia. rewrite <-fmap_take, take_take, Nat.min_l by lia.
    rewrite fmap_last. f_equal. f_equal; [by rewrite <-list_fmap_compose|]. by destruct (last _).
  - rewrite !take_ge by lia. by rewrite <-list_fmap_compose.
Qed.

(** ** Walking the pages *)

Fixpoint walk (fuel : nat) (t : Table) (params : gmap string string) : option (list SearchUsername) :=
  match fuel with
  | O => None
  | S fuel' =>
      match search cr true t params with
      | Err _ => None
      | Ok page =>
          match next_cursor page with
          | None => Some (sr_usernames page)
          | Some c => (fun rest => sr_usernames page ++ rest)%list <$> walk fuel' t (<["cursor" := c]> params)
          end
      end
  end.

Lemma validate_cursor params v c :
  validate cr params = Ok v -> decode_cursor cr (encode_cursor cr c) = Ok c ->
  validate cr (<["cursor" := encode_cursor cr c]> params) =
    Ok {| vq_prefix := vq_prefix v; vq_limit := vq_limit v; vq_cursor := Some c |}.
Proof.
  intros Hv Hc. unfold validate in *. rewrite lookup_insert_eq, Hc. cbn [rbind].
  rewrite !lookup_insert_ne by done.
  apply rbind_ok in Hv as (cur & _ & Hv). destruct (limit_of (params !! "limit")) as [limit errs].
  destruct (prefix_errors (params !! "prefix") ++ errs)%list; [|done]. by injection Hv as <-.
Qed.

Lemma validate_search_ok params v :
  validate cr params = Ok v ->
  1 <= vq_limit v <= MAX_LIMIT /\ params !! "prefix" = Some (vq_prefix v) /\ vq_prefix v <> EmptyString.
Proof.
  unfold validate. intros (cur & _ & Hv)%rbind_ok. destruct (limit_of (params !! "limit")) as [limit errs] eqn:El.
  destruct (prefix_errors (params !! "prefix") ++ errs)%list eqn:Ee; [|done].
  apply app_nil in Ee as [Ep ->]. injection Hv as <-. simpl.
  assert (1 <= limit) as Hl.
  { unfold limit_of in El. destruct (params !! "limit") as [raw|]; [|injection El as <-; by unfold DEFAULT_LIMIT].
    destruct (parse_unsigned U32_MAX (trim raw)) as [n|] eqn:En; [|done].
    apply parse_unsigned_range in En; [|done]. destruct (Z.eqb_spec n 0); [done|]. injection El as <-. lia. }
  unfold MAX_LIMIT. split; [lia|]. unfold prefix_errors in Ep. destruct (params !! "prefix") as [p|]; [|done].
  simpl. split; [done|]. apply app_nil in Ep as [Ep _]. destruct (String.eqb_spec p EmptyString); [done|done].
Qed.

Lemma walk_from t params v l1 l2 fuel :
  cursor_laws -> rows_ok t -> validate cr params = Ok v ->
  filter (fun ar => after_cursor cr (vq_cursor v) ar = true) (matching t (vq_prefix v)) = l2 ->
  matching t (vq_prefix v) = (l1 ++ l2)%list -> (length l2 < fuel)%nat ->
  walk fuel t params = Some (item_of <$> l2).
Proof.
  intros Hlaws Ht. revert params v l1 l2. induction fuel as [|fuel IH]; intros params v l1 l2 Hv Hl2 Hm Hf; [lia|].
  destruct (validate_search_ok _ _ Hv) as (Hlim & _ & Hp). cbn [walk].
  assert (0 <= vq_limit v) as Hpos by lia. rewrite (page_spec t params v l2 Ht Hv Hpos Hl2). cbn [next_cursor sr_usernames].
  set (n := Z.to_nat (vq_limit v)) in *. destruct (Nat.ltb_spec n (length l2)) as [Hlt|Hge].
  2: { by rewrite take_ge. }
  assert (exists k, n = S k) as [k Hk] by (exists (n - 1)%nat; lia).
  destruct (lookup_lt_is_Some_2 l2 k ltac:(lia)) as [x Hx].
  assert (last (take n l2) = Some x) as ->.
  { rewrite last_lookup, length_take, Nat.min_l, Hk by lia. simpl. rewrite lookup_take_lt by lia. done. }
  cbn [fmap option_fmap option_map].
  assert (x ∈ matching t (vq_prefix v)) as Hxin by (rewrite Hm; apply elem_of_app; right; by eapply list_elem_of_lookup_2).
  destruct (served_cursor t (vq_prefix v) x Hlaws Ht Hp Hxin) as [Hcur Hd].
  pose proof (take_drop_middle l2 k x Hx) as Hmid.
  erewrite (IH _ {| vq_prefix := vq_prefix v; vq_limit := vq_limit v; vq_cursor := Some (cursor_of x) |}
              (l1 ++ take k l2 ++ [x])%list (drop n l2)).
  - simpl. f_equal. rewrite <-fmap_app. by rewrite take_drop.
  - by apply validate_cursor.
  - simpl. rewrite (filter_iff _ (fun y => after x y = true))
      by (intros y; unfold after_cursor; by rewrite key_of_cursor_of).
    apply (filter_after t (vq_prefix v) (l1 ++ take k l2)%list). rewrite Hm, <-app_assoc. f_equal.
    rewrite Hk. by rewrite Hmid.
  - simpl. rewrite Hm, <-!app_assoc. f_equal. simpl. rewrite Hk. by rewrite Hmid.
  - rewrite length_drop. lia.
Qed.

Lemma walk_all t params v fuel :
  cursor_laws -> rows_ok t -> params !! "cursor" = None -> validate cr params = Ok v ->
  (length (matching t (vq_prefix v)) < fuel)%nat ->
  walk fuel t params = Some (item_of <$> matching t (vq_prefix v)).
Proof.
  intros Hlaws Ht Hc Hv Hf. apply (walk_from t params v []); try done.
  assert (vq_cursor v = None) as ->; [|by apply filter_all].
  unfold validate in Hv. rewrite Hc in Hv. cbn [rbind] in Hv. destruct (limit_of _) as [limit errs].
  destruct (prefix_errors _ ++ errs)%list; [|done]. by injection Hv as <-.
Qed.
End paging.

(** ** What the decoder lets into the table *)

Lemma numeral_nonneg acc s : 0 <= acc -> all_chars is_ascii_digit s = true -> 0 <= numeral acc s.
Proof.
  revert acc. induction s as [|c s IH]; intros acc Hacc; simpl; [done|]. intros [Hc Hs]%andb_true_iff.
  apply IH; [|done]. unfold is_ascii_digit in Hc. bool_prop. unfold digit_value. lia.
Qed.

Record record_ok (a : bytes) (r : AssignedUsername) : Prop := {
  ok_split : lite_username r = lite_base r +:+ String "."%char (lite_digits r);
  ok_base : lite_base r <> EmptyString;
  ok_digits : lite_digits r <> EmptyString /\ all_chars is_ascii_digit (lite_digits r) = true;
  ok_display : display_username r = default (lite_username r) (full_username r);
  ok_nonempty : display_username r <> EmptyString;
  ok_nul : lacks NUL (lite_username r) = true /\ lacks NUL (display_username r) = true;
  ok_account : account_id r = a }.

Lemma decode_names_ok c lite base digits full :
  decode_names c = Ok (lite, base, digits, full) ->
  lite = base +:+ String "."%char digits /\ base <> EmptyString /\ digits <> EmptyString /\
  all_chars is_ascii_digit digits = true /\ full <> Some EmptyString /\ lacks NUL lite = true /\
  (forall f, full = Some f -> lacks NUL f = true).
Proof.
  unfold decode_names. destruct (from_utf8 (c_lite_username c)) as [l|]; [|done].
  destruct (rsplit_once "."%char l) as [[b d]|] eqn:Er; [|done].
  intros [[[Hb Hd]%orb_false_iff Hall%negb_false_iff]%orb_false_iff H]%if_err_ok.
  apply rbind_ok in H as (f & _ & H). apply if_err_ok in H as [Hf%bool_decide_eq_false H].
  apply if_err_ok in H as [[Hn Hnf]%orb_false_iff [= <- <- <- <-]].
  apply rsplit_once_Some in Er as [-> _]. apply String.eqb_neq in Hb, Hd. unfold contains_nul in Hn.
  apply negb_false_iff in Hn. split_and!; try done. intros f' ->. by apply negb_false_iff in Hnf.
Qed.

(** Every record the decoder returns fits the columns it is stored in: the lite
    name is its base, a dot and its digits, the base and the digits are not empty,
    the digits are digits, the name shown is the full name when there is one, it is
    not empty, and no text holds a NUL byte. *)
Theorem decoded_record_ok cr a c prefix h n r :
  decode_consumer cr a c prefix h n = Some (Ok r) -> record_ok a r.
Proof.
  unfold decode_consumer. destruct (decode_names c) as [[[[lite base] digits] full]|] eqn:E; [|done].
  destruct (encode cr a prefix); [|done]. intros [= <-].
  destruct (decode_names_ok _ _ _ _ _ E) as (-> & Hb & Hd & Hall & Hf & Hn & Hnf).
  split; simpl; try done.
  - destruct full as [f|]; simpl; [congruence|]. by destruct base.
  - split; [done|]. destruct full as [f|]; simpl; [by apply Hnf|done].
Qed.

Lemma decoded_record_ok_witness :
  exists r, decode_consumer demo_cr [7] demo_consumer 42 [1] 1 = Some (Ok r) /\ record_ok [7] r /\
    lite_base r = "ann" /\ lite_digits r = "07".
Proof.
  destruct (decode_consumer demo_cr [7] demo_consumer 42 [1] 1) as [[r|e]|] eqn:E; [|vm_compute in E; discriminate..].
  exists r. split; [done|]. split; [exact (decoded_record_ok _ _ _ _ _ _ _ E)|].
  vm_compute in E. injection E as <-. done.
Defined.

(** ** Paging *)

(** C12. Following the cursors from a first request lists every row the prefix
    serves, once, in the order of the keyset, and stops: the walk needs no more
    requests than there are rows plus one, whatever the page size. *)
Theorem pagination_complete cr t params v :
  cursor_laws cr -> rows_ok t -> params !! "cursor" = None -> validate cr params = Ok v ->
  walk cr (S (length (matching cr t (vq_prefix v)))) t params = Some (item_of <$> matching cr t (vq_prefix v)) /\
  NoDup (matching cr t (vq_prefix v)) /\
  StronglySorted (fun x y => row_le cr x y = true) (matching cr t (vq_prefix v)) /\
  forall a r, (a, r) ∈ matching cr t (vq_prefix v) <-> t !! a = Some r /\ serves cr (vq_prefix v) (a, r) = true.
Proof.
  intros Hlaws Ht Hc Hv. split_and!.
  - apply walk_all; try done. lia.
  - apply matching_nodup.
  - apply matching_sorted.
  - intros a r. by rewrite elem_of_matching, elem_of_map_to_list.
Qed.

(** ** The projection behind the search *)

(** The chain keys consumers by 32-byte accounts. *)
Definition typed_world (w : World) : Prop := forall h a c, state w h a = Present c -> length a = 32%nat.

Lemma honest_rows_ok cr w t : typed_world w -> honest cr w t -> rows_ok t.
Proof.
  intros Hw Ht a r Hr. specialize (Ht a r Hr). unfold row_true, IndexerProps.expected in Ht.
  destruct (state w (row_hash r) a) as [| | |c] eqn:Es; try done.
  split; [by eapply Hw|]. unfold decode_consumer in Ht.
  destruct (decode_names c) as [[[[lite base] digits] full]|] eqn:E; [|done].
  destruct (encode cr a _); [|done]. injection Ht as <-. simpl.
  destruct (decode_names_ok _ _ _ _ _ E) as (_ & Hb & _ & Hall & _). split; [done|]. by apply numeral_nonneg.
Qed.

(** A served item, by its content. *)
Definition shows (u : SearchUsername) (ct : Content) : Prop :=
  su_account_id u = ct_ss58 ct /\ su_username u = ct_display ct.

Definition content_serves (cr : SearchCrates) (prefix : string) (ct : Content) : bool :=
  String.prefix (to_ascii_lowercase prefix) (pg_lower cr (ct_display ct))
  && (bool_decide (is_Some (ct_full ct)) || two_digits_at_end (ct_display ct)) && first_byte_zero (ct_key ct).

(** C35. Search serves the chain: after any process lifetimes that left a checkpoint,
    a walk over the pages lists every consumer of the checkpoint block whose name
    the prefix matches and whose key the app can use, and lists nothing that was
    not a consumer of some block with such a name. *)
Theorem search_serves_chain cr w scr ls params v s :
  world_ok w -> typed_world w -> Forall (lifetime_honest w) ls -> cursor_laws scr ->
  params !! "cursor" = None -> validate scr params = Ok v ->
  let db := foldl (lifetime cr) empty_db ls in
  sync_state db = Some s ->
  exists l g, walk scr (S (size (usernames db))) (usernames db) params = Some l /\ sync_genesis s = Some g /\
    (forall a ct, IndexerProps.expected cr w (canon w g (last_finalized_number s)) a = Some ct ->
       content_serves scr (vq_prefix v) ct = true -> exists u, u ∈ l /\ shows u ct) /\
    (forall u, u ∈ l -> exists h a ct, IndexerProps.expected cr w h a = Some ct /\ shows u ct /\
       content_serves scr (vq_prefix v) ct = true).
Proof.
  intros Hw Hty Hls Hlaws Hc Hv db Hs.
  assert (inv cr w db) as [Hh Hm] by (by apply lifetimes_inv; [..|apply inv_empty]).
  destruct (Hm s Hs) as (_ & g & Hg & Hmir). exists (item_of <$> matching scr (usernames db) (vq_prefix v)), g.
  split_and!; [|done| |].
  - apply walk_all; [done|by eapply honest_rows_ok|done..|]. unfold matching. rewrite length_sort_by.
    apply Nat.lt_succ_r. etrans; [apply length_filter|]. by rewrite length_map_to_list.
  - intros a ct He Hct. rewrite <-Hmir in He. unfold confirmed in He.
    destruct (usernames db !! a) as [r|] eqn:Er; [|done]. simpl in He. destruct (is_speculative r); [done|].
    injection He as <-. exists (item_of (a, r)). split; [|done]. apply list_elem_of_fmap. exists (a, r).
    split; [done|]. apply elem_of_matching. by rewrite elem_of_map_to_list.
  - intros u ([a r] & -> & [Hin%elem_of_map_to_list Hsv]%elem_of_matching)%list_elem_of_fmap.
    exists (row_hash r), a, (row_content r). split; [by apply (Hh a)|]. done.
Qed.
(** ** A concrete search *)

#[local] Instance Cursor_eq_dec : EqDecision Cursor.
Proof. solve_decision. Defined.
#[local] Instance Cursor_countable : Countable Cursor.
Proof.
  refine (countable.inj_countable' (fun c => (display_key c, cur_base c, cur_digits c, cur_account c))
    (fun '(d, b, n, a) => {| display_key := d; cur_base := b; cur_digits := n; cur_account := a |}) _).
  by intros [].
Defined.

Definition demo_search : SearchCrates :=
  {| b64_encode := string_of_bytes; b64_decode := fun s => Some (as_bytes s);
     cursor_to_json := fun c => as_bytes (Jwt.Demo.bits (countable.encode c));
     cursor_from_json := fun b => p ← Jwt.Demo.unbits (string_of_bytes b); countable.decode p;
     pg_lower := to_ascii_lowercase |}.

Lemma demo_cursor_laws : cursor_laws demo_search.
Proof.
  intros c. unfold demo_search. simpl. rewrite !string_of_as_bytes, Jwt.Demo.unbits_bits. simpl.
  apply countable.decode_encode.
Qed.

Definition demo_row (name : string) (digits : Z) : Row :=
  {| row_content := {| ct_ss58 := name; ct_key := [0]; ct_lite := name; ct_base := "ann"; ct_digits := digits;
                       ct_full := None; ct_display := name |};
     row_hash := []; row_number := 1; row_created_at := 1; row_updated_at := 1; speculative_from_block := None |}.

(** Two names, one row to a page. *)
Definition demo_table : Table := {[ ann := demo_row "ann.07" 7; replicate 32 9 := demo_row "Ann.12" 12 ]}.
Definition demo_params : gmap string string := {[ "prefix" := "an"; "limit" := "1" ]}.

Lemma demo_rows_ok : rows_ok demo_table.
Proof.
  apply map_Forall_insert_2; [by split_and!|]. apply map_Forall_singleton. by split_and!.
Qed.

Lemma pagination_complete_witness :
  exists v, validate demo_search demo_params = Ok v /\
    su_username <$> (item_of <$> matching demo_search demo_table (vq_prefix v)) = ["ann.07"; "Ann.12"] /\
    walk demo_search 3 demo_table demo_params = Some (item_of <$> matching demo_search demo_table (vq_prefix v)).
Proof.
  destruct (validate demo_search demo_params) as [v|e] eqn:E; [|vm_compute in E; discriminate].
  exists v. destruct (pagination_complete demo_search demo_table demo_params v demo_cursor_laws demo_rows_ok eq_refl E)
    as [Hwalk _].
  assert (vq_prefix v = "an") as Hp by (vm_compute in E; injection E as <-; reflexivity). rewrite Hp in *.
  assert (length (matching demo_search demo_table "an") = 2%nat) as Hlen by (vm_compute; reflexivity).
  rewrite Hlen in Hwalk. split; [done|]. split; [vm_compute; reflexivity|exact Hwalk].
Defined.

Lemma demo_typed_world : typed_world demo_world.
Proof.
  intros h a c H. simpl in H. destruct h as [|n [|]]; try done. destruct (1 <=? n); [|done]. simpl in H.
  case_bool_decide; [|done]. by subst.
Qed.

Lemma search_serves_chain_witness :
  exists s l, sync_state (foldl (lifetime demo_cr) empty_db [demo_lifetime]) = Some s /\
    walk demo_search 2 (usernames (foldl (lifetime demo_cr) empty_db [demo_lifetime])) demo_params = Some l /\
    su_username <$> l = ["ann.07"].
Proof.
  destruct (validate demo_search demo_params) as [v|e] eqn:E; [|vm_compute in E; discriminate].
  destruct (sync_state (foldl (lifetime demo_cr) empty_db [demo_lifetime])) as [s|] eqn:Es; [|vm_compute in Es; discriminate].
  destruct (search_serves_chain demo_cr demo_world demo_search [demo_lifetime] demo_params v s demo_world_ok
              demo_typed_world demo_lifetime_honest demo_cursor_laws eq_refl E Es) as (l & g & Hwalk & _).
  assert (size (usernames (foldl (lifetime demo_cr) empty_db [demo_lifetime])) = 1%nat) as Hsize by (vm_compute; reflexivity).
  rewrite Hsize in Hwalk.
  assert (option_map (fmap su_username)
            (walk demo_search 2 (usernames (foldl (lifetime demo_cr) empty_db [demo_lifetime])) demo_params)
          = Some ["ann.07"]) as Hn by (vm_compute; reflexivity).
  rewrite Hwalk in Hn. injection Hn as Hn. exists s, l. split; [done|]. split; [exact Hwalk|exact Hn].
Defined.
End SearchProps.
