(* ===== verification/Request.v ===== *)
(** * Request: the registration request ([usernames/register/request.rs])

    The field parsers, the accumulating report, and the validation of a decoded
    request.  Decoding the JSON body into the record is [serde]'s
    ([structural_error] names the field of its error). *)

From stdpp Require Import pretty.
From S2P Require Import Prelude Strings Schema Lease Outbox Signature DeviceGate Usernames.

#[local] Open Scope Z_scope.

Module Request.

Export Usernames Signature.

Definition MSG_DIGITS : string := "Digits must be between 01-99".
Definition MSG_INVALID_SS58 : string := "Invalid ss58 address.".
Definition MSG_INVALID_SIGNATURE : string := "Invalid signature.".
Definition MAX_DOTNS_LABEL_LEN : nat := 32.
Definition PATTERN_BASE : string := "^([a-z]{6,})$".
Definition PATTERN_HEX_STRING : string := "^(0x)?[a-fA-F0-9]+$".

Record Dotns := {
  dn_signature : string;
  dn_signed_at : Z;
  dn_reserved_username : option string;
}.

Record RegisterRequest := {
  rq_candidate_account_id : string;
  rq_username : string;
  rq_preferred_digits : option string;
  rq_candidate_signature : string;
  rq_ring_vrf_key : string;
  rq_proof_of_ownership : string;
  rq_consumer_registration_signature : string;
  rq_identifier_key : string;
  rq_payload_version : Z;
  rq_lifetime_poud_voucher : option string;
  rq_dotns : option Dotns;
}.

(** [str::strip_suffix] of one character. *)
Fixpoint strip_suffix_char (c : ascii) (s : string) : option string :=
  match s with
  | EmptyString => None
  | String d EmptyString => if Ascii.eqb c d then Some EmptyString else None
  | String d s' =>
      match strip_suffix_char c s' with Some t => Some (String d t) | None => None end
  end.

Definition structural_error (path message : string) : FieldError :=
  let parent := if String.eqb path "." then None else Some path in
  let missing :=
    match strip_prefix "missing field `" message with
    | Some rest => strip_suffix_char "`" rest
    | None => None
    end in
  {| fe_message := message;
     fe_field :=
       match parent, missing with
       | Some p, Some name => p +:+ "." +:+ name
       | None, Some name => name
       | Some p, None => p
       | None, None => "body"%string
       end |}.

(** ** The parsers *)

Definition Hex (n : nat) (value : string) : result bytes string :=
  match strip_prefix "0x" value with
  | Some digits =>
      if (String.length digits =? 2 * n)%nat then
        match hex_decode digits with
        | Some b => Ok b
        | None => Err ("Must be a hexadecimal string of exactly " +:+ pretty n +:+ " bytes.")
        end
      else Err ("Must be a hexadecimal string of exactly " +:+ pretty n +:+ " bytes.")
  | None => Err ("Must be a hexadecimal string of exactly " +:+ pretty n +:+ " bytes.")
  end.

Definition RingVrfKey (value : string) : result bytes string :=
  let digits := match strip_prefix "0x" value with Some d => d | None => value end in
  if String.eqb digits EmptyString || negb (all_chars is_ascii_hexdigit digits)
  then Err (must_match PATTERN_HEX_STRING)
  else Ok (match hex_decode digits with Some b => b | None => [] end).

Definition BaseName (value : string) : result string string :=
  if (6 <=? String.length value)%nat && all_chars is_ascii_lowercase value
  then Ok value else Err (must_match PATTERN_BASE).

Definition BaseName_bounded (value : string) (max_len : nat) (too_long : string)
    : result string string :=
  match BaseName value with
  | Err e => Err e
  | Ok name => if (max_len <? String.length name)%nat then Err too_long else Ok name
  end.

Definition PreferredDigits (value : string) : result Z string :=
  match value with
  | String tens (String ones EmptyString) =>
      if is_ascii_digit tens && is_ascii_digit ones
         && negb (Ascii.eqb tens "0" && Ascii.eqb ones "0")
      then Ok ((byte_of_ascii tens - 48) * 10 + (byte_of_ascii ones - 48))
      else Err MSG_DIGITS
  | _ => Err MSG_DIGITS
  end.

Inductive PayloadVersion := V1.

Definition PayloadVersion_try_from (version : Z) : result PayloadVersion string :=
  if version =? 1 then Ok V1 else Err "Unsupported payload version. Supported: 1."%string.
Definition u16_of_version (v : PayloadVersion) : Z := match v with V1 => 1 end.

(** ** The report *)

Abbreviation Report := (list FieldError).

Definition flag (field message : string) (r : Report) : Report :=
  r ++ [{| fe_field := field; fe_message := message |}].

Definition check {T} (field : string) (checked : result T string) (r : Report) : option T * Report :=
  match checked with
  | Ok x => (Some x, r)
  | Err message => (None, flag field message r)
  end.

Definition check_optional {T} (field : string) (checked : option (result T string)) (r : Report)
    : option (option T) * Report :=
  match checked with
  | None => (Some None, r)
  | Some c => let '(x, r') := check field c r in (Some <$> x, r')
  end.

Record ParsedDotns := {
  pd_signature : bytes;
  pd_signed_at : Z;
  pd_reserved_username : option string;
}.

Record ParsedRegister := {
  pr_candidate_account_id : string;
  pr_username : string;
  pr_preferred_digits : option Z;
  pr_candidate_signature : bytes;
  pr_ring_vrf_key : bytes;
  pr_proof_of_ownership : bytes;
  pr_consumer_registration_signature : bytes;
  pr_identifier_key : bytes;
  pr_payload_version : PayloadVersion;
  pr_voucher : option string;
  pr_dotns : option ParsedDotns;
}.

Definition reserved_name (parsed : ParsedRegister) : option string :=
  match pr_dotns parsed with Some d => pd_reserved_username d | None => None end.

(** What validation reads of the configuration, in seconds. *)
Record Config := {
  dotns_max_future_skew_secs : Z;
  dotns_intake_freshness_max_age_secs : Z;
  registration_vouchers_enabled : bool;
}.

(** The two freshness flags; [now] is the service's clock in seconds. *)
Definition freshness (config : Config) (now signed_at : Z) (r : Report) : Report :=
  let skew := dotns_max_future_skew_secs config in
  let max_age := dotns_intake_freshness_max_age_secs config in
  let r :=
    if now + skew <? signed_at then
      flag "dotns.signedAt" ("signedAt is in the future (tolerance " +:+ pretty skew +:+ "s).") r
    else r in
  if max_age <? now - signed_at then
    flag "dotns.signedAt"
      ("signedAt is older than the intake freshness bound (" +:+ pretty max_age +:+
       "s). Re-sign with a fresh timestamp and resubmit.") r
  else r.

Definition Dotns_validate (config : Config) (now : Z) (d : Dotns) (r : Report)
    : option ParsedDotns * Report :=
  let '(signature, r) := check "dotns.signature" (Hex 64 (dn_signature d)) r in
  let '(signed_at, r) :=
    check "dotns.signedAt"
      (if dn_signed_at d <? 0 then Err "must be greater than or equal to 0"%string
       else Ok (dn_signed_at d)) r in
  let '(reserved, r) :=
    check_optional "dotns.reservedUsername"
      ((fun name => BaseName_bounded name MAX_DOTNS_LABEL_LEN
          "reservedUsername exceeds the maximum label length: (32).") <$> dn_reserved_username d) r in
  let r := match signed_at with Some t => freshness config now t r | None => r end in
  (match signature, signed_at, reserved with
   | Some s, Some t, Some n =>
       Some {| pd_signature := s; pd_signed_at := t; pd_reserved_username := n |}
   | _, _, _ => None
   end, r).

Section validate.
Context (account_from_str : string -> option bytes) (sr25519_verify : bytes -> bytes -> bytes -> bool).

Definition verify_version (version : PayloadVersion) (candidate signature ring : bytes)
    (form : AccountSignatureForm) : bool :=
  let message := match version with V1 => candidate_message candidate ring end in
  verify_account_signature sr25519_verify signature message candidate form.

Definition validate (config : Config) (now : Z) (form : AccountSignatureForm) (q : RegisterRequest)
    : result ParsedRegister Report :=
  let '(candidate, r) :=
    check "candidateAccountId"
      (match account_from_str (rq_candidate_account_id q) with
       | Some a => Ok a
       | None => Err MSG_INVALID_SS58
       end) [] in
  let '(username, r) :=
    check "username"
      (BaseName_bounded (rq_username q) MAX_BASE_LEN
         "Username sum exceeds the maximum length: (29).") r in
  let '(preferred_digits, r) :=
    check_optional "preferredDigits" (PreferredDigits <$> rq_preferred_digits q) r in
  let '(candidate_signature, r) :=
    check "candidateSignature" (Hex 64 (rq_candidate_signature q)) r in
  let '(ring_vrf_key, r) := check "ringVrfKey" (RingVrfKey (rq_ring_vrf_key q)) r in
  let '(proof_of_ownership, r) :=
    check "proofOfOwnership" (Hex 64 (rq_proof_of_ownership q)) r in
  let '(consumer_registration_signature, r) :=
    check "consumerRegistrationSignature" (Hex 64 (rq_consumer_registration_signature q)) r in
  let '(identifier_key, r) := check "identifierKey" (Hex 65 (rq_identifier_key q)) r in
  let '(payload_version, r) :=
    check "payloadVersion" (PayloadVersion_try_from (rq_payload_version q)) r in
  let '(dotns, r) :=
    match rq_dotns q with
    | None => (Some None, r)
    | Some d => let '(x, r) := Dotns_validate config now d r in (Some <$> x, r)
    end in
  let voucher :=
    match rq_lifetime_poud_voucher q with
    | Some v => if registration_vouchers_enabled config && negb (String.eqb v EmptyString)
                then Some v else None
    | None => None
    end in
  let r :=
    match r, candidate, candidate_signature, ring_vrf_key, payload_version with
    | [], Some c, Some s, Some k, Some v =>
        if verify_version v c s k form then r
        else flag "candidateSignature" MSG_INVALID_SIGNATURE r
    | _, _, _, _, _ => r
    end in
  match r, candidate, username, preferred_digits, candidate_signature, ring_vrf_key,
        proof_of_ownership, consumer_registration_signature, identifier_key, payload_version,
        dotns with
  | [], Some _, Some username, Some preferred_digits, Some candidate_signature, Some ring_vrf_key,
    Some proof_of_ownership, Some consumer_registration_signature, Some identifier_key,
    Some payload_version, Some dotns =>
      Ok {| pr_candidate_account_id := rq_candidate_account_id q;
            pr_username := username;
            pr_preferred_digits := preferred_digits;
            pr_candidate_signature := candidate_signature;
            pr_ring_vrf_key := ring_vrf_key;
            pr_proof_of_ownership := proof_of_ownership;
            pr_consumer_registration_signature := consumer_registration_signature;
            pr_identifier_key := identifier_key;
            pr_payload_version := payload_version;
            pr_voucher := voucher;
            pr_dotns := dotns |}
  | _, _, _, _, _, _, _, _, _, _, _ => Err r
  end.

(** [validate_register]; [decode] is [serde]'s. *)
Definition validate_register (decode : Json -> result RegisterRequest (string * string))
    (config : Config) (now : Z) (form : AccountSignatureForm) (body : Json)
    : result ParsedRegister UsernamesError :=
  match decode body with
  | Err (path, message) => Err (InvalidBody [structural_error path message])
  | Ok request =>
      match validate config now form request with
      | Ok p => Ok p
      | Err r => Err (InvalidBody r)
      end
  end.
End validate.

(** ** Lemmas *)

Lemma flag_nonempty field m r : flag field m r <> [].
Proof. unfold flag. by destruct r. Qed.

Lemma check_Some {T} field (c : result T string) r x r' :
  check field c r = (Some x, r') -> c = Ok x /\ r' = r.
Proof. destruct c; simpl; intros; by simplify_eq. Qed.

Lemma check_optional_Some {T} field (c : option (result T string)) r x r' :
  check_optional field c r = (Some x, r') ->
  r' = r /\ match x with Some y => c = Some (Ok y) | None => c = None end.
Proof.
  destruct c as [c|]; simpl; [|intros; by simplify_eq]. destruct (check field c r) as [o r1] eqn:E.
  intros H. destruct o as [y|]; simplify_eq/=. by apply check_Some in E as [-> ->].
Qed.

Lemma Hex_length n v b : Hex n v = Ok b -> length b = n.
Proof.
  unfold Hex. intros H. repeat destr_match_in H; simplify_eq.
  apply Nat.eqb_eq in E0. apply hex_decode_length in E1. lia.
Qed.

Lemma BaseName_bounded_Ok v n m x :
  BaseName_bounded v n m = Ok x ->
  x = v /\ (6 <= String.length v <= n)%nat /\ all_chars is_ascii_lowercase v = true.
Proof.
  unfold BaseName_bounded, BaseName. intros H.
  destruct (_ && _) eqn:E; [|done]. apply andb_true_iff in E as [E1 E2]. apply Nat.leb_le in E1.
  destruct (n <? String.length v)%nat eqn:En; simplify_eq. apply Nat.ltb_ge in En.
  split; [done|]. split; [lia|done].
Qed.

Lemma digit_range c : is_ascii_digit c = true -> 0 <= byte_of_ascii c - 48 <= 9.
Proof. destruct c as [[] [] [] [] [] [] [] []]; vm_compute; intros; split; done. Qed.

Lemma digit_char_of c : is_ascii_digit c = true -> c = digit_char (byte_of_ascii c - 48).
Proof. destruct c as [[] [] [] [] [] [] [] []]; vm_compute; done. Qed.

(** Preferred digits are the printed discriminators 01 to 99. *)
Lemma PreferredDigits_Ok v d : PreferredDigits v = Ok d -> 1 <= d <= 99 /\ v = fmt02 d.
Proof.
  unfold PreferredDigits. intros H. destruct v as [|t [|o [|]]]; try done.
  destruct (_ && negb _) eqn:E; simplify_eq. apply andb_true_iff in E as [E Hz].
  apply andb_true_iff in E as [Ht Ho].
  pose proof (digit_range t Ht) as Rt. pose proof (digit_range o Ho) as Ro.
  apply digit_char_of in Ht, Ho. revert Ht Ho Rt Ro.
  generalize (byte_of_ascii t - 48), (byte_of_ascii o - 48). intros a b -> -> Ra Rb.
  assert (a <> 0 \/ b <> 0) as Hnz.
  { destruct (Z.eq_dec a 0) as [->|]; [|by left]. destruct (Z.eq_dec b 0) as [->|]; [done|by right]. }
  split; [lia|]. unfold fmt02. rewrite (proj2 (Z.ltb_lt _ _)) by lia.
  rewrite (Z.add_comm (a * 10)), Z.div_add, Z.div_small, Z.add_0_l by lia.
  rewrite Z.mod_add, !Z.mod_small by lia. done.
Qed.

Lemma freshness_nil config now t r :
  freshness config now t r = [] ->
  r = [] /\ t <= now + dotns_max_future_skew_secs config /\
  now - t <= dotns_intake_freshness_max_age_secs config.
Proof.
  unfold freshness. intros H.
  destruct (_ <? now - t) eqn:E1; [by apply flag_nonempty in H|].
  destruct (_ <? t) eqn:E2; [by apply flag_nonempty in H|]. bool_prop. split; [done|lia].
Qed.

(** What a validated dotNS block satisfies. *)
Definition dotns_ok (config : Config) (now : Z) (d : ParsedDotns) : Prop :=
  length (pd_signature d) = 64%nat /\ 0 <= pd_signed_at d /\
  pd_signed_at d <= now + dotns_max_future_skew_secs config /\
  now - pd_signed_at d <= dotns_intake_freshness_max_age_secs config /\
  forall n, pd_reserved_username d = Some n -> (6 <= String.length n <= 32)%nat.

Lemma Dotns_validate_Ok config now d r x :
  Dotns_validate config now d r = (Some x, []) -> r = [] /\ dotns_ok config now x.
Proof.
  unfold Dotns_validate.
  destruct (check "dotns.signature" _ r) as [sig r1] eqn:E1.
  destruct (check "dotns.signedAt" _ r1) as [t r2] eqn:E2.
  destruct (check_optional _ _ r2) as [res r3] eqn:E3. intros H.
  destruct sig as [sig|], t as [t|], res as [res|]; try done. injection H as <- H.
  apply freshness_nil in H as (-> & Hf1 & Hf2).
  apply check_Some in E1 as [H1 ->]. apply check_Some in E2 as [H2 ->].
  apply check_optional_Some in E3 as [<- H3]. apply Hex_length in H1.
  destruct (dn_signed_at d <? 0) eqn:Es; simplify_eq. bool_prop.
  split; [done|]. unfold dotns_ok. simpl. do 4 (split; [done|]). intros n ->.
  destruct (dn_reserved_username d) as [v|]; simplify_eq/=.
  by apply BaseName_bounded_Ok in H3 as (-> & ? & _).
Qed.

Lemma read_write_agree_base base too_long x :
  BaseName_bounded base MAX_BASE_LEN too_long = Ok x -> is_valid_base base = true.
Proof.
  intros (_ & Hl & Ha)%BaseName_bounded_Ok. unfold is_valid_base, MIN_BASE_LEN, MAX_BASE_LEN in *.
  rewrite Ha, andb_true_r. apply andb_true_iff. split; apply Nat.leb_le; lia.
Qed.

Lemma validate_Ok account_from_str sr25519_verify config now form q p :
  validate account_from_str sr25519_verify config now form q = Ok p ->
  is_valid_base (pr_username p) = true /\
  (forall d, pr_preferred_digits p = Some d -> 1 <= d <= 99 /\ rq_preferred_digits q = Some (fmt02 d)) /\
  length (pr_candidate_signature p) = 64%nat /\ length (pr_proof_of_ownership p) = 64%nat /\
  length (pr_consumer_registration_signature p) = 64%nat /\ length (pr_identifier_key p) = 65%nat /\
  (forall d, pr_dotns p = Some d -> dotns_ok config now d) /\
  (is_Some (pr_voucher p) -> registration_vouchers_enabled config = true) /\
  exists c, account_from_str (pr_candidate_account_id p) = Some c /\
    verify_candidate_signature sr25519_verify c (pr_candidate_signature p) (pr_ring_vrf_key p) form = true.
Proof.
  unfold validate.
  destruct (check "candidateAccountId" _ []) as [cand r1] eqn:E1.
  destruct (check "username" _ r1) as [user r2] eqn:E2.
  destruct (check_optional "preferredDigits" _ r2) as [pref r3] eqn:E3.
  destruct (check "candidateSignature" _ r3) as [sig r4] eqn:E4.
  destruct (check "ringVrfKey" _ r4) as [ring r5] eqn:E5.
  destruct (check "proofOfOwnership" _ r5) as [proof r6] eqn:E6.
  destruct (check "consumerRegistrationSignature" _ r6) as [cons r7] eqn:E7.
  destruct (check "identifierKey" _ r7) as [ident r8] eqn:E8.
  destruct (check "payloadVersion" _ r8) as [ver r9] eqn:E9.
  destruct (match rq_dotns q with None => _ | Some _ => _ end) as [dotns r10] eqn:E10.
  set (r11 := match r10 with [] => _ | _ => _ end). intros H.
  destruct r11 as [|] eqn:E11; [|done].
  destruct cand as [cand|]; [|done]. destruct user as [user|]; [|done].
  destruct pref as [pref|]; [|done]. destruct sig as [sig|]; [|done].
  destruct ring as [ring|]; [|done]. destruct proof as [proof|]; [|done].
  destruct cons as [cons|]; [|done]. destruct ident as [ident|]; [|done].
  destruct ver as [ver|]; [|done]. destruct dotns as [dotns|]; [|done].
  simplify_eq. cbn [pr_username pr_preferred_digits pr_candidate_signature pr_proof_of_ownership
    pr_consumer_registration_signature pr_identifier_key pr_dotns pr_voucher pr_candidate_account_id pr_ring_vrf_key].
  destruct r10; [|done].
  destruct (verify_version sr25519_verify ver cand sig ring form) eqn:Ev; [|done]. clear E11.
  apply check_Some in E1 as [H1 ->]. apply check_Some in E2 as [H2 ->].
  apply check_optional_Some in E3 as [-> H3]. apply check_Some in E4 as [H4 ->].
  apply check_Some in E5 as [H5 ->]. apply check_Some in E6 as [H6 ->].
  apply check_Some in E7 as [H7 ->]. apply check_Some in E8 as [H8 ->].
  apply check_Some in E9 as [H9 ->].
  split; [by apply BaseName_bounded_Ok in H2 as Hb; destruct Hb as (-> & _); apply read_write_agree_base in H2|].
  split. { intros d ->. destruct (rq_preferred_digits q) as [v|]; simplify_eq/=.
           by apply PreferredDigits_Ok in H3 as [? ->]. }
  do 4 (split; [by eapply Hex_length|]). split.
  - intros d ->. destruct (rq_dotns q) as [dn|]; [|done].
    destruct (Dotns_validate config now dn []) as [x r] eqn:Ed. destruct x; simplify_eq/=.
    by apply Dotns_validate_Ok in Ed as [_ ?].
  - split. { intros [v Hv]. repeat destr_match_in Hv; simplify_eq. by apply andb_true_iff in E0 as [? _]. }
    exists cand. destruct (account_from_str _); simplify_eq. split; [done|]. by destruct ver.
Qed.

Lemma validate_register_Ok account_from_str sr25519_verify decode config now form body p :
  validate_register account_from_str sr25519_verify decode config now form body = Ok p ->
  exists q, decode body = Ok q /\ validate account_from_str sr25519_verify config now form q = Ok p.
Proof. unfold validate_register. intros H. repeat destr_match_in H; simplify_eq. eauto. Qed.

(** ** Properties *)

(** The read and the write path agree on what a base is: [is_valid_base],
    behind the availability endpoint, accepts exactly the usernames the
    registration endpoint accepts. *)
Theorem read_write_agree base too_long :
  is_valid_base base = true <-> BaseName_bounded base MAX_BASE_LEN too_long = Ok base.
Proof.
  split.
  - unfold is_valid_base, BaseName_bounded, BaseName, MIN_BASE_LEN, MAX_BASE_LEN. intros H.
    apply andb_true_iff in H as [[H1 H2]%andb_true_iff H3]. rewrite H1, H3. simpl.
    apply Nat.leb_le in H2. by rewrite (proj2 (Nat.ltb_ge _ _)) by lia.
  - apply read_write_agree_base.
Qed.

(** A request the endpoint lets through is one the rest of the system can
    serve: its base is valid, its preferred digits (if any) are between 01 and 99
    as printed, its keys and signatures have their sizes, its dotNS block (if any)
    is fresh and not future-dated beyond the tolerance, its voucher (if any) is
    present only with the voucher lane on, and its candidate signature verifies in
    the runtime's form by the check the chain writer's gate repeats. *)
Theorem validate_sound account_from_str sr25519_verify decode config now form body p :
  validate_register account_from_str sr25519_verify decode config now form body = Ok p ->
  exists q, decode body = Ok q /\
  is_valid_base (pr_username p) = true /\
  (forall d, pr_preferred_digits p = Some d -> 1 <= d <= 99 /\ rq_preferred_digits q = Some (fmt02 d)) /\
  length (pr_candidate_signature p) = 64%nat /\ length (pr_proof_of_ownership p) = 64%nat /\
  length (pr_consumer_registration_signature p) = 64%nat /\ length (pr_identifier_key p) = 65%nat /\
  (forall d, pr_dotns p = Some d -> dotns_ok config now d) /\
  (is_Some (pr_voucher p) -> registration_vouchers_enabled config = true) /\
  exists c, account_from_str (pr_candidate_account_id p) = Some c /\
    verify_candidate_signature sr25519_verify c (pr_candidate_signature p) (pr_ring_vrf_key p) form = true.
Proof.
  intros (q & Hq & Hv)%validate_register_Ok. exists q. split; [done|].
  by apply validate_Ok in Hv.
Qed.

Fixpoint zeros (n : nat) : string :=
  match n with O => EmptyString | S n' => String "0" (zeros n') end.

Definition demo_request : RegisterRequest :=
  {| rq_candidate_account_id := "alice"; rq_username := "tallesx";
     rq_preferred_digits := Some "07"%string; rq_candidate_signature := "0x" +:+ zeros 128;
     rq_ring_vrf_key := "0xAb"; rq_proof_of_ownership := "0x" +:+ zeros 128;
     rq_consumer_registration_signature := "0x" +:+ zeros 128;
     rq_identifier_key := "0x" +:+ zeros 130; rq_payload_version := 1;
     rq_lifetime_poud_voucher := None;
     rq_dotns := Some {| dn_signature := "0x" +:+ zeros 128; dn_signed_at := 990;
                         dn_reserved_username := Some "reservedname"%string |} |}.

Definition demo_config : Config :=
  {| dotns_max_future_skew_secs := 300; dotns_intake_freshness_max_age_secs := 3600;
     registration_vouchers_enabled := true |}.

Lemma validate_sound_witness :
  exists p,
    validate_register (fun _ => Some []) (fun _ _ _ => true) (fun _ => Ok demo_request)
      demo_config 1000 Plain JNull = Ok p /\
    is_valid_base (pr_username p) = true /\ length (pr_identifier_key p) = 65%nat.
Proof.
  eexists.
  assert (validate_register (fun _ => Some []) (fun _ _ _ => true) (fun _ => Ok demo_request)
            demo_config 1000 Plain JNull = Ok _) as E by (vm_compute; reflexivity).
  split; [exact E|].
  destruct (validate_sound _ _ _ _ _ _ _ _ E) as (q & _ & H1 & _ & _ & _ & _ & H2 & _). by split.
Defined.

End Request.
