(* ===== verification/Registration.v ===== *)
(** * Registration: the registration handler ([usernames/register.rs])

    The whole [register] handler: rate limit, header and body validation, the
    name checks, the voucher lane, the two device gates, the queue lane and the
    transactions of [reserve].  The state is the database and the DeviceCheck
    client; a handler step is a statement with its fate, and between two
    statements the rest of the system may change the database ([others]).  The
    chain reads, and the X.509, base64, JSON and hash crates, are parameters. *)

From S2P Require Import Prelude Strings Schema Lease Outbox Queue Eligibility DeviceGate DeviceCheck.
From S2P Require Import KeyAttest Signature Usernames Request.

#[local] Open Scope Z_scope.

Module Registration.

Export Queue DeviceCheck Request.

Record AuthSubject := { subject : string; platform : option string }.

Record WidevineConfig := { enforce : bool; hmac_key : bytes }.

Record RegisterConfig := {
  rc_validation : Request.Config;
  enforce_auth : bool;
  queue_enabled : bool;
  device_check_enabled : bool;
  widevine : option WidevineConfig;
  android_package_names : list string;
  android_signing_digest_playstore : option bytes;
  android_signing_digest_website : option bytes;
}.

Record RegisterResponse := {
  base_username : string;
  rr_digits : string;
  rr_username : string;
  device_check_available : option bool;
  registration_outcome : option string;
  rr_queue : option QueueStatusResponse;
}.

(** The two success replies: the 202 body, and the bare 200 outcome. *)
Inductive Response :=
| Accepted (body : RegisterResponse)
| PaymentRequired.

Definition device_ineligible : Response := PaymentRequired.

(** ** Header rules *)

Definition DEVICE_TOKEN_HEADER : string := "Device-Token-iOS".

Fixpoint trim_end_eq (s : string) : string :=
  match s with
  | EmptyString => EmptyString
  | String c s' =>
      match trim_end_eq s' with
      | EmptyString => if Ascii.eqb c "=" then EmptyString else String c EmptyString
      | t => String c t
      end
  end.

Definition is_base64 (value : string) : bool :=
  if String.eqb value EmptyString then true
  else if negb (String.length value mod 4 =? 0)%nat then false
  else
    let core := trim_end_eq value in
    (String.length value - String.length core <=? 2)%nat
    && all_chars (fun b => is_ascii_alphanumeric b || Ascii.eqb b "+" || Ascii.eqb b "/") core.

(** The header as [headers.get] and [to_str] give it: absent, present but not
    text, or its text. *)
Definition validate_device_token_header (header : option (option string))
    : result unit UsernamesError :=
  match header with
  | None => Ok tt
  | Some raw =>
      if match raw with Some s => is_base64 s | None => false end then Ok tt
      else Err (InvalidHeader [{| fe_message := "Invalid base64-encoded string";
                                  fe_field := DEVICE_TOKEN_HEADER |}])
  end.

Definition device_token_bytes (b64_decode : string -> option bytes)
    (header : option (option string)) : option bytes :=
  match header with
  | Some (Some raw) => if String.eqb raw EmptyString then None else b64_decode raw
  | _ => None
  end.

Definition build_reservation (auth : AuthSubject) (parsed : ParsedRegister)
    (digits full_username : string) : NewReservation :=
  {| nr_account_id := subject auth;
     nr_candidate_account_id := pr_candidate_account_id parsed;
     nr_base := pr_username parsed;
     nr_digits := digits;
     nr_full_username := full_username;
     nr_candidate_signature := pr_candidate_signature parsed;
     nr_ring_vrf_key := pr_ring_vrf_key parsed;
     nr_proof_of_ownership := pr_proof_of_ownership parsed;
     nr_consumer_registration_signature := pr_consumer_registration_signature parsed;
     nr_identifier_key := pr_identifier_key parsed;
     nr_dotns_signature := pd_signature <$> pr_dotns parsed;
     nr_dotns_signed_at := pd_signed_at <$> pr_dotns parsed;
     nr_reserved_username := d ← pr_dotns parsed; pd_reserved_username d;
     nr_payload_version := u16_of_version (pr_payload_version parsed) |}.

Definition insert_reservation (now : Z) (new : NewReservation) (queue_group : option Z) (db : Db)
    : result Z InsertError * Db :=
  match queue_group with
  | Some group => insert_queued now new group db
  | None => insert now new db
  end.

(** ** Evidence verification ([widevine::verify]) *)

Definition DOMAIN : string := "dub/poud/android/v1".

Record VerifiedEvidence := { ve_challenge : bytes; ve_hmac : bytes }.

(** The crates the handler calls. *)
Record Crates := {
  x509 : X509.Crypto;
  hmac_sha256 : bytes -> bytes -> bytes;
  b64_decode : string -> option bytes;
  json_from_slice : bytes -> option Json;
  decode_request : Json -> result RegisterRequest (string * string);
  account_from_str : string -> option bytes;
  sr25519_verify : bytes -> bytes -> bytes -> bool;
  from_utf8_lossy : bytes -> string;
  bits_of_json : bytes -> option BitState;
  jwt_encode : Z -> Z -> result string string;
}.

Definition sha256 (cr : Crates) : bytes -> bytes := X509.sha256 (x509 cr).

Definition evidence_preimage (evidence : RawEvidence) (subject_pubkey : bytes) : bytes :=
  as_bytes DOMAIN ++ ev_challenge evidence ++ subject_pubkey ++ device_id evidence.

Definition verify (cr : Crates) (config : RegisterConfig) (wv : WidevineConfig)
    (revoked : gset string) (subject_pubkey : bytes) (now_unix : Z) (evidence : RawEvidence)
    : result VerifiedEvidence EvidenceError :=
  let expected_challenge := sha256 cr (evidence_preimage evidence subject_pubkey) in
  match android_signing_digest_playstore config, android_signing_digest_website config with
  | Some playstore, Some website =>
      match KeyAttest.verify_chain (x509 cr) (chain_der evidence)
              {| KeyAttest.vp_challenge := expected_challenge;
                 KeyAttest.vp_package_names := android_package_names config;
                 KeyAttest.vp_playstore_digest := playstore; KeyAttest.vp_website_digest := website;
                 KeyAttest.trusted_roots_der := KeyAttest.google_roots_der (b64_decode cr);
                 KeyAttest.trusted_verified_boot_keys := KeyAttest.GRAPHENEOS_VERIFIED_BOOT_KEYS;
                 KeyAttest.revoked_serials := revoked; KeyAttest.now_unix := now_unix |} with
      | Err e => Err (Invalid (KeyAttest.to_string e))
      | Ok _ =>
          Ok {| ve_challenge := ev_challenge evidence;
                ve_hmac := device_hmac (hmac_sha256 cr) (hmac_key wv) (device_id evidence) |}
      end
  | _, _ => Err (Invalid "android signing digests are not configured")
  end.

(** ** The handler's effects *)

Inductive ReserveOutcome :=
| ReservedId (id : Z)
| DeviceAlreadyClaimed.

Inductive WidevineGate :=
| WvProceed (device : option bytes)
| WvIneligible.

(** How a handler ends before its last line: a [return], a [?], or a panic. *)
Inductive exit :=
| Returned (r : result Response UsernamesError)
| Panicked.

(** What this request meets: the chain's and the CRL's answers, the clocks, the
    random draw, what the rest of the system does to the database before the
    handler's [i]-th statement, and the fate of that statement. *)
Record Env := {
  rate : option Z;
  block : result AccountSignatureForm string;
  chain_base : string -> result BaseState string;
  chain_reservation : string -> result ReservationState string;
  free_balance : bytes -> BalanceRead;
  crl : result (gset string) string;
  rng : nat;
  db_now : Z;
  app_now : Z;
  others : nat -> Db -> Db;
  fate : nat -> DbFate;
}.

Section handler.
Context {apple_service : AppleService} (cr : Crates) (config : RegisterConfig) (env : Env).

Definition St : Type := Db * Client.
Definition Handler (A : Type) : Type := St -> (A + exit) * St.

Definition hret {A} (a : A) : Handler A := fun s => (inl a, s).
Definition hbind {A B} (m : Handler A) (k : A -> Handler B) : Handler B := fun s =>
  match m s with
  | (inl a, s') => k a s'
  | (inr e, s') => (inr e, s')
  end.
Definition fail {A} (e : UsernamesError) : Handler A := fun s => (inr (Returned (Err e)), s).
Definition finish {A} (r : Response) : Handler A := fun s => (inr (Returned (Ok r)), s).
Definition panic {A} : Handler A := fun s => (inr Panicked, s).
Definition lift {A} (r : result A UsernamesError) : Handler A :=
  match r with Ok a => hret a | Err e => fail e end.

(** Statement [i]; [None] when it failed or its acknowledgement was lost. *)
Definition stmt {A} (i : nat) (f : Db -> A * Db) : Handler (option A) := fun '(db, c) =>
  let '(r, db') := run_stmt (fate env i) f (others env i db) in (inl r, (db', c)).
Definition query {A} (i : nat) (f : Db -> A) : Handler (option A) := stmt i (fun db => (f db, db)).

(** A DeviceCheck call. *)
Definition apple {A} (f : Z -> Client -> A * Client) : Handler A := fun '(db, c) =>
  let '(r, c') := f (unix_timestamp (app_now env)) c in (inl r, (db, c')).

#[local] Notation "'let*' x ':=' c 'in' k" := (hbind c (fun x => k))
  (at level 10, x pattern, c at level 100, k at level 200).

(** ** [widevine_gate] *)

Definition reject (wv : WidevineConfig) (verdict : EvidenceError) : Handler WidevineGate :=
  if enforce wv then fail (evidence_error verdict) else hret (WvProceed None).

Definition widevine_gate (auth : AuthSubject) (body : Json) : Handler WidevineGate :=
  match widevine config with
  | None => hret (WvProceed None)
  | Some wv =>
      match extract (b64_decode cr) body with
      | Err verdict => reject wv verdict
      | Ok None =>
          if enforce wv && bool_decide (platform auth = Some "android"%string)
          then hret WvIneligible else hret (WvProceed None)
      | Ok (Some raw) =>
          match crl env with
          | Err _ => if enforce wv then fail DeviceEvidenceUnavailable else hret (WvProceed None)
          | Ok revoked =>
              match parse_subject (subject auth) with
              | None => reject wv (Invalid "JWT subject is not a 32-byte account key")
              | Some subject_pubkey =>
                  match verify cr config wv revoked subject_pubkey
                          (unix_timestamp (app_now env)) raw with
                  | Err verdict => reject wv verdict
                  | Ok verified =>
                      let* consumed := stmt 3 (consume (db_now env) (ve_challenge verified)) in
                      match consumed with
                      | None => if enforce wv then fail (Internal "challenge consume failed")
                                else hret (WvProceed None)
                      | Some false =>
                          reject wv (Invalid "evidence challenge is unknown, spent, or expired")
                      | Some true =>
                          let* s := query 4 (seen (ve_hmac verified)) in
                          match s with
                          | None => if enforce wv then fail (Internal "device lookup failed")
                                    else hret (WvProceed None)
                          | Some s =>
                              if negb (enforce wv) then hret (WvProceed None)
                              else if s then hret WvIneligible
                              else hret (WvProceed (Some (ve_hmac verified)))
                          end
                      end
                  end
              end
          end
      end
  end.

(** ** [reserve] *)

Definition insert_error (new : NewReservation) (e : InsertError) : UsernamesError :=
  match e with
  | Conflict => UsernameTaken (nr_base new) (nr_digits new)
  | InsertDb => PersistenceFailed
  end.

(** The body of the Widevine transaction; its error is the answer given after the
    rollback. *)
Definition device_txn (now : Z) (new : NewReservation) (queue_group : option Z) (hmac : bytes)
    (db : Db) : result Z (result ReserveOutcome UsernamesError) * Db :=
  match insert_reservation now new queue_group db with
  | (Err e, db1) => (Err (Err (insert_error new e)), db1)
  | (Ok id, db1) =>
      match insert_pending hmac id db1 with
      | (Ok _, db2) => (Ok id, db2)
      | (Err Seen, db2) => (Err (Ok DeviceAlreadyClaimed), db2)
      | (Err DeviceDb, db2) => (Err (Err PersistenceFailed), db2)
      end
  end.

Definition rollback (tx db : Db) : Db := with_next_id (db_next_id tx) db.

(** From the insert to the commit of the DeviceCheck transaction; Apple's mark is
    outside it. *)
Definition mark_and_commit (new : NewReservation) (token : bytes) (queue_group : option Z)
    : Handler ReserveOutcome := fun '(db, c) =>
  let db := others env 6 db in
  match fate env 6 with
  | Fine =>
      match insert_reservation (db_now env) new queue_group db with
      | (Err e, tx) => (inr (Returned (Err (insert_error new e))), (rollback tx db, c))
      | (Ok id, tx) =>
          let '(marked, c') :=
            register_device (from_utf8_lossy cr) (jwt_encode cr) (unix_timestamp (app_now env)) token c in
          match marked with
          | Err _ => (inr (Returned (Err DeviceRegistrationFailed)), (rollback tx db, c'))
          | Ok _ =>
              match fate env 7 with
              | Fine => (inl (ReservedId id), (tx, c'))
              | Refused => (inr (Returned (Err PersistenceFailed)), (rollback tx db, c'))
              | AckLost => (inr (Returned (Err PersistenceFailed)), (tx, c'))
              end
          end
      end
  | _ => (inr (Returned (Err PersistenceFailed)), (db, c))
  end.

Definition reserve (new : NewReservation) (mark_token : option bytes) (queue_group : option Z)
    (widevine_device : option bytes) : Handler ReserveOutcome :=
  match widevine_device with
  | Some hmac =>
      let* r := stmt 5 (txn (device_txn (db_now env) new queue_group hmac)) in
      match r with
      | None => fail PersistenceFailed
      | Some (Ok id) => hret (ReservedId id)
      | Some (Err answer) => lift answer
      end
  | None =>
      match mark_token with
      | None =>
          let* r := stmt 5 (insert_reservation (db_now env) new queue_group) in
          match r with
          | None => fail PersistenceFailed
          | Some (Ok id) => hret (ReservedId id)
          | Some (Err e) => fail (insert_error new e)
          end
      | Some token =>
          if negb (device_check_enabled config) then panic
          else
            let* lock := query 5 (fun _ => tt) in
            match lock with
            | None => fail PersistenceFailed
            | Some _ =>
                let* used := apple (fun now =>
                  already_used (from_utf8_lossy cr) (bits_of_json cr) (jwt_encode cr) now token) in
                match used with
                | Ok true => hret DeviceAlreadyClaimed
                | Err _ => fail DeviceCheckUnavailable
                | Ok false => mark_and_commit new token queue_group
                end
            end
      end
  end.

(** ** [register] *)

(** The DeviceCheck gate: the token to mark, and the advisory availability. *)
Definition device_check_gate (auth : AuthSubject) (header : option (option string))
    : Handler (option bytes * option bool) :=
  if device_check_enabled config && bool_decide (platform auth = Some "ios"%string) then
    let device_token := device_token_bytes (b64_decode cr) header in
    let* verdict := apple (fun now =>
      evaluate (from_utf8_lossy cr) (bits_of_json cr) (jwt_encode cr) now device_token) in
    match decide_gate verdict (enforce_auth config) with
    | Blocked => finish device_ineligible
    | TokenRequired => fail DeviceTokenRequired
    | Unavailable _ => fail DeviceCheckUnavailable
    | DeviceGate.Register =>
        match device_token with Some t => hret (Some t, Some true) | None => panic end
    | Proceed available => hret (None, available)
    end
  else hret (None, None).

(** The voucher lane. *)
Definition voucher_lane (key : string) (new : NewReservation) : Handler Response :=
  let* st := query 1 (Eligibility.voucher_state (sha256 cr) (app_now env) key) in
  match st with
  | None => fail (Internal "voucher read failed")
  | Some st =>
      match Eligibility.decide_lane (Some st) with
      | Err reason => fail (Voucher reason)
      | Ok Eligibility.Standard =>
          fail (Internal "eligibility returned the standard lane for a submitted voucher")
      | Ok Eligibility.Instant =>
          fun '(db, c) =>
            let '(r, db') :=
              Eligibility.redeem_and_reserve (sha256 cr) (db_now env) (app_now env) (fate env 2) key new
                (others env 2 db) in
            (match r with
             | Ok _ => inl (Accepted {| base_username := nr_base new; rr_digits := nr_digits new;
                                        rr_username := nr_full_username new;
                                        device_check_available := None;
                                        registration_outcome := Some "INSTANT"%string;
                                        rr_queue := None |})
             | Err Eligibility.RConflict =>
                 inr (Returned (Err (UsernameTaken (nr_base new) (nr_digits new))))
             | Err (Eligibility.RVoucher reason) => inr (Returned (Err (Voucher reason)))
             | Err Eligibility.RDb => inr (Returned (Err PersistenceFailed))
             end, (db', c))
      end
  end.

(** The claim's standing right after it is queued. *)
Definition standing (group : option Z) (id : Z) : Handler (option QueueStatusResponse) :=
  match group with
  | None => hret None
  | Some g =>
      let* snapshot := query 8 queued_snapshot in
      hret (match snapshot with
            | None => None
            | Some snapshot =>
                (fun e => {| queue_position := position e; group := g;
                             estimated_iterations_remaining := iterations e |})
                  <$> drain_estimate snapshot id
            end)
  end.

(** The direct and the queue lane, behind the device gates. *)
Definition standard_lane (auth : AuthSubject) (header : option (option string)) (body : Json)
    (new : NewReservation) : Handler Response :=
  let* gate := widevine_gate auth body in
  match gate with
  | WvIneligible => hret device_ineligible
  | WvProceed widevine_device =>
      let* (mark_token, available) := device_check_gate auth header in
      let group := if queue_enabled config
                   then Some (intake_group (free_balance env) (subject auth)) else None in
      let* outcome := reserve new mark_token group widevine_device in
      match outcome with
      | DeviceAlreadyClaimed => hret device_ineligible
      | ReservedId id =>
          let* queue := standing group id in
          hret (Accepted {| base_username := nr_base new; rr_digits := nr_digits new;
                            rr_username := nr_full_username new;
                            device_check_available := available;
                            registration_outcome :=
                              if queue_enabled config then Some "QUEUED"%string else None;
                            rr_queue := queue |})
      end
  end.

(** The personhood leg: the reserved name must be reservable. *)
Definition check_reserved (parsed : ParsedRegister) (base : BaseState) : Handler unit :=
  match reserved_name parsed with
  | None => hret tt
  | Some reserved =>
      let* state := lift (if String.eqb reserved (pr_username parsed) then Ok (reservation base)
                          else map_err Internal (chain_reservation env reserved)) in
      if rejects state then fail (FullNameUnavailable reserved) else hret tt
  end.

Definition check_rate_limit : Handler unit :=
  match rate env with None => hret tt | Some retry => fail (RateLimited retry) end.

Definition parse_json_body (body : bytes) : result Json UsernamesError :=
  match json_from_slice cr body with Some v => Ok v | None => Err MalformedJson end.

Definition register (auth : AuthSubject) (header : option (option string)) (body : bytes)
    : Handler Response :=
  let* _ := check_rate_limit in
  let* _ := lift (validate_device_token_header header) in
  let* value := lift (parse_json_body body) in
  let* form := lift (map_err Internal (block env)) in
  let* parsed := lift (validate_register (account_from_str cr) (sr25519_verify cr) (decode_request cr)
                         (rc_validation config) (unix_timestamp (app_now env)) form value) in
  let* pending := query 0 (allocated_discriminators (pr_username parsed)) in
  let* base := lift (map_err Internal (base_state_at (chain_base env (pr_username parsed))
                                         (mjoin pending))) in
  let* _ := check_reserved parsed base in
  let* digit := lift (select_digit (rng env) (taken base) (pr_preferred_digits parsed)
                        (pr_username parsed)) in
  let digits := fmt02 digit in
  let full_username := pr_username parsed +:+ "." +:+ digits in
  let new := build_reservation auth parsed digits full_username in
  match pr_voucher parsed with
  | Some key => voucher_lane key new
  | None => standard_lane auth header value new
  end.

End handler.

End Registration.
