(* ===== verification/RegisterProps.v ===== *)
(** * RegisterProps: what a registration request does

    A triple for handlers ([post]), the triples of the handler's parts, and the
    claims: the outcome of [register] on every branch, and one registration per
    iOS device. *)

From S2P Require Import Prelude Strings Schema Lease Outbox Queue Eligibility DeviceGate DeviceCheck.
From S2P Require Import KeyAttest KeyAttestProps Signature Usernames Request Registration.

#[local] Open Scope Z_scope.

Module RegisterProps.

Export Registration.

Section post.
Context {apple_service : AppleService}.

(** [m] run at [s] ends in [Q] when it continues and in [X] when it exits. *)
Definition post {A} (m : Handler A) (Q : A -> St -> Prop) (X : exit -> St -> Prop) (s : St) : Prop :=
  match m s with
  | (inl a, s') => Q a s'
  | (inr e, s') => X e s'
  end.

Lemma post_bind {A B} (m : Handler A) (k : A -> Handler B) Q X s :
  post m (fun a s' => post (k a) Q X s') X s -> post (hbind m k) Q X s.
Proof. unfold post, hbind. by destruct (m s) as [[a|e] s']. Qed.

Lemma post_mono {A} (m : Handler A) (Q Q' : A -> St -> Prop) (X X' : exit -> St -> Prop) s :
  post m Q X s -> (forall a s', Q a s' -> Q' a s') -> (forall e s', X e s' -> X' e s') ->
  post m Q' X' s.
Proof. unfold post. destruct (m s) as [[a|e] s']; auto. Qed.

Lemma post_lift {A} (r : result A UsernamesError) (Q : A -> St -> Prop) X s :
  (forall a, r = Ok a -> Q a s) -> (forall e, r = Err e -> X (Returned (Err e)) s) ->
  post (lift r) Q X s.
Proof. destruct r as [a|e]; unfold post; simpl; auto. Qed.
End post.

(** ** The outcome of a request *)

Abbreviation claims := db_reservations.

Section outcome.
Context {apple_service : AppleService} (cr : Crates) (config : RegisterConfig) (env : Env)
  (auth : AuthSubject).

(** What the 202 body says of the claim. *)
Definition reported (r : RegisterResponse) (new : NewReservation) : Prop :=
  nr_account_id new = subject auth /\ nr_base new = base_username r /\
  nr_digits new = rr_digits r /\ nr_full_username new = rr_username r /\
  rr_username r = base_username r +:+ "." +:+ rr_digits r /\
  is_valid_base (base_username r) = true /\
  exists d b, 1 <= d <= 99 /\ rr_digits r = fmt02 d /\
    chain_base env (base_username r) = Ok b /\ d ∉ taken b.

(** The lane of an accepted claim: its row's status. *)
Definition lane_status (r : RegisterResponse) : Status :=
  if bool_decide (registration_outcome r = Some "QUEUED"%string) then Queued else Reserved.

(** The handler writes no claim: from [db] to [db'] the claims are only changed by
    what the rest of the system does before one of its statements. *)
Definition drift1 (db db' : Db) : Prop :=
  claims db' = claims db \/ exists i, db' = others env i db.
Definition drift : Db -> Db -> Prop := rtc drift1.

(** The handler writes one claim, a row for [new]: one insert, accepted by the claims
    as it found them, and nothing else. *)
Definition wrote (new : NewReservation) (status : Status) (db db' : Db) : Prop :=
  exists db1 db2 id group tx,
    drift db db1 /\ insert_with (db_now env) new status group db1 = (Ok id, tx) /\
    claims db2 = claims tx /\ drift db2 db'.

(** The handler runs alone. *)
Definition quiet : Prop := forall i db, others env i db = db.

Lemma drift_quiet db db' : quiet -> drift db db' -> claims db' = claims db.
Proof.
  intros Hq. induction 1 as [|a b c Hab _ IH]; [done|]. rewrite IH.
  destruct Hab as [->|[i ->]]; [done|]. by rewrite Hq.
Qed.

Lemma wrote_quiet new status db db' :
  quiet -> wrote new status db db' ->
  exists id group, claims db' = <[id := fresh_row (db_now env) new status group]> (claims db).
Proof.
  intros Hq (db1 & db2 & id & group & tx & H1 & Hi & H2 & H3). exists id, group.
  apply drift_quiet in H1, H3; [|done..]. rewrite H3, H2, <-H1.
  by apply insert_with_Ok in Hi as (-> & -> & _).
Qed.

(** The one way to an error reply with the claim written: the commit was done and its
    acknowledgement lost.  [mine]: what is known of the claims of this request. *)
Definition ack_lost (mine : NewReservation -> Prop) (db db' : Db) : Prop :=
  (exists i, fate env i = AckLost) /\ exists new status, mine new /\ wrote new status db db'.

Definition ended (mine : NewReservation -> Prop) (db : Db) (e : exit) (s' : St) : Prop :=
  match e with
  | Returned (Ok (Accepted _)) | Panicked => False
  | Returned (Err PersistenceFailed) => drift db s'.1 \/ ack_lost mine db s'.1
  | _ => drift db s'.1
  end.
#[local] Arguments ended : simpl never.

Lemma drift_refl db : drift db db.
Proof. apply rtc_refl. Qed.
Lemma drift_trans a b c : drift a b -> drift b c -> drift a c.
Proof. intros ?. by etrans. Qed.
Lemma drift_same a b : claims b = claims a -> drift a b.
Proof. intros H. apply rtc_once. by left. Qed.
Lemma drift_others i a : drift a (others env i a).
Proof. apply rtc_once. right. by exists i. Qed.
Lemma drift_at i a b : claims b = claims (others env i a) -> drift a b.
Proof. intros H. eapply drift_trans; [apply (drift_others i)|]. by apply drift_same. Qed.

Lemma drift_wrote a b new st db' : drift a b -> wrote new st b db' -> wrote new st a db'.
Proof.
  intros Hf (db1 & db2 & id & g & tx & H1 & Hi). exists db1, db2, id, g, tx.
  split; [by eapply drift_trans|done].
Qed.
Lemma wrote_drift new st a b c : wrote new st a b -> drift b c -> wrote new st a c.
Proof.
  intros (db1 & db2 & id & g & tx & H1 & Hi & H2 & H3) Hd. exists db1, db2, id, g, tx.
  split_and!; [done..|]. by eapply drift_trans.
Qed.
Lemma drift_ack_lost mine a b db' : drift a b -> ack_lost mine b db' -> ack_lost mine a db'.
Proof.
  intros Hf [Hi (new & st & Hm & Hw)]. split; [done|]. exists new, st. split; [done|]. by eapply drift_wrote.
Qed.

Lemma drift_ended mine a b e s' : drift a b -> ended mine b e s' -> ended mine a e s'.
Proof.
  intros Hf. destruct e as [[[]|[]]|]; unfold ended; try done; try (by apply drift_trans).
  intros [Hd|Hl]; [left; by eapply drift_trans|right; by eapply drift_ack_lost].
Qed.
Lemma ended_err mine db e s : drift db s.1 -> ended mine db (Returned (Err e)) s.
Proof. intros Hf. destruct e; unfold ended; auto. Qed.
Lemma ended_fail {A} mine db e (Q : A -> St -> Prop) s : drift db s.1 -> post (fail e) Q (ended mine db) s.
Proof. apply ended_err. Qed.

#[local] Hint Resolve drift_refl drift_trans : core.

(** What a committed insert at statement [i] means. *)
Lemma insert_wrote i new st group db id tx db2 :
  insert_with (db_now env) new st group (others env i db) = (Ok id, tx) -> claims db2 = claims tx ->
  wrote new st db db2.
Proof.
  intros Hi Hr. exists (others env i db), db2, id, group, tx.
  split; [apply drift_others|]. split; [done|]. split; [done|apply drift_refl].
Qed.

(** A statement that leaves the claims alone. *)
Lemma stmt_drift {A} i (f : Db -> A * Db) X s :
  (forall db, claims (f db).2 = claims db) -> post (stmt env i f) (fun _ s' => drift s.1 s'.1) X s.
Proof.
  intros Hf. destruct s as [db c]. unfold post, stmt.
  destruct (run_stmt (fate env i) f (others env i db)) as [r db'] eqn:E. simpl. apply (drift_at i).
  specialize (Hf (others env i db)). unfold run_stmt in E.
  destruct (fate env i); [destruct (f (others env i db))| |]; by simplify_eq/=.
Qed.

Lemma query_drift {A} i (f : Db -> A) X s : post (query env i f) (fun _ s' => drift s.1 s'.1) X s.
Proof. by apply stmt_drift. Qed.

Lemma apple_drift {A} (f : Z -> Client -> A * Client) X s :
  post (apple env f)
    (fun a s' => drift s.1 s'.1 /\ exists c, a = (f (unix_timestamp (app_now env)) c).1) X s.
Proof.
  destruct s as [db c]. unfold post, apple. destruct (f _ c) as [r c'] eqn:E. split; [apply drift_refl|].
  exists c. by rewrite E.
Qed.

Lemma consume_frame now ch db : claims (consume now ch db).2 = claims db.
Proof. unfold consume. by repeat destr_match. Qed.

(** ** The parts *)

Section mine.
Context (mine : NewReservation -> Prop).
Abbreviation ended := (ended mine).

Lemma widevine_gate_post body s :
  post (widevine_gate cr config env auth body) (fun _ s' => drift s.1 s'.1) (ended s.1) s.
Proof.
  assert (forall wv v s', drift s.1 s'.1 ->
            post (reject wv v) (fun _ s' => drift s.1 s'.1) (ended s.1) s') as Hrej.
  { intros wv v s' Hf. unfold reject. destruct (enforce wv); [by apply ended_fail|done]. }
  unfold widevine_gate. destruct (widevine config) as [wv|]; [|by apply drift_refl].
  destruct (extract (b64_decode cr) body) as [[raw|]|v]; [| |by apply Hrej].
  2:{ destruct (_ && _); by apply drift_refl. }
  destruct (crl env) as [revoked|e]; [|destruct (enforce wv); [by apply ended_fail|by apply drift_refl]].
  destruct (parse_subject (subject auth)) as [key|]; [|by apply Hrej].
  destruct (verify cr config wv revoked key _ raw) as [v|v]; [|by apply Hrej].
  apply post_bind. eapply post_mono; [apply stmt_drift; intros; apply consume_frame| |done].
  intros [[]|] s1 Hf; [|by apply Hrej|by destruct (enforce _); [apply ended_fail|]].
  apply post_bind. eapply post_mono; [apply query_drift| |done].
  intros x s2 Hf2. repeat destr_match; (by apply ended_fail; eauto) || (cbn; eauto).
Qed.

(** The token to mark comes with the client it will be marked by. *)
Lemma device_check_gate_post header s :
  post (device_check_gate cr config env auth header)
    (fun '(t, _) s' => drift s.1 s'.1 /\ (is_Some t -> device_check_enabled config = true))
    (ended s.1) s.
Proof.
  unfold device_check_gate. destruct (_ && _) eqn:E; [|split; [apply drift_refl|]; by intros [? ?]].
  apply andb_true_iff in E as [Een _]. rewrite Een.
  apply post_bind. eapply post_mono; [apply apple_drift| |done].
  intros v s1 [Hf (c & ->)]. destruct (decide_gate _ _) eqn:Ed; try by apply ended_fail.
  - destruct (device_token_bytes _ header) as [t|] eqn:Et; [by split|].
    simpl in Ed. by destruct (enforce_auth config).
  - split; [done|]. by intros [? ?].
  - exact Hf.
Qed.

Definition lane_of (group : option Z) : Status :=
  match group with Some _ => Queued | None => Reserved end.

Lemma insert_reservation_with now new group db :
  insert_reservation now new group db = insert_with now new (lane_of group) (default 1 group) db.
Proof. by destruct group. Qed.

Lemma device_txn_spec new group hmac db :
  match device_txn (db_now env) new group hmac db with
  | (Ok id, tx) =>
      exists db1, insert_with (db_now env) new (lane_of group) (default 1 group) db = (Ok id, db1) /\
      claims tx = claims db1
  | (Err (Ok o), _) => o = DeviceAlreadyClaimed
  | (Err (Err e), _) => True
  end.
Proof.
  unfold device_txn. rewrite insert_reservation_with.
  destruct (insert_with _ _ _ _ db) as [[id|e] db1] eqn:Ei; [|done].
  unfold insert_pending. destruct (db_devices db1 !! hmac); [done|]. by exists db1.
Qed.

Lemma wrote_lost i new st a s :
  fate env i = AckLost -> mine new -> wrote new st a s.1 -> ended a (Returned (Err PersistenceFailed)) s.
Proof. intros Hi Hm Hw. right. split; [by exists i|]. by exists new, st. Qed.

Lemma mark_and_commit_post new token group s :
  mine new ->
  post (mark_and_commit cr env new token group)
    (fun o s' => exists id, o = ReservedId id /\ wrote new (lane_of group) s.1 s'.1) (ended s.1) s.
Proof.
  intros Hm. destruct s as [db c]. unfold post, mark_and_commit. rewrite insert_reservation_with.
  destruct (fate env 6) eqn:E6; [|apply ended_err, (drift_others 6)..].
  destruct (insert_with _ _ _ _ (others env 6 db)) as [[id|e] tx] eqn:Ei;
    [|by apply ended_err, (drift_at 6)].
  destruct (register_device _ _ _ token c) as [[|e] c']; [|by apply ended_err, (drift_at 6)].
  destruct (fate env 7) eqn:E7.
  - exists id. split; [done|]. by eapply insert_wrote.
  - by apply ended_err, (drift_at 6).
  - eapply wrote_lost; [exact E7|exact Hm|]. by eapply insert_wrote.
Qed.

Lemma reserve_post new mark_token group wv s :
  mine new -> (is_Some mark_token -> device_check_enabled config = true) ->
  post (reserve cr config env new mark_token group wv)
    (fun o s' => match o with
                 | ReservedId id => wrote new (lane_of group) s.1 s'.1
                 | DeviceAlreadyClaimed => drift s.1 s'.1
                 end) (ended s.1) s.
Proof.
  intros Hm Hen. unfold reserve. destruct wv as [hmac|].
  - apply post_bind. destruct s as [db c]. unfold post, stmt, run_stmt, txn.
    pose proof (device_txn_spec new group hmac (others env 5 db)) as Hs.
    destruct (device_txn _ new group hmac (others env 5 db)) as [[id|[o|e]] tx];
      destruct (fate env 5) eqn:E5; simpl in *; try (by apply ended_err, (drift_at 5)).
    + destruct Hs as (db1 & Hi & Hr). by eapply insert_wrote.
    + destruct Hs as (db1 & Hi & Hr). eapply wrote_lost; [exact E5|exact Hm|]. by eapply insert_wrote.
    + subst o. by apply (drift_at 5).
  - destruct mark_token as [token|].
    + rewrite Hen by done. simpl. apply post_bind. eapply post_mono; [apply query_drift| |done].
      intros [[]|] s1 Hf; [|by apply ended_fail].
      apply post_bind. eapply post_mono; [apply apple_drift| |done].
      intros used s2 [Hf2 _]. destruct used as [[]|e]; [by eapply drift_trans| |by apply ended_fail; eauto].
      eapply post_mono; [by apply mark_and_commit_post| |intros ? ? ?; eapply drift_ended; [|done]; eauto].
      intros o s3 (id & -> & Hi). eapply drift_wrote; [|done]. eauto.
    + apply post_bind. destruct s as [db c]. unfold post, stmt, run_stmt. rewrite insert_reservation_with.
      destruct (insert_with _ _ _ _ (others env 5 db)) as [[id|e] tx] eqn:Ei;
        destruct (fate env 5) eqn:E5; simpl; try (by apply ended_err, (drift_at 5)).
      * by eapply insert_wrote.
      * eapply wrote_lost; [exact E5|exact Hm|]. by eapply insert_wrote.
      * apply ended_err, (drift_at 5). simpl. by apply insert_with_Err in Ei as [<- _].
      * apply ended_err, (drift_at 5). simpl. by apply insert_with_Err in Ei as [<- _].
Qed.

(** The answer of a lane to the claim [new]. *)
Definition answered (new : NewReservation) (db : Db) (r : Response) (s' : St) : Prop :=
  match r with
  | Accepted body =>
      base_username body = nr_base new /\ rr_digits body = nr_digits new /\
      rr_username body = nr_full_username new /\
      wrote new (lane_status body) db s'.1
  | PaymentRequired => drift db s'.1
  end.

Lemma voucher_lane_post key new s :
  mine new -> post (voucher_lane cr env key new) (answered new s.1) (ended s.1) s.
Proof.
  intros Hm. unfold voucher_lane. apply post_bind. eapply post_mono; [apply query_drift| |done].
  intros [st|] s1 Hf; [|by apply ended_fail].
  destruct (Eligibility.decide_lane (Some st)) as [[]|e]; [|by apply ended_fail..].
  destruct s1 as [db c]. unfold post.
  destruct (Eligibility.redeem_and_reserve _ _ _ _ key new (others env 2 db)) as [[i|e] db'] eqn:E.
  - apply Eligibility.redeem_inserts in E as (tx & Hr & _ & Hi). unfold answered, lane_status. simpl.
    do 3 (split; [done|]). eapply drift_wrote; [exact Hf|]. exists tx, db', i, 1, db'.
    split; [by apply (drift_at 2)|]. split; [exact Hi|]. split; [done|apply drift_refl].
  - assert (fate env 2 = AckLost \/ fate env 2 <> AckLost) as [Hl|Hl] by (destruct (fate env 2); auto).
    + rewrite Hl in E. apply Eligibility.redeem_lost in E as (-> & [Hr|(tx & i & Hr & Hi)]).
      * apply ended_err. eapply drift_trans; [exact Hf|]. by apply (drift_at 2).
      * eapply wrote_lost; [exact Hl|exact Hm|]. eapply drift_wrote; [exact Hf|]. exists tx, db', i, 1, db'.
        split; [by apply (drift_at 2)|]. split; [exact Hi|]. split; [done|apply drift_refl].
    + assert (drift s.1 db') as Hu.
      { eapply drift_trans; [exact Hf|]. apply (drift_at 2).
        by apply Eligibility.redeem_Err in E as [<- _]. }
      destruct e; by apply ended_err.
Qed.

Lemma standard_lane_post header body new s :
  mine new -> post (standard_lane cr config env auth header body new) (answered new s.1) (ended s.1) s.
Proof.
  intros Hm. unfold standard_lane. apply post_bind. eapply post_mono; [apply widevine_gate_post| |done].
  intros [wv|] s1 Hf1; [|done].
  apply post_bind. eapply post_mono; [apply device_check_gate_post| |intros; by eapply drift_ended].
  intros [t av] s2 [Hf2 Ht]. apply post_bind.
  eapply post_mono; [by apply reserve_post| |intros ? ? ?; eapply drift_ended; [|done]; eauto].
  intros [id|] s3 H3; [|eapply drift_trans; [|done]; eauto].
  apply (drift_wrote s.1) in H3; [|by eauto]. apply post_bind.
  unfold standing. destruct (queue_enabled config) eqn:Eq; simpl.
  - apply post_bind. eapply post_mono; [apply query_drift| |done]. intros r s4 Hf4.
    unfold post, hret, answered, lane_status. simpl. do 3 (split; [done|]). by eapply wrote_drift.
  - unfold post, hret, answered, lane_status. simpl. done.
Qed.

Lemma check_reserved_post parsed base s :
  post (check_reserved env parsed base) (fun _ s' => s' = s) (ended s.1) s.
Proof.
  unfold check_reserved. destruct (reserved_name parsed) as [n|]; [|done].
  apply post_bind. apply post_lift; [|by intros; apply ended_err].
  intros st _. destruct (rejects st); [by apply ended_fail|done].
Qed.
End mine.

(** The digit chosen is free on the chain and in the outbox, and in the pool. *)
Lemma select_digit_Ok rng tk pref base d :
  select_digit rng tk pref base = Ok d -> (forall p, pref = Some p -> 1 <= p <= 99) ->
  1 <= d <= 99 /\ d ∉ tk.
Proof.
  unfold select_digit. intros Hs Hp. destruct pref as [p|].
  - case_bool_decide; simplify_eq. eauto.
  - pose proof (choose_elem rng (available_digits tk)) as Hc.
    destruct (choose rng _) as [x|]; simplify_eq. by apply elem_of_available.
Qed.

Lemma base_state_at_taken chain pending b :
  base_state_at chain pending = Ok b -> exists c, chain = Ok c /\ taken c ⊆ taken b.
Proof.
  unfold base_state_at, merge_discriminators. intros Hb. destruct chain as [c|]; [|done].
  simpl in Hb. destruct pending as [p|]; simplify_eq/=. exists c. set_solver.
Qed.
End outcome.

(** ** iOS devices over time *)

#[export] Instance NewReservation_eq_dec : EqDecision NewReservation.
Proof. solve_decision. Defined.
#[export] Instance Row_eq_dec : EqDecision Row.
Proof. solve_decision. Defined.

Section ios.
Context {apple_service : AppleService} (cr : Crates) {laws : AppleLaws (bits_of_json cr)}.

(** One hard-mode claim: the advisory lock serialises it, so the rest of the
    system acts before it ([ia_before]). *)
Record IosAttempt := {
  ia_before : Db -> Db;
  ia_config : RegisterConfig;
  ia_env : Env;
  ia_new : NewReservation;
  ia_token : bytes;
  ia_group : option Z;
}.

Definition alone (e : Env) : Env :=
  {| rate := rate e; block := block e; chain_base := chain_base e;
     chain_reservation := chain_reservation e; free_balance := free_balance e; crl := crl e;
     rng := rng e; db_now := db_now e; app_now := app_now e; others := fun _ db => db;
     fate := fate e |}.

Definition ios_attempt (a : IosAttempt) (s : St) : (ReserveOutcome + exit) * St :=
  reserve cr (ia_config a) (alone (ia_env a)) (ia_new a) (Some (ia_token a)) (ia_group a) None s.

(** For each claim: its device, and whether a row was written. *)
Fixpoint ios_claims (l : list IosAttempt) (s : St) : list (bytes * bool) :=
  match l with
  | [] => []
  | a :: l' =>
      let s0 := (ia_before a s.1, s.2) in
      let s1 := (ios_attempt a s0).2 in
      (device_of (ia_token a), bool_decide (db_reservations s1.1 <> db_reservations s0.1))
        :: ios_claims l' s1
  end.

Definition rows_for (d : bytes) (l : list (bytes * bool)) : nat :=
  length (filter (fun x => x.1 = d /\ x.2 = true) l).

(** Every claim keeps the marks; a marked device writes no row, and a row written
    leaves its device marked. *)
Lemma ios_attempt_spec a s :
  let s' := (ios_attempt a s).2 in
  (forall d, claimed d s.2.2 -> claimed d s'.2.2) /\
  (db_reservations s'.1 = db_reservations s.1 \/
   ~ claimed (device_of (ia_token a)) s.2.2 /\ claimed (device_of (ia_token a)) s'.2.2).
Proof.
  destruct s as [db c]. unfold ios_attempt, reserve.
  destruct (device_check_enabled (ia_config a)); [simpl|split; [done|by left]].
  unfold hbind at 1, query, stmt, run_stmt, apple, hbind. simpl.
  destruct (fate (ia_env a) 5); simpl; [|split; [done|by left]..].
  set (now := unix_timestamp _). set (t := ia_token a).
  destruct (already_used _ _ _ now t c) as [used c1] eqn:Eu.
  assert (forall d, claimed d c.2 -> claimed d c1.2) as Hp1.
  { intros d Hd. pose proof (already_used_persist (from_utf8_lossy cr) (bits_of_json cr) (jwt_encode cr)
      d now t c Hd) as Hp. by rewrite Eu in Hp. }
  assert (claimed (device_of t) c.2 -> used <> Ok false) as Hu.
  { intros Hd. pose proof (already_used_claimed (from_utf8_lossy cr) (bits_of_json cr) (jwt_encode cr)
      now t c Hd) as Hn. by rewrite Eu in Hn. }
  destruct used as [[]|e]; [by split; [|left]| |by split; [|left]].
  unfold mark_and_commit. simpl. destruct (fate (ia_env a) 6); [|by split; [|left]..].
  destruct (insert_reservation _ _ _ db) as [[id|e] tx]; [|by split; [|left]].
  fold now. destruct (register_device _ _ now t c1) as [m c2] eqn:Em.
  assert (forall d, claimed d c.2 -> claimed d c2.2) as Hp2.
  { intros d Hd. pose proof (register_device_persist (from_utf8_lossy cr) (bits_of_json cr) (jwt_encode cr)
      d now t c1 (Hp1 d Hd)) as Hp. by rewrite Em in Hp. }
  destruct m as [[]|e]; [|by split; [|left]].
  pose proof (register_device_marks (from_utf8_lossy cr) (bits_of_json cr) (jwt_encode cr) now t c1) as Hm.
  rewrite Em in Hm. specialize (Hm eq_refl).
  destruct (fate (ia_env a) 7); simpl; (split; [done|]); [right|by left|right]; split; auto;
    intros Hd; by destruct (Hu Hd).
Qed.

Lemma ios_claims_claimed d l s :
  claimed d s.2.2 -> rows_for d (ios_claims l s) = 0%nat.
Proof.
  revert s; induction l as [|a l IH]; intros s Hd; [done|]. simpl.
  destruct (ios_attempt_spec a (ia_before a s.1, s.2)) as [Hp Hc]. simpl in *.
  unfold rows_for in *. rewrite filter_cons. case_decide as Hx; [|by apply IH, Hp].
  destruct Hx as [<- Hx]. simpl in Hx. bool_prop. by destruct Hc as [Hc|[Hc _]].
Qed.
End ios.

(** ** Properties *)

(** C5. What a registration request does, on every branch, whatever the rest of the
    system does before any of its statements and whatever statement fails or loses its
    acknowledgement.  A 202 reports the claim that was written: exactly one row was
    inserted, for the caller's account and the reported username, whose base is valid
    and whose digits are between 01 and 99 and free on the chain as it was read for this
    request, [QUEUED] exactly when the body says so.  The ineligible outcome and every
    error reply write no claim, with one exception, which the theorem states: a
    persistence failure for a commit whose acknowledgement was lost, and then exactly the
    one claim of this request was written.  An early return is never a 202, and the
    handler does not panic. *)
Theorem register_outcome {apple_service : AppleService} cr config env auth header body s :
  let mine new := nr_account_id new = subject auth /\ is_valid_base (nr_base new) = true /\
    nr_full_username new = nr_base new +:+ "." +:+ nr_digits new in
  match register cr config env auth header body s with
  | (inl (Accepted r), s') =>
      exists new, reported env auth r new /\ wrote env new (lane_status r) s.1 s'.1
  | (inl PaymentRequired, s') => drift env s.1 s'.1
  | (inr (Returned (Ok (Accepted _))), _) | (inr Panicked, _) => False
  | (inr (Returned (Err PersistenceFailed)), s') => drift env s.1 s'.1 \/ ack_lost env mine s.1 s'.1
  | (inr (Returned _), s') => drift env s.1 s'.1
  end.
Proof.
  intros mine. set (Q := fun r (s' : St) => match r with
    | Accepted b => exists new, reported env auth b new /\ wrote env new (lane_status b) s.1 s'.1
    | PaymentRequired => drift env s.1 s'.1 end).
  enough (post (register cr config env auth header body) Q (ended env mine s.1) s) as Hp.
  { unfold post in Hp. destruct (register _ _ _ _ _ _ s) as [[[b|]|[[[]|[]]|]] s']; exact Hp. }
  pose proof (drift_refl env s.1) as Hrefl.
  unfold register. apply post_bind.
  unfold check_rate_limit. destruct (rate env); [by apply ended_fail|].
  do 4 (apply post_bind, post_lift; [intros ? ?|by intros; apply ended_err]).
  match goal with |- context [pr_username ?x] => rename x into parsed end.
  match goal with H : validate_register _ _ _ _ _ _ _ = Ok parsed |- _ => rename H into Hv end.
  apply validate_register_Ok in Hv as (q & _ & (Hb & Hd & _)%validate_Ok).
  apply post_bind. eapply post_mono; [apply query_drift| |done]. intros pending s1 Hf.
  apply post_bind, post_lift; [|by intros; apply ended_err]. intros base Hbase.
  apply post_bind. eapply post_mono; [apply (check_reserved_post env mine)| |intros ? ?; by apply drift_ended].
  intros _ s2 ->.
  apply post_bind, post_lift; [|by intros; apply ended_err]. intros d Hsel.
  apply select_digit_Ok in Hsel as [Hd99 Hfree]; [|by intros p Hp; destruct (Hd p Hp)].
  destruct (base_state_at _ _) as [b|] eqn:Ebs; simplify_eq/=.
  apply base_state_at_taken in Ebs as (c & Hc & Hsub).
  set (new := build_reservation _ _ _ _). assert (mine new) as Hmine by done.
  assert (forall r s', answered env new s1.1 r s' -> Q r s') as Hans.
  { intros [b'|] s'; [|by apply drift_trans]. intros (E1 & E2 & E3 & Hi).
    exists new. unfold reported. rewrite E1, E2, E3. simpl. split; [|by eapply drift_wrote].
    do 5 (split; [done|]). split; [done|]. exists d, c. split; [done|]. split; [done|].
    split; [done|]. set_solver. }
  destruct (pr_voucher parsed) as [key|];
    (eapply post_mono; [by apply voucher_lane_post || by apply standard_lane_post|done|
       intros ? ?; by apply drift_ended]).
Qed.

(** C9. One registration per iOS device: in any sequence of hard-mode claims over
    the database and Apple's service, whatever the rest of the system does between
    them, whatever fails (a statement, a lost acknowledgement of the commit, a
    lost or refused Apple call), at most one claim per device writes a row. *)
Theorem ios_device_claims_once {apple_service : AppleService} cr {laws : AppleLaws (bits_of_json cr)}
    d l s :
  (rows_for d (ios_claims cr l s) <= 1)%nat.
Proof.
  revert s; induction l as [|a l IH]; intros s; [unfold rows_for; simpl; lia|]. simpl.
  destruct (ios_attempt_spec cr a (ia_before a s.1, s.2)) as [_ Hc]. simpl in *.
  set (s1 := (ios_attempt cr a _).2) in *. specialize (IH s1).
  unfold rows_for in *. rewrite filter_cons. case_decide as Hx; [|done].
  destruct Hx as [<- Hx]. simpl in Hx. bool_prop. destruct Hc as [Hc|[_ Hc]]; [done|].
  pose proof (ios_claims_claimed cr (device_of (ia_token a)) l s1 Hc) as Hz.
  unfold rows_for in Hz. simpl. rewrite Hz. lia.
Qed.

(** *** Witnesses *)

(** A service that stores the devices marked so far; a token is its device. *)
#[local] Instance demo_apple : AppleService := {|
  Apple := gset bytes;
  serve endpoint t bits a :=
    match bits with
    | Some _ => (Replied 200 [], {[t]} ∪ a)
    | None => (Replied 200 (if bool_decide (t ∈ a) then [1] else as_bytes NO_BITS_MARKER), a)
    end;
|}.

Definition demo_crates : Crates :=
  {| x509 := KeyAttestProps.demo_crypto; hmac_sha256 := fun k m => k ++ m; b64_decode := fun s => Some (as_bytes s);
     json_from_slice := fun _ => Some JNull; decode_request := fun _ => Ok demo_request;
     account_from_str := fun _ => Some []; sr25519_verify := fun _ _ _ => true;
     from_utf8_lossy := fun _ => "body"%string;
     bits_of_json := fun b => if decide (b = [1]) then Some {| bit0 := false; bit1 := true |} else None;
     jwt_encode := fun _ _ => Ok "jwt"%string |}.

#[local] Instance demo_laws : AppleLaws (bits_of_json demo_crates).
Proof.
  refine {| device_of := fun t => t; claimed := fun d (a : @Apple demo_apple) => d ∈ (a : gset bytes) |}.
  - intros t a st body a' [= <- <- <-] _. set_solver.
  - intros t a st body a' Ht [= <- <- <-] _. by rewrite bool_decide_eq_true_2.
  - intros d ep t bits a Hd _. simpl. destruct bits; set_solver.
Defined.

Definition demo_register_config : RegisterConfig :=
  {| rc_validation := demo_config; enforce_auth := true; queue_enabled := false;
     device_check_enabled := true; widevine := None; android_package_names := [];
     android_signing_digest_playstore := None; android_signing_digest_website := None |}.

Definition demo_env : Env :=
  {| rate := None; block := Ok Plain;
     chain_base := fun _ => Ok {| taken := ∅; full_name_owned := false; queue_len := 0; queue_capacity := 8 |};
     chain_reservation := fun _ => Ok {| rs_full_name_owned := false; rs_queue_len := 0; rs_queue_capacity := 8 |};
     free_balance := fun _ => BalanceOk 0; crl := Ok ∅; rng := 0; db_now := secs 1000;
     app_now := secs 1000; others := fun _ db => db; fate := fun _ => Fine |}.

Definition demo_attempt (digits : string) : IosAttempt :=
  {| ia_before := fun db => db; ia_config := demo_register_config; ia_env := demo_env;
     ia_new := build_reservation {| subject := "0xaa"; platform := Some "ios"%string |}
                 {| pr_candidate_account_id := "alice"; pr_username := "tallesx";
                    pr_preferred_digits := None; pr_candidate_signature := [];
                    pr_ring_vrf_key := []; pr_proof_of_ownership := [];
                    pr_consumer_registration_signature := []; pr_identifier_key := [];
                    pr_payload_version := V1; pr_voucher := None; pr_dotns := None |}
                 digits ("tallesx." +:+ digits);
     ia_token := [7]; ia_group := None |}.

Lemma ios_device_claims_once_witness :
  ios_claims demo_crates [demo_attempt "01"; demo_attempt "02"] (empty_db, (None, ∅ : gset bytes))
    = [([7], true); ([7], false)] /\
  (rows_for [7%Z] (ios_claims demo_crates [demo_attempt "01"; demo_attempt "02"]
     (empty_db, (None, ∅ : gset bytes))) <= 1)%nat.
Proof. split; [vm_compute; reflexivity|apply ios_device_claims_once]. Defined.

(** A request through the whole handler. *)
Example register_runs :
  match register demo_crates demo_register_config demo_env
          {| subject := "0xaa"; platform := Some "ios"%string |} (Some (Some "abcd"%string)) []
          (empty_db, (None, ∅ : gset bytes)) with
  | (inl (Accepted r), s') =>
      rr_username r = "tallesx.07"%string /\ size (db_reservations s'.1) = 1%nat /\ size s'.2.2 = 1%nat
  | _ => False
  end.
Proof. vm_compute. done. Qed.

End RegisterProps.
