(* ===== verification/AndroidProps.v ===== *)
(** * AndroidProps: one Android device, one claim

    What an enforced Android registration has proved about its device by the time
    it is accepted ([widevine.rs], [usernames/register.rs]), and that the
    certificate chain of one claim serves no other. *)

From S2P Require Import Prelude Strings Schema Lease Outbox Queue Eligibility DeviceGate DeviceCheck.
From S2P Require Import Der DerProps KeyAttest KeyAttestProps Signature Usernames Request Registration RegisterProps.

#[local] Open Scope Z_scope.

Module AndroidProps.
Export RegisterProps.

(** ** Evidence *)

Section evidence.
Context (cr : Crates) (config : RegisterConfig) (wv : WidevineConfig).

(** Accepted evidence: the chain attests the hash of the claim, and the pseudonym
    is that of the device named in it. *)
Lemma verify_Ok revoked key now_unix raw v :
  verify cr config wv revoked key now_unix raw = Ok v ->
  KeyAttestProps.attested_challenge (x509 cr) (chain_der raw) = Some (sha256 cr (evidence_preimage raw key)) /\
  ve_challenge v = ev_challenge raw /\
  ve_hmac v = device_hmac (hmac_sha256 cr) (hmac_key wv) (device_id raw).
Proof.
  unfold verify. intros H.
  destruct (android_signing_digest_playstore config) as [ps|]; [|done].
  destruct (android_signing_digest_website config) as [ws|]; [|done].
  destruct (KeyAttest.verify_chain _ _ _) as [[]|e] eqn:E; [|done]. injection H as <-.
  apply KeyAttestProps.verify_chain_challenge in E. done.
Qed.

(** The widths the wire format fixes. *)
Definition fixed (raw : RawEvidence) (key : bytes) : Prop :=
  length (ev_challenge raw) = 32%nat /\ length key = 32%nat /\ length (device_id raw) = 32%nat.

Lemma evidence_preimage_inj raw raw' key key' :
  fixed raw key -> fixed raw' key' -> evidence_preimage raw key = evidence_preimage raw' key' ->
  ev_challenge raw = ev_challenge raw' /\ key = key' /\ device_id raw = device_id raw'.
Proof.
  intros (H1 & H2 & H3) (H1' & H2' & H3') H. unfold evidence_preimage in H.
  apply app_inv_head in H. apply app_inj_1 in H as [? H]; [|congruence].
  by apply app_inj_1 in H; [|congruence].
Qed.

(** A SHA-256 collision between the preimages of two claims. *)
Definition collision (raw raw' : RawEvidence) (key key' : bytes) : Prop :=
  evidence_preimage raw key <> evidence_preimage raw' key' /\
  sha256 cr (evidence_preimage raw key) = sha256 cr (evidence_preimage raw' key').
End evidence.

(** ** The handler *)

Section handler.
Context {apple_service : AppleService} (cr : Crates) (config : RegisterConfig) (env : Env)
  (auth : AuthSubject) (wv : WidevineConfig).

(** The evidence in the body: a certificate chain that the revocation list of this
    request, the pinned roots and the configured packages and digests accept, and that
    attests the hash of a challenge, the caller's key and a device id; [hmac] is the
    pseudonym of that device. *)
Record evidence_of (body : Json) (raw : RawEvidence) (hmac : bytes) : Prop := {
  eo_extract : extract (b64_decode cr) body = Ok (Some raw);
  eo_hmac : hmac = hmac_sha256 cr (hmac_key wv) (HMAC_CONTEXT ++ device_id raw);
  eo_chain : exists key revoked playstore website,
    parse_subject (subject auth) = Some key /\ crl env = Ok revoked /\
    android_signing_digest_playstore config = Some playstore /\
    android_signing_digest_website config = Some website /\
    KeyAttest.verify_chain (x509 cr) (chain_der raw)
      {| KeyAttest.vp_challenge := sha256 cr (as_bytes DOMAIN ++ ev_challenge raw ++ key ++ device_id raw);
         KeyAttest.vp_package_names := android_package_names config;
         KeyAttest.vp_playstore_digest := playstore; KeyAttest.vp_website_digest := website;
         KeyAttest.trusted_roots_der := KeyAttest.google_roots_der (b64_decode cr);
         KeyAttest.trusted_verified_boot_keys := KeyAttest.GRAPHENEOS_VERIFIED_BOOT_KEYS;
         KeyAttest.revoked_serials := revoked;
         KeyAttest.now_unix := unix_timestamp (app_now env) |} = Ok tt;
}.

Lemma verify_evidence body raw key revoked v :
  extract (b64_decode cr) body = Ok (Some raw) -> parse_subject (subject auth) = Some key ->
  crl env = Ok revoked -> verify cr config wv revoked key (unix_timestamp (app_now env)) raw = Ok v ->
  evidence_of body raw (ve_hmac v) /\ ve_challenge v = ev_challenge raw.
Proof.
  intros Hx Hk Hc. unfold verify.
  destruct (android_signing_digest_playstore config) as [ps|] eqn:Eps; [|done].
  destruct (android_signing_digest_website config) as [ws|] eqn:Ews; [|done].
  destruct (KeyAttest.verify_chain _ _ _) as [[]|e] eqn:E; [|done]. intros [= <-]. split; [|done].
  constructor; [done|done|]. by exists key, revoked, ps, ws.
Qed.

(** The challenge [c] was unspent in [db], where its row was spent: [spent] is the
    database then. *)
Definition spends (c : bytes) (db spent : Db) : Prop :=
  consume (db_now env) c db = (true, spent) /\
  (exists row, db_challenges db !! c = Some row /\ c_consumed_at row = None /\ db_now env < c_expires_at row) /\
  DeviceGate.taken c spent.

(** What the gate did, from [db] to [db']: it spent the challenge of the evidence, and
    found no claim of the device afterwards. *)
Definition gate_passed (body : Json) (hmac : bytes) (db db' : Db) : Prop :=
  exists raw spent, evidence_of body raw hmac /\ spends (ev_challenge raw) (others env 3 db) spent /\
    db' = others env 4 spent /\ db_devices db' !! hmac = None.

Lemma widevine_gate_bound body s :
  widevine config = Some wv -> enforce wv = true -> platform auth = Some "android"%string ->
  post (widevine_gate cr config env auth body)
    (fun g s' => forall d, g = WvProceed d -> exists hmac, d = Some hmac /\ gate_passed body hmac s.1 s'.1)
    (fun _ _ => True) s.
Proof.
  intros Hwv Hen Hpl. unfold widevine_gate. rewrite Hwv. unfold reject. rewrite Hen, Hpl.
  destruct (extract _ body) as [[raw|]|v] eqn:Ex; [|by rewrite bool_decide_eq_true_2|done].
  destruct (crl env) as [revoked|e] eqn:Ec; [|done].
  destruct (parse_subject (subject auth)) as [key|] eqn:Ek; [|done].
  destruct (verify cr config wv revoked key _ raw) as [v|v] eqn:Ev; [|done].
  destruct (verify_evidence _ _ _ _ _ Ex Ek Ec Ev) as [He Hch]. rewrite Hch.
  destruct s as [db c]. unfold post, hbind at 1, stmt, run_stmt.
  destruct (fate env 3); simpl; [|done..].
  pose proof (consume_ok (db_now env) (ev_challenge raw) (others env 3 db)) as Hok.
  destruct (consume _ _ (others env 3 db)) as [[] spent] eqn:Econ; simpl; [|done].
  destruct (Hok eq_refl) as [Hrow Htaken].
  unfold hbind, query, stmt, run_stmt. destruct (fate env 4); simpl; [|done..].
  destruct (seen (ve_hmac v) (others env 4 spent)) eqn:Es; simpl; [done|].
  intros d [= <-]. exists (ve_hmac v). split; [done|]. exists raw, spent. split_and!; [done|done|done|].
  unfold seen in Es. by destruct (db_devices _ !! _).
Qed.

(** The transaction entered in [db] inserted row [id] for [new] and gave it the device,
    which had none. *)
Definition claimed_by (new : NewReservation) (hmac : bytes) (id : Z) (db tx : Db) : Prop :=
  exists group status queue_group,
    device_txn (db_now env) new group hmac db = (Ok id, tx) /\
    claims tx = <[id := fresh_row (db_now env) new status queue_group]> (claims db) /\
    db_devices db !! hmac = None /\
    db_devices tx = <[hmac := {| d_status := WPending; d_reservation_id := Some id |}]> (db_devices db).

Lemma insert_with_devices now new st group db r db' :
  insert_with now new st group db = (r, db') -> db_devices db' = db_devices db.
Proof. unfold insert_with. intros H. repeat destr_match_in H; by simplify_eq/=. Qed.

Lemma device_txn_claims new group hmac db id db' :
  device_txn (db_now env) new group hmac db = (Ok id, db') -> claimed_by new hmac id db db'.
Proof.
  intros H. exists group, (lane_of group), (default 1 group). split; [done|].
  unfold device_txn in H. rewrite insert_reservation_with in H.
  destruct (insert_with _ _ _ _ db) as [[i|e] db1] eqn:Ei; [|done].
  pose proof (insert_with_devices _ _ _ _ _ _ _ Ei) as Hd. unfold insert_pending in H. rewrite <-Hd.
  destruct (db_devices db1 !! hmac) eqn:Ed; [done|]. injection H as -> <-.
  apply insert_with_Ok in Ei as (-> & -> & _). done.
Qed.

Lemma reserve_bound new mark_token group hmac s :
  post (reserve cr config env new mark_token group (Some hmac))
    (fun o s' => forall id, o = ReservedId id -> claimed_by new hmac id (others env 5 s.1) s'.1)
    (fun _ _ => True) s.
Proof.
  destruct s as [db c]. unfold reserve. unfold post, hbind, stmt, run_stmt.
  destruct (fate env 5); simpl; [|done..]. unfold txn.
  destruct (device_txn _ new group hmac (others env 5 db)) as [[id|[o|e]] tx] eqn:E; simpl.
  - intros i [= <-]. by eapply device_txn_claims.
  - pose proof (device_txn_spec env new group hmac (others env 5 db)) as Hs. rewrite E in Hs. by subst o.
  - done.
Qed.

(** What an accepted claim did, from the database [db] the lane starts with to the one
    the handler leaves: the gate, then the transaction, then at most a read. *)
Definition bound_claim (new : NewReservation) (body : Json) (db db' : Db) : Prop :=
  exists hmac id db1 tx, gate_passed body hmac db db1 /\
    claimed_by new hmac id (others env 5 db1) tx /\ (db' = tx \/ db' = others env 8 tx).

Lemma device_check_gate_db header s :
  post (device_check_gate cr config env auth header) (fun _ s' => s'.1 = s.1) (fun _ _ => True) s.
Proof.
  unfold device_check_gate. destruct (_ && _); [|done]. apply post_bind. destruct s as [db c].
  unfold post at 1, apple. destruct (evaluate _ _ _ _ _ c) as [v c'].
  destruct (decide_gate v _); try done. by destruct (device_token_bytes _ header).
Qed.

Lemma standard_lane_bound header body new s :
  widevine config = Some wv -> enforce wv = true -> platform auth = Some "android"%string ->
  post (standard_lane cr config env auth header body new)
    (fun r s' => forall b, r = Accepted b ->
       rr_username b = nr_full_username new /\ bound_claim new body s.1 s'.1) (fun _ _ => True) s.
Proof.
  intros Hwv Hen Hpl. unfold standard_lane. apply post_bind.
  eapply post_mono; [by apply widevine_gate_bound| |done].
  intros [d|] s1 Hg; [|done]. destruct (Hg d eq_refl) as (hmac & -> & Hb).
  apply post_bind. eapply post_mono; [apply device_check_gate_db|intros [t av] s2 Hs2|done].
  set (group := if queue_enabled config then _ else _).
  apply post_bind. eapply post_mono; [apply reserve_bound| |done]. intros [id|] s3 H3; [|done].
  specialize (H3 id eq_refl). rewrite Hs2 in H3. apply post_bind. unfold standing.
  destruct group as [g|].
  - apply post_bind. destruct s3 as [db3 c3]. unfold post at 1, query, stmt.
    destruct (run_stmt (fate env 8) _ (others env 8 db3)) as [r db4] eqn:E.
    intros b [= <-]. split; [done|]. exists hmac, id, s1.1, db3. split_and!; [done|done|right]. simpl.
    unfold run_stmt in E. destruct (fate env 8); by simplify_eq/=.
  - intros b [= <-]. split; [done|]. exists hmac, id, s1.1, s3.1. split_and!; [done|done|by left].
Qed.
End handler.

(** ** Properties *)

(** One attested chain, one claim: when the same certificate chain is accepted as
    device evidence twice, under whatever configuration, revocation list and
    clock, both claims carry the same challenge, the same account key and the same
    device id, or two different preimages collide under SHA-256. *)
Theorem evidence_binds_claim cr config config' wv wv' revoked revoked' key key' now now' raw raw' v v' :
  verify cr config wv revoked key now raw = Ok v ->
  verify cr config' wv' revoked' key' now' raw' = Ok v' ->
  chain_der raw = chain_der raw' -> fixed raw key -> fixed raw' key' ->
  (ev_challenge raw = ev_challenge raw' /\ key = key' /\ device_id raw = device_id raw') \/
  collision cr raw raw' key key'.
Proof.
  intros (H & _)%verify_Ok (H' & _)%verify_Ok Hc Hf Hf'. rewrite Hc, H' in H. injection H as H.
  destruct (decide (evidence_preimage raw key = evidence_preimage raw' key')) as [E|E].
  - left. by apply evidence_preimage_inj.
  - right. by split.
Qed.

(** C28. An Android claim accepted under enforcement (other than by voucher) carries
    verified evidence of its device, used in the states this request ran in: a chain
    that attests the hash of a challenge, this account's key and the device id; the
    challenge's row was in the table, unspent and unexpired, when the request spent it;
    the device was in no claim when the request looked, after that; and the transaction
    that inserted the row for the reported username found it still in none and gave it
    to that row. *)
Theorem android_claim_binds_device {apple_service : AppleService} cr config env auth wv header body s r s' :
  widevine config = Some wv -> enforce wv = true -> platform auth = Some "android"%string ->
  register cr config env auth header body s = (inl (Accepted r), s') ->
  registration_outcome r <> Some "INSTANT"%string ->
  exists value new, json_from_slice cr body = Some value /\
    nr_account_id new = subject auth /\ nr_full_username new = rr_username r /\
    bound_claim cr config env auth wv new value (others env 0 s.1) s'.1.
Proof.
  intros Hwv Hen Hpl Hrun Hout.
  enough (post (register cr config env auth header body) (fun resp s' =>
    forall b, resp = Accepted b -> registration_outcome b <> Some "INSTANT"%string ->
    exists value new, json_from_slice cr body = Some value /\
      nr_account_id new = subject auth /\ nr_full_username new = rr_username b /\
      bound_claim cr config env auth wv new value (others env 0 s.1) s'.1) (fun _ _ => True) s) as Hp.
  { unfold post in Hp. rewrite Hrun in Hp. by apply Hp. }
  clear r s' Hrun Hout. unfold register. apply post_bind.
  unfold check_rate_limit. destruct (rate env); [done|]. cbn -[post].
  apply post_bind, post_lift; [intros _ _|done].
  apply post_bind, post_lift; [intros value Hval|done].
  assert (json_from_slice cr body = Some value) as Hjson.
  { unfold parse_json_body in Hval. destruct (json_from_slice cr body); by simplify_eq. }
  do 2 (apply post_bind, post_lift; [intros ? _|done]).
  match goal with |- context [pr_username ?x] => rename x into parsed end.
  apply post_bind. apply (post_mono _ (fun _ s1 => s1.1 = others env 0 s.1) _ (fun _ _ => True));
    [|intros pending s1 Hs1|done].
  { destruct s as [db c]. unfold post, query, stmt, run_stmt. by destruct (fate env 0). }
  apply post_bind, post_lift; [intros base _|done].
  apply post_bind. eapply post_mono; [apply (check_reserved_post env (fun _ => True))|intros [] s2 ->|done].
  apply post_bind, post_lift; [intros d _|done]. set (new := build_reservation _ _ _ _).
  destruct (pr_voucher parsed) as [k|].
  - unfold voucher_lane. apply post_bind. apply (post_mono _ (fun _ _ => True) _ (fun _ _ => True)); [|intros st s3 _|done].
    { unfold post, query, stmt. destruct s1. by destruct (run_stmt _ _ _). }
    destruct st as [st|]; [|done]. destruct (Eligibility.decide_lane (Some st)) as [[]|]; [|done|done].
    destruct s3 as [db c]. unfold post. destruct (Eligibility.redeem_and_reserve _ _ _ _ _ _ _) as [[i|[]] db'];
      [|done..]. intros b [= <-] Hn. by destruct Hn.
  - eapply post_mono; [by apply standard_lane_bound| |done].
    intros resp s3 H b -> _. destruct (H b eq_refl) as [Hu Hb]. rewrite Hs1 in Hb. by exists value, new.
Qed.

(** *** An Android claim to run

    Certificates are the strings that name them; the leaf attests the hash of the
    claim below. *)

Definition demo_id (n : nat) : string := zeros n.
Definition demo_key : bytes := replicate 32 0.
Definition demo_raw : RawEvidence :=
  {| chain_der := [as_bytes "leaf"; as_bytes "intermediate"];
     ev_challenge := as_bytes (demo_id 32); device_id := as_bytes (demo_id 32) |}.

Definition android_description : Der.KeyDescription :=
  {| Der.attestation_security_level := 1; Der.key_security_level := 1;
     Der.attestation_challenge := evidence_preimage demo_raw demo_key;
     Der.package_names := ["io.pcf.polkadotapp"%string]; Der.signing_digests := [[7; 7; 7]];
     Der.root_of_trust := Some {| Der.verified_boot_key := [9]; Der.device_locked := true;
                                  Der.verified_boot_state := 0 |} |}.
Definition android_extension : bytes :=
  DerProps.fixture android_description "io.pcf.polkadotapp" 0 [9].

Definition android_crypto : X509.Crypto :=
  {| X509.from_der := fun b =>
       if bool_decide (b = as_bytes "leaf")
       then Ok (KeyAttestProps.demo_cert 1 2 [(Der.ANDROID_ATTESTATION_OID, android_extension)])
       else if bool_decide (b = as_bytes "intermediate") then Ok (KeyAttestProps.demo_cert 2 3 [])
       else Ok (KeyAttestProps.demo_cert 3 3 []);
     X509.asn1_from_timestamp := fun t => Ok (t mod 100); X509.sha256 := fun b => b; X509.sha384 := fun b => b;
     X509.rsa_from_pkcs1_der := fun b => Ok b; X509.rsa_verify := fun _ _ _ _ => false;
     X509.p256_key := fun b => Ok b; X509.p256_signature := fun b => Ok b;
     X509.p256_verify_prehash := fun key _ sig => bool_decide (key = sig);
     X509.p384_key := fun b => Ok b; X509.p384_signature := fun b => Ok b;
     X509.p384_verify_prehash := fun _ _ _ => false |}.

Definition android_crates : Crates :=
  {| x509 := android_crypto; hmac_sha256 := fun k m => k ++ m; b64_decode := fun s => Some (as_bytes s);
     json_from_slice := fun _ => Some (JObject
       [("attestationChain", JArray [JString "leaf"; JString "intermediate"]);
        ("deviceChallenge", JString (demo_id 32)); ("deviceId", JString (demo_id 32))])%string;
     decode_request := fun _ => Ok demo_request; account_from_str := fun _ => Some [];
     sr25519_verify := fun _ _ _ => true; from_utf8_lossy := fun _ => "body"%string;
     bits_of_json := fun _ => None; jwt_encode := fun _ _ => Ok "jwt"%string |}.

Definition android_wv : WidevineConfig := {| enforce := true; hmac_key := [1] |}.
Definition android_config : RegisterConfig :=
  {| rc_validation := demo_config; enforce_auth := true; queue_enabled := false;
     device_check_enabled := false; widevine := Some android_wv;
     android_package_names := ["io.pcf.polkadotapp"%string];
     android_signing_digest_playstore := Some [7; 7; 7]; android_signing_digest_website := Some [8] |}.

Definition android_auth : AuthSubject :=
  {| subject := "0x" +:+ zeros 64; platform := Some "android"%string |}.

(** The database holds the challenge the claim spends. *)
Definition android_db : Db :=
  (create (secs 990) (secs 990) 60 (as_bytes (demo_id 32)) empty_db).2.

Lemma evidence_binds_claim_witness :
  exists v, verify android_crates android_config android_wv ∅ demo_key 50 demo_raw = Ok v /\
    fixed demo_raw demo_key /\
    ((ev_challenge demo_raw = ev_challenge demo_raw /\ demo_key = demo_key /\
      device_id demo_raw = device_id demo_raw) \/ collision android_crates demo_raw demo_raw demo_key demo_key).
Proof.
  eexists.
  assert (verify android_crates android_config android_wv ∅ demo_key 50 demo_raw = Ok _) as E
    by (vm_compute; reflexivity).
  split; [exact E|].
  assert (fixed demo_raw demo_key) as Hf by (vm_compute; split_and!; reflexivity).
  split; [exact Hf|].
  exact (evidence_binds_claim _ _ _ _ _ _ _ _ _ _ _ _ _ _ _ E E eq_refl Hf Hf).
Defined.

#[local] Instance android_apple : AppleService := {|
  Apple := unit;
  serve endpoint t bits a := (Replied 500 [], a);
|}.

Lemma android_claim_binds_device_witness :
  exists r s', register android_crates android_config demo_env android_auth None [] (android_db, (None, tt))
    = (inl (Accepted r), s') /\
  exists value new, json_from_slice android_crates [] = Some value /\
    nr_account_id new = subject android_auth /\ nr_full_username new = rr_username r /\
    bound_claim android_crates android_config demo_env android_auth android_wv new value android_db s'.1.
Proof.
  eexists. eexists.
  assert (register android_crates android_config demo_env android_auth None [] (android_db, (None, tt))
          = (inl (Accepted _), _)) as E by (vm_compute; reflexivity).
  split; [exact E|].
  apply (android_claim_binds_device (apple_service := android_apple) android_crates android_config demo_env android_auth android_wv None []
           (android_db, (None, tt)) _ _ eq_refl eq_refl eq_refl E).
  discriminate.
Defined.
End AndroidProps.
