(* ===== verification/System.v ===== *)
(** * System: the writer among the other processes

    The statements the API, the queue advancer and its janitor run against the
    shared database, as steps, and that they satisfy what the writer's theorems
    assume of their environment ([never_lands], [keeps_claims], [keeps_final],
    [leaves_open], [keeps_fence]), on both lanes. *)

From S2P Require Import Prelude Strings Schema Lease Outbox Queue Eligibility DeviceGate Signature.
From S2P Require Import WriterLane WriterTx WriterEngine WriterSpec WriterProps WriterPeople WriterDotns WriterClaims Usernames.
From S2P Require Import Request Registration.

#[local] Open Scope Z_scope.

Module System.

Export WriterClaims.

Section steps.
Context (sha256 : bytes -> bytes).

(** A statement or transaction of a process other than the writer, at the
    database clock [now].  Inserts draw an id the table does not hold: [id] is
    the primary key. *)
Inductive service_step (now : Z) (db : Db) : Db -> Prop :=
| sv_insert new group :
    rows_of db !! db_next_id db = None ->
    service_step now db (Registration.insert_reservation now new group db).2
| sv_device new group hmac :
    rows_of db !! db_next_id db = None ->
    service_step now db (txn (Registration.device_txn now new group hmac) db).2
| sv_redeem key new :
    rows_of db !! db_next_id db = None ->
    service_step now db (txn (Eligibility.redeem_txn sha256 now key new) db).2
| sv_challenge app_now ttl challenge : service_step now db (DeviceGate.create now app_now ttl challenge db).2
| sv_consume challenge : service_step now db (DeviceGate.consume now challenge db).2
| sv_promote slot : service_step now db (Queue.promote_slot now slot db).2
| sv_regroup account g : service_step now db (Queue.update_group now account g db)
| sv_drain grace : service_step now db (Queue.fallback_drain now grace db).2
| sv_acquire name holder ttl :
    service_step now db (with_leases (try_acquire now name holder ttl (db_leases db)).2 db)
| sv_renew g ttl : service_step now db (with_leases (renew now g ttl (db_leases db)).2 db).

(** What such a step does to a row: it keeps the claim and both lanes' states,
    except that a waiting claim may be released to the writer. *)
Definition row_kept (r r' : Row) : Prop :=
  (r_status r' = r_status r \/ r_status r = Queued /\ r_status r' = Reserved) /\
  r_dotns_status r' = r_dotns_status r /\ r_new r' = r_new r.

Definition row_new (r : Row) : Prop :=
  (r_status r = Reserved \/ r_status r = Queued) /\
  (r_dotns_status r = None \/ r_dotns_status r = Some DPending).

Definition rows_kept (t t' : gmap Z Row) : Prop :=
  (forall k r, t !! k = Some r -> exists r', t' !! k = Some r' /\ row_kept r r') /\
  (forall k r', t' !! k = Some r' -> t !! k = None -> row_new r').

Lemma row_kept_refl r : row_kept r r.
Proof. split; [by left|done]. Qed.

Lemma rows_kept_refl t : rows_kept t t.
Proof. split; [|congruence]. intros k r Hr. exists r. split; [done|apply row_kept_refl]. Qed.

Lemma row_kept_new r r' : row_new r -> row_kept r r' -> row_new r'.
Proof.
  intros [H1 H2] [H3 [H4 _]]. split; [|by rewrite H4]. destruct H3 as [->|[_ ->]]; [done|by left].
Qed.

Lemma rows_kept_trans t1 t2 t3 : rows_kept t1 t2 -> rows_kept t2 t3 -> rows_kept t1 t3.
Proof.
  intros [A1 B1] [A2 B2]. split.
  - intros k r Hr. destruct (A1 k r Hr) as (r2 & Hr2 & S1 & D1 & N1).
    destruct (A2 k r2 Hr2) as (r3 & Hr3 & S2 & D2 & N2). exists r3. split; [done|]. unfold row_kept.
    split; [|split; congruence]. destruct S1 as [E1|[E1 E1']], S2 as [E2|[E2 E2']];
      rewrite ?E1, ?E1' in *; auto; try (right; split; congruence).
  - intros k r3 Hr3 Hn. destruct (t2 !! k) as [r2|] eqn:E2; [|by eapply B2].
    destruct (A2 k r2 E2) as (r3' & Hr3' & Hk). simplify_eq. eapply row_kept_new; [|exact Hk]. eauto.
Qed.

Lemma rows_kept_insert t id r : t !! id = None -> row_new r -> rows_kept t (<[id := r]> t).
Proof.
  intros Hid Hn. split.
  - intros k r0 Hr. exists r0. rewrite lookup_insert_ne by congruence. split; [done|apply row_kept_refl].
  - intros k r' [[_ <-]|[_ Hk]]%lookup_insert_Some Hkn; [done|congruence].
Qed.

Lemma rows_kept_update t p f :
  (forall k r, t !! k = Some r -> p k r = true -> row_kept r (f r)) -> rows_kept t (update_where p f t).
Proof.
  intros Hf. split.
  - intros k r Hr. eexists. rewrite lookup_update_where, Hr. split; [done|]. simpl.
    destruct (p k r) eqn:E; [by eapply Hf|apply row_kept_refl].
  - intros k r' Hr Hn. by rewrite lookup_update_where, Hn in Hr.
Qed.

Lemma fresh_row_new now new st q : st = Reserved \/ st = Queued -> row_new (fresh_row now new st q).
Proof. intros Hs. split; [done|]. simpl. destruct (nr_dotns_signature new); auto. Qed.

Lemma insert_with_kept now new st q db :
  rows_of db !! db_next_id db = None -> st = Reserved \/ st = Queued ->
  rows_kept (rows_of db) (rows_of (insert_with now new st q db).2).
Proof.
  intros Hid Hst. destruct (insert_with now new st q db) as [[i|e] db'] eqn:E.
  - apply insert_with_Ok in E as (-> & -> & _). simpl. apply rows_kept_insert; [done|].
    by apply fresh_row_new.
  - apply insert_with_Err in E as [Hr _]. simpl. rewrite <-Hr. apply rows_kept_refl.
Qed.

Lemma insert_with_leases now new st q db : db_leases (insert_with now new st q db).2 = db_leases db.
Proof. unfold insert_with. by repeat destr_match. Qed.

Lemma set_reserved_kept now r : Queue.is_queued r = true -> row_kept r (Queue.set_reserved now r).
Proof.
  unfold Queue.is_queued. intros Hq. split; [|done]. right. by destruct (r_status r).
Qed.

(** A step as the writer sees it. *)
Definition benign (now : Z) (db db' : Db) : Prop :=
  rows_kept (rows_of db) (rows_of db') /\
  forall g, dead now g (db_leases db) -> dead now g (db_leases db').

Lemma benign_refl now db : benign now db db.
Proof. split; [apply rows_kept_refl|done]. Qed.

Lemma benign_trans now a b c : benign now a b -> benign now b c -> benign now a c.
Proof. intros [H1 D1] [H2 D2]. split; [by eapply rows_kept_trans|eauto]. Qed.

(** A change of the other tables. *)
Lemma benign_same now db db' : rows_of db' = rows_of db -> db_leases db' = db_leases db -> benign now db db'.
Proof. intros Hr Hl. unfold benign. rewrite Hr, Hl. apply benign_refl. Qed.

Lemma benign_insert now new st q db :
  rows_of db !! db_next_id db = None -> st = Reserved \/ st = Queued ->
  benign now db (insert_with now new st q db).2.
Proof. intros Hid Hst. split; [by apply insert_with_kept|by rewrite insert_with_leases]. Qed.

Lemma benign_txn {A E} now (body : Db -> result A E * Db) db :
  benign now db (body db).2 -> benign now db (txn body db).2.
Proof. unfold txn. destruct (body db) as [[a|e] db']; [done|]. intros _. by apply benign_same. Qed.

Lemma device_txn_benign now new group hmac db :
  rows_of db !! db_next_id db = None -> benign now db (Registration.device_txn now new group hmac db).2.
Proof.
  intros Hid. unfold Registration.device_txn.
  assert (benign now db (Registration.insert_reservation now new group db).2) as Hb.
  { destruct group; simpl; apply benign_insert; auto. }
  destruct (Registration.insert_reservation now new group db) as [[id|e] db1]; simpl in *; [|done].
  eapply benign_trans; [exact Hb|]. unfold DeviceGate.insert_pending.
  destruct (db_devices db1 !! hmac); by apply benign_same.
Qed.

Lemma redeem_txn_benign now key new db :
  rows_of db !! db_next_id db = None -> benign now db (Eligibility.redeem_txn sha256 now key new db).2.
Proof.
  intros Hid. unfold Eligibility.redeem_txn, Eligibility.burn.
  assert (forall v, benign now db (insert now new (with_vouchers v db)).2) as Hi.
  { intros v. eapply benign_trans; [|by apply benign_insert; [|left]]. by apply benign_same. }
  destruct (db_vouchers db !! _) as [v|]; simpl; [|by apply benign_same].
  destruct (v_used_at v); simpl; [by apply benign_same|].
  destruct (now <? v_expires_at v); simpl; [|by apply benign_same].
  match goal with |- context [with_vouchers ?x db] => specialize (Hi x) end.
  by destruct (insert now new _).
Qed.

Lemma promote_slot_benign now slot db : benign now db (Queue.promote_slot now slot db).2.
Proof.
  unfold Queue.promote_slot. destruct (select _ db) as [|[k r] l] eqn:E; [by apply benign_same|].
  assert ((k, r) ∈ select (fun r => Queue.is_queued r && (5 - Z.of_nat slot <=? r_queue_group r)) db) as Hin
    by (rewrite E; set_solver).
  apply elem_of_select in Hin as [Hr Hq]. apply andb_true_iff in Hq as [Hq _].
  split; [|done]. simpl. split.
  - intros j r0 Hj. destruct (decide (j = k)) as [->|Hne].
    + simplify_eq. eexists. rewrite lookup_insert_eq. split; [done|]. by apply set_reserved_kept.
    + exists r0. rewrite lookup_insert_ne by done. split; [done|apply row_kept_refl].
  - intros j r' [[<- _]|[_ Hj]]%lookup_insert_Some Hn; congruence.
Qed.

Lemma service_step_benign now db db' : service_step now db db' -> benign now db db'.
Proof.
  destruct 1 as [new group Hid|new group hmac Hid|key new Hid|app ttl ch|ch|slot|account g|grace
                |name holder ttl|g ttl].
  - destruct group; simpl; apply benign_insert; auto.
  - by apply benign_txn, device_txn_benign.
  - by apply benign_txn, redeem_txn_benign.
  - unfold DeviceGate.create. destruct (db_challenges db !! ch); by apply benign_same.
  - unfold DeviceGate.consume. destruct (db_challenges db !! ch) as [c|]; [|by apply benign_same].
    destruct (DeviceGate.consumable now c); by apply benign_same.
  - apply promote_slot_benign.
  - split; [|done]. apply rows_kept_update. intros k r _ _. split; [by left|done].
  - split; [|done]. apply rows_kept_update. intros k r _ Hd. apply set_reserved_kept.
    by apply andb_true_iff in Hd as [? _].
  - split; [apply rows_kept_refl|]. intros g. apply try_acquire_dead.
  - split; [apply rows_kept_refl|]. intros g'. apply renew_dead.
Qed.

Lemma service_steps_benign now db db' : rtc (service_step now) db db' -> benign now db db'.
Proof.
  induction 1 as [|a b c Hs _ IH]; [apply benign_refl|].
  eapply benign_trans; [by apply service_step_benign|done].
Qed.
End steps.

(** ** The writer's assumptions *)

Section rely.
Context {W Link Ctx : Type} `{!World W, !Lane W Link Ctx, !LaneLaws W Link Ctx} (cx : Cx).

(** A lane whose states the other processes' changes respect. *)
Definition lane_respects : Prop :=
  (forall r r', row_kept r r' -> lane_final (lane_state r) = true -> lane_state r' = lane_state r) /\
  (forall r r', row_kept r r' -> lane_open r = true -> lane_open r' = true) /\
  (forall r r', row_kept r r' -> lane_landed (lane_state r') = true -> lane_landed (lane_state r) = true) /\
  (forall r, row_new r -> lane_landed (lane_state r) = false).

Definition relies (f : W -> Db -> Db) : Prop :=
  never_lands f /\ keeps_claims f /\ keeps_final f /\ leaves_open cx f /\ keeps_fence cx f.

Lemma benign_relies f :
  lane_respects -> (forall w db, benign (w_now w) db (f w db)) -> relies f.
Proof.
  intros (Hfin & Hop & Hland & Hnew) Hb. repeat split.
  - intros w db k (r' & Hr' & Hl). destruct (Hb w db) as [[A B] _].
    destruct (rows_of db !! k) as [r|] eqn:Er.
    + destruct (A k r Er) as (r'' & Hr'' & Hk). simplify_eq. exists r. eauto.
    + pose proof (Hnew _ (B k r' Hr' Er)). congruence.
  - intros w db k r Hr. destruct (Hb w db) as [[A _] _].
    destruct (A k r Hr) as (r' & Hr' & _ & _ & Hn). by exists r'.
  - by destruct H.
  - destruct H as (Hs & r & Hr & <-). destruct (Hb w db) as [[A _] _].
    destruct (A k r Hr) as (r' & Hr' & Hk). eauto.
  - intros w db. right. intros k (r & Hr & Ho). destruct (Hb w db) as [[A _] _].
    destruct (A k r Hr) as (r' & Hr' & Hk). exists r'. eauto.
  - intros w db. by apply Hb.
Qed.
End rely.

(** A run of a lane that lands rows only on evidence, and keeps the final ones. *)
Definition safe_run {W Link Ctx} `{!Env W} {L : Lane W Link Ctx} {laws : LaneLaws W Link Ctx} {E A} (m : M E A) : Prop :=
  forall st : WriterEngine.St (W := W) (Link := Link), st_trace st = [] ->
    (forall k row, rows_of (st_db (m st).2) !! k = Some row -> lane_landed (lane_state row) = true ->
       landed_at (st_db st) k \/
       exists r, read_from k row r /\ evidence env_account env_describe (st_trace (m st).2) r) /\
    (forall k s, final_at (st_db st) k s -> final_at (st_db (m st).2) k s).

Lemma people_respects {W} `{!Env W} :
  lane_respects (LaneLaws0 := PeopleLaws env_account env_verify (env_constant (W := W) PeopleChain)).
Proof.
  unfold lane_respects. simpl. unfold people_state, people_open.
  split; [|split; [|split]]; intros r.
  - intros r' [[->|[-> ->]] _]; done.
  - intros r' [[->|[-> ->]] _]; done.
  - intros r' [[->|[-> ->]] _]; done.
  - intros [[->| ->] _]; done.
Qed.

Lemma dotns_respects {W} `{!Env W} :
  lane_respects
    (LaneLaws0 := DotnsLaws env_account env_verify env_instant env_dial (env_constant (W := W) AssetHub)).
Proof.
  unfold lane_respects. simpl. unfold dotns_state, dotns_lane_open.
  split; [|split; [|split]]; intros r.
  - by intros r' (_ & -> & _).
  - by intros r' (_ & -> & _).
  - by intros r' (_ & -> & _).
  - by intros [_ [->| ->]].
Qed.

(** ** Properties *)

(** C2. The rest of the system is a benign environment: if all the other
    processes do between two statements of the writer is run statements of the
    API (inserts on either lane, the device and the voucher transaction, the
    challenges), of the queue advancer (promotions, regrouping), of the janitor,
    and acquire or renew leases, then on both lanes a pass and a startup reconcile
    land a row only on evidence from the chain for that row, its name and its
    candidate, and leave every final row as it is. *)
Theorem system_is_safe {W} `{!Env W} sha256 cx :
  clock_monotone (W := W) ->
  (forall (w : W) db, rtc (service_step sha256 (w_now w)) db (w_interfere w db)) ->
  safe_run (L := people_lane) (people_pass cx) /\ safe_run (L := people_lane) (people_reconcile cx) /\
  safe_run (L := dotns_lane) (dotns_pass cx) /\ safe_run (L := dotns_lane) (dotns_reconcile cx).
Proof.
  intros Hm Hs.
  assert (forall (w : W) db, benign (w_now w) db (w_interfere w db)) as Hb
    by (intros; by eapply service_steps_benign).
  pose proof (benign_relies cx _ people_respects Hb) as (P1 & P5 & P2 & P3 & P4).
  pose proof (benign_relies cx _ dotns_respects Hb) as (D1 & D5 & D2 & D3 & D4).
  split; [|split; [|split]]; intros st Htr; split.
  - by apply (drains_lands (L := people_lane) cx _ (people_pass_drains cx)).
  - by apply (drains_final (L := people_lane) cx _ (people_pass_drains cx)).
  - by apply (drains_lands (L := people_lane) cx _ (people_reconcile_drains cx)).
  - by apply (drains_final (L := people_lane) cx _ (people_reconcile_drains cx)).
  - by apply (drains_lands (L := dotns_lane) cx _ (dotns_pass_drains cx)).
  - by apply (drains_final (L := dotns_lane) cx _ (dotns_pass_drains cx)).
  - by apply (drains_lands (L := dotns_lane) cx _ (dotns_reconcile_drains cx)).
  - by apply (drains_final (L := dotns_lane) cx _ (dotns_reconcile_drains cx)).
Qed.

(** *** Witness *)

(** A world in which the advancer promotes a claim between any two statements of
    the writer. *)
#[local] Instance busy_world : World Z := {|
  w_next w := w + 1;
  w_now w := w;
  w_app_now w := w;
  w_fate _ := Fine;
  w_db_error _ := "io"%string;
  w_interfere w db := (Queue.promote_slot w 4 db).2;
  w_owner _ _ _ := Ok None;
  w_owners _ _ _ := Ok ∅;
  w_nonce _ _ := Ok 7;
  w_sign _ _ _ _ := Ok "0xfeed"%string;
  w_broadcast _ _ := Ok tt;
  w_finality _ _ := (1%nat, Finalized (Ok []));
|}.

#[local] Instance busy_env : Env Z := {|
  env_world := busy_world;
  env_scale := env_scale (Env := demo_env);
  env_account := env_account (Env := demo_env);
  env_describe := env_describe (Env := demo_env);
  env_verify := env_verify (Env := demo_env);
  env_instant := env_instant (Env := demo_env);
  env_dial := env_dial (Env := demo_env);
  env_constant := env_constant (Env := demo_env);
|}.

(** Its queued claim is promoted, claimed, submitted and landed in one pass. *)
Definition queued_db : Db := with_leases demo_table (insert_queued 0 signed_new 1 empty_db).2.

Definition busy_st : WriterEngine.St (W := Z) (Link := PeopleLink) :=
  {| st_db := queued_db; st_w := 10; st_trace := []; st_drain := st_drain demo_st |}.

Lemma system_is_safe_witness :
  (exists row, rows_of (st_db (people_pass demo_cx busy_st).2) !! 1 = Some row /\
     r_status row = Assigned) /\
  exists r, full_username r = "tallesx.07"%string /\ candidate_account_id r = "5Fb"%string /\
    evidence env_account env_describe (st_trace (people_pass demo_cx busy_st).2) r.
Proof.
  assert (exists row, rows_of (st_db (people_pass demo_cx busy_st).2) !! 1 = Some row /\
            r_status row = Assigned /\ r_new row = signed_new) as Hrow
    by (eexists; split; [vm_compute; reflexivity|split; vm_compute; reflexivity]).
  destruct Hrow as (row & Hr & Hs & Hnew). split; [exists row; split; [exact Hr|exact Hs]|].
  destruct (system_is_safe (fun b => b) demo_cx) as [Hp _].
  - intros w. simpl. lia.
  - intros w db. apply rtc_once. apply sv_promote.
  - destruct (proj1 (Hp busy_st eq_refl) 1 row) as [(row0 & H0 & Hl)|(r & Hf & He)].
    + exact Hr.
    + simpl. unfold people_state. rewrite Hs. reflexivity.
    + exfalso. vm_compute in H0. injection H0 as <-. vm_compute in Hl. discriminate Hl.
    + apply read_from_fields in Hf as (_ & Hn & Hc). unfold r_full_username in Hn.
      rewrite Hnew in Hn, Hc. exists r. split; [exact Hn|]. split; [exact Hc|exact He].
Defined.

End System.
