(* ===== verification/Writer.v ===== *)
(** * Writer: the chain-writer process ([chain/writer.rs], [chain/writer/passes.rs])

    The process around the two drains: it polls for the lease, forgets the cached
    nonces, reconciles both lanes, and then loops: renew the lease, run the
    periodic work that is due, drain the People lane, drain the dotNS lane.  The
    state is the database, the world, the two drains with what each lane saw, and
    the tickers.  The loops that never end take the number of rounds to run. *)

From S2P Require Import Prelude Strings Schema Lease Outbox Queue DeviceGate WriterLane WriterTx.
From S2P Require Import WriterEngine WriterSpec WriterProps Signature WriterPeople WriterDotns WriterClaims.

#[local] Open Scope Z_scope.

Module Writer.

Export WriterClaims.

Definition DEFAULT_BATCH_SIZE : Z := 25.
Definition DEFAULT_DOTNS_BATCH_SIZE : Z := 3.

(** What the loop reads of the configuration; durations in seconds. *)
Record WriterConfig := {
  wc_holder_id : string;
  wc_lease_name : string;
  wc_lease_ttl : Z;
  wc_attester : bytes;
  wc_max_attempts : Z;
  wc_batch_size : Z;
  wc_dotns_batch_size : Z;
  wc_queue_enabled : bool;
  wc_queue_fallback_after : Z;
  wc_resource_poll_interval : Z;
}.

(** [WriterSigner::proxy_for]: a signer that is not the attester itself submits
    through its proxy. *)
Definition signer_proxy_for (signer primary : bytes) : option bytes :=
  if bool_decide (primary = signer) then None else Some primary.

(** ** [passes.rs] *)

Record Ticker := { every : Z; last : option Z }.

Definition Ticker_new (e : Z) : Ticker := {| every := e; last := None |}.

Definition due (now : Z) (t : Ticker) : bool * Ticker :=
  if match last t with None => true | Some l => every t <=? now - l end
  then (true, {| every := every t; last := Some now |})
  else (false, t).

Record Passes := { resources : Ticker; stranded : Ticker }.

Definition Passes_new (config : WriterConfig) : Passes :=
  {| resources := Ticker_new (secs (wc_resource_poll_interval config));
     stranded := Ticker_new (secs (wc_queue_fallback_after config)) |}.

Section process.
Context {W : Type} `{!Env W} (config : WriterConfig) (signer : bytes).
(** Whether the People Chain answered the resource reads. *)
Context (resources_read : W -> bool).

Record Proc := {
  p_db : Db;
  p_w : W;
  p_people : Drain (Link := PeopleLink);
  p_ptrace : list Obs;
  p_dotns : Drain (Link := DotnsLink);
  p_dtrace : list Obs;
  p_passes : Passes;
}.

Definition P (E A : Type) : Type := Proc -> result A E * Proc.

#[global] Instance P_ret {E} : MRet (P E) := fun A a p => (Ok a, p).
#[global] Instance P_bind {E} : MBind (P E) := fun A B k m p =>
  match m p with
  | (Ok a, p') => k a p'
  | (Err e, p') => (Err e, p')
  end.

Definition pthrow {E A} (e : E) : P E A := fun p => (Err e, p).
Definition ptry {E F A} (m : P E A) : P F (result A E) := fun p => let '(r, p') := m p in (Ok r, p').

Definition set_passes (x : Passes) : P WriterError unit := fun p =>
  (Ok tt, {| p_db := p_db p; p_w := p_w p; p_people := p_people p; p_ptrace := p_ptrace p;
             p_dotns := p_dotns p; p_dtrace := p_dtrace p; p_passes := x |}).
Definition get_passes : P WriterError Passes := fun p => (Ok (p_passes p), p).
Definition ask_world {A} (f : W -> A) : P WriterError A := fun p => (Ok (f (p_w p)), p).

(** The world moves on: a sleep, or a read that leaves no trace. *)
Definition sleep : P WriterError unit := fun p =>
  (Ok tt, {| p_db := p_db p; p_w := w_next (p_w p); p_people := p_people p; p_ptrace := p_ptrace p;
             p_dotns := p_dotns p; p_dtrace := p_dtrace p; p_passes := p_passes p |}).

(** A statement of the process outside the lanes. *)
Definition pstmt {A} (f : Z -> Db -> A * Db) : P WriterError A := fun p =>
  let w := p_w p in
  let '(r, db') := run_stmt (w_fate w) (f (w_now w)) (w_interfere w (p_db p)) in
  (match r with Some a => Ok a | None => Err (DbError (w_db_error w)) end,
   {| p_db := db'; p_w := w_next w; p_people := p_people p; p_ptrace := p_ptrace p;
      p_dotns := p_dotns p; p_dtrace := p_dtrace p; p_passes := p_passes p |}).

(** A run of a lane's drain. *)
Definition on_people {E A} (m : M (W := W) (Link := PeopleLink) E A) : P E A := fun p =>
  let '(r, st) := m {| st_db := p_db p; st_w := p_w p; st_trace := p_ptrace p; st_drain := p_people p |} in
  (r, {| p_db := st_db st; p_w := st_w st; p_people := st_drain st; p_ptrace := st_trace st;
         p_dotns := p_dotns p; p_dtrace := p_dtrace p; p_passes := p_passes p |}).
Definition on_dotns {E A} (m : M (W := W) (Link := DotnsLink) E A) : P E A := fun p =>
  let '(r, st) := m {| st_db := p_db p; st_w := p_w p; st_trace := p_dtrace p; st_drain := p_dotns p |} in
  (r, {| p_db := st_db st; p_w := st_w st; p_people := p_people p; p_ptrace := p_ptrace p;
         p_dotns := st_drain st; p_dtrace := st_trace st; p_passes := p_passes p |}).

(** ** The periodic passes *)

(** Read the attester's allowance and balances; the Asset Hub leg dials the
    dotNS link when it is due. *)
Definition attester_resources : P WriterError unit :=
  ok ← ask_world resources_read;
  _ ← sleep;
  if (ok : bool) then _ ← on_dotns (link_up_m (Lane0 := dotns_lane)); mret tt else mret tt.

Definition record_outbox_gauges : P WriterError unit :=
  _ ← pstmt (fun now db => (depth_by_status now db, db));
  _ ← pstmt (fun now db => (dotns_depth_by_status now db, db));
  mret tt.

(** The queue's two halves: warn about stranded claims, or drain them. *)
Definition queue : P WriterError unit :=
  if wc_queue_enabled config then
    now ← ask_world env_instant;
    ps ← get_passes;
    let '(is_due, t) := due now (stranded ps) in
    _ ← set_passes {| resources := resources ps; stranded := t |};
    if (is_due : bool) then
      _ ← ptry (pstmt (fun now db => (Queue.stranded_queued now db, db))); mret tt
    else mret tt
  else
    _ ← ptry (pstmt (fun now => Queue.fallback_drain now (wc_queue_fallback_after config)));
    mret tt.

Definition tick : P WriterError unit :=
  now ← ask_world env_instant;
  ps ← get_passes;
  let '(is_due, t) := due now (resources ps) in
  _ ← set_passes {| resources := t; stranded := stranded ps |};
  _ ← (if (is_due : bool) then
         _ ← ptry attester_resources; _ ← ptry record_outbox_gauges; mret tt
       else mret tt);
  queue.

(** ** [writer.rs] *)

Definition cx_of (g : Guard) : Cx :=
  {| guard := g; proxy_for := signer_proxy_for signer (wc_attester config); max_attempts := wc_max_attempts config;
     cx_lease_ttl := wc_lease_ttl config |}.

(** Poll for the lease, [polls] times after the first. *)
Fixpoint acquire_lease (polls : nat) : P WriterError (option Guard) :=
  e ← pstmt (fun now db =>
        let '(e, t) := try_acquire now (wc_lease_name config) (wc_holder_id config)
                         (wc_lease_ttl config) (db_leases db) in (e, with_leases t db));
  match (e : option Z) with
  | Some e => mret (Some {| lease_name := wc_lease_name config; holder_id := wc_holder_id config;
                            epoch := e |})
  | None =>
      match polls with
      | O => mret None
      | S polls' => _ ← sleep; acquire_lease polls'
      end
  end.

Definition writer_heartbeat (g : Guard) : P WriterError bool :=
  pstmt (fun now db =>
    let '(ok, t) := renew now g (wc_lease_ttl config) (db_leases db) in (ok, with_leases t db)).

(** One round of [active_loop]. *)
Definition active_round (g : Guard) : P WriterError unit :=
  ok ← writer_heartbeat g;
  if (ok : bool) then
    _ ← tick;
    people_idle ← on_people (people_pass (cx_of g));
    _ ← on_dotns (dotns_pass (cx_of g));
    if (people_idle : bool) then sleep else mret tt
  else pthrow (LeaseLost Draining).

Fixpoint active_loop (g : Guard) (rounds : nat) : P WriterError unit :=
  match rounds with
  | O => mret tt
  | S rounds' => _ ← active_round g; active_loop g rounds'
  end.

Definition reconcile (g : Guard) : P WriterError unit :=
  _ ← ptry (on_people (people_reconcile (cx_of g)));
  _ ← ptry (on_dotns (dotns_reconcile (cx_of g)));
  mret tt.

(** One turn of [run_forever]. *)
Definition tenure (polls rounds : nat) : P WriterError unit :=
  g ← acquire_lease polls;
  match (g : option Guard) with
  | None => mret tt
  | Some g =>
      _ ← on_people (set_nonce None);
      _ ← on_dotns (set_nonce None);
      _ ← reconcile g;
      _ ← ptry (active_loop g rounds);
      sleep
  end.

Fixpoint run_forever (turns : list (nat * nat)) : P WriterError unit :=
  match turns with
  | [] => mret tt
  | (polls, rounds) :: turns' => _ ← tenure polls rounds; run_forever turns'
  end.

Definition Proc_new (db : Db) (w : W) : Proc :=
  {| p_db := db; p_w := w;
     p_people := {| d_batch := BatchLane_new (wc_batch_size config); d_nonce := None;
                    d_link := Build_PeopleLink |};
     p_ptrace := [];
     p_dotns := {| d_batch := BatchLane_new (wc_dotns_batch_size config); d_nonce := None;
                   d_link := DotnsLink_new (wc_attester config) |};
     p_dtrace := []; p_passes := Passes_new config |}.
End process.

End Writer.
