(* ===== verification/Tickets.v ===== *)
(** * Tickets: the invitation-ticket service

    [invite-tickets]: the table ([tickets.rs]), the ticket keys ([sign.rs]), the
    claim route ([http.rs]) and the pool maintainer ([pool.rs], [chain.rs]).  Both
    processes are programs over the statements they make ([Prog]); a statement is
    one step of the program, so any number of claims and the maintainer can be
    interleaved.  schnorrkel, SS58, JSON and the timestamp format are parameters;
    the transaction of the maintainer is watched as the code watches it. *)

From stdpp Require Import gmap.
From S2P Require Import Prelude Strings Text Schema DeviceGate WriterLane Usernames Writer.

#[local] Open Scope string_scope.
#[local] Open Scope Z_scope.

Module Tickets.

(** ** [tickets.rs] *)

Inductive Dim := Game | ProofOfInk.
Inductive Network := Westend2 | Paseo | Polkadot.

#[export] Instance Dim_eq_dec : EqDecision Dim.
Proof. solve_decision. Defined.
#[export] Instance Network_eq_dec : EqDecision Network.
Proof. solve_decision. Defined.
#[export] Program Instance Dim_countable : Countable Dim :=
  inj_countable' (fun d => match d with Game => true | ProofOfInk => false end)
    (fun b : bool => if b then Game else ProofOfInk) _.
Next Obligation. by intros []. Qed.

Definition Dim_as_str (d : Dim) : string :=
  match d with Game => "Game" | ProofOfInk => "ProofOfInk" end.
Definition Dim_from_str (s : string) : option Dim :=
  if String.eqb s "Game" then Some Game
  else if String.eqb s "ProofOfInk" then Some ProofOfInk else None.

Definition Network_as_str (n : Network) : string :=
  match n with Westend2 => "westend2" | Paseo => "paseo" | Polkadot => "polkadot" end.
Definition Network_from_str (s : string) : option Network :=
  if String.eqb s "westend2" then Some Westend2
  else if String.eqb s "paseo" then Some Paseo
  else if String.eqb s "polkadot" then Some Polkadot else None.

Inductive TicketState := Available | Claimed.

#[export] Instance TicketState_eq_dec : EqDecision TicketState.
Proof. solve_decision. Defined.

(** The table [invite_tickets], by public key. *)
Record TicketRow := {
  t_private_key : bytes; t_dim : Dim; t_network : Network; t_inviter : string;
  t_state : TicketState; t_claimed_by : option string; t_claimed_at : option Z;
  t_created_at : Z; t_updated_at : option Z }.
Abbreviation TicketTable := (gmap bytes TicketRow).

Record ClaimedTicket := {
  ct_public_key : bytes; ct_private_key : bytes; ct_inviter : string; ct_created_at : Z }.

Definition in_pool (dim : Dim) (network : Network) (r : TicketRow) : bool :=
  bool_decide (t_state r = Available) && bool_decide (t_dim r = dim)
  && bool_decide (t_network r = network).

Definition count_available (dim : Dim) (network : Network) (t : TicketTable) : Z :=
  Z.of_nat (size (filter (fun kv : bytes * TicketRow => in_pool dim network kv.2 = true) t)).

(** [ORDER BY created_at ASC]; [rank] is the order in which the scan meets rows of
    one age. *)
Definition older (rank : bytes -> Z) (a b : bytes * TicketRow) : bool :=
  (t_created_at a.2 <? t_created_at b.2)
  || ((t_created_at a.2 =? t_created_at b.2) && (rank a.1 <=? rank b.1)).

(** The rows of the pool that no other transaction has locked, in that order. *)
Definition claimable (locked : gset bytes) (rank : bytes -> Z) (dim : Dim) (network : Network)
    (t : TicketTable) : list (bytes * TicketRow) :=
  sort_by (older rank)
    (filter (fun kv : bytes * TicketRow => in_pool dim network kv.2 = true /\ kv.1 ∉ locked)
       (map_to_list t)).

Definition flip_claimed (who : string) (now : Z) (r : TicketRow) : TicketRow :=
  {| t_private_key := t_private_key r; t_dim := t_dim r; t_network := t_network r;
     t_inviter := t_inviter r; t_state := Claimed; t_claimed_by := Some who;
     t_claimed_at := Some now; t_created_at := t_created_at r; t_updated_at := Some now |}.

(** The transaction: [SELECT .. FOR UPDATE SKIP LOCKED], then the [UPDATE]. *)
Definition claim_oldest (locked : gset bytes) (rank : bytes -> Z) (dim : Dim) (network : Network)
    (who : string) (now : Z) (t : TicketTable) : option ClaimedTicket * TicketTable :=
  match claimable locked rank dim network t with
  | [] => (None, t)
  | (key, r) :: _ =>
      (Some {| ct_public_key := key; ct_private_key := t_private_key r;
               ct_inviter := t_inviter r; ct_created_at := t_created_at r |},
       <[key := flip_claimed who now r]> t)
  end.

Definition insert_available (db_now : Z) (public_key private_key : bytes) (dim : Dim)
    (network : Network) (inviter : string) (t : TicketTable) : TicketTable :=
  match t !! public_key with
  | Some _ => t
  | None =>
      <[public_key := {| t_private_key := private_key; t_dim := dim; t_network := network;
                         t_inviter := inviter; t_state := Available; t_claimed_by := None;
                         t_claimed_at := None; t_created_at := db_now; t_updated_at := None |}]> t
  end.

(** ** Programs over the statements *)

Inductive Prog (A : Type) : Type :=
| Ret (a : A)
| Count (dim : Dim) (network : Network) (k : option Z -> Prog A)
| Claim (dim : Dim) (network : Network) (who : string) (now : Z)
    (k : option (option ClaimedTicket) -> Prog A)
| Insert (public_key private_key : bytes) (dim : Dim) (network : Network) (inviter : string)
    (k : bool -> Prog A)
| Submit (dim : Dim) (accounts : list bytes) (proxy_for : option bytes)
    (k : option (list bool) -> Prog A)
| FillBytes (k : bytes -> Prog A)
| TryLock (k : option bool -> Prog A)
| Sleep (millis : Z) (k : Prog A).
Arguments Ret {A} a.
Arguments Count {A} dim network k.
Arguments Claim {A} dim network who now k.
Arguments Insert {A} public_key private_key dim network inviter k.
Arguments Submit {A} dim accounts proxy_for k.
Arguments FillBytes {A} k.
Arguments TryLock {A} k.
Arguments Sleep {A} millis k.

(** ** [sign.rs] *)

Record TicketCrates := {
  Keypair : Type;
  mini_secret : bytes -> result Keypair string;
  expanded_secret : bytes -> result Keypair string;
  kp_public : Keypair -> bytes;
  sign_bytes : Keypair -> bytes -> bytes -> bytes;
  parse_public : bytes -> bool;
  parse_signature : bytes -> bool;
  verify_simple : bytes -> bytes -> bytes -> bytes -> bool;
  ss58_account : string -> option bytes;
  json_from_slice : bytes -> option Json;
  iso_millis : Z -> string }.

Inductive TicketKeyError := InvalidLength (n : nat) | InvalidKey (why : string).

Definition SIGNING_CTX : bytes := as_bytes "substrate".

Section service.
Context (cr : TicketCrates).
#[local] Open Scope dub_scope.

Definition from_stored_secret (secret : bytes) : result (Keypair cr) TicketKeyError :=
  if (length secret =? 32)%nat then map_err InvalidKey (mini_secret cr secret)
  else if (length secret =? 64)%nat then map_err InvalidKey (expanded_secret cr secret)
  else Err (InvalidLength (length secret)).

Definition public_bytes (kp : Keypair cr) : bytes := kp_public cr kp.

Definition sign (kp : Keypair cr) (payload : bytes) : bytes := sign_bytes cr kp SIGNING_CTX payload.

Definition verify (public_key payload signature : bytes) : bool :=
  parse_public cr public_key && parse_signature cr signature
  && verify_simple cr public_key SIGNING_CTX payload signature.

(** ** The claim route ([http.rs]) *)

Definition DB_RETRIES : nat := 3.
Definition DB_RETRY_BASE : Z := 200.

(** [retry_db] with [retries] left; [None] is a [sqlx] error. *)
Fixpoint retry_db {T A} (retries : nat) (delay : Z) (op : (option T -> Prog A) -> Prog A)
    (k : option T -> Prog A) : Prog A :=
  op (fun r =>
    match r, retries with
    | None, S retries' => Sleep delay (retry_db retries' (delay * 2) op k)
    | _, _ => k r
    end).

Inductive AppError :=
| RateLimited (retry_after_secs : Z)
| InvalidBody (errors : list Usernames.FieldError)
| MalformedJson
| PoolExhausted
| TicketRaceLost
| Internal.

(** Status and [error] text. *)
Definition app_error (e : AppError) : Z * string :=
  match e with
  | RateLimited s => (429, "Rate limit exceeded. Please retry after " +:+ decimal s +:+ " seconds.")
  | InvalidBody _ => (400, "The request body contains invalid values.")
  | MalformedJson => (400, "Malformed JSON in request body")
  | PoolExhausted => (422, "Pool exhausted")
  | TicketRaceLost => (409, "Ticket race lost")
  | Internal => (500, "Internal server error. Please try again.")
  end.

Record ClaimRequest := { who : string; who_account : bytes; dim : Dim }.

Definition MUST_NOT_BE_EMPTY : string := "must not be empty".
Definition DQ : string := String "034"%char EmptyString.
Definition DIM_EXPECTED : string :=
  "expected one of " +:+ DQ +:+ "Game" +:+ DQ +:+ "|" +:+ DQ +:+ "ProofOfInk" +:+ DQ.

Definition field_error (field message : string) : Usernames.FieldError :=
  {| Usernames.fe_field := field; Usernames.fe_message := message |}.

Definition is_object (v : Json) : bool := match v with JObject _ => true | _ => false end.

Definition who_field (body : Json) : option (string * bytes) * list Usernames.FieldError :=
  match json_get "who" body with
  | Some (JString s) =>
      let empty := if String.eqb s EmptyString then [field_error "who" MUST_NOT_BE_EMPTY] else [] in
      match ss58_account cr s with
      | Some account => (Some (s, account), empty)
      | None => (None, (empty ++ [field_error "who" "Invalid SS58 address format"])%list)
      end
  | other =>
      (None, [field_error "who" (Usernames.expected "string" (Usernames.received_name other))])
  end.

Definition dim_field (body : Json) : option Dim * list Usernames.FieldError :=
  let dim := match json_get "dim" body with Some (JString s) => Dim_from_str s | _ => None end in
  (dim, match dim with None => [field_error "dim" DIM_EXPECTED] | Some _ => [] end).

Definition validate_body (body : Json) : result ClaimRequest (list Usernames.FieldError) :=
  if negb (is_object body) then
    Err [field_error EmptyString (Usernames.expected "object" (Usernames.type_name body))]
  else
    let '(w, e1) := who_field body in
    let '(d, e2) := dim_field body in
    match w, d, (e1 ++ e2)%list with
    | Some (w, account), Some d, [] => Ok {| who := w; who_account := account; dim := d |}
    | _, _, errors => Err errors
    end.

Record ClaimResponse := {
  rs_public_key : string; rs_inviter : string; rs_dim : string; rs_network : string;
  rs_claimed_by : string; rs_created_at : string; rs_claimed_at : string;
  rs_signature : string; rs_remaining : Z }.

Definition to_hex (b : bytes) : string := "0x" +:+ hex_encode b.

Definition claim_response (ticket : ClaimedTicket) (signature : bytes) (dim : Dim)
    (network : Network) (claimed_by : string) (claimed_at remaining : Z) : ClaimResponse :=
  {| rs_public_key := to_hex (ct_public_key ticket); rs_inviter := ct_inviter ticket;
     rs_dim := Dim_as_str dim; rs_network := Network_as_str network; rs_claimed_by := claimed_by;
     rs_created_at := iso_millis cr (ct_created_at ticket);
     rs_claimed_at := iso_millis cr claimed_at; rs_signature := to_hex signature;
     rs_remaining := remaining |}.

Abbreviation Reply := (result ClaimResponse AppError).

(** After the claim: sign, count what is left, answer. *)
Definition answer_claim (network : Network) (request : ClaimRequest) (now : Z)
    (ticket : ClaimedTicket) : Prog Reply :=
  match from_stored_secret (ct_private_key ticket) with
  | Err _ => Ret (Err Internal)
  | Ok keypair =>
      let signature := sign keypair (who_account request) in
      retry_db DB_RETRIES DB_RETRY_BASE (Count (dim request) network) (fun r =>
        match r with
        | None => Ret (Err Internal)
        | Some remaining =>
            Ret (Ok (claim_response ticket signature (dim request) network (who request) now remaining))
        end)
  end.

(** The pre-check and the grab. *)
Definition grab (network : Network) (request : ClaimRequest) (now : Z) : Prog Reply :=
  retry_db DB_RETRIES DB_RETRY_BASE (Count (dim request) network) (fun r =>
    match r with
    | None => Ret (Err Internal)
    | Some available =>
        if available =? 0 then Ret (Err PoolExhausted)
        else
          retry_db DB_RETRIES DB_RETRY_BASE (Claim (dim request) network (who request) now) (fun r =>
            match r with
            | None => Ret (Err Internal)
            | Some None => Ret (Err TicketRaceLost)
            | Some (Some ticket) => answer_claim network request now ticket
            end)
    end).

(** [rate] is the limiter's answer for the authenticated subject. *)
Definition claim_ticket (network : Network) (rate : option Z) (now : Z) (body : bytes) : Prog Reply :=
  match json_from_slice cr body with
  | None => Ret (Err MalformedJson)
  | Some body =>
      match validate_body body with
      | Err errors => Ret (Err (InvalidBody errors))
      | Ok request =>
          match rate with
          | Some retry => Ret (Err (RateLimited retry))
          | None => grab network request now
          end
      end
  end.

(** ** The maintainer ([pool.rs], [chain.rs]) *)

(** Times in milliseconds; whether a batch settled within [finalize_timeout] is part
    of the answer to [Submit]. *)
Record PoolTuning := { interval : Z; target : Z; batch_max : Z; finalize_timeout : Z }.

Definition PoolTuning_default : PoolTuning :=
  {| interval := 6000; target := 10000; batch_max := 100; finalize_timeout := 60000 |}.

Definition plan_refill (available target batch_size : Z) : Z :=
  let needed := clamp I64_MIN I64_MAX (target - available) in
  if needed <=? 0 then 0 else Z.min (Z.min needed U16_MAX) batch_size.

Definition item_accepted (items : list bool) (index : nat) : bool :=
  match items !! index with Some true => true | _ => false end.

(** The statuses of a watched transaction; [None] among the events is one the
    client could not decode. *)
Inductive TxStatus :=
| StatusFailed
| InFinalizedBlock (success : bool) (events : list (option WriterLane.ChainEvent))
| TxError | TxInvalid | TxDropped | TxPending.

(** The loop over the statuses, up to the finalized block's item outcomes. *)
Fixpoint watch (statuses : list TxStatus) : option (list bool) :=
  match statuses with
  | [] => None
  | InFinalizedBlock success events :: _ =>
      if success then Some (is_ok <$> WriterLane.batch_item_results (omap id events)) else None
  | TxPending :: rest => watch rest
  | _ :: _ => None
  end.

Record InviterIdentity := { signer : bytes; inviter : bytes; inviter_ss58 : string }.

Inductive TickEnd := Ticked (inserted next_size : Z) | TickFailed | TickPanicked.

(** [size] fresh seeds with their key pairs; [None] is the panic of [expect]. *)
Fixpoint generate {A} (size : nat) (acc : list (Keypair cr * bytes))
    (k : option (list (Keypair cr * bytes)) -> Prog A) : Prog A :=
  match size with
  | O => k (Some (reverse acc))
  | S size' =>
      FillBytes (fun seed =>
        match from_stored_secret seed with
        | Ok kp => generate size' ((kp, seed) :: acc) k
        | Err _ => k None
        end)
  end.

(** The accepted items, in order; [None] is an insert that failed. *)
Fixpoint insert_accepted {A} (identity : InviterIdentity) (dim : Dim) (network : Network)
    (items : list bool) (index : nat) (generated : list (Keypair cr * bytes)) (inserted : Z)
    (k : option Z -> Prog A) : Prog A :=
  match generated with
  | [] => k (Some inserted)
  | (kp, seed) :: rest =>
      if item_accepted items index then
        Insert (public_bytes kp) seed dim network (inviter_ss58 identity) (fun ok : bool =>
          if ok then insert_accepted identity dim network items (S index) rest (inserted + 1) k
          else k None)
      else insert_accepted identity dim network items (S index) rest inserted k
  end.

Definition tick_pool {A} (identity : InviterIdentity) (dim : Dim) (network : Network)
    (tuning : PoolTuning) (batch_size : Z) (k : TickEnd -> Prog A) : Prog A :=
  Count dim network (fun r =>
    match r with
    | None => k TickFailed
    | Some available =>
        let size := plan_refill available (target tuning) batch_size in
        if size =? 0 then k (Ticked 0 batch_size)
        else
          generate (Z.to_nat size) [] (fun r =>
            match r with
            | None => k TickPanicked
            | Some generated =>
                Submit dim ((fun g => public_bytes g.1) <$> generated)
                  (Writer.signer_proxy_for (signer identity) (inviter identity)) (fun r =>
                  match r with
                  | None => k TickFailed
                  | Some items =>
                      insert_accepted identity dim network items 0 generated 0 (fun r =>
                        match r with
                        | None => k TickFailed
                        | Some inserted =>
                            k (Ticked inserted
                                 (WriterLane.settle_batch_size batch_size (batch_max tuning)
                                    (0 <? inserted)))
                        end)
                  end)
            end)
    end).

(** The pools of one tick, in order; [None] when the task panicked. *)
Fixpoint tick_pools {A} (identity : InviterIdentity) (network : Network) (tuning : PoolTuning)
    (sizes done : list (Dim * Z)) (k : option (list (Dim * Z)) -> Prog A) : Prog A :=
  match sizes with
  | [] => k (Some (reverse done))
  | (dim, batch_size) :: rest =>
      tick_pool identity dim network tuning batch_size (fun r =>
        match r with
        | Ticked _ next => tick_pools identity network tuning rest ((dim, next) :: done) k
        | TickFailed =>
            tick_pools identity network tuning rest
              ((dim, WriterLane.settle_batch_size batch_size (batch_max tuning) false) :: done) k
        | TickPanicked => k None
        end)
  end.

(** [rounds] turns of [run_loop]: the lock taken, held elsewhere or in error. *)
Fixpoint run_rounds (identity : InviterIdentity) (network : Network) (tuning : PoolTuning)
    (rounds : nat) (sizes : list (Dim * Z)) : Prog (option (list (Dim * Z))) :=
  match rounds with
  | O => Ret (Some sizes)
  | S rounds' =>
      TryLock (fun r =>
        match r with
        | Some true =>
            tick_pools identity network tuning sizes [] (fun r =>
              match r with
              | None => Ret None
              | Some sizes' =>
                  Sleep (interval tuning) (run_rounds identity network tuning rounds' sizes')
              end)
        | _ => Sleep (interval tuning) (run_rounds identity network tuning rounds' sizes)
        end)
  end.

Definition run_loop (identity : InviterIdentity) (dims : list Dim) (network : Network)
    (tuning : PoolTuning) (rounds : nat) : Prog (option (list (Dim * Z))) :=
  run_rounds identity network tuning rounds ((fun d => (d, batch_max tuning)) <$> dims).

(** [parse_pool_dims]. *)
Definition parse_pool_dims (raw : string) : result (list Dim) string :=
  let parts := filter (fun p => p <> EmptyString) (trim <$> split_on ","%char raw) in
  let? dims := try_map (fun _ part => match Dim_from_str part with
                                      | Some d => Ok d
                                      | None => Err "POOL_DIMS entries must be Game|ProofOfInk"
                                      end) 0 parts in
  match dims with [] => Err "POOL_DIMS must name at least one DIM" | _ => Ok dims end.

End service.

(** ** The processes together *)

(** The database, and the ticket keys the chain has registered. *)
Record TWorld := { tickets : TicketTable; registered : gset (Dim * bytes) }.

(** What decides the outcome of one statement. *)
Inductive Choice :=
| ByDatabase (db_now : Z) (fate : DbFate) (locked : gset bytes) (rank : bytes -> Z)
| ByChain (executed : list bool) (statuses : list TxStatus) (in_time : bool)
| BySeed (seed : bytes)
| ByLock (answer : option bool)
| ByClock.

Definition accepted_calls (dim : Dim) (accounts : list bytes) (executed : list bool)
    : gset (Dim * bytes) :=
  list_to_set (omap (fun ab : bytes * bool => if ab.2 then Some (dim, ab.1) else None)
                 (zip accounts executed)).

Definition with_tickets (t : TicketTable) (w : TWorld) : TWorld :=
  {| tickets := t; registered := registered w |}.

(** One statement of a program. *)
Definition advance {A} (c : Choice) (w : TWorld) (p : Prog A) : option (TWorld * Prog A) :=
  match p, c with
  | Count dim network k, ByDatabase _ fate _ _ =>
      Some (w, k (match fate with
                  | Fine => Some (count_available dim network (tickets w))
                  | _ => None
                  end))
  | Claim dim network who now k, ByDatabase _ fate locked rank =>
      let '(r, t') := claim_oldest locked rank dim network who now (tickets w) in
      Some (match fate with
            | Fine => (with_tickets t' w, k (Some r))
            | Refused => (w, k None)
            | AckLost => (with_tickets t' w, k None)
            end)
  | Insert pk sk dim network inviter k, ByDatabase db_now fate _ _ =>
      let t' := insert_available db_now pk sk dim network inviter (tickets w) in
      Some (match fate with
            | Fine => (with_tickets t' w, k true)
            | Refused => (w, k false)
            | AckLost => (with_tickets t' w, k false)
            end)
  | Submit dim accounts _ k, ByChain executed statuses in_time =>
      Some ({| tickets := tickets w;
               registered := registered w ∪ accepted_calls dim accounts executed |},
            k (if in_time then watch statuses else None))
  | FillBytes k, BySeed seed => Some (w, k seed)
  | TryLock k, ByLock answer => Some (w, k answer)
  | Sleep _ p', ByClock => Some (w, p')
  | _, _ => None
  end.
End Tickets.
