(* ===== verification/TicketProps.v ===== *)
(** * TicketProps: every ticket is handed out once, and can be redeemed *)

From stdpp Require Import gmap relations.
From S2P Require Import Prelude Strings Text Schema DeviceGate WriterLane Usernames Writer Tickets.

#[local] Open Scope string_scope.
#[local] Open Scope Z_scope.

Module TicketProps.
Import Tickets.

(** ** The table *)

Lemma in_pool_spec dim network r :
  in_pool dim network r = true <-> t_state r = Available /\ t_dim r = dim /\ t_network r = network.
Proof. unfold in_pool. rewrite !andb_true_iff, !bool_decide_eq_true. tauto. Qed.

Lemma claimable_elem locked rank dim network t kv :
  kv ∈ claimable locked rank dim network t <->
  t !! kv.1 = Some kv.2 /\ in_pool dim network kv.2 = true /\ kv.1 ∉ locked.
Proof.
  unfold claimable. rewrite elem_of_sort_by, list_elem_of_filter. destruct kv as [k r].
  rewrite elem_of_map_to_list. simpl. tauto.
Qed.

Lemma claim_oldest_none locked rank dim network who now t t' :
  claim_oldest locked rank dim network who now t = (None, t') -> t' = t.
Proof. unfold claim_oldest. destruct (claimable _ _ _ _ _) as [|[k r] l]; by intros [= <-]. Qed.

Lemma claim_oldest_some locked rank dim network who now t ticket t' :
  claim_oldest locked rank dim network who now t = (Some ticket, t') ->
  exists r, t !! ct_public_key ticket = Some r /\ in_pool dim network r = true /\
    (ct_public_key ticket ∉ locked) /\ ct_private_key ticket = t_private_key r /\
    t' = <[ct_public_key ticket := flip_claimed who now r]> t.
Proof.
  unfold claim_oldest. destruct (claimable _ _ _ _ _) as [|[k r] l] eqn:E; [done|].
  intros [= <- <-]. simpl. exists r.
  destruct (proj1 (claimable_elem locked rank dim network t (k, r))) as (H1 & H2 & H3); [|done].
  rewrite E. apply list_elem_of_here.
Qed.

(** What a statement does to a row: rows stay, and a claimed row never changes. *)
Definition row_le (r r' : TicketRow) : Prop :=
  r' = r \/ (t_state r = Available /\ exists who now, r' = flip_claimed who now r).

Definition table_le (t t' : TicketTable) : Prop :=
  forall key r, t !! key = Some r -> exists r', t' !! key = Some r' /\ row_le r r'.

Lemma table_le_refl t : table_le t t.
Proof. intros key r Hr. exists r. split; [done|by left]. Qed.

Lemma claim_oldest_le locked rank dim network who now t :
  table_le t (claim_oldest locked rank dim network who now t).2.
Proof.
  destruct (claim_oldest _ _ _ _ _ _ _) as [[ticket|] t'] eqn:E.
  2: { apply claim_oldest_none in E as ->. apply table_le_refl. }
  apply claim_oldest_some in E as (r & Hr & Hp & _ & _ & ->). apply in_pool_spec in Hp as (Hs & _).
  intros key r0 Hr0. simpl. destruct (decide (key = ct_public_key ticket)) as [->|Hne].
  - rewrite lookup_insert_eq. simplify_eq. eexists. split; [done|]. right. eauto.
  - rewrite lookup_insert_ne by done. exists r0. split; [done|by left].
Qed.

Lemma insert_available_le db_now pk sk dim network inviter t :
  table_le t (insert_available db_now pk sk dim network inviter t).
Proof.
  unfold insert_available. destruct (t !! pk) eqn:E; [apply table_le_refl|].
  intros key r Hr. exists r. split; [|by left]. rewrite lookup_insert_ne by congruence. done.
Qed.

(** The count of a pool, and how one row changes it. *)
Lemma count_delete dim network key r t :
  t !! key = Some r ->
  count_available dim network t
  = count_available dim network (delete key t) + (if in_pool dim network r then 1 else 0).
Proof.
  intros Hr. unfold count_available. rewrite <- (insert_delete_id t key r Hr) at 1.
  rewrite map_filter_insert. simpl. destruct (in_pool dim network r) eqn:E.
  - rewrite decide_True by done.
    rewrite map_size_insert_None; [lia|]. rewrite map_lookup_filter_None, lookup_delete_eq. by left.
  - rewrite decide_False by done. rewrite delete_id by (rewrite lookup_delete_eq; done). lia.
Qed.

Lemma count_insert dim network key r t :
  count_available dim network (<[key := r]> t)
  = count_available dim network (delete key t) + (if in_pool dim network r then 1 else 0).
Proof. rewrite (count_delete dim network key r), delete_insert_eq; [done|apply lookup_insert_eq]. Qed.

Lemma count_claim locked rank d n who now t dim network :
  count_available dim network (claim_oldest locked rank d n who now t).2
  <= count_available dim network t.
Proof.
  destruct (claim_oldest _ _ _ _ _ _ _) as [[ticket|] t'] eqn:E; simpl.
  2: by apply claim_oldest_none in E as ->.
  apply claim_oldest_some in E as (r & Hr & _ & _ & _ & ->).
  rewrite count_insert, (count_delete _ _ _ _ t Hr). unfold in_pool at 1. simpl.
  destruct (in_pool dim network r); lia.
Qed.

Lemma count_insert_available db_now pk sk d n inviter t dim network :
  count_available dim network (insert_available db_now pk sk d n inviter t)
  <= count_available dim network t + (if decide (d = dim /\ n = network) then 1 else 0).
Proof.
  unfold insert_available. destruct (t !! pk) as [r|] eqn:E; [destruct (decide _); lia|].
  rewrite count_insert, (delete_id t pk) by done. unfold in_pool. simpl.
  destruct (decide (d = dim /\ n = network)) as [[-> ->]|Hne].
  - rewrite !bool_decide_true by done. simpl. lia.
  - assert (bool_decide (d = dim) && bool_decide (n = network) = false) as ->; [|simpl; lia].
    apply andb_false_iff. rewrite !bool_decide_eq_false. destruct (decide (d = dim)); tauto.
Qed.

(** ** The system *)

(** What the chain and the random source promise: a finalized block reports the
    items of the batch in order, and an event that does not decode ends the
    report; a seed is 32 bytes. *)
Definition honest {A} (p : Prog A) (c : Choice) : Prop :=
  match p, c with
  | Submit _ _ _ _, ByChain executed statuses _ =>
      forall success events, InFinalizedBlock success events ∈ statuses ->
      exists n, is_ok <$> WriterLane.batch_item_results (omap id events) = take n executed
  | FillBytes _, BySeed seed => length seed = 32%nat /\ Forall is_byte seed
  | _, _ => True
  end.

Lemma watch_take statuses executed items :
  (forall success events, InFinalizedBlock success events ∈ statuses ->
   exists n, is_ok <$> WriterLane.batch_item_results (omap id events) = take n executed) ->
  watch statuses = Some items -> exists n, items = take n executed.
Proof.
  induction statuses as [|s statuses IH]; [done|]. intros Hh. destruct s; simpl; try done.
  - destruct success; [|done]. intros [= <-]. apply (Hh true). apply list_elem_of_here.
  - apply IH. intros success events Hin. apply (Hh success). by apply list_elem_of_further.
Qed.

Section props.
Context (cr : TicketCrates) (network : Network).

Record Request := { rq_rate : option Z; rq_now : Z; rq_body : bytes }.

Definition serve (rq : Request) : Prog (result ClaimResponse AppError) :=
  claim_ticket cr network (rq_rate rq) (rq_now rq) (rq_body rq).

(** The request as the route reads it. *)
Definition read (rq : Request) : option ClaimRequest :=
  match json_from_slice cr (rq_body rq) with
  | Some body => match validate_body cr body with Ok r => Some r | Err _ => None end
  | None => None
  end.

Record Sys := {
  s_world : TWorld;
  s_claims : list (Prog (result ClaimResponse AppError));
  s_pool : Prog (option (list (Dim * Z))) }.

Inductive sstep : Sys -> Sys -> Prop :=
| step_claim w claims pool i p c w' p' :
    claims !! i = Some p -> honest p c -> advance c w p = Some (w', p') ->
    sstep {| s_world := w; s_claims := claims; s_pool := pool |}
          {| s_world := w'; s_claims := <[i := p']> claims; s_pool := pool |}
| step_pool w claims pool c w' pool' :
    honest pool c -> advance c w pool = Some (w', pool') ->
    sstep {| s_world := w; s_claims := claims; s_pool := pool |}
          {| s_world := w'; s_claims := claims; s_pool := pool' |}.

(** ** The claim route as a program *)

(** [h] is the ticket the program has obtained. *)
Fixpoint goes (rq : Request) (h : option ClaimedTicket) (p : Prog (result ClaimResponse AppError)) : Prop :=
  match p with
  | Ret (Ok r) =>
      exists request ticket kp remaining, read rq = Some request /\ h = Some ticket /\
        from_stored_secret cr (ct_private_key ticket) = Ok kp /\
        r = claim_response cr ticket (sign cr kp (who_account request)) (dim request) network
              (who request) (rq_now rq) remaining
  | Ret (Err _) => True
  | Count _ _ k => forall a, goes rq h (k a)
  | Claim d n w now k =>
      h = None /\ (exists request, read rq = Some request /\ d = dim request /\ w = who request) /\
      n = network /\ now = rq_now rq /\
      (forall t, goes rq (Some t) (k (Some (Some t)))) /\ goes rq None (k (Some None)) /\ goes rq None (k None)
  | Sleep _ p' => goes rq h p'
  | _ => False
  end.

Lemma retry_count_goes rq h dim n retries delay k :
  (forall a, goes rq h (k a)) -> goes rq h (retry_db retries delay (Count dim n) k).
Proof.
  intros Hk. revert delay. induction retries as [|retries IH]; intros delay; simpl; intros [a|]; simpl; auto.
Qed.

Lemma retry_claim_goes rq d n w now retries delay k :
  (exists request, read rq = Some request /\ d = dim request /\ w = who request) ->
  n = network -> now = rq_now rq ->
  (forall t, goes rq (Some t) (k (Some (Some t)))) -> goes rq None (k (Some None)) -> goes rq None (k None) ->
  goes rq None (retry_db retries delay (Claim d n w now) k).
Proof.
  intros H1 H2 H3 Hs Hn He. revert delay.
  induction retries as [|retries IH]; intros delay; simpl; split_and!; auto.
Qed.

Lemma serve_goes rq : goes rq None (serve rq).
Proof.
  unfold serve, claim_ticket. destruct (json_from_slice cr (rq_body rq)) as [body|] eqn:Eb; [|done].
  destruct (validate_body cr body) as [request|errors] eqn:Ev; [|done].
  destruct (rq_rate rq) as [r|]; [done|]. assert (Hread : read rq = Some request) by (unfold read; by rewrite Eb, Ev).
  apply retry_count_goes. intros [available|]; [|done]. destruct (available =? 0); [done|].
  apply retry_claim_goes; [eauto|done|done| |done|done]. intros ticket. unfold answer_claim.
  destruct (from_stored_secret cr (ct_private_key ticket)) as [kp|] eqn:Ek; [|done].
  apply retry_count_goes. intros [remaining|]; [|done]. simpl. eauto 10.
Qed.

(** ** The maintainer as a program: what it inserts the chain has accepted *)

Definition key_ok (chain : gset (Dim * bytes)) (dim : Dim) (pk sk : bytes) : Prop :=
  (dim, pk) ∈ chain /\ Forall is_byte pk /\
  exists kp, from_stored_secret cr sk = Ok kp /\ public_bytes cr kp = pk.

Fixpoint feeds {A : Type} (chain : gset (Dim * bytes)) (p : Prog A) : Prop :=
  match p with
  | Ret _ => True
  | Count _ _ k => forall a, feeds chain (k a)
  | Claim _ _ _ _ _ => False
  | Insert pk sk d n _ k => n = network /\ key_ok chain d pk sk /\ forall b, feeds chain (k b)
  | Submit d accounts _ k =>
      feeds chain (k None) /\
      forall executed n, feeds (chain ∪ accepted_calls d accounts executed) (k (Some (take n executed)))
  | FillBytes k => forall seed, length seed = 32%nat -> Forall is_byte seed -> feeds chain (k seed)
  | TryLock k => forall a, feeds chain (k a)
  | Sleep _ p' => feeds chain p'
  end.

Lemma key_ok_mono chain chain' d pk sk : chain ⊆ chain' -> key_ok chain d pk sk -> key_ok chain' d pk sk.
Proof. intros Hs (H1 & H2 & H3). split_and!; [set_solver|done..]. Qed.

Lemma feeds_mono {A : Type} (p : Prog A) chain chain' : chain ⊆ chain' -> feeds chain p -> feeds chain' p.
Proof.
  revert chain chain'. induction p as [a|d n k IH|d n w now k IH|pk sk d n inv k IH|d acc px k IH|k IH|k IH|ms p IH];
    simpl; intros chain chain' Hs; try done; eauto.
  - intros (H1 & H2 & H3). split_and!; eauto using key_ok_mono.
  - intros [H1 H2]. split; [eauto|]. intros executed n. eapply IH; [|apply H2]. set_solver.
Qed.

(** The keys of a batch the chain took. *)
Lemma item_accepted_call d accounts executed n i pk :
  item_accepted (take n executed) i = true -> accounts !! i = Some pk ->
  (d, pk) ∈ accepted_calls d accounts executed.
Proof.
  unfold item_accepted. destruct (take n executed !! i) as [[]|] eqn:E; try done. intros _ Hpk.
  apply lookup_take_Some in E as [E _]. unfold accepted_calls. rewrite elem_of_list_to_set, list_elem_of_omap.
  exists (pk, true). split; [|done]. apply list_elem_of_lookup. exists i.
  rewrite lookup_zip_with, Hpk. simpl. by rewrite E.
Qed.

Definition pair_ok (g : Keypair cr * bytes) : Prop :=
  from_stored_secret cr g.2 = Ok g.1 /\ Forall is_byte (public_bytes cr g.1).

Lemma insert_accepted_feeds {A : Type} identity d items (k : option Z -> Prog A) chain generated i inserted :
  (forall r, feeds chain (k r)) -> Forall pair_ok generated ->
  (forall j g, generated !! j = Some g -> item_accepted items (i + j) = true ->
     (d, public_bytes cr g.1) ∈ chain) ->
  feeds chain (insert_accepted cr identity d network items i generated inserted k).
Proof.
  intros Hk. revert i inserted. induction generated as [|[kp seed] generated IH]; intros i inserted Hg Hin;
    simpl; [apply Hk|].
  apply Forall_cons in Hg as [[Hg1 Hg2] Hg].
  assert (Hrest : forall m, feeds chain (insert_accepted cr identity d network items (S i) generated m k)).
  { intros m. apply IH; [done|]. intros j g Hj. rewrite Nat.add_succ_comm. apply (Hin (S j)); done. }
  destruct (item_accepted items i) eqn:Ei; [|done]. split_and!; [done| |].
  - split_and!; [|done|by exists kp]. apply (Hin 0%nat (kp, seed)); [done|]. by rewrite Nat.add_0_r.
  - intros []; [done|apply Hk].
Qed.

Context (Hpub : forall kp, Forall is_byte (public_bytes cr kp)).

Lemma generate_feeds {A : Type} n acc (k : option (list (Keypair cr * bytes)) -> Prog A) chain :
  Forall pair_ok acc -> feeds chain (k None) ->
  (forall l, Forall pair_ok l -> feeds chain (k (Some l))) -> feeds chain (generate cr n acc k).
Proof.
  intros Hacc Hnone Hsome. revert acc Hacc. induction n as [|n IH]; intros acc Hacc; simpl.
  - apply Hsome. by apply Forall_reverse.
  - intros seed _ _. destruct (from_stored_secret cr seed) as [kp|] eqn:E; [|done].
    apply IH. constructor; [by split|done].
Qed.

Lemma tick_pool_feeds {A : Type} identity d tuning size (k : TickEnd -> Prog A) chain :
  (forall r chain', chain ⊆ chain' -> feeds chain' (k r)) ->
  feeds chain (tick_pool cr identity d network tuning size k).
Proof.
  intros Hk. unfold tick_pool. intros [available|]; [|by apply Hk].
  destruct (_ =? 0); [by apply Hk|]. apply generate_feeds; [constructor|by apply Hk|].
  intros l Hl. split; [by apply Hk|]. intros executed n.
  apply insert_accepted_feeds; [|done|].
  - intros [m|]; apply Hk; set_solver.
  - intros j g Hj Hacc. apply elem_of_union_r. eapply item_accepted_call; [exact Hacc|].
    simpl. by rewrite list_lookup_fmap, Hj.
Qed.

Lemma tick_pools_feeds {A : Type} identity tuning sizes done' (k : option (list (Dim * Z)) -> Prog A) chain :
  (forall r chain', chain ⊆ chain' -> feeds chain' (k r)) ->
  feeds chain (tick_pools cr identity network tuning sizes done' k).
Proof.
  revert done' chain. induction sizes as [|[d size] sizes IH]; intros done' chain Hk; cbn [tick_pools]; [by apply Hk|].
  apply tick_pool_feeds. intros r chain' Hs.
  destruct r; [apply IH|apply IH|by apply Hk]; intros r chain'' Hs'; apply Hk; set_solver.
Qed.

Lemma run_rounds_feeds identity tuning rounds sizes chain :
  feeds chain (run_rounds cr identity network tuning rounds sizes).
Proof.
  revert sizes chain. induction rounds as [|rounds IH]; intros sizes chain; simpl; [done|].
  intros [[]|]; simpl; [|apply IH|apply IH].
  apply tick_pools_feeds. intros [sizes'|] chain' _; simpl; [apply IH|done].
Qed.

(** ** The invariant *)

Definition table_ok (w : TWorld) : Prop :=
  forall pk r, tickets w !! pk = Some r -> key_ok (registered w) (t_dim r) pk (t_private_key r).

(** The row behind a ticket a program has obtained. *)
Definition holds (w : TWorld) (rq : Request) (h : option ClaimedTicket) : Prop :=
  forall ticket, h = Some ticket ->
  exists request r, read rq = Some request /\ tickets w !! ct_public_key ticket = Some r /\
    t_state r = Claimed /\ t_claimed_by r = Some (who request) /\ t_claimed_at r = Some (rq_now rq) /\
    t_private_key r = ct_private_key ticket /\ t_dim r = dim request /\ t_network r = network.

Lemma holds_le w w' rq h : table_le (tickets w) (tickets w') -> holds w rq h -> holds w' rq h.
Proof.
  intros Hle Hh ticket ->. destruct (Hh ticket eq_refl) as (request & r & H1 & H2 & H3 & H4).
  destruct (Hle _ _ H2) as (r' & Hr' & [->|[Ha _]]); [|congruence]. eauto 10.
Qed.

Lemma table_ok_claim locked rank d n w0 now w :
  table_ok w -> table_ok (with_tickets (claim_oldest locked rank d n w0 now (tickets w)).2 w).
Proof.
  intros Hok. destruct (claim_oldest _ _ _ _ _ _ _) as [[ticket|] t'] eqn:E; simpl.
  - apply claim_oldest_some in E as (r & Hr & _ & _ & _ & ->). intros pk r'. simpl.
    destruct (decide (pk = ct_public_key ticket)) as [->|Hne].
    + rewrite lookup_insert_eq. intros [= <-]. simpl. by apply Hok.
    + rewrite lookup_insert_ne by done. apply Hok.
  - apply claim_oldest_none in E as ->. by destruct w.
Qed.

(** A claim found its row available, and the row is now held. *)
Lemma claim_holds locked rank rq request w ticket t' :
  read rq = Some request ->
  claim_oldest locked rank (dim request) network (who request) (rq_now rq) (tickets w) = (Some ticket, t') ->
  (exists r, tickets w !! ct_public_key ticket = Some r /\ t_state r = Available) /\
  holds (with_tickets t' w) rq (Some ticket).
Proof.
  intros Hread E. apply claim_oldest_some in E as (r & Hr & Hp & _ & Hsk & ->).
  apply in_pool_spec in Hp as (H1 & H2 & H3). split; [eauto|].
  intros ticket' [= <-]. exists request, (flip_claimed (who request) (rq_now rq) r). simpl.
  rewrite lookup_insert_eq. auto 10.
Qed.

Lemma goes_advance rq h p c w w' p' :
  goes rq h p -> advance c w p = Some (w', p') -> table_ok w ->
  registered w' = registered w /\ table_le (tickets w) (tickets w') /\ table_ok w' /\
  exists h', goes rq h' p' /\
    (h' = h \/ exists ticket, h' = Some ticket /\ holds w' rq h' /\
       exists r, tickets w !! ct_public_key ticket = Some r /\ t_state r = Available).
Proof.
  intros Hg Ha Hok. destruct p as [a|d n k|d n w0 now k|pk sk d n inv k|d acc px k|k|k|ms p]; destruct c;
    simpl in Hg, Ha; try done.
  - injection Ha as <- <-. split_and!; try done; [apply table_le_refl|]. exists h. auto.
  - destruct Hg as (-> & (request & Hread & -> & ->) & -> & -> & Hs & Hn & He).
    pose proof (claim_oldest_le locked rank (dim request) network (who request) (rq_now rq) (tickets w)) as Hle.
    pose proof (table_ok_claim locked rank (dim request) network (who request) (rq_now rq) w Hok) as Hok'.
    pose proof (claim_holds locked rank rq request w) as Hh.
    destruct (claim_oldest _ _ _ _ _ _ _) as [r t']. simpl in Hle, Hok'.
    destruct fate; simplify_eq; split_and!; try done; try apply table_le_refl; try (exists None; by auto).
    destruct r as [ticket|]; [|exists None; by auto].
    destruct (Hh ticket t' Hread eq_refl) as [Hr Hh']. exists (Some ticket). split; [done|]. right. eauto.
  - injection Ha as <- <-. split_and!; try done; [apply table_le_refl|]. exists h. auto.
Qed.

Lemma feeds_advance {A : Type} chain (p : Prog A) c w w' p' :
  chain ⊆ registered w -> feeds chain p -> honest p c -> advance c w p = Some (w', p') -> table_ok w ->
  table_le (tickets w) (tickets w') /\ table_ok w' /\
  exists chain', chain' ⊆ registered w' /\ feeds chain' p'.
Proof.
  intros Hc Hf Hh Ha Hok. destruct p as [a|d n k|d n w0 now k|pk sk d n inv k|d acc px k|k|k|ms p]; destruct c;
    simpl in Hf, Hh, Ha; try done.
  - injection Ha as <- <-. split_and!; [apply table_le_refl|done|eauto].
  - destruct Hf as (-> & Hkey & Hf).
    assert (table_ok (with_tickets (insert_available db_now pk sk d network inv (tickets w)) w)) as Hok'.
    { unfold insert_available. destruct (tickets w !! pk) eqn:E; [by destruct w|].
      intros pk' r'. simpl. destruct (decide (pk' = pk)) as [->|Hne].
      - rewrite lookup_insert_eq. intros [= <-]. simpl. by apply (key_ok_mono chain).
      - rewrite lookup_insert_ne by done. apply Hok. }
    pose proof (insert_available_le db_now pk sk d network inv (tickets w)).
    destruct fate; simplify_eq; split_and!; try done; try apply table_le_refl; eauto.
  - destruct Hf as [Hnone Hsome]. injection Ha as <- <-. split_and!; [apply table_le_refl| |].
    + intros pk r Hr. apply (key_ok_mono (registered w)); [set_solver|by apply Hok].
    + exists (chain ∪ accepted_calls d acc executed). split; [set_solver|].
      destruct in_time; [|eapply feeds_mono; [|exact Hnone]; set_solver].
      destruct (watch statuses) as [items|] eqn:E; [|eapply feeds_mono; [|exact Hnone]; set_solver].
      destruct (watch_take _ _ _ Hh E) as [n ->]. apply Hsome.
  - destruct Hh. injection Ha as <- <-. split_and!; [apply table_le_refl|done|]. exists chain. auto.
  - injection Ha as <- <-. split_and!; [apply table_le_refl|done|eauto].
  - injection Ha as <- <-. split_and!; [apply table_le_refl|done|eauto].
Qed.

Record sys_inv (rqs : list Request) (held : nat -> option ClaimedTicket) (s : Sys) : Prop := {
  si_table : table_ok (s_world s);
  si_pool : exists chain, chain ⊆ registered (s_world s) /\ feeds chain (s_pool s);
  si_claims : forall i rq p, rqs !! i = Some rq -> s_claims s !! i = Some p ->
    goes rq (held i) p /\ holds (s_world s) rq (held i);
  si_length : length (s_claims s) = length rqs;
  si_own : forall i, is_Some (held i) -> is_Some (rqs !! i);
  si_distinct : forall i j ti tj, held i = Some ti -> held j = Some tj ->
    ct_public_key ti = ct_public_key tj -> i = j }.

Definition start (w : TWorld) (identity : InviterIdentity) (dims : list Dim) (tuning : PoolTuning)
    (rounds : nat) (rqs : list Request) : Sys :=
  {| s_world := w; s_claims := serve <$> rqs;
     s_pool := run_loop cr identity dims network tuning rounds |}.

Lemma start_inv w identity dims tuning rounds rqs :
  table_ok w -> sys_inv rqs (fun _ => None) (start w identity dims tuning rounds rqs).
Proof.
  intros Hok. split; simpl; try done.
  - exists ∅. split; [set_solver|]. apply run_rounds_feeds.
  - intros i rq p Hrq. rewrite list_lookup_fmap, Hrq. intros [= <-]. split; [apply serve_goes|done].
  - by rewrite length_fmap.
Qed.

(** The statement of another process keeps what the claims hold. *)
Lemma claims_kept (rqs : list Request) held w w' (claims : list (Prog (result ClaimResponse AppError))) :
  table_le (tickets w) (tickets w') ->
  (forall i rq p, rqs !! i = Some rq -> claims !! i = Some p -> goes rq (held i) p /\ holds w rq (held i)) ->
  forall i rq p, rqs !! i = Some rq -> claims !! i = Some p -> goes rq (held i) p /\ holds w' rq (held i).
Proof. intros Hle Hc i rq p H1 H2. destruct (Hc i rq p H1 H2). eauto using holds_le. Qed.

(** A ticket just obtained is held by nobody else. *)
Lemma held_elsewhere rqs held s j tj pk r :
  sys_inv rqs held s -> held j = Some tj -> ct_public_key tj = pk ->
  tickets (s_world s) !! pk = Some r -> t_state r = Available -> False.
Proof.
  intros [_ _ Hc Hl Ho _] Hj <- Hr Ha. destruct (Ho j) as [rq Hrq]; [by rewrite Hj|].
  destruct (lookup_lt_is_Some_2 (s_claims s) j) as [p Hp]; [rewrite Hl; by eapply lookup_lt_Some|].
  destruct (Hc j rq p Hrq Hp) as [_ Hh]. destruct (Hh tj Hj) as (request & r' & _ & Hr' & Hcl & _). congruence.
Qed.

Lemma sstep_inv rqs held s s' : sys_inv rqs held s -> sstep s s' -> exists held', sys_inv rqs held' s'.
Proof.
  intros Hinv Hstep. pose proof (held_elsewhere rqs held s) as Helse. destruct Hinv as [Hok Hpool Hc Hl Ho Hd].
  inversion Hstep as [w claims pool i p c w' p' Hp Hh Ha|w claims pool c w' pool' Hh Ha]; subst; simpl in *.
  - destruct (lookup_lt_is_Some_2 rqs i) as [rq Hrq]; [rewrite <- Hl; by eapply lookup_lt_Some|].
    destruct (Hc i rq p Hrq Hp) as [Hg Hho].
    destruct (goes_advance rq _ p c w w' p' Hg Ha Hok) as (Hreg & Hle & Hok' & h' & Hg' & Hnew).
    exists (fun j => if decide (j = i) then h' else held j). split; simpl.
    + done.
    + by rewrite Hreg.
    + intros j rq' q Hrq' Hq. destruct (decide (j = i)) as [->|Hne].
      * rewrite list_lookup_insert_eq in Hq by (by eapply lookup_lt_Some). simplify_eq. split; [done|].
        destruct Hnew as [->|(ticket & -> & ? & _)]; [by eapply holds_le|done].
      * rewrite list_lookup_insert_ne in Hq by done. by eapply claims_kept.
    + by rewrite length_insert.
    + intros j. destruct (decide (j = i)) as [->|Hne]; [by rewrite Hrq|apply Ho].
    + destruct Hnew as [->|(ticket & -> & _ & r & Hr & Har)].
      { intros j j' tj tj' H1 H2. apply (Hd j j' tj tj'); [by destruct (decide (j = i)); subst|].
        by destruct (decide (j' = i)); subst. }
      intros j j' tj tj' H1 H2 Heq.
      destruct (decide (j = i)) as [->|]; destruct (decide (j' = i)) as [->|]; simplify_eq; [done| | |by eapply Hd].
      * exfalso. eapply Helse; [by split|exact H2|by symmetry|exact Hr|exact Har].
      * exfalso. eapply Helse; [by split|exact H1|exact Heq|exact Hr|exact Har].
  - destruct Hpool as (chain & Hsub & Hf).
    destruct (feeds_advance chain pool c w w' pool' Hsub Hf Hh Ha Hok) as (Hle & Hok' & Hpool').
    exists held. split; simpl; try done. intros j rq q. by eapply claims_kept.
Qed.

Lemma reachable_inv rqs s0 s :
  rtc sstep s0 s -> (exists held, sys_inv rqs held s0) -> exists held, sys_inv rqs held s.
Proof. induction 1 as [|s0 s1 s Hstep _ IH]; [done|]. intros [held Hinv]. apply IH. by eapply sstep_inv. Qed.
End props.
End TicketProps.
