(* ===== verification/TicketClaims.v ===== *)
(** * TicketClaims: the properties of the invitation-ticket service *)

From stdpp Require Import gmap relations.
From S2P Require Import Prelude Strings Text Schema DeviceGate WriterLane Usernames Writer Tickets.
From S2P Require Import TicketProps.

#[local] Open Scope string_scope.
#[local] Open Scope Z_scope.

Module TicketClaims.
Import Tickets TicketProps.

(** ** The budget of a refill *)

Section budget.
Context (cr : TicketCrates) (network : Network) (goal : Z).

(** [active] is the pool being refilled and [b] the inserts it may still make. *)
Fixpoint fits {A : Type} (active : option Dim) (b : Z) (p : Prog A) : Prop :=
  match p with
  | Ret _ => True
  | Count d n k =>
      n = network /\ fits None 0 (k None) /\
      forall a, 0 <= a -> fits (Some d) (Z.max 0 (goal - a)) (k (Some a))
  | Claim _ _ _ _ _ => False
  | Insert _ _ d n _ k => n = network /\ active = Some d /\ 0 < b /\ forall ok, fits active (b - 1) (k ok)
  | Submit _ _ _ k => forall r, fits active b (k r)
  | FillBytes k => forall seed, fits active b (k seed)
  | TryLock k => forall a, fits active b (k a)
  | Sleep _ p' => fits active b p'
  end.

Lemma fits_more {A : Type} (p : Prog A) active b active' b' :
  fits active b p -> b <= b' -> active = active' \/ b <= 0 -> fits active' b' p.
Proof.
  revert active b active' b'.
  induction p as [a|d n k IH|d n w now k IH|pk sk d n inv k IH|d acc px k IH|k IH|k IH|ms p IH];
    simpl; intros active b active' b' Hf Hb Ha; try done; eauto.
  destruct Hf as (-> & -> & Hpos & Hf). destruct Ha as [<-|Ha]; [|lia]. split_and!; try done; [lia|].
  intros ok. eapply IH; [apply Hf|lia|by left].
Qed.

Lemma insert_accepted_fits {A : Type} identity d items (k : option Z -> Prog A) generated i inserted b :
  (forall r, fits None 0 (k r)) -> Z.of_nat (length generated) <= b ->
  fits (Some d) b (insert_accepted cr identity d network items i generated inserted k).
Proof.
  intros Hk. revert i inserted b. induction generated as [|[kp seed] l IH]; intros i inserted b Hb; simpl in *.
  - eapply fits_more; [apply Hk|lia|right; lia].
  - destruct (item_accepted items i); [|apply IH; lia]. split_and!; try done; [lia|].
    intros []; [apply IH; lia|]. eapply fits_more; [apply Hk|lia|right; lia].
Qed.

Lemma generate_fits {A : Type} n acc (k : option (list (Keypair cr * bytes)) -> Prog A) active b :
  fits active b (k None) -> (forall l, length l = (n + length acc)%nat -> fits active b (k (Some l))) ->
  fits active b (generate cr n acc k).
Proof.
  intros Hn. revert acc. induction n as [|n IH]; intros acc Hs; simpl.
  - apply Hs. apply length_reverse.
  - intros seed. destruct (from_stored_secret cr seed); [|done]. apply IH. intros l Hl. apply Hs. simpl in Hl. lia.
Qed.

Lemma plan_refill_le available size : 0 <= available ->
  Z.of_nat (Z.to_nat (plan_refill available goal size)) <= Z.max 0 (goal - available).
Proof.
  intros Ha. unfold plan_refill, clamp, I64_MIN, I64_MAX, U16_MAX. destruct (_ <=? 0) eqn:E; [simpl; lia|].
  bool_prop. lia.
Qed.

Lemma tick_pool_fits {A : Type} identity d tuning size (k : TickEnd -> Prog A) :
  target tuning = goal -> (forall r, fits None 0 (k r)) ->
  fits None 0 (tick_pool cr identity d network tuning size k).
Proof.
  intros Ht Hk. unfold tick_pool. simpl. split_and!; [done|apply Hk|]. intros a Ha. rewrite Ht.
  pose proof (plan_refill_le a size Ha) as Hp.
  assert (Hk' : forall r, fits (Some d) (Z.max 0 (goal - a)) (k r)).
  { intros r. eapply fits_more; [apply Hk|lia|right; lia]. }
  destruct (plan_refill a goal size =? 0); [apply Hk'|]. apply generate_fits; [apply Hk'|].
  intros l Hl. intros [items|]; [|apply Hk']. apply insert_accepted_fits; [by intros []|]. simpl in Hl. lia.
Qed.

Lemma tick_pools_fits {A : Type} identity tuning sizes acc (k : option (list (Dim * Z)) -> Prog A) :
  target tuning = goal -> (forall r, fits None 0 (k r)) ->
  fits None 0 (tick_pools cr identity network tuning sizes acc k).
Proof.
  intros Ht Hk. revert acc. induction sizes as [|[d size] sizes IH]; intros acc; cbn [tick_pools]; [apply Hk|].
  apply tick_pool_fits; [done|]. intros []; auto.
Qed.

Lemma run_rounds_fits identity tuning rounds sizes :
  target tuning = goal -> fits None 0 (run_rounds cr identity network tuning rounds sizes).
Proof.
  intros Ht. revert sizes. induction rounds as [|rounds IH]; intros sizes; simpl; [done|].
  intros [[]|]; simpl; auto. apply tick_pools_fits; [done|]. intros []; simpl; auto.
Qed.

(** The pools stay within the goal, with what the maintainer may still add. *)
Definition budget (active : option Dim) (b : Z) (t : TicketTable) : Prop :=
  0 <= b /\ forall d, count_available d network t + (if decide (active = Some d) then b else 0) <= goal.

Lemma budget_le active b t t' :
  (forall d, count_available d network t' <= count_available d network t) ->
  budget active b t -> budget active b t'.
Proof. intros Hc [Hb Ht]. split; [done|]. intros d. specialize (Hc d). specialize (Ht d). lia. Qed.

Lemma budget_none active b t : budget active b t -> budget None 0 t.
Proof. intros [Hb Ht]. split; [lia|]. intros d. specialize (Ht d). simpl. destruct (decide _); lia. Qed.

Lemma fits_advance {A : Type} (p : Prog A) active b c w w' p' :
  fits active b p -> advance c w p = Some (w', p') -> budget active b (tickets w) ->
  exists active' b', fits active' b' p' /\ budget active' b' (tickets w').
Proof.
  intros Hf Ha Hb. destruct p as [a|d n k|d n w0 now k|pk sk d n inv k|d acc px k|k|k|ms p]; destruct c;
    simpl in Hf, Ha; try done; try (injection Ha as <- <-; by eauto).
  - destruct Hf as (-> & Hnone & Hsome). injection Ha as <- <-.
    destruct fate; try (exists None, 0; split; [done|by eapply budget_none]).
    assert (0 <= count_available d network (tickets w)) by (unfold count_available; lia).
    eexists _, _. split; [by apply Hsome|]. destruct Hb as [Hb Ht]. split; [lia|].
    intros d'. specialize (Ht d'). destruct (decide (Some d = Some d')) as [[= <-]|]; destruct (decide _); lia.
  - destruct Hf as (-> & -> & Hpos & Hf). destruct Hb as [Hb Ht].
    assert (budget (Some d) (b - 1) (tickets w)) as Hkept.
    { split; [lia|]. intros d'. specialize (Ht d'). destruct (decide _); lia. }
    assert (budget (Some d) (b - 1) (insert_available db_now pk sk d network inv (tickets w))) as Hadd.
    { split; [lia|]. intros d'. specialize (Ht d').
      pose proof (count_insert_available db_now pk sk d network inv (tickets w) d' network) as Hc.
      destruct (decide (Some d = Some d')) as [[= <-]|Hne]; [rewrite decide_True in Hc by done; lia|].
      rewrite decide_False in Hc by (intros [-> _]; done). lia. }
    destruct fate; simplify_eq; eauto.
Qed.

Lemma goes_count rq h p c w w' p' d :
  goes cr network rq h p -> advance c w p = Some (w', p') ->
  count_available d network (tickets w') <= count_available d network (tickets w).
Proof.
  intros Hg Ha. destruct p as [a|d0 n k|d0 n w0 now k|pk sk d0 n inv k|d0 acc px k|k|k|ms p]; destruct c;
    simpl in Hg, Ha; try done; simplify_eq; try done.
  pose proof (count_claim locked rank d0 n w0 now (tickets w) d network) as Hc.
  destruct (claim_oldest _ _ _ _ _ _ _) as [r t']. destruct fate; simplify_eq; simpl in *; lia.
Qed.
End budget.

(** ** Bounded work *)

Fixpoint lasts {A : Type} (n m : nat) (p : Prog A) : Prop :=
  match p, n with
  | Ret _, _ => True
  | _, O => False
  | Count _ _ k, S n => forall a, lasts n m (k a)
  | Claim _ _ _ _ k, S n => match m with O => False | S m => forall a, lasts n m (k a) end
  | Sleep _ p', S n => lasts n m p'
  | _, _ => False
  end.

Definition is_claim {A : Type} (p : Prog A) : nat := match p with Claim _ _ _ _ _ => 1%nat | _ => 0%nat end.

(** [n] statements and sleeps of a program, [m] of them claims; the world may
    change between two of them. *)
Inductive turns {A : Type} : nat -> nat -> Prog A -> Prog A -> Prop :=
| turns_nil p : turns 0 0 p p
| turns_cons c w w' p p' q n m :
    advance c w p = Some (w', p') -> turns n m p' q -> turns (S n) (is_claim p + m) p q.

Lemma turns_lasts {A : Type} n m (p q : Prog A) :
  turns n m p q -> forall n' m', lasts n' m' p -> (n <= n' /\ m <= m')%nat /\ lasts (n' - n) (m' - m) q.
Proof.
  induction 1 as [p|c w w' p p' q n m Ha Ht IH]; intros n' m' Hl; [rewrite !Nat.sub_0_r; split; [lia|done]|].
  destruct p as [a|d n0 k|d n0 w0 now k|pk sk d n0 inv k|d acc px k|k|k|ms p]; destruct c;
    simpl in Ha, Hl; try done; destruct n' as [|n']; try done.
  - injection Ha as _ <-. destruct (IH n' m') as [? ?]; [apply Hl|]. simpl. split; [lia|done].
  - destruct m' as [|m']; [done|]. destruct (claim_oldest _ _ _ _ _ _ _) as [r t'].
    assert (lasts n' m' p') as Hp' by (destruct fate; simplify_eq; apply Hl).
    destruct (IH n' m' Hp') as [? ?]. simpl. split; [lia|done].
  - injection Ha as _ <-. destruct (IH n' m') as [? ?]; [apply Hl|]. simpl. split; [lia|done].
Qed.

Lemma lasts_more {A : Type} (p : Prog A) n m n' m' : lasts n m p -> (n <= n')%nat -> (m <= m')%nat -> lasts n' m' p.
Proof.
  revert n m n' m'. induction p as [a|d n0 k IH|d n0 w now k IH|pk sk d n0 inv k IH|d acc px k IH|k IH|k IH|ms p IH];
    intros n m n' m' Hl Hn Hm; destruct n as [|n]; simpl in Hl; try done; destruct n' as [|n']; try lia; simpl; try done;
    try (intros; eapply IH; [apply Hl|lia|lia]).
  destruct m as [|m]; [done|]. destruct m' as [|m']; [lia|]. intros a. eapply IH; [apply Hl|lia|lia].
Qed.

Lemma retry_count_lasts {A : Type} d net retries delay (k : option Z -> Prog A) n m :
  (forall a, lasts n m (k a)) -> lasts (2 * retries + 1 + n) m (retry_db retries delay (Count d net) k).
Proof.
  intros Hk. revert delay. induction retries as [|r IH]; intros delay.
  - intros []; apply Hk.
  - replace (2 * S r + 1 + n)%nat with (S (S (2 * r + 1 + n))) by lia. intros a.
    enough (lasts (S (2 * r + 1 + n)) m
              (match a with None => Sleep delay (retry_db r (delay * 2) (Count d net) k) | _ => k a end)) by done.
    destruct a; [eapply lasts_more; [apply Hk|lia|lia]|apply IH].
Qed.

Lemma retry_claim_lasts {A : Type} d net who now retries delay (k : option (option ClaimedTicket) -> Prog A) n m :
  (forall a, lasts n m (k a)) ->
  lasts (2 * retries + 1 + n) (retries + 1 + m) (retry_db retries delay (Claim d net who now) k).
Proof.
  intros Hk. revert delay. induction retries as [|r IH]; intros delay.
  - intros []; apply Hk.
  - replace (2 * S r + 1 + n)%nat with (S (S (2 * r + 1 + n))) by lia.
    replace (S r + 1 + m)%nat with (S (r + 1 + m)) by lia. intros a.
    enough (lasts (S (2 * r + 1 + n)) (r + 1 + m)
              (match a with
               | None => Sleep delay (retry_db r (delay * 2) (Claim d net who now) k)
               | _ => k a
               end)) by done.
    destruct a; [eapply lasts_more; [apply Hk|lia|lia]|apply IH].
Qed.

Lemma serve_lasts cr network rq : lasts 21 4 (serve cr network rq).
Proof.
  unfold serve, claim_ticket. destruct (json_from_slice cr (rq_body rq)) as [body|]; [|done].
  destruct (validate_body cr body) as [request|]; [|done]. destruct (rq_rate rq); [done|].
  apply (retry_count_lasts _ _ DB_RETRIES _ _ 14 4). intros [available|]; [|done]. destruct (_ =? 0); [done|].
  apply (retry_claim_lasts _ _ _ _ DB_RETRIES _ _ 7 0). intros [[ticket|]|]; try done.
  unfold answer_claim. destruct (from_stored_secret _ _); [|done].
  apply (retry_count_lasts _ _ DB_RETRIES _ _ 0 0). by intros [].
Qed.

(** ** The order of claims *)

Lemma older_spec rank a b :
  older rank a b = true <->
  t_created_at a.2 < t_created_at b.2 \/ (t_created_at a.2 = t_created_at b.2 /\ rank a.1 <= rank b.1).
Proof. unfold older. rewrite orb_true_iff, andb_true_iff, Z.ltb_lt, Z.eqb_eq, Z.leb_le. done. Qed.

Lemma older_total rank a b : older rank a b = true \/ older rank b a = true.
Proof. rewrite !older_spec. lia. Qed.

Lemma older_trans rank a b c : older rank a b = true -> older rank b c = true -> older rank a c = true.
Proof. rewrite !older_spec. lia. Qed.

(** A claim takes the oldest available ticket of the pool that is not locked:
    the row exists, was available, is flipped to claimed for the caller at the
    given time, no other row changes, and no available unlocked ticket of the pool
    is older.  It comes back empty exactly when the pool has no such ticket, and
    then changes nothing. *)
Theorem claim_takes_oldest locked rank dim network who now t :
  match claim_oldest locked rank dim network who now t with
  | (Some ticket, t') =>
      exists r, t !! ct_public_key ticket = Some r /\ in_pool dim network r = true /\
        (ct_public_key ticket ∉ locked) /\
        ticket = {| ct_public_key := ct_public_key ticket; ct_private_key := t_private_key r;
                    ct_inviter := t_inviter r; ct_created_at := t_created_at r |} /\
        t' = <[ct_public_key ticket := flip_claimed who now r]> t /\
        forall key r', t !! key = Some r' -> in_pool dim network r' = true -> key ∉ locked ->
          t_created_at r <= t_created_at r'
  | (None, t') =>
      t' = t /\ forall key r', t !! key = Some r' -> in_pool dim network r' = true -> key ∈ locked
  end.
Proof.
  pose proof (claimable_elem locked rank dim network t) as Hin.
  pose proof (sort_by_sorted (older rank) (older_total rank) (older_trans rank)
                (filter (fun kv : bytes * TicketRow => in_pool dim network kv.2 = true /\ kv.1 ∉ locked)
                   (map_to_list t))) as Hs.
  unfold claim_oldest. fold (claimable locked rank dim network t) in Hs.
  destruct (claimable locked rank dim network t) as [|[key r] l].
  - split; [done|]. intros key r' Hr Hp. destruct (decide (key ∈ locked)) as [?|Hk]; [done|exfalso].
    by eapply not_elem_of_nil, (Hin (key, r')).
  - exists r. destruct (proj1 (Hin (key, r))) as (H1 & H2 & H3); [apply list_elem_of_here|].
    split_and!; try done. intros key' r' Hr' Hp' Hl'.
    assert ((key', r') ∈ (key, r) :: l) as Hm by by apply Hin.
    apply StronglySorted_inv in Hs as [_ Hall]. apply elem_of_cons in Hm as [[= -> ->]|Hm]; [done|].
    rewrite Forall_forall in Hall. specialize (Hall _ Hm). rewrite older_spec in Hall. simpl in Hall. lia.
Qed.

(** A claim always finishes: whatever the database answers, a request makes at
    most twelve statements and nine waits, at most four of the statements are
    claims, so an unlucky request costs the pool at most four tickets; and as long
    as it has not answered it can go on. *)
Theorem claim_terminates cr network rq n m q :
  turns n m (serve cr network rq) q ->
  (n <= 21 /\ m <= 4)%nat /\
  ((exists reply, q = Ret reply) \/ exists c, forall w, is_Some (advance c w q)).
Proof.
  intros Ht. destruct (turns_lasts n m _ _ Ht 21 4 (serve_lasts cr network rq)) as [Hle Hl].
  split; [done|]. destruct q; simpl in Hl; try (destruct (21 - n)%nat; done); [eauto| | |].
  1,2: right; exists (ByDatabase 0 Refused ∅ (fun _ => 0)); intros w; simpl;
    try destruct (claim_oldest _ _ _ _ _ _ _); by eexists.
  right. exists ByClock. by eexists.
Qed.

(** ** The whole service *)

Record ticket_laws (cr : TicketCrates) : Prop := {
  public_is_bytes : forall kp, Forall is_byte (kp_public cr kp);
  public_parses : forall kp, parse_public cr (kp_public cr kp) = true;
  signature_parses : forall kp ctx m, parse_signature cr (sign_bytes cr kp ctx m) = true;
  signature_verifies : forall kp ctx m,
    verify_simple cr (kp_public cr kp) ctx m (sign_bytes cr kp ctx m) = true }.

Lemma sign_verifies cr kp m :
  ticket_laws cr -> verify cr (public_bytes cr kp) m (sign cr kp m) = true.
Proof. intros [_ H1 H2 H3]. unfold verify, sign, public_bytes. by rewrite H1, H2, H3. Qed.

Lemma to_hex_inj a b : Forall is_byte a -> Forall is_byte b -> to_hex a = to_hex b -> a = b.
Proof.
  intros Ha Hb Heq. unfold to_hex in Heq. assert (hex_encode a = hex_encode b) as He by (by simplify_eq/=).
  apply (f_equal hex_decode) in He. rewrite !hex_decode_encode in He by done. congruence.
Qed.

Section whole.
Context (cr : TicketCrates) (network : Network).
Context (w : TWorld) (identity : InviterIdentity) (dims : list Dim) (tuning : PoolTuning) (rounds : nat).
Context (rqs : list Request).

(** What the reply of a finished claim says, and the row behind it. *)
Lemma reply_spec s i r :
  ticket_laws cr -> table_ok cr w ->
  rtc sstep (start cr network w identity dims tuning rounds rqs) s ->
  s_claims s !! i = Some (Ret (Ok r)) ->
  exists held, sys_inv cr network rqs held s /\
  exists rq request ticket kp remaining row,
    rqs !! i = Some rq /\ read cr rq = Some request /\ held i = Some ticket /\
    from_stored_secret cr (ct_private_key ticket) = Ok kp /\
    r = claim_response cr ticket (sign cr kp (who_account request)) (dim request) network
          (who request) (rq_now rq) remaining /\
    tickets (s_world s) !! ct_public_key ticket = Some row /\
    t_state row = Claimed /\ t_claimed_by row = Some (who request) /\ t_claimed_at row = Some (rq_now rq) /\
    t_private_key row = ct_private_key ticket /\ t_dim row = dim request /\ t_network row = network.
Proof.
  intros [Hb _ _ _] Hok Hr Hi.
  destruct (reachable_inv cr network Hb rqs _ s Hr) as [held Hinv]; [exists (fun _ => None); by apply start_inv|].
  exists held. split; [done|]. destruct Hinv as [_ _ Hc Hl _ _].
  destruct (lookup_lt_is_Some_2 rqs i) as [rq Hrq]; [rewrite <- Hl; by eapply lookup_lt_Some|].
  destruct (Hc i rq _ Hrq Hi) as [(request & ticket & kp & remaining & H1 & H2 & H3 & H4) Hh].
  destruct (Hh ticket H2) as (request' & row & H5 & H6). simplify_eq. eauto 20.
Qed.

(** C11. A ticket is handed out once: among any number of concurrent claims,
    interleaved with each other and with the maintainer statement by statement,
    whatever rows are locked and whichever statements fail or lose their
    acknowledgement, two requests that were answered with a ticket got different
    tickets. *)
Theorem ticket_handed_once s i j ri rj :
  ticket_laws cr -> table_ok cr w ->
  rtc sstep (start cr network w identity dims tuning rounds rqs) s ->
  s_claims s !! i = Some (Ret (Ok ri)) -> s_claims s !! j = Some (Ret (Ok rj)) -> i <> j ->
  rs_public_key ri <> rs_public_key rj.
Proof.
  intros Hlaws Hok Hr Hi Hj Hne Heq.
  destruct (reply_spec s i ri Hlaws Hok Hr Hi) as (held & Hinv & rqi & reqi & ti & kpi & remi & rowi & Hi').
  destruct Hi' as (Hrqi & Hreadi & Hti & _ & -> & Hrowi & _).
  destruct Hinv as [Htab _ Hc Hl _ Hd].
  destruct (lookup_lt_is_Some_2 rqs j) as [rqj Hrqj]; [rewrite <- Hl; by eapply lookup_lt_Some|].
  destruct (Hc j rqj _ Hrqj Hj) as [(reqj & tj & kpj & remj & _ & Htj & _ & ->) Hhj].
  destruct (Hhj tj Htj) as (reqj' & rowj & _ & Hrowj & _). simpl in Heq.
  apply Hne, (Hd i j ti tj Hti Htj), to_hex_inj; [| |exact Heq].
  - apply (Htab _ _ Hrowi).
  - apply (Htab _ _ Hrowj).
Qed.

(** C23. The ticket of an answer can be redeemed: its key is registered on chain for
    the requested module, the signature in the answer is one by that key over the
    account the request named, and the row of the ticket records that claim. *)
Theorem claimed_ticket_redeems s i r :
  ticket_laws cr -> table_ok cr w ->
  rtc sstep (start cr network w identity dims tuning rounds rqs) s ->
  s_claims s !! i = Some (Ret (Ok r)) ->
  exists rq request pk signature row,
    rqs !! i = Some rq /\ read cr rq = Some request /\
    rs_public_key r = to_hex pk /\ rs_signature r = to_hex signature /\
    verify cr pk (who_account request) signature = true /\
    (dim request, pk) ∈ registered (s_world s) /\
    tickets (s_world s) !! pk = Some row /\ t_state row = Claimed /\
    t_claimed_by row = Some (who request) /\ rs_claimed_by r = who request.
Proof.
  intros Hlaws Hok Hr Hi.
  destruct (reply_spec s i r Hlaws Hok Hr Hi) as (held & Hinv & rq & request & ticket & kp & remaining & row & H').
  destruct H' as (H1 & H2 & _ & H3 & -> & H4 & H5 & H6 & H7 & H8 & H9 & _).
  destruct (si_table _ _ _ _ _ Hinv _ _ H4) as (H10 & _ & kp' & Hkp & Hpk). rewrite H8, H3 in Hkp.
  injection Hkp as <-. rewrite H9 in H10. exists rq, request, (ct_public_key ticket).
  exists (sign cr kp (who_account request)), row.
  split_and!; try done. rewrite <- Hpk. by apply sign_verifies.
Qed.

(** The maintainer never fills a pool beyond its target: with one maintainer
    (the advisory lock) and any number of claims, whatever statements fail, the
    available tickets of every pool stay within the target they started under. *)
Theorem pool_never_overfilled s :
  ticket_laws cr -> table_ok cr w -> 0 <= target tuning ->
  (forall d, count_available d network (tickets w) <= target tuning) ->
  rtc sstep (start cr network w identity dims tuning rounds rqs) s ->
  forall d, count_available d network (tickets (s_world s)) <= target tuning.
Proof.
  intros [Hb _ _ _] Hok Hpos Hinit Hr.
  enough (exists held active b, sys_inv cr network rqs held s /\
            fits network (target tuning) active b (s_pool s) /\
            budget network (target tuning) active b (tickets (s_world s))) as (held & active & b & _ & _ & Hbud).
  { intros d. destruct (budget_none _ _ _ _ _ Hbud) as [_ Ht]. specialize (Ht d). by rewrite decide_False, Z.add_0_r in Ht. }
  remember (start cr network w identity dims tuning rounds rqs) as s0 eqn:E.
  assert (exists held active b, sys_inv cr network rqs held s0 /\
            fits network (target tuning) active b (s_pool s0) /\
            budget network (target tuning) active b (tickets (s_world s0))) as H0.
  { exists (fun _ => None), None, 0. subst s0. split_and!; [by apply start_inv|by apply run_rounds_fits|].
    split; [done|]. intros d. simpl. rewrite Z.add_0_r. apply Hinit. }
  clear E. induction Hr as [|s0 s1 s Hstep _ IH]; [done|]. apply IH. clear IH.
  destruct H0 as (held & active & b & Hinv & Hf & Hbud).
  destruct (sstep_inv cr network Hb _ _ _ _ Hinv Hstep) as [held' Hinv']. exists held'.
  inversion Hstep as [w0 claims pool i p c w' p' Hp Hh Ha|w0 claims pool c w' pool' Hh Ha]; subst; simpl in *.
  - exists active, b. split_and!; [done|done|]. eapply budget_le; [|exact Hbud]. intros d.
    destruct Hinv as [_ _ Hc Hl _ _]. simpl in *.
    destruct (lookup_lt_is_Some_2 rqs i) as [rq Hrq]; [rewrite <- Hl; by eapply lookup_lt_Some|].
    destruct (Hc i rq p Hrq Hp) as [Hg _]. by eapply goes_count.
  - destruct (fits_advance _ _ _ _ _ _ _ _ _ Hf Ha Hbud) as (active' & b' & ? & ?). eauto 10.
Qed.
End whole.

(** ** Witnesses: a maintainer that fills a pool of three and two claims, the first
    of which loses the acknowledgement of its first grab *)

Definition demo_public (kp : bytes) : bytes := (fun b => b mod 256) <$> kp.

Definition demo_tickets : TicketCrates :=
  {| Keypair := bytes; mini_secret := fun s => Ok s; expanded_secret := fun s => Ok (take 32 s);
     kp_public := demo_public; sign_bytes := fun kp ctx m => (demo_public kp ++ ctx ++ m)%list;
     parse_public := fun _ => true; parse_signature := fun _ => true;
     verify_simple := fun pk ctx m sig => bool_decide (sig = (pk ++ ctx ++ m)%list);
     ss58_account := fun s => Some (as_bytes s);
     json_from_slice := fun b => Some (JObject [("who", JString (string_of_bytes b)); ("dim", JString "Game")]);
     iso_millis := fun n => decimal n |}.

Lemma demo_public_bytes kp : Forall is_byte (demo_public kp).
Proof.
  unfold demo_public. apply Forall_fmap, Forall_true. intros b. unfold is_byte, U8_MAX.
  pose proof (Z.mod_pos_bound b 256). simpl. lia.
Qed.

Lemma demo_ticket_laws : ticket_laws demo_tickets.
Proof. split; try done; [apply demo_public_bytes|]. intros kp ctx m. simpl. by apply bool_decide_eq_true. Qed.

Definition honestb {A : Type} (p : Prog A) (c : Choice) : bool :=
  match p, c with
  | Submit _ _ _ _, ByChain executed statuses _ =>
      forallb (fun s => match s with
                        | InFinalizedBlock _ events =>
                            let items := is_ok <$> WriterLane.batch_item_results (omap id events) in
                            bool_decide (items = take (length items) executed)
                        | _ => true
                        end) statuses
  | FillBytes _, BySeed seed =>
      (length seed =? 32)%nat && forallb (fun b => (0 <=? b) && (b <=? U8_MAX)) seed
  | _, _ => true
  end.

Lemma honestb_honest {A : Type} (p : Prog A) c : honestb p c = true -> honest p c.
Proof.
  destruct p; destruct c; simpl; try done.
  - rewrite forallb_forall. intros Hall success events Hin. apply list_elem_of_In in Hin.
    specialize (Hall _ Hin). simpl in Hall. apply bool_decide_eq_true in Hall. eauto.
  - rewrite andb_true_iff, Nat.eqb_eq, forallb_forall. intros [Hl Hall]. split; [done|].
    apply Forall_forall. intros b Hb. apply list_elem_of_In in Hb. specialize (Hall b Hb).
    unfold is_byte. apply andb_true_iff in Hall. rewrite !Z.leb_le in Hall. lia.
Qed.

(** A schedule: who moves, and what decides its statement. *)
Fixpoint play (script : list (option nat * Choice)) (s : Sys) : option Sys :=
  match script with
  | [] => Some s
  | (who, c) :: script' =>
      match who with
      | Some i =>
          match s_claims s !! i with
          | Some p =>
              if honestb p c then
                match advance c (s_world s) p with
                | Some (w', p') =>
                    play script' {| s_world := w'; s_claims := <[i := p']> (s_claims s); s_pool := s_pool s |}
                | None => None
                end
              else None
          | None => None
          end
      | None =>
          if honestb (s_pool s) c then
            match advance c (s_world s) (s_pool s) with
            | Some (w', p') => play script' {| s_world := w'; s_claims := s_claims s; s_pool := p' |}
            | None => None
            end
          else None
      end
  end.

Lemma play_rtc script s s' : play script s = Some s' -> rtc sstep s s'.
Proof.
  revert s. induction script as [|[[i|] c] script IH]; intros s; simpl; [by intros [= <-]| |].
  - destruct (s_claims s !! i) as [p|] eqn:Ep; [|done]. destruct (honestb p c) eqn:Eh; [|done].
    destruct (advance c (s_world s) p) as [[w' p']|] eqn:Ea; [|done]. intros Hp. eapply rtc_l; [|by apply IH].
    destruct s. by apply (step_claim _ _ _ _ p c); [|apply honestb_honest|].
  - destruct (honestb (s_pool s) c) eqn:Eh; [|done].
    destruct (advance c (s_world s) (s_pool s)) as [[w' p']|] eqn:Ea; [|done]. intros Hp.
    eapply rtc_l; [|by apply IH]. destruct s. by apply (step_pool _ _ _ c); [apply honestb_honest|].
Qed.

Definition event (name : string) : option WriterLane.ChainEvent :=
  Some {| WriterLane.pallet_name := "Utility"; WriterLane.event_name := name; WriterLane.field_bytes := [] |}.

Definition fine : Choice := ByDatabase 100 Fine ∅ (fun _ => 0).
Definition lost : Choice := ByDatabase 100 AckLost ∅ (fun _ => 0).

Definition demo_script : list (option nat * Choice) :=
  [(None, ByLock (Some true)); (None, fine);
   (None, BySeed (replicate 32 1)); (None, BySeed (replicate 32 2)); (None, BySeed (replicate 32 3));
   (None, ByChain [true; true; true]
            [TxPending; InFinalizedBlock true [event "ItemCompleted"; event "ItemCompleted"; event "ItemCompleted"]] true);
   (None, fine); (None, fine); (Some 0%nat, fine); (Some 1%nat, fine); (None, fine);
   (Some 0%nat, lost); (Some 0%nat, ByClock); (Some 1%nat, fine); (Some 0%nat, fine);
   (Some 1%nat, fine); (Some 0%nat, fine)].

Definition demo_world : TWorld := {| tickets := ∅; registered := ∅ |}.
Definition demo_identity : InviterIdentity := {| signer := [1]; inviter := [1]; inviter_ss58 := "5C" |}.
Definition demo_tuning : PoolTuning := {| interval := 6000; target := 3; batch_max := 100; finalize_timeout := 60000 |}.
Definition demo_rqs : list Request :=
  [{| rq_rate := None; rq_now := 7; rq_body := [65] |}; {| rq_rate := None; rq_now := 8; rq_body := [66] |}].
Definition demo_start : Sys := start demo_tickets Paseo demo_world demo_identity [Game] demo_tuning 1 demo_rqs.

Definition reply_at (s : option Sys) (i : nat) : option ClaimResponse :=
  match s with
  | Some s => match s_claims s !! i with Some (Ret (Ok r)) => Some r | _ => None end
  | None => None
  end.

Lemma reply_at_Some s i r : reply_at (Some s) i = Some r -> s_claims s !! i = Some (Ret (Ok r)).
Proof. simpl. destruct (s_claims s !! i) as [[[r0|e]|?|?|?|?|?|?|?]|]; congruence. Qed.

Lemma demo_table_ok : table_ok demo_tickets demo_world.
Proof. intros pk r. simpl. by rewrite lookup_empty. Qed.

(** The schedule runs, and both claims are answered. *)
Lemma demo_runs :
  exists s r0 r1, play demo_script demo_start = Some s /\
    s_claims s !! 0%nat = Some (Ret (Ok r0)) /\ s_claims s !! 1%nat = Some (Ret (Ok r1)) /\
    rs_claimed_by r0 = "A" /\ rs_remaining r1 = 0.
Proof.
  destruct (play demo_script demo_start) as [s|] eqn:E.
  2: { exfalso. assert (match play demo_script demo_start with Some _ => true | None => false end = true) as H
         by (vm_compute; reflexivity). by rewrite E in H. }
  assert (exists r, reply_at (Some s) 0 = Some r /\ rs_claimed_by r = "A") as (r0 & H0 & H0').
  { rewrite <- E. eexists. vm_compute. split; reflexivity. }
  assert (exists r, reply_at (Some s) 1 = Some r /\ rs_remaining r = 0) as (r1 & H1 & H1').
  { rewrite <- E. eexists. vm_compute. split; reflexivity. }
  exists s, r0, r1. apply reply_at_Some in H0, H1. exact (conj eq_refl (conj H0 (conj H1 (conj H0' H1')))).
Qed.

Lemma ticket_handed_once_witness :
  exists s r0 r1, play demo_script demo_start = Some s /\
    s_claims s !! 0%nat = Some (Ret (Ok r0)) /\ s_claims s !! 1%nat = Some (Ret (Ok r1)) /\
    rs_public_key r0 <> rs_public_key r1.
Proof.
  destruct demo_runs as (s & r0 & r1 & Hs & H0 & H1 & _). exists s, r0, r1.
  refine (conj Hs (conj H0 (conj H1 _))).
  by apply (ticket_handed_once demo_tickets Paseo demo_world demo_identity [Game] demo_tuning 1 demo_rqs
              s 0 1 r0 r1 demo_ticket_laws demo_table_ok (play_rtc _ _ _ Hs) H0 H1).
Defined.

Lemma claimed_ticket_redeems_witness :
  exists s r0 request pk signature, play demo_script demo_start = Some s /\
    s_claims s !! 0%nat = Some (Ret (Ok r0)) /\
    verify demo_tickets pk (who_account request) signature = true /\
    (dim request, pk) ∈ registered (s_world s).
Proof.
  destruct demo_runs as (s & r0 & r1 & Hs & H0 & H1 & _).
  destruct (claimed_ticket_redeems demo_tickets Paseo demo_world demo_identity [Game] demo_tuning 1 demo_rqs
              s 0 r0 demo_ticket_laws demo_table_ok (play_rtc _ _ _ Hs) H0)
    as (rq & request & pk & signature & row & _ & _ & _ & _ & Hv & Hreg & _).
  exists s, r0, request, pk, signature. exact (conj Hs (conj H0 (conj Hv Hreg))).
Defined.

Lemma pool_never_overfilled_witness :
  exists s, play demo_script demo_start = Some s /\
    forall d, count_available d Paseo (tickets (s_world s)) <= 3.
Proof.
  destruct demo_runs as (s & r0 & r1 & Hs & _). exists s. split; [exact Hs|].
  apply (pool_never_overfilled demo_tickets Paseo demo_world demo_identity [Game] demo_tuning 1 demo_rqs
           s demo_ticket_laws demo_table_ok); [done| |exact (play_rtc _ _ _ Hs)].
  intros []; vm_compute; congruence.
Defined.

Lemma claim_terminates_witness :
  let q := serve demo_tickets Paseo {| rq_rate := None; rq_now := 7; rq_body := [65] |} in
  (exists reply, q = Ret reply) \/ exists c, forall w, is_Some (advance c w q).
Proof. exact (proj2 (claim_terminates demo_tickets Paseo _ 0 0 _ (turns_nil _))). Defined.
End TicketClaims.
