(* ===== verification/Turn.v ===== *)
(** * Turn: TURN credentials

    The service [turn]: credentials for a coturn relay ([credentials.rs]), the
    Cloudflare client with its cache and breaker ([cloudflare.rs]), the source that
    chooses between them ([source.rs]), ring roots and their refresher
    ([proof/roots.rs]), proofs ([proof/]), and the two routes ([http.rs],
    [http/proof_routes.rs]) over the shared rate limiter.  Hashes, base64, the
    ring-VRF crate, the SCALE decoding of a ring commitment and the upstream's
    answers are parameters.  Additions of [u64] wrap, as in a release build. *)

From stdpp Require Import gmap.
From S2P Require Import Prelude Strings Text Limiter DeviceGate Usernames Poc.

#[local] Open Scope string_scope.
#[local] Open Scope Z_scope.

Module Turn.

Definition u64_add (a b : Z) : Z := (a + b) mod 2 ^ 64.

(** ** [credentials.rs] *)

Inductive Algorithm := Sha1 | Sha256 | Sha384 | Sha512.

Definition Algorithm_as_str (a : Algorithm) : string :=
  match a with Sha1 => "SHA1" | Sha256 => "SHA256" | Sha384 => "SHA384" | Sha512 => "SHA512" end.

Definition Algorithm_from_str (s : string) : option Algorithm :=
  if String.eqb s "SHA1" then Some Sha1
  else if String.eqb s "SHA256" then Some Sha256
  else if String.eqb s "SHA384" then Some Sha384
  else if String.eqb s "SHA512" then Some Sha512 else None.

Record TurnCrates := {
  hmac : Algorithm -> bytes -> bytes -> bytes;
  b64 : bytes -> string;
  blake2b256 : bytes -> bytes;
  (** Ring commitments, and the ring-VRF check of a proof. *)
  Members : Type;
  decode_members : bytes -> option (Members * bytes);
  proof_fits : bytes -> bool;
  PROOF_LEN : nat;
  validate : Z -> bytes -> Members -> bytes -> bytes -> option bytes;
  json_of_bytes : bytes -> option Json;
  status_text : Z -> string }.

Record Credentials := { c_username : string; c_password : string }.
Record Issuer := { is_secret : bytes; is_algorithm : Algorithm; is_ttl_secs : Z }.

Section turn.
Context `{governor : Limiter.Governor} (cr : TurnCrates).
#[local] Open Scope dub_scope.

Definition password_for (i : Issuer) (username : string) : string :=
  b64 cr (hmac cr (is_algorithm i) (is_secret i) (as_bytes username)).

Definition issue_until (i : Issuer) (expiry : Z) (id : bytes) : Credentials :=
  let username := decimal expiry +:+ ":" +:+ hex_encode id in
  {| c_username := username; c_password := password_for i username |}.

Definition issue (i : Issuer) (now_unix : Z) (id : bytes) : Credentials :=
  issue_until i (u64_add now_unix (is_ttl_secs i)) id.

Definition PROOF_ID_LABEL : bytes := (as_bytes "dub/turn-proof-credential-id/v1" ++ [0])%list.

(** What the credential id of a proof is a keyed digest of. *)
Definition proof_id_preimage (product_id : string) (alias : bytes) (expiry : Z) : bytes :=
  (PROOF_ID_LABEL ++ Poc.be_bytes 8 (Z.of_nat (String.length product_id)) ++ as_bytes product_id
   ++ Poc.be_bytes 8 (Z.of_nat (length alias)) ++ alias ++ Poc.be_bytes 8 expiry)%list.

Definition issue_for_proof (i : Issuer) (now_unix : Z) (product_id : string) (alias : bytes) : Credentials :=
  let expiry := u64_add now_unix (is_ttl_secs i) in
  issue_until i expiry (take 16 (hmac cr Sha256 (is_secret i) (proof_id_preimage product_id alias expiry))).

(** ** [cloudflare.rs] *)

Definition MIN_USEFUL_REMAINING : Z := 60.
Definition FAILURE_THRESHOLD : Z := 3.
Definition FAILURE_COOLDOWN : Z := 30.

Inductive CloudflareError := Unreachable (why : string) | Rejected (why : string) | Malformed (why : string).

Record IceCredentials := {
  ice_servers : list string; ice_username : string; ice_password : string; expires_at : Z }.

Definition remaining (c : IceCredentials) (now : Z) : Z := Z.max 0 (expires_at c - now).

Record Breaker := { consecutive_failures : Z; skip_until : Z }.
Definition Breaker_default : Breaker := {| consecutive_failures := 0; skip_until := 0 |}.

Definition DEFAULT_BASE_URL : string := "https://rtc.live.cloudflare.com/v1".

Record Client := {
  cl_key_id : string; cl_api_token : string; cl_base_url : string; cl_ttl_secs : Z; min_useful : Z; last_good : option IceCredentials; breaker : Breaker }.

Definition min_useful_remaining (ttl_secs : Z) : Z := Z.min MIN_USEFUL_REMAINING (Z.max (ttl_secs / 4) 1).

(** [Client::new]; building the HTTP client is taken to succeed. *)
Definition Client_new (key_id api_token : string) (ttl_secs : Z) (base_url : option string) : Client :=
  {| cl_key_id := key_id; cl_api_token := api_token; cl_base_url := default DEFAULT_BASE_URL base_url;
     cl_ttl_secs := ttl_secs; min_useful := min_useful_remaining ttl_secs; last_good := None;
     breaker := Breaker_default |}.

Definition cached (now : Z) (c : Client) : option IceCredentials :=
  match last_good c with
  | Some g => if min_useful c <=? remaining g now then Some g else None
  | None => None
  end.

Definition store (g : IceCredentials) (c : Client) : Client :=
  {| cl_key_id := cl_key_id c; cl_api_token := cl_api_token c; cl_base_url := cl_base_url c;
     cl_ttl_secs := cl_ttl_secs c; min_useful := min_useful c; last_good := Some g; breaker := breaker c |}.

Definition with_breaker (b : Breaker) (c : Client) : Client :=
  {| cl_key_id := cl_key_id c; cl_api_token := cl_api_token c; cl_base_url := cl_base_url c;
     cl_ttl_secs := cl_ttl_secs c; min_useful := min_useful c; last_good := last_good c; breaker := b |}.

Definition in_cooldown (now : Z) (c : Client) : bool := now <? skip_until (breaker c).

Definition record_success (c : Client) : Client := with_breaker Breaker_default c.

Definition record_failure (now : Z) (c : Client) : bool * Client :=
  let failures := Z.min U32_MAX (consecutive_failures (breaker c) + 1) in
  if FAILURE_THRESHOLD <=? failures
  then (true, with_breaker {| consecutive_failures := failures; skip_until := u64_add now FAILURE_COOLDOWN |} c)
  else (false, with_breaker {| consecutive_failures := failures; skip_until := skip_until (breaker c) |} c).

Definition as_u64_json (v : Json) : option Z :=
  match v with JNumber n => if (0 <=? n) && (n <=? U64_MAX) then Some n else None | _ => None end.

Definition entry_urls (entry : Json) : list string :=
  match json_get "urls" entry with
  | Some (JString url) => [url]
  | Some (JArray urls) => omap json_as_str urls
  | _ => []
  end.

Definition push_new (servers : list string) (url : string) : list string :=
  if bool_decide (url ∈ servers) then servers else (servers ++ [url])%list.

Definition entry_credential (entry : Json) : option (string * string) :=
  match (u ← json_get "username" entry; json_as_str u), (p ← json_get "credential" entry; json_as_str p) with
  | Some username, Some password => Some (username, password)
  | _, _ => None
  end.

(** One entry of the loop: its new URLs, and the first credential. *)
Definition take_entry (acc : list string * option (string * string)) (entry : Json)
    : list string * option (string * string) :=
  (foldl push_new acc.1 (entry_urls entry),
   match acc.2 with Some c => Some c | None => entry_credential entry end).

Definition parse_response (body : Json) (now requested_ttl : Z) : result IceCredentials string :=
  match json_get "iceServers" body with
  | Some (JArray entries) =>
      let '(servers, credential) := foldl take_entry ([], None) entries in
      match servers, credential with
      | [], _ => Err "iceServers carried no URLs"
      | _, None => Err "iceServers carried no TURN credential"
      | _, Some (username, password) =>
          let ttl := default requested_ttl (t ← json_get "ttl" body; as_u64_json t) in
          Ok {| ice_servers := servers; ice_username := username; ice_password := password;
                expires_at := u64_add now ttl |}
      end
  | Some _ => Err "iceServers is not an array"
  | None => Err "response has no iceServers"
  end.

(** What [fetch] posts: the address, the bearer token and the body. *)
Record FetchRequest := { fr_url : string; fr_bearer : string; fr_body : Json }.

Definition fetch_request (c : Client) : FetchRequest :=
  {| fr_url := cl_base_url c +:+ "/turn/keys/" +:+ cl_key_id c +:+ "/credentials/generate-ice-servers";
     fr_bearer := cl_api_token c; fr_body := JObject [("ttl", JNumber (cl_ttl_secs c))] |}.

(** The upstream's answer to [fetch_request]: no response, or a status and what its body decodes to. *)
Inductive Upstream := NoResponse (why : string) | Responded (status : Z) (body : result Json string).

Definition fetch (now : Z) (answer : Upstream) (c : Client) : result IceCredentials CloudflareError :=
  match answer with
  | NoResponse why => Err (Unreachable why)
  | Responded status body =>
      if negb ((200 <=? status) && (status <? 300)) then
        let message := "status " +:+ status_text cr status in
        Err (if (400 <=? status) && (status <? 500) && negb ((status =? 408) || (status =? 429))
             then Rejected message else Unreachable message)
      else
        match body with
        | Err why => Err (Malformed why)
        | Ok v => map_err Malformed (parse_response v now (cl_ttl_secs c))
        end
  end.

(** [Client::issue]; also whether the upstream was asked. *)
Definition client_issue (now : Z) (answer : Upstream) (c : Client)
    : result IceCredentials CloudflareError * bool * Client :=
  match (if in_cooldown now c then cached now c else None) with
  | Some g => (Ok g, false, c)
  | None =>
      match fetch now answer c with
      | Ok fresh => (Ok fresh, true, record_success (store fresh c))
      | Err (Rejected why) => (Err (Rejected why), true, c)
      | Err err =>
          let '(_, c') := record_failure now c in
          match cached now c' with
          | Some g => (Ok g, true, c')
          | None => (Err err, true, c')
          end
      end
  end.

(** ** [source.rs] *)

Record Issued := { d_servers : list string; d_username : string; d_password : string; d_ttl : Z }.

Inductive Source :=
| Cloudflare (c : Client)
| Coturn (issuer : Issuer) (servers : list string) (ttl_secs : Z).

(** [ProviderConfig], of [config.rs]. *)
Inductive ProviderConfig :=
| PCloudflare (key_id api_token : string) (base_url : option string)
| PCoturn (secret : bytes) (algorithm : Algorithm) (realm : string) (servers : list string).

Definition ProviderConfig_name (p : ProviderConfig) : string :=
  match p with PCloudflare _ _ _ => "cloudflare" | PCoturn _ _ _ _ => "coturn" end.

(** [Source::name]. *)
Definition Source_name (s : Source) : string :=
  match s with Cloudflare _ => "cloudflare" | Coturn _ _ _ => "coturn" end.

Definition Source_new (provider : ProviderConfig) (ttl_secs : Z) : Source :=
  match provider with
  | PCloudflare key_id api_token base_url => Cloudflare (Client_new key_id api_token ttl_secs base_url)
  | PCoturn secret algorithm _ servers =>
      Coturn {| is_secret := secret; is_algorithm := algorithm; is_ttl_secs := ttl_secs |} servers ttl_secs
  end.

Definition from_cloudflare (c : Client) (now_unix : Z) (answer : Upstream) : option Issued * Source :=
  let '(r, _, c') := client_issue now_unix answer c in
  (match r with
   | Ok g => Some {| d_servers := ice_servers g; d_username := ice_username g;
                     d_password := ice_password g; d_ttl := remaining g now_unix |}
   | Err _ => None
   end, Cloudflare c').

Definition from_coturn (c : Credentials) (servers : list string) (ttl : Z) : Issued :=
  {| d_servers := servers; d_username := c_username c; d_password := c_password c; d_ttl := ttl |}.

(** [id] are the random bytes. *)
Definition source_issue (s : Source) (now_unix : Z) (answer : Upstream) (id : bytes) : option Issued * Source :=
  match s with
  | Cloudflare c => from_cloudflare c now_unix answer
  | Coturn i servers ttl => (Some (from_coturn (issue i now_unix id) servers ttl), s)
  end.

Definition source_issue_for_proof (s : Source) (now_unix : Z) (answer : Upstream) (product_id : string)
    (alias : bytes) : option Issued * Source :=
  match s with
  | Cloudflare c => from_cloudflare c now_unix answer
  | Coturn i servers ttl => (Some (from_coturn (issue_for_proof i now_unix product_id alias) servers ttl), s)
  end.

(** ** [proof/context.rs], [proof/message.rs] *)

Fixpoint le_bytes (k : nat) (n : Z) : bytes :=
  match k with O => [] | S k' => n mod 256 :: le_bytes k' (n / 256) end.

Definition index_magic : bytes := take 28 (blake2b256 cr (as_bytes "product-account-index")).
Definition index_bytes (index : Z) : bytes := (le_bytes 4 index ++ index_magic)%list.

Definition context_preimage (product_id : string) (suffix : Z) : bytes :=
  (as_bytes "product/" ++ as_bytes product_id ++ as_bytes "/" ++ index_bytes suffix)%list.
Definition product_context (product_id : string) (suffix : Z) : bytes :=
  blake2b256 cr (context_preimage product_id suffix).

Definition LABEL : bytes := as_bytes "dub/turn-credential/v1".

Definition message_preimage (timestamp : Z) : bytes := (LABEL ++ Poc.be_bytes 8 timestamp)%list.
Definition message (timestamp : Z) : bytes := blake2b256 cr (message_preimage timestamp).

Definition freshness_check (max_skew_secs timestamp now_unix : Z) : bool :=
  Z.abs (now_unix - timestamp) <=? max_skew_secs.

(** ** [proof/roots.rs] *)

Inductive PersonhoodCollection := PeopleLite | People.

Definition ALL : list PersonhoodCollection := [PeopleLite; People].

Definition collection_id (c : PersonhoodCollection) : bytes :=
  match c with
  | PeopleLite => as_bytes "pop:polkadot.network/people-lite"
  | People => as_bytes "pop:polkadot.network/people     "
  end.

(** [trim_start_matches]: every leading copy goes. *)
Fixpoint trim_start_matches (fuel : nat) (p s : string) : string :=
  match fuel with
  | O => s
  | S fuel' => match strip_prefix p s with Some s' => trim_start_matches fuel' p s' | None => s end
  end.
Definition trim_0x (s : string) : string := trim_start_matches (String.length s) "0x" s.

Definition from_hex (raw : string) : option PersonhoodCollection :=
  match hex_decode (trim_0x (trim raw)) with
  | Some id =>
      if (length id =? 32)%nat then first_some (fun c => if bool_decide (collection_id c = id) then Some c else None) ALL
      else None
  | None => None
  end.

Record AcceptedRoot := { ring_index : Z; revision : Z; members : Members cr }.
Record Snapshot := { domain : Z; roots : list AcceptedRoot }.

(** A cache: the snapshot and the monotonic instant it was observed at. *)
Abbreviation RootCache := (option (Snapshot * Z)).

Definition cache_snapshot (max_age mono_now : Z) (c : RootCache) : option Snapshot :=
  match c with
  | Some (s, observed_at) => if mono_now - observed_at <=? max_age then Some s else None
  | None => None
  end.

Inductive RingExponent := R2e9 | R2e10 | R2e14.

Definition ring_domain (r : RingExponent) : Z := match r with R2e9 => 11 | R2e10 => 12 | R2e14 => 16 end.

(** The storage of a block; [None] is a read that failed. *)
Record RootBlock := {
  rb_collection : option (option RingExponent);
  rb_current_ring : option (option bytes);
  rb_root : Z -> option (option bytes);
  rb_old_root : Z -> bytes -> option (option bytes) }.

Definition decode_u32 (b : bytes) : option (Z * bytes) :=
  match b with
  | b0 :: b1 :: b2 :: b3 :: rest => Some (b0 + 256 * b1 + 65536 * b2 + 16777216 * b3, rest)
  | _ => None
  end.

(** One ring: its current root, and the previous revision's while it is kept. *)
Definition read_ring (b : RootBlock) (index : Z) : option (list AcceptedRoot) :=
  match rb_root b index with
  | None => None
  | Some None => Some []
  | Some (Some value) =>
      match decode_members cr value with
      | None => None
      | Some (m, rest) =>
          match decode_u32 rest with
          | None => None
          | Some (rev, _) =>
              let current := {| ring_index := index; revision := rev; members := m |} in
              if rev =? 0 then Some [current]
              else
                match rb_old_root b index (Poc.be_bytes 4 (rev - 1)) with
                | None => None
                | Some None => Some [current]
                | Some (Some old) =>
                    match decode_members cr old with
                    | None => None
                    | Some (m', _) =>
                        Some [current; {| ring_index := index; revision := rev - 1; members := m' |}]
                    end
                end
          end
      end
  end.

Fixpoint read_rings (b : RootBlock) (indices : list Z) : option (list AcceptedRoot) :=
  match indices with
  | [] => Some []
  | i :: rest =>
      match read_ring b i with
      | None => None
      | Some l => match read_rings b rest with Some l' => Some (l ++ l')%list | None => None end
      end
  end.

Definition refresh (b : RootBlock) : option Snapshot :=
  match rb_collection b with
  | Some (Some ring_size) =>
      match rb_current_ring b with
      | None => None
      | Some raw =>
          match (match raw with None => Some 0 | Some v => fst <$> decode_u32 v end) with
          | None => None
          | Some current =>
              (fun l => {| domain := ring_domain ring_size; roots := l |})
                <$> read_rings b (seqZ 0 (current + 1))
          end
      end
  | _ => None
  end.

(** [spawn_refresher]: dialling, reading the genesis, about to clear after a mismatch,
    refreshing; or gone, when the first dial fails and its [unwrap] ends the task. *)
Inductive RefresherMode := Dialling | Connecting | Clearing | Refreshing | Gone.
Record Refresher := { rf_mode : RefresherMode; rf_cache : RootCache }.

(** What the task meets: the dial, the block it reads the genesis at, a tick of its
    interval with the block it then reads. *)
Inductive RefresherTurn :=
| TDial (up : bool)
| TConnect (genesis : option (option bytes))
| TTick (mono_now : Z) (block : option RootBlock).

Definition refresher_new : Refresher := {| rf_mode := Dialling; rf_cache := None |}.

(** The genesis is refused when it is known and another. *)
Definition genesis_refused (configured : bytes) (genesis : option bytes) : bool :=
  match genesis with Some g => negb (bool_decide (g = configured)) | None => false end.

Definition refresher_turn (configured : bytes) (r : Refresher) (t : RefresherTurn) : Refresher :=
  match rf_mode r, t with
  | Dialling, TDial up => {| rf_mode := if up then Connecting else Gone; rf_cache := rf_cache r |}
  | Connecting, TConnect (Some genesis) =>
      {| rf_mode := if genesis_refused configured genesis then Clearing else Refreshing; rf_cache := rf_cache r |}
  | Clearing, TTick _ _ => {| rf_mode := Connecting; rf_cache := None |}
  | Refreshing, TTick mono_now block =>
      match (match block with Some b => refresh b | None => None end) with
      | Some s => {| rf_mode := Refreshing; rf_cache := Some (s, mono_now) |}
      | None => {| rf_mode := Connecting; rf_cache := rf_cache r |}
      end
  | _, _ => r
  end.

(** ** [proof/verify.rs] *)

Inductive VerifyError := VMalformed | VRejected | VInternal.

Definition find_root (index rev : Z) (l : list AcceptedRoot) : option AcceptedRoot :=
  first_some (fun r => if (ring_index r =? index) && (revision r =? rev) then Some r else None) l.

(** [joined]: the blocking task finished. *)
Definition verify (joined : bool) (s : Snapshot) (proof context message : bytes) (index rev : Z)
    : result bytes VerifyError :=
  if negb joined then Err VInternal
  else if negb (proof_fits cr proof) then Err VMalformed
  else
    match find_root index rev (roots s) with
    | None => Err VRejected
    | Some root =>
        match validate cr (domain s) proof (members root) context message with
        | Some alias => Ok alias
        | None => Err VRejected
        end
    end.

(** ** The routes *)

Inductive AppError :=
| RateLimited (retry_after_secs : Z)
| InvalidBody (errors : list Usernames.FieldError)
| MalformedJson
| BadProofRequest (why : string)
| ProofRejected
| ProofUnavailable (why : string)
| ProofBusy
| ProofInternal
| UpstreamUnavailable.

(** Status, text and [Retry-After]. *)
Definition app_error (e : AppError) : Z * string * option Z :=
  match e with
  | RateLimited s => (429, "Rate limit exceeded. Please retry after " +:+ decimal s +:+ " seconds.", Some s)
  | InvalidBody _ => (400, "The request body contains invalid values.", None)
  | MalformedJson => (400, "Malformed JSON in request body", None)
  | BadProofRequest why => (400, why, None)
  | ProofRejected => (403, "The supplied proof was not accepted.", None)
  | ProofUnavailable why => (503, why, None)
  | ProofBusy => (503, "All verification slots are busy.", Some 1)
  | ProofInternal => (500, "Proof verification failed internally.", None)
  | UpstreamUnavailable => (503, "Credentials are temporarily unavailable.", Some 5)
  end.

Definition validate_body (body : Json) : result unit (list Usernames.FieldError) :=
  match body with
  | JObject _ =>
      match json_get "regionHint" body with
      | None | Some JNull | Some (JString _) => Ok tt
      | Some other =>
          Err [{| Usernames.fe_field := "regionHint";
                  Usernames.fe_message := Usernames.expected "string" (Usernames.type_name other) |}]
      end
  | _ =>
      Err [{| Usernames.fe_field := EmptyString;
              Usernames.fe_message := Usernames.expected "object" (Usernames.type_name body) |}]
  end.

(** [wait_time_from(..).as_secs()]. *)
Definition retry_after (not_until clock : Z) : Z := Z.max 0 (not_until - clock) / 1000000000.

(** The state of the service: the source and the two limiters. *)
Record TurnState := {
  ts_source : Source; ts_limiter : Limiter.Limiter; ts_alias_limiter : Limiter.Limiter }.

Definition issue_credentials (clock now_unix : Z) (answer : Upstream) (id : bytes) (subject : string)
    (body : bytes) (s : TurnState) : result Issued AppError * TurnState :=
  match
    (match body with
     | [] => Ok tt
     | _ =>
         match json_of_bytes cr body with
         | None => Err MalformedJson
         | Some v => map_err InvalidBody (validate_body v)
         end
     end)
  with
  | Err e => (Err e, s)
  | Ok _ =>
      let '(r, l) := Limiter.allow clock subject (ts_limiter s) in
      match r with
      | Err w =>
          (Err (RateLimited (retry_after w clock)),
           {| ts_source := ts_source s; ts_limiter := l; ts_alias_limiter := ts_alias_limiter s |})
      | Ok paid =>
          let '(issued, src) := source_issue (ts_source s) now_unix answer id in
          match issued with
          | Some d => (Ok d, {| ts_source := src; ts_limiter := l; ts_alias_limiter := ts_alias_limiter s |})
          | None =>
              (Err UpstreamUnavailable,
               {| ts_source := src; ts_limiter := Limiter.refund subject paid l;
                  ts_alias_limiter := ts_alias_limiter s |})
          end
      end
  end.

Definition PROOF_MAX_SKEW_SECS : Z := 60.
(** In the nanoseconds of the monotonic clock. *)
Definition PROOF_MAX_ROOT_AGE : Z := 600 * 1000000000.

Record IssueWithProofBody := {
  pb_product_id : string; pb_collection : string; pb_proof : string;
  pb_ring_index : Z; pb_ring_revision : Z; pb_timestamp : Z }.

(** A verification slot: free, obtained after the wait, or not. *)
Inductive Permit := Free | Waited | QueueFull | TimedOut | Closed.

(** What a request meets: clocks, slots, the verification task and the upstream. *)
Record ProofEnv := {
  pe_clock : Z; pe_mono : Z; pe_now : Z; pe_issued_at : Z;
  pe_permit : Permit; pe_joined : bool; pe_answer : Upstream;
  pe_contexts : gmap string bytes; pe_roots : PersonhoodCollection -> RootCache }.

(** The checks before a slot is asked for: the context, proof, and snapshot. *)
Definition read_proof (env : ProofEnv) (b : IssueWithProofBody) : result (bytes * bytes * Snapshot) AppError :=
  let? context := match pe_contexts env !! pb_product_id b with
                  | Some c => Ok c
                  | None => Err (BadProofRequest "product is not accepted")
                  end in
  let? collection := match from_hex (pb_collection b) with
                     | Some c => Ok c
                     | None => Err (BadProofRequest "collection is not accepted")
                     end in
  let? proof := match hex_decode (trim_0x (pb_proof b)) with
                | Some p => Ok p
                | None => Err (BadProofRequest "proof is not valid hex")
                end in
  if negb (length proof =? PROOF_LEN cr)%nat then Err (BadProofRequest "proof is not a ring-VRF proof")
  else if negb (freshness_check PROOF_MAX_SKEW_SECS (pb_timestamp b) (pe_now env)) then
    Err (BadProofRequest "timestamp outside the accepted window")
  else
    match cache_snapshot PROOF_MAX_ROOT_AGE (pe_mono env) (pe_roots env collection) with
    | None => Err (ProofUnavailable "ring roots not yet available")
    | Some snapshot =>
        if existsb (fun r => (ring_index r =? pb_ring_index b) && (revision r =? pb_ring_revision b)) (roots snapshot)
        then Ok (context, proof, snapshot)
        else Err ProofRejected
    end.

Definition take_permit (p : Permit) : result unit AppError :=
  match p with
  | Free | Waited => Ok tt
  | QueueFull | TimedOut => Err ProofBusy
  | Closed => Err ProofInternal
  end.

Definition verify_error (e : VerifyError) : AppError :=
  match e with
  | VMalformed => BadProofRequest "proof is not a ring-VRF proof"
  | VRejected => ProofRejected
  | VInternal => ProofInternal
  end.

Definition check_proof (env : ProofEnv) (b : IssueWithProofBody) : result bytes AppError :=
  let? (context, proof, snapshot) := read_proof env b in
  let? _ := take_permit (pe_permit env) in
  map_err verify_error
    (verify (pe_joined env) snapshot proof context (message (pb_timestamp b))
       (pb_ring_index b) (pb_ring_revision b)).

Definition issue_with_proof (env : ProofEnv) (body : option IssueWithProofBody) (s : TurnState)
    : result Issued AppError * TurnState :=
  match body with
  | None => (Err (BadProofRequest "invalid request body"), s)
  | Some b =>
      match check_proof env b with
      | Err e => (Err e, s)
      | Ok alias =>
          let key := hex_encode alias in
          let '(r, l) := Limiter.allow (pe_clock env) key (ts_alias_limiter s) in
          match r with
          | Err w =>
              (Err (RateLimited (retry_after w (pe_clock env))),
               {| ts_source := ts_source s; ts_limiter := ts_limiter s; ts_alias_limiter := l |})
          | Ok paid =>
              let '(issued, src) :=
                source_issue_for_proof (ts_source s) (pe_issued_at env) (pe_answer env) (pb_product_id b) alias in
              match issued with
              | Some d => (Ok d, {| ts_source := src; ts_limiter := ts_limiter s; ts_alias_limiter := l |})
              | None =>
                  (Err UpstreamUnavailable,
                   {| ts_source := src; ts_limiter := ts_limiter s;
                      ts_alias_limiter := Limiter.refund key paid l |})
              end
          end
      end
  end.
End turn.
End Turn.
