(* ===== verification/TurnProps.v ===== *)
(** * TurnProps: TURN credentials are earned, bounded and usable

    The theorems about [Turn]; then the clients of the proof route ([turn/examples/]):
    a candidate that is attested and proves its place in a ring, the stand-alone check
    of such a proof, and the rebuilding of a ring's root. *)

From stdpp Require Import gmap.
From S2P Require Import Prelude Strings Text Limiter DeviceGate Usernames Poc Turn Signature.

#[local] Open Scope string_scope.
#[local] Open Scope Z_scope.

Module TurnProps.
Import Turn.

Section props.
Context `{governor : Limiter.Governor} (cr : TurnCrates).

(** ** Proof-authorised issuance *)

Lemma existsb_find_root index rev l :
  existsb (fun r : AcceptedRoot cr => (ring_index cr r =? index) && (revision cr r =? rev)) l = true <->
  is_Some (find_root cr index rev l).
Proof.
  unfold find_root. induction l as [|r l IH]; simpl; [split; [done|by intros []]|].
  destruct (_ && _); simpl; [split; [by eexists|done]|done].
Qed.

(** What a proof request must show, and the alias it then stands for. *)
Definition accepted (env : ProofEnv cr) (b : IssueWithProofBody) (alias : bytes) : Prop :=
  exists context collection proof snapshot observed_at root,
    pe_contexts cr env !! pb_product_id b = Some context /\
    from_hex (pb_collection b) = Some collection /\
    hex_decode (trim_0x (pb_proof b)) = Some proof /\ length proof = PROOF_LEN cr /\
    pb_timestamp b - 60 <= pe_now cr env <= pb_timestamp b + 60 /\
    pe_roots cr env collection = Some (snapshot, observed_at) /\
    pe_mono cr env - observed_at <= PROOF_MAX_ROOT_AGE /\
    (pe_permit cr env = Free \/ pe_permit cr env = Waited) /\
    pe_joined cr env = true /\ proof_fits cr proof = true /\
    find_root cr (pb_ring_index b) (pb_ring_revision b) (roots cr snapshot) = Some root /\
    validate cr (domain cr snapshot) proof (members cr root) context (message cr (pb_timestamp b)) = Some alias.

Lemma read_proof_ok env b context proof snapshot :
  read_proof cr env b = Ok (context, proof, snapshot) <->
  pe_contexts cr env !! pb_product_id b = Some context /\
  hex_decode (trim_0x (pb_proof b)) = Some proof /\ length proof = PROOF_LEN cr /\
  pb_timestamp b - 60 <= pe_now cr env <= pb_timestamp b + 60 /\
  is_Some (find_root cr (pb_ring_index b) (pb_ring_revision b) (roots cr snapshot)) /\
  exists collection observed_at, from_hex (pb_collection b) = Some collection /\
    pe_roots cr env collection = Some (snapshot, observed_at) /\
    pe_mono cr env - observed_at <= PROOF_MAX_ROOT_AGE.
Proof.
  unfold read_proof. destruct (pe_contexts cr env !! pb_product_id b) as [c|]; cbn [rbind]; [|naive_solver].
  destruct (from_hex (pb_collection b)) as [collection|]; cbn [rbind]; [|naive_solver].
  destruct (hex_decode (trim_0x (pb_proof b))) as [p|]; cbn [rbind]; [|naive_solver].
  destruct (Nat.eqb_spec (length p) (PROOF_LEN cr)) as [Hl|Hl]; cbn [negb]; [|naive_solver].
  unfold freshness_check, PROOF_MAX_SKEW_SECS.
  destruct (Z.abs (pe_now cr env - pb_timestamp b) <=? 60) eqn:Ef; bool_prop; cbn [negb].
  2: { split; [done|]. intros (_ & _ & _ & Hf & _). lia. }
  unfold cache_snapshot. destruct (pe_roots cr env collection) as [[s observed_at]|] eqn:Er.
  2: { split; [done|]. intros (_ & _ & _ & _ & _ & c' & o & [= <-] & Hc & _). congruence. }
  destruct (_ <=? PROOF_MAX_ROOT_AGE) eqn:Ea; bool_prop.
  2: { split; [done|]. intros (_ & _ & _ & _ & _ & c' & o & [= <-] & Hc & Ho). rewrite Er in Hc. simplify_eq. lia. }
  pose proof (existsb_find_root (pb_ring_index b) (pb_ring_revision b) (roots cr s)) as Hx.
  destruct (existsb _ _).
  - split.
    + intros [= -> -> ->]. split_and!; try done; [lia|lia|by apply Hx|]. eauto.
    + intros ([= ->] & [= ->] & _ & _ & _ & c' & o & [= <-] & Hc & _). rewrite Er in Hc. by simplify_eq.
  - split; [done|]. intros (_ & _ & _ & _ & Hs & c' & o & [= <-] & Hc & _). rewrite Er in Hc. simplify_eq.
    by apply Hx in Hs.
Qed.

Lemma verify_ok joined s proof context msg index rev alias :
  verify cr joined s proof context msg index rev = Ok alias <->
  joined = true /\ proof_fits cr proof = true /\
  exists root, find_root cr index rev (roots cr s) = Some root /\
    validate cr (domain cr s) proof (members cr root) context msg = Some alias.
Proof.
  unfold verify. destruct joined; cbn [negb]; [|naive_solver].
  destruct (proof_fits cr proof); cbn [negb]; [|naive_solver].
  destruct (find_root _ _ _ _) as [root|]; [|naive_solver].
  destruct (validate _ _ _ _ _ _) eqn:Ev; [split|]; naive_solver.
Qed.

Lemma take_permit_ok p u : take_permit p = Ok u <-> p = Free \/ p = Waited.
Proof. destruct p, u; naive_solver. Qed.

Lemma check_proof_split env b alias :
  check_proof cr env b = Ok alias <->
  exists context proof snapshot, read_proof cr env b = Ok (context, proof, snapshot) /\
    (pe_permit cr env = Free \/ pe_permit cr env = Waited) /\
    verify cr (pe_joined cr env) snapshot proof context (message cr (pb_timestamp b))
      (pb_ring_index b) (pb_ring_revision b) = Ok alias.
Proof.
  unfold check_proof. destruct (read_proof cr env b) as [[[c p] s]|e]; cbn [rbind]; [|naive_solver].
  pose proof (take_permit_ok (pe_permit cr env)) as Hp.
  destruct (take_permit (pe_permit cr env)) as [u|e]; cbn [rbind].
  - specialize (proj1 (Hp u) eq_refl) as Hq.
    destruct (verify _ _ _ _ _ _ _ _) as [a|e] eqn:Ev; cbn [map_err]; split.
    + intros [= ->]. eauto 8.
    + intros (? & ? & ? & [= <- <- <-] & _ & H). congruence.
    + done.
    + intros (? & ? & ? & [= <- <- <-] & _ & H). congruence.
  - split; [done|]. intros (? & ? & ? & _ & Hq & _). by apply (Hp tt) in Hq.
Qed.

Lemma check_proof_ok env b alias : check_proof cr env b = Ok alias <-> accepted env b alias.
Proof.
  rewrite check_proof_split. unfold accepted. split.
  - intros (c & p & s & (H1 & H2 & H3 & H4 & _ & k & o & H6 & H7 & H8)%read_proof_ok & Hp
      & (Hj & Hf & r & H9 & H10)%verify_ok).
    by exists c, k, p, s, o, r.
  - intros (c & k & p & s & o & r & H1 & H2 & H3 & H4 & H5 & H6 & H7 & Hp & Hj & Hf & H9 & H10).
    exists c, p, s. split; [|split; [done|apply verify_ok; eauto]].
    apply read_proof_ok. split_and!; eauto; lia.
Qed.

(** C14. The proof route issues credentials exactly when the request shows
    personhood: the product is accepted, the collection is a canonical one, the
    proof has the length of a single-context proof, its timestamp is within a
    minute of the clock, the ring root it names is held in a snapshot of that
    collection at most ten minutes old, a slot was obtained, the proof verifies
    against that root under the product's context and the message of that
    timestamp, the alias is within its rate, and the source issues. *)
Theorem proof_route_exact env b s d :
  fst (issue_with_proof cr env (Some b) s) = Ok d <->
  exists alias paid, accepted env b alias /\
    fst (Limiter.allow (pe_clock cr env) (hex_encode alias) (ts_alias_limiter s)) = Ok paid /\
    fst (source_issue_for_proof cr (ts_source s) (pe_issued_at cr env) (pe_answer cr env)
           (pb_product_id b) alias) = Some d.
Proof.
  cbn [issue_with_proof]. pose proof (check_proof_ok env b) as Hc.
  destruct (check_proof cr env b) as [alias|e].
  - assert (Ha : forall a, accepted env b a -> a = alias) by (intros a Ha; apply Hc in Ha; congruence).
    assert (Hacc : accepted env b alias) by by apply Hc.
    destruct (Limiter.allow _ _ _) as [[paid|w] l] eqn:El; simpl.
    + destruct (source_issue_for_proof _ _ _ _ _ _) as [[d'|] src] eqn:Es; simpl; split.
      * intros [= ->]. exists alias, paid. rewrite El, Es. done.
      * intros (a & p & H1 & H2 & H3). rewrite (Ha a H1), Es in H3. by injection H3 as ->.
      * done.
      * intros (a & p & H1 & H2 & H3). by rewrite (Ha a H1), Es in H3.
    + split; [done|]. intros (a & p & H1 & H2 & _). by rewrite (Ha a H1), El in H2.
  - split; [done|]. intros (a & p & H1%Hc & _). done.
Qed.
(** ** Where ring roots come from *)

Abbreviation run_refresher configured := (foldl (refresher_turn cr configured)).

(** The session in which the task refreshes was opened by a genesis that was not
    refused, and every tick since it refreshed. *)
Definition session_ok (configured : bytes) (turns : list (RefresherTurn)) : Prop :=
  exists pre genesis post,
    turns = (pre ++ TConnect (Some genesis) :: post)%list /\ genesis_refused configured genesis = false /\
    Forall (fun t => match t with
                     | TTick _ (Some b) => is_Some (refresh cr b)
                     | TTick _ None => False
                     | _ => True
                     end) post.

Lemma session_snoc configured turns t :
  session_ok configured turns ->
  match t with TTick _ (Some b) => is_Some (refresh cr b) | TTick _ None => False | _ => True end ->
  session_ok configured (turns ++ [t]).
Proof.
  intros (pre & g & post & -> & Hg & Hp) Ht. exists pre, g, (post ++ [t])%list.
  rewrite <- app_assoc. split_and!; [done|done|]. apply Forall_app. by split; [|constructor].
Qed.

Lemma refreshing_session configured turns :
  rf_mode cr (run_refresher configured (refresher_new cr) turns) = Refreshing -> session_ok configured turns.
Proof.
  induction turns as [|t turns IH] using rev_ind; [done|]. rewrite foldl_snoc.
  set (r := foldl _ _ _) in *. unfold refresher_turn. destruct (rf_mode cr r) eqn:Em, t as [up|[g|]|mono b]; cbn; intros H;
    try congruence; try (apply session_snoc; [by apply IH|done]).
  - by destruct up.
  - destruct (genesis_refused configured g) eqn:Eg; [done|]. exists turns, g, []. by split_and!.
  - destruct b as [b|]; [|done]. apply session_snoc; [by apply IH|]. destruct (refresh cr b); [by eexists|done].
Qed.

(** C29. Every snapshot a proof is checked against was read from a chain whose genesis
    was not known to be another: it is the answer of one refresh of the task, at the
    instant it is stamped with, in a session the genesis check had let through and in
    which no refresh had failed since; and a route uses it for at most ten minutes
    after that. *)
Theorem roots_provenance configured turns mono_now s :
  cache_snapshot cr PROOF_MAX_ROOT_AGE mono_now (rf_cache cr (run_refresher configured (refresher_new cr) turns)) = Some s ->
  exists pre observed_at block post,
    turns = (pre ++ TTick observed_at (Some block) :: post)%list /\ refresh cr block = Some s /\
    session_ok configured pre /\ mono_now - observed_at <= 600 * 1000000000.
Proof.
  intros Hs. set (r := foldl _ _ _) in Hs.
  assert (Hc : exists observed_at, rf_cache cr r = Some (s, observed_at) /\ mono_now - observed_at <= 600 * 1000000000).
  { unfold cache_snapshot in Hs. destruct (rf_cache cr r) as [[s' o]|]; [|done].
    destruct (_ <=? _) eqn:E; [|done]. injection Hs as ->. bool_prop. by exists o. }
  clear Hs. destruct Hc as (o & Hc & Ho).
  enough (exists pre block post, turns = (pre ++ TTick o (Some block) :: post)%list /\ refresh cr block = Some s /\
    session_ok configured pre) as (pre & b & post & H1 & H2 & H3) by by exists pre, o, b, post.
  clear Ho. subst r. induction turns as [|t turns IH] using rev_ind; [done|]. rewrite foldl_snoc in Hc.
  assert (Hkeep : rf_cache cr (foldl (refresher_turn cr configured) (refresher_new cr) turns) = Some (s, o) ->
    exists pre block post, (turns ++ [t])%list = (pre ++ TTick o (Some block) :: post)%list /\
      refresh cr block = Some s /\ session_ok configured pre).
  { intros (pre & b & post & -> & Hb & Hp)%IH. exists pre, b, (post ++ [t])%list. by rewrite <- app_assoc. }
  pose proof (refreshing_session configured turns) as Hr. set (r := foldl _ _ _) in *.
  unfold refresher_turn in Hc. destruct (rf_mode cr r) eqn:Em, t as [up|[g|]|mono b]; cbn in Hc; auto; try done.
  destruct b as [b|]; [|by auto]. destruct (refresh cr b) as [s'|] eqn:Eb; [|by auto].
  cbn in Hc. injection Hc as -> ->. exists turns, b, []. by split_and!; [|done|apply Hr].
Qed.

(** ** Coturn credentials *)

(** What a relay holding the shared secret does with a credential: the text before
    the first colon of the name is the expiry, and the password must be the keyed
    digest of the name. *)
Definition relay_accepts (i : Issuer) (clock : Z) (username password : string) : Prop :=
  exists expiry rest e,
    split_once ":"%char username = Some (expiry, rest) /\ parse_unsigned U64_MAX expiry = Some e /\
    clock < e /\ password = password_for cr i username.

Lemma username_expiry expiry id :
  0 <= expiry <= U64_MAX ->
  exists rest, split_once ":"%char (c_username (issue_until cr {| is_secret := []; is_algorithm := Sha1; is_ttl_secs := 0 |} expiry id))
    = Some (decimal expiry, rest) /\ parse_unsigned U64_MAX (decimal expiry) = Some expiry.
Proof.
  intros He. exists (hex_encode id). split; [|by apply parse_unsigned_decimal].
  cbn [issue_until c_username]. change (":" +:+ hex_encode id) with (String ":"%char (hex_encode id)).
  apply split_once_app. apply (split_once_None_chars _ is_ascii_digit); [done|]. apply decimal_digits; lia.
Qed.

Lemma relay_issue_until i expiry id clock :
  0 <= expiry <= U64_MAX ->
  let c := issue_until cr i expiry id in
  relay_accepts i clock (c_username c) (c_password c) <-> clock < expiry.
Proof.
  intros He c. destruct (username_expiry expiry id He) as (rest & Hs & Hp).
  change (c_username _) with (c_username c) in Hs. unfold relay_accepts. rewrite Hs. split.
  - intros (x & r & e & [= <- <-] & Hx & Hc & _). congruence.
  - intros Hc. by exists (decimal expiry), rest, expiry.
Qed.

(** A relay that shares the secret accepts what the service hands out, on either
    route, for exactly the lifetime the answer states: until the clock of the
    request plus the ttl of the answer, and not from then on. *)
Theorem relay_accepts_for_ttl secret algorithm realm servers ttl now clock answer id product_id alias d :
  0 <= now -> 0 <= ttl -> now + ttl <= U64_MAX ->
  let s := Source_new (PCoturn secret algorithm realm servers) ttl in
  fst (source_issue cr s now answer id) = Some d \/
  fst (source_issue_for_proof cr s now answer product_id alias) = Some d ->
  d_servers d = servers /\
  (relay_accepts {| is_secret := secret; is_algorithm := algorithm; is_ttl_secs := ttl |} clock
     (d_username d) (d_password d) <-> clock < now + d_ttl d).
Proof.
  intros Hn Ht Hm s Hd.
  assert (Hu : u64_add now ttl = now + ttl).
  { unfold u64_add. apply Z.mod_small. unfold U64_MAX in Hm. lia. }
  destruct Hd as [[= <-]|[= <-]]; (split; [done|]); cbn [d_username d_password d_ttl from_coturn].
  - unfold issue. cbn [is_ttl_secs]. rewrite Hu. apply relay_issue_until. lia.
  - unfold issue_for_proof. cbn [is_ttl_secs]. rewrite Hu. apply relay_issue_until. lia.
Qed.

(** ** The Cloudflare client against the history of its requests *)

(** What asking the upstream showed: the newest first. *)
Inductive Saw := SawOk (g : IceCredentials) | SawRejected | SawFailed (at_ : Z).

Fixpoint last_ok (h : list Saw) : option IceCredentials :=
  match h with [] => None | SawOk g :: _ => Some g | _ :: h' => last_ok h' end.

(** Failures since the last success; a rejection is neither. *)
Fixpoint failures (h : list Saw) : nat :=
  match h with [] => O | SawOk _ :: _ => O | SawRejected :: h' => failures h' | SawFailed _ :: h' => S (failures h') end.

Fixpoint last_failure (h : list Saw) : Z :=
  match h with [] => 0 | SawFailed t :: _ => t | _ :: h' => last_failure h' end.

Definition saw (now : Z) (r : result IceCredentials CloudflareError) : Saw :=
  match r with Ok g => SawOk g | Err (Rejected _) => SawRejected | Err _ => SawFailed now end.

(** The credential a client with history [h] may still hand out. *)
Definition usable (ttl now : Z) (h : list Saw) : option IceCredentials :=
  match last_ok h with
  | Some g => if min_useful_remaining ttl <=? Z.max 0 (expires_at g - now) then Some g else None
  | None => None
  end.

(** The reference: a pause of [FAILURE_COOLDOWN] seconds after every failure from
    the third in a row on, during which a usable credential is served unasked. *)
Definition paused (ttl now : Z) (h : list Saw) : bool :=
  (3 <=? failures h)%nat && (now <? u64_add (last_failure h) FAILURE_COOLDOWN) && bool_decide (is_Some (usable ttl now h)).

Definition reference_issue (ttl now : Z) (r : result IceCredentials CloudflareError) (h : list Saw)
    : result IceCredentials CloudflareError * list Saw :=
  if paused ttl now h then (match usable ttl now h with Some g => Ok g | None => r end, h)
  else
    (match r with
     | Ok g => Ok g
     | Err (Rejected why) => Err (Rejected why)
     | Err e => match usable ttl now h with Some g => Ok g | None => Err e end
     end, saw now r :: h).

Definition holds (ttl : Z) (h : list Saw) (c : Client) : Prop :=
  cl_ttl_secs c = ttl /\ min_useful c = min_useful_remaining ttl /\ last_good c = last_ok h /\
  consecutive_failures (breaker c) = Z.min U32_MAX (Z.of_nat (failures h)) /\
  skip_until (breaker c) = (if (3 <=? failures h)%nat then u64_add (last_failure h) FAILURE_COOLDOWN else 0).

Lemma holds_cached ttl h c now : holds ttl h c -> cached now c = usable ttl now h.
Proof. intros (_ & Hm & Hg & _). unfold cached, usable, remaining. by rewrite Hm, Hg. Qed.

Lemma holds_cooldown ttl h c now :
  holds ttl h c -> 0 <= now ->
  (if in_cooldown now c then cached now c else None) = (if paused ttl now h then usable ttl now h else None).
Proof.
  intros Hh Hn. rewrite (holds_cached ttl h c now Hh). destruct Hh as (_ & _ & _ & _ & Hs).
  unfold in_cooldown, paused. rewrite Hs. destruct (3 <=? failures h)%nat; cbn [andb].
  - destruct (now <? _); cbn [andb]; [|done]. case_bool_decide as Hu; [done|]. by apply eq_None_not_Some.
  - by replace (now <? 0) with false by lia.
Qed.

Lemma holds_failure ttl h c now :
  holds ttl h c -> holds ttl (SawFailed now :: h) (snd (record_failure now c)).
Proof.
  intros (H1 & H2 & H3 & H4 & H5). unfold record_failure. rewrite H4.
  assert (Hc : Z.min U32_MAX (Z.min U32_MAX (Z.of_nat (failures h)) + 1) = Z.min U32_MAX (Z.of_nat (S (failures h)))) by lia.
  rewrite Hc. unfold holds. cbn [failures last_failure last_ok].
  unfold FAILURE_THRESHOLD. destruct (3 <=? _) eqn:E; bool_prop; cbn [snd with_breaker cl_ttl_secs min_useful last_good breaker consecutive_failures skip_until].
  - split_and!; [done..|]. by destruct (Nat.leb_spec 3 (S (failures h))); [|unfold U32_MAX in *; lia].
  - split_and!; [done..|]. rewrite H5.
    destruct (Nat.leb_spec 3 (failures h)), (Nat.leb_spec 3 (S (failures h))); try done; unfold U32_MAX in *; lia.
Qed.

Lemma client_issue_step ttl h c now answer :
  holds ttl h c -> 0 <= now ->
  let '(r, asked, c') := client_issue cr now answer c in
  let '(r', h') := reference_issue ttl now (fetch cr now answer c) h in
  r = r' /\ asked = negb (paused ttl now h) /\ holds ttl h' c'.
Proof.
  intros Hh Hn. unfold client_issue, reference_issue. rewrite (holds_cooldown ttl h c now Hh Hn).
  destruct (paused ttl now h) eqn:Ep.
  { unfold paused in Ep. apply andb_true_iff in Ep as [_ Ep]. apply bool_decide_eq_true in Ep as [g Hg]. by rewrite Hg. }
  destruct (fetch cr now answer c) as [g|[why|why|why]]; cbn [saw].
  - by destruct Hh as (H1 & H2 & _).
  - pose proof (holds_failure ttl h c now Hh) as Hf. destruct (record_failure now c) as [opened c']. cbn [snd] in Hf.
    rewrite (holds_cached _ _ _ now Hf). unfold usable. cbn [last_ok]. fold (usable ttl now h). by destruct (usable ttl now h).
  - done.
  - pose proof (holds_failure ttl h c now Hh) as Hf. destruct (record_failure now c) as [opened c']. cbn [snd] in Hf.
    rewrite (holds_cached _ _ _ now Hf). unfold usable. cbn [last_ok]. fold (usable ttl now h). by destruct (usable ttl now h).
Qed.
Fixpoint client_run (reqs : list (Z * Upstream)) (c : Client)
    : list (result IceCredentials CloudflareError * bool) :=
  match reqs with
  | [] => []
  | (now, answer) :: reqs' =>
      let '(r, asked, c') := client_issue cr now answer c in (r, asked) :: client_run reqs' c'
  end.

(** Of the client, an answer is read with its requested lifetime alone. *)
Definition asking_for (ttl : Z) : Client := Client_new EmptyString EmptyString ttl None.

Fixpoint reference_run (ttl : Z) (reqs : list (Z * Upstream)) (h : list Saw)
    : list (result IceCredentials CloudflareError * bool) :=
  match reqs with
  | [] => []
  | (now, answer) :: reqs' =>
      let '(r, h') := reference_issue ttl now (fetch cr now answer (asking_for ttl)) h in
      (r, negb (paused ttl now h)) :: reference_run ttl reqs' h'
  end.

Lemma client_run_holds ttl reqs h c :
  holds ttl h c -> Forall (fun r => 0 <= r.1) reqs -> client_run reqs c = reference_run ttl reqs h.
Proof.
  revert h c. induction reqs as [|[now answer] reqs IH]; intros h c Hh Hf; [done|].
  apply Forall_cons in Hf as [Hn Hf]. cbn [client_run reference_run]. pose proof (client_issue_step ttl h c now answer Hh Hn) as Hs.
  assert (He : fetch cr now answer (asking_for ttl) = fetch cr now answer c).
  { unfold fetch. by rewrite (proj1 Hh). }
  rewrite He. destruct (client_issue cr now answer c) as [[r asked] c'].
  destruct (reference_issue _ _ _ _) as [r' h']. destruct Hs as (-> & -> & Hh'). by rewrite (IH h' c').
Qed.

(** The Cloudflare client, over any sequence of requests, answers as a function
    of what the upstream said before: a fresh credential when it is asked and gives
    one, the refusal when it refuses; and else the credential of the last success
    for as long as it is worth serving.  It is left unasked exactly for thirty
    seconds after the third failure in a row or a later one, and only while such a
    credential is there to serve. *)
Theorem client_answers_from_history key_id api_token base_url ttl reqs :
  Forall (fun r => 0 <= r.1) reqs ->
  client_run reqs (Client_new key_id api_token ttl base_url) = reference_run ttl reqs [].
Proof. intros Hf. by apply client_run_holds. Qed.

(** ** The rate of issuance *)

(** A request of the authenticated route, or an entry the limiter's caches drop. *)
Inductive TurnEvent :=
| Request (clock now_unix : Z) (answer : Upstream) (id : bytes) (subject : string) (body : bytes)
| CreditsDropped (key : string)
| CellDropped (key : string).

Definition with_limiter (l : Limiter.Limiter) (s : TurnState) : TurnState :=
  {| ts_source := ts_source s; ts_limiter := l; ts_alias_limiter := ts_alias_limiter s |}.

(** Whether the event handed a credential to [key], and the state after it. *)
Definition turn_event (key : string) (e : TurnEvent) (s : TurnState) : bool * TurnState :=
  match e with
  | Request clock now answer id subject body =>
      let '(r, s') := issue_credentials cr clock now answer id subject body s in
      (match r with Ok _ => String.eqb subject key | Err _ => false end, s')
  | CreditsDropped k => (false, with_limiter (snd (Limiter.op_step (Limiter.OpEvictCredits k) (ts_limiter s))) s)
  | CellDropped k => (false, with_limiter (snd (Limiter.op_step (Limiter.OpEvictCell k) (ts_limiter s))) s)
  end.

Fixpoint issued_to (key : string) (es : list TurnEvent) (s : TurnState) : nat :=
  match es with
  | [] => O
  | e :: es' => let '(b, s') := turn_event key e s in ((if b then 1 else 0) + issued_to key es' s')%nat
  end.

(** The instants at which [key] asked. *)
Definition asked_at (key : string) (es : list TurnEvent) : list Z :=
  omap (fun e => match e with Request clock _ _ _ k _ => if String.eqb k key then Some clock else None | _ => None end) es.

(** What a request does to the limiter. *)
Definition request_ops (e : TurnEvent) (s : TurnState) : list Limiter.Op :=
  match e with
  | Request clock now answer id subject body =>
      match
        (match body with
         | [] => Ok tt
         | _ => match json_of_bytes cr body with
                | None => Err MalformedJson
                | Some v => map_err InvalidBody (validate_body v)
                end
         end)
      with
      | Err _ => []
      | Ok _ =>
          Limiter.OpAllow clock subject ::
          match fst (Limiter.allow clock subject (ts_limiter s)), fst (source_issue cr (ts_source s) now answer id) with
          | Ok paid, None => [Limiter.OpRefund subject paid]
          | _, _ => []
          end
      end
  | CreditsDropped k => [Limiter.OpEvictCredits k]
  | CellDropped k => [Limiter.OpEvictCell k]
  end.
Fixpoint run_ops (ops : list Limiter.Op) (l : Limiter.Limiter) : Limiter.Limiter :=
  match ops with [] => l | op :: ops' => run_ops ops' (snd (Limiter.op_step op l)) end.

Lemma admitted_app key a b l :
  Limiter.admitted key (a ++ b) l = (Limiter.admitted key a l + Limiter.admitted key b (run_ops a l))%nat.
Proof.
  revert l. induction a as [|op a IH]; intros l; [done|]. cbn [app Limiter.admitted run_ops].
  destruct (Limiter.op_step op l) as [r l'] eqn:E. cbn [snd]. rewrite IH.
  destruct op, r; try done. by destruct (String.eqb _ _).
Qed.

Lemma request_ops_spec key e s :
  ts_limiter (snd (turn_event key e s)) = run_ops (request_ops e s) (ts_limiter s) /\
  ((if fst (turn_event key e s) then 1 else 0) + Limiter.refunded key (request_ops e s)
   <= Limiter.admitted key (request_ops e s) (ts_limiter s))%nat /\
  Limiter.checked_at key (request_ops e s) `sublist_of` asked_at key [e] /\
  (forall k, Limiter.OpEvictCell k ∈ request_ops e s -> e = CellDropped k).
Proof.
  destruct e as [clock now answer id subject body|k|k]; cbn [turn_event request_ops issue_credentials].
  2,3: (split_and!; [done|done|done|]; intros k' Hk; set_solver).
  unfold issue_credentials. destruct (match body with [] => _ | _ => _ end) as [[]|e].
  2: { split_and!; [done|done|apply sublist_nil_l|]. intros k Hk. set_solver. }
  destruct (Limiter.allow clock subject (ts_limiter s)) as [[paid|w] l] eqn:El; cbn [fst].
  - destruct (source_issue cr (ts_source s) now answer id) as [[d|] src]; cbn [fst snd ts_limiter run_ops Limiter.op_step Limiter.admitted];
      rewrite El; cbn [snd]; unfold Limiter.checked_at, asked_at, Limiter.refunded; simpl;
      (destruct (String.eqb subject key) eqn:Ek; (split_and!; [done| |done|intros k Hk; set_solver]));
      rewrite ?filter_cons, ?filter_nil; simpl; try lia.
    + destruct paid; simpl; [rewrite Ek|]; repeat case_decide; simpl; lia.
    + destruct paid; simpl; [rewrite Ek|]; repeat case_decide; simpl; try done; lia.
  - cbn [fst snd ts_limiter run_ops Limiter.op_step Limiter.admitted]. rewrite El. cbn [snd].
    unfold Limiter.checked_at, asked_at, Limiter.refunded; simpl.
    destruct (String.eqb subject key); (split_and!; [done|simpl; lia|done|intros k Hk; set_solver]).
Qed.

Lemma issued_ops key es s :
  exists ops,
    (issued_to key es s + Limiter.refunded key ops <= Limiter.admitted key ops (ts_limiter s))%nat /\
    Limiter.checked_at key ops `sublist_of` asked_at key es /\
    (forall k, Limiter.OpEvictCell k ∈ ops -> CellDropped k ∈ es).
Proof.
  revert s. induction es as [|e es IH]; intros s.
  { exists []. split_and!; [done|done|]. intros k Hk. by apply not_elem_of_nil in Hk. }
  destruct (request_ops_spec key e s) as (H1 & H2 & H3 & H4). cbn [issued_to].
  destruct (turn_event key e s) as [b s'] eqn:Ee. cbn [fst snd] in *.
  destruct (IH s') as (ops & I1 & I2 & I3). exists (request_ops e s ++ ops)%list.
  rewrite admitted_app, <- H1. unfold Limiter.refunded, Limiter.checked_at, asked_at in *.
  rewrite filter_app, length_app, omap_app. change (e :: es) with ([e] ++ es)%list. rewrite omap_app. split_and!; [lia| |].
  - by apply sublist_app.
  - intros k [Hk|Hk]%elem_of_app; [apply H4 in Hk as ->; set_solver|]. apply elem_of_app. right. by apply I3.
Qed.
(** C13. Over any traffic, with requests of other subjects interleaved, bodies
    refused, upstream failures paid back, and whatever the limiter's caches drop
    except the cell of the subject, the credentials handed to one subject between
    two instants are at most its burst, plus one per period of the time between,
    plus the credits it held before. *)
Theorem turn_issuance_bounded `{!Limiter.GovernorLaws} key es s lo hi :
  let q := Limiter.l_quota (ts_limiter s) in
  1 <= Limiter.burst q -> 1 <= Limiter.period q -> lo <= hi ->
  StronglySorted Z.le (asked_at key es) -> Forall (fun t => lo <= t <= hi) (asked_at key es) ->
  CellDropped key ∉ es ->
  Z.of_nat (issued_to key es s)
  <= Limiter.burst q + (hi - lo) / Limiter.period q + Limiter.credits_of key (ts_limiter s).
Proof.
  intros q Hb Hp Hlh Hs Hf He. destruct (issued_ops key es s) as (ops & H1 & H2 & H3).
  pose proof (Limiter.admitted_bound key ops (ts_limiter s) lo hi) as Ha. fold q in Ha.
  enough (Z.of_nat (Limiter.admitted key ops (ts_limiter s)) <= Limiter.burst q + (hi - lo) / Limiter.period q
    + Limiter.credits_of key (ts_limiter s) + Z.of_nat (Limiter.refunded key ops)) by lia.
  apply Ha; try done.
  - by eapply sublist_sorted.
  - by eapply sublist_all.
  - intros k Hk ->. apply He. by apply H3.
Qed.
End props.

(** ** Concrete instances *)

Module Demo.
Import Limiter.Gcra.

(** A stand-in for the crates: digests that keep their input, one ring, and proofs
    that are their own alias. *)
Definition demo : TurnCrates :=
  {| hmac := fun _ k m => (k ++ m)%list; b64 := hex_encode; blake2b256 := fun b => b; Members := unit;
     decode_members := fun b => Some (tt, b); proof_fits := fun _ => true; PROOF_LEN := 2%nat;
     validate := fun _ p _ _ _ => Some p; json_of_bytes := fun _ => None; status_text := decimal |}.

Lemma relay_accepts_for_ttl_witness :
  exists d, fst (source_issue demo (Source_new (PCoturn [1; 2] Sha1 "relay" ["turn:a"]) 3600) 1700000000 (NoResponse "down") [7]) = Some d /\
    d_username d = "1700003600:07" /\
    (relay_accepts demo {| is_secret := [1; 2]; is_algorithm := Sha1; is_ttl_secs := 3600 |} 1700003599
       (d_username d) (d_password d) <-> 1700003599 < 1700000000 + d_ttl d).
Proof.
  eexists. split; [reflexivity|]. split; [by vm_compute|].
  apply (relay_accepts_for_ttl demo [1; 2] Sha1 "relay" ["turn:a"] 3600 1700000000 1700003599 (NoResponse "down") [7] EmptyString []);
    [lia|lia|by vm_compute|by left].
Defined.

(** A ring in its first revision. *)
Definition demo_block : RootBlock :=
  {| rb_collection := Some (Some R2e9); rb_current_ring := Some None;
     rb_root := fun _ => Some (Some [0; 0; 0; 0]); rb_old_root := fun _ _ => Some None |}.

Definition demo_turns : list RefresherTurn := [TDial true; TConnect (Some (Some [9])); TTick 5 (Some demo_block)].

Lemma roots_provenance_witness :
  exists s, cache_snapshot demo PROOF_MAX_ROOT_AGE 7
      (rf_cache demo (foldl (refresher_turn demo [9]) (refresher_new demo) demo_turns)) = Some s /\
    exists pre observed_at block post, demo_turns = (pre ++ TTick observed_at (Some block) :: post)%list /\
      refresh demo block = Some s /\ session_ok demo [9] pre /\ 7 - observed_at <= 600 * 1000000000.
Proof.
  eexists. split; [vm_compute; reflexivity|].
  apply (roots_provenance demo [9] demo_turns 7). vm_compute. reflexivity.
Defined.

Definition good : Json :=
  JObject [("iceServers", JArray [JObject [("urls", JString "turn:x"); ("username", JString "u"); ("credential", JString "p")]])].

(** A success, three failures that open the breaker, a request in the pause, one
    after it, and one when the credential is worn out. *)
Definition demo_requests : list (Z * Upstream) :=
  [(1000, Responded 201 (Ok good)); (1010, NoResponse "a"); (1020, NoResponse "b"); (1030, NoResponse "c");
   (1040, NoResponse "d"); (1061, NoResponse "e"); (1580, NoResponse "f")].

Lemma client_answers_from_history_witness :
  snd <$> client_run demo demo_requests (Client_new "key" "token" 600 None) = [true; true; true; true; false; true; true] /\
  client_run demo demo_requests (Client_new "key" "token" 600 None) = reference_run demo 600 demo_requests [].
Proof.
  split; [by vm_compute|]. apply (client_answers_from_history demo "key" "token" None 600 demo_requests).
  unfold demo_requests. repeat constructor; done.
Defined.

Definition demo_state : TurnState :=
  {| ts_source := Cloudflare (Client_new "key" "token" 600 None); ts_limiter := demo_limiter; ts_alias_limiter := demo_limiter |}.

(** An issue, an upstream failure that is paid back, another issue, a refusal. *)
Definition demo_events : list TurnEvent :=
  [Request 1000 1000 (Responded 201 (Ok good)) [] "a" []; Request 1001 1700 (NoResponse "x") [] "a" [];
   Request 1002 1701 (Responded 201 (Ok good)) [] "a" []; Request 1003 1702 (Responded 201 (Ok good)) [] "a" []].

Lemma turn_issuance_bounded_witness :
  issued_to demo "a" demo_events demo_state = 2%nat /\
  Z.of_nat (issued_to demo "a" demo_events demo_state) <= 2 + (1003 - 1000) / 30 + 0.
Proof.
  split; [by vm_compute|].
  apply (turn_issuance_bounded demo "a" demo_events demo_state 1000 1003); try (vm_compute; congruence).
  - change (StronglySorted Z.le [1000; 1001; 1002; 1003]). repeat constructor; lia.
  - change (Forall (fun t => 1000 <= t <= 1003) [1000; 1001; 1002; 1003]). repeat constructor; lia.
  - unfold demo_events. intros Hk. repeat (apply elem_of_cons in Hk as [Hk|Hk]; [discriminate|]).
    by apply not_elem_of_nil in Hk.
Defined.
End Demo.
End TurnProps.

Module RingClient.
Import Turn TurnProps.

(** The prover's half of the ring-VRF crate, over the ring size's domain, and the
    decoding of a page of keys.  [commit] is the builder of a commitment
    ([start_members], [push_members] over the setup's points, [finish_members]). *)
Class RingVrf (cr : TurnCrates) := {
  Secret : Type; new_secret : bytes -> Secret; member_from_secret : Secret -> bytes;
  vrf_sign : Secret -> bytes -> option bytes;
  Opening : Type; open_ring : Z -> bytes -> list bytes -> option Opening;
  create : Opening -> Secret -> bytes -> bytes -> option (bytes * bytes);
  commit : Z -> list bytes -> option (Members cr);
  #[global] members_eq :: EqDecision (Members cr);
  decode_keys : bytes -> option (list bytes);
  (** The candidate's account key. *)
  keypair_of : bytes -> option bytes; account_sign : bytes -> bytes -> bytes }.

(** How an example ends when it fails: its own message, an error passed on, a panic. *)
Inductive Fail := Bail (text : string) | Passed | Panic.

Definition passed {A : Type} (o : option A) : result A Fail := match o with Some a => Ok a | None => Err Passed end.
Definition context_of {A : Type} (text : string) (o : option A) : result A Fail := match o with Some a => Ok a | None => Err (Bail text) end.

(** The value after a flag. *)
Fixpoint arg (args : list string) (name : string) : option string :=
  match args with
  | [] => None
  | a :: rest => if String.eqb a name then head rest else arg rest name
  end.

Definition decode_hex (raw : string) : result bytes Fail := context_of "invalid hex" (hex_decode (trim_0x raw)).
Definition decode_hex32 (raw : string) : result bytes Fail :=
  rbind (decode_hex raw) (fun b =>
    if (length b =? 32)%nat then Ok b else Err (Bail ("expected 32 bytes, got " +:+ decimal (Z.of_nat (length b))))).

(** The storage the examples read. *)
Record MembersBlock := {
  mb_roots : RootBlock;
  mb_keys_status : Z -> option (option bytes);
  mb_keys_page : Z -> Z -> option (option bytes) }.

Section client.
Context (cr : TurnCrates) `{vrf : RingVrf cr}.
#[local] Open Scope dub_scope.

(** ** [attest_and_prove.rs]: the phase [attest] *)

Definition ATTEST_PREFIX : bytes := as_bytes "pop:people-lite:register using".

Record Candidate := { account_seed_hex : string; entropy_hex : string; ring_key_hex : string; account_hex : string }.

(** [seed] and [entropy] are drawn. *)
Definition generate_candidate (seed entropy : bytes) : result Candidate Fail :=
  let? account := passed (keypair_of seed) in
  Ok {| account_seed_hex := hex_encode seed; entropy_hex := hex_encode entropy;
        ring_key_hex := hex_encode (member_from_secret (new_secret entropy)); account_hex := hex_encode account |}.

Definition array32 (b : bytes) : result bytes Fail := if (length b =? 32)%nat then Ok b else Err Panic.

Record AttestCall := {
  at_candidate : bytes; at_signature : bytes; at_ring_key : bytes; at_ownership : bytes; at_nonce : Z }.

Definition attest_message (candidate ring_key : bytes) : bytes := (ATTEST_PREFIX ++ candidate ++ ring_key)%list.

Definition attest_call (nonce : Z) (c : Candidate) : result AttestCall Fail :=
  let? seed := passed (hex_decode (account_seed_hex c)) in
  let? seed := array32 seed in
  let? entropy := passed (hex_decode (entropy_hex c)) in
  let? entropy := array32 entropy in
  let? candidate := passed (keypair_of seed) in
  let secret := new_secret entropy in
  let ring_key := member_from_secret secret in
  let msg := attest_message candidate ring_key in
  let? ownership := passed (vrf_sign secret msg) in
  Ok {| at_candidate := candidate; at_signature := account_sign seed msg; at_ring_key := ring_key;
        at_ownership := ownership; at_nonce := nonce |}.

(** What a submission reports, until its stream ends. *)
Inductive TxStatus := InBestBlock (succeeded : bool) | TxFailed (message : string) | StreamFailed | OtherStatus.

Fixpoint watch (i : nat) (stream : list TxStatus) : result unit Fail :=
  match stream with
  | [] => Ok tt
  | InBestBlock succeeded :: _ => if succeeded then Ok tt else Err Passed
  | TxFailed message :: _ => Err (Bail ("attest " +:+ decimal (Z.of_nat i) +:+ " failed: " +:+ message))
  | StreamFailed :: _ => Err Passed
  | OtherStatus :: rest => watch i rest
  end.

(** The loop over the candidates: the calls sent, and how it ended. *)
Fixpoint attest_all (i : nat) (nonce : Z) (cs : list Candidate) (streams : nat -> list TxStatus)
    : list AttestCall * result unit Fail :=
  match cs with
  | [] => ([], Ok tt)
  | c :: rest =>
      match attest_call nonce c with
      | Err e => ([], Err e)
      | Ok call =>
          match watch i (streams i) with
          | Err e => ([call], Err e)
          | Ok _ => let '(calls, r) := attest_all (S i) (nonce + 1) rest streams in (call :: calls, r)
          end
      end
  end.

(** ** The keys of a ring, as [attest_and_prove.rs] and [rebuild_root.rs] read them *)

(** The loop over the pages; [fuel] is the number of keys still to come. *)
Fixpoint fetch_keys (fuel : nat) (b : MembersBlock) (ring total page : Z) (keys : list bytes) : result (list bytes) Fail :=
  if total <=? Z.of_nat (length keys) then Ok keys
  else
    match fuel with
    | O => Ok keys
    | S fuel' =>
        let? value := passed (mb_keys_page b ring page) in
        match value with
        | None => Ok keys
        | Some v =>
            let? page_keys := passed (decode_keys v) in
            match page_keys with
            | [] => Ok keys
            | _ => fetch_keys fuel' b ring total (page + 1) (keys ++ page_keys)%list
            end
        end
    end.

Definition ring_keys (b : MembersBlock) (ring total : Z) : result (list bytes) Fail :=
  fetch_keys (Z.to_nat total) b ring total 0 [].

(** [RingKeysStatus]: how many keys there are, and how many the root includes. *)
Definition read_status (raw : bytes) : result (Z * Z) Fail :=
  let? (total, rest) := passed (decode_u32 raw) in
  let? (included, _) := passed (decode_u32 rest) in
  Ok (total, included).

Definition read_domain (b : MembersBlock) (missing : string) : result Z Fail :=
  let? info := passed (rb_collection (mb_roots b)) in
  let? ring_size := context_of missing info in
  Ok (ring_domain ring_size).

(** The current root: the commitment and its revision. *)
Definition read_root (b : MembersBlock) (ring : Z) (missing undecodable : string) : result (Members cr * Z) Fail :=
  let? value := passed (rb_root (mb_roots b) ring) in
  let? value := context_of missing value in
  let? (m, rest) := context_of undecodable (decode_members cr value) in
  let? (rev, _) := passed (decode_u32 rest) in
  Ok (m, rev).

(** ** [attest_and_prove.rs]: the phase [prove] *)

Record Proved := { pv_ring : Z; pv_revision : option Z; pv_proof : bytes; pv_alias : bytes }.

Fixpoint position (key : bytes) (keys : list bytes) : option nat :=
  match keys with
  | [] => None
  | k :: rest => if bool_decide (k = key) then Some O else S <$> position key rest
  end.

(** One ring: [None] when our key is not in it. *)
Definition prove_ring (secret : Secret) (context message : bytes) (prefix : option nat) (domain : Z) (b : MembersBlock)
    (ring : Z) : result (option Proved) Fail :=
  let my_key := member_from_secret secret in
  let? status := passed (mb_keys_status b ring) in
  match status with
  | None => Ok None
  | Some raw =>
      let? (total, included) := read_status raw in
      let? keys := ring_keys b ring total in
      match position my_key keys with
      | None => Ok None
      | Some position =>
          let cut := default (Z.to_nat included) prefix in
          if (cut <=? position)%nat then Err (Bail "our key is outside the requested prefix/included count")
          else
            let? opening := passed (open_ring domain my_key (take cut keys)) in
            let? (proof, alias) := passed (create opening secret context message) in
            match prefix with
            | Some _ => Ok (Some {| pv_ring := ring; pv_revision := None; pv_proof := proof; pv_alias := alias |})
            | None =>
                let? (onchain, rev) := read_root b ring "ring root not found" "root is not the pinned encoding" in
                let? verified := context_of "proof did NOT verify against on-chain root"
                                   (validate cr domain proof onchain context message) in
                if bool_decide (verified = alias)
                then Ok (Some {| pv_ring := ring; pv_revision := Some rev; pv_proof := proof; pv_alias := verified |})
                else Err (Bail "verifier alias differs from prover alias")
            end
      end
  end.

Fixpoint prove_rings (secret : Secret) (context message : bytes) (prefix : option nat) (domain : Z) (b : MembersBlock)
    (rings : list Z) : result Proved Fail :=
  match rings with
  | [] => Err (Bail "our ring key was not found in any ring")
  | ring :: rest =>
      let? found := prove_ring secret context message prefix domain b ring in
      match found with Some p => Ok p | None => prove_rings secret context message prefix domain b rest end
  end.

Definition current_ring (b : MembersBlock) : result Z Fail :=
  let? raw := passed (rb_current_ring (mb_roots b)) in
  match raw with None => Ok 0 | Some v => let? (n, _) := passed (decode_u32 v) in Ok n end.

(** The rings from the newest down; the candidate is the first of the file. *)
Definition prove (candidates : list Candidate) (context message : bytes) (prefix : option nat) (b : MembersBlock)
    : result Proved Fail :=
  match candidates with
  | [] => Err Panic
  | c :: _ =>
      let? entropy := passed (hex_decode (entropy_hex c)) in
      let? entropy := array32 entropy in
      let? domain := read_domain b "people-lite collection not found" in
      let? current := current_ring b in
      prove_rings (new_secret entropy) context message prefix domain b (reverse (seqZ 0 (current + 1)))
  end.

(** ** [verify_proof.rs] *)

Definition verify_proof (domain_arg : option string) (ring : Z) (proof_file : option bytes) (context message : string)
    (b : MembersBlock) : result (option bytes) Fail :=
  let? domain := match domain_arg with
                 | Some d => if String.eqb d "11" then Ok 11 else if String.eqb d "12" then Ok 12
                             else if String.eqb d "16" then Ok 16 else Err (Bail "--domain must be 11, 12, or 16")
                 | None => Err (Bail "--domain must be 11, 12, or 16")
                 end in
  let? _ := read_domain b "collection not found on chain" in
  let? (commitment, _) := read_root b ring "ring root not found for this collection + ring index"
                            "on-chain root does not decode" in
  match proof_file with
  | None => Ok None
  | Some proof =>
      if negb (proof_fits cr proof) then Err (Bail "proof file is longer than a ring-VRF signature")
      else
        let? ctx := decode_hex context in
        let? msg := decode_hex message in
        let? alias := context_of "proof did NOT verify" (validate cr domain proof commitment ctx msg) in
        Ok (Some alias)
  end.

(** ** [rebuild_root.rs] *)

Inductive Rebuilt := MatchRevision (revision keys : Z) | MatchRoot (revision : Z).

(** The prefixes tried for an archived revision, the longest first. *)
Fixpoint search_prefix (domain : Z) (keys : list bytes) (target : Members cr) (rev : Z) (ns : list Z) : result Rebuilt Fail :=
  match ns with
  | [] => Err (Bail "no prefix in the searched range reproduces the revision")
  | n :: rest =>
      let? m := passed (commit domain (take (Z.to_nat n) keys)) in
      if bool_decide (m = target) then Ok (MatchRevision rev n) else search_prefix domain keys target rev rest
  end.

Definition rebuild_root (ring : Z) (old_revision : option Z) (b : MembersBlock) : result Rebuilt Fail :=
  let? domain := read_domain b "collection not found on chain" in
  let? status := passed (mb_keys_status b ring) in
  let? raw := context_of "no RingKeysStatus for this ring" status in
  let? (total, included) := read_status raw in
  let? keys := ring_keys b ring total in
  if Z.of_nat (length keys) <? included then Err (Bail "fetched fewer keys than the root includes")
  else
    let keys := take (Z.to_nat included) keys in
    match old_revision with
    | Some rev =>
        let? old := passed (rb_old_root (mb_roots b) ring (Poc.be_bytes 4 rev)) in
        let? old := context_of "no OldRoots entry for that revision (expired or never existed)" old in
        let? (target, _) := passed (decode_members cr old) in
        let lowest := Z.max 0 (included - 12) in
        search_prefix domain keys target rev (reverse (seqZ lowest (included - lowest + 1)))
    | None =>
        let? local := passed (commit domain keys) in
        let? (onchain, rev) := read_root b ring "ring root not found" "on-chain root is not the pinned 288-byte encoding" in
        if bool_decide (local = onchain) then Ok (MatchRoot rev)
        else Err (Bail "MISMATCH: local rebuild differs from Members::Root")
    end.

(** ** A member of a ring is served *)

(** What the ring-VRF is relied on for: a member of a ring that has a commitment can
    open it, and the proof it creates has the form of one and verifies against the
    commitment, with the alias the prover sees. *)
Class RingLaws : Prop := {
  member_proves : forall domain keys entropy root context msg,
    commit domain keys = Some root -> member_from_secret (new_secret entropy) ∈ keys ->
    exists opening proof alias,
      open_ring domain (member_from_secret (new_secret entropy)) keys = Some opening /\
      create opening (new_secret entropy) context msg = Some (proof, alias) /\
      Forall is_byte proof /\ proof_fits cr proof = true /\ length proof = PROOF_LEN cr /\
      validate cr domain proof root context msg = Some alias }.

(** The pages of a ring hold these keys. *)
Definition paged (b : MembersBlock) (ring : Z) (pages : list (list bytes)) : Prop :=
  forall i p, pages !! i = Some p -> p <> [] /\
    exists v, mb_keys_page b ring (Z.of_nat i) = Some (Some v) /\ decode_keys v = Some p.

Lemma fetch_keys_rest b ring pages fuel i :
  paged b ring pages -> (length (concat (drop i pages)) <= fuel)%nat -> (i <= length pages)%nat ->
  fetch_keys fuel b ring (Z.of_nat (length (concat pages))) (Z.of_nat i) (concat (take i pages)) = Ok (concat pages).
Proof.
  intros Hp. revert i. induction fuel as [|fuel IH]; intros i Hf Hi;
    assert (Hs : concat pages = (concat (take i pages) ++ concat (drop i pages))%list) by (by rewrite <- concat_app, take_drop).
  - destruct (concat (drop i pages)) eqn:Ed; cbn [length] in Hf; [|lia].
    cbn [fetch_keys]. rewrite Hs, app_nil_r. by destruct (_ <=? _).
  - cbn [fetch_keys]. rewrite Hs at 1. rewrite length_app. destruct (pages !! i) as [p|] eqn:Ei.
    + destruct (Hp i p Ei) as (Hne & v & Hv & Hd). rewrite (drop_S pages p i Ei) in Hf |- *. cbn [concat] in Hf |- *.
      rewrite length_app in Hf |- *. destruct p as [|k p]; [done|]. cbn [length] in Hf |- *.
      rewrite (proj2 (Z.leb_gt _ _)) by lia. rewrite Hv. cbn [passed rbind]. rewrite Hd. cbn [passed rbind].
      replace (Z.of_nat i + 1) with (Z.of_nat (S i)) by lia.
      replace (concat (take i pages) ++ k :: p)%list with (concat (take (S i) pages)).
      * apply IH; [lia|]. apply lookup_lt_Some in Ei. lia.
      * rewrite (take_S_r _ _ _ Ei), concat_app. cbn [concat]. by rewrite app_nil_r.
    + apply lookup_ge_None in Ei. rewrite (drop_ge pages i) by lia. cbn [concat length].
      rewrite (proj2 (Z.leb_le _ _)) by lia. by rewrite take_ge by lia.
Qed.

Lemma ring_keys_paged b ring pages :
  paged b ring pages -> ring_keys b ring (Z.of_nat (length (concat pages))) = Ok (concat pages).
Proof. intros Hp. unfold ring_keys. apply (fetch_keys_rest b ring pages _ 0 Hp); rewrite ?drop_0; lia. Qed.

(** The loop over the pages ends on every chain: each round adds a key. *)
Lemma fetch_keys_ends b ring total page keys fuel extra :
  (Z.to_nat total <= fuel + length keys)%nat ->
  fetch_keys (fuel + extra) b ring total page keys = fetch_keys fuel b ring total page keys.
Proof.
  revert page keys. induction fuel as [|fuel IH]; intros page keys Hf.
  - cbn [Nat.add] in *. destruct extra; [done|]. cbn [fetch_keys]. by rewrite (proj2 (Z.leb_le _ _)) by lia.
  - cbn [Nat.add fetch_keys]. destruct (_ <=? _); [done|]. destruct (passed (mb_keys_page b ring page)) as [[v|]|]; cbn [rbind]; [|done..].
    destruct (passed (decode_keys v)) as [[|k ks]|]; cbn [rbind]; [done| |done]. apply IH. rewrite length_app. cbn [length]. lia.
Qed.

Lemma position_spec key keys n :
  key ∈ take n keys -> exists i, position key keys = Some i /\ (i < n)%nat.
Proof.
  revert n. induction keys as [|k keys IH]; intros n; [rewrite take_nil; by intros ?%not_elem_of_nil|].
  destruct n as [|n]; [by intros ?%not_elem_of_nil|]. cbn [take position]. intros [->|Hin]%elem_of_cons.
  - rewrite bool_decide_eq_true_2 by done. exists O. split; [done|lia].
  - case_bool_decide; [exists O; split; [done|lia]|]. destruct (IH n Hin) as (i & -> & Hi). exists (S i). split; [done|lia].
Qed.

Lemma position_absent key keys : (key ∉ keys) -> position key keys = None.
Proof.
  induction keys as [|k keys IH]; intros Hn; [done|]. cbn [position]. apply not_elem_of_cons in Hn as [Hk Hn].
  rewrite bool_decide_eq_false_2 by congruence. by rewrite (IH Hn).
Qed.

(** A ring as the chain shows it: its keys, how many the root includes, the root. *)
Record ring_stands (domain : Z) (b : MembersBlock) (ring : Z) (pages : list (list bytes)) (included : Z)
    (m : Members cr) (rev : Z) : Prop := {
  rs_status : exists raw, mb_keys_status b ring = Some (Some raw) /\
    read_status raw = Ok (Z.of_nat (length (concat pages)), included);
  rs_pages : paged b ring pages;
  rs_included : 0 <= included <= Z.of_nat (length (concat pages));
  rs_root : exists value rest rest', rb_root (mb_roots b) ring = Some (Some value) /\
    decode_members cr value = Some (m, rest) /\ decode_u32 rest = Some (rev, rest');
  rs_commit : commit domain (take (Z.to_nat included) (concat pages)) = Some m }.

(** A ring without the key: none was started, or it is full of others. *)
Definition absent (b : MembersBlock) (key : bytes) (ring : Z) : Prop :=
  mb_keys_status b ring = Some None \/
  exists raw pages included, mb_keys_status b ring = Some (Some raw) /\
    read_status raw = Ok (Z.of_nat (length (concat pages)), included) /\ paged b ring pages /\ (key ∉ concat pages).

Lemma prove_ring_absent secret context msg prefix domain b ring :
  absent b (member_from_secret secret) ring -> prove_ring secret context msg prefix domain b ring = Ok None.
Proof.
  unfold prove_ring. intros [->|(raw & pages & included & -> & Hr & Hp & Hn)]; [done|]. cbn [passed rbind]. rewrite Hr. cbn [rbind].
  rewrite (ring_keys_paged _ _ _ Hp). cbn [rbind]. by rewrite (position_absent _ _ Hn).
Qed.

Lemma read_root_stands domain b ring pages included m rev missing undecodable :
  ring_stands domain b ring pages included m rev -> read_root b ring missing undecodable = Ok (m, rev).
Proof. intros [_ _ _ (v & r & r' & Hv & Hm & Hd) _]. unfold read_root. rewrite Hv. cbn. rewrite Hm. cbn. by rewrite Hd. Qed.

Lemma prove_ring_member `{RingLaws} entropy context msg domain b ring pages included m rev :
  ring_stands domain b ring pages included m rev ->
  member_from_secret (new_secret entropy) ∈ take (Z.to_nat included) (concat pages) ->
  exists proof alias,
    prove_ring (new_secret entropy) context msg None domain b ring
      = Ok (Some {| pv_ring := ring; pv_revision := Some rev; pv_proof := proof; pv_alias := alias |}) /\
    Forall is_byte proof /\ proof_fits cr proof = true /\ length proof = PROOF_LEN cr /\
    validate cr domain proof m context msg = Some alias.
Proof.
  intros Hs Hin. destruct (member_proves domain _ entropy m context msg (rs_commit _ _ _ _ _ _ _ Hs) Hin)
    as (opening & proof & alias & Ho & Hc & Hb & Hf & Hl & Hv).
  exists proof, alias. split_and!; [|done..]. destruct (rs_status _ _ _ _ _ _ _ Hs) as (raw & Hk & Hr).
  destruct (position_spec _ _ _ Hin) as (i & Hi & Hlt).
  unfold prove_ring. rewrite Hk. cbn [passed rbind]. rewrite Hr. cbn [rbind]. rewrite (ring_keys_paged _ _ _ (rs_pages _ _ _ _ _ _ _ Hs)).
  cbn [rbind]. rewrite Hi. cbn [default]. rewrite (proj2 (Nat.leb_gt _ _) Hlt), Ho. cbn [passed rbind]. rewrite Hc. cbn [passed rbind].
  rewrite (read_root_stands _ _ _ _ _ _ _ _ _ Hs). cbn [rbind]. rewrite Hv. cbn [context_of rbind]. by rewrite bool_decide_eq_true_2.
Qed.

Lemma prove_rings_member `{RingLaws} entropy context msg domain b ring pages included m rev current :
  ring_stands domain b ring pages included m rev ->
  member_from_secret (new_secret entropy) ∈ take (Z.to_nat included) (concat pages) ->
  0 <= ring <= current -> (forall r, ring < r <= current -> absent b (member_from_secret (new_secret entropy)) r) ->
  prove_rings (new_secret entropy) context msg None domain b (reverse (seqZ 0 (current + 1))) =
  rbind (prove_ring (new_secret entropy) context msg None domain b ring)
    (fun found => match found with Some p => Ok p | None => Err Passed end).
Proof.
  intros Hs Hin Hr Ha. destruct (prove_ring_member entropy context msg domain b ring pages included m rev Hs Hin) as (proof & alias & Hp & _).
  replace (seqZ 0 (current + 1)) with (seqZ 0 ring ++ ring :: seqZ (ring + 1) (current - ring))%list.
  2: { replace (current + 1) with (ring + (1 + (current - ring))) by lia. rewrite !seqZ_app by lia. cbn. reflexivity. }
  rewrite reverse_app, reverse_cons, <- (app_assoc _ [ring]). cbn [app]. rewrite Hp. cbn [rbind].
  assert (Hall : Forall (fun r => prove_ring (new_secret entropy) context msg None domain b r = Ok None) (reverse (seqZ (ring + 1) (current - ring)))).
  { apply Forall_reverse, Forall_forall. intros r Hir%elem_of_seqZ. apply prove_ring_absent, Ha. lia. }
  induction Hall as [|r rs Hr' _ IH]; cbn [app prove_rings]; [by rewrite Hp|by rewrite Hr'].
Qed.

(** The root is one of those a block keeps for the ring: the current one or the one
    before it. *)
Definition root_kept (b : RootBlock) (ring : Z) (m : Members cr) (rev : Z) : Prop :=
  exists value m' rest rev' rest', rb_root b ring = Some (Some value) /\ decode_members cr value = Some (m', rest) /\
    decode_u32 rest = Some (rev', rest') /\
    (m' = m /\ rev' = rev \/
     rev' = rev + 1 /\ rev' <> 0 /\ exists old rest'', rb_old_root b ring (Poc.be_bytes 4 rev) = Some (Some old) /\ decode_members cr old = Some (m, rest'')).

Lemma find_root_app index rev l l' :
  find_root cr index rev (l ++ l')%list =
  match find_root cr index rev l with Some r => Some r | None => find_root cr index rev l' end.
Proof. unfold find_root. induction l as [|r l IH]; [done|]. cbn [app first_some]. by destruct (_ && _). Qed.

Lemma read_ring_index b index l : read_ring cr b index = Some l -> Forall (fun r => ring_index cr r = index) l.
Proof.
  unfold read_ring. intros H. destruct (rb_root b index) as [[value|]|]; [|by injection H as <-|discriminate].
  destruct (decode_members cr value) as [[m rest]|]; [|discriminate]. destruct (decode_u32 rest) as [[rev rest']|]; [|discriminate].
  destruct (rev =? 0); [injection H as <-; by repeat constructor|].
  destruct (rb_old_root b index _) as [[old|]|]; [|injection H as <-; by repeat constructor|discriminate].
  destruct (decode_members cr old) as [[m' ?]|]; [|discriminate]. injection H as <-. by repeat constructor.
Qed.

Lemma read_ring_find b ring m rev l :
  root_kept b ring m rev -> read_ring cr b ring = Some l ->
  exists r, find_root cr ring rev l = Some r /\ members cr r = m.
Proof.
  intros (value & m' & rest & rev' & rest' & Hv & Hm & Hd & Hk) H. unfold read_ring in H. rewrite Hv, Hm, Hd in H.
  destruct Hk as [[-> ->]|(-> & Hne & old & rest'' & Ho & Hom)].
  - eexists. destruct (rev =? 0); [injection H as <-|].
    + unfold find_root. cbn. by rewrite !Z.eqb_refl.
    + destruct (rb_old_root b ring _) as [[old|]|]; [destruct (decode_members cr old) as [[m2 ?]|]; [|discriminate]| |discriminate];
        injection H as <-; unfold find_root; cbn; by rewrite !Z.eqb_refl.
  - rewrite (proj2 (Z.eqb_neq _ _) Hne) in H. replace (rev + 1 - 1) with rev in H by lia. rewrite Ho, Hom in H. injection H as <-.
    eexists. unfold find_root. cbn. rewrite !Z.eqb_refl, (proj2 (Z.eqb_neq (rev + 1) rev)) by lia. done.
Qed.

Lemma read_rings_find b ring m rev rings l :
  root_kept b ring m rev -> ring ∈ rings -> read_rings cr b rings = Some l ->
  exists r, find_root cr ring rev l = Some r /\ members cr r = m.
Proof.
  intros Hk. revert l. induction rings as [|i rings IH]; intros l Hin H; [by apply not_elem_of_nil in Hin|].
  cbn [read_rings] in H. destruct (read_ring cr b i) as [l0|] eqn:Ei; [|discriminate].
  destruct (read_rings cr b rings) as [l1|]; [|discriminate]. injection H as <-. rewrite find_root_app.
  destruct (decide (i = ring)) as [->|Hne]; [destruct (read_ring_find _ _ _ _ _ Hk Ei) as (r & -> & Hr); by exists r|].
  apply elem_of_cons in Hin as [->|Hin]; [done|].
  assert (Hn : find_root cr ring rev l0 = None).
  { pose proof (read_ring_index _ _ _ Ei) as Hf. clear -Hf Hne. unfold find_root. induction Hf as [|r l Hr _ IH]; [done|].
    cbn [first_some]. by rewrite Hr, (proj2 (Z.eqb_neq _ _) Hne). }
  rewrite Hn. by apply IH.
Qed.

Lemma refresh_find b ring m rev size current s :
  root_kept (mb_roots b) ring m rev -> rb_collection (mb_roots b) = Some (Some size) -> current_ring b = Ok current ->
  0 <= ring <= current -> refresh cr (mb_roots b) = Some s ->
  domain cr s = ring_domain size /\ exists r, find_root cr ring rev (roots cr s) = Some r /\ members cr r = m.
Proof.
  intros Hk Hc Hcur Hr H. unfold refresh in H. rewrite Hc in H. unfold current_ring in Hcur.
  destruct (rb_current_ring (mb_roots b)) as [raw|]; [|discriminate]. cbn [passed rbind] in Hcur.
  assert (Hraw : (match raw with None => Some 0 | Some v => fst <$> decode_u32 v end) = Some current).
  { destruct raw as [v|]; [|by injection Hcur as <-]. destruct (decode_u32 v) as [[n ?]|]; [|discriminate]. by injection Hcur as <-. }
  rewrite Hraw in H. destruct (read_rings cr _ _) as [l|] eqn:El; [|discriminate]. injection H as <-. split; [done|].
  apply (read_rings_find _ _ _ _ _ _ Hk) in El; [done|]. apply elem_of_seqZ. lia.
Qed.

Lemma trim_0x_hex p : Forall is_byte p -> trim_0x ("0x" +:+ hex_encode p) = hex_encode p.
Proof.
  intros Hp. assert (Hn : strip_prefix "0x" (hex_encode p) = None).
  { destruct Hp as [|x p Hx _]; [done|]. cbn [hex_encode strip_prefix]. destruct (Ascii.eqb "0" _); [|done].
    destruct (Ascii.eqb_spec "x" (hex_digit (x mod 16))) as [E|]; [|done].
    assert (Hv : hex_value (hex_digit (x mod 16)) = Some (x mod 16)) by (apply hex_value_digit; apply Z.mod_pos_bound; lia).
    rewrite <- E in Hv. discriminate Hv. }
  unfold trim_0x. change ("0x" +:+ hex_encode p) with (String "0" (String "x" (hex_encode p))). cbn [String.length trim_start_matches].
  change (strip_prefix "0x" (String "0" (String "x" (hex_encode p)))) with (Some (hex_encode p)). cbn [trim_start_matches]. by rewrite Hn.
Qed.

Lemma rebuild_root_stands b ring size pages included m rev :
  rb_collection (mb_roots b) = Some (Some size) -> ring_stands (ring_domain size) b ring pages included m rev ->
  rebuild_root ring None b = Ok (MatchRoot rev).
Proof.
  intros Hc Hs. destruct (rs_status _ _ _ _ _ _ _ Hs) as (raw & Hk & Hr). unfold rebuild_root, read_domain. rewrite Hc. cbn [passed context_of rbind].
  rewrite Hk. cbn [passed context_of rbind]. rewrite Hr. cbn [rbind]. rewrite (ring_keys_paged _ _ _ (rs_pages _ _ _ _ _ _ _ Hs)). cbn [rbind].
  pose proof (rs_included _ _ _ _ _ _ _ Hs). rewrite (proj2 (Z.ltb_ge _ _)) by lia.
  rewrite (rs_commit _ _ _ _ _ _ _ Hs). cbn [passed rbind]. rewrite (read_root_stands _ _ _ _ _ _ _ _ _ Hs). cbn [rbind].
  by rewrite bool_decide_eq_true_2.
Qed.

(** What a client sends for a proof over the lite collection. *)
Definition proof_body (product : string) (ring rev ts : Z) (proof : bytes) : IssueWithProofBody :=
  {| pb_product_id := product; pb_collection := "0x" +:+ hex_encode (collection_id PeopleLite);
     pb_proof := "0x" +:+ hex_encode proof; pb_ring_index := ring; pb_ring_revision := rev; pb_timestamp := ts |}.

(** The reply to a proof that verifies as [alias] against a root the service has held
    since [observed]. *)
Definition member_reply `{governor : Limiter.Governor} (env : ProofEnv cr) (product : string) (ts observed : Z) (alias : bytes)
    (s : TurnState) : result Issued AppError :=
  if 60 <? Z.abs (pe_now cr env - ts) then Err (BadProofRequest "timestamp outside the accepted window")
  else if PROOF_MAX_ROOT_AGE <? pe_mono cr env - observed then Err (ProofUnavailable "ring roots not yet available")
  else
    match pe_permit cr env with
    | QueueFull | TimedOut => Err ProofBusy
    | Closed => Err ProofInternal
    | Free | Waited =>
        if negb (pe_joined cr env) then Err ProofInternal
        else
          match fst (Limiter.allow (pe_clock cr env) (hex_encode alias) (ts_alias_limiter s)) with
          | Err w => Err (RateLimited (retry_after w (pe_clock cr env)))
          | Ok _ =>
              match fst (source_issue_for_proof cr (ts_source s) (pe_issued_at cr env) (pe_answer cr env) product alias) with
              | Some d => Ok d
              | None => Err UpstreamUnavailable
              end
          end
    end.

Lemma freshness_abs ts now : freshness_check PROOF_MAX_SKEW_SECS ts now = negb (60 <? Z.abs (now - ts)).
Proof. unfold freshness_check, PROOF_MAX_SKEW_SECS. destruct (Z.ltb_spec 60 (Z.abs (now - ts))); cbn; lia. Qed.

(** Whatever the request meets, a proof that verifies is answered so. *)
Lemma issue_member `{governor : Limiter.Governor} env product ring rev ts proof context snapshot observed root alias s :
  pe_contexts cr env !! product = Some context -> pe_roots cr env PeopleLite = Some (snapshot, observed) ->
  Forall is_byte proof -> proof_fits cr proof = true -> length proof = PROOF_LEN cr ->
  find_root cr ring rev (roots cr snapshot) = Some root ->
  validate cr (domain cr snapshot) proof (members cr root) context (message cr ts) = Some alias ->
  fst (issue_with_proof cr env (Some (proof_body product ring rev ts proof)) s) = member_reply env product ts observed alias s.
Proof.
  intros Hctx Hroots Hb Hf Hl Hfr Hv.
  assert (Hc : check_proof cr env (proof_body product ring rev ts proof) =
    if 60 <? Z.abs (pe_now cr env - ts) then Err (BadProofRequest "timestamp outside the accepted window")
    else if PROOF_MAX_ROOT_AGE <? pe_mono cr env - observed then Err (ProofUnavailable "ring roots not yet available")
    else rbind (take_permit (pe_permit cr env)) (fun _ => if negb (pe_joined cr env) then Err ProofInternal else Ok alias)).
  { unfold check_proof, read_proof. cbn [proof_body pb_product_id pb_collection pb_proof pb_timestamp pb_ring_index pb_ring_revision].
    rewrite Hctx, (trim_0x_hex _ Hb), (hex_decode_encode _ Hb). cbn [rbind]. replace (from_hex ("0x" +:+ hex_encode (collection_id PeopleLite))) with (Some PeopleLite) by (vm_compute; reflexivity). cbn [rbind].
    rewrite Hl, Nat.eqb_refl. cbn [negb]. rewrite freshness_abs, negb_involutive. destruct (60 <? _); [done|].
    unfold cache_snapshot. rewrite Hroots, Z.leb_antisym. destruct (PROOF_MAX_ROOT_AGE <? _); [done|]. cbn [negb].
    assert (He : existsb (fun r => (ring_index cr r =? ring) && (revision cr r =? rev)) (roots cr snapshot) = true)
      by (apply (existsb_find_root cr); by exists root).
    rewrite He. cbn [rbind]. destruct (take_permit _) as [u|e]; cbn [rbind]; [|done]. unfold verify.
    destruct (pe_joined cr env); cbn [negb]; [|done]. by rewrite Hf, Hfr, Hv. }
  unfold member_reply. cbn [issue_with_proof]. rewrite Hc.
  destruct (60 <? _); [done|]. destruct (PROOF_MAX_ROOT_AGE <? _); [done|].
  destruct (pe_permit cr env); cbn [take_permit rbind]; try done; (destruct (pe_joined cr env); cbn [negb]; [|done]);
    (destruct (Limiter.allow _ _ _) as [[paid|w] l]; cbn [fst]; [|done]);
    cbn [proof_body pb_product_id]; by destruct (source_issue_for_proof _ _ _ _ _ _) as [[d|] src].
Qed.

(** C15. A person the chain counts among the members gets credentials.  A candidate whose
    key is included in the root of its newest ring can prove it: the example finds the
    ring, reads all its keys, and creates a proof that verifies against the root on chain
    and in the stand-alone check, and that root is the one rebuilt from the keys.  The
    service, for a product it accepts and once it holds that root, while it is the
    current one or the one before, answers the proof with a credential, and refuses it
    only when the timestamp is more than a minute off (400), the roots were read more
    than ten minutes ago (503), no verification slot was free in time (503), the
    slots are closed or the verification task failed (500), the rate of the alias is used
    up (429) or the source cannot issue (503): the reply is exactly that, in that
    order. *)
Theorem ring_member_is_served `{governor : Limiter.Governor} `{RingLaws} seed entropy c others size b current ring pages
    included m rev b' current' snapshot observed product context ts env s :
  generate_candidate seed entropy = Ok c -> Forall is_byte entropy -> length entropy = 32%nat ->
  rb_collection (mb_roots b) = Some (Some size) -> current_ring b = Ok current -> 0 <= ring <= current ->
  ring_stands (ring_domain size) b ring pages included m rev ->
  member_from_secret (new_secret entropy) ∈ take (Z.to_nat included) (concat pages) ->
  (forall r, ring < r <= current -> absent b (member_from_secret (new_secret entropy)) r) ->
  rb_collection (mb_roots b') = Some (Some size) -> current_ring b' = Ok current' -> ring <= current' ->
  root_kept (mb_roots b') ring m rev -> refresh cr (mb_roots b') = Some snapshot ->
  pe_roots cr env PeopleLite = Some (snapshot, observed) -> pe_contexts cr env !! product = Some context ->
  exists proof alias,
    prove (c :: others) context (message cr ts) None b
      = Ok {| pv_ring := ring; pv_revision := Some rev; pv_proof := proof; pv_alias := alias |} /\
    (forall context_hex message_hex, hex_decode (trim_0x context_hex) = Some context ->
       hex_decode (trim_0x message_hex) = Some (message cr ts) ->
       verify_proof (Some (decimal (ring_domain size))) ring (Some proof) context_hex message_hex b = Ok (Some alias)) /\
    rebuild_root ring None b = Ok (MatchRoot rev) /\
    fst (issue_with_proof cr env (Some (proof_body product ring rev ts proof)) s) =
      member_reply env product ts observed alias s.
Proof.
  intros Hg He Hel Hc Hcur Hr Hs Hin Ha Hc' Hcur' Hr' Hk Hrf Hroots Hctx.
  destruct (prove_ring_member entropy context (message cr ts) _ b ring pages included m rev Hs Hin) as (proof & alias & Hp & Hb & Hf & Hl & Hv).
  exists proof, alias. split_and!.
  - unfold generate_candidate in Hg. apply rbind_ok in Hg as (account & _ & [= <-]). unfold prove. cbn [entropy_hex].
    rewrite (hex_decode_encode _ He). cbn [passed rbind]. unfold array32. rewrite Hel. cbn [Nat.eqb rbind].
    unfold read_domain. rewrite Hc. cbn [passed context_of rbind]. rewrite Hcur. cbn [rbind].
    rewrite (prove_rings_member _ _ _ _ _ _ _ _ _ _ _ Hs Hin Hr Ha), Hp. reflexivity.
  - intros ch mh Hch Hmh. unfold verify_proof, read_domain, decode_hex. rewrite Hc, Hch, Hmh.
    destruct size; cbn [String.eqb Ascii.eqb Bool.eqb ring_domain passed context_of rbind];
      change (decimal 11) with "11"; change (decimal 12) with "12"; change (decimal 16) with "16"; cbn [String.eqb Ascii.eqb Bool.eqb rbind];
      rewrite (read_root_stands _ _ _ _ _ _ _ _ _ Hs); cbn [rbind]; rewrite Hf; cbn [negb]; cbn [ring_domain] in Hv; by rewrite Hv.
  - exact (rebuild_root_stands _ _ _ _ _ _ _ Hc Hs).
  - destruct (refresh_find b' ring m rev size current' snapshot Hk Hc' Hcur' ltac:(lia) Hrf) as (Hd & root & Hfr & Hm).
    rewrite <- Hd, <- Hm in Hv. by apply (issue_member env product ring rev ts proof context snapshot observed root alias).
Qed.

(** The message the candidate signs is the one registration checks. *)
Lemma attest_message_registers candidate ring_key :
  attest_message candidate ring_key = Signature.candidate_message candidate ring_key.
Proof. reflexivity. Qed.
End client.

Module Demo.
Import Limiter.Gcra TurnProps.Demo.

(** A commitment is its keys one after the other, and one proof stands for them all. *)
Definition ring_crates : TurnCrates :=
  {| hmac := fun _ k m => (k ++ m)%list; b64 := hex_encode; blake2b256 := fun b => b; Members := bytes;
     decode_members := fun b => Some (take 32 b, drop 32 b); proof_fits := fun _ => true; PROOF_LEN := 2%nat;
     validate := fun _ p _ context _ => if bool_decide (p = [7; 7]) then Some (take 1 context) else None;
     json_of_bytes := fun _ => None; status_text := decimal |}.

#[local] Instance ring_vrf : RingVrf ring_crates := {|
  Secret := bytes; new_secret := fun e => e; member_from_secret := fun s => s; vrf_sign := fun s m => Some (s ++ m)%list;
  Opening := list bytes; open_ring := fun _ key keys => if bool_decide (key ∈ keys) then Some keys else None;
  create := fun _ _ context _ => Some ([7; 7], take 1 context); commit := fun _ keys => Some (concat keys : Members ring_crates); members_eq := _ : EqDecision bytes;
  decode_keys := fun v => if bool_decide (v = [1]) then Some [replicate 32 5; replicate 32 6] else None;
  keypair_of := fun seed => Some seed; account_sign := fun seed m => (seed ++ m)%list |}.

#[local] Instance ring_laws : RingLaws ring_crates.
Proof.
  constructor. intros domain keys entropy root context msg _ Hin. exists keys, [7; 7], (take 1 context). cbn.
  rewrite bool_decide_eq_true_2 by done. split_and!; try done. repeat constructor; cbv; intros; discriminate.
Qed.

(** Two keys, of which the third revision of the root includes the first; and the block
    after, with a fourth. *)
Definition ring_block (rev : Z) : MembersBlock :=
  {| mb_roots := {| rb_collection := Some (Some R2e9); rb_current_ring := Some None;
                    rb_root := fun _ => Some (Some (replicate 32 (if rev =? 3 then 5 else 6) ++ [rev; 0; 0; 0])%list);
                    rb_old_root := fun _ r => if bool_decide (r = Poc.be_bytes 4 3) then Some (Some (replicate 32 5)) else Some None |};
     mb_keys_status := fun ring => if ring =? 0 then Some (Some [2; 0; 0; 0; 1; 0; 0; 0]) else Some None;
     mb_keys_page := fun _ page => if page =? 0 then Some (Some [1]) else Some None |}.

Definition ring_snapshot : Snapshot ring_crates :=
  {| domain := 11; roots := [{| ring_index := 0; revision := 4; members := replicate 32 6 : Members ring_crates |};
                             {| ring_index := 0; revision := 3; members := replicate 32 5 : Members ring_crates |}] |}.

Definition ring_env : ProofEnv ring_crates :=
  {| pe_clock := 0; pe_mono := 10; pe_now := 1700000030; pe_issued_at := 1700000030; pe_permit := Free; pe_joined := true;
     pe_answer := NoResponse "unused"; pe_contexts := {[ "peopl.dot" := [42; 43] ]};
     pe_roots := fun c => match c with PeopleLite => Some (ring_snapshot, 5) | People => None end |}.

Definition ring_state : TurnState :=
  {| ts_source := Source_new (PCoturn [1] Sha1 "relay" ["turn:a"]) 600; ts_limiter := demo_limiter; ts_alias_limiter := demo_limiter |}.

Definition ring_candidate : Candidate :=
  {| account_seed_hex := hex_encode [9]; entropy_hex := hex_encode (replicate 32 5);
     ring_key_hex := hex_encode (replicate 32 5); account_hex := hex_encode [9] |}.

Lemma ring_member_is_served_witness :
  exists proof alias d,
    prove ring_crates [ring_candidate] [42; 43] (message ring_crates 1700000000) None (ring_block 3)
      = Ok {| pv_ring := 0; pv_revision := Some 3; pv_proof := proof; pv_alias := alias |} /\
    fst (issue_with_proof ring_crates ring_env (Some (proof_body "peopl.dot" 0 3 1700000000 proof)) ring_state) = Ok d.
Proof.
  edestruct (ring_member_is_served ring_crates [9] (replicate 32 5) ring_candidate [] R2e9 (ring_block 3) 0 0
    [[replicate 32 5; replicate 32 6]] 1 (replicate 32 5) 3 (ring_block 4) 0 ring_snapshot 5 "peopl.dot" [42; 43] 1700000000
    ring_env ring_state) as (proof & alias & Hp & _ & _ & Hi); try reflexivity; try lia.
  - apply Forall_replicate. cbv. by split; intros.
  - split; [by eexists| |cbn; lia|by do 3 eexists|reflexivity].
    intros [|[|i]] p Hp; try discriminate Hp. injection Hp as <-. split; [done|]. by eexists.
  - apply list_elem_of_here.
  - do 5 eexists. split_and!; try reflexivity. right. split_and!; [reflexivity|lia|]. do 2 eexists. split; reflexivity.
  - exists proof, alias. eexists. split; [exact Hp|]. rewrite Hi. vm_compute in Hp. injection Hp as <- <-. vm_compute. reflexivity.
Defined.
End Demo.
End RingClient.
