(* ===== verification/Notify.v ===== *)
(** * Notify: the push relay

    The service [notifications]: the body of [POST /api/v1/notify] ([notify.rs]),
    the platform of a device token ([platform.rs]), the APNs and FCM providers with
    their cached tokens ([provider/apns.rs], [provider/fcm.rs]), and the handler over
    the shared rate limiter.  Signing, JSON parsing and the answers of the push
    services are parameters; what was sent, with the answer it got, is kept as a
    list, the oldest first.  Differences and sums of [i64] wrap. *)

From stdpp Require Import gmap.
From S2P Require Import Prelude Strings Text Limiter DeviceGate Usernames.

#[local] Open Scope string_scope.
#[local] Open Scope Z_scope.

Module Notify.

Definition to_i64 (n : Z) : Z := (n + 2 ^ 63) mod 2 ^ 64 - 2 ^ 63.

(** ** [platform.rs] *)

Inductive Platform := Ios | Android.

Definition detect (device_token : string) (hint : option Platform) : Platform :=
  match hint with
  | Some p => p
  | None =>
      let len := String.length device_token in
      if (32 <=? len)%nat && (len <=? 128)%nat && all_chars is_ascii_hexdigit device_token then Ios else Android
  end.

(** The decoding serde derives: the lower-case name, alone or as the one key of an
    object whose value is null. *)
Definition Platform_of_name (s : string) : option Platform :=
  if String.eqb s "ios" then Some Ios else if String.eqb s "android" then Some Android else None.
Definition Platform_of_json (v : Json) : option Platform :=
  match v with
  | JString s => Platform_of_name s
  | JObject [(k, JNull)] => Platform_of_name k
  | _ => None
  end.

(** ** [provider.rs] *)

Record PushRequest := {
  pr_device_token : string; pr_push_id : string; pr_message : string;
  pr_topic : option string; pr_voip : option bool }.

Record PushError := {
  pe_device : string; pe_environment : option string; pe_status : option Json; pe_response : option Json }.

Record PushOutcome := {
  po_success : bool; po_sent : option Z; po_failed : option Z;
  po_message_id : option string; po_errors : option (list PushError) }.

Inductive ProviderError := Unconfigured | Delivery (why : string).

Definition ProviderError_to_string (e : ProviderError) : string :=
  match e with Unconfigured => "push provider not configured" | Delivery why => why end.

(** Signing with a key (its PEM text), parsing, and serde's decoding of a token answer. *)
Record NotifyCrates := {
  es256 : string -> string -> string -> Z -> result string string;
  rs256 : string -> string -> string -> string -> Z -> Z -> result string string;
  json_of_string : string -> option Json;
  decode_token : string -> result (string * Z) string }.

(** An HTTP request, and what came back: the status, [apns-id] and text. *)
Inductive HttpBody := JsonBody (v : Json) | FormBody (fields : list (string * string)).
Record HttpRequest := { h_url : string; h_headers : list (string * string); h_body : HttpBody }.
Inductive Answer := NoAnswer (why : string) | Answered (status : Z) (apns_id : option string) (text : string).

Definition is_success (status : Z) : bool := (200 <=? status) && (status <? 300).

(** ** [provider/apns.rs] *)

Definition ALERT_TITLE : string := "Polkadot".
Definition EXPIRY_DEFAULT_SECONDS : Z := 3600.
Definition VOIP_TOPIC_SUFFIX : string := ".voip".
Definition TOKEN_REFRESH_SECS : Z := 3000.

Inductive ApnsEnvironment := Production | Development.

Definition host (e : ApnsEnvironment) : string :=
  match e with Production => "api.push.apple.com" | Development => "api.sandbox.push.apple.com" end.
Definition label (e : ApnsEnvironment) : string :=
  match e with Production => "production" | Development => "development" end.
Definition other (e : ApnsEnvironment) : ApnsEnvironment :=
  match e with Production => Development | Development => Production end.

Record ApnsConfig := {
  ap_private_key : string; ap_key_id : string; ap_team_id : string; ap_topic : string;
  ap_environment : ApnsEnvironment }.

Record ApnsToken := { at_token : string; at_issued_at : Z }.

Record Wire := {
  w_device_token : string; w_topic : string; w_voip : bool; w_expiry : Z; w_payload : Json; w_token : string }.

(** [to_string] of an [i64]. *)
Definition i64_text (n : Z) : string := if n <? 0 then "-" +:+ decimal (- n) else decimal n.

(** [str::ends_with]. *)
Fixpoint ends_with (suffix s : string) : bool :=
  String.eqb s suffix || match s with EmptyString => false | String _ s' => ends_with suffix s' end.

Definition format_topic (topic : string) (voip : bool) : string :=
  if negb voip || ends_with VOIP_TOPIC_SUFFIX topic then topic else topic +:+ VOIP_TOPIC_SUFFIX.

Definition build_payload (push_id message : string) (voip : bool) : Json :=
  let aps := if voip then JObject []
             else JObject [("alert", JObject [("title", JString ALERT_TITLE)]); ("mutable-content", JNumber 1)] in
  JObject [("pushId", JString push_id); ("message", JString message); ("aps", aps)].

Definition apns_success : PushOutcome :=
  {| po_success := true; po_sent := Some 1; po_failed := Some 0; po_message_id := None; po_errors := None |}.

Definition retry_other_environment (status : Z) (reason : option string) : bool :=
  (status =? 400) && bool_decide (reason = Some "BadDeviceToken").

Definition terminal_reason (reason : string) : option string :=
  if String.eqb reason "Unregistered" || String.eqb reason "ExpiredToken" then Some "token_unregistered"
  else if String.eqb reason "BadDeviceToken" || String.eqb reason "DeviceTokenNotForTopic" then Some "token_invalid"
  else None.

Definition failure_outcome (device_token environment : string) (status : Z) (reason : option string) : PushOutcome :=
  {| po_success := false; po_sent := Some 0; po_failed := Some 1; po_message_id := None;
     po_errors := Some [{| pe_device := device_token; pe_environment := Some environment;
                           pe_status := Some (JNumber status);
                           pe_response := (fun r => JObject [("reason", JString r)]) <$> reason |}] |}.

Section providers.
Context (cr : NotifyCrates).
#[local] Open Scope dub_scope.

Definition parse_reason (body : string) : option string :=
  v ← json_of_string cr body; r ← json_get "reason" v; json_as_str r.

(** The part of [provider_token] after a miss. *)
Definition mint_token (now : Z) (c : ApnsConfig) (t : option ApnsToken)
    : result string ProviderError * option ApnsToken :=
  match es256 cr (ap_private_key c) (ap_key_id c) (ap_team_id c) now with
  | Err error => (Err (Delivery ("apns provider token: " +:+ error)), t)
  | Ok token => (Ok token, Some {| at_token := token; at_issued_at := now |})
  end.

Definition provider_token (now : Z) (c : ApnsConfig) (t : option ApnsToken)
    : result string ProviderError * option ApnsToken :=
  match t with
  | Some cached =>
      if to_i64 (now - at_issued_at cached) <? TOKEN_REFRESH_SECS then (Ok (at_token cached), t)
      else mint_token now c t
  | None => mint_token now c t
  end.

(** The request [attempt] posts. *)
Definition apns_request (environment : ApnsEnvironment) (w : Wire) : HttpRequest :=
  {| h_url := "https://" +:+ host environment +:+ "/3/device/" +:+ w_device_token w;
     h_headers := [("authorization", "bearer " +:+ w_token w); ("apns-topic", w_topic w);
                   ("apns-push-type", if w_voip w then "voip" else "alert"); ("apns-priority", "10");
                   ("apns-expiration", i64_text (w_expiry w))];
     h_body := JsonBody (w_payload w) |}.

Definition attempt (answer : Answer) : result (Z * option string * string) ProviderError :=
  match answer with
  | NoAnswer error => Err (Delivery ("apns request failed: " +:+ error))
  | Answered status apns_id text => Ok (status, apns_id, if is_success status then EmptyString else text)
  end.

(** What a provider meets: the clock at its token, the clock after it, and the
    answers of the services. *)
Record SendEnv := {
  se_token_now : Z; se_now : Z; se_apns : ApnsEnvironment -> Answer; se_exchange : Answer; se_fcm : Answer }.

Abbreviation Sent := (list (HttpRequest * Answer)).

(** The verdict on the last answer. *)
Definition apns_verdict (device_token : string) (environment : ApnsEnvironment) (status : Z) (reason : option string)
    : result PushOutcome ProviderError :=
  if is_success status then Ok apns_success
  else
    match (r ← reason; terminal_reason r) with
    | Some terminal => Err (Delivery terminal)
    | None => Ok (failure_outcome device_token (label environment) status reason)
    end.

Definition apns_wire (env : SendEnv) (c : ApnsConfig) (token : string) (r : PushRequest) : Wire :=
  let voip := default false (pr_voip r) in
  {| w_device_token := pr_device_token r; w_topic := format_topic (default (ap_topic c) (pr_topic r)) voip;
     w_voip := voip; w_expiry := if voip then 0 else to_i64 (se_now env + EXPIRY_DEFAULT_SECONDS);
     w_payload := build_payload (pr_push_id r) (pr_message r) voip; w_token := token |}.

Definition apns_deliver (env : SendEnv) (r : PushRequest) (c : ApnsConfig) (t : option ApnsToken)
    : result PushOutcome ProviderError * Sent * option ApnsToken :=
  let '(token, t') := provider_token (se_token_now env) c t in
  match token with
  | Err e => (Err e, [], t')
  | Ok token =>
      let w := apns_wire env c token r in
      let environment := ap_environment c in
      let first := (apns_request environment w, se_apns env environment) in
      match attempt (se_apns env environment) with
      | Err e => (Err e, [first], t')
      | Ok (status, _, body) =>
          if retry_other_environment status (parse_reason body) then
            let fallback := other environment in
            let second := (apns_request fallback w, se_apns env fallback) in
            match attempt (se_apns env fallback) with
            | Err e => (Err e, [first; second], t')
            | Ok (status', _, body') =>
                (apns_verdict (pr_device_token r) fallback status' (parse_reason body'), [first; second], t')
            end
          else (apns_verdict (pr_device_token r) environment status (parse_reason body), [first], t')
      end
  end.

(** ** [provider/fcm.rs] *)

Definition TOKEN_ENDPOINT : string := "https://oauth2.googleapis.com/token".
Definition FCM_SCOPE : string := "https://www.googleapis.com/auth/firebase.messaging".
Definition GRANT_TYPE : string := "urn:ietf:params:oauth:grant-type:jwt-bearer".
Definition TOKEN_REFRESH_BUFFER_SECS : Z := 60.

Record FcmConfig := { fc_project_id : string; fc_client_email : string; fc_private_key : string }.
Record FcmToken := { ft_token : string; ft_expires_at : Z }.

Definition cached_token (now : Z) (t : option FcmToken) : option string :=
  match t with Some cached => if now <? ft_expires_at cached then Some (ft_token cached) else None | None => None end.

Definition assertion (now : Z) (c : FcmConfig) : result string ProviderError :=
  match rs256 cr (fc_private_key c) (fc_client_email c) FCM_SCOPE TOKEN_ENDPOINT now (to_i64 (now + 3600)) with
  | Ok a => Ok a
  | Err error => Err (Delivery ("fcm assertion: " +:+ error))
  end.

Definition exchange_request (assertion : string) : HttpRequest :=
  {| h_url := TOKEN_ENDPOINT; h_headers := [];
     h_body := FormBody [("grant_type", GRANT_TYPE); ("assertion", assertion)] |}.

(** The part of [access_token] after a miss. *)
Definition exchange (env : SendEnv) (c : FcmConfig) (t : option FcmToken)
    : result string ProviderError * Sent * option FcmToken :=
  match assertion (se_now env) c with
  | Err e => (Err e, [], t)
  | Ok a =>
      let asked := [(exchange_request a, se_exchange env)] in
      match se_exchange env with
      | NoAnswer error => (Err (Delivery ("fcm token exchange failed: " +:+ error)), asked, t)
      | Answered status _ body =>
          if negb (is_success status) then
            (Err (Delivery ("fcm token exchange rejected (" +:+ decimal status +:+ "): " +:+ body)), asked, t)
          else
            match decode_token cr body with
            | Err error => (Err (Delivery ("fcm token response: " +:+ error)), asked, t)
            | Ok (token, expires_in) =>
                (Ok token, asked,
                 Some {| ft_token := token;
                         ft_expires_at := to_i64 (to_i64 (se_now env + expires_in) - TOKEN_REFRESH_BUFFER_SECS) |})
            end
      end
  end.

Definition access_token (env : SendEnv) (c : FcmConfig) (t : option FcmToken)
    : result string ProviderError * Sent * option FcmToken :=
  match cached_token (se_token_now env) t with
  | Some token => (Ok token, [], t)
  | None => exchange env c t
  end.

Definition build_message (device_token push_id message : string) : Json :=
  JObject [("message", JObject [
    ("token", JString device_token);
    ("data", JObject [("pushType", JString "chat"); ("pushId", JString push_id); ("message", JString message)]);
    ("android", JObject [("priority", JString "high")])])].

Definition fcm_success (message_id : option string) : PushOutcome :=
  {| po_success := true; po_sent := Some 1; po_failed := None; po_message_id := message_id; po_errors := None |}.

Definition fcm_error_message (body : string) (status : Z) : string :=
  default ("FCM rejected the push (status " +:+ decimal status +:+ ")")
    (v ← json_of_string cr body; error ← json_get "error" v;
     m ← match json_get "message" error with Some m => Some m | None => json_get "status" error end;
     json_as_str m).

(** What is logged of a refusal: the first detail's code, or else the status. *)
Definition fcm_error_code (body : string) : option string :=
  v ← json_of_string cr body; error ← json_get "error" v;
  match (match json_get "details" error with
         | Some (JArray details) => first_some (fun d => c ← json_get "errorCode" d; json_as_str c) details
         | _ => None
         end) with
  | Some code => Some code
  | None => s ← json_get "status" error; json_as_str s
  end.

Definition fcm_request (c : FcmConfig) (token : string) (r : PushRequest) : HttpRequest :=
  {| h_url := "https://fcm.googleapis.com/v1/projects/" +:+ fc_project_id c +:+ "/messages:send";
     h_headers := [("authorization", "Bearer " +:+ token)];
     h_body := JsonBody (build_message (pr_device_token r) (pr_push_id r) (pr_message r)) |}.

Definition fcm_deliver (env : SendEnv) (r : PushRequest) (c : FcmConfig) (t : option FcmToken)
    : result PushOutcome ProviderError * Sent * option FcmToken :=
  let '(token, asked, t') := access_token env c t in
  match token with
  | Err e => (Err e, asked, t')
  | Ok token =>
      let sent := (asked ++ [(fcm_request c token r, se_fcm env)])%list in
      match se_fcm env with
      | NoAnswer error => (Err (Delivery ("fcm request failed: " +:+ error)), sent, t')
      | Answered status _ body =>
          if is_success status then
            (Ok (fcm_success (v ← json_of_string cr body; n ← json_get "name" v; json_as_str n)), sent, t')
          else (Err (Delivery (fcm_error_message body status)), sent, t')
      end
  end.

(** ** [notify.rs] *)

(** A slot of [AppState]: [dyn PushProvider]. *)
Inductive Provider :=
| PUnconfigured
| PApns (c : ApnsConfig) (t : option ApnsToken)
| PFcm (c : FcmConfig) (t : option FcmToken).

Definition send (env : SendEnv) (r : PushRequest) (p : Provider)
    : result PushOutcome ProviderError * Sent * Provider :=
  match p with
  | PUnconfigured => (Err Unconfigured, [], p)
  | PApns c t => let '(o, sent, t') := apns_deliver env r c t in (o, sent, PApns c t')
  | PFcm c t => let '(o, sent, t') := fcm_deliver env r c t in (o, sent, PFcm c t')
  end.

Record NotifyRequest := {
  nq_device_token : string; nq_push_id : string; nq_platform : option Platform;
  nq_bundler_id : option string; nq_message : string; nq_voip : option bool }.

Record NotifyResponse := {
  ns_success : bool; ns_platform : Platform; ns_sent : option Z; ns_failed : option Z;
  ns_message_id : option string; ns_errors : option (list PushError) }.

Definition from_outcome (p : Platform) (o : PushOutcome) : NotifyResponse :=
  {| ns_success := po_success o; ns_platform := p; ns_sent := po_sent o; ns_failed := po_failed o;
     ns_message_id := po_message_id o; ns_errors := po_errors o |}.

Definition provider_failure (p : Platform) (device_token : string) (e : ProviderError) : NotifyResponse :=
  {| ns_success := false; ns_platform := p; ns_sent := None; ns_failed := None; ns_message_id := None;
     ns_errors := Some [{| pe_device := device_token; pe_environment := None; pe_status := None;
                           pe_response := Some (JString (ProviderError_to_string e)) |}] |}.

Definition MAX_MESSAGE_LEN : nat := Z.to_nat 8192.
Definition DEVICE_TOKEN_MIN : nat := 64.
Definition DEVICE_TOKEN_MAX : nat := 326.

Definition valid_device_token (token : string) : bool :=
  let len := String.length token in
  (DEVICE_TOKEN_MIN <=? len)%nat && (len <=? DEVICE_TOKEN_MAX)%nat &&
  all_chars (fun c => is_ascii_alphanumeric c || Ascii.eqb c "_" || Ascii.eqb c "-" || Ascii.eqb c "+"
                      || Ascii.eqb c "/" || Ascii.eqb c "=" || Ascii.eqb c ":") token.

Definition valid_push_id (push_id : string) : bool :=
  ((String.length push_id =? 32)%nat || (String.length push_id =? 64)%nat) && all_chars is_ascii_hexdigit push_id.

Definition valid_hex_message (message : string) : bool :=
  if (MAX_MESSAGE_LEN <? String.length message)%nat then false
  else
    let body := default message (strip_prefix "0x" message) in
    negb (String.eqb body EmptyString) && all_chars is_ascii_hexdigit body.

(** The value, and the errors it adds. *)
Definition required_string (body : Json) (key : string) (is_valid : string -> bool) (message : string)
    : option string * list Usernames.FieldError :=
  match json_get key body with
  | Some (JString value) =>
      (Some value,
       if negb (is_valid value) then [{| Usernames.fe_field := key; Usernames.fe_message := message |}] else [])
  | v =>
      (None, [{| Usernames.fe_field := key;
                 Usernames.fe_message := Usernames.expected "string" (Usernames.received_name v) |}])
  end.

Definition json_as_bool (v : Json) : option bool := match v with JBool b => Some b | _ => None end.

Definition validate_body (body : Json) : result NotifyRequest (list Usernames.FieldError) :=
  match body with
  | JObject _ =>
      let '(device_token, e1) :=
        required_string body "deviceToken" valid_device_token "Must be a valid device token" in
      let '(push_id, e2) :=
        required_string body "pushId" valid_push_id "Must be a 32 or 64 character hexadecimal hash" in
      let '(message, e3) :=
        required_string body "message" valid_hex_message "Must be a valid hexadecimal string" in
      match device_token, push_id, message, (e1 ++ e2 ++ e3)%list with
      | Some device_token, Some push_id, Some message, [] =>
          Ok {| nq_device_token := device_token; nq_push_id := push_id;
                nq_platform := (v ← json_get "platform" body; Platform_of_json v);
                nq_bundler_id := (v ← json_get "bundlerId" body; json_as_str v);
                nq_message := message; nq_voip := (v ← json_get "voip" body; json_as_bool v) |}
      | _, _, _, errors => Err errors
      end
  | _ =>
      Err [{| Usernames.fe_field := EmptyString;
              Usernames.fe_message := Usernames.expected "object" (Usernames.type_name body) |}]
  end.

Inductive AppError :=
| InvalidBody (errors : list Usernames.FieldError)
| MalformedJson
| RateLimited (retry_after_secs : Z).

(** [IntoResponse]: the status, the [error] text, and [Retry-After]. *)
Definition app_error (e : AppError) : Z * string * option Z :=
  match e with
  | InvalidBody _ => (400, "The request body contains invalid values.", None)
  | MalformedJson => (400, "Malformed JSON in request body", None)
  | RateLimited s => (429, "Rate limit exceeded. Please retry after " +:+ decimal s +:+ " seconds.", Some s)
  end.

Context `{governor : Limiter.Governor}.

Record NotifyState := { st_apns : Provider; st_fcm : Provider; st_limiter : Limiter.Limiter }.

Definition NOTIFY_ROUTE : string := "/api/v1/notify".

Definition push_of (q : NotifyRequest) : PushRequest :=
  {| pr_device_token := nq_device_token q; pr_push_id := nq_push_id q; pr_message := nq_message q;
     pr_topic := nq_bundler_id q; pr_voip := nq_voip q |}.

Definition provider_of (p : Platform) (s : NotifyState) : Provider :=
  match p with Ios => st_apns s | Android => st_fcm s end.

Definition with_provider (p : Platform) (v : Provider) (l : Limiter.Limiter) (s : NotifyState) : NotifyState :=
  match p with
  | Ios => {| st_apns := v; st_fcm := st_fcm s; st_limiter := l |}
  | Android => {| st_apns := st_apns s; st_fcm := v; st_limiter := l |}
  end.

Definition handle (clock : Z) (env : SendEnv) (subject : string) (body : option Json) (s : NotifyState)
    : result NotifyResponse AppError * Sent * NotifyState :=
  match body with
  | None => (Err MalformedJson, [], s)
  | Some body =>
      match validate_body body with
      | Err errors => (Err (InvalidBody errors), [], s)
      | Ok request =>
          let '(allowed, l) := Limiter.allow clock (NOTIFY_ROUTE +:+ ":" +:+ subject) (st_limiter s) in
          match allowed with
          | Err w =>
              (Err (RateLimited (Z.max 0 (w - clock) / 1000000000)), [],
               {| st_apns := st_apns s; st_fcm := st_fcm s; st_limiter := l |})
          | Ok _ =>
              let platform := detect (nq_device_token request) (nq_platform request) in
              let push := push_of request in
              let '(outcome, sent, provider) := send env push (provider_of platform s) in
              let s' := with_provider platform provider l s in
              match outcome with
              | Ok o => (Ok (from_outcome platform o), sent, s')
              | Err e =>
                  (Ok (provider_failure (default Android (nq_platform request)) (pr_device_token push) e), sent, s')
              end
          end
      end
  end.
End providers.
End Notify.
