(* ===== verification/NotifyProps.v ===== *)
(** * NotifyProps: a push is relayed once, to the right service, with a live token *)

From stdpp Require Import gmap.
From S2P Require Import Prelude Strings Text Limiter DeviceGate Usernames Notify.

#[local] Open Scope string_scope.
#[local] Open Scope Z_scope.

Module NotifyProps.
Import Notify.

Section props.
Context (cr : NotifyCrates) `{governor : Limiter.Governor}.

(** ** What was sent *)

(** A push, as opposed to the exchange of an assertion for a token. *)
Definition is_push (q : HttpRequest) : bool := negb (String.eqb (h_url q) TOKEN_ENDPOINT).

(** The service took the push. *)
Definition taken (x : HttpRequest * Answer) : bool :=
  is_push x.1 && match x.2 with Answered status _ _ => is_success status | NoAnswer _ => false end.

(** Nothing follows a push the service took. *)
Definition once (sent : list (HttpRequest * Answer)) : Prop :=
  forall l1 x l2, sent = (l1 ++ x :: l2)%list -> taken x = true -> l2 = [].

(** The push of a request: to Apple with its payload, or to Firebase with its message. *)
Definition carries (p : Platform) (r : PushRequest) (q : HttpRequest) : Prop :=
  match p with
  | Ios => exists e w, q = apns_request e w /\ w_device_token w = pr_device_token r /\
             w_payload w = build_payload (pr_push_id r) (pr_message r) (default false (pr_voip r))
  | Android => exists c token, q = fcm_request c token r
  end.

(** The slots hold what start-up puts in them. *)
Definition slots_ok (s : NotifyState) : Prop :=
  match st_apns s with PFcm _ _ => False | _ => True end /\
  match st_fcm s with PApns _ _ => False | _ => True end.

Lemma apns_is_push e w : is_push (apns_request e w) = true.
Proof. by destruct e. Qed.

Lemma fcm_is_push c token r : is_push (fcm_request c token r) = true.
Proof. done. Qed.

Lemma once_single x : once [x].
Proof. intros [|y l1] z l2 [= -> H] _; [done|]. by destruct l1. Qed.

Lemma once_pair x y : taken x = false -> once [x; y].
Proof.
  intros Hx [|a l1] z l2 [= -> H] Hz; [congruence|]. destruct l1 as [|b l1]; [by injection H|].
  injection H as _ H. by destruct l1.
Qed.

Definition succeeded (o : result PushOutcome ProviderError) : bool :=
  match o with Ok o => po_success o | Err _ => false end.

Lemma verdict_succeeded token e status reason :
  succeeded (apns_verdict token e status reason) = is_success status.
Proof. unfold apns_verdict. destruct (is_success status); [done|]. by destruct (_ ≫= _). Qed.

Lemma retry_not_success status reason : retry_other_environment status reason = true -> is_success status = false.
Proof. unfold retry_other_environment, is_success. intros H. bool_prop. lia. Qed.

Lemma apns_deliver_spec env r c t :
  let '(o, sent, _) := apns_deliver cr env r c t in
  once sent /\ succeeded o = existsb taken sent /\ (forall x, x ∈ sent -> carries Ios r x.1).
Proof.
  unfold apns_deliver. destruct (provider_token cr (se_token_now env) c t) as [[token|e] t'].
  2: { split_and!; [by intros [] ? ?|done|]. intros x Hx. by apply not_elem_of_nil in Hx. }
  set (w := apns_wire env c token r). set (e0 := ap_environment c).
  assert (Hc : forall e a, carries Ios r (apns_request e w, a : Answer).1) by (intros e a; by exists e, w).
  destruct (se_apns env e0) as [why|status id text] eqn:E1; cbn [attempt].
  { split_and!; [apply once_single| |].
    - unfold taken. simpl. by rewrite andb_false_r.
    - intros x Hx. apply list_elem_of_singleton in Hx as ->. apply Hc. }
  destruct (retry_other_environment status (parse_reason cr _)) eqn:Er.
  - pose proof (retry_not_success _ _ Er) as Hs.
    assert (Ht : taken (apns_request e0 w, Answered status id text) = false).
    { unfold taken. simpl. by rewrite Hs, andb_false_r. }
    destruct (se_apns env (other e0)) as [why|status' id' text'] eqn:E2; cbn [attempt];
      (split_and!; [by apply once_pair| |intros x Hx; apply elem_of_cons in Hx as [->|Hx]; [apply Hc|];
         apply list_elem_of_singleton in Hx as ->; apply Hc]);
      cbn [existsb]; rewrite Ht; unfold taken; cbn [fst snd]; rewrite apns_is_push; cbn [andb orb].
    + done.
    + rewrite verdict_succeeded. by destruct (is_success status').
  - split_and!; [apply once_single| |intros x Hx; apply list_elem_of_singleton in Hx as ->; apply Hc].
    rewrite verdict_succeeded. unfold taken. cbn [existsb fst snd]. rewrite apns_is_push.
    by destruct (is_success status).
Qed.

Lemma access_token_spec env c t :
  let '(_, asked, _) := access_token cr env c t in
  asked = [] \/ exists a, asked = [(exchange_request a, se_exchange env)].
Proof.
  unfold access_token, exchange. destruct (cached_token _ t); [by left|].
  destruct (assertion cr _ c) as [a|e]; [|by left]. repeat destr_match; right; by exists a.
Qed.

Lemma fcm_deliver_spec env r c t :
  let '(o, sent, _) := fcm_deliver cr env r c t in
  once sent /\ succeeded o = existsb taken sent /\
  (forall x, x ∈ sent -> is_push x.1 = true -> carries Android r x.1).
Proof.
  unfold fcm_deliver. pose proof (access_token_spec env c t) as Ha.
  destruct (access_token cr env c t) as [[token asked] t'].
  assert (Hasked : forall x, x ∈ asked -> is_push x.1 = false).
  { intros x Hx. destruct Ha as [->|[a ->]]; [by apply not_elem_of_nil in Hx|].
    by apply list_elem_of_singleton in Hx as ->. }
  assert (Hex : existsb taken asked = false).
  { destruct Ha as [->|[a ->]]; done. }
  destruct token as [token|e].
  2: { split_and!; [|done|].
       - destruct Ha as [->|[a ->]]; [by intros [] ? ?|apply once_single].
       - intros x Hx Hp. rewrite (Hasked x Hx) in Hp. done. }
  set (last := (fcm_request c token r, se_fcm env)).
  assert (Ho : once (asked ++ [last])).
  { destruct Ha as [->|[a ->]]; [apply once_single|by apply once_pair]. }
  assert (Hc : forall x, x ∈ (asked ++ [last])%list -> is_push x.1 = true -> carries Android r x.1).
  { intros x [Hx|Hx]%elem_of_app Hp; [by rewrite (Hasked x Hx) in Hp|].
    apply list_elem_of_singleton in Hx as ->. by exists c, token. }
  assert (Hl : existsb taken (asked ++ [last]) = taken last).
  { rewrite existsb_app, Hex. cbn [existsb orb]. by rewrite orb_false_r. }
  destruct (se_fcm env) as [why|status id body] eqn:Es.
  - split_and!; [done| |done]. by rewrite Hl.
  - destruct (is_success status) eqn:Est; (split_and!; [done| |done]); rewrite Hl; unfold taken; simpl; by rewrite Est.
Qed.

Lemma send_spec env r p platform :
  match platform, p with Ios, PFcm _ _ => False | Android, PApns _ _ => False | _, _ => True end ->
  let '(o, sent, _) := send cr env r p in
  once sent /\ succeeded o = existsb taken sent /\
  (forall x, x ∈ sent -> is_push x.1 = true -> carries platform r x.1).
Proof.
  intros Hp. destruct p as [|c t|c t]; cbn [send].
  - split_and!; [by intros [] ? ?|done|]. intros x Hx. by apply not_elem_of_nil in Hx.
  - destruct platform; [|done]. pose proof (apns_deliver_spec env r c t) as H.
    destruct (apns_deliver cr env r c t) as [[o sent] t']. destruct H as (H1 & H2 & H3). auto.
  - destruct platform; [done|]. pose proof (fcm_deliver_spec env r c t) as H.
    by destruct (fcm_deliver cr env r c t) as [[o sent] t'].
Qed.

(** C19. A notification is relayed once and told truthfully: nothing is sent for a
    body that is refused or a subject over its rate; what is sent carries the
    recipient, id and message of the request to the service of its platform; once a
    service has taken the push nothing more is sent; and the answer says success
    exactly when a service took it. *)
Theorem notify_relays_once clock env subject body s :
  slots_ok s ->
  let '(r, sent, _) := handle cr clock env subject body s in
  once sent /\
  match r with
  | Err _ => sent = []
  | Ok resp =>
      ns_success resp = existsb taken sent /\
      exists b q, body = Some b /\ validate_body b = Ok q /\
        is_ok (fst (Limiter.allow clock (NOTIFY_ROUTE +:+ ":" +:+ subject) (st_limiter s))) = true /\
        forall x, x ∈ sent -> is_push x.1 = true ->
          carries (detect (nq_device_token q) (nq_platform q)) (push_of q) x.1
  end.
Proof.
  intros Hs. unfold handle. destruct body as [b|]; [|by split; [intros [] ? ?|]].
  destruct (validate_body b) as [q|errors] eqn:Ev; [|by split; [intros [] ? ?|]].
  destruct (Limiter.allow _ _ _) as [[paid|w] l]; [|by split; [intros [] ? ?|]].
  set (platform := detect (nq_device_token q) (nq_platform q)).
  pose proof (send_spec env (push_of q) (provider_of platform s) platform) as Hsp.
  destruct (send cr env (push_of q) (provider_of platform s)) as [[o sent] p].
  assert (match platform, provider_of platform s with Ios, PFcm _ _ => False | Android, PApns _ _ => False | _, _ => True end)
    as Hslot by (unfold slots_ok in Hs; destruct platform; simpl; destruct Hs; destr_match; done).
  destruct (Hsp Hslot) as (H1 & H2 & H3).
  destruct o as [o|e]; (split; [done|]); (split; [exact H2|]); by exists b, q.
Qed.
(** ** The tokens pushes carry *)

(** A cached token came from the signer or the exchange, not after [now]. *)
Definition token_ok (p : Provider) (now : Z) : Prop :=
  match p with
  | PUnconfigured => True
  | PApns c t =>
      forall k, t = Some k ->
        es256 cr (ap_private_key c) (ap_key_id c) (ap_team_id c) (at_issued_at k) = Ok (at_token k) /\
        0 <= at_issued_at k <= now
  | PFcm c t =>
      forall k, t = Some k -> exists at_ expires_in body,
        decode_token cr body = Ok (ft_token k, expires_in) /\
        ft_expires_at k = to_i64 (to_i64 (at_ + expires_in) - TOKEN_REFRESH_BUFFER_SECS)
  end.

(** What a request sent at [now] shows: to Apple a provider token of the configured
    key and team, minted less than fifty minutes ago; to Firebase an access token
    that this call obtained, or whose life less a minute had not run out. *)
Definition authorised (p : Provider) (env : SendEnv) (q : HttpRequest) : Prop :=
  let now := se_token_now env in
  match p with
  | PUnconfigured => False
  | PApns c _ => exists token iat,
      ("authorization", "bearer " +:+ token) ∈ h_headers q /\
      es256 cr (ap_private_key c) (ap_key_id c) (ap_team_id c) iat = Ok token /\
      now - TOKEN_REFRESH_SECS < iat <= now
  | PFcm c _ => is_push q = false \/ exists token at_ expires_in body,
      ("authorization", "Bearer " +:+ token) ∈ h_headers q /\ decode_token cr body = Ok (token, expires_in) /\
      (at_ = se_now env \/ now < to_i64 (to_i64 (at_ + expires_in) - TOKEN_REFRESH_BUFFER_SECS))
  end.

Lemma to_i64_id n : - 2 ^ 63 <= n < 2 ^ 63 -> to_i64 n = n.
Proof. intros Hn. unfold to_i64. rewrite Z.mod_small by lia. lia. Qed.

(** A token good to send at [now]. *)
Definition minted (c : ApnsConfig) (now : Z) (r : result string ProviderError) : Prop :=
  forall token, r = Ok token -> exists iat,
    es256 cr (ap_private_key c) (ap_key_id c) (ap_team_id c) iat = Ok token /\ now - TOKEN_REFRESH_SECS < iat <= now.

Lemma mint_token_spec now c t :
  token_ok (PApns c t) now -> 0 <= now ->
  token_ok (PApns c (snd (mint_token cr now c t))) now /\ minted c now (fst (mint_token cr now c t)).
Proof.
  intros Ht Hn. unfold mint_token. destruct (es256 _ _ _ _ now) as [token|e] eqn:Ee; [|done]. split.
  - intros k [= <-]. simpl. split; [done|lia].
  - intros ? [= <-]. exists now. split; [done|]. unfold TOKEN_REFRESH_SECS. lia.
Qed.

Lemma provider_token_spec now c t :
  token_ok (PApns c t) now -> 0 <= now < 2 ^ 63 ->
  token_ok (PApns c (snd (provider_token cr now c t))) now /\ minted c now (fst (provider_token cr now c t)).
Proof.
  intros Ht Hn. pose proof (mint_token_spec now c t Ht ltac:(lia)) as Hmint. unfold provider_token.
  destruct t as [k|]; [|exact Hmint]. destruct (Ht k eq_refl) as [Hk1 Hk2].
  destruct (to_i64 _ <? _) eqn:El; [|exact Hmint]. bool_prop. rewrite to_i64_id in El by lia.
  split; [done|]. intros ? [= <-]. exists (at_issued_at k). split; [done|lia].
Qed.

Definition obtained (env : SendEnv) (r : result string ProviderError) : Prop :=
  forall token, r = Ok token -> exists at_ expires_in body, decode_token cr body = Ok (token, expires_in) /\
    (at_ = se_now env \/
     se_token_now env < to_i64 (to_i64 (at_ + expires_in) - TOKEN_REFRESH_BUFFER_SECS)).

Lemma exchange_fresh env c t now :
  token_ok (PFcm c t) now ->
  let '(r, _, t') := exchange cr env c t in token_ok (PFcm c t') now /\ obtained env r.
Proof.
  intros Ht. unfold exchange. destruct (assertion cr _ c) as [a|]; [|done].
  destruct (se_exchange env) as [|status id body]; [done|]. destruct (negb _); [done|].
  destruct (decode_token cr body) as [[token e]|] eqn:Ed; [|done]. split.
  - intros k [= <-]. by exists (se_now env), e, body.
  - intros ? [= <-]. exists (se_now env), e, body. split; [done|by left].
Qed.

Lemma access_token_fresh env c t now :
  token_ok (PFcm c t) now ->
  let '(r, _, t') := access_token cr env c t in token_ok (PFcm c t') now /\ obtained env r.
Proof.
  intros Ht. pose proof (exchange_fresh env c t now Ht) as Hmiss. unfold access_token, cached_token.
  destruct t as [k|]; [|exact Hmiss]. destruct (se_token_now env <? ft_expires_at k) eqn:El; [|exact Hmiss]. bool_prop.
  destruct (Ht k eq_refl) as (a & e & body & Hd & He). split; [done|]. intros ? [= <-].
  exists a, e, body. split; [done|]. right. by rewrite <- He.
Qed.

Lemma apns_sent env r c t :
  let '(token, t1) := provider_token cr (se_token_now env) c t in
  let '(_, sent, t2) := apns_deliver cr env r c t in
  t1 = t2 /\ forall x, x ∈ sent -> exists tok e, token = Ok tok /\ x.1 = apns_request e (apns_wire env c tok r).
Proof.
  unfold apns_deliver. destruct (provider_token cr (se_token_now env) c t) as [[tok|e] t'].
  2: { split; [done|]. intros x Hx. by apply not_elem_of_nil in Hx. }
  repeat destr_match; (split; [congruence|]); intros x Hx; simplify_eq;
    repeat (apply elem_of_cons in Hx as [->|Hx]; [by eexists _, _|]); by apply not_elem_of_nil in Hx.
Qed.

Lemma fcm_sent env r c t :
  let '(token, asked, t1) := access_token cr env c t in
  let '(_, sent, t2) := fcm_deliver cr env r c t in
  t1 = t2 /\ forall x, x ∈ sent -> x ∈ asked \/ exists tok, token = Ok tok /\ x.1 = fcm_request c tok r.
Proof.
  unfold fcm_deliver. destruct (access_token cr env c t) as [[[tok|e] asked] t']; [|by auto].
  repeat destr_match; (split; [congruence|]); intros x Hx; simplify_eq; apply elem_of_app in Hx as [Hx|Hx]; auto;
    apply list_elem_of_singleton in Hx as ->; eauto.
Qed.

Lemma send_authorised env r p :
  token_ok p (se_token_now env) -> 0 <= se_token_now env < 2 ^ 63 ->
  let '(_, sent, p') := send cr env r p in
  token_ok p' (se_token_now env) /\ forall x, x ∈ sent -> authorised p env x.1.
Proof.
  intros Hp Hn. destruct p as [|c t|c t]; cbn [send].
  - split; [done|]. intros x Hx. by apply not_elem_of_nil in Hx.
  - pose proof (provider_token_spec _ c t Hp Hn) as [H1 H2]. pose proof (apns_sent env r c t) as Hs.
    destruct (provider_token cr (se_token_now env) c t) as [token t1], (apns_deliver cr env r c t) as [[o sent] t2].
    destruct Hs as [-> Hs]. split; [done|]. intros x Hx. destruct (Hs x Hx) as (tok & e & -> & ->).
    destruct (H2 tok eq_refl) as (iat & Hi & Hb). exists tok, iat. split; [apply list_elem_of_here|done].
  - pose proof (access_token_fresh env c t _ Hp) as H. pose proof (fcm_sent env r c t) as Hs.
    pose proof (access_token_spec env c t) as Ha.
    destruct (access_token cr env c t) as [[token asked] t1], (fcm_deliver cr env r c t) as [[o sent] t2].
    destruct Hs as [-> Hs], H as [H1 H2]. split; [done|]. intros x Hx. destruct (Hs x Hx) as [Hx'|(tok & -> & ->)].
    + left. destruct Ha as [->|[a ->]]; [by apply not_elem_of_nil in Hx'|]. by apply list_elem_of_singleton in Hx' as ->.
    + right. destruct (H2 tok eq_refl) as (a & e & body & Hd & Hb). exists tok, a, e, body.
      split; [apply list_elem_of_here|done].
Qed.

(** The provider after a sequence of pushes, and each call's state before it. *)
Fixpoint provider_run (calls : list (SendEnv * PushRequest)) (p : Provider)
    : list (Provider * SendEnv * list (HttpRequest * Answer)) :=
  match calls with
  | [] => []
  | (env, r) :: calls' => let '(_, sent, p') := send cr env r p in (p, env, sent) :: provider_run calls' p'
  end.

Lemma token_ok_later p now now' : now <= now' -> token_ok p now -> token_ok p now'.
Proof. intros Hn. destruct p as [|c t|c t]; simpl; [done| |done]. intros H k Hk. destruct (H k Hk). split; [done|lia]. Qed.

Lemma provider_run_authorised calls p now :
  token_ok p now -> 0 <= now ->
  StronglySorted Z.le (now :: map (fun c => se_token_now c.1) calls) ->
  Forall (fun c => se_token_now c.1 < 2 ^ 63) calls ->
  forall p' env sent x, (p', env, sent) ∈ provider_run calls p -> x ∈ sent -> authorised p' env x.1.
Proof.
  revert p now. induction calls as [|[env r] calls IH]; intros p now Hp Hn Hs Hf p' env' sent x Hin Hx;
    cbn [provider_run] in Hin; [by apply not_elem_of_nil in Hin|].
  apply StronglySorted_inv in Hs as [Hs Hall]. apply Forall_cons in Hf as [Hlt Hf].
  cbn [map] in Hs, Hall. apply Forall_cons in Hall as [Hle _]. cbn [fst] in *.
  assert (Hp1 : token_ok p (se_token_now env)) by by eapply token_ok_later.
  pose proof (send_authorised env r p Hp1 ltac:(lia)) as Hsend.
  destruct (send cr env r p) as [[o sent1] p1]. destruct Hsend as [Hp2 Ha].
  apply elem_of_cons in Hin as [[= -> -> ->]|Hin]; [by apply Ha|].
  eapply (IH p1 (se_token_now env)); eauto; lia.
Qed.

(** Every push of a provider that starts without a token is authorised for the
    moment it is sent, whatever the pushes before it and their answers: to Apple with
    a token of the configured key and team minted less than fifty minutes earlier
    (Apple refuses them at an hour), to Firebase with one just obtained or with more
    than a minute of its life left. *)
Theorem push_tokens_live calls p :
  match p with PApns _ (Some _) | PFcm _ (Some _) => False | _ => True end ->
  StronglySorted Z.le (map (fun c => se_token_now c.1) calls) ->
  Forall (fun c => 0 <= se_token_now c.1 < 2 ^ 63) calls ->
  forall p' env sent x, (p', env, sent) ∈ provider_run calls p -> x ∈ sent -> authorised p' env x.1.
Proof.
  intros Hp Hs Hf. apply (provider_run_authorised calls p 0); [|done| |].
  - destruct p as [|c [k|]|c [k|]]; done.
  - constructor; [done|]. apply Forall_fmap. eapply Forall_impl; [exact Hf|]. simpl. lia.
  - eapply Forall_impl; [exact Hf|]. simpl. lia.
Qed.
End props.

(** ** Concrete instances *)

Module Demo.
Import Limiter.Gcra.

Definition demo : NotifyCrates :=
  {| es256 := fun _ _ iss iat => Ok (iss +:+ "@" +:+ decimal iat); rs256 := fun _ _ _ _ _ _ => Ok "assertion";
     json_of_string := fun s => if String.eqb s "bad" then Some (JObject [("reason", JString "BadDeviceToken")]) else None;
     decode_token := fun b => Ok (b, 3600) |}.

Definition demo_apns : ApnsConfig :=
  {| ap_private_key := "pem"; ap_key_id := "kid"; ap_team_id := "team"; ap_topic := "app"; ap_environment := Production |}.

(** Production refuses the token as the sandbox's; the sandbox takes it. *)
Definition demo_env (t : Z) : SendEnv :=
  {| se_token_now := t; se_now := t;
     se_apns := fun e => match e with Production => Answered 400 None "bad" | Development => Answered 200 None EmptyString end;
     se_exchange := NoAnswer "down"; se_fcm := NoAnswer "down" |}.

Definition demo_state : NotifyState :=
  {| st_apns := PApns demo_apns None; st_fcm := PUnconfigured; st_limiter := demo_limiter |}.

Definition hex64 : string := "0123456789abcdef0123456789abcdef0123456789abcdef0123456789abcdef".
Definition demo_body : Json :=
  JObject [("deviceToken", JString hex64); ("pushId", JString hex64); ("message", JString "0xAB")].

Lemma notify_relays_once_witness :
  slots_ok demo_state /\
  let '(r, sent, _) := handle demo 1000 (demo_env 1000) "a" (Some demo_body) demo_state in
  match r with Ok resp => ns_success resp = true /\ length sent = 2%nat /\ once sent | Err _ => False end.
Proof.
  assert (Hs : slots_ok demo_state) by done. split; [done|].
  pose proof (notify_relays_once demo 1000 (demo_env 1000) "a" (Some demo_body) demo_state Hs) as H.
  assert (Hv : match fst (handle demo 1000 (demo_env 1000) "a" (Some demo_body) demo_state) with
    | (Ok resp, sent) => ns_success resp = true /\ length sent = 2%nat | _ => False end) by (vm_compute; auto).
  destruct (handle _ _ _ _ _ _) as [[[resp|e] sent] s']; [|done]. cbn [fst] in Hv.
  exact (conj (proj1 Hv) (conj (proj2 Hv) (proj1 H))).
Defined.

Definition demo_push : PushRequest :=
  {| pr_device_token := hex64; pr_push_id := hex64; pr_message := "0xAB"; pr_topic := None; pr_voip := None |}.

(** A push at 1000 mints, one at 3999 reuses the token, one at 4000 mints again. *)
Definition demo_calls : list (SendEnv * PushRequest) :=
  [(demo_env 1000, demo_push); (demo_env 3999, demo_push); (demo_env 4000, demo_push)].

Lemma push_tokens_live_witness :
  map (fun c => length c.2) (provider_run demo demo_calls (PApns demo_apns None)) = [2; 2; 2]%nat /\
  forall p env sent x, (p, env, sent) ∈ provider_run demo demo_calls (PApns demo_apns None) -> x ∈ sent ->
    authorised demo p env x.1.
Proof.
  split; [by vm_compute|].
  apply (push_tokens_live demo demo_calls (PApns demo_apns None)); [done| |].
  - change (StronglySorted Z.le [1000; 3999; 4000]). repeat constructor; lia.
  - unfold demo_calls. repeat constructor; done.
Defined.
End Demo.
End NotifyProps.
