(* ===== verification/Config.v ===== *)
(** * Config: reading the environment

    What every service does before it serves: [http-common/src/config.rs], and the
    configurations of the attestation API ([device-attestation/src/config.rs]), the
    chain writer ([chain/writer.rs]), the queue advancer ([queue.rs]), the ticket API
    and its pool, the indexer, the push relay and the TURN service.  The environment
    is a function; texts of the standard library's parse errors are written out;
    sockets, keys, base64, SS58 and files are parameters. *)

From stdpp Require Import gmap.
From S2P Require Import Prelude Strings Text Limiter PlayIntegrity Auth.
From S2P Require Import Writer Tickets Turn Notify.

#[local] Open Scope string_scope.
#[local] Open Scope Z_scope.

Module Config.

(** ** [http-common/src/config.rs] *)

Inductive ConfigError := Missing (key : string) | Invalid (key reason : string).

Abbreviation Env := (string -> option string).

(** [str::parse] of an unsigned integer, with the errors' texts. *)
Fixpoint parse_digits (max acc : Z) (s : string) : result Z string :=
  match s with
  | EmptyString => Ok acc
  | String c s' =>
      if is_ascii_digit c then
        let v := 10 * acc + digit_value c in
        if v <=? max then parse_digits max v s' else Err "number too large to fit in target type"
      else Err "invalid digit found in string"
  end.

Definition parse_uint (max : Z) (s : string) : result Z string :=
  match s with
  | EmptyString => Err "cannot parse integer from empty string"
  | String c s' =>
      if Ascii.eqb c "+"%char then
        match s' with EmptyString => Err "invalid digit found in string" | _ => parse_digits max 0 s' end
      else parse_digits max 0 s
  end.

Definition parse_bool_std (s : string) : result bool string :=
  if String.eqb s "true" then Ok true
  else if String.eqb s "false" then Ok false
  else Err "provided string was not `true` or `false`".

Record ConfigCrates := {
  SocketAddr : Type;
  addr_from_str : string -> result SocketAddr string;
  Verifier : Type;
  from_jwks : string -> result Verifier string;
  from_public_key : bytes -> result Verifier string;
  b64_decode_err : string -> result bytes string;
  hex_error : string -> string;
  account_from_str : string -> result bytes string;
  p256_spki : bytes -> result unit string;
  ec_pem : string -> result unit string;
  rsa_pem : string -> result unit string;
  (** serde's decoding of a service account: email and key; and project before them. *)
  google_account : bytes -> result (string * string) string;
  fcm_account : string -> result (string * string * string) string;
  available_parallelism : option Z;
  (** The process id and eight random hexadecimal digits, as [format!] joins them. *)
  holder_suffix : string }.

Section config.
Context (cr : ConfigCrates) (env : Env).
#[local] Open Scope dub_scope.

Definition blank (s : string) : bool := String.eqb (trim s) EmptyString.

Definition required_var (key : string) : result string ConfigError :=
  match env key with
  | None => Err (Missing key)
  | Some raw =>
      let value := trim raw in
      if String.eqb value EmptyString then Err (Invalid key "must not be empty") else Ok value
  end.

Definition parse_var {T : Type} (from_str : string -> result T string) (key default : string)
    : result T ConfigError :=
  map_err (Invalid key) (from_str (match env key with Some raw => raw | None => default end)).

Definition positive (key : string) (value : Z) : result Z ConfigError :=
  if value =? 0 then Err (Invalid key "must be at least 1") else Ok value.

(** [hex::decode] with the prefix optional. *)
Definition hex_opt_0x (s : string) : option bytes := hex_decode (default s (strip_prefix "0x" s)).

Definition jwt_verifier_from_values (jwks public_key : option string) : result (Verifier cr) ConfigError :=
  match (match jwks with Some v => if blank v then None else Some v | None => None end) with
  | Some jwks => map_err (Invalid "JWT_JWKS_JSON") (from_jwks cr jwks)
  | None =>
      match public_key with
      | None => Err (Missing "JWT_JWKS_JSON or JWT_ED25519_PUBLIC_KEY")
      | Some raw =>
          match hex_opt_0x (trim raw) with
          | Some b =>
              if (length b =? 32)%nat then
                map_err (fun e => Invalid "JWT_ED25519_PUBLIC_KEY" ("not a valid Ed25519 public key: " +:+ e))
                  (from_public_key cr b)
              else Err (Invalid "JWT_ED25519_PUBLIC_KEY" "expected 32 bytes of hex")
          | None => Err (Invalid "JWT_ED25519_PUBLIC_KEY" "expected 32 bytes of hex")
          end
      end
  end.

Definition jwt_verifier_from_env : result (Verifier cr) ConfigError :=
  jwt_verifier_from_values (env "JWT_JWKS_JSON") (env "JWT_ED25519_PUBLIC_KEY").

(** A rate of a service: the limit and the window, both at least one. *)
Definition rate_vars (limit limit_default window window_default : string) : result (Z * Z) ConfigError :=
  let? l := parse_var (parse_uint U32_MAX) limit limit_default in
  let? l := positive limit l in
  let? w := parse_var (parse_uint U64_MAX) window window_default in
  let? w := positive window w in
  Ok (l, w).

(** ** [notifications] *)

Record NotifyConfig := { nc_bind_addr : SocketAddr cr; nc_verifier : Verifier cr; nc_rate_limit : Z; nc_rate_window : Z }.

Definition NotifyConfig_from_env : result NotifyConfig ConfigError :=
  let? (limit, window) := rate_vars "NOTIFY_RATE_LIMIT" "60" "NOTIFY_RATE_LIMIT_WINDOW_SECS" "60" in
  let? addr := parse_var (addr_from_str cr) "BIND_ADDR" "0.0.0.0:8080" in
  let? verifier := jwt_verifier_from_env in
  Ok {| nc_bind_addr := addr; nc_verifier := verifier; nc_rate_limit := limit; nc_rate_window := window |}.

(** [required] over a getter. *)
Definition required (get : Env) (key : string) : result string ConfigError :=
  match get key with
  | Some value => if blank value then Err (Missing key) else Ok value
  | None => Err (Missing key)
  end.

Definition ApnsEnvironment_parse (raw : string) : result Notify.ApnsEnvironment ConfigError :=
  let s := to_ascii_lowercase (trim raw) in
  if String.eqb s "production" || String.eqb s "prod" then Ok Notify.Production
  else if String.eqb s "development" || String.eqb s "dev" || String.eqb s "sandbox" then Ok Notify.Development
  else Err (Invalid "APNS_ENVIRONMENT" ("must be production or development, got " +:+ debug_str s)).

Definition ApnsConfig_from_getter (get : Env) : result (option Notify.ApnsConfig) ConfigError :=
  match (match get "APNS_PRIVATE_KEY" with Some v => if blank v then None else Some v | None => None end) with
  | None => Ok None
  | Some key =>
      let? key_id := required get "APNS_KEY_ID" in
      let? team_id := required get "APNS_TEAM_ID" in
      let? topic := required get "APNS_TOPIC" in
      let? raw := required get "APNS_ENVIRONMENT" in
      let? environment := ApnsEnvironment_parse raw in
      Ok (Some {| Notify.ap_private_key := key; Notify.ap_key_id := key_id; Notify.ap_team_id := team_id;
                  Notify.ap_topic := topic; Notify.ap_environment := environment |})
  end.

(** What is at a path. *)
Inductive KeyFile := NoFile (error : string) | CharDevice | OtherKind | Unreadable (error : string) | Contents (pem : string).

Definition read_key_file (path : string) (f : KeyFile) : result (option string) ConfigError :=
  let invalid reason := Err (Invalid "APNS_PRIVATE_KEY_FILE" reason) in
  match f with
  | NoFile error => invalid ("cannot read " +:+ path +:+ ": " +:+ error)
  | CharDevice => Ok None
  | OtherKind => invalid (path +:+ " is not a regular file")
  | Unreadable error => invalid ("cannot read " +:+ path +:+ ": " +:+ error)
  | Contents pem => if blank pem then invalid (path +:+ " is empty") else Ok (Some pem)
  end.

Definition ApnsConfig_from_env (files : string -> KeyFile) : result (option Notify.ApnsConfig) ConfigError :=
  let? key :=
    match (match env "APNS_PRIVATE_KEY" with Some v => if blank v then None else Some v | None => None end) with
    | Some key => Ok (Some key)
    | None =>
        match env "APNS_PRIVATE_KEY_FILE" with
        | Some path => if blank path then Ok None else read_key_file (trim path) (files (trim path))
        | None => Ok None
        end
    end in
  ApnsConfig_from_getter (fun name => if String.eqb name "APNS_PRIVATE_KEY" then key else env name).

Definition FcmConfig_from_getter (get : Env) : result (option Notify.FcmConfig) ConfigError :=
  match (match get "FCM_SERVICE_ACCOUNT_JSON" with Some v => if blank v then None else Some v | None => None end) with
  | None => Ok None
  | Some raw =>
      let? (project, email, key) :=
        map_err (fun e => Invalid "FCM_SERVICE_ACCOUNT_JSON" ("not valid service-account JSON: " +:+ e))
          (fcm_account cr raw) in
      if String.eqb project EmptyString || String.eqb email EmptyString || String.eqb key EmptyString then
        Err (Invalid "FCM_SERVICE_ACCOUNT_JSON" "missing project_id, client_email, or private_key")
      else Ok (Some {| Notify.fc_project_id := project; Notify.fc_client_email := email; Notify.fc_private_key := key |})
  end.

(** ** [turn/src/config.rs] *)

Definition decode_secret (raw : string) : result bytes ConfigError :=
  match b64_decode_err cr (trim raw) with
  | Err _ => Err (Invalid "TURN_SECRET" "invalid base64 encoding")
  | Ok [] => Err (Invalid "TURN_SECRET" "must not be empty")
  | Ok b => Ok b
  end.

Definition validated_realm (raw : string) : result string ConfigError :=
  let realm := trim raw in
  if negb (String.eqb realm EmptyString) &&
     all_chars (fun c => is_ascii_alphanumeric c || Ascii.eqb c "_" || Ascii.eqb c "." || Ascii.eqb c "-") realm
  then Ok realm
  else Err (Invalid "TURN_REALM" "must contain only alphanumeric characters, underscores, dots, and hyphens").

Definition parse_ice_servers (raw : string) : result (list string) ConfigError :=
  if blank raw then Err (Invalid "ICE_SERVERS" "must list at least one ICE server URL")
  else
    try_map (fun _ entry =>
      let entry := trim entry in
      if String.eqb entry EmptyString || negb (contains ":" entry) then
        Err (Invalid "ICE_SERVERS" ("invalid ICE server URL: " +:+ debug_str entry))
      else Ok entry) 0 (split_on ","%char raw).

Definition provider_from_env : result Turn.ProviderConfig ConfigError :=
  let? selected := parse_var Ok "TURN_PROVIDER" "cloudflare" in
  let s := trim selected in
  if String.eqb s "cloudflare" then
    if match env "TURN_SECRET" with Some v => negb (blank v) | None => false end then
      Err (Invalid "TURN_PROVIDER" ("TURN_SECRET is set but the provider is cloudflare; "
        +:+ "set TURN_PROVIDER=coturn to keep using a self-hosted relay, " +:+ "or remove TURN_SECRET"))
    else
      let? key_id := required_var "TURN_KEY_ID" in
      let? api_token := required_var "TURN_API_TOKEN" in
      Ok (Turn.PCloudflare key_id api_token None)
  else if String.eqb s "coturn" then
    let? algorithm_raw := parse_var Ok "TURN_AUTH_ALGORITHM" "SHA1" in
    let? algorithm :=
      match Turn.Algorithm_from_str (trim algorithm_raw) with
      | Some a => Ok a
      | None => Err (Invalid "TURN_AUTH_ALGORITHM" ("expected SHA1|SHA256|SHA384|SHA512, got " +:+ algorithm_raw))
      end in
    let? raw := required_var "TURN_SECRET" in
    let? secret := decode_secret raw in
    let? raw := required_var "TURN_REALM" in
    let? realm := validated_realm raw in
    let? raw := required_var "ICE_SERVERS" in
    let? servers := parse_ice_servers raw in
    Ok (Turn.PCoturn secret algorithm realm servers)
  else Err (Invalid "TURN_PROVIDER" ("expected cloudflare|coturn, got " +:+ debug_str s)).

Definition proof_concurrency (raw : string) : result Z ConfigError :=
  if String.eqb (to_ascii_lowercase (trim raw)) "auto" then
    Ok (match available_parallelism cr with Some cpus => Z.max 1 (Z.max 0 (cpus - 1)) | None => 1 end)
  else
    let? n := map_err (Invalid "TURN_PROOF_CONCURRENCY") (parse_uint U64_MAX (trim raw)) in
    positive "TURN_PROOF_CONCURRENCY" n.

(** The map of contexts, entry by entry. *)
Fixpoint insert_contexts (turn : Turn.TurnCrates) (suffix : Z) (entries : list string) (m : gmap string bytes)
    : result (gmap string bytes) ConfigError :=
  match entries with
  | [] => Ok m
  | entry :: rest =>
      let product := trim entry in
      if String.eqb product EmptyString then Err (Invalid "TURN_PROOF_PRODUCTS" "contains an empty product id")
      else insert_contexts turn suffix rest (<[product := Turn.product_context turn product suffix]> m)
  end.

Definition contexts (turn : Turn.TurnCrates) (raw : string) (suffix : Z) : result (gmap string bytes) ConfigError :=
  let? m := insert_contexts turn suffix (split_on ","%char raw) ∅ in
  if bool_decide (m = ∅) then Err (Invalid "TURN_PROOF_PRODUCTS" "must list at least one product id") else Ok m.

Definition hex_bytes (key raw : string) : result bytes ConfigError :=
  match hex_decode (Turn.trim_0x (trim raw)) with
  | None => Err (Invalid key "invalid hex encoding")
  | Some [] => Err (Invalid key "must not be empty")
  | Some b => Ok b
  end.

Definition hex32 (key raw : string) : result bytes ConfigError :=
  let? b := hex_bytes key raw in
  if (length b =? 32)%nat then Ok b
  else Err (Invalid key ("expected 32 bytes, got " +:+ decimal (Z.of_nat (length b)))).

Record ProofConfig := {
  pc_rpc_url : string; pc_genesis : bytes; pc_contexts : gmap string bytes; pc_concurrency : Z }.

Definition ProofConfig_from_env (turn : Turn.TurnCrates) : result (option ProofConfig) ConfigError :=
  let? enabled := parse_var parse_bool_std "TURN_PROOF_ENABLED" "false" in
  if negb enabled then Ok None
  else
    let? concurrency := proof_concurrency (default "auto" (env "TURN_PROOF_CONCURRENCY")) in
    let? suffix := parse_var (parse_uint U32_MAX) "TURN_PROOF_CONTEXT_SUFFIX" "0" in
    let? rpc_url := required_var "TURN_PROOF_RPC_URL" in
    let? raw := required_var "TURN_PROOF_GENESIS" in
    let? genesis := hex32 "TURN_PROOF_GENESIS" raw in
    let? raw := required_var "TURN_PROOF_PRODUCTS" in
    let? m := contexts turn raw suffix in
    Ok (Some {| pc_rpc_url := rpc_url; pc_genesis := genesis; pc_contexts := m; pc_concurrency := concurrency |}).

Record TurnConfig := {
  tc_bind_addr : SocketAddr cr; tc_ttl_secs : Z; tc_provider : Turn.ProviderConfig; tc_verifier : Verifier cr;
  tc_rate_limit : Z; tc_rate_window : Z; tc_proof : option ProofConfig }.

Definition TurnConfig_from_env (turn : Turn.TurnCrates) : result TurnConfig ConfigError :=
  let? ttl := parse_var (parse_uint U64_MAX) "TURN_TTL_SECS" "1800" in
  let? ttl := positive "TURN_TTL_SECS" ttl in
  let? provider := provider_from_env in
  let? (limit, window) := rate_vars "TURN_RATE_LIMIT" "30" "TURN_RATE_LIMIT_WINDOW_SECS" "60" in
  let? proof := ProofConfig_from_env turn in
  let? addr := parse_var (addr_from_str cr) "BIND_ADDR" "0.0.0.0:8080" in
  let? verifier := jwt_verifier_from_env in
  Ok {| tc_bind_addr := addr; tc_ttl_secs := ttl; tc_provider := provider; tc_verifier := verifier;
        tc_rate_limit := limit; tc_rate_window := window; tc_proof := proof |}.
(** ** [username-indexer/src/config.rs] *)

Definition MAX_STORAGE_PAGE_SIZE : Z := 1000.
Definition MAX_SYNC_INTERVAL_SECS : Z := 86400.
Definition MIN_POC_HMAC_SECRET_LEN : nat := 32.

Record IndexerConfig := {
  ic_bind_addr : SocketAddr cr; ic_database_url : string; ic_people_rpc_url : string;
  ic_storage_page_size : Z; ic_sync_interval_secs : Z; ic_search_rate_limit : Z;
  ic_search_rate_limit_window_secs : Z; ic_poc_difficulty_bits : Z; ic_speculative_indexing : bool;
  ic_poc_hmac_secret : option string }.

(** [parse_bool]: only an absent variable takes the default. *)
Definition parse_bool_strict (get : Env) (key : string) (default : bool) : result bool ConfigError :=
  match get key with
  | None => Ok default
  | Some raw =>
      let s := to_ascii_lowercase (trim raw) in
      if String.eqb s "true" then Ok true
      else if String.eqb s "false" then Ok false
      else Err (Invalid key ("expected `true` or `false`, got `" +:+ s +:+ "`"))
  end.

Definition parse_get (get : Env) (max : Z) (key default_ : string) : result Z ConfigError :=
  map_err (Invalid key) (parse_uint max (default default_ (get key))).

Definition within (key : string) (lo hi : Z) (reason : string) (v : Z) : result Z ConfigError :=
  if (lo <=? v) && (v <=? hi) then Ok v else Err (Invalid key reason).

Definition IndexerConfig_from_getter (get : Env) : result IndexerConfig ConfigError :=
  let? database_url := required get "INDEXER_DATABASE_URL" in
  let? people_rpc_url := required get "PEOPLE_RPC_URL" in
  let? bind_addr := map_err (Invalid "BIND_ADDR") (addr_from_str cr (default "0.0.0.0:8080" (get "BIND_ADDR"))) in
  let? page := parse_get get U32_MAX "STORAGE_PAGE_SIZE" "1000" in
  let? page := within "STORAGE_PAGE_SIZE" 1 MAX_STORAGE_PAGE_SIZE
                 ("must be between 1 and " +:+ decimal MAX_STORAGE_PAGE_SIZE) page in
  let? sync := parse_get get U32_MAX "SYNC_INTERVAL_SECS" "30" in
  let? sync := within "SYNC_INTERVAL_SECS" 1 MAX_SYNC_INTERVAL_SECS
                 ("must be between 1 and " +:+ decimal MAX_SYNC_INTERVAL_SECS) sync in
  let? limit := parse_get get U32_MAX "SEARCH_RATE_LIMIT" "60" in
  let? limit := positive "SEARCH_RATE_LIMIT" limit in
  let? window := parse_get get U32_MAX "SEARCH_RATE_LIMIT_WINDOW_SECS" "60" in
  let? window := positive "SEARCH_RATE_LIMIT_WINDOW_SECS" window in
  let? speculative := parse_bool_strict get "SPECULATIVE_INDEXING_ENABLED" true in
  let? poc_enabled := parse_bool_strict get "POC_ENABLED" false in
  let? bits := parse_get get U8_MAX "POC_DIFFICULTY_BITS" "16" in
  let? bits := within "POC_DIFFICULTY_BITS" 1 32 "must be between 1 and 32" bits in
  let? poc_hmac_secret :=
    if poc_enabled : bool then
      let? secret := required get "POC_HMAC_SECRET" in
      if (String.length secret <? MIN_POC_HMAC_SECRET_LEN)%nat then
        Err (Invalid "POC_HMAC_SECRET"
          ("must be at least " +:+ decimal (Z.of_nat MIN_POC_HMAC_SECRET_LEN) +:+ " characters of random material"))
      else Ok (Some secret)
    else Ok None in
  Ok {| ic_bind_addr := bind_addr; ic_database_url := database_url; ic_people_rpc_url := people_rpc_url;
        ic_storage_page_size := page; ic_sync_interval_secs := sync; ic_search_rate_limit := limit;
        ic_search_rate_limit_window_secs := window; ic_poc_difficulty_bits := bits;
        ic_speculative_indexing := speculative; ic_poc_hmac_secret := poc_hmac_secret |}.

(** ** [invite-tickets]: [config.rs], and the configuration in [pool.rs] *)

Record TicketConfig := {
  kc_bind_addr : SocketAddr cr; kc_database_url : string; kc_network : Tickets.Network;
  kc_verifier : Verifier cr; kc_rate_limit : Z; kc_rate_window : Z }.

Definition TicketConfig_from_env : result TicketConfig ConfigError :=
  let? database_url := required_var "INVITE_TICKETS_DATABASE_URL" in
  let? network_raw := required_var "PEOPLE_NETWORK" in
  let? network :=
    match Tickets.Network_from_str network_raw with
    | Some n => Ok n
    | None => Err (Invalid "PEOPLE_NETWORK" ("expected westend2|paseo|polkadot, got " +:+ network_raw))
    end in
  let? (limit, window) :=
    rate_vars "INVITE_TICKETS_RATE_LIMIT" "30" "INVITE_TICKETS_RATE_LIMIT_WINDOW_SECS" "60" in
  let? addr := parse_var (addr_from_str cr) "BIND_ADDR" "0.0.0.0:8080" in
  let? verifier := jwt_verifier_from_env in
  Ok {| kc_bind_addr := addr; kc_database_url := database_url; kc_network := network;
        kc_verifier := verifier; kc_rate_limit := limit; kc_rate_window := window |}.

(** [Display] of a [ConfigError], for the callers that use [anyhow]. *)
Definition ConfigError_to_string (e : ConfigError) : string :=
  match e with
  | Missing key => "required environment variable " +:+ key +:+ " is not set"
  | Invalid key reason => "environment variable " +:+ key +:+ " is invalid: " +:+ reason
  end.

Definition required_env (key : string) : result string string :=
  match env key with
  | None => Err ("required env var " +:+ key +:+ " is not set")
  | Some raw =>
      let value := trim raw in
      if String.eqb value EmptyString then Err ("env var " +:+ key +:+ " must not be empty") else Ok value
  end.

Definition env_bounded_u64 (key : string) (default_ min max : Z) : result Z string :=
  let? value :=
    map_err (fun e => "env var " +:+ key +:+ " is not a number: " +:+ e)
      (parse_uint U64_MAX (trim (default (decimal default_) (env key)))) in
  if (min <=? value) && (value <=? max) then Ok value
  else Err ("env var " +:+ key +:+ " must be within " +:+ decimal min +:+ "..=" +:+ decimal max
            +:+ ", got " +:+ decimal value).

Record MaintainerConfig := {
  mc_database_url : string; mc_people_rpc_url : string; mc_network : Tickets.Network;
  mc_inviter_address : string; mc_signer_secret : string; mc_dims : list Tickets.Dim;
  mc_tuning : Tickets.PoolTuning }.

(** The bounds keep the [try_from] conversions of [target] and [batch_max] total. *)
Definition MaintainerConfig_from_env : result MaintainerConfig string :=
  let? database_url := map_err ConfigError_to_string (required_var "INVITE_TICKETS_DATABASE_URL") in
  let? people_rpc_url := required_env "PEOPLE_RPC_URL" in
  let? network_raw := required_env "PEOPLE_NETWORK" in
  let? network :=
    match Tickets.Network_from_str network_raw with
    | Some n => Ok n
    | None => Err "PEOPLE_NETWORK must be westend2|paseo|polkadot"
    end in
  let? inviter_address := required_env "INVITER_ADDRESS" in
  let? _ := map_err (fun e => "INVITER_ADDRESS is not valid SS58: " +:+ e) (account_from_str cr inviter_address) in
  let? signer_secret := required_env "INVITER_SIGNER_SURI" in
  let? dims := Tickets.parse_pool_dims (default "Game,ProofOfInk" (env "POOL_DIMS")) in
  let? interval_secs := env_bounded_u64 "POOL_INTERVAL_SECS" 6 1 86400 in
  let? target := env_bounded_u64 "POOL_TARGET_SIZE" 10000 1 10000000 in
  let? batch_max := env_bounded_u64 "POOL_BATCH_MAX" 100 1 1000 in
  let? finalize_secs := env_bounded_u64 "POOL_FINALIZE_SECS" 60 1 86400 in
  let? target := if target <=? I64_MAX then Ok target else Err "POOL_TARGET_SIZE is too large" in
  let? batch_max := if batch_max <=? U16_MAX then Ok batch_max else Err "POOL_BATCH_MAX is too large" in
  Ok {| mc_database_url := database_url; mc_people_rpc_url := people_rpc_url; mc_network := network;
        mc_inviter_address := inviter_address; mc_signer_secret := signer_secret; mc_dims := dims;
        mc_tuning := {| Tickets.interval := interval_secs * 1000; Tickets.target := target;
                        Tickets.batch_max := batch_max; Tickets.finalize_timeout := finalize_secs * 1000 |} |}.
(** ** [device-attestation/src/config.rs] *)

(** [parse_bool]: the accepted words. *)
Definition parse_bool (raw : string) : option bool :=
  let s := to_ascii_lowercase raw in
  if bool_decide (s ∈ ["true"; "yes"; "on"; "1"; "y"]) then Some true
  else if bool_decide (s ∈ ["false"; "no"; "off"; "0"; "n"]) then Some false
  else None.

Definition env_bool (key : string) (default : bool) : result bool ConfigError :=
  match env key with
  | None => Ok default
  | Some raw =>
      match parse_bool (trim raw) with
      | Some b => Ok b
      | None => Err (Invalid key ("expected a boolean (true/false), got " +:+ debug_str (trim raw)))
      end
  end.

Definition split_list (raw : string) : list string :=
  filter (fun s => s <> EmptyString) (trim <$> split_on ","%char raw).
Definition env_list (key : string) : list string :=
  match env key with Some raw => split_list raw | None => [] end.

(** [try_into] an array of 32 bytes. *)
Definition array32 (key reason : string) (b : bytes) : result bytes ConfigError :=
  if (length b =? 32)%nat then Ok b else Err (Invalid key reason).

(** Hexadecimal, then base64. *)
Definition hex_or_base64 (s : string) : option bytes :=
  match hex_opt_0x s with
  | Some b => Some b
  | None => match b64_decode_err cr s with Ok b => Some b | Err _ => None end
  end.

Definition decode_jwt_secret (raw : string) : result bytes ConfigError :=
  match hex_or_base64 (trim raw) with
  | None => Err (Invalid "JWT_ED25519_SECRET" "expected 32 bytes as hex or base64")
  | Some b => array32 "JWT_ED25519_SECRET" "decoded secret must be exactly 32 bytes" b
  end.

Definition parse_jwt_secret : result bytes ConfigError :=
  match env "JWT_ED25519_SECRET" with
  | None => Err (Missing "JWT_ED25519_SECRET")
  | Some raw => decode_jwt_secret raw
  end.

Definition parse_attester_account (raw : string) : result bytes ConfigError :=
  map_err (fun e => Invalid "ATTESTER_ACCOUNT" ("expected an SS58 account: " +:+ e)) (account_from_str cr (trim raw)).

Definition attester_account_from_env : result bytes ConfigError :=
  match env "ATTESTER_ACCOUNT" with
  | None => Err (Missing "ATTESTER_ACCOUNT")
  | Some raw => parse_attester_account raw
  end.

(** [replace(':', ..)] with nothing. *)
Fixpoint remove_char (c : ascii) (s : string) : string :=
  match s with
  | EmptyString => EmptyString
  | String d s' => if Ascii.eqb d c then remove_char c s' else String d (remove_char c s')
  end.

Definition decode_signing_digest (key raw : string) : result (option bytes) ConfigError :=
  let normalized := remove_char ":"%char (to_ascii_lowercase (trim raw)) in
  if String.eqb normalized EmptyString then Ok None
  else
    match hex_decode normalized with
    | None => Err (Invalid key ("expected hex: " +:+ hex_error cr normalized))
    | Some b => let? digest := array32 key "expected a 32-byte SHA-256 fingerprint" b in Ok (Some digest)
    end.

(** An optional variable, decoded when it is set. *)
Definition optional {T : Type} (decode : string -> result (option T) ConfigError) (key : string)
    : result (option T) ConfigError :=
  match env key with None => Ok None | Some raw => decode raw end.

Definition parse_signing_digest (key : string) : result (option bytes) ConfigError :=
  optional (decode_signing_digest key) key.

Definition decode_play_integrity_decryption_key (raw : string) : result (option bytes) ConfigError :=
  let key := "PLAY_INTEGRITY_DECRYPTION_KEY" in
  let trimmed := trim raw in
  if String.eqb trimmed EmptyString then Ok None
  else
    let? b := map_err (fun e => Invalid key ("expected base64: " +:+ e)) (b64_decode_err cr trimmed) in
    let? k := array32 key "expected a 32-byte AES-256 key" b in
    Ok (Some k).

Definition decode_play_integrity_verification_key (raw : string) : result (option bytes) ConfigError :=
  let key := "PLAY_INTEGRITY_VERIFICATION_KEY" in
  let trimmed := trim raw in
  if String.eqb trimmed EmptyString then Ok None
  else
    let? der := map_err (fun e => Invalid key ("expected base64: " +:+ e)) (b64_decode_err cr trimmed) in
    let? _ := map_err (fun e => Invalid key ("expected DER SPKI EC P-256 public key: " +:+ e)) (p256_spki cr der) in
    Ok (Some der).

Record GoogleCredentials := { gc_client_email : string; gc_private_key : string }.

(** [GoogleCredentials::parse], of [auth/play_integrity/google.rs]. *)
Definition GoogleCredentials_parse (raw : string) : result GoogleCredentials string :=
  let trimmed := trim raw in
  let json_bytes := match b64_decode_err cr trimmed with Ok b => b | Err _ => as_bytes trimmed end in
  let? (email, key) := map_err (fun e => "not valid service-account JSON: " +:+ e) (google_account cr json_bytes) in
  if String.eqb email EmptyString || String.eqb key EmptyString then Err "missing client_email or private_key"
  else
    let? _ := map_err (fun e => "private_key is not a usable RSA PEM: " +:+ e) (rsa_pem cr key) in
    Ok {| gc_client_email := email; gc_private_key := key |}.

Definition parse_google_credentials : result (option GoogleCredentials) ConfigError :=
  optional (fun raw =>
    if blank raw then Ok None
    else let? c := map_err (Invalid "GOOGLE_CREDENTIALS") (GoogleCredentials_parse raw) in Ok (Some c))
    "GOOGLE_CREDENTIALS".

Record DeviceCheckConfig := { dcc_team_id : string; dcc_key_id : string; dcc_private_key_pem : string; dcc_base_url : string }.

(** [replace] of a backslash and an [n] by a line feed. *)
Fixpoint unescape_newlines (s : string) : string :=
  match s with
  | String "\" (String "n" s') => String "010" (unescape_newlines s')
  | String c s' => String c (unescape_newlines s')
  | EmptyString => EmptyString
  end.

Definition validate_device_check_pem (raw : string) : result string ConfigError :=
  let pem := unescape_newlines raw in
  let? _ := map_err (fun e => Invalid "DEVICE_CHECK_PRIVATE_KEY" ("not a usable EC private key PEM: " +:+ e)) (ec_pem cr pem) in
  Ok pem.

(** The closure [require]: trimmed, and not empty. *)
Definition require (key : string) : result string ConfigError :=
  match env key with
  | Some v => if blank v then Err (Missing key) else Ok (trim v)
  | None => Err (Missing key)
  end.

Definition trim_end_slash (s : string) : string :=
  let r := String.rev s in String.rev (Turn.trim_start_matches (String.length r) "/" r).

Definition parse_device_check : result (option DeviceCheckConfig) ConfigError :=
  let? enabled := env_bool "DEVICE_CHECK_IOS_ENABLED" false in
  if negb enabled then Ok None
  else
    let? raw := require "DEVICE_CHECK_PRIVATE_KEY" in
    let? pem := validate_device_check_pem raw in
    let? team_id := require "APPLE_TEAM_ID" in
    let? key_id := require "DEVICE_CHECK_KEY_ID" in
    Ok (Some {| dcc_team_id := team_id; dcc_key_id := key_id; dcc_private_key_pem := pem;
                dcc_base_url := match env "DEVICE_CHECK_URL" with
                                | Some v => trim_end_slash (trim v)
                                | None => "https://api.devicecheck.apple.com/v1"
                                end |}).

Record WidevineConfig := { wv_enforce : bool; wv_hmac_key : bytes }.

Definition decode_widevine_hmac_key (raw : string) : result bytes ConfigError :=
  match hex_or_base64 raw with
  | None => Err (Invalid "WIDEVINE_DEDUP_HMAC_KEY" "expected hex or base64")
  | Some b => array32 "WIDEVINE_DEDUP_HMAC_KEY" "key must be exactly 32 bytes" b
  end.

Definition parse_widevine : result (option WidevineConfig) ConfigError :=
  let? enabled := env_bool "WIDEVINE_DEDUP_ENABLED" false in
  if negb enabled then Ok None
  else
    let? raw := require "WIDEVINE_DEDUP_HMAC_KEY" in
    let? enforce := env_bool "WIDEVINE_DEDUP_ENFORCE" false in
    let? key := decode_widevine_hmac_key raw in
    Ok (Some {| wv_enforce := enforce; wv_hmac_key := key |}).

(** [Config]; what the handlers of the model read is kept as they take it. *)
Record AttestationConfig := {
  ac_bind_addr : SocketAddr cr; ac_database_url : string; ac_jwt_secret : bytes; ac_jwt_issuer : string;
  ac_people_rpc_url : string; ac_attester_account : bytes; ac_challenge_ttl : Z;
  ac_auth_rate_limit : Z; ac_auth_rate_window : Z; ac_auth : Auth.AuthConfig;
  ac_queue_enabled : bool; ac_registration_vouchers_enabled : bool;
  ac_dotns_intake_freshness_max_age_secs : Z; ac_dotns_max_future_skew_secs : Z;
  ac_android_crl_url : string; ac_android_crl_cache_ttl : Z; ac_android_crl_max_stale : Z;
  ac_google_credentials : option GoogleCredentials; ac_device_check : option DeviceCheckConfig;
  ac_widevine : option WidevineConfig }.

Definition attestation_mode (c : AttestationConfig) : string :=
  match Auth.auth_enabled (ac_auth c), Auth.enforce_auth (ac_auth c) with
  | false, _ => "disabled (attestation is a no-op; JWT still issued)"
  | true, false => "soft (verdicts logged, not enforced)"
  | true, true => "hard (bad or missing attestation rejected)"
  end.

Definition require_that (b : bool) (key : string) : result unit ConfigError :=
  if b then Ok tt else Err (Missing key).

Definition is_none {T : Type} (o : option T) : bool := match o with None => true | Some _ => false end.

Definition AttestationConfig_from_env : result AttestationConfig ConfigError :=
  let? bind_addr := parse_var (addr_from_str cr) "BIND_ADDR" "0.0.0.0:8080" in
  let? database_url := required env "DEVICE_ATTESTATION_DATABASE_URL" in
  let? jwt_secret := parse_jwt_secret in
  let? auth_enabled := env_bool "AUTH_ENABLED" false in
  let app_ids := env_list "APPLE_APP_ATTEST_APP_IDS" in
  let ios := env_list "IOS_PACKAGE_NAMES" in
  let android := env_list "ANDROID_PACKAGE_NAMES" in
  let? playstore := parse_signing_digest "ANDROID_SIGNING_DIGEST_PLAYSTORE" in
  let? website := parse_signing_digest "ANDROID_SIGNING_DIGEST_WEBSITE" in
  let? decryption := optional decode_play_integrity_decryption_key "PLAY_INTEGRITY_DECRYPTION_KEY" in
  let? verification := optional decode_play_integrity_verification_key "PLAY_INTEGRITY_VERIFICATION_KEY" in
  let? _ :=
    if negb (Bool.eqb (is_none decryption) (is_none verification)) then
      Err (Invalid "PLAY_INTEGRITY_DECRYPTION_KEY"
        ("PLAY_INTEGRITY_DECRYPTION_KEY and PLAY_INTEGRITY_VERIFICATION_KEY " +:+ "must be set together"))
    else Ok tt in
  let? _ := require_that (negb (auth_enabled && bool_decide (app_ids = []))) "APPLE_APP_ATTEST_APP_IDS" in
  let? _ := require_that (negb (auth_enabled && bool_decide (ios = []))) "IOS_PACKAGE_NAMES" in
  let? _ := require_that (negb (auth_enabled && bool_decide (android = []))) "ANDROID_PACKAGE_NAMES" in
  let? _ := require_that (negb (auth_enabled && is_none playstore)) "ANDROID_SIGNING_DIGEST_PLAYSTORE" in
  let? _ := require_that (negb (auth_enabled && is_none website)) "ANDROID_SIGNING_DIGEST_WEBSITE" in
  let? enforce_auth := env_bool "ENFORCE_AUTH" false in
  let? _ := parse_widevine in
  let? attester := attester_account_from_env in
  let? access_ttl := parse_var (parse_uint U64_MAX) "ACCESS_TOKEN_TTL_SECS" "86400" in
  let? refresh_ttl := parse_var (parse_uint U64_MAX) "REFRESH_TOKEN_TTL_SECS" "2592000" in
  let? challenge_ttl := parse_var (parse_uint U64_MAX) "CHALLENGE_TTL_SECS" "300" in
  let? rate_limit := parse_var (parse_uint U32_MAX) "AUTH_RATE_LIMIT" "30" in
  let? rate_window := parse_var (parse_uint U64_MAX) "AUTH_RATE_WINDOW_SECS" "60" in
  let? queue_enabled := env_bool "QUEUE_ENABLED" false in
  let? vouchers := env_bool "REGISTRATION_VOUCHERS_ENABLED" false in
  let? freshness := parse_var (parse_uint U32_MAX) "DOTNS_INTAKE_FRESHNESS_MAX_AGE_SECS" "600" in
  let? skew := parse_var (parse_uint U32_MAX) "DOTNS_MAX_FUTURE_SKEW_SECS" "30" in
  let? cache_ttl := parse_var (parse_uint U64_MAX) "ANDROID_ATTESTATION_CRL_CACHE_TTL_SECS" "3600" in
  let? max_stale := parse_var (parse_uint U64_MAX) "ANDROID_ATTESTATION_CRL_MAX_STALE_SECS" "3600" in
  let? mode := parse_var PlayIntegrity.mode_from_str "PLAY_INTEGRITY_MODE" "strict" in
  let? google := parse_google_credentials in
  let? device_check := parse_device_check in
  let? widevine := parse_widevine in
  Ok {| ac_bind_addr := bind_addr; ac_database_url := database_url; ac_jwt_secret := jwt_secret;
        ac_jwt_issuer := default "polkadot-app" (env "JWT_ISSUER");
        ac_people_rpc_url := default "wss://paseo-people-next-system-rpc.polkadot.io" (env "PEOPLE_RPC_URL");
        ac_attester_account := attester; ac_challenge_ttl := challenge_ttl;
        ac_auth_rate_limit := rate_limit; ac_auth_rate_window := rate_window;
        ac_auth := {| Auth.auth_enabled := auth_enabled; Auth.enforce_auth := enforce_auth;
                      Auth.access_ttl := access_ttl; Auth.refresh_ttl := refresh_ttl;
                      Auth.ios_package_names := ios; Auth.apple_app_attest_app_ids := app_ids;
                      Auth.android_package_names := android;
                      Auth.android_signing_digest_playstore := playstore;
                      Auth.android_signing_digest_website := website;
                      Auth.play_integrity_mode := mode;
                      Auth.play_integrity_decryption_key := decryption;
                      Auth.play_integrity_verification_key := verification |};
        ac_queue_enabled := queue_enabled; ac_registration_vouchers_enabled := vouchers;
        ac_dotns_intake_freshness_max_age_secs := freshness; ac_dotns_max_future_skew_secs := skew;
        ac_android_crl_url := default "https://android.googleapis.com/attestation/status"
                                (env "ANDROID_ATTESTATION_CRL_URL");
        ac_android_crl_cache_ttl := cache_ttl; ac_android_crl_max_stale := max_stale;
        ac_google_credentials := google; ac_device_check := device_check; ac_widevine := widevine |}.

(** ** The advancer's and the writer's configurations ([queue.rs], [chain/writer.rs]) *)

Definition env_u64_strict (key : string) (default_ : Z) : result Z string :=
  match env key with
  | None => Ok default_
  | Some raw =>
      map_err (fun e => key +:+ " is invalid (" +:+ debug_str raw +:+ "): " +:+ e) (parse_uint U64_MAX (trim raw))
  end.

(** Durations of whole seconds; a third of one is in nanoseconds. *)
Definition validate_cadence (interval lease_ttl : Z) : result unit string :=
  if interval <? 1 then Err "QUEUE_ADVANCE_INTERVAL_SECS must be at least 1"
  else if interval * 1000000000 + lease_ttl * 1000000000 / 3 <? lease_ttl * 1000000000 then Ok tt
  else
    Err ("QUEUE_LEASE_TTL_SECS (" +:+ decimal lease_ttl +:+ ") must exceed QUEUE_ADVANCE_INTERVAL_SECS ("
      +:+ decimal interval +:+ ") by more than one renewal period (ttl/3 = "
      +:+ decimal (lease_ttl * 1000000000 / 3 / 1000000000)
      +:+ "s): the un-renewed gap between iterations can reach interval + ttl/3, and a lease that expires there makes a "
      +:+ "healthy advancer look dead every iteration").

Record AdvancerConfig := {
  qc_database_url : string; qc_people_rpc_url : string; qc_interval : Z; qc_lease_ttl : Z; qc_holder_id : string }.

(** A holder id from the environment, or one of this boot. *)
Definition holder_id (key prefix : string) : string :=
  match env key with
  | Some value => if blank value then prefix +:+ holder_suffix cr else value
  | None => prefix +:+ holder_suffix cr
  end.

Definition AdvancerConfig_from_env : result AdvancerConfig string :=
  let? database_url := map_err ConfigError_to_string (required_var "DEVICE_ATTESTATION_DATABASE_URL") in
  let? interval := env_u64_strict "QUEUE_ADVANCE_INTERVAL_SECS" 6 in
  let? lease_ttl := env_u64_strict "QUEUE_LEASE_TTL_SECS" 30 in
  let? _ := validate_cadence interval lease_ttl in
  Ok {| qc_database_url := database_url;
        qc_people_rpc_url := default "wss://paseo-people-next-system-rpc.polkadot.io" (env "PEOPLE_RPC_URL");
        qc_interval := interval; qc_lease_ttl := lease_ttl; qc_holder_id := holder_id "QUEUE_HOLDER_ID" "queue-" |}.

Definition strict (key : string) (default_ : Z) : result Z ConfigError :=
  map_err (Invalid key) (env_u64_strict key default_).

(** [env_u64], [env_u16]: the default also for what does not parse. *)
Definition env_lenient (max : Z) (key : string) (default_ : Z) : Z :=
  default default_ (raw ← env key; parse_unsigned max raw).

(** [as i32]. *)
Definition as_i32 (n : Z) : Z := (n + 2 ^ 31) mod 2 ^ 32 - 2 ^ 31.

(** The configuration of the process, and the part its model reads. *)
Record WriterEnv := {
  we_database_url : string; we_people_rpc_url : string; we_signer_suri : string; we_poll_interval : Z;
  we_finalize_timeout : Z; we_allowance_floor : Z; we_signer_balance_floor_planck : Z;
  we_asset_hub_rpc_url : string; we_writer : Writer.WriterConfig }.

Definition WriterConfig_from_env : result WriterEnv ConfigError :=
  let? database_url := required_var "DEVICE_ATTESTATION_DATABASE_URL" in
  let? signer_suri := required_var "CHAIN_WRITER_SIGNER_SURI" in
  let? attester := attester_account_from_env in
  let? queue_enabled := env_bool "QUEUE_ENABLED" false in
  let? fallback := strict "QUEUE_FALLBACK_AFTER_SECS" 60 in
  let? poll := strict "ATTESTER_RESOURCE_POLL_SECS" 60 in
  let? floor := strict "ATTESTER_ALLOWANCE_FLOOR" 100 in
  let? floor := if floor <=? U32_MAX then Ok floor else Err (Invalid "ATTESTER_ALLOWANCE_FLOOR" "must fit a u32") in
  let? balance := strict "ATTESTER_SIGNER_BALANCE_FLOOR_PLANCK" 10000000000 in
  let? asset_hub := required_var "ASSET_HUB_RPC_URL" in
  Ok {| we_database_url := database_url;
        we_people_rpc_url := default "wss://paseo-people-next-system-rpc.polkadot.io" (env "PEOPLE_RPC_URL");
        we_signer_suri := signer_suri; we_poll_interval := env_lenient U64_MAX "CHAIN_WRITER_POLL_SECS" 2;
        we_finalize_timeout := env_lenient U64_MAX "CHAIN_WRITER_FINALIZE_SECS" 120;
        we_allowance_floor := floor; we_signer_balance_floor_planck := balance; we_asset_hub_rpc_url := asset_hub;
        we_writer :=
          {| Writer.wc_holder_id := holder_id "CHAIN_WRITER_HOLDER_ID" "writer-";
             Writer.wc_lease_name := default "people-chain-writer" (env "CHAIN_WRITER_LEASE_NAME");
             Writer.wc_lease_ttl := env_lenient U64_MAX "CHAIN_WRITER_LEASE_TTL_SECS" 30;
             Writer.wc_attester := attester;
             Writer.wc_max_attempts := as_i32 (env_lenient U64_MAX "CHAIN_WRITER_MAX_ATTEMPTS" 8);
             Writer.wc_batch_size := env_lenient U16_MAX "CHAIN_WRITER_BATCH_SIZE" Writer.DEFAULT_BATCH_SIZE;
             Writer.wc_dotns_batch_size :=
               env_lenient U16_MAX "CHAIN_WRITER_DOTNS_BATCH_SIZE" Writer.DEFAULT_DOTNS_BATCH_SIZE;
             Writer.wc_queue_enabled := queue_enabled; Writer.wc_queue_fallback_after := fallback;
             Writer.wc_resource_poll_interval := poll |} |}.

(** ** The limiters the processes build from them *)

(** [RateLimiter::new(..).expect(..)] of each role. *)
Definition build_limiter `{governor : Limiter.Governor} (burst window : Z) : Limiter.Built :=
  Limiter.new true (Limiter.set_window_secs window (Limiter.set_max_burst burst Limiter.Config_default)).
End config.
End Config.
