(* ===== verification/ConfigProps.v ===== *)
(** * ConfigProps: a process that starts is configured to fail closed *)

From stdpp Require Import gmap.
From S2P Require Import Prelude Strings Text Limiter PlayIntegrity Auth.
From S2P Require Import Writer Tickets Turn TurnProps Notify Config.

#[local] Open Scope string_scope.
#[local] Open Scope Z_scope.

Module ConfigProps.
Import Config.

(** Split a configuration that was read into its steps. *)
Ltac steps H :=
  repeat match type of H with
  | rbind _ _ = Ok _ => apply rbind_ok in H as (? & ? & H)
  | (let '(_, _) := ?x in _) = Ok _ => destruct x
  end.

Section props.
Context (cr : ConfigCrates) (env : Env).

(** A switch that is off by default is [b]: the variable is one of the accepted words,
    and says so, or it is absent and [b] is off. *)
Definition switch (key : string) (b : bool) : Prop :=
  match env key with Some raw => parse_bool (trim raw) = Some b | None => b = false end.

Lemma env_bool_ok key b : env_bool env key false = Ok b -> switch key b.
Proof.
  unfold env_bool, switch. destruct (env key) as [raw|]; [|by intros [= ->]].
  destruct (parse_bool (trim raw)) as [v|]; [|done]. by intros [= ->].
Qed.

Lemma array32_ok key reason b c : array32 key reason b = Ok c -> c = b /\ length c = 32%nat.
Proof. unfold array32. destruct (Nat.eqb_spec (length b) 32); [|done]. by intros [= <-]. Qed.

Lemma jwt_secret_ok s : parse_jwt_secret cr env = Ok s -> length s = 32%nat.
Proof.
  unfold parse_jwt_secret, decode_jwt_secret. destruct (env _); [|done].
  destruct (hex_or_base64 _ _); [|done]. by intros [_ ?]%array32_ok.
Qed.

Lemma signing_digest_ok key d : parse_signing_digest cr env key = Ok (Some d) -> length d = 32%nat.
Proof.
  unfold parse_signing_digest, optional, decode_signing_digest. destruct (env key); [|done].
  destruct (String.eqb _ _); [done|]. destruct (hex_decode _); [|done].
  intros (x & [_ Hx]%array32_ok & [= <-])%rbind_ok. done.
Qed.

Lemma require_ok key v : require env key = Ok v -> v <> EmptyString.
Proof.
  unfold require, blank. destruct (env key) as [raw|]; [|done]. destruct (String.eqb_spec (trim raw) EmptyString); [done|].
  by intros [= <-].
Qed.

Lemma widevine_ok w :
  parse_widevine cr env = Ok w ->
  switch "WIDEVINE_DEDUP_ENABLED" (bool_decide (is_Some w)) /\
  forall c, w = Some c -> length (wv_hmac_key c) = 32%nat /\ switch "WIDEVINE_DEDUP_ENFORCE" (wv_enforce c).
Proof.
  intros (enabled & He%env_bool_ok & H)%rbind_ok. destruct enabled; cbn [negb] in H.
  2:{ injection H as <-. split; [by rewrite bool_decide_eq_false_2 by by intros [? ?]|done]. }
  steps H. injection H as <-. split; [by rewrite bool_decide_eq_true_2 by by eexists|]. intros c [= <-]. simpl.
  match goal with H : env_bool _ "WIDEVINE_DEDUP_ENFORCE" _ = _ |- _ => apply env_bool_ok in H end.
  match goal with H : decode_widevine_hmac_key _ _ = _ |- _ => revert H end.
  unfold decode_widevine_hmac_key. destruct (hex_or_base64 _ _); [|done]. by intros [_ ?]%array32_ok.
Qed.

Lemma device_check_ok d :
  parse_device_check cr env = Ok d ->
  switch "DEVICE_CHECK_IOS_ENABLED" (bool_decide (is_Some d)) /\
  forall c, d = Some c -> dcc_team_id c <> EmptyString /\ dcc_key_id c <> EmptyString /\
    ec_pem cr (dcc_private_key_pem c) = Ok tt.
Proof.
  intros (enabled & He%env_bool_ok & H)%rbind_ok. destruct enabled; cbn [negb] in H.
  2:{ injection H as <-. split; [by rewrite bool_decide_eq_false_2 by by intros [? ?]|done]. }
  steps H. injection H as <-. split; [by rewrite bool_decide_eq_true_2 by by eexists|]. intros c [= <-]. simpl.
  match goal with H : validate_device_check_pem _ _ = _ |- _ =>
    unfold validate_device_check_pem in H; steps H; injection H as <- end.
  match goal with H : map_err _ (ec_pem cr _) = Ok ?u |- _ => apply map_err_ok in H; destruct u end.
  repeat match goal with H : require _ _ = Ok _ |- _ => apply require_ok in H end. done.
Qed.

Lemma require_that_ok b key u : require_that b key = Ok u <-> b = true.
Proof. unfold require_that. destruct b, u; done. Qed.

(** What a running attestation API was configured with. *)
Record closed (c : AttestationConfig cr) : Prop := {
  cl_secret : length (ac_jwt_secret cr c) = 32%nat;
  cl_attester : is_Some (env "ATTESTER_ACCOUNT");
  cl_auth : Auth.auth_enabled (ac_auth cr c) = true ->
    Auth.apple_app_attest_app_ids (ac_auth cr c) <> [] /\ Auth.ios_package_names (ac_auth cr c) <> [] /\
    Auth.android_package_names (ac_auth cr c) <> [] /\
    (exists d, Auth.android_signing_digest_playstore (ac_auth cr c) = Some d /\ length d = 32%nat) /\
    (exists d, Auth.android_signing_digest_website (ac_auth cr c) = Some d /\ length d = 32%nat);
  cl_pair : is_Some (Auth.play_integrity_decryption_key (ac_auth cr c)) <->
            is_Some (Auth.play_integrity_verification_key (ac_auth cr c));
  cl_widevine : forall w, ac_widevine cr c = Some w ->
    length (wv_hmac_key w) = 32%nat /\ switch "WIDEVINE_DEDUP_ENFORCE" (wv_enforce w);
  cl_device_check : forall d, ac_device_check cr c = Some d ->
    dcc_team_id d <> EmptyString /\ dcc_key_id d <> EmptyString /\ ec_pem cr (dcc_private_key_pem d) = Ok tt;
  cl_auth_enabled : switch "AUTH_ENABLED" (Auth.auth_enabled (ac_auth cr c));
  cl_enforce_auth : switch "ENFORCE_AUTH" (Auth.enforce_auth (ac_auth cr c));
  cl_queue : switch "QUEUE_ENABLED" (ac_queue_enabled cr c);
  cl_vouchers : switch "REGISTRATION_VOUCHERS_ENABLED" (ac_registration_vouchers_enabled cr c);
  cl_widevine_gate : switch "WIDEVINE_DEDUP_ENABLED" (bool_decide (is_Some (ac_widevine cr c)));
  cl_device_check_gate : switch "DEVICE_CHECK_IOS_ENABLED" (bool_decide (is_Some (ac_device_check cr c))) }.

Lemma is_none_is_Some {T} (o : option T) : is_none o = false <-> is_Some o.
Proof. destruct o; split; intros; try done; by destruct H. Qed.

Lemma auth_lists auth (ids ios android : list string) (play web : option bytes) :
  negb (auth && bool_decide (ids = [])) = true -> negb (auth && bool_decide (ios = [])) = true ->
  negb (auth && bool_decide (android = [])) = true -> negb (auth && is_none play) = true ->
  negb (auth && is_none web) = true ->
  (forall d, play = Some d -> length d = 32%nat) -> (forall d, web = Some d -> length d = 32%nat) ->
  auth = true ->
  ids <> [] /\ ios <> [] /\ android <> [] /\ (exists d, play = Some d /\ length d = 32%nat) /\
  (exists d, web = Some d /\ length d = 32%nat).
Proof.
  intros H1 H2 H3 H4 H5 Hp Hw ->. cbn [andb] in *. bool_prop.
  destruct play as [p|], web as [w|]; try done. split_and!; eauto.
Qed.

(** C36. A process that starts fails closed: the signing seed is 32 bytes and the
    attester named; with attestation on, both platforms' allow-lists are non-empty
    and both signing digests are there; the Play Integrity keys come as a pair; the
    Widevine key is 32 bytes and the DeviceCheck key usable when those gates are on; and
    every switch has the value its variable spells, off when it is absent: the four of
    the service, the two that turn the gates on, and, when the Widevine gate is on, its
    enforcement.  So a value that is not a boolean aborts the start, for these; with the
    Widevine gate off, [WIDEVINE_DEDUP_ENFORCE] is not read at all. *)
Theorem attestation_config_closed c : AttestationConfig_from_env cr env = Ok c -> closed c.
Proof.
  unfold AttestationConfig_from_env. intros H. steps H. injection H as <-.
  repeat match goal with
  | H : require_that _ _ = Ok _ |- _ => apply require_that_ok in H
  | H : env_bool _ _ _ = Ok _ |- _ => apply env_bool_ok in H
  | H : parse_jwt_secret _ _ = Ok _ |- _ => apply jwt_secret_ok in H
  | H : parse_widevine _ _ = Ok _ |- _ => apply widevine_ok in H as [? ?]
  | H : parse_device_check _ _ = Ok _ |- _ => apply device_check_ok in H as [? ?]
  end.
  split; cbn.
  - done.
  - match goal with H : attester_account_from_env _ _ = _ |- _ => revert H end.
    unfold attester_account_from_env. destruct (env "ATTESTER_ACCOUNT"); [by eexists|done].
  - apply auth_lists; try done; intros d ->; by eapply signing_digest_ok.
  - match goal with H : (if negb (Bool.eqb _ _) then _ else _) = Ok _ |- _ => apply if_err_ok in H as [H _] end.
    bool_prop. match goal with H : Bool.eqb _ _ = true |- _ => apply Bool.eqb_prop in H as Hb end.
    rewrite <- !is_none_is_Some, Hb. done.
  - assumption.
  - assumption.
  - assumption.
  - assumption.
  - assumption.
  - assumption.
  - assumption.
  - assumption.
Qed.
(** ** The limiters the processes build *)

Context `{governor : Limiter.Governor}.

(** What building a limiter from a validated rate comes to. *)
Definition builds (limit window : Z) : Prop :=
  1 <= limit <= U32_MAX /\ 1 <= window <= U64_MAX /\
  match build_limiter limit window with
  | Limiter.BuiltOk l => Limiter.burst (Limiter.l_quota l) = limit /\ 1 <= Limiter.period (Limiter.l_quota l)
  | Limiter.BuildFailed _ => False
  | Limiter.BuildPanicked => window * 1000000000 < limit \/ 18446744073 < window
  end.

Lemma parse_digits_range max acc s v : 0 <= acc <= max -> parse_digits max acc s = Ok v -> acc <= v <= max.
Proof.
  revert acc. induction s as [|c s IH]; intros acc Ha; simpl; [intros [= <-]; lia|].
  destruct (is_ascii_digit c) eqn:Ed; [|done].
  assert (Hd : 0 <= digit_value c) by (unfold is_ascii_digit in Ed; unfold digit_value; bool_prop; lia).
  destruct (_ <=? max) eqn:El; [|done]. bool_prop. intros H. apply IH in H; lia.
Qed.

Lemma parse_uint_range max s v : 0 <= max -> parse_uint max s = Ok v -> 0 <= v <= max.
Proof.
  intros Hm. unfold parse_uint. destruct s as [|c s]; [done|].
  destruct (Ascii.eqb c "+"); [destruct s; [done|]|]; intros H; apply parse_digits_range in H; lia.
Qed.

Lemma parse_var_range max key d v :
  0 <= max -> parse_var env (parse_uint max) key d = Ok v -> 0 <= v <= max.
Proof. intros Hm H. apply map_err_ok in H. by eapply parse_uint_range. Qed.

Lemma positive_ok key v w : positive key v = Ok w <-> v <> 0 /\ w = v.
Proof. unfold positive. destruct (v =? 0) eqn:E; bool_prop; naive_solver. Qed.

Lemma builds_validated limit window :
  1 <= limit <= U32_MAX -> 1 <= window <= U64_MAX -> builds limit window.
Proof.
  intros Hl Hw. unfold builds, build_limiter, Limiter.new, Limiter.as_u64. cbn [negb Limiter.max_burst Limiter.window_secs
    Limiter.set_window_secs Limiter.set_max_burst].
  destruct (limit =? 0) eqn:E; bool_prop; [lia|]. (split; [done|]); (split; [done|]).
  pose proof (Z.mod_pos_bound (window * 1000000000 / limit) (2 ^ 64) eq_refl) as Hm.
  destruct (_ mod _ =? 0) eqn:Ep; bool_prop; [|cbn [Limiter.l_quota Limiter.burst Limiter.period]; split; [done|lia]].
  destruct (decide (window * 1000000000 < limit)) as [|Hn]; [by left|]. right.
  destruct (decide (18446744073 < window)) as [|Hs]; [done|].
  assert (1 <= window * 1000000000 / limit) by (apply Z.div_le_lower_bound; lia).
  assert (window * 1000000000 / limit <= window * 1000000000).
  { apply Z.div_le_upper_bound; [lia|]. nia. }
  rewrite Z.mod_small in Ep by lia. lia.
Qed.

Lemma rate_vars_ok l ld w wd limit window :
  rate_vars env l ld w wd = Ok (limit, window) -> builds limit window.
Proof.
  intros H. unfold rate_vars in H. steps H. injection H as -> ->.
  repeat match goal with
  | H : positive _ _ = Ok _ |- _ => apply positive_ok in H as [? ->]
  | H : parse_var _ _ _ _ = Ok _ |- _ => apply parse_var_range in H; [|done]
  end. apply builds_validated; lia.
Qed.

(** The four services that validate their rate (tickets, indexer, relay, TURN)
    build their limiter from what they read: it never reports a bad setting, it has
    the configured burst, and it can only panic for a burst beyond one request per
    nanosecond of the window or a window beyond 584 years. *)
Theorem validated_rates_build turn :
  (forall c, TurnConfig_from_env cr env turn = Ok c -> builds (tc_rate_limit cr c) (tc_rate_window cr c)) /\
  (forall c, TicketConfig_from_env cr env = Ok c -> builds (kc_rate_limit cr c) (kc_rate_window cr c)) /\
  (forall c, NotifyConfig_from_env cr env = Ok c -> builds (nc_rate_limit cr c) (nc_rate_window cr c)) /\
  (forall get c, IndexerConfig_from_getter cr get = Ok c ->
     builds (ic_search_rate_limit cr c) (ic_search_rate_limit_window_secs cr c)).
Proof.
  split_and!.
  - intros c H. unfold TurnConfig_from_env in H. steps H. injection H as <-. by eapply rate_vars_ok.
  - intros c H. unfold TicketConfig_from_env in H. steps H. injection H as <-. by eapply rate_vars_ok.
  - intros c H. unfold NotifyConfig_from_env in H. steps H. injection H as <-. by eapply rate_vars_ok.
  - intros get c H. unfold IndexerConfig_from_getter in H. steps H. injection H as <-. cbn.
    repeat match goal with
    | H : positive _ _ = Ok _ |- _ => apply positive_ok in H as [? ->]
    | H : parse_get get U32_MAX _ _ = Ok _ |- _ => apply map_err_ok in H; apply parse_uint_range in H; [|done]
    end. apply builds_validated; unfold U32_MAX, U64_MAX in *; lia.
Qed.
End props.

(** ** Concrete instances *)

Module Demo.
Import Limiter.Gcra.

Definition demo : ConfigCrates :=
  {| SocketAddr := string; addr_from_str := Ok; Verifier := unit; from_jwks := fun _ => Ok tt;
     from_public_key := fun _ => Ok tt; b64_decode_err := fun s => Ok (as_bytes s); hex_error := fun s => s;
     account_from_str := fun s => Ok (as_bytes s); p256_spki := fun _ => Ok tt; ec_pem := fun _ => Ok tt;
     rsa_pem := fun _ => Ok tt; google_account := fun _ => Ok ("e", "k"); fcm_account := fun s => Ok (s, s, s);
     available_parallelism := Some 4; holder_suffix := "1-00000000" |}.

Definition hex32_text : string := "0123456789abcdef0123456789abcdef0123456789abcdef0123456789abcdef".

Definition lookup_env (l : list (string * string)) : Env :=
  fun key => first_some (fun kv : string * string => if String.eqb kv.1 key then Some kv.2 else None) l.

Definition hard_env : Env := lookup_env
  [("DEVICE_ATTESTATION_DATABASE_URL", "postgres://"); ("JWT_ED25519_SECRET", hex32_text); ("ATTESTER_ACCOUNT", "5Grw");
   ("AUTH_ENABLED", "true"); ("ENFORCE_AUTH", "on"); ("APPLE_APP_ATTEST_APP_IDS", "T.a"); ("IOS_PACKAGE_NAMES", "a");
   ("ANDROID_PACKAGE_NAMES", "b, c"); ("ANDROID_SIGNING_DIGEST_PLAYSTORE", hex32_text);
   ("ANDROID_SIGNING_DIGEST_WEBSITE", hex32_text)].

Lemma attestation_config_closed_witness :
  exists c, AttestationConfig_from_env demo hard_env = Ok c /\ Auth.auth_enabled (ac_auth demo c) = true /\
    closed demo hard_env c.
Proof.
  assert (H : exists c, AttestationConfig_from_env demo hard_env = Ok c /\ Auth.auth_enabled (ac_auth demo c) = true).
  { eexists. split; [vm_compute; reflexivity|done]. }
  destruct H as (c & H1 & H2). exists c. split; [done|]. split; [done|].
  exact (attestation_config_closed demo hard_env c H1).
Defined.

(** With the gate on, a misspelt enforcement aborts the start; with it off, it is not
    read. *)
Definition widevine_env (enabled enforce : string) : Env := fun key =>
  if String.eqb key "WIDEVINE_DEDUP_ENABLED" then Some enabled
  else if String.eqb key "WIDEVINE_DEDUP_ENFORCE" then Some enforce
  else if String.eqb key "WIDEVINE_DEDUP_HMAC_KEY" then Some hex32_text
  else hard_env key.

Example enforce_read_with_gate :
  is_ok (AttestationConfig_from_env demo (widevine_env "true" "treu")) = false /\
  is_ok (AttestationConfig_from_env demo (widevine_env "true" "true")) = true /\
  is_ok (AttestationConfig_from_env demo (widevine_env "false" "treu")) = true.
Proof. vm_compute. done. Qed.

Definition relay_env : Env := lookup_env [("JWT_JWKS_JSON", "keys"); ("NOTIFY_RATE_LIMIT", "5")].

Lemma validated_rates_build_witness :
  exists c, NotifyConfig_from_env demo relay_env = Ok c /\ nc_rate_limit demo c = 5 /\
    builds (nc_rate_limit demo c) (nc_rate_window demo c).
Proof.
  assert (H : exists c, NotifyConfig_from_env demo relay_env = Ok c /\ nc_rate_limit demo c = 5).
  { eexists. split; [vm_compute; reflexivity|done]. }
  destruct H as (c & H1 & H2). exists c. split; [done|]. split; [done|].
  exact (proj1 (proj2 (proj2 (validated_rates_build demo relay_env TurnProps.Demo.demo))) c H1).
Defined.

(** The attestation API does not validate its rate: the setting [AUTH_RATE_LIMIT=0]
    is accepted when the configuration is read, and the limiter then refuses it, which
    the construction of the service turns into a panic. *)
Theorem attestation_rate_unchecked :
  exists (env : Env) c, env "AUTH_RATE_LIMIT" = Some "0" /\ AttestationConfig_from_env demo env = Ok c /\
    exists why, build_limiter (ac_auth_rate_limit demo c) (ac_auth_rate_window demo c) = Limiter.BuildFailed why.
Proof.
  exists (lookup_env [("DEVICE_ATTESTATION_DATABASE_URL", "postgres://"); ("JWT_ED25519_SECRET", hex32_text);
                      ("ATTESTER_ACCOUNT", "5Grw"); ("AUTH_RATE_LIMIT", "0")]).
  eexists. split; [done|]. split; [vm_compute; reflexivity|]. eexists. vm_compute. reflexivity.
Qed.
End Demo.
End ConfigProps.
