(* ===== verification/Google.v ===== *)
(** * Google: the decoder service behind Play Integrity

    The fallback that asks Google to decode an integrity token
    ([auth/play_integrity/google.rs]): the access token of a service account, with its
    cache, and the call.  Signing, JSON and the answers are parameters, as for the
    push services. *)

From stdpp Require Import gmap.
From S2P Require Import Prelude Strings Text DeviceGate PlayIntegrity Notify Config.

#[local] Open Scope string_scope.
#[local] Open Scope Z_scope.

Module Google.

Definition PLAY_INTEGRITY_SCOPE : string := "https://www.googleapis.com/auth/playintegrity".

Record GoogleCrates := {
  g_rs256 : string -> string -> string -> string -> Z -> Z -> result string string;
  g_json : string -> option Json;
  g_decode_token : string -> result (string * Z) string;
  (** serde's decoding of the answer: the payload, when the field is there. *)
  decode_response : string -> result (option PlayIntegrity.TokenPayload) string }.

Record CachedToken := { ct_token : string; ct_expires_at : Z }.

Record GoogleDecoder := { gd_credentials : Config.GoogleCredentials; gd_token : option CachedToken }.

(** What a call meets: two readings of the clock, and the answers; a body that could
    not be read is an error. *)
Record GoogleEnv := {
  ge_cached_now : Z; ge_now : Z; ge_exchange : Notify.Answer;
  ge_decode : result (Z * result string string) string }.

Section google.
Context (cr : GoogleCrates) (env : GoogleEnv).
#[local] Open Scope dub_scope.

(** [GoogleDecoder::new]; building the HTTP client is taken to succeed. *)
Definition new (rsa_pem : string -> result unit string) (c : Config.GoogleCredentials) : result GoogleDecoder string :=
  let? _ := map_err (fun e => "google credentials private key: " +:+ e) (rsa_pem (Config.gc_private_key c)) in
  Ok {| gd_credentials := c; gd_token := None |}.

(** Credentials that were read build a decoder, so the [expect] of the service's state
    does not fail. *)
Lemma credentials_build ccr raw c :
  Config.GoogleCredentials_parse ccr raw = Ok c ->
  new (Config.rsa_pem ccr) c = Ok {| gd_credentials := c; gd_token := None |}.
Proof.
  unfold Config.GoogleCredentials_parse. intros ([email key] & _ & H)%rbind_ok.
  destruct (_ || _); [done|]. apply rbind_ok in H as ([] & Hr%map_err_ok & [= <-]). unfold new. cbn [Config.gc_private_key]. by rewrite Hr.
Qed.

Definition cached_token (d : GoogleDecoder) : option string :=
  match gd_token d with
  | Some c => if ge_cached_now env <? ct_expires_at c then Some (ct_token c) else None
  | None => None
  end.

Definition assertion (d : GoogleDecoder) : result string string :=
  map_err (fun e => "assertion: " +:+ e)
    (g_rs256 cr (Config.gc_private_key (gd_credentials d)) (Config.gc_client_email (gd_credentials d))
       PLAY_INTEGRITY_SCOPE Notify.TOKEN_ENDPOINT (ge_now env) (Notify.to_i64 (ge_now env + 3600))).

Definition access_token (d : GoogleDecoder) : result string string * GoogleDecoder :=
  match cached_token d with
  | Some token => (Ok token, d)
  | None =>
      match assertion d with
      | Err e => (Err e, d)
      | Ok _ =>
          match ge_exchange env with
          | Notify.NoAnswer e => (Err ("token exchange failed: " +:+ e), d)
          | Notify.Answered status _ body =>
              if negb (Notify.is_success status) then
                (Err ("token exchange rejected (" +:+ decimal status +:+ "): " +:+ body), d)
              else
                match g_decode_token cr body with
                | Err e => (Err ("token response: " +:+ e), d)
                | Ok (token, expires_in) =>
                    (Ok token,
                     {| gd_credentials := gd_credentials d;
                        gd_token := Some {| ct_token := token;
                          ct_expires_at := Notify.to_i64 (Notify.to_i64 (ge_now env + expires_in) - Notify.TOKEN_REFRESH_BUFFER_SECS) |} |})
                end
          end
      end
  end.

Definition google_error_message (body : string) : string :=
  default "unparseable error body"
    (v ← g_json cr body; error ← json_get "error" v;
     m ← match json_get "message" error with Some m => Some m | None => json_get "status" error end;
     json_as_str m).

Definition parse_decode_response (body : string) : result PlayIntegrity.TokenPayload string :=
  match decode_response cr body with
  | Err e => Err ("decodeIntegrityToken response: " +:+ e)
  | Ok None => Err "decodeIntegrityToken response has no tokenPayloadExternal"
  | Ok (Some p) => Ok p
  end.

(** The request a decoding posts. *)
Definition decode_request (access_token package_name integrity_token : string) : Notify.HttpRequest :=
  {| Notify.h_url := "https://playintegrity.googleapis.com/v1/" +:+ package_name +:+ ":decodeIntegrityToken";
     Notify.h_headers := [("authorization", "Bearer " +:+ access_token)];
     Notify.h_body := Notify.JsonBody (JObject [("integrityToken", JString integrity_token)]) |}.

(** [decode], with the request it sent. *)
Definition decode (package_name integrity_token : string) (d : GoogleDecoder)
    : result PlayIntegrity.TokenPayload string * option Notify.HttpRequest * GoogleDecoder :=
  let '(token, d') := access_token d in
  match token with
  | Err e => (Err e, None, d')
  | Ok token =>
      let sent := Some (decode_request token package_name integrity_token) in
      match ge_decode env with
      | Err e => (Err ("decodeIntegrityToken request failed: " +:+ e), sent, d')
      | Ok (_, Err e) => (Err ("decodeIntegrityToken body: " +:+ e), sent, d')
      | Ok (status, Ok body) =>
          if negb (Notify.is_success status) then
            (Err ("decodeIntegrityToken rejected (" +:+ decimal status +:+ "): " +:+ google_error_message body), sent, d')
          else (parse_decode_response body, sent, d')
      end
  end.

(** The decoder as the token route's handler takes it. *)
Definition as_decoder (d : GoogleDecoder) : string -> string -> result PlayIntegrity.TokenPayload string :=
  fun package_name integrity_token => fst (fst (decode package_name integrity_token d)).

(** A payload is one that Google sent in a successful answer to a request for this
    package and token, authorised by the service account. *)
Lemma decode_ok package_name integrity_token d p sent d' :
  decode package_name integrity_token d = (Ok p, sent, d') ->
  exists token status body,
    fst (access_token d) = Ok token /\ sent = Some (decode_request token package_name integrity_token) /\
    ge_decode env = Ok (status, Ok body) /\ Notify.is_success status = true /\ decode_response cr body = Ok (Some p).
Proof.
  unfold decode. destruct (access_token d) as [[token|e] d1]; [|done].
  destruct (ge_decode env) as [[status [body|e]]|e] eqn:Ed; try done.
  destruct (Notify.is_success status) eqn:Es; cbn [negb]; [|done]. unfold parse_decode_response.
  destruct (decode_response cr body) as [[p'|]|] eqn:Er; try done. intros [= -> <- <-]. by exists token, status, body.
Qed.
End google.
End Google.
