(* ===== verification/WriterRun.v ===== *)
(** * WriterRun: the process over its whole life

    A lane's drain does not harm the other lane, so the guarantees of the two
    drains compose over any number of lease tenures. *)

From S2P Require Import Prelude Strings Schema Lease Outbox Queue DeviceGate WriterLane WriterTx.
From S2P Require Import WriterEngine WriterSpec WriterProps Signature WriterPeople WriterDotns WriterClaims.
From S2P Require Import System Writer.

#[local] Open Scope Z_scope.

Module WriterRun.

Export System Writer.

(** ** One lane beside the other *)

(** Rows change pointwise by [R]. *)
Definition touched (R : Row -> Row -> Prop) (t t' : gmap Z Row) : Prop :=
  forall k, match t !! k with
            | Some r => exists r', t' !! k = Some r' /\ R r r'
            | None => t' !! k = None
            end.

Lemma touched_refl R t : (forall r, R r r) -> touched R t t.
Proof. intros Hr k. destruct (t !! k) as [r|]; eauto. Qed.

Lemma touched_insert (R : Row -> Row -> Prop) t k r f :
  (forall r, R r r) -> (forall r, R r (f r)) -> t !! k = Some r -> touched R t (<[k := f r]> t).
Proof.
  intros Hr Hf Hk j. destruct (decide (j = k)) as [->|Hne].
  - rewrite Hk, lookup_insert_eq. eauto.
  - rewrite lookup_insert_ne by done. destruct (t !! j); eauto.
Qed.

Lemma guarded_update_touched (R : Row -> Row -> Prop) now g rid f db :
  (forall r, R r r) -> (forall r, R r (f r)) -> touched R (rows_of db) (rows_of (guarded_update now g rid f db).2).
Proof.
  intros Hr Hf. unfold guarded_update. destruct (lease_held _ _ _); [|by apply touched_refl].
  destruct (rows_of db !! rid) as [r|] eqn:E; [by apply touched_insert|by apply touched_refl].
Qed.

Lemma landing_txn_touched (R : Row -> Row -> Prop) op now g rid f devs db :
  (forall r, R r r) -> (forall r, R r (f r)) -> (forall d, rows_of (devs d) = rows_of d) ->
  touched R (rows_of db) (rows_of (landing_txn op now g rid f devs db).2).
Proof.
  intros Hr Hf Hd.
  destruct (landing_txn_cases op now g rid f devs db) as [(db' & -> & Heq & _)|(row & Hrow & _ & ->)]; simpl.
  - rewrite <-Heq. by apply touched_refl.
  - rewrite Hd. simpl. by apply touched_insert.
Qed.

(** What the People lane does to the dotNS half, and the dotNS lane to the
    People half. *)
Definition dotns_half_kept (r r' : Row) : Prop :=
  r_dotns_status r' = r_dotns_status r \/
  dotns_open (r_dotns_status r) = true /\ r_dotns_status r' = Some DAbandoned.
Definition people_half_kept (r r' : Row) : Prop := r_status r' = r_status r.

Lemma set_status_dotns_half now st rt e r : dotns_half_kept r (set_status now st rt e r).
Proof.
  unfold dotns_half_kept. simpl. destruct (bool_decide _ && dotns_open _) eqn:E; [|by left].
  apply andb_true_iff in E as [_ E]. by right.
Qed.

Lemma people_mark_touched now g r h n db :
  touched dotns_half_kept (rows_of db) (rows_of (people_mark now g r h n db).2).
Proof. apply guarded_update_touched; by left. Qed.

Lemma people_record_touched now app g r o db :
  touched dotns_half_kept (rows_of db) (rows_of (people_record now app g r o db).2).
Proof.
  assert (forall r, dotns_half_kept r r) as Hr by (by left).
  pose proof set_status_dotns_half as Hs.
  destruct o; cbn [people_record]; rewrite ?people_requeue_snd;
    try (by apply guarded_update_touched); by apply landing_txn_touched.
Qed.

Lemma dotns_mark_touched now g r h n db :
  touched people_half_kept (rows_of db) (rows_of (dotns_mark now g r h n db).2).
Proof. by apply guarded_update_touched. Qed.

Lemma dotns_record_touched now app g r o db :
  touched people_half_kept (rows_of db) (rows_of (dotns_record now app g r o db).2).
Proof.
  rewrite dotns_record_update. apply guarded_update_touched; [done|]. intros row. by destruct o.
Qed.

(** ** Harm *)

Section harm.
Context {W Link Ctx Link2 Ctx2 : Type} `{!World W} (L : Lane W Link Ctx).
Context {L2 : Lane W Link2 Ctx2} {laws2 : LaneLaws W Link2 Ctx2}.

(** No row of the second lane was landed, its final rows stay, and every row keeps
    its claim. *)
Definition unharmed (db db' : Db) : Prop :=
  (forall k, landed_at (LaneLaws0 := laws2) db' k -> landed_at (LaneLaws0 := laws2) db k) /\
  (forall k s, final_at (LaneLaws0 := laws2) db k s -> final_at (LaneLaws0 := laws2) db' k s) /\
  keeps_new db db'.

Lemma unharmed_refl db : unharmed db db.
Proof. done. Qed.
Lemma unharmed_trans a b c : unharmed a b -> unharmed b c -> unharmed a c.
Proof. intros (H1 & H2 & N1) (H3 & H4 & N2). split; [eauto|]. split; [eauto|by etrans]. Qed.

Lemma unharmed_touched (R : Row -> Row -> Prop) db db' :
  (forall r r', R r r' -> lane_final (LaneLaws := laws2) (lane_state r) = true -> lane_state (LaneLaws := laws2) r' = lane_state r) ->
  (forall r r', R r r' -> lane_landed (LaneLaws := laws2) (lane_state r') = true -> lane_landed (LaneLaws := laws2) (lane_state r) = true) ->
  touched R (rows_of db) (rows_of db') -> keeps_new db db' -> unharmed db db'.
Proof.
  intros Hf Hl Ht Hn. split; [|split; [|done]].
  - intros k (r' & Hr' & Hlr). specialize (Ht k). destruct (rows_of db !! k) as [r|] eqn:E; [|congruence].
    destruct Ht as (r'' & Hr'' & HR). simplify_eq. exists r. eauto.
  - intros k s (Hs & r & Hr & <-). specialize (Ht k). rewrite Hr in Ht.
    destruct Ht as (r' & Hr' & HR). split; [done|]. exists r'. eauto.
Qed.

Lemma benign_unharmed now db db' :
  lane_respects (LaneLaws0 := laws2) -> benign now db db' -> unharmed db db'.
Proof.
  intros (Hfin & _ & Hland & Hnew) [[A B] _]. split; [|split].
  - intros k (r' & Hr' & Hl). destruct (rows_of db !! k) as [r|] eqn:Er.
    + destruct (A k r Er) as (r'' & Hr'' & Hk). simplify_eq. exists r. eauto.
    + pose proof (Hnew _ (B k r' Hr' Er)). congruence.
  - intros k s (Hs & r & Hr & <-). destruct (A k r Hr) as (r' & Hr' & Hk). split; [done|]. exists r'. eauto.
  - intros k r Hr. destruct (A k r Hr) as (r' & Hr' & _ & _ & Hn). by exists r'.
Qed.

Context (account_from_str : string -> option bytes) (describe : bytes -> string) (cx : Cx).
Context (Hint : forall w db, unharmed db (w_interfere w db)).
Context (Hmark : forall now g r h n db, unharmed db (lane_mark (Lane := L) now g r h n db).2).
Context (Hrec : forall now app g r o db, unharmed db (lane_record (Lane := L) now app g r o db).2).

(** A drain of the first lane harms nothing of the second. *)
Lemma steps_unharmed s s' :
  rtc (wstep (Lane0 := L) account_from_str describe cx) s s' -> unharmed (ws_db s) (ws_db s').
Proof using Hint Hmark Hrec.
  induction 1 as [|s s1 s2 Hs _ IH]; [done|]. eapply unharmed_trans; [|exact IH].
  destruct Hs as [todo w db tr todo' db' tr' Ha|todo w db tr o Ho|todo w db tr]; simpl; [|done|done].
  eapply unharmed_trans; [apply (Hint w)|].
  destruct Ha as [| | |todo db0|todo db0 r h n Hin|todo todo' db0 r o db1 Hp Ho Heq|todo db0 r o Hin Ho];
    try done.
  - unfold renew_lease. destruct (renew _ _ _ _). split; [done|]. split; [done|]. by apply keeps_new_rows.
  - pose proof (Hrec (w_now w) (w_app_now w) (guard cx) r o db0) as Hh. by rewrite Heq in Hh.
Qed.
End harm.

(** ** The process *)

Section process.
Context {W : Type} `{!Env W} (sha256 : bytes -> bytes).
Context (config : WriterConfig) (signer : bytes) (resources_read : W -> bool).
Context (Hmono : clock_monotone (W := W)).
Context (Hservice : forall (w : W) db, rtc (service_step sha256 (w_now w)) db (w_interfere w db)).

Abbreviation people_laws := (PeopleLaws env_account env_verify (env_constant (W := W) PeopleChain)).
Abbreviation dotns_laws :=
  (DotnsLaws env_account env_verify env_instant env_dial (env_constant (W := W) AssetHub)).
Abbreviation saw := (evidence env_account env_describe).

(** What holds of the process since the database was [db0]. *)
Definition sound (db0 : Db) (p : Proc (W := W)) : Prop :=
  (forall k row, rows_of (p_db p) !! k = Some row -> people_landed (people_state row) = true ->
     landed_at (LaneLaws0 := people_laws) db0 k \/ exists r, read_from k row r /\ saw (p_ptrace p) r) /\
  (forall k row, rows_of (p_db p) !! k = Some row -> dotns_landed (dotns_state row) = true ->
     landed_at (LaneLaws0 := dotns_laws) db0 k \/ exists r, read_from k row r /\ saw (p_dtrace p) r) /\
  (forall k s, final_at (LaneLaws0 := people_laws) db0 k s -> final_at (LaneLaws0 := people_laws) (p_db p) k s) /\
  (forall k s, final_at (LaneLaws0 := dotns_laws) db0 k s -> final_at (LaneLaws0 := dotns_laws) (p_db p) k s).

Lemma interfere_benign (w : W) db : benign (w_now w) db (w_interfere w db).
Proof using Hservice. by eapply service_steps_benign. Qed.

(** A change that harms neither lane, with the traces kept. *)
Lemma sound_unharmed db0 p p' :
  unharmed (laws2 := people_laws) (p_db p) (p_db p') -> unharmed (laws2 := dotns_laws) (p_db p) (p_db p') ->
  p_ptrace p' = p_ptrace p -> p_dtrace p' = p_dtrace p -> sound db0 p -> sound db0 p'.
Proof.
  intros (U1 & U2 & Un) (V1 & V2 & Vn) Ht Hu (A & B & C & D). unfold sound. rewrite Ht, Hu. split_and!; eauto.
  - exact (justified_frame (LaneLaws0 := people_laws) _ _ db0 _ _ _ _ U1 Un (reflexivity _) A).
  - exact (justified_frame (LaneLaws0 := dotns_laws) _ _ db0 _ _ _ _ V1 Vn (reflexivity _) B).
Qed.

Definition preserves {E A} (m : P E A) : Prop := forall db0 p, sound db0 p -> sound db0 (m p).2.

Lemma preserves_ret {E A} (a : A) : preserves (mret a : P E A).
Proof. by intros db0 p. Qed.
Lemma preserves_throw {E A} (e : E) : preserves (pthrow e : P E A).
Proof. by intros db0 p. Qed.
Lemma preserves_bind {E A B} (m : P E A) (k : A -> P E B) :
  preserves m -> (forall a, preserves (k a)) -> preserves (m ≫= k).
Proof.
  intros Hm Hk db0 p Hp. specialize (Hm db0 p Hp). unfold mbind, P_bind.
  destruct (m p) as [[a|e] p']; [by apply Hk|done].
Qed.
Lemma preserves_try {E F A} (m : P E A) : preserves m -> preserves (ptry m : P F _).
Proof. intros Hm db0 p Hp. specialize (Hm db0 p Hp). unfold ptry. by destruct (m p). Qed.

(** What leaves the database and the traces alone. *)
Lemma preserves_same {E A} (m : P E A) :
  (forall p, p_db (m p).2 = p_db p /\ p_ptrace (m p).2 = p_ptrace p /\ p_dtrace (m p).2 = p_dtrace p) ->
  preserves m.
Proof. intros Hm db0 p. destruct (Hm p) as (H1 & H2 & H3). unfold sound. by rewrite H1, H2, H3. Qed.

Lemma preserves_stmt {A} (f : Z -> Db -> A * Db) :
  (forall now db, benign now db (f now db).2) -> preserves (pstmt f : P WriterError A).
Proof using Hservice.
  intros Hf db0 p Hp. set (w := p_w p).
  assert (benign (w_now w) (p_db p) (p_db (pstmt f p).2)) as Hb.
  { eapply benign_trans; [apply interfere_benign|]. unfold pstmt. fold w.
    destruct (run_stmt _ _ _) as [r db'] eqn:E. simpl. unfold run_stmt in E.
    specialize (Hf (w_now w) (w_interfere w (p_db p))).
    destruct (w_fate w); [destruct (f _ _)| |]; simplify_eq/=; [done|apply benign_refl|done]. }
  apply (sound_unharmed db0 p); [| | | |done].
  - by eapply benign_unharmed; [apply people_respects|].
  - by eapply benign_unharmed; [apply dotns_respects|].
  - unfold pstmt. by destruct (run_stmt _ _ _).
  - unfold pstmt. by destruct (run_stmt _ _ _).
Qed.

Lemma preserves_people cx {E A} (m : M E A) :
  drains (L := people_lane) cx m -> preserves (on_people m : P E A).
Proof using Hmono Hservice.
  intros Hm db0 p (HA & HB & HC & HD). pose proof interfere_benign as Hb.
  destruct (benign_relies cx _ people_respects Hb) as (R1 & R5 & R2 & R3 & R4).
  set (st := {| st_db := p_db p; st_w := p_w p; st_trace := p_ptrace p; st_drain := p_people p |}).
  destruct (Hm st) as (otodo & Hs & _).
  pose proof (steps_landings (LaneLaws0 := people_laws) _ _ _ db0 _ _ R1 R5 Hs HA (empty_anchored _)) as HA'.
  pose proof (drains_final (L := people_lane) cx m Hm st Hmono R4 R2 R3) as HC'.
  assert (unharmed (laws2 := dotns_laws) (p_db p) (st_db (m st).2)) as (U1 & U2 & Un).
  { refine (steps_unharmed people_lane (laws2 := dotns_laws) _ _ _ _ _ _ _ _ Hs).
    - intros w db. by eapply benign_unharmed; [apply dotns_respects|].
    - intros. eapply unharmed_touched; [| |apply people_mark_touched|apply (law_mark_new (LaneLaws := people_laws))]; simpl; unfold dotns_state;
        intros r0 r' [->|[Ho ->]]; try done; by destruct (r_dotns_status r0) as [[]|].
    - intros. eapply unharmed_touched; [| |apply people_record_touched|apply (law_record_new (LaneLaws := people_laws))]; simpl; unfold dotns_state;
        intros r0 r' [->|[Ho ->]]; try done; by destruct (r_dotns_status r0) as [[]|]. }
  pose proof (justified_frame (LaneLaws0 := dotns_laws) _ _ db0 _ _ _ _ U1 Un (reflexivity _) HB) as HB'.
  unfold on_people. fold st. destruct (m st) as [r st']. simpl in *.
  unfold sound. simpl. split_and!; eauto.
Qed.

Lemma preserves_dotns cx {E A} (m : M E A) :
  drains (L := dotns_lane) cx m -> preserves (on_dotns m : P E A).
Proof using Hmono Hservice.
  intros Hm db0 p (HA & HB & HC & HD). pose proof interfere_benign as Hb.
  destruct (benign_relies cx _ dotns_respects Hb) as (R1 & R5 & R2 & R3 & R4).
  set (st := {| st_db := p_db p; st_w := p_w p; st_trace := p_dtrace p; st_drain := p_dotns p |}).
  destruct (Hm st) as (otodo & Hs & _).
  pose proof (steps_landings (LaneLaws0 := dotns_laws) _ _ _ db0 _ _ R1 R5 Hs HB (empty_anchored _)) as HB'.
  pose proof (drains_final (L := dotns_lane) cx m Hm st Hmono R4 R2 R3) as HD'.
  assert (unharmed (laws2 := people_laws) (p_db p) (st_db (m st).2)) as (U1 & U2 & Un).
  { refine (steps_unharmed dotns_lane (laws2 := people_laws) _ _ _ _ _ _ _ _ Hs).
    - intros w db. by eapply benign_unharmed; [apply people_respects|].
    - intros. eapply unharmed_touched; [| |apply dotns_mark_touched|apply (law_mark_new (LaneLaws := dotns_laws))]; simpl; unfold people_state;
        by intros r0 r' ->.
    - intros. eapply unharmed_touched; [| |apply dotns_record_touched|apply (law_record_new (LaneLaws := dotns_laws))]; simpl; unfold people_state;
        by intros r0 r' ->. }
  pose proof (justified_frame (LaneLaws0 := people_laws) _ _ db0 _ _ _ _ U1 Un (reflexivity _) HA) as HA'.
  unfold on_dotns. fold st. destruct (m st) as [r st']. simpl in *.
  unfold sound. simpl. split_and!; eauto.
Qed.
(** ** The loop *)

Lemma preserves_link_up : preserves (on_dotns (link_up_m (Lane0 := dotns_lane)) : P WriterError bool).
Proof.
  apply preserves_same. intros p. unfold on_dotns, link_up_m. simpl. by destruct (dotns_up _ _ _).
Qed.

Lemma preserves_sleep : preserves (sleep (W := W)).
Proof. by apply preserves_same. Qed.

Lemma preserves_read {A} (f : Z -> Db -> A) : preserves (pstmt (fun now db => (f now db, db)) : P WriterError A).
Proof using Hservice. apply preserves_stmt. intros now db. apply benign_refl. Qed.

Lemma preserves_queue : preserves (queue config).
Proof using Hservice.
  unfold queue. destruct (wc_queue_enabled config).
  - apply preserves_bind; [by apply preserves_same|]. intros now.
    apply preserves_bind; [by apply preserves_same|]. intros ps.
    destruct (due now (stranded ps)) as [[] t]; (apply preserves_bind; [by apply preserves_same|]); intros _.
    + apply preserves_bind; [apply preserves_try, preserves_read|intros; apply preserves_ret].
    + apply preserves_ret.
  - apply preserves_bind; [|intros; apply preserves_ret]. apply preserves_try, preserves_stmt.
    intros now db. apply (service_step_benign sha256). apply sv_drain.
Qed.

Lemma preserves_tick : preserves (tick config resources_read).
Proof using Hservice.
  unfold tick. apply preserves_bind; [by apply preserves_same|]. intros now.
  apply preserves_bind; [by apply preserves_same|]. intros ps.
  destruct (due now (resources ps)) as [b t]. apply preserves_bind; [by apply preserves_same|]. intros _.
  apply preserves_bind; [|intros; apply preserves_queue]. destruct b; [|apply preserves_ret].
  apply preserves_bind.
  { apply preserves_try. unfold attester_resources.
    apply preserves_bind; [by apply preserves_same|]. intros [];
      (apply preserves_bind; [apply preserves_sleep|]); intros _; [|apply preserves_ret].
    apply preserves_bind; [apply preserves_link_up|intros; apply preserves_ret]. }
  intros _. apply preserves_bind; [|intros; apply preserves_ret]. apply preserves_try.
  unfold record_outbox_gauges. apply preserves_bind; [apply preserves_read|]. intros _.
  apply preserves_bind; [apply preserves_read|intros; apply preserves_ret].
Qed.

Lemma preserves_acquire polls : preserves (acquire_lease config polls : P WriterError _).
Proof using Hservice.
  assert (preserves (pstmt (fun now db =>
    let '(e, t) := try_acquire now (wc_lease_name config) (wc_holder_id config) (wc_lease_ttl config)
                     (db_leases db) in (e, with_leases t db)) : P (W := W) WriterError _)) as Ha.
  { apply preserves_stmt. intros now db.
    pose proof (service_step_benign sha256 now db _ (sv_acquire sha256 now db (wc_lease_name config)
      (wc_holder_id config) (wc_lease_ttl config))) as Hb. by destruct (try_acquire _ _ _ _ _). }
  induction polls as [|polls IH]; simpl; (apply preserves_bind; [exact Ha|]);
    intros [e|]; try apply preserves_ret.
  apply preserves_bind; [apply preserves_sleep|done].
Qed.

Lemma preserves_round g : preserves (active_round config signer resources_read g).
Proof using Hmono Hservice.
  unfold active_round. apply preserves_bind.
  { apply preserves_stmt. intros now db.
    pose proof (service_step_benign sha256 now db _ (sv_renew sha256 now db g (wc_lease_ttl config))) as Hb.
    by destruct (renew _ _ _ _). }
  intros [|]; [|apply preserves_throw]. apply preserves_bind; [apply preserves_tick|]. intros _.
  apply preserves_bind; [eapply preserves_people, people_pass_drains|]. intros idle.
  apply preserves_bind; [eapply preserves_dotns, dotns_pass_drains|]. intros _.
  destruct idle; [apply preserves_sleep|apply preserves_ret].
Qed.

Lemma preserves_active_loop g n : preserves (active_loop config signer resources_read g n).
Proof using Hmono Hservice.
  induction n as [|n IH]; simpl; [apply preserves_ret|].
  apply preserves_bind; [apply preserves_round|done].
Qed.

Lemma preserves_tenure polls rounds : preserves (tenure config signer resources_read polls rounds).
Proof using Hmono Hservice.
  unfold tenure. apply preserves_bind; [apply preserves_acquire|].
  intros [g|]; [|apply preserves_ret].
  apply preserves_bind; [by apply preserves_same|]. intros _.
  apply preserves_bind; [by apply preserves_same|]. intros _.
  apply preserves_bind.
  { unfold reconcile. apply preserves_bind; [apply preserves_try; eapply preserves_people, people_reconcile_drains|].
    intros _. apply preserves_bind; [|intros; apply preserves_ret].
    apply preserves_try. eapply preserves_dotns, dotns_reconcile_drains. }
  intros _. apply preserves_bind; [apply preserves_try, preserves_active_loop|]. intros _. apply preserves_sleep.
Qed.

Lemma preserves_run turns : preserves (run_forever config signer resources_read turns).
Proof using Hmono Hservice.
  induction turns as [|[polls rounds] turns IH]; simpl; [apply preserves_ret|].
  apply preserves_bind; [apply preserves_tenure|done].
Qed.
End process.

(** ** Properties *)

(** C3. The writer process is safe over its whole life: started on any database,
    through any number of lease tenures and rounds, whatever the chain answers,
    whatever statements fail, and with the API, the advancer and the janitor
    running in between, every row it leaves landed on a lane was landed at the
    start or was shown by that lane's chain, by evidence for that very row, its name
    and its candidate; and every row that was final at the
    start, on either lane, is still in its state: draining one lane does not harm
    the other. *)
Theorem writer_process_safe {W} `{!Env W} sha256 config signer resources_read turns db (w : W) :
  clock_monotone (W := W) ->
  (forall (w : W) db, rtc (service_step sha256 (w_now w)) db (w_interfere w db)) ->
  sound db (run_forever config signer resources_read turns (Proc_new config db w)).2.
Proof.
  intros Hm Hs. apply (preserves_run sha256); [done|done|].
  unfold sound, Proc_new. simpl. split_and!; auto; intros k row Hr Hl; left; by exists row.
Qed.

(** *** Witness *)

Definition demo_writer_config : WriterConfig :=
  {| wc_holder_id := "writer-1"; wc_lease_name := "people-chain-writer"; wc_lease_ttl := 30;
     wc_attester := [9]; wc_max_attempts := 8; wc_batch_size := DEFAULT_BATCH_SIZE;
     wc_dotns_batch_size := DEFAULT_DOTNS_BATCH_SIZE; wc_queue_enabled := false;
     wc_queue_fallback_after := 60; wc_resource_poll_interval := 60 |}.

(** The process takes the lease, drains the queued claim and lands it. *)
Definition demo_process : Proc (W := Z) :=
  (run_forever (Env0 := busy_env) demo_writer_config [1] (fun _ => true) [(0%nat, 1%nat)]
     (Proc_new demo_writer_config (insert_queued 0 signed_new 1 empty_db).2 10)).2.

Lemma writer_process_safe_witness :
  (exists row, rows_of (p_db demo_process) !! 1 = Some row /\ r_status row = Assigned) /\
  sound (Env0 := busy_env) (insert_queued 0 signed_new 1 empty_db).2 demo_process.
Proof.
  split; [eexists; split; vm_compute; reflexivity|].
  apply (writer_process_safe (Env0 := busy_env) (fun b => b)).
  - intros w. simpl. lia.
  - intros w db. apply rtc_once. apply sv_promote.
Defined.

End WriterRun.
