(* ===== verification/Routes.v ===== *)
(** * Routes: who answers what

    The ownership map of the public paths ([dub/src/routes/table.rs]) and the two edge
    configurations rendered from it, the tool that writes the rendering into the
    committed file ([routegen]), the routers of the five services, and the process
    that merges them ([dub/src/routes.rs], [roles/all_in_one.rs]).

    A router is the expression the source builds ([Router], [MethodRouter]); what the
    web framework does with it is a parameter ([Axum]), with its documented behaviour
    as laws ([AxumLaws]) that [model] satisfies. *)

From S2P Require Import Prelude Strings Text.

#[local] Open Scope dub_scope.
#[local] Open Scope string_scope.
#[local] Open Scope Z_scope.

Module Routes.

(** ** [routes/table.rs] *)

Inductive Match :=
| Prefix (prefix : string)
| PrefixSlash (prefix : string)
| CatchAll.

Record Row := {
  row_name : string; owner : string; caddy_arg : Z; matches : Match;
  priority : Z; strip_prefix_ : bool; shared : bool; why : list string }.

(** [usize::MAX] on the 64-bit targets the images are built for. *)
Definition USIZE_MAX : Z := 2 ^ 64 - 1.

Definition TABLE : list Row := [
  {| row_name := "docs"; owner := "api-docs"; caddy_arg := USIZE_MAX; matches := Prefix "/docs";
     priority := 110; strip_prefix_ := true; shared := false;
     why := ["The committed API reference. Caddy file-serves it; a deployment that serves it from a";
             "static server instead is still in the ownership map, and must strip the same way. The";
             "prefix is STRIPPED before the server sees it — without that the static server is handed";
             "/docs/openapi.json, looks for it under its document root and 404s, while its readiness";
             "probe stays green. Ownership parity is not path parity."] |};
  {| row_name := "username-search"; owner := "username-indexer"; caddy_arg := 1; matches := Prefix "/api/v1/usernames/search";
     priority := 100; strip_prefix_ := false; shared := false;
     why := ["Username search is the indexer's only route under /api/v1/usernames; the rest of that";
             "prefix (the claim and availability writes, their CORS preflight) falls through to";
             "device-attestation-api."] |};
  {| row_name := "invite-tickets"; owner := "invite-tickets-api"; caddy_arg := 2; matches := PrefixSlash "/api/v1/invitation-ticket/";
     priority := 90; strip_prefix_ := false; shared := false;
     why := ["The synchronous invitation-credential claim route."] |};
  {| row_name := "turn"; owner := "turn-api"; caddy_arg := 3; matches := PrefixSlash "/api/v1/turn/";
     priority := 90; strip_prefix_ := false; shared := false;
     why := ["Each environment runs its own issuer because proof verification pins one People Chain";
             "RPC and genesis hash; routing to another environment would verify against the wrong ring."] |};
  {| row_name := "notify"; owner := "notify-relay"; caddy_arg := 4; matches := Prefix "/api/v1/notify";
     priority := 90; strip_prefix_ := false; shared := true;
     why := ["Shared across environments. NOTE: this service answers an EMPTY 404 for an unmatched path and";
             "405 for a wrong method, where every sibling answers the JSON 404 body. The";
             "whole prefix is routed here, so that is the live contract — see routes::fallback."] |};
  {| row_name := "proof-of-compute"; owner := "username-indexer"; caddy_arg := 1; matches := Prefix "/api/v1/poc";
     priority := 90; strip_prefix_ := false; shared := false;
     why := ["Proof-of-compute gates the indexer's own public search, so it is the indexer's route.";
             "Off by default, in which case the service answers its plain-text 404."] |};
  {| row_name := "default"; owner := "device-attestation-api"; caddy_arg := 0; matches := CatchAll;
     priority := 1; strip_prefix_ := false; shared := false;
     why := ["Everything else: auth, attester, username writes, JWKS, root health."] |}].

Definition BEGIN : string := "generated:route-table".
Definition END_ : string := "/generated:route-table".

Definition TAB : string := String (ascii_of_nat 9) EmptyString.
Definition NL : string := String (ascii_of_nat 10) EmptyString.

(** [String::pop]: drop the last character (here always a line feed). *)
Fixpoint pop (s : string) : string :=
  match s with
  | EmptyString => EmptyString
  | String _ EmptyString => EmptyString
  | String c s' => String c (pop s')
  end.

Definition concat_strings (l : list string) : string := foldr String.append EmptyString l.

Definition why_lines (indent : string) (row : Row) : string :=
  concat_strings ((fun line => indent +:+ "# " +:+ line +:+ NL) <$> why row).

Definition proxy_block (row : Row) : string :=
  TAB +:+ TAB +:+ "reverse_proxy {args[" +:+ decimal (caddy_arg row) +:+ "]}" +:+ NL +:+ TAB +:+ "}" +:+ NL.

Definition caddy_block (row : Row) : string :=
  match matches row with
  | Prefix prefix =>
      if strip_prefix_ row then
        TAB +:+ "handle_path " +:+ prefix +:+ "* {" +:+ NL +:+
        TAB +:+ TAB +:+ "root * {$GATEWAY_DOCS_ROOT:/srv/docs}" +:+ NL +:+
        TAB +:+ TAB +:+ "file_server" +:+ NL +:+ TAB +:+ "}" +:+ NL
      else TAB +:+ "handle " +:+ prefix +:+ "* {" +:+ NL +:+ proxy_block row
  | PrefixSlash prefix => TAB +:+ "handle " +:+ prefix +:+ "* {" +:+ NL +:+ proxy_block row
  | CatchAll => TAB +:+ "handle {" +:+ NL +:+ proxy_block row
  end.

Definition caddy_snippet : string :=
  pop (concat_strings ((fun row => why_lines TAB row +:+ caddy_block row +:+ NL) <$> TABLE)).

Definition BACKTICK : string := "`".

Definition traefik_rule (row : Row) : string :=
  match matches row with
  | Prefix prefix | PrefixSlash prefix => "PathPrefix(" +:+ BACKTICK +:+ prefix +:+ BACKTICK +:+ ")"
  | CatchAll => "PathPrefix(" +:+ BACKTICK +:+ "/" +:+ BACKTICK +:+ ")"
  end.

Definition chart_route (row : Row) : string :=
  why_lines "  " row +:+
  "  - name: " +:+ row_name row +:+ NL +:+
  "    match: " +:+ traefik_rule row +:+ NL +:+
  "    service: " +:+ owner row +:+ NL +:+
  (if shared row then "    shared: true" +:+ NL else EmptyString) +:+
  "    priority: " +:+ decimal (priority row) +:+ NL +:+
  (if strip_prefix_ row then
     match matches row with
     | Prefix prefix => "    stripPrefix: " +:+ prefix +:+ NL
     | _ => EmptyString
     end
   else EmptyString).

Definition chart_routes : string := pop (concat_strings (chart_route <$> TABLE)).

(** ** The two edges

    Caddy and Traefik read the rendered rules; neither is part of the repository.  An
    edge tests the prefix of a rule on a form of the request's path: Caddy's path matcher
    folds case and cleans the path first (merged slashes, resolved dots, decoded
    escapes).  Relied on is only that a path that is canonical already is tested as it
    is. *)

Record Edge := { path_form : string -> string }.

Definition canonical_char (c : ascii) : bool :=
  is_ascii_lowercase c || is_ascii_digit c || contains (String c EmptyString) "/-_.~".

Definition canonical (path : string) : bool :=
  String.prefix "/" path && all_chars canonical_char path &&
  negb (contains "//" path) && negb (contains "/./" (path +:+ "/")) && negb (contains "/../" (path +:+ "/")).

Class EdgeLaws (e : Edge) : Prop := {
  path_form_canonical path : canonical path = true -> path_form e path = path }.

Definition rule_prefix (row : Row) : string :=
  match matches row with
  | Prefix p | PrefixSlash p => p
  | CatchAll => "/"
  end.

(** Caddy: [handle] blocks exclude one another, and the one without a matcher comes
    last, so it is served when no other matches. *)
Definition caddy_takes (e : Edge) (row : Row) (path : string) : Prop :=
  matches row = CatchAll \/ String.prefix (rule_prefix row) (path_form e path) = true.

Definition caddy_serves (e : Edge) (row : Row) (path : string) : Prop :=
  In row TABLE /\ caddy_takes e row path /\
  (matches row = CatchAll -> forall other, In other TABLE -> caddy_takes e other path -> other = row).

(** Traefik: the router of the highest priority among those whose rule matches. *)
Definition traefik_takes (e : Edge) (row : Row) (path : string) : Prop :=
  String.prefix (rule_prefix row) (path_form e path) = true.

Definition traefik_serves (e : Edge) (row : Row) (path : string) : Prop :=
  In row TABLE /\ traefik_takes e row path /\
  forall other, In other TABLE -> traefik_takes e other path -> other = row \/ priority other < priority row.

(** ** [routegen/src/main.rs] *)

(** [str::find]: the byte offset of the first occurrence. *)
Fixpoint find_at (needle hay : string) : option nat :=
  if String.prefix needle hay then Some 0%nat
  else match hay with
       | EmptyString => None
       | String _ hay' => S <$> find_at needle hay'
       end.

(** The slices [&s[..n]] and [&s[n..]]. *)
Fixpoint str_take (n : nat) (s : string) : string :=
  match n, s with
  | S n', String c s' => String c (str_take n' s')
  | _, _ => EmptyString
  end.
Fixpoint str_drop (n : nat) (s : string) : string :=
  match n, s with
  | S n', String _ s' => str_drop n' s'
  | O, _ => s
  | S _, EmptyString => EmptyString
  end.

Inductive SpliceError := NoMarker (marker : string) | MarkersSwapped.

Definition begin_marker (comment : string) : string := comment +:+ " " +:+ BEGIN.
Definition end_marker (comment : string) : string := comment +:+ " " +:+ END_.

Definition splice (current rendered comment : string) : result string SpliceError :=
  let begin := begin_marker comment in
  let end_ := end_marker comment in
  match find_at begin current with
  | None => Err (NoMarker begin)
  | Some start =>
      match find_at end_ current with
      | None => Err (NoMarker end_)
      | Some stop =>
          if (stop <? start)%nat then Err MarkersSwapped
          else
            let after_begin := (start + String.length begin)%nat in
            Ok (str_take after_begin current +:+ NL +:+ rendered +:+ NL +:+ str_drop stop current)
      end
  end.

Definition CADDYFILE : string := "gateway/Caddyfile".
Definition artifacts : list (string * string * string) := [(CADDYFILE, caddy_snippet, TAB +:+ "#")].

(** What the tool does to one artifact: the text to write, or [None] when the file
    is left alone. *)
Definition regenerate (current rendered comment : string) : result (option string) SpliceError :=
  let? updated := splice current rendered comment in
  Ok (if bool_decide (updated = current) then None else Some updated).


Lemma string_app_assoc a b c : (a +:+ b) +:+ c = a +:+ (b +:+ c).
Proof. induction a as [|x a IH]; simpl; [done|by rewrite IH]. Qed.

End Routes.

(** * The generated region of the committed file

    The generator replaces what stands between its two markers ([routegen]): what it
    writes it leaves alone the next time, and the text around the markers is kept. *)

#[local] Close Scope Z_scope.

Module SpliceProps.
Import Routes.

(** ** Slices and first occurrences *)

Lemma take_drop_str n s : str_take n s +:+ str_drop n s = s.
Proof. revert s. induction n as [|n IH]; intros [|c s]; simpl; [done..|by rewrite IH]. Qed.

Lemma take_length_str n s : (n <= String.length s)%nat -> String.length (str_take n s) = n.
Proof. revert s. induction n as [|n IH]; intros [|c s]; simpl; try lia. intros. by rewrite IH by lia. Qed.

Lemma take_app_str a b : str_take (String.length a) (a +:+ b) = a.
Proof. induction a as [|c a IH]; simpl; [by destruct b|by rewrite IH]. Qed.

Lemma drop_app_str a b : str_drop (String.length a) (a +:+ b) = b.
Proof. induction a as [|c a IH]; simpl; [by destruct b|done]. Qed.

Lemma drop_app_lt j a b : (j <= String.length a)%nat -> str_drop j (a +:+ b) = str_drop j a +:+ b.
Proof.
  revert j. induction a as [|c a IH]; intros [|j]; simpl; try done; try lia.
  intros. apply IH. lia.
Qed.

Lemma drop_app_plus k a b : str_drop (String.length a + k) (a +:+ b) = str_drop k b.
Proof. by induction a as [|c a IH]. Qed.

(** A prefix test looks no further than its needle. *)
Lemma prefix_app_long n a b : (String.length n <= String.length a)%nat -> String.prefix n (a +:+ b) = String.prefix n a.
Proof.
  revert a. induction n as [|c n IH]; intros a Hl; [by destruct a, b|].
  destruct a as [|d a]; simpl in Hl; [lia|]. cbn [String.append String.prefix].
  destruct (ascii_dec c d); [apply IH; lia|done].
Qed.

Lemma prefix_weaken n a b : String.prefix n a = true -> String.prefix n (a +:+ b) = true.
Proof. intros [t ->]%prefix_inv. rewrite string_app_assoc. apply prefix_app. Qed.

Lemma find_at_Some n h k :
  find_at n h = Some k ->
  (k <= String.length h)%nat /\ String.prefix n (str_drop k h) = true /\
  forall j, (j < k)%nat -> String.prefix n (str_drop j h) = false.
Proof.
  revert k. induction h as [|c h IH]; intros k; cbn [find_at].
  - destruct (String.prefix n EmptyString) eqn:E; [|done]. intros [= <-]. split_and!; [done|done|lia].
  - destruct (String.prefix n (String c h)) eqn:E.
    + intros [= <-]. split_and!; [lia|done|lia].
    + destruct (find_at n h) as [k'|] eqn:E'; [|done]. intros [= <-].
      destruct (IH k' eq_refl) as (Hk & Hp & Hb). split_and!; [simpl; lia|done|].
      intros [|j] Hj; [done|]. apply Hb. lia.
Qed.

Lemma find_at_intro n a b :
  String.prefix n b = true ->
  (forall j, (j < String.length a)%nat -> String.prefix n (str_drop j (a +:+ b)) = false) ->
  find_at n (a +:+ b) = Some (String.length a).
Proof.
  induction a as [|c a IH]; intros Hp Hb; cbn [String.append String.length].
  - destruct b; cbn [find_at]; by rewrite Hp.
  - cbn [find_at]. pose proof (Hb 0%nat ltac:(simpl; lia)) as H0. cbn [String.append str_drop] in H0. rewrite H0.
    rewrite IH; [done|done|]. intros j Hj. apply (Hb (S j)). simpl. lia.
Qed.

(** An occurrence of a word without line feeds does not cross one. *)
Lemma prefix_stops c n a b :
  lacks c n = true -> String.prefix n (a +:+ String c b) = true -> String.prefix n a = true.
Proof.
  revert n. induction a as [|d a IH]; intros n Hl; destruct n as [|e n]; try done.
  - cbn [String.append String.prefix]. destruct (ascii_dec e c) as [->|]; [|done].
    unfold lacks in Hl. cbn [all_chars] in Hl. by rewrite Ascii.eqb_refl in Hl.
  - cbn [String.append String.prefix]. destruct (ascii_dec e d); [|done]. apply IH.
    unfold lacks in Hl |- *. cbn [all_chars] in Hl. by apply andb_true_iff in Hl as [_ ?].
Qed.

Definition absent (n s : string) : Prop := forall j, String.prefix n (str_drop j s) = false.

Lemma absent_empty n : n <> EmptyString -> absent n EmptyString.
Proof. intros Hn j. destruct j; by destruct n. Qed.

Lemma absent_contains n s : contains n s = false -> absent n s.
Proof.
  induction s as [|c s IH]; cbn [contains]; intros [H H']%orb_false_iff j.
  - destruct j; simpl; done.
  - destruct j; [done|]. by apply IH.
Qed.

(** A line break separates: absent before and after, absent from the whole. *)
Lemma absent_join c n a b :
  lacks c n = true -> n <> EmptyString -> absent n a -> absent n b -> absent n (a +:+ String c b).
Proof.
  intros Hl Hn Ha Hb j. destruct (decide (j <= String.length a)%nat) as [Hj|Hj].
  - rewrite drop_app_lt by done. apply not_true_is_false. intros Ep.
    apply prefix_stops in Ep; [|done]. by rewrite Ha in Ep.
  - assert (exists i, j = (String.length a + S i)%nat) as [i ->] by (exists (j - String.length a - 1)%nat; lia).
    rewrite drop_app_plus. apply Hb.
Qed.

(** ** The markers of the artifacts *)

Definition C : string := TAB +:+ "#".
Definition B : string := begin_marker C.
Definition E : string := end_marker C.

(** The end marker does not begin inside the begin marker. *)
Lemma markers_apart k s :
  (k < String.length B)%nat -> String.prefix E (str_drop k (B +:+ s)) = false.
Proof.
  intros Hk. do 24 (destruct k as [|k]; [vm_compute; reflexivity|]). vm_compute in Hk. lia.
Qed.

Lemma E_line : lacks (ascii_of_nat 10) E = true /\ E <> EmptyString.
Proof. by split. Qed.

(** What splicing found: the two markers, each at its first place, and the text
    between them and around them. *)
Lemma splice_shape current rendered out :
  splice current rendered C = Ok out ->
  exists before inside after,
    current = before +:+ B +:+ inside +:+ after /\
    out = before +:+ B +:+ NL +:+ rendered +:+ NL +:+ after /\
    String.prefix E after = true /\
    (forall j, (j < String.length before)%nat -> String.prefix B (str_drop j current) = false) /\
    (forall j, (j < String.length (before +:+ B +:+ inside))%nat -> String.prefix E (str_drop j current) = false).
Proof.
  unfold splice. fold B E. destruct (find_at B current) as [start|] eqn:Hb; [|done].
  destruct (find_at E current) as [stop|] eqn:He; [|done].
  destruct (stop <? start)%nat eqn:Hlt; [done|]. apply Nat.ltb_ge in Hlt. intros [= <-].
  apply find_at_Some in Hb as (Hb1 & Hb2 & Hb3). apply find_at_Some in He as (He1 & He2 & He3).
  set (before := str_take start current). apply prefix_inv in Hb2 as [rest Hrest].
  assert (Hcur : current = before +:+ B +:+ rest) by (rewrite <-Hrest; symmetry; apply take_drop_str).
  assert (Hlen : String.length before = start) by (by apply take_length_str).
  assert (Hstop : (start + String.length B <= stop)%nat).
  { destruct (decide (start + String.length B <= stop)%nat) as [|Hn]; [done|]. exfalso.
    pose proof (markers_apart (stop - start) rest ltac:(lia)) as Hm.
    rewrite Hcur in He2. replace stop with (start + (stop - start))%nat in He2 by lia.
    rewrite <-Hlen in He2 at 1. rewrite drop_app_plus in He2. congruence. }
  exists before, (str_take (stop - start - String.length B) rest), (str_drop stop current).
  assert (Hdrop : str_drop stop current = str_drop (stop - start - String.length B) rest).
  { rewrite Hcur at 1. replace stop with (String.length before + (String.length B + (stop - start - String.length B)))%nat at 1 by lia.
    by rewrite !drop_app_plus. }
  assert (Hin : (stop - start - String.length B <= String.length rest)%nat).
  { rewrite Hcur, !string_length_app in He1. lia. }
  split_and!.
  - rewrite Hdrop, take_drop_str. exact Hcur.
  - assert (Ht : str_take (start + String.length B) current = before +:+ B).
    { rewrite Hcur, <-string_app_assoc, <-Hlen, <-string_length_app. apply take_app_str. }
    refine (eq_trans (f_equal (fun x => x +:+ _) Ht) _). by rewrite string_app_assoc.
  - exact He2.
  - intros j Hj. apply Hb3. lia.
  - intros j Hj. apply He3. rewrite !string_length_app, take_length_str in Hj by done. lia.
Qed.

(** Spliced text, spliced again: the markers are found where they are. *)
Lemma splice_again before inside after rendered :
  contains E rendered = false -> String.prefix E after = true ->
  (forall j, (j < String.length before)%nat -> String.prefix B (str_drop j (before +:+ B +:+ inside)) = false) ->
  absent E (before +:+ B) ->
  splice (before +:+ B +:+ NL +:+ rendered +:+ NL +:+ after) rendered C
  = Ok (before +:+ B +:+ NL +:+ rendered +:+ NL +:+ after).
Proof.
  intros Hr Ha Hb He. destruct E_line as [Hl Hn].
  assert (Hfb : find_at B (before +:+ B +:+ NL +:+ rendered +:+ NL +:+ after) = Some (String.length before)).
  { apply find_at_intro; [apply prefix_app|]. intros j Hj. specialize (Hb j Hj).
    rewrite drop_app_lt in Hb |- * by lia. rewrite <-string_app_assoc in Hb |- *.
    rewrite prefix_app_long in Hb |- * by (rewrite string_length_app; lia). exact Hb. }
  set (front := before +:+ B +:+ NL +:+ rendered +:+ NL).
  assert (Hout : before +:+ B +:+ NL +:+ rendered +:+ NL +:+ after = front +:+ after)
    by (unfold front; by rewrite !string_app_assoc).
  assert (Hfe : find_at E (front +:+ after) = Some (String.length front)).
  { apply find_at_intro; [done|]. intros j Hj.
    assert (Habs : absent E (before +:+ B +:+ NL +:+ rendered)).
    { rewrite <-string_app_assoc. apply absent_join; [done|done|done|by apply absent_contains]. }
    replace (front +:+ after) with ((before +:+ B +:+ NL +:+ rendered) +:+ String (ascii_of_nat 10) after)
      by (unfold front; by rewrite !string_app_assoc).
    assert (Hlen : String.length front = (String.length (before +:+ B +:+ NL +:+ rendered) + 1)%nat)
      by (unfold front; rewrite !string_length_app; simpl; lia).
    rewrite drop_app_lt by lia. apply not_true_is_false. intros Ep.
    apply prefix_stops in Ep; [|done]. by rewrite Habs in Ep. }
  unfold splice. fold B E. rewrite Hfb, Hout, Hfe.
  assert (Hge : (String.length front <? String.length before)%nat = false).
  { apply Nat.ltb_ge. unfold front. rewrite string_length_app. lia. }
  rewrite Hge, drop_app_str. rewrite <-Hout. f_equal.
  assert (Ht : forall x, str_take (String.length before + String.length B) (before +:+ B +:+ x) = before +:+ B).
  { intros x. rewrite <-string_app_assoc, <-string_length_app. apply take_app_str. }
  refine (eq_trans (f_equal (fun x => x +:+ _) (Ht _)) _). by rewrite string_app_assoc.
Qed.

(** The generated region settles: whatever the committed file held, once the
    generator has spliced the rendering in, the next run leaves the file alone, and
    the text before the first marker and from the second on is as it was. *)
Theorem regenerate_settles path rendered comment current out :
  In (path, rendered, comment) artifacts ->
  splice current rendered comment = Ok out ->
  regenerate out rendered comment = Ok None /\
  exists before inside after,
    current = before +:+ begin_marker comment +:+ inside +:+ after /\
    out = before +:+ begin_marker comment +:+ NL +:+ rendered +:+ NL +:+ after /\
    String.prefix (end_marker comment) after = true.
Proof.
  intros Ha Hs. assert (comment = C /\ rendered = caddy_snippet) as [-> ->] by (destruct Ha as [[= <- <- <-]|[]]; done).
  fold B E. destruct (splice_shape _ _ _ Hs) as (before & inside & after & Hc & Ho & He & Hb1 & He1).
  split; [|by exists before, inside, after].
  unfold regenerate. enough (splice out caddy_snippet C = Ok out) as -> by (simpl; by rewrite bool_decide_true).
  rewrite Ho. apply (splice_again before (inside +:+ after)); [vm_compute; reflexivity|done|..].
  - intros j Hj. by rewrite <-Hc, Hb1.
  - intros j. destruct (decide (j < String.length (before +:+ B))%nat) as [Hj|Hj].
    + apply not_true_is_false. intros Ep. apply (prefix_weaken _ _ (inside +:+ after)) in Ep.
      rewrite <-drop_app_lt, string_app_assoc, <-Hc in Ep by lia.
      rewrite He1 in Ep; [done|]. rewrite <-string_app_assoc, string_length_app. lia.
    + replace (str_drop j (before +:+ B)) with EmptyString; [done|].
      symmetry. clear -Hj. revert j Hj. induction (before +:+ B) as [|c s IH]; intros [|j] Hj; simpl in *; try done; [lia|].
      apply IH. lia.
Qed.

(** The committed file's markers around any text. *)
Lemma regenerate_settles_witness :
  exists out, splice ("top" +:+ NL +:+ B +:+ "stale" +:+ E +:+ "bottom") caddy_snippet C = Ok out /\
    regenerate out caddy_snippet C = Ok None.
Proof.
  eexists. split; [vm_compute; reflexivity|].
  refine (proj1 (regenerate_settles CADDYFILE caddy_snippet C ("top" +:+ NL +:+ B +:+ "stale" +:+ E +:+ "bottom") _ _ _)).
  - by left.
  - vm_compute. reflexivity.
Defined.

End SpliceProps.
