(* ===== verification/Routers.v ===== *)
(** * Routers: the services' routers and the merged process

    The routers of the five HTTP services ([http.rs] of each crate, [auth.rs],
    [usernames.rs], the health routers), the middleware stack they share
    ([http-common/layers.rs]), and the one that merges them all
    ([dub/src/routes.rs], [roles/all_in_one.rs]).  A router is the expression its
    function builds; what a request meets is computed from it by the web framework
    ([Axum], a parameter with laws). *)

From S2P Require Import Prelude Strings Text Routes.

#[local] Open Scope string_scope.

Module Routers.
Import Routes.

(** ** Router expressions of the web framework *)

Inductive Method := GET | HEAD | POST | PUT | PATCH | DELETE | OPTIONS | CONNECT | TRACE.
#[export] Instance Method_eq_dec : EqDecision Method.
Proof. solve_decision. Defined.

Inductive Layer :=
| RateLimit (who : string) | PocGate | AllowAnyOrigin (who : string) | DefaultBodyLimit (max : Z)
| TimeoutLayer (secs : Z) | TraceLayer | PropagateRequestId | SetRequestId.
#[export] Instance Layer_eq_dec : EqDecision Layer.
Proof. solve_decision. Defined.

(** Who answers: a handler, the JSON 404 body, an empty 404, or a 405. *)
Inductive Endpoint := Handled (handler : string) | JsonNotFound | EmptyNotFound | MethodNotAllowed.
#[export] Instance Endpoint_eq_dec : EqDecision Endpoint.
Proof. solve_decision. Defined.

(** An answer is an endpoint behind the layers the request passes, outermost first. *)
Record Answer := { a_layers : list Layer; a_end : Endpoint }.
#[export] Instance Answer_eq_dec : EqDecision Answer.
Proof. solve_decision. Defined.

Definition bare (e : Endpoint) : Answer := {| a_layers := []; a_end := e |}.
Definition under_layer (l : Layer) (a : Answer) : Answer := {| a_layers := l :: a_layers a; a_end := a_end a |}.

(** [get(h)], [post(h)]; [.options(h)]; [.fallback(f)]; [.layer(l)]; [.route_layer(l)];
    and a service that takes every method. *)
Inductive MethodRouter :=
| MOn (m : Method) (handler : string)
| MAnd (mr : MethodRouter) (m : Method) (handler : string)
| MFallback (mr : MethodRouter) (e : Endpoint)
| MLayer (mr : MethodRouter) (l : Layer)
| MRouteLayer (mr : MethodRouter) (l : Layer)
| MService (service : string).

(** A router's own fallback: the framework's, [not_found], or the merged process's. *)
Inductive Fallback := DefaultFallback | NotFound | MergedFallback.
#[export] Instance Fallback_eq_dec : EqDecision Fallback.
Proof. solve_decision. Defined.

Inductive Router :=
| RNew
| RRoute (r : Router) (path : string) (mr : MethodRouter)
| RNest (r : Router) (path : string) (inner : Router)
| RNestService (r : Router) (path service : string)
| RMerge (r other : Router)
| RLayer (r : Router) (l : Layer)
| RFallback (r : Router) (f : Fallback).

(** What the framework computes from them. *)
Record Axum := {
  ax_handler : MethodRouter -> Method -> option Answer;
  ax_method_fallback : MethodRouter -> Answer;
  ax_look : Router -> string -> option MethodRouter;
  ax_fallback : Router -> list Layer * Fallback }.

(** A handler registered for [m] serves [m], and [HEAD] as well when [m] is [GET]. *)
Definition serves (m m' : Method) : bool :=
  bool_decide (m' = m) || (bool_decide (m = GET) && bool_decide (m' = HEAD)).

(** The path a nested router sees: the inner root is the nesting path itself. *)
Definition nested (path p : string) : option string :=
  if bool_decide (p = path) then Some "/"
  else match strip_prefix path p with
       | Some q => if String.prefix "/" q && negb (bool_decide (q = "/")) then Some q else None
       | None => None
       end.

Definition under_service (path p : string) : bool :=
  bool_decide (p = path) || String.prefix (path +:+ "/") p.

(** The framework's documented behaviour on static paths. *)
Record AxumLaws (A : Axum) : Prop := {
  handler_on : forall m h m', ax_handler A (MOn m h) m' = if serves m m' then Some (bare (Handled h)) else None;
  handler_and : forall mr m h m',
    ax_handler A (MAnd mr m h) m' = if serves m m' then Some (bare (Handled h)) else ax_handler A mr m';
  handler_fallback : forall mr e m', ax_handler A (MFallback mr e) m' = ax_handler A mr m';
  handler_layer : forall mr l m', ax_handler A (MLayer mr l) m' = under_layer l <$> ax_handler A mr m';
  handler_route_layer : forall mr l m', ax_handler A (MRouteLayer mr l) m' = under_layer l <$> ax_handler A mr m';
  handler_service : forall s m', ax_handler A (MService s) m' = Some (bare (Handled s));
  fallback_on : forall m h, ax_method_fallback A (MOn m h) = bare MethodNotAllowed;
  fallback_and : forall mr m h, ax_method_fallback A (MAnd mr m h) = ax_method_fallback A mr;
  fallback_fallback : forall mr e, ax_method_fallback A (MFallback mr e) = bare e;
  fallback_layer : forall mr l, ax_method_fallback A (MLayer mr l) = under_layer l (ax_method_fallback A mr);
  fallback_route_layer : forall mr l, ax_method_fallback A (MRouteLayer mr l) = ax_method_fallback A mr;
  fallback_service : forall s, ax_method_fallback A (MService s) = bare MethodNotAllowed;
  look_new : forall p, ax_look A RNew p = None;
  look_route : forall r path mr p,
    ax_look A (RRoute r path mr) p = if bool_decide (p = path) then Some mr else ax_look A r p;
  look_nest : forall r path inner p,
    ax_look A (RNest r path inner) p =
    match ax_look A r p with
    | Some mr => Some mr
    | None => match nested path p with Some q => ax_look A inner q | None => None end
    end;
  look_service : forall r path s p,
    ax_look A (RNestService r path s) p =
    match ax_look A r p with
    | Some mr => Some mr
    | None => if under_service path p then Some (MService s) else None
    end;
  look_merge : forall r other p,
    ax_look A (RMerge r other) p = match ax_look A r p with Some mr => Some mr | None => ax_look A other p end;
  look_layer : forall r l p, ax_look A (RLayer r l) p = (fun mr => MLayer mr l) <$> ax_look A r p;
  look_fallback : forall r f p, ax_look A (RFallback r f) p = ax_look A r p;
  router_new : ax_fallback A RNew = ([], DefaultFallback);
  router_route : forall r path mr, ax_fallback A (RRoute r path mr) = ax_fallback A r;
  router_nest : forall r path inner, ax_fallback A (RNest r path inner) = ax_fallback A r;
  router_service : forall r path s, ax_fallback A (RNestService r path s) = ax_fallback A r;
  router_merge : forall r other,
    ax_fallback A (RMerge r other) =
    if bool_decide (snd (ax_fallback A r) = DefaultFallback) then ax_fallback A other else ax_fallback A r;
  router_layer : forall r l, ax_fallback A (RLayer r l) = (l :: fst (ax_fallback A r), snd (ax_fallback A r));
  router_fallback : forall r f, ax_fallback A (RFallback r f) = ([], f) }.

(** ** [routes.rs]: the fallback of the merged process *)

Definition notify_prefix : string :=
  match List.find (fun row => bool_decide (owner row = "notify-relay")) TABLE with
  | Some row => match matches row with Prefix p => p | _ => "/api/v1/notify" end
  | None => "/api/v1/notify"
  end.

Definition fallback (path : string) : Endpoint :=
  if String.prefix notify_prefix path then EmptyNotFound else JsonNotFound.

Definition run_fallback (f : Fallback) (path : string) : Endpoint :=
  match f with
  | DefaultFallback => EmptyNotFound
  | NotFound => JsonNotFound
  | MergedFallback => fallback path
  end.

(** What a request meets. *)
Definition ax_answer (A : Axum) (r : Router) (m : Method) (path : string) : Answer :=
  match ax_look A r path with
  | Some mr => default (ax_method_fallback A mr) (ax_handler A mr m)
  | None =>
      let '(ls, f) := ax_fallback A r in {| a_layers := ls; a_end := run_fallback f path |}
  end.

(** ** [http-common/layers.rs] *)

Definition REQUEST_TIMEOUT : Z := 30.

Definition standard_layers (r : Router) : Router :=
  RLayer (RLayer (RLayer (RLayer r (TimeoutLayer REQUEST_TIMEOUT)) TraceLayer) PropagateRequestId) SetRequestId.

(** ** The health routers *)

Definition health_router (service : string) : Router :=
  RRoute (RRoute (RRoute RNew "/healthcheck" (MOn GET (service +:+ "::healthcheck")))
            "/livez" (MOn GET (service +:+ "::livez")))
    "/readyz" (MOn GET (service +:+ "::readyz")).

(** ** device-attestation: [auth.rs], [usernames.rs], [http.rs] *)

Definition auth_router : Router :=
  RLayer
    (RRoute (RRoute (RRoute (RRoute RNew "/challenges" (MOn POST "challenge::issue"))
                       "/app-attest/attestations" (MOn POST "app_attest::register"))
               "/token" (MOn POST "token::issue"))
       "/token/refresh" (MOn POST "refresh::rotate"))
    (RateLimit "auth").

Definition usernames_router : Router :=
  let root :=
    RLayer (RRoute RNew "/"
              (MFallback (MAnd (MOn POST "register::register") OPTIONS "usernames::collection_preflight") JsonNotFound))
      (AllowAnyOrigin "usernames") in
  RRoute root "/available" (MFallback (MOn POST "available::check") JsonNotFound).

Definition attestation_router (queue_enabled : bool) : Router :=
  let api_v1 := RNest (RRoute (RNest RNew "/auth" auth_router) "/attester" (MOn GET "usernames::attester"))
                  "/usernames" usernames_router in
  let api_v1 := if queue_enabled
                then RRoute api_v1 "/registration/queue" (MFallback (MOn GET "queue::status") JsonNotFound)
                else api_v1 in
  RNest (RRoute RNew "/.well-known/jwks.json" (MOn GET "jwks")) "/api/v1" api_v1.

Definition attestation_routes (queue_enabled : bool) : Router :=
  standard_layers
    (RFallback (RMerge (RMerge RNew (health_router "device-attestation")) (attestation_router queue_enabled)) NotFound).

(** ** username-indexer *)

Definition indexer_router (poc : bool) : Router :=
  let search :=
    MFallback (MRouteLayer (MRouteLayer (MOn GET "search_usernames") PocGate) (RateLimit "search")) JsonNotFound in
  let api := RRoute RNew "/api/v1/usernames/search" search in
  let poc_api := if poc
                 then RRoute RNew "/api/v1/poc/issue" (MFallback (MOn POST "issue_puzzle") JsonNotFound)
                 else RNew in
  RMerge (RMerge RNew api) poc_api.

Definition indexer_routes (poc : bool) : Router :=
  standard_layers (RFallback (RMerge (RMerge RNew (health_router "username-indexer")) (indexer_router poc)) NotFound).

(** ** invite-tickets *)

Definition invite_router : Router :=
  RNest RNew "/api/v1/invitation-ticket" (RRoute RNew "/claim" (MFallback (MOn POST "claim_ticket") JsonNotFound)).

Definition invite_routes : Router :=
  standard_layers (RFallback (RMerge (RMerge RNew (health_router "invite-tickets")) invite_router) NotFound).

(** ** turn *)

Definition turn_router (proof : bool) : Router :=
  let api := RRoute RNew "/issue" (MFallback (MOn POST "issue_credentials") JsonNotFound) in
  let api := if proof
             then RRoute api "/issue-with-proof"
                    (MLayer (MFallback (MAnd (MLayer (MOn POST "issue_with_proof") (DefaultBodyLimit (8 * 1024)))
                                          OPTIONS "turn::preflight") JsonNotFound)
                       (AllowAnyOrigin "turn"))
             else api in
  RNest RNew "/api/v1/turn" api.

Definition turn_routes (proof : bool) : Router :=
  standard_layers (RFallback (RMerge (RMerge RNew (health_router "turn")) (turn_router proof)) NotFound).

(** ** notifications: no fallback of its own *)

Definition notify_router : Router := RRoute RNew "/api/v1/notify" (MOn POST "notify::handle").

Definition notify_routes : Router :=
  standard_layers (RMerge (RMerge RNew (health_router "notifications")) notify_router).

(** ** The merged process *)

(** What the network compiles in ([invite_tickets]) and the configuration switches on. *)
Record Build := { invite_tickets : bool; queue_enabled : bool; proof_enabled : bool; poc_enabled : bool }.

Record Surfaces := {
  s_attestation : Router; s_indexer : Router; s_invite_tickets : option Router;
  s_turn : Router; s_notifications : Router }.

Definition merge (s : Surfaces) : Router :=
  let router := RMerge (RMerge RNew (s_attestation s)) (s_indexer s) in
  let router := match s_invite_tickets s with Some r => RMerge router r | None => router end in
  RFallback (RMerge (RMerge router (s_turn s)) (s_notifications s)) MergedFallback.

Definition surfaces (b : Build) : Surfaces :=
  {| s_attestation := attestation_router (queue_enabled b);
     s_indexer := indexer_router (poc_enabled b);
     s_invite_tickets := if invite_tickets b then Some invite_router else None;
     s_turn := turn_router (proof_enabled b);
     s_notifications := notify_router |}.

Definition all_in_one_app (b : Build) : Router :=
  standard_layers
    (RMerge (RNestService (RMerge RNew (health_router "all-in-one")) "/docs" "ServeDir") (merge (surfaces b))).

(** The service behind an owner of the table.  Where the network has no invite
    tickets, the deployment points that upstream at device attestation, as the
    table's comment says. *)
Definition upstream (b : Build) (o : string) : option Router :=
  if bool_decide (o = "device-attestation-api") then Some (attestation_routes (queue_enabled b))
  else if bool_decide (o = "username-indexer") then Some (indexer_routes (poc_enabled b))
  else if bool_decide (o = "invite-tickets-api") then
    Some (if invite_tickets b then invite_routes else attestation_routes (queue_enabled b))
  else if bool_decide (o = "turn-api") then Some (turn_routes (proof_enabled b))
  else if bool_decide (o = "notify-relay") then Some notify_routes
  else None.

(** ** The framework, executable *)

Fixpoint m_handler (mr : MethodRouter) (m' : Method) : option Answer :=
  match mr with
  | MOn m h => if serves m m' then Some (bare (Handled h)) else None
  | MAnd mr m h => if serves m m' then Some (bare (Handled h)) else m_handler mr m'
  | MFallback mr _ => m_handler mr m'
  | MLayer mr l | MRouteLayer mr l => under_layer l <$> m_handler mr m'
  | MService s => Some (bare (Handled s))
  end.

Fixpoint m_fallback (mr : MethodRouter) : Answer :=
  match mr with
  | MOn _ _ => bare MethodNotAllowed
  | MAnd mr _ _ => m_fallback mr
  | MFallback _ e => bare e
  | MLayer mr l => under_layer l (m_fallback mr)
  | MRouteLayer mr _ => m_fallback mr
  | MService _ => bare MethodNotAllowed
  end.

Fixpoint r_look (r : Router) (p : string) : option MethodRouter :=
  match r with
  | RNew => None
  | RRoute r path mr => if bool_decide (p = path) then Some mr else r_look r p
  | RNest r path inner =>
      match r_look r p with
      | Some mr => Some mr
      | None => match nested path p with Some q => r_look inner q | None => None end
      end
  | RNestService r path s =>
      match r_look r p with
      | Some mr => Some mr
      | None => if under_service path p then Some (MService s) else None
      end
  | RMerge r other => match r_look r p with Some mr => Some mr | None => r_look other p end
  | RLayer r l => (fun mr => MLayer mr l) <$> r_look r p
  | RFallback r _ => r_look r p
  end.

Fixpoint r_fallback (r : Router) : list Layer * Fallback :=
  match r with
  | RNew => ([], DefaultFallback)
  | RRoute r _ _ | RNest r _ _ | RNestService r _ _ => r_fallback r
  | RMerge r other =>
      if bool_decide (snd (r_fallback r) = DefaultFallback) then r_fallback other else r_fallback r
  | RLayer r l => (l :: fst (r_fallback r), snd (r_fallback r))
  | RFallback r f => ([], f)
  end.

Definition model : Axum :=
  {| ax_handler := m_handler; ax_method_fallback := m_fallback; ax_look := r_look; ax_fallback := r_fallback |}.

Lemma model_laws : AxumLaws model.
Proof. by split. Qed.

Definition answer : Router -> Method -> string -> Answer := ax_answer model.

(** The laws leave no choice. *)
Section determined.
Context (A : Axum) (HA : AxumLaws A).

Lemma handler_determined mr m : ax_handler A mr m = m_handler mr m.
Proof.
  induction mr as [| | | | |]; cbn [m_handler].
  - apply (handler_on _ HA).
  - rewrite (handler_and _ HA). by rewrite IHmr.
  - by rewrite (handler_fallback _ HA).
  - by rewrite (handler_layer _ HA), IHmr.
  - by rewrite (handler_route_layer _ HA), IHmr.
  - apply (handler_service _ HA).
Qed.

Lemma method_fallback_determined mr : ax_method_fallback A mr = m_fallback mr.
Proof.
  induction mr as [| | | | |]; cbn [m_fallback].
  - apply (fallback_on _ HA).
  - by rewrite (fallback_and _ HA).
  - apply (fallback_fallback _ HA).
  - by rewrite (fallback_layer _ HA), IHmr.
  - by rewrite (fallback_route_layer _ HA).
  - apply (fallback_service _ HA).
Qed.

Lemma look_determined r p : ax_look A r p = r_look r p.
Proof.
  revert p. induction r as [|r IH|r IH path inner IHi|r IH|r IH other IHo|r IH|r IH]; intros p; cbn [r_look].
  - apply (look_new _ HA).
  - by rewrite (look_route _ HA), IH.
  - rewrite (look_nest _ HA), IH. destruct (nested path p); [by rewrite IHi|done].
  - by rewrite (look_service _ HA), IH.
  - by rewrite (look_merge _ HA), IH, IHo.
  - by rewrite (look_layer _ HA), IH.
  - by rewrite (look_fallback _ HA).
Qed.

Lemma fallback_determined r : ax_fallback A r = r_fallback r.
Proof.
  induction r as [|r IH|r IH path inner IHi|r IH|r IH other IHo|r IH|r IH]; cbn [r_fallback].
  - apply (router_new _ HA).
  - by rewrite (router_route _ HA).
  - by rewrite (router_nest _ HA).
  - by rewrite (router_service _ HA).
  - by rewrite (router_merge _ HA), IH, IHo.
  - by rewrite (router_layer _ HA), IH.
  - apply (router_fallback _ HA).
Qed.

Lemma answer_determined r m p : ax_answer A r m p = answer r m p.
Proof.
  unfold answer, ax_answer. simpl. rewrite look_determined, fallback_determined.
  destruct (r_look r p); [by rewrite handler_determined, method_fallback_determined|done].
Qed.
End determined.

End Routers.
