(* ===== verification/RouteProps.v ===== *)
(** * RouteProps: the edge, the merged process and the generated file agree

    Every canonical path has one owner, the same at both edges and in the rendered text;
    the merged process answers a request as the service its owner names would; and the
    generator writes a file it leaves alone the next time, outside the markers
    untouched. *)

From S2P Require Import Prelude Strings Text Routes Routers.

#[local] Open Scope string_scope.
#[local] Open Scope Z_scope.

Module RouteProps.
Import Routes Routers.

(** ** Prefixes *)

(** Two prefixes of one string are comparable. *)
Lemma prefix_comparable a b s :
  String.prefix a s = true -> String.prefix b s = true -> String.prefix a b || String.prefix b a = true.
Proof.
  revert b s. induction a as [|c a IH]; intros b s; [by destruct b|].
  destruct s as [|d s]; [done|]. destruct b as [|e b]; [done|]. cbn [String.prefix].
  destruct (ascii_dec c d) as [->|]; [|done]. destruct (ascii_dec e d) as [->|]; [|done].
  intros Ha Hb. destruct (ascii_dec d d); [by apply (IH b s)|congruence].
Qed.

Lemma prefix_apart a b s :
  String.prefix a b || String.prefix b a = false -> String.prefix a s = true -> String.prefix b s = false.
Proof.
  intros H Ha. destruct (String.prefix b s) eqn:Hb; [|done]. by rewrite (prefix_comparable a b s) in H.
Qed.

(** ** The owner of a path *)

(** The first row of the table whose rule is a prefix of the path as it stands. *)
Definition rule_matches (row : Row) (path : string) : bool := String.prefix (rule_prefix row) path.
Definition row_matches (row : Row) (path : string) : bool :=
  match matches row with CatchAll => true | _ => rule_matches row path end.
Definition table_row (path : string) : option Row := List.find (fun row => row_matches row path) TABLE.

Definition carve_outs : list Row := take 6 TABLE.
Definition catch_all : Row := default (Build_Row EmptyString EmptyString 0 CatchAll 0 false false []) (last TABLE).

Lemma table_split : TABLE = (carve_outs ++ [catch_all])%list.
Proof. reflexivity. Qed.

Lemma carve_outs_outrank row : In row carve_outs -> priority catch_all < priority row.
Proof. revert row. apply List.Forall_forall. vm_compute. repeat constructor. Qed.

(** The rules of two carve-outs are never prefixes of one another, so at most one
    matches a path. *)
Lemma carve_outs_apart i j r r' :
  carve_outs !! i = Some r -> carve_outs !! j = Some r' -> i <> j ->
  String.prefix (rule_prefix r) (rule_prefix r') || String.prefix (rule_prefix r') (rule_prefix r) = false.
Proof.
  assert (H : forallb (fun i => forallb (fun j =>
            (i =? j)%nat || match carve_outs !! i, carve_outs !! j with
                            | Some r, Some r' =>
                                negb (String.prefix (rule_prefix r) (rule_prefix r') ||
                                      String.prefix (rule_prefix r') (rule_prefix r))
                            | _, _ => true
                            end) (seq 0 6)) (seq 0 6) = true) by (vm_compute; reflexivity).
  rewrite forallb_forall in H. intros Hr Hr' Hij.
  assert (Hi : In i (seq 0 6)) by (apply in_seq; apply lookup_lt_Some in Hr; cbn in Hr; lia).
  assert (Hj : In j (seq 0 6)) by (apply in_seq; apply lookup_lt_Some in Hr'; cbn in Hr'; lia).
  specialize (H i Hi). rewrite forallb_forall in H. specialize (H j Hj). rewrite Hr, Hr' in H.
  apply orb_true_iff in H as [H%Nat.eqb_eq|H]; [done|by apply negb_true_iff].
Qed.

Lemma one_carve_out r r' path :
  In r carve_outs -> In r' carve_outs -> rule_matches r path = true -> rule_matches r' path = true -> r = r'.
Proof.
  intros [i Hi]%list_elem_of_In%list_elem_of_lookup_1 [j Hj]%list_elem_of_In%list_elem_of_lookup_1 H H'.
  destruct (decide (i = j)) as [->|Hij]; [congruence|].
  pose proof (prefix_apart _ _ path (carve_outs_apart i j r r' Hi Hj Hij) H). unfold rule_matches in H'. congruence.
Qed.

Lemma find_app {A : Type} (f : A -> bool) l k :
  List.find f (l ++ k)%list = match List.find f l with Some x => Some x | None => List.find f k end.
Proof. induction l as [|x l IH]; simpl; [done|]. by destruct (f x). Qed.

Lemma carve_out_matches row path : In row carve_outs -> row_matches row path = rule_matches row path.
Proof. intros H. repeat (destruct H as [<-|H]; [reflexivity|]). done. Qed.

(** The carve-out that matches, or the catch-all when none does. *)
Lemma table_row_cases path :
  (exists row, In row carve_outs /\ rule_matches row path = true /\ table_row path = Some row) \/
  (forall row, In row carve_outs -> rule_matches row path = false) /\ table_row path = Some catch_all.
Proof.
  unfold table_row. rewrite table_split, find_app.
  destruct (List.find _ carve_outs) as [row|] eqn:E.
  - left. apply find_some in E as [Hin Hm]. exists row. by rewrite <-carve_out_matches.
  - right. split; [|done]. intros row Hin. rewrite <-carve_out_matches by done. by eapply find_none in E.
Qed.

Lemma table_rows row : In row TABLE <-> In row carve_outs \/ row = catch_all.
Proof. rewrite table_split. rewrite in_app_iff. simpl. naive_solver. Qed.

Lemma carve_out_rule row : In row carve_outs -> matches row <> CatchAll.
Proof. intros H. repeat (destruct H as [<-|H]; [done|]). done. Qed.

Lemma canonical_slash path : canonical path = true -> String.prefix "/" path = true.
Proof. unfold canonical. rewrite !andb_true_iff. tauto. Qed.

(** ** Both edges *)

(** The directives of a rendered snippet, read line by line: what a [handle] block
    matches, and the upstream argument it proxies to or [None] for files. *)
Definition after_args (line : string) : option Z :=
  match strip_prefix (TAB +:+ TAB +:+ "reverse_proxy {args[") line with
  | Some rest => match split_once (ascii_of_nat 93) rest with
                 | Some (n, _) => parse_unsigned U64_MAX n
                 | None => None
                 end
  | None => None
  end.

Definition handle_path_of (line : string) : option string :=
  match strip_prefix (TAB +:+ "handle_path ") line with
  | Some rest => fst <$> split_once (ascii_of_nat 42) rest
  | None => match strip_prefix (TAB +:+ "handle ") line with
            | Some "{" => Some EmptyString
            | Some rest => fst <$> split_once (ascii_of_nat 42) rest
            | None => None
            end
  end.

Fixpoint read_caddy (lines : list string) : list (string * option Z) :=
  match lines with
  | [] => []
  | line :: rest =>
      match handle_path_of line with
      | Some p => (p, match rest with next :: _ => after_args next | [] => None end) :: read_caddy rest
      | None => read_caddy rest
      end
  end.

Definition first_directive (ds : list (string * option Z)) (path : string) : option (option Z) :=
  snd <$> List.find (fun d => String.prefix (fst d) path) ds.

(** What the snippet should say of a row. *)
Definition target (row : Row) : option Z := if strip_prefix_ row then None else Some (caddy_arg row).

Definition directives : list (string * option Z) := read_caddy (split_on (ascii_of_nat 10) caddy_snippet).

Lemma directives_table :
  directives = (fun row => (match matches row with CatchAll => EmptyString | _ => rule_prefix row end, target row)) <$> TABLE.
Proof. vm_compute. reflexivity. Qed.

Lemma first_directive_row path : first_directive directives path = target <$> table_row path.
Proof.
  rewrite directives_table. unfold first_directive, table_row.
  induction TABLE as [|row rows IH]; [done|]. cbn [fmap list_fmap List.find].
  assert (Hm : String.prefix (fst (match matches row with CatchAll => EmptyString | _ => rule_prefix row end, target row)) path
               = row_matches row path).
  { unfold row_matches, rule_matches, rule_prefix. simpl. by destruct (matches row); destruct path. }
  rewrite Hm. destruct (row_matches row path); [done|apply IH].
Qed.

Lemma carve_out_caddy e row path :
  In row carve_outs -> String.prefix (rule_prefix row) (path_form e path) = true -> caddy_serves e row path.
Proof.
  intros Hin Hm. split; [apply table_rows; by left|]. split; [by right|]. intros Hx. by apply carve_out_rule in Hin.
Qed.

(** The row of a canonical path, at either edge. *)
Lemma caddy_row_unique e path row :
  EdgeLaws e -> canonical path = true -> table_row path = Some row ->
  forall row', caddy_serves e row' path <-> row' = row.
Proof.
  intros He Hp Hrow row'. unfold caddy_serves, caddy_takes. rewrite (path_form_canonical path Hp).
  destruct (table_row_cases path) as [(r & Hin & Hm & Hc)|[Hnone Hc]]; rewrite Hc in Hrow; injection Hrow as <-.
  - assert (Hr : In r TABLE) by (apply table_rows; by left). split.
    + intros ([Hin'| ->]%table_rows & [Hx|Hx] & Hlast).
      * by apply carve_out_rule in Hin'.
      * by apply (one_carve_out _ _ path Hin' Hin).
      * symmetry. apply (Hlast eq_refl r Hr). by right.
      * symmetry. apply (Hlast eq_refl r Hr). by right.
    + intros ->. split_and!; [done|by right|]. intros Hx. by apply carve_out_rule in Hin.
  - split.
    + intros ([Hin'| ->]%table_rows & [Hx|Hx] & _); [by apply carve_out_rule in Hin'| |done|done].
      unfold rule_matches in Hnone. by rewrite (Hnone _ Hin') in Hx.
    + intros ->. split_and!; [apply table_rows; by right|by left|].
      intros _ other [Ho| ->]%table_rows [Hx|Hx]; [by apply carve_out_rule in Ho| |done|done].
      unfold rule_matches in Hnone. by rewrite (Hnone _ Ho) in Hx.
Qed.

Lemma traefik_row_unique e path row :
  EdgeLaws e -> canonical path = true -> table_row path = Some row ->
  forall row', traefik_serves e row' path <-> row' = row.
Proof.
  intros He Hp Hrow row'. unfold traefik_serves, traefik_takes. rewrite (path_form_canonical path Hp).
  destruct (table_row_cases path) as [(r & Hin & Hm & Hc)|[Hnone Hc]]; rewrite Hc in Hrow; injection Hrow as <-.
  - assert (Hr : In r TABLE) by (apply table_rows; by left). split.
    + intros ([Hin'| ->]%table_rows & Hx & Htop); [by apply (one_carve_out _ _ path Hin' Hin)|].
      destruct (Htop r Hr Hm) as [->|Hlt]; [done|]. apply carve_outs_outrank in Hin. lia.
    + intros ->. split_and!; [done|done|]. intros other [Ho| ->]%table_rows Hx; [left|right; by apply carve_outs_outrank].
      by apply (one_carve_out _ _ path Ho Hin).
  - split.
    + intros ([Hin'| ->]%table_rows & Hx & _); [|done]. unfold rule_matches in Hnone. by rewrite (Hnone _ Hin') in Hx.
    + intros ->. split_and!; [apply table_rows; by right|exact (canonical_slash _ Hp)|].
      intros other [Ho| ->]%table_rows Hx; [|by left]. unfold rule_matches in Hnone. by rewrite (Hnone _ Ho) in Hx.
Qed.

(** One owner at both edges: for a canonical path, the [handle] block of the text
    rendered from the table that Caddy serves, and the router that outranks all others in
    Traefik, are the same row. *)
Theorem edges_agree caddy traefik path :
  EdgeLaws caddy -> EdgeLaws traefik -> canonical path = true ->
  exists row, first_directive directives path = Some (target row) /\
    (forall row', caddy_serves caddy row' path <-> row' = row) /\
    (forall row', traefik_serves traefik row' path <-> row' = row).
Proof.
  intros Hca Htr Hp.
  assert (Hrow : exists row, table_row path = Some row)
    by (destruct (table_row_cases path) as [(? & _ & _ & ->)|[_ ->]]; by eexists).
  destruct Hrow as [row Hrow]. exists row. rewrite first_directive_row, Hrow.
  split_and!; [done|by apply caddy_row_unique|by apply traefik_row_unique].
Qed.

(** ** The merged process *)

(** The paths a router has routes for. *)
Definition full (path q : string) : string := if bool_decide (q = "/") then path else path +:+ q.

Fixpoint paths (r : Router) : list string :=
  match r with
  | RNew => []
  | RRoute r path _ => path :: paths r
  | RNest r path inner => (paths r ++ (full path <$> paths inner))%list
  | RMerge r other => (paths r ++ paths other)%list
  | RNestService r _ _ | RLayer r _ | RFallback r _ => paths r
  end.

Fixpoint serves_files (r : Router) (p : string) : bool :=
  match r with
  | RNew => false
  | RNestService r path _ => under_service path p || serves_files r p
  | RNest r path inner =>
      serves_files r p || match nested path p with Some q => serves_files inner q | None => false end
  | RMerge r other => serves_files r p || serves_files other p
  | RRoute r _ _ | RLayer r _ | RFallback r _ => serves_files r p
  end.

Lemma nested_full path p q : nested path p = Some q -> p = full path q.
Proof.
  unfold nested, full. case_bool_decide as Hp.
  - intros [= <-]. by rewrite bool_decide_true.
  - destruct (strip_prefix path p) as [t|] eqn:E; [|done]. apply strip_prefix_Some in E as ->.
    destruct (String.prefix "/" t && negb (bool_decide (t = "/"))) eqn:Eb; [|done]. intros [= <-].
    apply andb_true_iff in Eb as [_ Eb%negb_true_iff]. by rewrite Eb.
Qed.

Lemma look_none r p : (p ∉ paths r) -> serves_files r p = false -> r_look r p = None.
Proof.
  revert p. induction r as [|r IH path mr|r IH path inner IHi|r IH path s|r IH other IHo|r IH l|r IH f];
    intros p; cbn [paths serves_files r_look]; [done|..].
  - intros [Hne Hp]%not_elem_of_cons Hs. rewrite bool_decide_false by done. by apply IH.
  - intros [Hp Hi]%not_elem_of_app [Hs Hn]%orb_false_iff. rewrite IH by done.
    destruct (nested path p) as [q|] eqn:E; [|done]. apply IHi; [|done].
    intros Hq. apply Hi. apply list_elem_of_fmap. exists q. split; [by apply nested_full|done].
  - intros Hp [Hs Hn]%orb_false_iff. rewrite IH by done. by rewrite Hs.
  - intros [Hp Ho]%not_elem_of_app [Hs Hn]%orb_false_iff. rewrite IH by done. by apply IHo.
  - intros Hp Hs. by rewrite IH.
  - intros Hp Hs. by apply IH.
Qed.

Definition HEALTH : list string := ["/healthcheck"; "/livez"; "/readyz"].

(** Every path any surface serves with everything switched on. *)
Definition everything : Build :=
  {| invite_tickets := true; queue_enabled := true; proof_enabled := true; poc_enabled := true |}.
Definition public_paths : list string := paths (merge (surfaces everything)).

Definition methods : list Method := [GET; HEAD; POST; PUT; PATCH; DELETE; OPTIONS; CONNECT; TRACE].

Lemma in_methods m : In m methods.
Proof. destruct m; simpl; tauto. Qed.

(** The merged process and the owner's service agree on a request. *)
Definition agrees (b : Build) (m : Method) (p : string) : bool :=
  match table_row p with
  | Some row =>
      match upstream b (owner row) with
      | Some r => bool_decide (answer (all_in_one_app b) m p = answer r m p)
      | None => false
      end
  | None => false
  end.

Lemma agrees_public b m p : p ∈ public_paths -> agrees b m p = true.
Proof.
  assert (H : forallb (fun m => forallb (agrees b m) public_paths) methods = true)
    by (destruct b as [[] [] [] []]; vm_compute; reflexivity).
  rewrite forallb_forall in H. specialize (H m (in_methods m)). rewrite forallb_forall in H.
  intros Hp. by apply H, list_elem_of_In.
Qed.

(** Off the public paths every router falls back. *)
Definition off_paths (p : string) : Prop := p ∉ (HEALTH ++ public_paths)%list.

Lemma within_paths r p :
  forallb (fun q => bool_decide (q ∈ (HEALTH ++ public_paths)%list)) (paths r) = true -> off_paths p -> p ∉ paths r.
Proof.
  rewrite forallb_forall. intros H Hp Hin. apply Hp.
  specialize (H p). apply bool_decide_eq_true in H; [done|by apply list_elem_of_In].
Qed.

Lemma docs_files p : String.prefix "/docs" p = false -> under_service "/docs" p = false.
Proof.
  intros Hd. apply orb_false_iff. split.
  - apply bool_decide_eq_false. intros ->. by vm_compute in Hd.
  - destruct (String.prefix ("/docs" +:+ "/") p) eqn:E; [|done]. apply prefix_inv in E as [t ->].
    by rewrite string_app_assoc, prefix_app in Hd.
Qed.

(** No service but the merged process's own serves files. *)
Fixpoint no_files (r : Router) : bool :=
  match r with
  | RNew => true
  | RNestService _ _ _ => false
  | RNest r _ inner => no_files r && no_files inner
  | RMerge r other => no_files r && no_files other
  | RRoute r _ _ | RLayer r _ | RFallback r _ => no_files r
  end.

Lemma no_files_serves r p : no_files r = true -> serves_files r p = false.
Proof.
  revert p. induction r as [|r IH path mr|r IH path inner IHi|r IH path s|r IH other IHo|r IH l|r IH f];
    intros p; cbn [no_files serves_files]; auto; [..|done|].
  - intros [H Hi]%andb_true_iff. rewrite IH by done. destruct (nested path p); [by apply IHi|done].
  - intros [H Hi]%andb_true_iff. rewrite IH by done. by apply IHo.
Qed.

Lemma service_look r p :
  no_files r = true -> forallb (fun q => bool_decide (q ∈ (HEALTH ++ public_paths)%list)) (paths r) = true ->
  off_paths p -> r_look r p = None.
Proof. intros Hn Hw Hp. apply look_none; [by apply within_paths|by apply no_files_serves]. Qed.

Lemma surfaces_look b p : off_paths p -> r_look (merge (surfaces b)) p = None.
Proof.
  intros Hp. apply service_look; [..|done]; destruct b as [[] [] [] []]; vm_compute; reflexivity.
Qed.

Lemma merged_look b p : off_paths p -> String.prefix "/docs" p = false -> r_look (all_in_one_app b) p = None.
Proof.
  intros Hp Hd. unfold all_in_one_app, standard_layers. cbn [r_look].
  rewrite surfaces_look, docs_files by done.
  rewrite (service_look (health_router "all-in-one") p) by done || vm_compute; done.
Qed.

Lemma upstream_look b o r p : upstream b o = Some r -> off_paths p -> r_look r p = None.
Proof.
  intros Hu Hp. apply service_look; [..|done]; unfold upstream in Hu;
    repeat case_match; simplify_eq; destruct b as [[] [] [] []]; vm_compute; reflexivity.
Qed.

Definition STACK : list Layer := [SetRequestId; PropagateRequestId; TraceLayer; TimeoutLayer REQUEST_TIMEOUT].

Lemma merged_fallback b : r_fallback (all_in_one_app b) = (STACK, MergedFallback).
Proof. by destruct b as [[] [] [] []]. Qed.

Lemma upstream_fallback b o r :
  upstream b o = Some r ->
  r_fallback r = (STACK, if bool_decide (o = "notify-relay") then DefaultFallback else NotFound).
Proof.
  unfold upstream. intros Hu. repeat case_match; simplify_eq; repeat case_bool_decide; subst; try done;
    destruct b as [[] [] [] []]; reflexivity.
Qed.

Lemma answer_off r m p ls f :
  r_look r p = None -> r_fallback r = (ls, f) -> answer r m p = {| a_layers := ls; a_end := run_fallback f p |}.
Proof. intros Hl Hf. unfold answer, ax_answer. simpl. by rewrite Hl, Hf. Qed.

(** The notify prefix is the notify owner's. *)
Lemma notify_owner p row :
  table_row p = Some row -> bool_decide (owner row = "notify-relay") = String.prefix notify_prefix p.
Proof.
  assert (Hn : In (default catch_all (TABLE !! 4%nat)) carve_outs) by (vm_compute; tauto).
  destruct (table_row_cases p) as [(r & Hin & Hm & Hc)|[Hnone Hc]]; rewrite Hc; intros [= <-].
  - destruct (String.prefix notify_prefix p) eqn:E.
    + by rewrite (one_carve_out r _ p Hin Hn Hm E).
    + apply bool_decide_eq_false. intros Ho. enough (r = default catch_all (TABLE !! 4%nat)) as ->.
      { unfold rule_matches in Hm. change notify_prefix with (rule_prefix (default catch_all (TABLE !! 4%nat))) in E. congruence. }
      clear -Hin Ho. repeat (destruct Hin as [<-|Hin]; [done|]). done.
  - symmetry. exact (Hnone _ Hn).
Qed.

Lemma owner_deployed b p row :
  table_row p = Some row -> String.prefix "/docs" p = false -> exists r, upstream b (owner row) = Some r.
Proof.
  intros Hc Hd. destruct (table_row_cases p) as [(r & Hin & Hm & Hc')|[_ Hc']]; rewrite Hc' in Hc; injection Hc as <-.
  - destruct Hin as [<-|Hin]; [change (String.prefix "/docs" p = true) in Hm; congruence|].
    repeat (destruct Hin as [<-|Hin]; [by eexists|]). done.
  - by eexists.
Qed.

(** C20. The merged process and the edge with its five services are one public interface:
    whatever is compiled in and switched on, every request for a canonical path outside
    the health probes and the documentation is answered by the merged process with the
    same handler, the same 404 or 405 dialect and the same layers as by the service that
    the edge, serving the rendered route table, sends it to, and there is exactly one
    such service.  Canonical: lower case, without escapes, doubled slashes or dot
    segments.  On other paths the edge's matcher and the process's own may differ. *)
Theorem merged_answers_as_edge A e b m p :
  AxumLaws A -> EdgeLaws e -> canonical p = true -> p ∉ HEALTH -> String.prefix "/docs" p = false ->
  exists row r, (forall row', caddy_serves e row' p <-> row' = row) /\ upstream b (owner row) = Some r /\
    ax_answer A (all_in_one_app b) m p = ax_answer A r m p.
Proof.
  intros HA He Hcan Hh Hd. rewrite answer_determined by done.
  assert (Hrow : exists row, table_row p = Some row)
    by (destruct (table_row_cases p) as [(? & _ & _ & ->)|[_ ->]]; by eexists).
  destruct Hrow as [row Hrow]. destruct (owner_deployed b p row Hrow Hd) as [r Hr].
  exists row, r. split_and!; [by apply caddy_row_unique|done|]. rewrite answer_determined by done.
  destruct (decide (p ∈ public_paths)) as [Hp|Hp].
  - apply (agrees_public b m) in Hp. unfold agrees in Hp. rewrite Hrow, Hr in Hp. by apply bool_decide_eq_true in Hp.
  - assert (Ho : off_paths p) by (by apply not_elem_of_app).
    rewrite (answer_off _ m p _ _ (merged_look b p Ho Hd) (merged_fallback b)).
    rewrite (answer_off _ m p _ _ (upstream_look b _ r p Hr Ho) (upstream_fallback b _ r Hr)).
    f_equal. rewrite (notify_owner p row Hrow). cbn [run_fallback]. unfold fallback.
    by destruct (String.prefix notify_prefix p).
Qed.

(** No two surfaces mount the same path, so merging them does not panic. *)
Lemma merge_disjoint b : NoDup (paths (all_in_one_app b)).
Proof. destruct b as [[] [] [] []]; refine (bool_decide_eq_true_1 _ _); vm_compute; reflexivity. Qed.

(** The gate and the rate limit of search guard its handler alone: a request of the
    wrong method is answered with the JSON 404 and nothing else. *)
Lemma search_gate_guards_get b m :
  answer (all_in_one_app b) m "/api/v1/usernames/search" =
  if serves GET m then {| a_layers := STACK ++ [RateLimit "search"; PocGate]; a_end := Handled "search_usernames" |}
  else {| a_layers := STACK; a_end := JsonNotFound |}.
Proof. destruct b as [[] [] [] []], m; vm_compute; reflexivity. Qed.

(** ** Two edges to run: one that takes the path as it is, one that folds its case *)

Definition plain_edge : Edge := {| path_form := fun p => p |}.
Definition folding_edge : Edge := {| path_form := to_ascii_lowercase |}.

Lemma canonical_lower c : canonical_char c = true -> ascii_lower c = c.
Proof. destruct c as [[] [] [] [] [] [] [] []]; vm_compute; done. Qed.

#[export] Instance plain_edge_laws : EdgeLaws plain_edge.
Proof. by constructor. Qed.

#[export] Instance folding_edge_laws : EdgeLaws folding_edge.
Proof.
  constructor. intros path Hp. unfold canonical in Hp. rewrite !andb_true_iff in Hp.
  destruct Hp as [[[[_ Hc] _] _] _]. cbn. induction path as [|c path IH]; [done|]. cbn [all_chars] in Hc.
  apply andb_true_iff in Hc as [Hc Hp]. cbn [to_ascii_lowercase]. by rewrite IH, canonical_lower.
Qed.

(** Off the canonical paths the edge and the merged process can part: an edge that folds
    case serves [/API/V1/NOTIFY] from the relay, which answers its empty 404, and the
    merged process answers the JSON 404. *)
Example case_parts_edge_and_merged :
  caddy_serves folding_edge (default catch_all (TABLE !! 4%nat)) "/API/V1/NOTIFY" /\
  owner (default catch_all (TABLE !! 4%nat)) = "notify-relay" /\
  a_end (answer (all_in_one_app everything) POST "/API/V1/NOTIFY") = JsonNotFound /\
  (a_end <$> ((fun r => answer r POST "/API/V1/NOTIFY") <$> upstream everything "notify-relay")) = Some EmptyNotFound.
Proof.
  split; [|split; [done|split; vm_compute; reflexivity]].
  apply carve_out_caddy; [vm_compute; tauto|vm_compute; reflexivity].
Qed.

(** ** Witnesses *)

Lemma edges_agree_witness :
  exists row, (forall row', caddy_serves folding_edge row' "/api/v1/notifyfoo" <-> row' = row) /\
    owner row = "notify-relay" /\ traefik_serves plain_edge row "/api/v1/notifyfoo".
Proof.
  destruct (edges_agree folding_edge plain_edge "/api/v1/notifyfoo") as (row & Hd & Hc & Ht);
    [exact _|exact _|vm_compute; reflexivity|].
  exists row. split_and!; [exact Hc| |by apply Ht].
  assert (Hn : row = default catch_all (TABLE !! 4%nat)).
  { symmetry. apply (proj1 (Hc _)), carve_out_caddy; [vm_compute; tauto|vm_compute; reflexivity]. }
  by rewrite Hn.
Defined.

Lemma merged_answers_as_edge_witness :
  exists row r, (forall row', caddy_serves folding_edge row' "/api/v1/notify/bogus" <-> row' = row) /\
    upstream everything (owner row) = Some r /\
    ax_answer model (all_in_one_app everything) POST "/api/v1/notify/bogus" =
    ax_answer model r POST "/api/v1/notify/bogus".
Proof.
  apply (merged_answers_as_edge model folding_edge everything POST "/api/v1/notify/bogus").
  - exact model_laws.
  - exact folding_edge_laws.
  - vm_compute. reflexivity.
  - apply (bool_decide_eq_true_1 _). vm_compute. reflexivity.
  - vm_compute. reflexivity.
Defined.

End RouteProps.
