(* ===== verification/Health.v ===== *)
(** * Health: readiness probes, their replies and their gauges

    The probe of every service and the replies of [/healthcheck], [/livez] and
    [/readyz] ([http-common/health.rs], [http/health.rs] of [device-attestation] and
    [username-indexer], the [readiness] functions of the others), the aggregate probe
    of the merged process ([roles/all_in_one.rs]), the gauges published from the
    probe ([http-common/metrics.rs]) and the log format ([telemetry.rs]). *)

From S2P Require Import Prelude Strings Text.

#[local] Open Scope dub_scope.
#[local] Open Scope string_scope.
#[local] Open Scope Z_scope.

Module Health.

(** ** Probes *)

(** Every component that answered, in report order, or the first that did not. *)
Abbreviation Readiness := (result (list string) string).

(** [db] and [chain] say whether [SELECT 1] and the chain's health call succeeded. *)
Definition attestation_probe (db chain : bool) : Readiness :=
  if negb db then Err "db" else if negb chain then Err "chain" else Ok ["db"; "chain"].
Definition indexer_probe (db chain : bool) : Readiness :=
  if negb db then Err "db" else if negb chain then Err "chain" else Ok ["db"; "chain"].
Definition invite_readiness (db : bool) : Readiness := if negb db then Err "db" else Ok ["db"].
Definition turn_readiness : Readiness := Ok [].
Definition notify_readiness : Readiness := Ok [].

(** ** Replies *)

(** A field of a reply: text, a nested object of texts, or a freshness snapshot. *)
Inductive Field := Text (s : string) | Parts (m : gmap string string) | Snapshot (s : option string).
Abbreviation Body := (gmap string Field).
Abbreviation Reply := (Z * Body)%type.

Definition status_and_service (status service : string) : Body :=
  <[ "status" := Text status ]> (<[ "service" := Text service ]> ∅).

Definition status_body (service status : string) : Reply := (200, status_and_service status service).

Definition up_fields (components : list string) (body : Body) : Body :=
  foldl (fun b c => <[ c := Text "up" ]> b) body components.

(** [http-common]'s [/readyz]. *)
Definition readyz (service : string) (r : Readiness) : Reply :=
  match r with
  | Ok components => (200, up_fields components (status_and_service "ready" service))
  | Err component => (503, <[ component := Text "down" ]> (status_and_service "unavailable" service))
  end.

Definition attestation_readyz (r : Readiness) : Reply :=
  match r with
  | Err c =>
      if bool_decide (c = "db")
      then (503, <[ "db" := Text "down" ]> (status_and_service "unavailable" "device-attestation"))
      else (503, <[ "chain" := Text "down" ]> (status_and_service "unavailable" "device-attestation"))
  | Ok _ =>
      (200, <[ "db" := Text "up" ]> (<[ "chain" := Text "up" ]> (status_and_service "ready" "device-attestation")))
  end.

(** The indexer adds its freshness; [None] is the JSON null. *)
Definition indexer_readyz (freshness : option string) (r : Readiness) : Reply :=
  match r with
  | Err c =>
      if bool_decide (c = "db")
      then (503, <[ "db" := Text "down" ]> (status_and_service "unavailable" "username-indexer"))
      else (503, <[ "chain" := Text "down" ]> (status_and_service "unavailable" "username-indexer"))
  | Ok _ =>
      (200, <[ "freshness" := Snapshot freshness ]>
              (<[ "db" := Text "up" ]> (<[ "chain" := Text "up" ]> (status_and_service "ready" "username-indexer"))))
  end.

(** ** The merged process *)

Definition service_parts (outcome : Readiness) : gmap string string :=
  match outcome with
  | Ok components => foldl (fun m c => <[ c := "up" ]> m) ∅ components
  | Err component => {[ component := "down" ]}
  end.

(** One turn of the loop over the results: the body, whether all were ready, and how
    many were not. *)
Definition merge_result (acc : Body * bool * nat) (result : string * Readiness) : Body * bool * nat :=
  let '(body, ready, degraded) := acc in
  let '(service, outcome) := result in
  let body := <[ service := Parts (service_parts outcome) ]> body in
  match outcome with
  | Ok _ => (body, ready, degraded)
  | Err _ => (body, false, S degraded)
  end.

Definition aggregate (results : list (string * Readiness)) : Reply :=
  let '(body, ready, degraded) :=
    foldl merge_result (status_and_service "ready" "all-in-one", true, 0%nat) results in
  if (ready : bool) then (200, body)
  else if (degraded <? length results)%nat then (200, <[ "status" := Text "degraded" ]> body)
  else (503, <[ "status" := Text "unavailable" ]> body).

(** What the probes of the surfaces meet. *)
Record Dependencies := {
  attestation_db : bool; attestation_chain : bool; indexer_db : bool; indexer_chain : bool;
  invite_db : option bool (** absent where the network has no invite tickets *) }.

Definition probe_results (d : Dependencies) : list (string * Readiness) :=
  ([("device-attestation-api", attestation_probe (attestation_db d) (attestation_chain d));
    ("username-indexer", indexer_probe (indexer_db d) (indexer_chain d))] ++
   match invite_db d with Some db => [("invite-tickets-api", invite_readiness db)] | None => [] end ++
   [("turn-api", turn_readiness); ("notify-relay", notify_readiness)])%list.

Definition all_in_one_readyz (d : Dependencies) : Reply := aggregate (probe_results d).

(** ** Gauges *)

(** [1.0], [0.0] and [NaN]. *)
Inductive Gauge := GaugeUp | GaugeDown | NotChecked.

Record Gauges := { dependency_up : gmap string Gauge; readyz_ok : option bool }.

Fixpoint plan_failed (failed : string) (after_failure : bool) (order : list string) : list (string * Gauge) :=
  match order with
  | [] => []
  | component :: rest =>
      if bool_decide (component = failed) then plan_failed failed true rest
      else (component, if after_failure then NotChecked else GaugeUp) :: plan_failed failed after_failure rest
  end.

Definition readiness_plan (r : Readiness) (probe_order : list string) : list (string * Gauge) :=
  match r with
  | Ok components => (fun c => (c, GaugeUp)) <$> components
  | Err failed => (plan_failed failed false probe_order ++ [(failed, GaugeDown)])%list
  end.

Definition set_gauges (plan : list (string * Gauge)) (m : gmap string Gauge) : gmap string Gauge :=
  foldl (fun m '(c, g) => <[ c := g ]> m) m plan.

Definition record_readiness (r : Readiness) (probe_order : list string) (g : Gauges) : list string * Gauges :=
  let m := set_gauges (readiness_plan r probe_order) (dependency_up g) in
  match r with
  | Ok components => (components, {| dependency_up := m; readyz_ok := Some true |})
  | Err _ => (probe_order, {| dependency_up := m; readyz_ok := Some false |})
  end.

(** The probing task: one verdict per tick, from an empty order. *)
Definition probe_task (verdicts : list Readiness) : list string * Gauges :=
  foldl (fun '(order, g) r => record_readiness r order g)
    ([], {| dependency_up := ∅; readyz_ok := None |}) verdicts.

Definition READINESS_PROBE_INTERVAL : Z := 30.

(** ** Switches of the exporter and of the logs *)

Definition parse_enabled (raw : option string) : bool :=
  match raw with
  | Some raw =>
      negb (bool_decide (to_ascii_lowercase (trim raw) ∈ ["false"; "no"; "off"; "0"; "n"]))
  | None => true
  end.

Definition DEFAULT_METRICS_ADDR : string := "0.0.0.0:9090".

(** [parse] is the standard library's parser of socket addresses. *)
Definition metrics_addr {Addr : Type} (parse : string -> option Addr) (raw : option string) : result Addr string :=
  let raw := default DEFAULT_METRICS_ADDR raw in
  match parse (trim raw) with Some a => Ok a | None => Err raw end.

(** How [spawn] ends: the exporter runs, or why it does not. *)
Inductive Exporter := Disabled | BadAddress (raw : string) | NotInstalled | Listening.

Definition spawn {Addr : Type} (parse : string -> option Addr) (enabled addr : option string) (installed : bool) : Exporter :=
  if negb (parse_enabled enabled) then Disabled
  else match metrics_addr parse addr with
       | Err raw => BadAddress raw
       | Ok _ => if installed then Listening else NotInstalled
       end.

Inductive Format := Json | Plain.

Definition parse_format (raw : option string) : Format :=
  match raw with
  | Some raw => if bool_decide (to_ascii_lowercase (trim raw) = "json") then Json else Plain
  | None => Plain
  end.

Definition unrecognized (raw : string) : bool :=
  negb (bool_decide (to_ascii_lowercase (trim raw) ∈ ["json"; "text"; EmptyString])).

(** ** The aggregate probe *)

Definition failed (outcome : Readiness) : bool := negb (is_ok outcome).

Definition failures (results : list (string * Readiness)) : nat := length (List.filter (fun r => failed (snd r)) results).

Lemma merge_counts results body ready n :
  exists body', foldl merge_result (body, ready, n) results =
    (body', ready && forallb (fun r => is_ok (snd r)) results, (n + failures results)%nat) /\
    (forall k, (k ∉ results.*1) -> body' !! k = body !! k) /\
    (NoDup results.*1 -> forall s o, In (s, o) results -> body' !! s = Some (Parts (service_parts o))).
Proof.
  revert body ready n. induction results as [|[s o] results IH]; intros body ready n; simpl.
  { exists body. rewrite andb_true_r, Nat.add_0_r. split_and!; [done|done|by intros _ ? ?]. }
  unfold failures, failed. simpl.
  destruct o as [components|component]; simpl;
  match goal with |- context [foldl merge_result (?b, ?r, ?d) results] => destruct (IH b r d) as (body' & -> & Hk & Hs) end.
  - exists body'. split_and!; [done|..].
    + intros k [Hne Hin]%not_elem_of_cons. rewrite Hk by done. by rewrite lookup_insert_ne.
    + intros [Hn Hd]%NoDup_cons s' o' [[= <- <-]|Hin]; [rewrite Hk by done; by rewrite lookup_insert_eq|by apply Hs].
  - exists body'. split_and!; [by rewrite andb_false_r, Nat.add_succ_r|..].
    + intros k [Hne Hin]%not_elem_of_cons. rewrite Hk by done. by rewrite lookup_insert_ne.
    + intros [Hn Hd]%NoDup_cons s' o' [[= <- <-]|Hin]; [rewrite Hk by done; by rewrite lookup_insert_eq|by apply Hs].
Qed.

Lemma failures_all results : (failures results = length results) <-> Forall (fun r => failed (snd r) = true) results.
Proof.
  unfold failures. induction results as [|r results IH]; simpl; [done|].
  rewrite Forall_cons. destruct (failed (snd r)) eqn:E; simpl.
  - rewrite <-IH. split; [intros [= ?]; done|intros [_ ->]; done].
  - split; [|by intros [? _]]. intros H. exfalso.
    pose proof (List.filter_length_le (fun r => failed (snd r)) results). lia.
Qed.

Lemma aggregate_exact results :
  NoDup results.*1 -> ("status" ∉ results.*1) ->
  exists body, aggregate results =
    ((if bool_decide (results <> []) && bool_decide (Forall (fun r => failed (snd r) = true) results) then 503 else 200), body) /\
  body !! "status" = Some (Text (
    if forallb (fun r => is_ok (snd r)) results then "ready"
    else if bool_decide (Forall (fun r => failed (snd r) = true) results) then "unavailable" else "degraded")) /\
  forall s o, In (s, o) results -> body !! s = Some (Parts (service_parts o)).
Proof.
  intros Hnd Hst. unfold aggregate.
  destruct (merge_counts results (status_and_service "ready" "all-in-one") true 0) as (body & -> & Hk & Hs).
  specialize (Hs Hnd). simpl.
  assert (Hins : forall t s o, In (s, o) results -> <[ "status" := Text t ]> body !! s = Some (Parts (service_parts o))).
  { intros t s o Hin. rewrite lookup_insert_ne; [by apply Hs|]. intros <-. apply Hst.
    apply list_elem_of_fmap. exists ("status", o). by rewrite list_elem_of_In. }
  destruct (forallb _ results) eqn:Eall; [|destruct (failures results <? length results)%nat eqn:El].
  - exists body. split_and!; [|by rewrite Hk|done]. destruct results as [|r results]; [done|].
    rewrite andb_false_intro2; [done|]. apply bool_decide_eq_false. intros Hf. apply Forall_cons in Hf as [Hf _].
    simpl in Eall. apply andb_true_iff in Eall as [Eall _]. unfold failed in Hf. by rewrite Eall in Hf.
  - exists (<[ "status" := Text "degraded" ]> body). rewrite (bool_decide_false (Forall _ _)).
    + rewrite andb_false_r, lookup_insert_eq. split_and!; [done|done|apply Hins].
    + intros Hf%failures_all. apply Nat.ltb_lt in El. lia.
  - exists (<[ "status" := Text "unavailable" ]> body). rewrite (bool_decide_true (Forall _ _)).
    + rewrite lookup_insert_eq. split_and!; [by destruct results|done|apply Hins].
    + apply failures_all. apply Nat.ltb_ge in El.
      pose proof (List.filter_length_le (fun r => failed (snd r)) results). unfold failures in *. lia.
Qed.

(** The merged process's [/readyz] never takes it out of rotation: whatever its
    databases and chains do, it answers 200, ready or degraded, with the components
    each surface's probe reported.  The branch that answers 503 is not reached, since
    the probes of turn and of notifications never fail. *)
Theorem merged_always_in_rotation d :
  exists body, all_in_one_readyz d = (200, body) /\
    body !! "status" = Some (Text (if forallb (fun r => is_ok (snd r)) (probe_results d) then "ready" else "degraded")) /\
    forall s o, In (s, o) (probe_results d) -> body !! s = Some (Parts (service_parts o)).
Proof.
  assert (Hd : NoDup (probe_results d).*1 /\ ("status" ∉ (probe_results d).*1)).
  { destruct d as [? ? ? ? [db|]]; split; refine (bool_decide_eq_true_1 _ _); vm_compute; reflexivity. }
  destruct (aggregate_exact (probe_results d) (proj1 Hd) (proj2 Hd)) as (body & Ha & Hs & Hp).
  assert (Hn : ~ Forall (fun r => failed (snd r) = true) (probe_results d)).
  { intros Hf. rewrite Forall_forall in Hf. specialize (Hf ("turn-api", turn_readiness)). simpl in Hf.
    enough (false = true) by done. apply Hf. unfold probe_results. rewrite !elem_of_app. right. right. by left. }
  rewrite (bool_decide_false (Forall _ _)) in Ha, Hs by done. rewrite andb_false_r in Ha.
  exists body. split_and!; [done|done|done].
Qed.

(** ** The gauges *)

(** A short-circuiting probe of components [order], each up or not. *)
Definition verdict (order : list string) (up : string -> bool) : Readiness :=
  match List.find (fun c => negb (up c)) order with Some c => Err c | None => Ok order end.

(** What such a probe establishes. *)
Fixpoint established (order : list string) (up : string -> bool) : list (string * Gauge) :=
  match order with
  | [] => []
  | c :: rest => if up c then (c, GaugeUp) :: established rest up
                 else (c, GaugeDown) :: ((fun c => (c, NotChecked)) <$> rest)
  end.

Lemma set_gauges_other plan m c : (c ∉ plan.*1) -> set_gauges plan m !! c = m !! c.
Proof.
  revert m. induction plan as [|[c' g'] plan IH]; intros m; [done|]. intros [Hne Hni]%not_elem_of_cons.
  change (set_gauges plan (<[ c' := g' ]> m) !! c = m !! c). rewrite IH by done. by apply lookup_insert_ne.
Qed.

Lemma set_gauges_lookup plan m c g :
  NoDup plan.*1 -> In (c, g) plan -> set_gauges plan m !! c = Some g.
Proof.
  revert m. induction plan as [|[c' g'] plan IH]; intros m Hn; [done|].
  apply NoDup_cons in Hn as [Hni Hn]. change (set_gauges ((c', g') :: plan) m) with (set_gauges plan (<[ c' := g' ]> m)).
  intros [[= <- <-]|Hin]; [|by apply IH]. rewrite set_gauges_other by done. apply lookup_insert_eq.
Qed.

Lemma plan_failed_after failed order :
  (failed ∉ order) -> plan_failed failed true order = (fun c => (c, NotChecked)) <$> order.
Proof.
  induction order as [|c order IH]; simpl; [done|]. intros [Hne Hni]%not_elem_of_cons.
  rewrite bool_decide_false by done. by rewrite IH.
Qed.

Lemma plan_established order up failed :
  NoDup order -> List.find (fun c => negb (up c)) order = Some failed ->
  (plan_failed failed false order ++ [(failed, GaugeDown)])%list ≡ₚ established order up.
Proof.
  induction order as [|c order IH]; simpl; [done|]. intros [Hni Hn]%NoDup_cons.
  destruct (up c) eqn:E; simpl.
  - intros Hf. rewrite bool_decide_false; [simpl; constructor; by apply IH|].
    intros ->. apply find_some in Hf as [Hin _]. by apply Hni, list_elem_of_In.
  - intros [= <-]. rewrite bool_decide_true by done. rewrite plan_failed_after by done.
    by rewrite Permutation_app_comm.
Qed.

Lemma plan_verdict order up :
  NoDup order -> readiness_plan (verdict order up) order ≡ₚ established order up.
Proof.
  intros Hn. unfold verdict. destruct (List.find _ order) as [c|] eqn:E; [by apply plan_established|].
  simpl. clear Hn. induction order as [|c order IH]; [done|]. simpl in *. destruct (up c); [|done].
  constructor. by apply IH.
Qed.

Lemma established_names order up : (established order up).*1 = order.
Proof.
  induction order as [|c order IH]; simpl; [done|]. destruct (up c); rewrite fmap_cons; simpl; f_equal; [exact IH|].
  rewrite <-list_fmap_compose. apply list_fmap_id.
Qed.

(** Once a probe has been healthy, the task knows the order. *)
Lemma order_known order h :
  fst (probe_task (verdict order <$> h)) = order \/
  fst (probe_task (verdict order <$> h)) = [] /\ Forall (fun up => is_ok (verdict order up) = false) h.
Proof.
  induction h as [|up h IH] using rev_ind; [by right|].
  unfold probe_task in *. rewrite fmap_app, foldl_app. cbn [fmap list_fmap foldl].
  destruct (foldl _ _ _) as [o g]. simpl in IH. unfold record_readiness.
  destruct (verdict order up) as [cs|c] eqn:E; simpl.
  - left. unfold verdict in E. by destruct (List.find _ order); simplify_eq.
  - destruct IH as [->|[-> H]]; [by left|right]. split; [done|]. apply Forall_app. split; [done|].
    constructor; [by rewrite E|done].
Qed.

(** The gauges say what the last probe found.  A probe checks the components in
    order and stops at the first that is down; once some probe has been healthy, after
    any further probes the gauges of the components before the failed one are up, its
    own is down, those behind it are not a number, and the overall gauge is up exactly
    when all are. *)
Theorem gauges_exact order h up later :
  NoDup order -> In up (h ++ [later]) -> is_ok (verdict order up) = true ->
  let g := snd (probe_task (verdict order <$> (h ++ [later])%list)) in
  (forall c v, In (c, v) (established order later) -> dependency_up g !! c = Some v) /\
  readyz_ok g = Some (forallb later order).
Proof.
  intros Hn Hup Hok. unfold probe_task. rewrite fmap_app, foldl_app. cbn [fmap list_fmap foldl].
  pose proof (order_known order h) as Ho. unfold probe_task in Ho. destruct (foldl _ _ _) as [o g]. simpl in Ho.
  assert (Hverdict : is_ok (verdict order later) = forallb later order).
  { unfold verdict. clear. induction order as [|c order IH]; simpl; [done|].
    destruct (later c); simpl; [|done]. rewrite <-IH. by destruct (List.find _ order). }
  assert (Hplan : readiness_plan (verdict order later) o ≡ₚ established order later).
  { destruct Ho as [->|[-> Hf]]; [by apply plan_verdict|].
    destruct (is_ok (verdict order later)) eqn:El.
    - rewrite <-plan_verdict by done. by destruct (verdict order later).
    - exfalso. apply in_app_iff in Hup as [Hin|[->|[]]]; [|congruence].
      rewrite List.Forall_forall in Hf. rewrite (Hf up Hin) in Hok. done. }
  unfold record_readiness. split.
  - intros c v Hin. destruct (verdict order later) as [cs|c'] eqn:E; cbn [snd dependency_up];
      (apply set_gauges_lookup; [|apply list_elem_of_In; rewrite Hplan; by apply list_elem_of_In]);
      rewrite Hplan, established_names; done.
  - rewrite <-Hverdict. by destruct (verdict order later).
Qed.

(** Before the first healthy probe a component that recovered stays down: the task
    has no order yet, so only the failed component is recorded. *)
Lemma recovered_component_stuck :
  let up_1 c := bool_decide (c = "chain") in let up_2 c := bool_decide (c = "db") in
  let g := snd (probe_task (verdict ["db"; "chain"] <$> [up_1; up_2])) in
  In ("db", GaugeUp) (established ["db"; "chain"] up_2) /\ dependency_up g !! "db" = Some GaugeDown.
Proof. vm_compute. split; [by left|reflexivity]. Qed.

Lemma gauges_exact_witness :
  let up c := bool_decide (c = "db") in
  let g := snd (probe_task (verdict ["db"; "chain"] <$> ([fun _ => true] ++ [up])%list)) in
  (forall c v, In (c, v) (established ["db"; "chain"] up) -> dependency_up g !! c = Some v) /\
  readyz_ok g = Some (forallb up ["db"; "chain"]).
Proof.
  refine (gauges_exact ["db"; "chain"] [fun _ => true] (fun _ => true) (fun c => bool_decide (c = "db")) _ _ _).
  - refine (bool_decide_eq_true_1 _ _). vm_compute. reflexivity.
  - by left.
  - reflexivity.
Defined.

End Health.
