(* ===== verification/Roles.v ===== *)
(** * Roles: the command line and the processes it starts

    The arguments of the one binary ([dub/src/main.rs]), the roles it accepts and
    dispatches ([roles.rs]), the steps each role takes until it serves ([roles/]), and
    the health probe of the image ([healthcheck.rs]).  The merged role serves the TURN
    surface without starting the tasks that read ring roots. *)

From stdpp Require Import gmap.
From S2P Require Import Prelude Strings Text Limiter Turn TurnProps.

#[local] Open Scope dub_scope.
#[local] Open Scope string_scope.
#[local] Open Scope Z_scope.

Module Roles.

(** ** [roles.rs]

    [invite_tickets] is the compile-time switch of the network. *)

Definition ROLES (invite_tickets : bool) : list string :=
  (["device-attestation-api"; "username-indexer"] ++
   (if invite_tickets then ["invite-tickets-api"] else []) ++
   ["turn-api"; "notify-relay"; "device-attestation-chain-writer"; "registration-queue"] ++
   (if invite_tickets then ["invite-tickets-pool"] else []))%list.

Definition INVITE_TICKETS_ROLES : list string := ["invite-tickets-api"; "invite-tickets-pool"].
Definition MERGED_ROLES : list string := ["all-in-one"].

Definition WORKER_ROLES (invite_tickets : bool) : list string :=
  (["device-attestation-chain-writer"; "registration-queue"] ++
   (if invite_tickets then ["invite-tickets-pool"] else []))%list.

Definition accepts (invite_tickets : bool) (role : string) : bool :=
  bool_decide (role ∈ ROLES invite_tickets) || bool_decide (role ∈ MERGED_ROLES).

(** ** What a role does until it serves *)

Inductive Step :=
| InitTelemetry (service : string)
| SpawnMetrics (service : string)
| ReadConfig (service : string)
| ConnectDb (service : string)
| ConnectChain (service : string)
| NewState (service : string)
| BuildState (service : string)
| SpawnProbe (service : string)
| Bind
| SpawnRefresher (collection : Turn.PersonhoodCollection)
| Serve
| Work (worker : string).

(** Steps that cannot end the process: a failure is logged, or there is none. *)
Definition infallible (s : Step) : bool :=
  match s with
  | InitTelemetry _ | SpawnMetrics _ | SpawnProbe _ | SpawnRefresher _ => true
  | _ => false
  end.

(** The worker of the chain connects inside its own loop ([writer::run]). *)
Definition attestation_api_steps : list Step :=
  [InitTelemetry "device-attestation-api"; SpawnMetrics "device-attestation-api";
   ReadConfig "device-attestation"; ConnectDb "device-attestation"; ConnectChain "device-attestation";
   NewState "device-attestation"; SpawnProbe "device-attestation-api"; Bind; Serve].

Definition username_indexer_steps : list Step :=
  [InitTelemetry "username-indexer"; SpawnMetrics "username-indexer"; ReadConfig "username-indexer";
   ConnectDb "username-indexer"; ConnectChain "username-indexer"; BuildState "username-indexer";
   Bind; SpawnProbe "username-indexer"; Serve].

Definition invite_api_steps : list Step :=
  [InitTelemetry "invite-tickets-api"; SpawnMetrics "invite-tickets-api"; ReadConfig "invite-tickets";
   ConnectDb "invite-tickets"; NewState "invite-tickets"; SpawnProbe "invite-tickets-api"; Bind; Serve].

(** [proof] says whether proof-authorized issuance is configured. *)
Definition turn_api_steps (proof : bool) : list Step :=
  ([InitTelemetry "turn-api"; SpawnMetrics "turn-api"; ReadConfig "turn"; NewState "turn";
    SpawnProbe "turn-api"; Bind] ++
   (if proof then SpawnRefresher <$> Turn.ALL else []) ++ [Serve])%list.

Definition notify_relay_steps : list Step :=
  [InitTelemetry "notify-relay"; SpawnMetrics "notify-relay"; ReadConfig "notifications";
   BuildState "notifications"; SpawnProbe "notify-relay"; Bind; Serve].

Definition chain_writer_steps : list Step :=
  [InitTelemetry "device-attestation-chain-writer"; SpawnMetrics "device-attestation-chain-writer";
   ReadConfig "writer"; Work "writer"].

Definition registration_queue_steps : list Step :=
  [InitTelemetry "registration-queue"; SpawnMetrics "registration-queue"; ReadConfig "advancer";
   ConnectDb "device-attestation"; ConnectChain "device-attestation"; Work "advancer"].

Definition invite_pool_steps : list Step :=
  [InitTelemetry "invite-tickets-pool"; SpawnMetrics "invite-tickets-pool"; ReadConfig "maintainer"; Work "pool"].

Definition when (b : bool) (l : list Step) : list Step := if b then l else [].

Definition all_in_one_steps (invite_tickets : bool) : list Step :=
  ([InitTelemetry "all-in-one"; SpawnMetrics "all-in-one";
    ReadConfig "device-attestation"; ReadConfig "username-indexer"] ++
   when invite_tickets [ReadConfig "invite-tickets"] ++
   [ReadConfig "turn"; ReadConfig "notifications"; ConnectDb "device-attestation"; ConnectDb "username-indexer"] ++
   when invite_tickets [ConnectDb "invite-tickets"] ++
   [ConnectChain "device-attestation"; ConnectChain "username-indexer"; NewState "device-attestation";
    BuildState "username-indexer"] ++
   when invite_tickets [NewState "invite-tickets"] ++
   [NewState "turn"; BuildState "notifications"; Bind; Serve])%list.

(** [roles::run]: the role's steps, or [None] for a name with no arm. *)
Definition run (invite_tickets proof : bool) (role : string) : option (list Step) :=
  if bool_decide (role = "all-in-one") then Some (all_in_one_steps invite_tickets)
  else if bool_decide (role = "device-attestation-api") then Some attestation_api_steps
  else if bool_decide (role = "username-indexer") then Some username_indexer_steps
  else if invite_tickets && bool_decide (role = "invite-tickets-api") then Some invite_api_steps
  else if bool_decide (role = "turn-api") then Some (turn_api_steps proof)
  else if bool_decide (role = "notify-relay") then Some notify_relay_steps
  else if bool_decide (role = "device-attestation-chain-writer") then Some chain_writer_steps
  else if bool_decide (role = "registration-queue") then Some registration_queue_steps
  else if invite_tickets && bool_decide (role = "invite-tickets-pool") then Some invite_pool_steps
  else None.

(** The steps a process completes before the first that ends it. *)
Fixpoint boot (ok : Step -> bool) (steps : list Step) : list Step :=
  match steps with
  | [] => []
  | s :: rest => if infallible s || ok s then s :: boot ok rest else []
  end.

(** ** [main.rs] *)

Inductive Command := Run (role : string) | ListRoles | ListMergedRoles | Healthcheck (url : option string).

Inductive ArgError :=
| RequiresValue (flag : string)
| UnknownArgument (arg : string)
| UrlWithoutHealthcheck
| NoRole
| UnknownRole (role : string).

(** [--help] prints the usage and exits with success. *)
Inductive Parsed := Parse (c : Command) | Exit | Refuse (e : ArgError).

Definition finish_args (invite_tickets : bool) (role : option string) (healthcheck : bool) (url : option string) : Parsed :=
  if healthcheck then Parse (Healthcheck url)
  else match url with
       | Some _ => Refuse UrlWithoutHealthcheck
       | None =>
           match role with
           | None => Refuse NoRole
           | Some role => if accepts invite_tickets role then Parse (Run role) else Refuse (UnknownRole role)
           end
       end.

Fixpoint scan_args (invite_tickets : bool) (role : option string) (healthcheck : bool) (url : option string)
    (args : list string) : Parsed :=
  match args with
  | [] => finish_args invite_tickets role healthcheck url
  | flag :: rest =>
      if bool_decide (flag = "--role") then
        match rest with
        | v :: rest => scan_args invite_tickets (Some v) healthcheck url rest
        | [] => Refuse (RequiresValue "--role")
        end
      else if bool_decide (flag = "--url") then
        match rest with
        | v :: rest => scan_args invite_tickets role healthcheck (Some v) rest
        | [] => Refuse (RequiresValue "--url")
        end
      else if bool_decide (flag = "--healthcheck") then scan_args invite_tickets role true url rest
      else if bool_decide (flag = "--list-roles") then Parse ListRoles
      else if bool_decide (flag = "--list-merged-roles") then Parse ListMergedRoles
      else if bool_decide (flag = "--help") || bool_decide (flag = "-h") then Exit
      else Refuse (UnknownArgument flag)
  end.

Definition parse_args (invite_tickets : bool) (args : list string) : Parsed :=
  scan_args invite_tickets None false None args.

(** What [main] does with a command: prints lines, probes, or becomes a role. *)
Inductive Main := Prints (lines : list string) | Probes (url : option string) | Becomes (steps : option (list Step)).

Definition main (invite_tickets proof : bool) (c : Command) : Main :=
  match c with
  | ListRoles => Prints (ROLES invite_tickets)
  | ListMergedRoles => Prints MERGED_ROLES
  | Healthcheck url => Probes url
  | Run role => Becomes (run invite_tickets proof role)
  end.

(** ** [healthcheck.rs] *)

Definition url_for (bind : string) : result string string :=
  let port := match rsplit_once (ascii_of_nat 58) bind with Some (_, port) => port | None => bind end in
  if bool_decide (port = EmptyString) then Err ("BIND_ADDR (" +:+ bind +:+ ") has no port to probe")
  else Ok ("http://127.0.0.1:" +:+ port +:+ "/readyz").

Definition default_url (bind_addr : option string) : result string string :=
  url_for (default "0.0.0.0:8080" bind_addr).

(** [get] is the HTTP client: the status answered, or [None] when there was none. *)
Definition healthcheck_run (get : string -> option Z) (bind_addr url : option string) : result unit string :=
  let? url := match url with Some url => Ok url | None => default_url bind_addr end in
  match get url with
  | None => Err ("requesting " +:+ url)
  | Some status =>
      if (200 <=? status) && (status <? 300) then Ok tt else Err (url +:+ " answered " +:+ decimal status)
  end.

(** ** Every accepted role is dispatched *)

Lemma accepts_dispatched invite_tickets proof role :
  accepts invite_tickets role = true -> exists steps, run invite_tickets proof role = Some steps.
Proof.
  unfold accepts. rewrite <-bool_decide_or. intros H%bool_decide_eq_true.
  assert (Hin : role ∈ (ROLES invite_tickets ++ MERGED_ROLES)%list) by by apply elem_of_app.
  clear H. unfold ROLES, MERGED_ROLES in Hin.
  destruct invite_tickets; cbn in Hin; repeat (apply elem_of_cons in Hin as [->|Hin]; [by eexists|]); by apply elem_of_nil in Hin.
Qed.

Lemma scan_run invite_tickets role hc url args r :
  scan_args invite_tickets role hc url args = Parse (Run r) -> accepts invite_tickets r = true.
Proof.
  revert role hc url. induction args as [args IH] using (induction_ltof1 _ (@length string)); unfold ltof in IH.
  intros role hc url. destruct args as [|flag rest]; cbn [scan_args].
  - unfold finish_args. repeat case_match; naive_solver.
  - assert (Hrest : forall r0 h u, scan_args invite_tickets r0 h u rest = Parse (Run r) -> accepts invite_tickets r = true)
      by (intros; eapply IH; [|done]; simpl; lia).
    assert (Htail : forall v rest', rest = v :: rest' -> forall r0 h u,
              scan_args invite_tickets r0 h u rest' = Parse (Run r) -> accepts invite_tickets r = true)
      by (intros v rest' -> r0 h u Hs; eapply IH; [|exact Hs]; simpl; lia).
    repeat case_match; subst; try discriminate; eauto.
Qed.

(** A role named on the command line is one the process becomes: whatever the
    arguments and the network, if they select a role then it is one of the roles the
    binary lists, standard or merged, and its dispatch has an arm. *)
Theorem selected_role_runs invite_tickets proof args role :
  parse_args invite_tickets args = Parse (Run role) ->
  (role ∈ ROLES invite_tickets \/ role ∈ MERGED_ROLES) /\
  exists steps, main invite_tickets proof (Run role) = Becomes (Some steps).
Proof.
  intros H%scan_run. split.
  - unfold accepts in H. by rewrite orb_true_iff, !bool_decide_eq_true in H.
  - destruct (accepts_dispatched invite_tickets proof role H) as [steps Hs]. exists steps. simpl. by rewrite Hs.
Qed.

Lemma selected_role_runs_witness :
  exists steps, main true false (Run "turn-api") = Becomes (Some steps).
Proof. exact (proj2 (selected_role_runs true false ["--role"; "turn-api"] "turn-api" eq_refl)). Defined.

(** The two topologies share the workers and nothing else. *)
Lemma topologies_disjoint invite_tickets :
  (forall r, r ∈ MERGED_ROLES -> r ∉ ROLES invite_tickets) /\
  (forall r, r ∈ WORKER_ROLES invite_tickets -> r ∈ ROLES invite_tickets) /\
  NoDup (ROLES invite_tickets) /\
  Forall (fun r => bool_decide (r ∈ ROLES invite_tickets) = invite_tickets) INVITE_TICKETS_ROLES.
Proof.
  split_and!.
  - intros r ->%list_elem_of_singleton. destruct invite_tickets; refine (bool_decide_eq_true_1 _ _); vm_compute; reflexivity.
  - apply Forall_forall. destruct invite_tickets; refine (bool_decide_eq_true_1 _ _); vm_compute; reflexivity.
  - destruct invite_tickets; refine (bool_decide_eq_true_1 _ _); vm_compute; reflexivity.
  - destruct invite_tickets; repeat constructor.
Qed.

(** ** Ring roots in the two processes that serve the proof route *)

Section roots.
Context `{!Limiter.Governor} (cr : Turn.TurnCrates) (configured : bytes).

(** The cache of a collection: what its refresher left, in a process that started
    one; the empty cache otherwise.  [turns] is what each refresher meets. *)
Definition role_roots (steps : list Step) (turns : Turn.PersonhoodCollection -> list Turn.RefresherTurn)
    (c : Turn.PersonhoodCollection) : option (Turn.Snapshot cr * Z) :=
  if existsb (fun s => match s with SpawnRefresher c' => match c, c' with
                                    | Turn.PeopleLite, Turn.PeopleLite | Turn.People, Turn.People => true
                                    | _, _ => false
                                    end | _ => false end) steps
  then Turn.rf_cache cr (foldl (Turn.refresher_turn cr configured) (Turn.refresher_new cr) (turns c))
  else None.

Lemma merged_roots_empty invite_tickets turns c : role_roots (all_in_one_steps invite_tickets) turns c = None.
Proof. by destruct invite_tickets, c. Qed.

(** C31. The merged process mounts the proof route when it is configured but starts no
    refresher, so its ring roots stay empty: whatever the chain says and whoever
    asks, the route issues nothing. *)
Theorem merged_proof_never_issues invite_tickets turns env body s d :
  (forall c, Turn.pe_roots cr env c = role_roots (all_in_one_steps invite_tickets) turns c) ->
  fst (Turn.issue_with_proof cr env body s) <> Ok d.
Proof.
  intros Hroots. destruct body as [b|]; [|done]. cbn [Turn.issue_with_proof].
  destruct (Turn.check_proof cr env b) as [alias|e] eqn:E; [|done]. exfalso.
  apply TurnProps.check_proof_ok in E as (? & c & ? & snapshot & at_ & ? & _ & _ & _ & _ & _ & Hr & _).
  by rewrite Hroots, merged_roots_empty in Hr.
Qed.

End roots.

(** A request that the TURN role serves, refused by the merged role at the same
    moment: only the roots differ. *)
Module Demo.
Import Turn Limiter.Gcra TurnProps.Demo.

Definition demo_body : IssueWithProofBody :=
  {| pb_product_id := "app"; pb_collection := hex_encode (collection_id People); pb_proof := "0707";
     pb_ring_index := 0; pb_ring_revision := 0; pb_timestamp := 1700000000 |}.

Definition demo_env (steps : list Step) : ProofEnv demo :=
  {| pe_clock := 1000; pe_mono := 7; pe_now := 1700000001; pe_issued_at := 1700000001;
     pe_permit := Free; pe_joined := true; pe_answer := Responded 201 (Ok good);
     pe_contexts := {[ "app" := [1] ]};
     pe_roots := role_roots demo [9] steps (fun _ => demo_turns) |}.

Definition served : Issued := {| d_servers := ["turn:x"]; d_username := "u"; d_password := "p"; d_ttl := 600 |}.

Lemma merged_proof_never_issues_witness :
  fst (issue_with_proof demo (demo_env (turn_api_steps true)) (Some demo_body) demo_state) = Ok served /\
  fst (issue_with_proof demo (demo_env (all_in_one_steps true)) (Some demo_body) demo_state) <> Ok served.
Proof.
  split; [vm_compute; reflexivity|].
  apply (merged_proof_never_issues demo [9] true (fun _ => demo_turns)). intros c. reflexivity.
Defined.
End Demo.

End Roles.
