(* ===== verification/Mint.v ===== *)
(** * Mint: the voucher minting tool

    The command-line tool that draws voucher keys, stores their hashes in one
    transaction, and prints the keys once it has committed
    ([bin/voucher_mint.rs]), together with the lane that redeems them
    ([eligibility.rs]).  The random bytes, the base64 and hash crates, and the date
    arithmetic of the [time] crate (which panics past its last year) are parameters. *)

From S2P Require Import Prelude Strings Text Schema Outbox Eligibility.

#[local] Open Scope dub_scope.
#[local] Open Scope string_scope.
#[local] Open Scope Z_scope.

Module Mint.
Import Eligibility.

(** ** Arguments *)

Record Args := { count : Z; ttl_days : Z; batch : option string }.

Inductive ArgError :=
| RequiresValue (flag : string)
| NotANumber (flag : string)
| UnknownArgument (arg : string)
| AtLeastOne.

(** [None] inside is [--help], which exits with success. *)
Fixpoint scan_args (a : Args) (args : list string) : result (option Args) ArgError :=
  match args with
  | [] => if (count a =? 0) || (ttl_days a =? 0) then Err AtLeastOne else Ok (Some a)
  | flag :: rest =>
      if bool_decide (flag = "--count") then
        match rest with
        | [] => Err (RequiresValue "--count")
        | v :: rest =>
            match parse_unsigned U32_MAX v with
            | None => Err (NotANumber "--count")
            | Some n => scan_args {| count := n; ttl_days := ttl_days a; batch := batch a |} rest
            end
        end
      else if bool_decide (flag = "--ttl-days") then
        match rest with
        | [] => Err (RequiresValue "--ttl-days")
        | v :: rest =>
            match parse_unsigned U32_MAX v with
            | None => Err (NotANumber "--ttl-days")
            | Some n => scan_args {| count := count a; ttl_days := n; batch := batch a |} rest
            end
        end
      else if bool_decide (flag = "--batch") then
        match rest with
        | [] => Err (RequiresValue "--batch")
        | v :: rest => scan_args {| count := count a; ttl_days := ttl_days a; batch := Some v |} rest
        end
      else if bool_decide (flag = "--help") || bool_decide (flag = "-h") then Ok None
      else Err (UnknownArgument flag)
  end.

Definition parse_args (args : list string) : result (option Args) ArgError :=
  scan_args {| count := 1; ttl_days := 30; batch := None |} args.

Lemma parse_args_positive args a : parse_args args = Ok (Some a) -> 1 <= count a <= U32_MAX /\ 1 <= ttl_days a <= U32_MAX.
Proof.
  assert (H : forall n args a0 a, (length args <= n)%nat ->
    0 <= count a0 <= U32_MAX -> 0 <= ttl_days a0 <= U32_MAX -> scan_args a0 args = Ok (Some a) ->
    1 <= count a <= U32_MAX /\ 1 <= ttl_days a <= U32_MAX); [|intros Ha; eapply (H (length args)); [done|..|exact Ha]; simpl; unfold U32_MAX; lia].
  clear. induction n as [|n IH]; intros args a0 a Hl Hc Ht; (destruct args as [|flag [|v rest]]; cbn [scan_args length] in *; [|try lia..]).
  1, 2: destruct ((count a0 =? 0) || (ttl_days a0 =? 0)) eqn:E; [done|]; intros [= <-]; bool_prop; lia.
  - repeat case_match; naive_solver.
  - assert (Hv : forall x, parse_unsigned U32_MAX v = Some x -> 0 <= x <= U32_MAX)
      by (intros x; apply parse_unsigned_range; unfold U32_MAX; lia).
    repeat case_match; try done; intros Hs; (eapply IH; [..|exact Hs]); simpl; try lia; eauto.
Qed.

(** ** Minting *)

Section mint.
Context (sha256 : bytes -> bytes) (encode : bytes -> string) (add_days : Z -> Z -> option Z) (date_text : Z -> string).

Inductive MintError := NoDatabaseUrl | NoDatabase | OutOfRange | Statement | Duplicate.

(** One [INSERT]; a key hash that is already stored violates the primary key. *)
Definition insert_voucher (now : Z) (batch : string) (expires_at : Z) (key : string) (db : Db)
    : result unit MintError * Db :=
  match db_vouchers db !! key_hash sha256 key with
  | Some _ => (Err Duplicate, db)
  | None =>
      (Ok tt, with_vouchers (<[ key_hash sha256 key := {| v_minted_batch := batch; v_created_at := now;
                                                          v_expires_at := expires_at; v_used_at := None |} ]>
                               (db_vouchers db)) db)
  end.

(** The body of the transaction; [ok i] says whether the connection carried the
    [i]-th statement. *)
Fixpoint insert_vouchers (ok : nat -> bool) (i : nat) (now : Z) (batch : string) (expires_at : Z) (keys : list string)
    (db : Db) : result unit MintError * Db :=
  match keys with
  | [] => (Ok tt, db)
  | key :: rest =>
      if negb (ok i) then (Err Statement, db)
      else match insert_voucher now batch expires_at key db with
           | (Err e, db') => (Err e, db')
           | (Ok _, db') => insert_vouchers ok (S i) now batch expires_at rest db'
           end
  end.

(** What a run meets: the configured database, the clocks of the tool and of the
    database, the random bytes, the statements and the commit. *)
Record Env := {
  e_url : bool; e_connected : bool; e_now : Z; e_db_now : Z; e_random : nat -> bytes;
  e_statements : nat -> bool; e_commit : DbFate }.

Definition keys_of (env : Env) (n : Z) : list string := (fun i => encode (e_random env i)) <$> seq 0 (Z.to_nat n).

(** The keys printed, or the error; and the database it leaves. *)
Definition mint (env : Env) (args : Args) (db : Db) : result (list string) MintError * Db :=
  if negb (e_url env) then (Err NoDatabaseUrl, db)
  else if negb (e_connected env) then (Err NoDatabase, db)
  else
    match add_days (e_now env) (ttl_days args) with
    | None => (Err OutOfRange, db)
    | Some expires_at =>
        let batch := default ("mint-" +:+ date_text (e_now env)) (batch args) in
        let keys := keys_of env (count args) in
        match run_stmt (e_commit env)
                (txn (insert_vouchers (e_statements env) 0 (e_db_now env) batch expires_at keys)) db with
        | (Some (Ok _), db') => (Ok keys, db')
        | (Some (Err e), db') => (Err e, db')
        | (None, db') => (Err Statement, db')
        end
    end.

(** ** Lemmas *)

(** A committed batch: every key is new, unused and expires when stated; every other
    voucher, and every other table, is as it was. *)
Lemma insert_vouchers_ok ok i now b expires keys db u db' :
  insert_vouchers ok i now b expires keys db = (Ok u, db') ->
  db' = with_vouchers (db_vouchers db') db /\
  (forall key, key ∈ keys -> db_vouchers db !! key_hash sha256 key = None /\
     db_vouchers db' !! key_hash sha256 key = Some {| v_minted_batch := b; v_created_at := now; v_expires_at := expires; v_used_at := None |}) /\
  (forall h, (h ∉ key_hash sha256 <$> keys) -> db_vouchers db' !! h = db_vouchers db !! h).
Proof.
  revert i db. induction keys as [|key keys IH]; intros i db; cbn [insert_vouchers].
  { intros [= <- <-]. split; [by destruct db|]. split; [by intros ? ?%elem_of_nil|done]. }
  destruct (ok i); [|done]. cbn [negb]. unfold insert_voucher.
  destruct (db_vouchers db !! key_hash sha256 key) eqn:Ek; [done|]. intros H.
  apply IH in H as (Hdb & Hkeys & Hrest). simpl in Hkeys, Hrest. split_and!.
  - rewrite Hdb. by destruct db.
  - intros k [->|Hk]%elem_of_cons.
    + split; [done|]. destruct (decide (key_hash sha256 key ∈ key_hash sha256 <$> keys)) as [Hin|Hin].
      * apply list_elem_of_fmap in Hin as (k' & Heq & Hin). apply Hkeys in Hin as [Hnone _].
        rewrite <-Heq, lookup_insert_eq in Hnone. done.
      * rewrite Hrest by done. apply lookup_insert_eq.
    + destruct (Hkeys k Hk) as [Hnone Hsome]. split; [|done].
      destruct (decide (key_hash sha256 key = key_hash sha256 k)) as [Heq|Hne].
      * by rewrite Heq, lookup_insert_eq in Hnone.
      * by rewrite lookup_insert_ne in Hnone.
  - intros h [Hne Hni]%not_elem_of_cons. rewrite Hrest by done. by apply lookup_insert_ne.
Qed.

Lemma mint_ok env args db keys db' :
  mint env args db = (Ok keys, db') ->
  exists expires b, add_days (e_now env) (ttl_days args) = Some expires /\ keys = keys_of env (count args) /\
    e_commit env = Fine /\
    insert_vouchers (e_statements env) 0 (e_db_now env) b expires keys db = (Ok tt, db').
Proof.
  unfold mint. destruct (e_url env); [|done]. destruct (e_connected env); [|done]. cbn [negb].
  destruct (add_days _ _) as [expires|]; [|done].
  destruct (e_commit env); simpl; [|done|done].
  destruct (txn _ db) as [[[]|e] d] eqn:Et; [|done]. intros [= <- <-]. rewrite txn_ok in Et.
  eexists _, _. split_and!; [done|done|done|exact Et].
Qed.

(** A run that prints no keys, and did not lose the acknowledgement of its commit,
    left no voucher behind. *)
Lemma mint_err env args db e db' :
  mint env args db = (Err e, db') -> e_commit env <> AckLost -> db_equiv db db'.
Proof.
  unfold mint. destruct (e_url env); [|by intros [= <- <-]]. destruct (e_connected env); [|by intros [= <- <-]]. cbn [negb].
  destruct (add_days _ _) as [expires|]; [|by intros [= <- <-]].
  destruct (e_commit env); simpl; [|by intros [= <- <-]|done].
  destruct (txn _ db) as [[[]|e'] d] eqn:Et; [done|]. intros [= <- <-] _. by eapply txn_err_equiv.
Qed.

(** A redeemable voucher and a free name make a reservation. *)
Lemma redeem_free now app_now key new db :
  voucher_state sha256 now key db = Redeemable -> is_ok (insert now new db).1 = true ->
  exists i db', redeem_and_reserve sha256 now app_now Fine key new db = (Ok i, db').
Proof.
  intros Hv Hi. unfold redeem_and_reserve, run_stmt, txn, redeem_txn.
  destruct (burn sha256 now key db) as [b d] eqn:Eb. pose proof (burn_spec sha256 now key db b d Eb) as [Hb _].
  rewrite (proj2 Hb Hv) in Eb |- *.
  assert (Hd : exists t, d = with_vouchers t db).
  { unfold burn in Eb. repeat destr_match_in Eb; simplify_eq. by eexists. }
  destruct Hd as [t ->].
  assert (Hsame : (insert now new (with_vouchers t db)).1 = (insert now new db).1)
    by (unfold insert, insert_with; simpl; by repeat destr_match).
  rewrite <-Hsame in Hi. destruct (insert now new (with_vouchers t db)) as [[i|e] d]; [|done]. by exists i, d.
Qed.

(** A printed key is a voucher: as many keys are printed as were asked for, each is
    stored under its hash and takes the instant lane until the stated day and is
    expired from then on, its first redemption for a free name reserves it and its
    second is refused; vouchers minted before are unchanged.  A run that fails before
    its commit could be lost stores nothing. *)
Theorem minted_voucher_redeems env args db :
  (forall n d t, add_days n d = Some t -> t = n + d * 86400000000) ->
  match mint env args db with
  | (Ok keys, db') =>
      length keys = Z.to_nat (count args) /\
      (forall key, key ∈ keys -> voucher_state sha256 (e_now env) key db = Unknown /\
         forall now, decide_lane (Some (voucher_state sha256 now key db')) =
           if now <? e_now env + ttl_days args * 86400000000 then Ok Instant else Err VExpired) /\
      (forall key now app_now new, key ∈ keys -> now < e_now env + ttl_days args * 86400000000 ->
         is_ok (insert now new db').1 = true ->
         exists i db'', redeem_and_reserve sha256 now app_now Fine key new db' = (Ok i, db'') /\
           forall later app_later fate new', is_ok (redeem_and_reserve sha256 later app_later fate key new' db'').1 = false) /\
      (forall key now, (key_hash sha256 key ∉ key_hash sha256 <$> keys) ->
         voucher_state sha256 now key db' = voucher_state sha256 now key db)
  | (Err _, db') => e_commit env <> AckLost -> db_equiv db db'
  end.
Proof.
  intros Hadd. destruct (mint env args db) as [[keys|e] db'] eqn:E; [|intros Hf; by eapply mint_err].
  apply mint_ok in E as (expires & b & He%Hadd & -> & _ & Hins).
  apply insert_vouchers_ok in Hins as (Hdb & Hkeys & Hrest). split_and!.
  - unfold keys_of. by rewrite length_fmap, length_seq.
  - intros key Hk. destruct (Hkeys key Hk) as [Hn Hs]. unfold voucher_state. rewrite Hn, Hs. split; [done|].
    intros now. simpl. rewrite He. destruct (_ <=? now) eqn:El; bool_prop; simpl.
    + destruct (now <? _) eqn:El'; bool_prop; [lia|done].
    + destruct (now <? _) eqn:El'; bool_prop; [done|lia].
  - intros key now app_now new Hk Hnow Hfree. destruct (Hkeys key Hk) as [_ Hs].
    assert (Hv : voucher_state sha256 now key db' = Redeemable).
    { unfold voucher_state. rewrite Hs. simpl. destruct (expires <=? now) eqn:El; bool_prop; [lia|done]. }
    destruct (redeem_free now app_now key new db' Hv Hfree) as (i & db'' & Hr). exists i, db''. split; [done|].
    intros later app_later fate new'. apply redeem_used_fails. by apply redeem_Ok in Hr as (_ & _ & Hu & _).
  - intros key now Hk. unfold voucher_state. by rewrite Hrest.
Qed.
End mint.

(** ** A concrete run *)

Module Demo.
Definition demo_env : Env :=
  {| e_url := true; e_connected := true; e_now := 1000; e_db_now := 1001; e_random := fun i => [Z.of_nat i];
     e_statements := fun _ => true; e_commit := Fine |}.

Definition demo_args : Args := {| count := 2; ttl_days := 30; batch := None |}.

Lemma minted_voucher_redeems_witness :
  parse_args ["--count"; "2"] = Ok (Some demo_args) /\
  match mint (fun b => b) hex_encode (fun n d => Some (n + d * 86400000000)) decimal demo_env demo_args empty_db with
  | (Ok keys, db') => keys = ["00"; "01"] /\
      (voucher_state (fun b => b) 1000 "00" empty_db = Unknown /\
       forall now, decide_lane (Some (voucher_state (fun b => b) now "00" db')) =
         if now <? 1000 + 30 * 86400000000 then Ok Instant else Err VExpired)
  | (Err _, _) => False
  end.
Proof.
  split; [vm_compute; reflexivity|].
  pose proof (minted_voucher_redeems (fun b => b) hex_encode (fun n d => Some (n + d * 86400000000)) decimal
                demo_env demo_args empty_db ltac:(by intros n d t [= <-])) as H.
  remember (mint _ _ _ _ demo_env demo_args empty_db) as m eqn:Em.
  assert (Hk : match fst m with Ok keys => keys = ["00"; "01"] | Err _ => False end) by (rewrite Em; vm_compute; reflexivity).
  destruct m as [[keys|e] db']; [|done]. simpl in Hk. subst keys. split; [done|].
  destruct H as (_ & H & _). apply H. by left.
Defined.
End Demo.

End Mint.
