(* ===== verification/ChainTypes.v ===== *)
(** * ChainTypes: transaction extensions of the two chains

    The tuples of transaction extensions the binary encodes with, the extensions it
    leaves out by a constant ([Noop]), the builders of their parameters, and the
    runtimes a deployment is known to have talked to, the vendored metadata behind its
    lazy statics, and the configs that delegate to Polkadot's ([chain-types/src/lib.rs]).
    The types generated from chain metadata, and the extensions of the [subxt] crate, are
    parameters of the client ([ChainClient.v]). *)

From S2P Require Import Prelude Strings.

#[local] Open Scope string_scope.
#[local] Open Scope Z_scope.

Module ChainTypes.

(** ** [noop_names!] *)

Inductive NoopName :=
| UnitTransactionExtension | AuthorizeValueTransfer | AsPerson | AsProofOfInkParticipant
| ScoreAsParticipant | GameAsInvited | PeopleLiteAuth | AsMember | AsCoinage | AsResources
| HonourAuth | AuthorizeCall | RestrictOrigins | CheckNonZeroSender | CheckWeight
| StorageWeightReclaim | AsPgas | AsRingAlias | AsScarcity | AsDotnsGateway | EthSetOrigin
| VerifyMultiSignature | PrevalidateAttests.
#[export] Instance NoopName_eq_dec : EqDecision NoopName.
Proof. solve_decision. Defined.

Definition NAME (n : NoopName) : string :=
  match n with
  | UnitTransactionExtension => "UnitTransactionExtension"
  | AuthorizeValueTransfer => "AuthorizeValueTransfer"
  | AsPerson => "AsPerson"
  | AsProofOfInkParticipant => "AsProofOfInkParticipant"
  | ScoreAsParticipant => "ScoreAsParticipant"
  | GameAsInvited => "GameAsInvited"
  | PeopleLiteAuth => "PeopleLiteAuth"
  | AsMember => "AsMember"
  | AsCoinage => "AsCoinage"
  | AsResources => "AsResources"
  | HonourAuth => "HonourAuth"
  | AuthorizeCall => "AuthorizeCall"
  | RestrictOrigins => "RestrictOrigins"
  | CheckNonZeroSender => "CheckNonZeroSender"
  | CheckWeight => "CheckWeight"
  | StorageWeightReclaim => "StorageWeightReclaim"
  | AsPgas => "AsPgas"
  | AsRingAlias => "AsRingAlias"
  | AsScarcity => "AsScarcity"
  | AsDotnsGateway => "AsDotnsGateway"
  | EthSetOrigin => "EthSetOrigin"
  | VerifyMultiSignature => "VerifyMultiSignature"
  | PrevalidateAttests => "PrevalidateAttests"
  end.

(** The encoded value: nothing, or the byte of an absent option. *)
Definition VALUE (n : NoopName) : bytes :=
  match n with
  | UnitTransactionExtension | AuthorizeCall | CheckNonZeroSender | CheckWeight
  | StorageWeightReclaim | EthSetOrigin | PrevalidateAttests => []
  | _ => [0]
  end.

(** [Noop]'s encoders append to what is written so far. *)
Definition noop_encode_value_to (n : NoopName) (out : bytes) : bytes := (out ++ VALUE n)%list.
Definition noop_encode_implicit_to (n : NoopName) (out : bytes) : bytes := out.

(** ** The extension tuples *)

(** The extensions of [subxt] that carry data. *)
Inductive TxExt :=
| VerifySignature | CheckSpecVersion | CheckTxVersion | CheckGenesis | CheckMortality
| CheckNonce | ChargeAssetTxPayment | CheckMetadataHash.
#[export] Instance TxExt_eq_dec : EqDecision TxExt.
Proof. solve_decision. Defined.

Inductive Extension := ENoop (n : NoopName) | ETx (t : TxExt).
#[export] Instance Extension_eq_dec : EqDecision Extension.
Proof. solve_decision. Defined.

(** The name an extension is looked up by in a runtime's metadata; those of [subxt]
    as the repository lists them. *)
Definition extension_name (e : Extension) : string :=
  match e with
  | ENoop n => NAME n
  | ETx VerifySignature => "VerifyMultiSignature"
  | ETx CheckSpecVersion => "CheckSpecVersion"
  | ETx CheckTxVersion => "CheckTxVersion"
  | ETx CheckGenesis => "CheckGenesis"
  | ETx CheckMortality => "CheckMortality"
  | ETx CheckNonce => "CheckNonce"
  | ETx ChargeAssetTxPayment => "ChargeAssetTxPayment"
  | ETx CheckMetadataHash => "CheckMetadataHash"
  end.

Definition PeopleTransactionExtensions : list Extension := [
  ENoop UnitTransactionExtension; ENoop AuthorizeValueTransfer; ETx VerifySignature;
  ENoop AsPerson; ENoop AsProofOfInkParticipant; ENoop ScoreAsParticipant; ENoop GameAsInvited;
  ENoop PeopleLiteAuth; ENoop AsMember; ENoop AsCoinage; ENoop AsResources; ENoop HonourAuth;
  ENoop AuthorizeCall; ENoop RestrictOrigins; ENoop CheckNonZeroSender; ETx CheckSpecVersion;
  ETx CheckTxVersion; ETx CheckGenesis; ETx CheckMortality; ETx CheckNonce; ENoop CheckWeight;
  ETx ChargeAssetTxPayment; ETx CheckMetadataHash; ENoop StorageWeightReclaim].

Definition AssetHubTransactionExtensions : list Extension := [
  ENoop UnitTransactionExtension; ENoop AuthorizeValueTransfer; ETx VerifySignature;
  ENoop AuthorizeCall; ENoop AsPgas; ENoop AsRingAlias; ENoop AsScarcity; ENoop AsDotnsGateway;
  ENoop RestrictOrigins; ENoop CheckNonZeroSender; ETx CheckSpecVersion; ETx CheckTxVersion;
  ETx CheckGenesis; ETx CheckMortality; ETx CheckNonce; ENoop CheckWeight;
  ETx ChargeAssetTxPayment; ENoop PrevalidateAttests; ETx CheckMetadataHash; ENoop EthSetOrigin;
  ENoop StorageWeightReclaim].

(** ** [extrinsic_params_builder!] *)

(** [CheckMortalityParams]: immortal, or mortal for a number of blocks. *)
Inductive Mortality := Immortal | Mortal (for_n_blocks : Z).
(** [CheckNonceParams]: from the chain, or given. *)
Inductive NonceParams := from_chain | with_nonce (nonce : Z).

Record ExtrinsicParamsBuilder := { b_mortality : Mortality; b_nonce : option Z; b_tip : Z }.

Definition new : ExtrinsicParamsBuilder := {| b_mortality := Immortal; b_nonce := None; b_tip := 0 |}.
Definition builder_default : ExtrinsicParamsBuilder := new.
Definition nonce (n : Z) (b : ExtrinsicParamsBuilder) : ExtrinsicParamsBuilder :=
  {| b_mortality := b_mortality b; b_nonce := Some n; b_tip := b_tip b |}.
Definition tip (t : Z) (b : ExtrinsicParamsBuilder) : ExtrinsicParamsBuilder :=
  {| b_mortality := b_mortality b; b_nonce := b_nonce b; b_tip := t |}.
Definition mortality (m : Mortality) (b : ExtrinsicParamsBuilder) : ExtrinsicParamsBuilder :=
  {| b_mortality := m; b_nonce := b_nonce b; b_tip := b_tip b |}.

(** A slot of the parameter tuple. *)
Inductive Param := PUnit | PMortality (m : Mortality) | PNonce (n : NonceParams) | PTip (t : Z).

Definition nonce_params (b : ExtrinsicParamsBuilder) : NonceParams :=
  match b_nonce b with None => from_chain | Some n => with_nonce n end.

Definition people_build (b : ExtrinsicParamsBuilder) : list Param :=
  (replicate 18 PUnit ++ [PMortality (b_mortality b); PNonce (nonce_params b); PUnit; PTip (b_tip b); PUnit; PUnit])%list.

Definition asset_hub_build (b : ExtrinsicParamsBuilder) : list Param :=
  (replicate 13 PUnit ++
   [PMortality (b_mortality b); PNonce (nonce_params b); PUnit; PTip (b_tip b); PUnit; PUnit; PUnit; PUnit])%list.

(** ** The runtimes a deployment is known to have talked to *)

Definition TUPLE_EXTENSIONS : list string := [
  "UnitTransactionExtension"; "AuthorizeValueTransfer"; "VerifyMultiSignature"; "AsPerson";
  "AsProofOfInkParticipant"; "ScoreAsParticipant"; "GameAsInvited"; "PeopleLiteAuth"; "AsMember";
  "AsCoinage"; "AsResources"; "HonourAuth"; "AuthorizeCall"; "RestrictOrigins";
  "CheckNonZeroSender"; "CheckSpecVersion"; "CheckTxVersion"; "CheckGenesis"; "CheckMortality";
  "CheckNonce"; "CheckWeight"; "ChargeAssetTxPayment"; "CheckMetadataHash"; "StorageWeightReclaim"].

Definition ASSET_HUB_TUPLE_EXTENSIONS : list string := [
  "UnitTransactionExtension"; "AuthorizeValueTransfer"; "VerifyMultiSignature"; "AuthorizeCall";
  "AsPgas"; "AsRingAlias"; "AsScarcity"; "AsDotnsGateway"; "RestrictOrigins"; "CheckNonZeroSender";
  "CheckSpecVersion"; "CheckTxVersion"; "CheckGenesis"; "CheckMortality"; "CheckNonce";
  "CheckWeight"; "ChargeAssetTxPayment"; "PrevalidateAttests"; "CheckMetadataHash"; "EthSetOrigin";
  "StorageWeightReclaim"].

Definition PEOPLE_V3004_EXTENSIONS : list string := [
  "UnitTransactionExtension"; "VerifyMultiSignature"; "AsPerson"; "AsProofOfInkParticipant";
  "ScoreAsParticipant"; "GameAsInvited"; "PeopleLiteAuth"; "AsMember"; "AsCoinage"; "AsResources";
  "HonourAuth"; "AuthorizeCall"; "RestrictOrigins"; "CheckNonZeroSender"; "CheckSpecVersion";
  "CheckTxVersion"; "CheckGenesis"; "CheckMortality"; "CheckNonce"; "CheckWeight";
  "ChargeAssetTxPayment"; "CheckMetadataHash"; "StorageWeightReclaim"].

Definition PEOPLE_V3_EXTENSIONS : list string := [
  "UnitTransactionExtension"; "VerifyMultiSignature"; "AsPerson"; "AsProofOfInkParticipant";
  "ScoreAsParticipant"; "GameAsInvited"; "PeopleLiteAuth"; "AsMember"; "AsCoinage"; "AsResources";
  "HonourAuth"; "AuthorizeCall"; "RestrictOrigins"; "CheckNonZeroSender"; "CheckSpecVersion";
  "CheckTxVersion"; "CheckGenesis"; "CheckMortality"; "CheckNonce"; "CheckWeight";
  "ChargeAssetTxPayment"; "StorageWeightReclaim"].

Definition PEOPLE_POLKADOT_2005000_EXTENSIONS : list string := [
  "UnitTransactionExtension"; "VerifyMultiSignature"; "AsPerson"; "PeopleLiteAuth"; "AsMember";
  "AsCoinage"; "AsResources"; "RestrictOrigins"; "AuthorizeCall"; "CheckNonZeroSender";
  "CheckSpecVersion"; "CheckTxVersion"; "CheckGenesis"; "CheckMortality"; "CheckNonce";
  "CheckWeight"; "ChargeAssetTxPayment"; "CheckMetadataHash"; "StorageWeightReclaim"].

Definition ASSET_HUB_V3_EXTENSIONS : list string := [
  "UnitTransactionExtension"; "AsScarcity"; "AuthorizeCall"; "AsPgas"; "AsDotnsGateway";
  "RestrictOrigins"; "CheckNonZeroSender"; "CheckSpecVersion"; "CheckTxVersion"; "CheckGenesis";
  "CheckMortality"; "CheckNonce"; "CheckWeight"; "ChargeAssetTxPayment"; "CheckMetadataHash";
  "EthSetOrigin"; "StorageWeightReclaim"].

Definition ASSET_HUB_POLKADOT_2005000_EXTENSIONS : list string := [
  "UnitTransactionExtension"; "VerifyMultiSignature"; "AuthorizeCall"; "AsPgas"; "AsDotnsGateway";
  "RestrictOrigins"; "CheckNonZeroSender"; "CheckSpecVersion"; "CheckTxVersion"; "CheckGenesis";
  "CheckMortality"; "CheckNonce"; "CheckWeight"; "ChargeAssetTxPayment"; "PrevalidateAttests";
  "CheckMetadataHash"; "EthSetOrigin"; "StorageWeightReclaim"].

Definition ASSET_HUB_V3004_EXTENSIONS : list string := [
  "UnitTransactionExtension"; "VerifyMultiSignature"; "AsScarcity"; "AuthorizeCall"; "AsPgas";
  "AsDotnsGateway"; "RestrictOrigins"; "CheckNonZeroSender"; "CheckSpecVersion"; "CheckTxVersion";
  "CheckGenesis"; "CheckMortality"; "CheckNonce"; "CheckWeight"; "ChargeAssetTxPayment";
  "PrevalidateAttests"; "CheckMetadataHash"; "EthSetOrigin"; "StorageWeightReclaim"].

Record KnownRuntime := {
  kr_env : string; kr_spec_name : string; kr_spec_version : Z;
  kr_tuple : list string; kr_extensions : list string }.

Definition KNOWN_RUNTIMES : list KnownRuntime := [
  {| kr_env := "polkadot-test"; kr_spec_name := "people-polkadot"; kr_spec_version := 2005000;
     kr_tuple := TUPLE_EXTENSIONS; kr_extensions := PEOPLE_POLKADOT_2005000_EXTENSIONS |};
  {| kr_env := "polkadot-test asset hub"; kr_spec_name := "statemint"; kr_spec_version := 2005000;
     kr_tuple := ASSET_HUB_TUPLE_EXTENSIONS; kr_extensions := ASSET_HUB_POLKADOT_2005000_EXTENSIONS |};
  {| kr_env := "paseo-next-v2"; kr_spec_name := "next-people-paseo"; kr_spec_version := 3004000;
     kr_tuple := TUPLE_EXTENSIONS; kr_extensions := PEOPLE_V3004_EXTENSIONS |};
  {| kr_env := "paseo-next-v2 / previewnet asset hub"; kr_spec_name := "next-asset-hub-paseo"; kr_spec_version := 3004000;
     kr_tuple := ASSET_HUB_TUPLE_EXTENSIONS; kr_extensions := ASSET_HUB_V3004_EXTENSIONS |};
  {| kr_env := "paseo-next-v2"; kr_spec_name := "next-people-paseo"; kr_spec_version := 3003000;
     kr_tuple := TUPLE_EXTENSIONS; kr_extensions := PEOPLE_V3_EXTENSIONS |};
  {| kr_env := "paseo-next-v2"; kr_spec_name := "next-people-paseo"; kr_spec_version := 3002000;
     kr_tuple := TUPLE_EXTENSIONS; kr_extensions := PEOPLE_V3_EXTENSIONS |};
  {| kr_env := "paseo-next-v2 asset hub"; kr_spec_name := "next-asset-hub-paseo"; kr_spec_version := 3000000;
     kr_tuple := ASSET_HUB_TUPLE_EXTENSIONS; kr_extensions := ASSET_HUB_V3_EXTENSIONS |};
  {| kr_env := "paseo-next-v2"; kr_spec_name := "next-people-paseo"; kr_spec_version := 1000030;
     kr_tuple := TUPLE_EXTENSIONS; kr_extensions := [
         "AuthorizeValueTransfer"; "VerifyMultiSignature"; "AsPerson"; "AsProofOfInkParticipant";
         "ScoreAsParticipant"; "GameAsInvited"; "PeopleLiteAuth"; "AsMember"; "AsCoinage";
         "AsResources"; "HonourAuth"; "AuthorizeCall"; "RestrictOrigins"; "CheckNonZeroSender";
         "CheckSpecVersion"; "CheckTxVersion"; "CheckGenesis"; "CheckMortality"; "CheckNonce";
         "CheckWeight"; "ChargeAssetTxPayment"; "StorageWeightReclaim"] |};
  {| kr_env := "paseo-next-v2 asset hub"; kr_spec_name := "next-asset-hub-paseo"; kr_spec_version := 2000033;
     kr_tuple := ASSET_HUB_TUPLE_EXTENSIONS; kr_extensions := [
         "AuthorizeValueTransfer"; "AuthorizeCall"; "AsPgas"; "AsRingAlias"; "AsDotnsGateway";
         "RestrictOrigins"; "CheckNonZeroSender"; "CheckSpecVersion"; "CheckTxVersion";
         "CheckGenesis"; "CheckMortality"; "CheckNonce"; "CheckWeight"; "ChargeAssetTxPayment";
         "CheckMetadataHash"; "EthSetOrigin"; "StorageWeightReclaim"] |}].

(** ** The tuples against the lists *)

(** The lists of names are those of the tuples the binary encodes with. *)
Lemma tuple_names :
  extension_name <$> PeopleTransactionExtensions = TUPLE_EXTENSIONS /\
  extension_name <$> AssetHubTransactionExtensions = ASSET_HUB_TUPLE_EXTENSIONS.
Proof. split; vm_compute; reflexivity. Qed.

Lemma tuple_names_unique : NoDup TUPLE_EXTENSIONS /\ NoDup ASSET_HUB_TUPLE_EXTENSIONS.
Proof. split; refine (bool_decide_eq_true_1 _ _); vm_compute; reflexivity. Qed.

(** Every extension a known runtime declares is in the tuple its chain encodes with. *)
Lemma known_runtimes_covered r name : r ∈ KNOWN_RUNTIMES -> name ∈ kr_extensions r -> name ∈ kr_tuple r.
Proof.
  intros Hr Hn.
  assert (H : Forall (fun r => Forall (fun n => n ∈ kr_tuple r) (kr_extensions r)) KNOWN_RUNTIMES)
    by (refine (bool_decide_eq_true_1 _ _); vm_compute; reflexivity).
  rewrite Forall_forall in H. specialize (H r Hr). rewrite Forall_forall in H. by apply H.
Qed.

Lemma known_runtime_tuple r :
  r ∈ KNOWN_RUNTIMES -> kr_tuple r = TUPLE_EXTENSIONS \/ kr_tuple r = ASSET_HUB_TUPLE_EXTENSIONS.
Proof.
  assert (H : Forall (fun r => kr_tuple r = TUPLE_EXTENSIONS \/ kr_tuple r = ASSET_HUB_TUPLE_EXTENSIONS) KNOWN_RUNTIMES)
    by (refine (bool_decide_eq_true_1 _ _); vm_compute; reflexivity).
  rewrite Forall_forall in H. apply H.
Qed.

(** A parameter tuple has a slot per extension, and the mortality, the nonce and the
    tip are in the slots of the extensions that read them. *)
Definition param_fits (e : Extension) (p : Param) : Prop :=
  match e, p with
  | ETx CheckMortality, PMortality _ | ETx CheckNonce, PNonce _ | ETx ChargeAssetTxPayment, PTip _ => True
  | ETx CheckMortality, _ | ETx CheckNonce, _ | ETx ChargeAssetTxPayment, _ => False
  | _, PUnit => True
  | _, _ => False
  end.

Lemma people_build_fits b : Forall2 param_fits PeopleTransactionExtensions (people_build b).
Proof. repeat constructor. Qed.
Lemma asset_hub_build_fits b : Forall2 param_fits AssetHubTransactionExtensions (asset_hub_build b).
Proof. repeat constructor. Qed.

(** ** [Noop] itself *)

(** [TransactionExtension::new] takes no parameters and does not fail. *)
Definition noop_new (n : NoopName) (params : unit) : result Extension string := Ok (ENoop n).

(** [Debug]: a tuple struct of the name. *)
Definition noop_debug (n : NoopName) : string :=
  "Noop(" +:+ String QUOTE (NAME n +:+ String QUOTE EmptyString) +:+ ")".

(** ** Vendored metadata *)

(** A cell that is initialised by its first reader ([LazyLock]): what it holds, and how
    often its initialiser has run. *)
Record LazyLock (A : Type) := { lz_value : option A; lz_runs : nat }.
Arguments lz_value {A} _.
Arguments lz_runs {A} _.

Definition lazy_new {A : Type} : LazyLock A := {| lz_value := None; lz_runs := 0 |}.
(** [None] is the panic of the initialiser. *)
Definition lazy_force {A : Type} (init : option A) (l : LazyLock A) : option A * LazyLock A :=
  match lz_value l with
  | Some a => (Some a, l)
  | None => (init, {| lz_value := init; lz_runs := S (lz_runs l) |})
  end.

Section vendored.
(** The decoder of metadata and of values ([subxt]), and the files of the build. *)
Context {Metadata Constant : Type}
  (decode_from : bytes -> option Metadata)
  (constant_of : Metadata -> string -> string -> option Constant)
  (decode_runtime_version : Metadata -> Constant -> option Z)
  (include_bytes : string -> bytes).
Context (DUB_NETWORK CARGO_MANIFEST_DIR : string).

Definition NETWORK : string := DUB_NETWORK.
Definition METADATA_FILE : string := "crates/chain-types/metadata/metadata." +:+ DUB_NETWORK +:+ ".scale".
Definition METADATA_BYTES : bytes :=
  include_bytes (CARGO_MANIFEST_DIR +:+ "/metadata/metadata." +:+ DUB_NETWORK +:+ ".scale").
Definition ah_METADATA_BYTES : bytes :=
  include_bytes (CARGO_MANIFEST_DIR +:+ "/metadata/ah." +:+ DUB_NETWORK +:+ ".scale").

(** The statics of the process. *)
Record Statics := { METADATA : LazyLock Metadata; ah_METADATA : LazyLock Metadata; SPEC_VERSION : LazyLock Z }.
Definition statics_new : Statics := {| METADATA := lazy_new; ah_METADATA := lazy_new; SPEC_VERSION := lazy_new |}.

Definition metadata_arc (s : Statics) : option Metadata * Statics :=
  let '(m, l) := lazy_force (decode_from METADATA_BYTES) (METADATA s) in
  (m, {| METADATA := l; ah_METADATA := ah_METADATA s; SPEC_VERSION := SPEC_VERSION s |}).

Definition ah_metadata_arc (s : Statics) : option Metadata * Statics :=
  let '(m, l) := lazy_force (decode_from ah_METADATA_BYTES) (ah_METADATA s) in
  (m, {| METADATA := METADATA s; ah_METADATA := l; SPEC_VERSION := SPEC_VERSION s |}).

Definition spec_version_of (m : Metadata) : option Z :=
  version ← constant_of m "System" "Version"; decode_runtime_version m version.

Definition vendored_spec_version (s : Statics) : option Z * Statics :=
  match lz_value (SPEC_VERSION s) with
  | Some v => (Some v, s)
  | None =>
      let '(m, s') := metadata_arc s in
      let '(v, l) := lazy_force (m ≫= spec_version_of) (SPEC_VERSION s') in
      (v, {| METADATA := METADATA s'; ah_METADATA := ah_METADATA s'; SPEC_VERSION := l |})
  end.

(** What the callers of a process ask of the statics, in any order. *)
Inductive Ask := AskPeople | AskAssetHub | AskVersion.
Definition ask (a : Ask) (s : Statics) : Statics :=
  match a with
  | AskPeople => snd (metadata_arc s)
  | AskAssetHub => snd (ah_metadata_arc s)
  | AskVersion => snd (vendored_spec_version s)
  end.

(** What has been asked so far is settled. *)
Definition settled {A : Type} (init : option A) (l : LazyLock A) : Prop :=
  lz_value l = None \/ (lz_value l = init /\ is_Some init /\ lz_runs l = 1%nat).

Record statics_ok (m ah : Metadata) (s : Statics) : Prop := {
  so_metadata : settled (Some m) (METADATA s) /\ (lz_runs (METADATA s) <= 1)%nat /\
                (lz_value (METADATA s) = None -> lz_runs (METADATA s) = 0%nat);
  so_ah : settled (Some ah) (ah_METADATA s) /\ (lz_value (ah_METADATA s) = None -> lz_runs (ah_METADATA s) = 0%nat) }.

Lemma force_settled {A : Type} (a : A) l :
  settled (Some a) l -> (lz_value l = None -> lz_runs l = 0%nat) ->
  fst (lazy_force (Some a) l) = Some a /\
  let l' := snd (lazy_force (Some a) l) in
  settled (Some a) l' /\ (lz_runs l' <= 1)%nat /\ (lz_value l' = None -> lz_runs l' = 0%nat).
Proof.
  unfold lazy_force. intros [Hn|(Hv & _ & Hr)] H0.
  - rewrite Hn. cbn. rewrite (H0 Hn). split_and!; [done|right; split_and!; [done|by eexists|done]|lia|done].
  - rewrite Hv. cbn. split_and!; [done|right; split_and!; [done|by eexists|done]|lia|by rewrite Hv].
Qed.

(** The vendored blobs are decoded at most once, however many callers ask and in
    whatever order, and every caller gets the same metadata. *)
Lemma metadata_once m ah asks :
  decode_from METADATA_BYTES = Some m -> decode_from ah_METADATA_BYTES = Some ah ->
  let s := foldl (fun s a => ask a s) statics_new asks in
  statics_ok m ah s /\ fst (metadata_arc s) = Some m /\ fst (ah_metadata_arc s) = Some ah.
Proof.
  intros Hm Ha. assert (Hstep : forall a s, statics_ok m ah s -> statics_ok m ah (ask a s)).
  { assert (Hp : forall s, statics_ok m ah s -> statics_ok m ah (snd (metadata_arc s))).
    { intros s [(H1 & H2 & H3) H4]. unfold metadata_arc. rewrite Hm. destruct (force_settled m _ H1 H3) as [_ Hf].
      destruct (lazy_force _ _) as [x l]. split; [exact Hf|exact H4]. }
    intros [] s Hs; [by apply Hp| |].
    - destruct Hs as [H1 [H2 H3]]. unfold ask, ah_metadata_arc. rewrite Ha. destruct (force_settled ah _ H2 H3) as [_ (Hf & _ & Hg)].
      destruct (lazy_force _ _) as [x l]. split; [exact H1|by split].
    - unfold ask, vendored_spec_version. destruct (lz_value (SPEC_VERSION s)); [done|]. specialize (Hp s Hs).
      destruct (metadata_arc s) as [x s']. destruct (lazy_force _ _) as [v l]. destruct Hp. by split. }
  assert (Hall : forall asks s, statics_ok m ah s -> statics_ok m ah (foldl (fun s a => ask a s) s asks))
    by (intros l; induction l as [|a l IH]; intros s Hs; [done|cbn [foldl]; apply IH; by apply Hstep]).
  assert (Hn : statics_ok m ah statics_new) by (split; split_and!; [by left|cbn; lia|done|by left|done]).
  specialize (Hall asks _ Hn). cbv zeta. split; [exact Hall|]. destruct Hall as [(H1 & _ & H3) [H4 H5]].
  unfold metadata_arc, ah_metadata_arc. rewrite Hm, Ha. destruct (force_settled m _ H1 H3) as [Hf _].
  destruct (force_settled ah _ H4 H5) as [Hg _]. by destruct (lazy_force _ (METADATA _)), (lazy_force _ (ah_METADATA _)).
Qed.
End vendored.

(** ** [delegating_config!] *)

(** The methods of [subxt::Config]; [set_metadata_for_spec_version] changes the cell
    behind the shared reference. *)
Record ConfigOps (C Metadata : Type) := {
  genesis_hash : C -> option bytes;
  spec_and_transaction_version_for_block_number : C -> Z -> option (Z * Z);
  metadata_for_spec_version : C -> Z -> option Metadata;
  set_metadata_for_spec_version : C -> Z -> Metadata -> C;
  transaction_extensions : list Extension }.
Arguments genesis_hash {C Metadata} _ _.
Arguments spec_and_transaction_version_for_block_number {C Metadata} _ _ _.
Arguments metadata_for_spec_version {C Metadata} _ _ _.
Arguments set_metadata_for_spec_version {C Metadata} _ _ _ _.
Arguments transaction_extensions {C Metadata} _.

(** A config of the crate that wraps the Polkadot one, and differs in its extensions. *)
Record Delegating (P : Type) := { inner : P }.
Arguments inner {P} _.

Definition delegating_config {P Metadata : Type} (polkadot : ConfigOps P Metadata) (extensions : list Extension)
    : ConfigOps (Delegating P) Metadata :=
  {| genesis_hash := fun c => genesis_hash polkadot (inner c);
     spec_and_transaction_version_for_block_number :=
       fun c n => spec_and_transaction_version_for_block_number polkadot (inner c) n;
     metadata_for_spec_version := fun c v => metadata_for_spec_version polkadot (inner c) v;
     set_metadata_for_spec_version := fun c v m => {| inner := set_metadata_for_spec_version polkadot (inner c) v m |};
     transaction_extensions := extensions |}.

Definition PeopleConfig {P Metadata : Type} (polkadot : ConfigOps P Metadata) : ConfigOps (Delegating P) Metadata :=
  delegating_config polkadot PeopleTransactionExtensions.
Definition AssetHubConfig {P Metadata : Type} (polkadot : ConfigOps P Metadata) : ConfigOps (Delegating P) Metadata :=
  delegating_config polkadot AssetHubTransactionExtensions.

(** What is asked of a config by its clients. *)
Inductive ConfigCall (Metadata : Type) :=
| CGenesis | CVersions (block : Z) | CMetadata (spec : Z) | CSet (spec : Z) (m : Metadata).
Arguments CGenesis {Metadata}.
Arguments CVersions {Metadata} _.
Arguments CMetadata {Metadata} _.
Arguments CSet {Metadata} _ _.

Inductive ConfigAnswer (Metadata : Type) :=
| AGenesis (g : option bytes) | AVersions (v : option (Z * Z)) | AMetadata (m : option Metadata) | ASet.
Arguments AGenesis {Metadata} _.
Arguments AVersions {Metadata} _.
Arguments AMetadata {Metadata} _.
Arguments ASet {Metadata}.

Definition config_call {C Metadata : Type} (ops : ConfigOps C Metadata) (c : C) (q : ConfigCall Metadata)
    : ConfigAnswer Metadata * C :=
  match q with
  | CGenesis => (AGenesis (genesis_hash ops c), c)
  | CVersions n => (AVersions (spec_and_transaction_version_for_block_number ops c n), c)
  | CMetadata v => (AMetadata (metadata_for_spec_version ops c v), c)
  | CSet v m => (ASet, set_metadata_for_spec_version ops c v m)
  end.

Fixpoint config_run {C Metadata : Type} (ops : ConfigOps C Metadata) (c : C) (qs : list (ConfigCall Metadata))
    : list (ConfigAnswer Metadata) :=
  match qs with
  | [] => []
  | q :: qs' => let '(a, c') := config_call ops c q in a :: config_run ops c' qs'
  end.

(** A client of either chain's config sees the Polkadot config: every sequence of calls
    has the same answers; only the extensions are the crate's own. *)
Lemma delegation_transparent {P Metadata : Type} (polkadot : ConfigOps P Metadata) extensions c qs :
  config_run (delegating_config polkadot extensions) {| inner := c |} qs = config_run polkadot c qs.
Proof.
  revert c. induction qs as [|q qs IH]; intros c; [done|].
  destruct q; cbn [config_run config_call delegating_config genesis_hash spec_and_transaction_version_for_block_number
    metadata_for_spec_version set_metadata_for_spec_version inner]; by rewrite IH.
Qed.

End ChainTypes.
