(* ===== verification/ChainClient.v ===== *)
(** * ChainClient: the signer, signed extrinsics and connections

    The key a secret stands for ([chain-client/src/signer.rs]), building and signing a
    version-4 extrinsic with the transaction extensions of version 0
    ([sign.rs]; [sign] of both lanes of the writer), and connecting to a chain with the
    report of its runtime version ([connect.rs]).  The key crates, the node and the
    encoders of [subxt] and [frame-decode] are parameters, the latter with their
    documented behaviour as laws ([EncoderLaws]). *)

From S2P Require Import Prelude Strings Text Outbox WriterTx ChainTypes.

#[local] Open Scope dub_scope.
#[local] Open Scope string_scope.
#[local] Open Scope Z_scope.

Module ChainClient.
Import ChainTypes.

(** ** [signer.rs] *)

(** [schnorrkel] and [subxt-signer]: keys from a raw secret and from a secret URI,
    their public bytes and signatures. *)
Record KeyCrates := {
  RawKey : Type; UriKey : Type;
  from_ed25519_bytes : bytes -> result RawKey string;
  from_uri : string -> result UriKey string;
  raw_public : RawKey -> bytes; uri_public : UriKey -> bytes;
  raw_sign : bytes -> RawKey -> bytes -> bytes; uri_sign : UriKey -> bytes -> bytes }.

Section signer.
Context (kc : KeyCrates).

Inductive WriterSigner := Uri (k : UriKey kc) | Raw (k : RawKey kc).

Inductive SecretError := BadHex | BadSecret (why : string) | BadUri (why : string).

Definition from_secret_uri (trimmed : string) : result WriterSigner SecretError :=
  match from_uri kc trimmed with Ok k => Ok (Uri k) | Err e => Err (BadUri e) end.

Definition from_secret (secret : string) : result WriterSigner SecretError :=
  let trimmed := trim secret in
  match strip_prefix "0x" trimmed with
  | Some hex =>
      if (String.length hex =? 128)%nat then
        match hex_decode hex with
        | None => Err BadHex
        | Some b => match from_ed25519_bytes kc b with Ok k => Ok (Raw k) | Err e => Err (BadSecret e) end
        end
      else from_secret_uri trimmed
  | None => from_secret_uri trimmed
  end.

Definition public_bytes (s : WriterSigner) : bytes :=
  match s with Uri k => uri_public kc k | Raw k => raw_public kc k end.

Definition proxy_for (primary : bytes) (s : WriterSigner) : option bytes :=
  if bool_decide (primary <> public_bytes s) then Some primary else None.

Definition sign_bytes (payload : bytes) (s : WriterSigner) : bytes :=
  match s with
  | Uri k => uri_sign kc k payload
  | Raw k => raw_sign kc (as_bytes "substrate") k payload
  end.

Definition account_id (s : WriterSigner) : bytes := public_bytes s.

(** A raw secret is never read as a URI, and nothing else is read as one. *)
Lemma from_secret_kind secret s :
  from_secret secret = Ok s ->
  match s with
  | Raw k => exists hex b, trim secret = "0x" +:+ hex /\ hex_decode hex = Some b /\ length b = 64%nat /\
               from_ed25519_bytes kc b = Ok k
  | Uri k => from_uri kc (trim secret) = Ok k /\
             forall hex, trim secret = "0x" +:+ hex -> String.length hex <> 128%nat
  end.
Proof.
  unfold from_secret, from_secret_uri. destruct (strip_prefix "0x" (trim secret)) as [hex|] eqn:E.
  - apply strip_prefix_Some in E. rewrite E. destruct (Nat.eqb_spec (String.length hex) 128) as [Hl|Hl].
    + destruct (hex_decode hex) as [b|] eqn:Eh; [|done].
      destruct (from_ed25519_bytes kc b) as [k|e] eqn:Ek; [|done]. intros [= <-]. exists hex, b.
      split_and!; [done|done| |done]. apply hex_decode_length in Eh. lia.
    + destruct (from_uri kc _) as [k|e] eqn:Ek; [|done]. intros [= <-]. split; [done|].
      intros hex' Heq. by injection Heq as <-.
  - destruct (from_uri kc (trim secret)) as [k|e] eqn:Ek; [|done]. intros [= <-]. split; [done|].
    intros hex Heq. rewrite Heq, strip_prefix_app in E. done.
Qed.

(** ** [sign.rs] *)

Definition V4_EXTENSION_VERSION : Z := 0.

Record ClientState := { genesis_hash : bytes; spec_version : Z; transaction_version : Z }.

(** The chain at a block, as the client reads it. *)
Record At := {
  at_validate : WriterTx.Payload -> option string;
  at_account_nonce : bytes -> result Z string;
  at_block : Z * bytes;
  at_genesis : option bytes;
  at_spec_version : Z; at_transaction_version : Z;
  at_call_info : string -> string -> result bytes string;
  at_signature_info : result unit string;
  at_extension_info : option Z -> result (list string) string }.

(** An extension as the encoder sees it: its name, value and implicit bytes. *)
Abbreviation Slot := (string * (bytes * bytes))%type.

(** The extensions of [subxt] and the encoders of [frame-decode]. *)
Record Encoder := {
  inject_nonce : Z -> NonceParams -> NonceParams;
  tx_new : TxExt -> ClientState -> Z * bytes -> Param -> option string;
  tx_value : TxExt -> ClientState -> Z * bytes -> Param -> bytes;
  tx_implicit : TxExt -> ClientState -> Z * bytes -> Param -> bytes;
  encode_call : bytes -> WriterTx.Payload -> result bytes string;
  blake2_256 : bytes -> bytes;
  v4_frame : bytes -> bytes -> bytes -> bytes -> bytes;
  encode_v4_signer_payload : WriterTx.Payload -> list Slot -> bytes -> list string -> result bytes string;
  encode_v4_signed : WriterTx.Payload -> list Slot -> bytes -> bytes -> bytes -> list string -> result bytes string }.

Section sign.
Context (en : Encoder).

Inductive ExtrinsicError :=
| IncompatibleCodegen (why : string)
| AccountNonce (why : string)
| GenesisHashNotProvided
| ExtensionError (why : string)
| CannotGetInfo (why : string)
| EncodeError (why : string).

Definition inject_params (account_nonce : Z) (p : Param) : Param :=
  match p with PNonce n => PNonce (inject_nonce en account_nonce n) | _ => p end.

(** [TransactionExtensions::new]: every extension with its slot. *)
Fixpoint extensions_new (st : ClientState) (blk : Z * bytes) (exts : list Extension) (params : list Param)
    : result (list Slot) ExtrinsicError :=
  match exts, params with
  | e :: exts, p :: params =>
      let? slot :=
        match e with
        | ENoop n => Ok (NAME n, (noop_encode_value_to n [], noop_encode_implicit_to n []))
        | ETx t => match tx_new en t st blk p with
                   | Some why => Err (ExtensionError why)
                   | None => Ok (extension_name e, (tx_value en t st blk p, tx_implicit en t st blk p))
                   end
        end in
      let? rest := extensions_new st blk exts params in
      Ok (slot :: rest)
  | _, _ => Ok []
  end.

Definition create_signed_v4 (exts : list Extension) (at_ : At) (call : WriterTx.Payload) (signer : WriterSigner)
    (params : list Param) : result bytes ExtrinsicError :=
  match at_validate at_ call with
  | Some why => Err (IncompatibleCodegen why)
  | None =>
      let account := account_id signer in
      let? n := map_err AccountNonce (at_account_nonce at_ account) in
      let params := inject_params n <$> params in
      let? genesis := match at_genesis at_ with Some g => Ok g | None => Err GenesisHashNotProvided end in
      let st := {| genesis_hash := genesis; spec_version := at_spec_version at_;
                   transaction_version := at_transaction_version at_ |} in
      let? slots := extensions_new st (at_block at_) exts params in
      let? call_info := map_err CannotGetInfo (at_call_info at_ (WriterTx.tx_pallet call) (WriterTx.tx_call call)) in
      let? _ := map_err CannotGetInfo (at_signature_info at_) in
      let? names := map_err CannotGetInfo (at_extension_info at_ (Some V4_EXTENSION_VERSION)) in
      let? payload := map_err EncodeError (encode_v4_signer_payload en call slots call_info names) in
      let signature := sign_bytes payload signer in
      map_err EncodeError (encode_v4_signed en call slots account signature call_info names)
  end.

(** [sign] of the People lane and of the dotNS lane; [at_] is the current block. *)
Definition people_sign (at_ : result At string) (nonce_ : Z) (payload : WriterTx.Payload) (signer : WriterSigner)
    : result bytes (string + ExtrinsicError) :=
  let params := people_build (nonce nonce_ new) in
  let? at_ := map_err inl at_ in
  map_err inr (create_signed_v4 PeopleTransactionExtensions at_ payload signer params).

Definition dotns_sign (at_ : result At string) (nonce_ : Z) (payload : WriterTx.Payload) (signer : WriterSigner)
    : result bytes (string + ExtrinsicError) :=
  let params := asset_hub_build (nonce nonce_ new) in
  let? at_ := map_err inl at_ in
  map_err inr (create_signed_v4 AssetHubTransactionExtensions at_ payload signer params).

(** ** What the encoders do *)

(** The slots of the named extensions, in the order of the names. *)
Fixpoint pick (slots : list Slot) (names : list string) : option (list (bytes * bytes)) :=
  match names with
  | [] => Some []
  | name :: names =>
      match List.find (fun s => bool_decide (fst s = name)) slots, pick slots names with
      | Some s, Some rest => Some (snd s :: rest)
      | _, _ => None
      end
  end.

Definition values (l : list (bytes * bytes)) : bytes := concat (fst <$> l).
Definition implicits (l : list (bytes * bytes)) : bytes := concat (snd <$> l).

(** A payload over 256 bytes is signed by its hash. *)
Definition signer_payload (call : bytes) (l : list (bytes * bytes)) : bytes :=
  let p := (call ++ values l ++ implicits l)%list in
  if (256 <? length p)%nat then blake2_256 en p else p.

(** Documented behaviour: a given nonce is kept, an open one takes the account's; the
    encoders take the named extensions in order, and fail on one the tuple has not. *)
Record EncoderLaws : Prop := {
  inject_given : forall n m, inject_nonce en n (with_nonce m) = with_nonce m;
  inject_open : forall n, inject_nonce en n from_chain = with_nonce n;
  payload_law : forall call slots ci names c,
    encode_call en ci call = Ok c ->
    match pick slots names with
    | Some l => encode_v4_signer_payload en call slots ci names = Ok (signer_payload c l)
    | None => exists why, encode_v4_signer_payload en call slots ci names = Err why
    end;
  signed_law : forall call slots account signature ci names c,
    encode_call en ci call = Ok c ->
    match pick slots names with
    | Some l => encode_v4_signed en call slots account signature ci names = Ok (v4_frame en account signature (values l) c)
    | None => exists why, encode_v4_signed en call slots account signature ci names = Err why
    end }.

(** The slot an extension gets for a transaction at [nonce_], immortal and untipped. *)
Definition slot_of (st : ClientState) (blk : Z * bytes) (nonce_ : Z) (e : Extension) : bytes * bytes :=
  match e with
  | ENoop n => (VALUE n, [])
  | ETx t =>
      let p := match t with
               | CheckMortality => PMortality Immortal
               | CheckNonce => PNonce (with_nonce nonce_)
               | ChargeAssetTxPayment => PTip 0
               | _ => PUnit
               end in
      (tx_value en t st blk p, tx_implicit en t st blk p)
  end.

Definition slot_named (exts : list Extension) (st : ClientState) (blk : Z * bytes) (nonce_ : Z) (name : string)
    : bytes * bytes :=
  match List.find (fun e => bool_decide (extension_name e = name)) exts with
  | Some e => slot_of st blk nonce_ e
  | None => ([], [])
  end.

End sign.
End signer.

(** ** [connect.rs] *)

Inductive ConnectError := Transport (chain url : string) | Client (chain url : string).

(** What the log says of the runtime at connect. *)
Inductive Report := Unreadable | Disagrees (live vendored : Z) | Connected (live : Z).

Definition report_runtime_version (live : option Z) (vendored_spec_version : option Z) : Report :=
  match live with
  | None => Unreadable
  | Some spec =>
      match vendored_spec_version with
      | Some vendored => if negb (vendored =? spec) then Disagrees spec vendored else Connected spec
      | None => Connected spec
      end
  end.

(** The network: the transport, the client built over it (metadata loaded), and the
    runtime version its current block answers. *)
Record Network := {
  dial : string -> bool; build_client : string -> bool; live_version : string -> option Z }.

Definition reconnecting_rpc_client (n : Network) (url chain : string) : result unit ConnectError :=
  if dial n url then Ok tt else Err (Transport chain url).

Definition connect_as_with_rpc (n : Network) (url chain : string) (vendored : option Z) : result Report ConnectError :=
  let? _ := reconnecting_rpc_client n url chain in
  if build_client n url then Ok (report_runtime_version (live_version n url) vendored) else Err (Client chain url).

Definition connect_as (n : Network) (url chain : string) (vendored : option Z) : result Report ConnectError :=
  let? _ := reconnecting_rpc_client n url chain in
  if build_client n url then Ok (report_runtime_version (live_version n url) vendored) else Err (Client chain url).

Definition connect (n : Network) (vendored : Z) (url : string) := connect_as n url "People Chain" (Some vendored).
Definition connect_with_rpc (n : Network) (vendored : Z) (url : string) :=
  connect_as_with_rpc n url "People Chain" (Some vendored).
Definition connect_asset_hub (n : Network) (url : string) := connect_as n url "Asset Hub" None.
Definition connect_asset_hub_with_rpc (n : Network) (url : string) := connect_as_with_rpc n url "Asset Hub" None.

(** A runtime newer than the vendored metadata is reported, and does not fail the
    connection. *)
Lemma connect_exact n vendored url :
  connect n vendored url =
  if dial n url then
    if build_client n url then
      Ok (match live_version n url with
          | None => Unreadable
          | Some v => if v =? vendored then Connected v else Disagrees v vendored
          end)
    else Err (Client "People Chain" url)
  else Err (Transport "People Chain" url).
Proof.
  unfold connect, connect_as, reconnecting_rpc_client. destruct (dial n url); simpl; [|done].
  destruct (build_client n url); [|done]. unfold report_runtime_version.
  destruct (live_version n url) as [v|]; [|done]. rewrite Z.eqb_sym. by destruct (v =? vendored).
Qed.

End ChainClient.

(** * The extrinsics the writer signs

    A call is signed for every runtime a deployment is known to talk to, with the
    extensions the runtime declares at version 0, in its order, and the nonce the
    writer chose; a call the runtime does not know is never signed. *)

Module SigningProps.
Import ChainTypes ChainClient.

Section props.
Context (kc : KeyCrates) (en : Encoder).

(** The parameter an extension gets from a builder that only set the nonce. *)
Definition param_of (n : Z) (e : Extension) : Param :=
  match e with
  | ETx CheckMortality => PMortality Immortal
  | ETx CheckNonce => PNonce (with_nonce n)
  | ETx ChargeAssetTxPayment => PTip 0
  | _ => PUnit
  end.

Lemma people_params (Hl : EncoderLaws en) m n :
  inject_params en m <$> people_build (nonce n new) = param_of n <$> PeopleTransactionExtensions.
Proof. cbn. by rewrite (inject_given en Hl). Qed.

Lemma asset_hub_params (Hl : EncoderLaws en) m n :
  inject_params en m <$> asset_hub_build (nonce n new) = param_of n <$> AssetHubTransactionExtensions.
Proof. cbn. by rewrite (inject_given en Hl). Qed.

Lemma extensions_new_slots st blk n exts :
  (forall t st blk p, tx_new en t st blk p = None) ->
  extensions_new en st blk exts (param_of n <$> exts) = Ok ((fun e => (extension_name e, slot_of en st blk n e)) <$> exts).
Proof.
  intros Hnew. induction exts as [|e exts IH]; [done|]. cbn [fmap list_fmap extensions_new].
  destruct e as [nm|t]; cbn [rbind]; [|rewrite Hnew; cbn [rbind]]; rewrite IH; simpl.
  - done.
  - by destruct t.
Qed.

Lemma pick_named st blk n exts names :
  (forall name, name ∈ names -> name ∈ extension_name <$> exts) ->
  pick ((fun e => (extension_name e, slot_of en st blk n e)) <$> exts) names = Some (slot_named en exts st blk n <$> names).
Proof.
  induction names as [|name names IH]; intros Hn; [done|]. cbn [pick fmap list_fmap].
  rewrite IH by (intros x Hx; apply Hn; by right).
  assert (Hf : List.find (fun s => bool_decide (fst s = name)) ((fun e => (extension_name e, slot_of en st blk n e)) <$> exts)
               = (fun e => (extension_name e, slot_of en st blk n e)) <$> List.find (fun e => bool_decide (extension_name e = name)) exts).
  { clear. induction exts as [|e exts IH]; [done|]. cbn [fmap list_fmap List.find fst].
    case_bool_decide; [done|exact IH]. }
  rewrite Hf. unfold slot_named. destruct (List.find _ exts) as [e|] eqn:E; [done|]. exfalso.
  destruct (proj1 (list_elem_of_fmap _ _ _) (Hn name ltac:(by left))) as (e & -> & He).
  apply list_elem_of_In in He. apply (find_none _ _ E) in He. by rewrite bool_decide_true in He.
Qed.

(** A name outside the tuple stops the encoder. *)
Lemma pick_unknown (slots : list (string * (bytes * bytes))) names name :
  name ∈ names -> (name ∉ slots.*1) -> pick slots names = None.
Proof.
  induction names as [|x names IH]; [by intros ?%elem_of_nil|]. intros [->|Hin]%elem_of_cons Hn; cbn [pick].
  - destruct (List.find _ slots) as [s|] eqn:E; [|done]. exfalso. apply find_some in E as [Hs He].
    apply bool_decide_eq_true in He. apply Hn, list_elem_of_fmap. exists s. by rewrite list_elem_of_In.
  - rewrite (IH Hin Hn). by destruct (List.find _ slots).
Qed.

(** What a node must answer for a call to be signed. *)
Record answers (at_ : At) (call : WriterTx.Payload) (account : bytes) (g ci c : bytes) (names : list string) : Prop := {
  a_valid : at_validate at_ call = None;
  a_nonce : exists m, at_account_nonce at_ account = Ok m;
  a_genesis : at_genesis at_ = Some g;
  a_call : at_call_info at_ (WriterTx.tx_pallet call) (WriterTx.tx_call call) = Ok ci;
  a_encoded : encode_call en ci call = Ok c;
  a_signature : at_signature_info at_ = Ok tt;
  a_names : at_extension_info at_ (Some 0) = Ok names }.

Definition state_at (at_ : At) (g : bytes) : ClientState :=
  {| genesis_hash := g; spec_version := at_spec_version at_; transaction_version := at_transaction_version at_ |}.

Lemma signed_generic (Hl : EncoderLaws en) exts build at_ call signer n g ci c names :
  (forall m, inject_params en m <$> build = param_of n <$> exts) ->
  (forall t st blk p, tx_new en t st blk p = None) ->
  answers at_ call (account_id kc signer) g ci c names ->
  create_signed_v4 kc en exts at_ call signer build =
  match pick ((fun e => (extension_name e, slot_of en (state_at at_ g) (at_block at_) n e)) <$> exts) names with
  | Some l => Ok (v4_frame en (account_id kc signer) (sign_bytes kc (signer_payload en c l) signer) (values l) c)
  | None => match encode_v4_signer_payload en call ((fun e => (extension_name e, slot_of en (state_at at_ g) (at_block at_) n e)) <$> exts) ci names with
            | Err why => Err (EncodeError why)
            | Ok _ => Err (EncodeError EmptyString)
            end
  end.
Proof.
  intros Hp Hnew [Hv [m Hm] Hg Hci Hc Hs Hn]. unfold create_signed_v4. rewrite Hv, Hm. cbn [map_err rbind].
  rewrite Hg. cbn [rbind]. rewrite Hp, extensions_new_slots by done. cbn [rbind].
  rewrite Hci, Hs. cbn [map_err rbind]. unfold V4_EXTENSION_VERSION. rewrite Hn. cbn [map_err rbind].
  fold (state_at at_ g). set (slots := fmap _ exts).
  pose proof (payload_law en Hl call slots ci names c Hc) as Hpl.
  destruct (pick slots names) as [l|] eqn:Epick.
  - rewrite Hpl. cbn [map_err rbind].
    pose proof (signed_law en Hl call slots (account_id kc signer) (sign_bytes kc (signer_payload en c l) signer) ci names c Hc) as Hsl.
    rewrite Epick in Hsl. by rewrite Hsl.
  - destruct Hpl as [why ->]. done.
Qed.

(** C30. The writer can sign for every known runtime.  Whatever the chain, if it answers
    the client's reads, its version-0 extensions are among those of a known runtime,
    and the client library builds each of them from the parameters it is given
    ([TransactionExtensions::new] does not fail), the lane's [sign] yields an
    extrinsic: the frame of the signer's account, its signature over the call with the
    values and implicits of exactly those extensions in the chain's order, those
    values, and the call.  The nonce in it is the one the writer passed, not the
    account's, and extensions the chain declares at other versions have no part in
    it. *)
Theorem signs_for_known_runtimes (Hl : EncoderLaws en) r at_ call signer n g ci c names :
  (forall t st blk p, tx_new en t st blk p = None) ->
  answers at_ call (account_id kc signer) g ci c names ->
  r ∈ KNOWN_RUNTIMES -> (forall name, name ∈ names -> name ∈ kr_extensions r) ->
  exists exts,
    (kr_tuple r = TUPLE_EXTENSIONS /\ exts = PeopleTransactionExtensions \/
     kr_tuple r = ASSET_HUB_TUPLE_EXTENSIONS /\ exts = AssetHubTransactionExtensions) /\
    let l := slot_named en exts (state_at at_ g) (at_block at_) n <$> names in
    (if bool_decide (exts = PeopleTransactionExtensions) then people_sign kc en (Ok at_) n call signer
     else dotns_sign kc en (Ok at_) n call signer) =
    Ok (v4_frame en (account_id kc signer) (sign_bytes kc (signer_payload en c l) signer) (values l) c).
Proof.
  intros Hnew Ha Hr Hnames. destruct tuple_names as [HP HA].
  assert (Hcov : forall name, name ∈ names -> name ∈ kr_tuple r) by (intros x Hx; apply known_runtimes_covered; auto).
  destruct (known_runtime_tuple r Hr) as [Ht|Ht]; rewrite Ht in Hcov.
  - exists PeopleTransactionExtensions. split; [by left|]. cbv zeta. rewrite bool_decide_true by done.
    unfold people_sign. cbn [map_err rbind]. rewrite <-HP in Hcov.
    rewrite (signed_generic Hl PeopleTransactionExtensions _ at_ call signer n g ci c names (fun m => people_params Hl m n) Hnew Ha).
    by rewrite pick_named.
  - exists AssetHubTransactionExtensions. split; [by right|]. cbv zeta.
    rewrite bool_decide_false by (vm_compute; discriminate).
    unfold dotns_sign. cbn [map_err rbind]. rewrite <-HA in Hcov.
    rewrite (signed_generic Hl AssetHubTransactionExtensions _ at_ call signer n g ci c names (fun m => asset_hub_params Hl m n) Hnew Ha).
    by rewrite pick_named.
Qed.

(** An extension outside the tuple, or a call whose shape changed, is not signed. *)
Lemma unknown_extension_refused (Hl : EncoderLaws en) at_ call signer n g ci c names name :
  (forall t st blk p, tx_new en t st blk p = None) ->
  answers at_ call (account_id kc signer) g ci c names ->
  name ∈ names -> (name ∉ TUPLE_EXTENSIONS) ->
  is_ok (people_sign kc en (Ok at_) n call signer) = false.
Proof.
  intros Hnew Ha Hin Hno. unfold people_sign. cbn [map_err rbind].
  rewrite (signed_generic Hl PeopleTransactionExtensions _ at_ call signer n g ci c names (fun m => people_params Hl m n) Hnew Ha).
  rewrite (pick_unknown _ _ name Hin); [by case_match|].
  rewrite <-list_fmap_compose. destruct tuple_names as [HP _]. by rewrite <-HP in Hno.
Qed.

Lemma changed_call_refused at_ call signer n why :
  at_validate at_ call = Some why ->
  people_sign kc en (Ok at_) n call signer = Err (inr (IncompatibleCodegen why)) /\
  dotns_sign kc en (Ok at_) n call signer = Err (inr (IncompatibleCodegen why)).
Proof. intros Hv. unfold people_sign, dotns_sign, create_signed_v4. cbn [map_err rbind]. by rewrite Hv. Qed.

End props.

(** ** A concrete client *)

Module Demo.
Definition keys : KeyCrates :=
  {| RawKey := bytes; UriKey := string; from_ed25519_bytes := fun b => Ok b; from_uri := fun s => Ok s;
     raw_public := fun b => b; uri_public := as_bytes; raw_sign := fun c k p => (c ++ k ++ p)%list;
     uri_sign := fun k p => (as_bytes k ++ p)%list |}.

Definition nonce_byte (p : Param) : bytes := match p with PNonce (with_nonce n) => [n] | _ => [0] end.

(** Encoders that do what the laws say: no calls are over 256 bytes here. *)
Definition encoder : Encoder :=
  let call ci (p : WriterTx.Payload) := Ok (as_bytes (WriterTx.tx_call p)) in
  let base : Encoder :=
    {| inject_nonce := fun n p => match p with with_nonce m => with_nonce m | from_chain => with_nonce n end;
       tx_new := fun _ _ _ _ => None;
       tx_value := fun t _ _ p => match t with CheckNonce => nonce_byte p | _ => [] end;
       tx_implicit := fun t st _ _ => match t with CheckGenesis => genesis_hash st | _ => [] end;
       encode_call := call; blake2_256 := fun b => b; v4_frame := fun a s v c => (a ++ s ++ v ++ c)%list;
       encode_v4_signer_payload := fun _ _ _ _ => Err EmptyString;
       encode_v4_signed := fun _ _ _ _ _ _ => Err EmptyString |} in
  {| inject_nonce := inject_nonce base; tx_new := tx_new base; tx_value := tx_value base; tx_implicit := tx_implicit base;
     encode_call := call; blake2_256 := blake2_256 base; v4_frame := v4_frame base;
     encode_v4_signer_payload := fun p slots ci names =>
       match pick slots names with
       | Some l => Ok (signer_payload base (as_bytes (WriterTx.tx_call p)) l)
       | None => Err "extension not found"
       end;
     encode_v4_signed := fun p slots a s ci names =>
       match pick slots names with
       | Some l => Ok (v4_frame base a s (values l) (as_bytes (WriterTx.tx_call p)))
       | None => Err "extension not found"
       end |}.

Lemma encoder_laws : EncoderLaws encoder.
Proof.
  split; [done|done|..]; intros; simpl in *; simplify_eq;
    destruct (pick slots names); try done; by eexists.
Qed.

Definition demo_at : At :=
  {| at_validate := fun _ => None; at_account_nonce := fun _ => Ok 3; at_block := (9, [9]); at_genesis := Some [1; 2];
     at_spec_version := 2005000; at_transaction_version := 0; at_call_info := fun _ _ => Ok [];
     at_signature_info := Ok tt;
     at_extension_info := fun v => if bool_decide (v = Some 0) then Ok ["CheckGenesis"; "CheckNonce"; "AsPerson"] else Err "other" |}.

Definition demo_call : WriterTx.Payload := WriterTx.tx "PeopleLite" "attest" [].

(** The People runtime of the first row; nonce 7 although the account's is 3. *)
Lemma signs_for_known_runtimes_witness :
  exists exts,
    exts = PeopleTransactionExtensions /\
    people_sign keys encoder (Ok demo_at) 7 demo_call (Uri keys "k") =
    Ok (v4_frame encoder (as_bytes "k")
          (sign_bytes keys (signer_payload encoder (as_bytes "attest") (slot_named encoder exts (state_at demo_at [1; 2]) (9, [9]) 7 <$> ["CheckGenesis"; "CheckNonce"; "AsPerson"]))
             (Uri keys "k"))
          [7; 0] (as_bytes "attest")).
Proof.
  destruct (signs_for_known_runtimes keys encoder encoder_laws
              (default (Build_KnownRuntime EmptyString EmptyString 0 [] []) (head KNOWN_RUNTIMES)) demo_at demo_call (Uri keys "k") 7 [1; 2] []
              (as_bytes "attest") ["CheckGenesis"; "CheckNonce"; "AsPerson"]) as (exts & Hexts & Hs).
  - done.
  - split; try done. by exists 3.
  - by left.
  - apply Forall_forall. refine (bool_decide_eq_true_1 _ _). vm_compute. reflexivity.
  - exists exts. destruct Hexts as [[_ ->]|[Ht _]]; [|by vm_compute in Ht]. split; [done|].
    cbv zeta in Hs. rewrite bool_decide_true in Hs by done. exact Hs.
Defined.
End Demo.

End SigningProps.
