(* ===== verification/SingleReads.v ===== *)
(** * SingleReads: one entry of storage at a time, and the clients' start

    The reads of one entry of the People Chain and of Asset Hub ([chain/people.rs],
    [chain/asset_hub.rs]), the registry of names the writer reads through
    ([chain/registry.rs]), the reads of the ticket maintainer
    ([invite-tickets/chain.rs]) and of the indexer ([username-indexer/chain.rs]), and
    connecting each client with its shape check.  The client crate and its decoders are
    parameters. *)

From stdpp Require Import gmap.
From S2P Require Import Prelude Strings Text Usernames Signature WriterDotns ChainReads ChainClient Tickets.

#[local] Open Scope dub_scope.
#[local] Open Scope string_scope.
#[local] Open Scope Z_scope.

Module SingleReads.
Import ChainReads.

(** The entries read one at a time. *)
Inductive Item :=
| OwnerEntry (e : Entry)
| SystemAccount
| PeopleAllowance
| GatewayAllowance
| GameInvites
| ProofOfInkInvites.

(** [subxt]'s decoders: of an account, of a [u32], of the typed account record, and of
    a dynamic value with its accessors. *)
Record ValueCrates := {
  decode_account_value : bytes -> result bytes string;
  decode_u32_value : bytes -> result Z string;
  account_info_free : bytes -> result Z string;
  DynValue : Type;
  decode_dynamic : bytes -> result DynValue string;
  value_at : DynValue -> string -> option DynValue;
  as_u128 : DynValue -> option Z }.

(** One chain's client: what one read meets. *)
Record Client := {
  c_node : Node;
  try_fetch : Item -> bytes -> bytes -> result (option bytes) string;
  constant_u64 : string -> string -> result Z string;
  system_account_next_index : bytes -> result Z string;
  c_metadata : result Metadata string }.

Section reads.
Context (cr : ReadCrates) (vc : ValueCrates) (c : Client).

(** Fetch and decode; an absent entry reads as [absent]. *)
Definition fetch_or {A : Type} (absent : A) (decode : bytes -> result A string) (item : Item) (key : bytes)
    : result A string :=
  let? at_ := at_current_block (c_node c) in
  let? value := try_fetch c item key at_ in
  match value with Some b => decode b | None => Ok absent end.

Definition decode_some_account (b : bytes) : result (option bytes) string :=
  let? a := decode_account_value vc b in Ok (Some a).

(** ** [chain/people.rs] *)

Definition username_owner (full_username : string) : result (option bytes) string :=
  fetch_or None decode_some_account (OwnerEntry UsernameOwnerOf) (as_bytes full_username).

Definition free_balance (account : bytes) : result Z string :=
  fetch_or 0 (account_info_free vc) SystemAccount account.

Definition attestation_allowance (account : bytes) : result Z string :=
  fetch_or 0 (decode_u32_value vc) PeopleAllowance account.

Definition next_nonce (account : bytes) : result Z string :=
  map_err (fun _ => "system_accountNextIndex on People Chain") (system_account_next_index c account).

Definition HEALTH_PROBE_USERNAME : string := "readyz-probe.00".

Definition health : result unit string :=
  let? block_hash := map_err (fun _ => "People Chain unreachable") (at_current_block (c_node c)) in
  let? key := fetch_key cr UsernameOwnerOf (as_bytes HEALTH_PROBE_USERNAME) in
  let? _ := map_err (fun _ => "People Chain does not serve state_queryStorageAt")
              (query_storage_at (c_node c) [key] block_hash) in
  Ok tt.

(** ** [chain/asset_hub.rs] *)

Definition PALLET : string := "DotnsGateway".

Definition lite_label_owner (lite_label : string) : result (option bytes) string :=
  fetch_or None decode_some_account (OwnerEntry LiteLabelOwner) (as_bytes lite_label).

Definition ah_attestation_allowance (account : bytes) : result Z string :=
  fetch_or 0 (decode_u32_value vc) GatewayAllowance account.

Definition ah_free_balance (account : bytes) : result Z string :=
  fetch_or 0 (fun b =>
    let? value := decode_dynamic vc b in
    match (data ← value_at vc value "data"; free ← value_at vc data "free"; as_u128 vc free) with
    | Some free => Ok free
    | None => Err "System::Account has no data.free field"
    end) SystemAccount account.

Definition validity_window : result WriterDotns.ValidityWindow string :=
  let? _ := at_current_block (c_node c) in
  let? max_validity := map_err (fun _ => "reading DotnsGateway::MaxValiditySeconds")
                         (constant_u64 c PALLET "MaxValiditySeconds") in
  let? max_skew := map_err (fun _ => "reading DotnsGateway::MaxFutureSkewSeconds")
                     (constant_u64 c PALLET "MaxFutureSkewSeconds") in
  Ok {| WriterDotns.max_validity_secs := max_validity; WriterDotns.max_future_skew_secs := max_skew |}.

Definition ah_next_nonce (account : bytes) : result Z string :=
  map_err (fun _ => "system_accountNextIndex on Asset Hub") (system_account_next_index c account).

Definition ah_health : result unit string :=
  let? _ := map_err (fun _ => "Asset Hub unreachable") (at_current_block (c_node c)) in Ok tt.

(** ** [invite-tickets/chain.rs] *)

Definition available_invites (dim : Tickets.Dim) (inviter : bytes) : result Z string :=
  fetch_or 0 (decode_u32_value vc)
    (match dim with Tickets.Game => GameInvites | Tickets.ProofOfInk => ProofOfInkInvites end) inviter.

Definition invite_free_balance (account : bytes) : result Z string :=
  fetch_or 0 (account_info_free vc) SystemAccount account.

Definition invite_health : result unit string :=
  let? _ := map_err (fun _ => "People Chain unreachable") (at_current_block (c_node c)) in Ok tt.

End reads.
(** ** [chain/registry.rs]: the interface the writer's lanes read names through *)

Class NameRegistry := {
  owner : string -> result (option bytes) string;
  owners : list string -> result (gmap string bytes) string }.

Definition people_registry (cr : ReadCrates) (vc : ValueCrates) (c : Client) : NameRegistry :=
  {| owner := username_owner vc c; owners := username_owners cr (c_node c) |}.

Definition asset_hub_registry (cr : ReadCrates) (vc : ValueCrates) (c : Client) : NameRegistry :=
  {| owner := lite_label_owner vc c; owners := lite_label_owners cr (c_node c) |}.

(** ** Connecting *)

Definition shape_error_text (e : PalletCallArgsShapeError) : string :=
  Pallet_to_string (sh_pallet e) +:+ " shape mismatch: this writer builds [" +:+ sh_expected e
    +:+ "], the connected runtime's " +:+ Pallet_to_string (sh_pallet e) +:+ " declares [" +:+ sh_found e
    +:+ "]. This chain runs a different runtime version; point relevant network rpc(PEOPLE_RPC_URL,ASSET_HUB_RPC_URL).".

Definition connect_error_text (e : ChainClient.ConnectError) : string :=
  match e with
  | ChainClient.Transport chain url => "connecting to " +:+ chain +:+ " at " +:+ url
  | ChainClient.Client chain url => "building the " +:+ chain +:+ " client at " +:+ url
  end.

Definition check_shape (vendored : Metadata) (live : result Metadata string) (pallet_name call_name : string) (p : Pallet)
    : result unit string :=
  let? vendored_call := extract_call_fields vendored pallet_name call_name true in
  let? live := live in
  let? call := extract_call_fields live pallet_name call_name false in
  map_err shape_error_text (check_pallet_call_args vendored_call p call).

Definition check_attest_shape (vendored : Metadata) (c : Client) : result unit string :=
  check_shape vendored (c_metadata c) "PeopleLite" "attest" PeopleLite.

Definition check_reserve_name_shape (vendored : Metadata) (c : Client) : result unit string :=
  check_shape vendored (c_metadata c) PALLET "reserve_name" DotnsGateway.

(** What the vendored metadata says: the version it names and the two runtimes. *)
Record Vendored := { spec : Z; people : Metadata; asset_hub : Metadata }.

Definition PeopleChain_connect (n : ChainClient.Network) (v : Vendored) (url : string) (c : Client) : result Client string :=
  let? _ := map_err connect_error_text (ChainClient.connect_with_rpc n (spec v) url) in
  let? _ := check_attest_shape (people v) c in
  Ok c.

Definition AssetHub_connect (n : ChainClient.Network) (v : Vendored) (url : string) (c : Client) : result Client string :=
  let? _ := map_err connect_error_text (ChainClient.connect_asset_hub_with_rpc n url) in
  let? _ := map_err (fun _ => "Asset Hub at " +:+ url) (check_reserve_name_shape (asset_hub v) c) in
  Ok c.

(** [connect_asset_hub] of the writer's link ([writer/link.rs]). *)
Definition connect_asset_hub (n : ChainClient.Network) (v : Vendored) (url : string) (c : Client)
    : result (Client * WriterDotns.ValidityWindow) string :=
  let? client := AssetHub_connect n v url c in
  let? window := validity_window client in
  Ok (client, window).

Definition TicketChain_connect (n : ChainClient.Network) (v : Vendored) (url : string) (c : Client) : result Client string :=
  let? _ := map_err connect_error_text (ChainClient.connect n (spec v) url) in Ok c.

(** ** [username-indexer/chain.rs] *)

Inductive ChainError := Connect (url : string) | Initialize | Query | NoBestHeader.

Record IndexerClient := {
  i_current_block : option Z;
  i_header : option (option Z) (** [chain_getHeader]: failed, or a header or none *) }.

Definition IndexerChain_connect (n : ChainClient.Network) (url : string) (c : IndexerClient) : result IndexerClient ChainError :=
  if ChainClient.dial n url then if ChainClient.build_client n url then Ok c else Err Initialize else Err (Connect url).

Definition finalized_head_number (c : IndexerClient) : result Z ChainError :=
  match i_current_block c with Some n => Ok n | None => Err Query end.

Definition best_head_number (c : IndexerClient) : result Z ChainError :=
  match i_header c with None => Err Query | Some None => Err NoBestHeader | Some (Some n) => Ok n end.

Definition indexer_health (c : IndexerClient) : result unit ChainError :=
  let? _ := finalized_head_number c in Ok tt.

End SingleReads.
