(* ===== verification/RegistryProps.v ===== *)
(** * RegistryProps: what the writer lands, chain storage shows

    The writer's evidence of ownership is what its name registries answered.  Over
    nodes that tell the truth, a registry answers with the storage of one block,
    whether it reads one name or a batch; so a row the writer lands on such evidence is
    owned by its candidate on chain. *)

From stdpp Require Import gmap.
From S2P Require Import Prelude Strings Schema Lease Outbox DeviceGate WriterLane WriterTx WriterEngine.
From S2P Require Import WriterSpec WriterProps WriterClaims ChainReads ChainReadProps SingleReads.

#[local] Open Scope string_scope.
#[local] Open Scope Z_scope.

Module RegistryProps.
Import WriterClaims ChainReads ChainReadProps SingleReads.

(** A registry answers the truth: [shows n o] is that [o] is the owner of [n]. *)
Class RegistryTruth (R : NameRegistry) (shows : string -> option bytes -> Prop) : Prop := {
  owner_true n o : owner (NameRegistry := R) n = Ok o -> shows n o;
  owners_true names m n : owners (NameRegistry := R) names = Ok m -> n ∈ names -> shows n (m !! n);
  owners_asked names m n o : owners (NameRegistry := R) names = Ok m -> m !! n = Some o -> n ∈ names }.

(** ** The two registries *)

Section truth.
Context (cr : ReadCrates) (vc : ValueCrates) (c : Client) (store : bytes -> bytes -> option bytes).

(** What the client crate does: a batch and a single fetch both read the storage of the
    block, and an account decodes the same way by its type and by its codec. *)
Record HonestClient : Prop := {
  hc_node : honest (c_node c) store;
  hc_fetch : forall e key at_ v, try_fetch c (OwnerEntry e) key at_ = Ok v ->
    exists k, fetch_key cr e key = Ok k /\ v = store at_ k;
  hc_decode : forall b a, decode_account_value vc b = Ok a -> decode_owner cr b = Ok a }.

Hypothesis client_honest : HonestClient.

(** The owner in the storage of the block the client reads at. *)
Definition shown (e : Entry) (n : string) (o : option bytes) : Prop :=
  exists at_, at_current_block (c_node c) = Ok at_ /\ owner_at cr store e at_ n o.

Lemma shown_functional e n o o' : shown e n o -> shown e n o' -> o = o'.
Proof.
  intros (at_ & Ha & k & Hk & H) (at' & Ha' & k' & Hk' & H'). assert (at' = at_) as -> by congruence.
  assert (k' = k) as -> by congruence. destruct (store at_ k) as [b|]; [|congruence].
  destruct H as (a & Hd & ->). destruct H' as (a' & Hd' & ->). congruence.
Qed.

Lemma single_shown e n o :
  fetch_or c None (decode_some_account vc) (OwnerEntry e) (as_bytes n) = Ok o -> shown e n o.
Proof using client_honest.
  unfold fetch_or. intros (at_ & Ha & (v & Hv & H)%rbind_ok)%rbind_ok. exists at_. split; [done|].
  apply (hc_fetch client_honest) in Hv as (k & Hk & ->). exists k. split; [done|].
  destruct (store at_ k) as [b|]; [|by injection H as <-].
  apply rbind_ok in H as (a & Hd & [= <-]). exists a. split; [by apply (hc_decode client_honest)|done].
Qed.

Lemma batch_shown e context names m :
  owners_of cr (c_node c) e context names = Ok m ->
  (forall n, n ∈ names -> shown e n (m !! n)) /\ forall n o, m !! n = Some o -> n ∈ names.
Proof using client_honest.
  intros [[-> ->]|(at_ & Ha & Hno & Hyes)]%(owners_read cr (c_node c) store (hc_node client_honest)).
  - split; [intros n Hn; by apply not_elem_of_nil in Hn|]. intros n o Hn. by rewrite lookup_empty in Hn.
  - split; [intros n Hn; exists at_; split; [done|by apply Hyes]|]. intros n o Hn.
    destruct (decide (n ∈ names)) as [Hin|Hin]; [done|]. by rewrite (Hno n Hin) in Hn.
Qed.

#[export] Instance people_truth : RegistryTruth (people_registry cr vc c) (shown UsernameOwnerOf).
Proof using client_honest.
  split; cbn.
  - intros n o. apply single_shown.
  - intros names m n H Hn. by apply (batch_shown _ _ _ _ H).
  - intros names m n o H Hn. by apply (batch_shown _ _ _ _ H) in Hn.
Qed.

#[export] Instance asset_hub_truth : RegistryTruth (asset_hub_registry cr vc c) (shown LiteLabelOwner).
Proof using client_honest.
  split; cbn.
  - intros n o. apply single_shown.
  - intros names m n H Hn. by apply (batch_shown _ _ _ _ H).
  - intros names m n o H Hn. by apply (batch_shown _ _ _ _ H) in Hn.
Qed.

(** One read and a batch agree on a name. *)
Lemma single_agrees_with_batch n o names m :
  username_owner vc c n = Ok o -> username_owners cr (c_node c) names = Ok m -> n ∈ names -> m !! n = o.
Proof using client_honest.
  intros Ho Hm Hn. eapply shown_functional; [by apply (batch_shown _ _ _ _ Hm)|by apply single_shown].
Qed.
End truth.

(** A client that connects builds the calls the live runtime takes: the same
    arguments, in the same order and of the same types, as the vendored metadata. *)
Lemma connected_shape n v url c client :
  PeopleChain_connect n v url c = Ok client ->
  client = c /\ exists live fields, c_metadata c = Ok live /\
    extract_call_fields (people v) "PeopleLite" "attest" true = Ok fields /\
    extract_call_fields live "PeopleLite" "attest" false = Ok fields.
Proof.
  unfold PeopleChain_connect, check_attest_shape, check_shape. intros H.
  apply rbind_ok in H as (_ & _ & H). apply rbind_ok in H as ([] & Hs & [= <-]). split; [done|].
  apply rbind_ok in Hs as (want & Hw & Hs). apply rbind_ok in Hs as (live & Hl & Hs).
  apply rbind_ok in Hs as (got & Hg & Hs). apply map_err_ok, call_shape_exact in Hs as ->. by exists live, want.
Qed.

(** ** The writer over the registries *)

Section writer.
Context {W : Type} `{!Env W}.
Context (cr : ReadCrates) (vc : ValueCrates) (clients : ChainId -> W -> Client)
  (store : ChainId -> bytes -> bytes -> option bytes).

Definition entry_of (chain : ChainId) : Entry :=
  match chain with PeopleChain => UsernameOwnerOf | AssetHub => LiteLabelOwner end.

Definition registry (chain : ChainId) (w : W) : NameRegistry :=
  match chain with
  | PeopleChain => people_registry cr vc (clients chain w)
  | AssetHub => asset_hub_registry cr vc (clients chain w)
  end.

(** The writer reads owners through the registries of honest clients. *)
Record HonestChains : Prop := {
  reads_owner : forall chain w n, w_owner chain w n = owner (NameRegistry := registry chain w) n;
  reads_owners : forall chain w names, w_owners chain w names = owners (NameRegistry := registry chain w) names;
  reads_truth : forall chain w, HonestClient cr vc (clients chain w) (store chain) }.

(** Some block of the chain names [c] as the owner of [n]. *)
Definition owned_on_chain (chain : ChainId) (n : string) (c : bytes) : Prop :=
  exists at_, owner_at cr (store chain) (entry_of chain) at_ n (Some c).

(** The chain's word for the landing of row [k]: its storage, which names the row's
    candidate as the owner of the row's name, or a finalized or refused extrinsic that
    carried the row. *)
Definition chain_says (chain : ChainId) (tr : list Obs) (k : Z) (row : Row) : Prop :=
  exists c, env_account (nr_candidate_account_id (r_new row)) = Some c /\
    (owned_on_chain chain (r_full_username row) c \/
     exists r o, read_from k row r /\ o ∈ tr /\ justifies env_describe o r c /\
       match o with SawFinalized _ _ | SawRefusal _ _ => True | _ => False end).

Hypothesis chains_honest : HonestChains.

Lemma registry_truth chain w :
  RegistryTruth (registry chain w) (shown cr (clients chain w) (store chain) (entry_of chain)).
Proof using chains_honest.
  pose proof (reads_truth chains_honest chain w) as H. destruct chain; [by apply people_truth|by apply asset_hub_truth].
Qed.

Section lane.
Context {Link Ctx : Type} `{L : !Lane W Link Ctx, !LaneLaws W Link Ctx} (cx : Cx).

Abbreviation step := (wstep env_account env_describe cx).

(** Every owner in the trace was read from the lane's chain. *)
Lemma steps_read s s' :
  rtc step s s' -> (forall o, o ∈ ws_trace s -> exists w, read_in w o) ->
  forall o, o ∈ ws_trace s' -> exists w, read_in w o.
Proof.
  induction 1 as [|s1 s2 s3 H12 _ IH]; [done|]. intros H1. apply IH. clear IH.
  inversion H12 as [todo w db tr todo' db' tr' Ha|todo w db tr ob Hc Hr|todo w db tr]; subst; cbn [ws_trace] in *.
  - inversion Ha; subst; try done; intros ob [->|Hin]%elem_of_cons; auto; by exists w.
  - intros o' [->|Hin]%elem_of_cons; [by exists w|auto].
  - done.
Qed.

Lemma justifies_says tr k row r c o :
  read_from k row r ->
  (forall o', o' ∈ tr -> exists w, read_in (Lane0 := L) w o') ->
  o ∈ tr -> candidate_of env_account r = Some c -> justifies env_describe o r c ->
  chain_says lane_chain tr k row.
Proof using chains_honest.
  intros Hfrom Hread Ho Hc Hj. destruct (read_from_fields _ _ _ Hfrom) as (_ & Hname & Hcand).
  exists c. unfold candidate_of in Hc. rewrite <-Hcand. split; [done|]. rewrite <-Hname.
  destruct (Hread o Ho) as [w Hw].
  assert (Hshown : shown cr (clients lane_chain w) (store lane_chain) (entry_of lane_chain) (full_username r) (Some c) ->
    owned_on_chain lane_chain (full_username r) c) by (intros (at_ & _ & H); by exists at_).
  pose proof (registry_truth lane_chain w) as Ht.
  destruct o as [own|name own|rows events|rows reason|rs|r' o']; cbn in Hj; [left|left|right|right|done|done].
  - destruct Hw as [names Hn]. rewrite (reads_owners chains_honest) in Hn. apply Hshown. rewrite <- Hj.
    eapply (owners_true (RegistryTruth := Ht)); [exact Hn|]. exact (owners_asked (RegistryTruth := Ht) _ _ _ _ Hn Hj).
  - destruct Hj as [-> ->]. cbn in Hw. rewrite (reads_owner chains_honest) in Hw. apply Hshown.
    exact (owner_true (RegistryTruth := Ht) _ _ Hw).
  - by exists r, (SawFinalized rows events).
  - by exists r, (SawRefusal rows reason).
Qed.

Definition lands_on_chain {E A : Type} (m : M E A) : Prop :=
  forall st : WriterEngine.St (W := W) (Link := Link), 
    never_lands w_interfere -> keeps_claims w_interfere -> st_trace st = [] ->
    forall k row, rows_of (st_db (m st).2) !! k = Some row -> lane_landed (lane_state row) = true ->
      landed_at (st_db st) k \/ chain_says lane_chain (st_trace (m st).2) k row.

Lemma drains_land_on_chain {E A : Type} (m : M E A) : drains (L := L) cx m -> lands_on_chain m.
Proof using chains_honest LaneLaws0.
  intros Hm st Hn Hk Htr k row Hr Hl.
  destruct (drains_lands cx m Hm st Hn Hk Htr k row Hr Hl) as [H|(r & Hf & c & o & Hc & Ho & Hj)];
    [by left|]. right. destruct (Hm st) as (otodo & Hs & _).
  eapply justifies_says; [exact Hf| |exact Ho|exact Hc|exact Hj]. intros o' Ho'.
  apply (steps_read _ _ Hs); [|exact Ho']. cbn. rewrite Htr. intros o'' H. by apply not_elem_of_nil in H.
Qed.
End lane.

(** C4. What the writer lands, the chain shows: when the writer reads owners through
    clients whose nodes tell the truth (and nobody else lands rows, deletes them or
    rewrites their claims), a row landed by a pass or a startup reconcile of either lane
    was landed before, or the storage of some block of that lane's chain names the row's
    own candidate as the owner of the row's own name, or an extrinsic that carried this
    row was finalized with the row's call successful, or was refused as already
    registered. *)
Theorem landed_rows_on_chain cx :
  lands_on_chain (L := people_lane) (people_pass cx) /\
  lands_on_chain (L := people_lane) (people_reconcile cx) /\
  lands_on_chain (L := dotns_lane) (dotns_pass cx) /\
  lands_on_chain (L := dotns_lane) (dotns_reconcile cx).
Proof using chains_honest.
  split; [|split; [|split]].
  - apply (drains_land_on_chain (L := people_lane) cx), people_pass_drains.
  - apply (drains_land_on_chain (L := people_lane) cx), people_reconcile_drains.
  - apply (drains_land_on_chain (L := dotns_lane) cx), dotns_pass_drains.
  - apply (drains_land_on_chain (L := dotns_lane) cx), dotns_reconcile_drains.
Qed.
End writer.
(** ** A concrete world: the chain already names the candidate as the owner *)

Module Demo.
Import ChainReadProps.Demo.

Definition chain_store (at_ key : bytes) : option bytes :=
  if bool_decide (key = 1 :: as_bytes "tallesx.07") then Some [1] else None.

Definition values : ValueCrates :=
  {| decode_account_value := Ok; decode_u32_value := fun _ => Ok 0; account_info_free := fun _ => Ok 0;
     DynValue := unit; decode_dynamic := fun _ => Ok tt; value_at := fun _ _ => None; as_u128 := fun _ => None |}.

Definition client : Client :=
  {| c_node := {| at_current_block := Ok [7];
                  query_storage_at := fun keys at_ =>
                    Ok [{| block := at_; changes := (fun k => (k, chain_store at_ k)) <$> keys |}];
                  max_reservation_queue_length := Ok 10 |};
     try_fetch := fun item key at_ =>
       match item with
       | OwnerEntry e => match fetch_key demo e key with Ok k => Ok (chain_store at_ k) | Err e => Err e end
       | _ => Ok None
       end;
     constant_u64 := fun _ _ => Err "none"; system_account_next_index := fun _ => Ok 0; c_metadata := Err "none" |}.

Definition reg (chain : ChainId) : NameRegistry :=
  match chain with PeopleChain => people_registry demo values client | AssetHub => asset_hub_registry demo values client end.

#[local] Instance chain_world : World Z := {|
  w_next w := w + 1; w_now w := w; w_app_now w := w; w_fate _ := Fine; w_db_error _ := "io"; w_interfere _ db := db;
  w_owner chain _ n := owner (NameRegistry := reg chain) n;
  w_owners chain _ names := owners (NameRegistry := reg chain) names;
  w_nonce _ _ := Ok 7; w_sign _ _ _ _ := Ok "0xfeed"; w_broadcast _ _ := Ok tt;
  w_finality _ _ := (1%nat, Finalized (Ok [])) |}.

#[local] Instance chain_env : Env Z := {|
  env_world := chain_world;
  env_scale := env_scale (Env := demo_env); env_account := env_account (Env := demo_env);
  env_describe := env_describe (Env := demo_env); env_verify := env_verify (Env := demo_env);
  env_instant := env_instant (Env := demo_env); env_dial := env_dial (Env := demo_env);
  env_constant := env_constant (Env := demo_env) |}.

Lemma client_is_honest : HonestClient demo values client chain_store.
Proof.
  split.
  - intros keys at_ sets set k v [= <-] Hset Hin. apply list_elem_of_singleton in Hset as ->. cbn in Hin.
    by apply list_elem_of_fmap in Hin as (k' & [= -> ->] & _).
  - intros e key at_ v [= <-]. by eexists.
  - intros b a [= ->]. done.
Defined.

Lemma chains_are_honest : HonestChains demo values (fun _ _ => client) (fun _ => chain_store).
Proof. split; [by intros []|by intros []|intros _ _; apply client_is_honest]. Defined.

(** The pass finds the name owned by its candidate, and lands the row on that. *)
Lemma landed_rows_on_chain_witness :
  HonestChains demo values (fun _ _ => client) (fun _ => chain_store) /\
  (exists row, rows_of (st_db (people_pass demo_cx demo_st).2) !! 1 = Some row /\ r_status row = Assigned) /\
  (exists c, env_account "5Fb" = Some c /\
     (owned_on_chain demo (fun _ => chain_store) PeopleChain "tallesx.07" c \/
      exists r o, full_username r = "tallesx.07" /\ o ∈ st_trace (people_pass demo_cx demo_st).2 /\
        justifies env_describe o r c)).
Proof.
  split; [exact chains_are_honest|].
  assert (exists row, rows_of (st_db (people_pass demo_cx demo_st).2) !! 1 = Some row /\
            r_status row = Assigned /\ r_new row = signed_new) as Hrow
    by (eexists; split; [vm_compute; reflexivity|split; vm_compute; reflexivity]).
  destruct Hrow as (row & Hr & Hs & Hnew). split; [exists row; split; [exact Hr|exact Hs]|].
  destruct (proj1 (landed_rows_on_chain demo values (fun _ _ => client) (fun _ => chain_store) chains_are_honest demo_cx)
    demo_st) with (k := 1) (row := row) as [(row0 & H0 & Hl)|(c & Hc & Hsays)].
  - intros w db k Hk. exact Hk.
  - intros w db. reflexivity.
  - reflexivity.
  - exact Hr.
  - simpl. unfold people_state. rewrite Hs. reflexivity.
  - exfalso. vm_compute in H0. injection H0 as <-. vm_compute in Hl. discriminate Hl.
  - unfold r_full_username in Hsays. rewrite Hnew in Hc, Hsays. exists c. split; [exact Hc|].
    destruct Hsays as [H|(r & o & Hf & Ho & Hj & _)]; [left; exact H|right]. exists r, o.
    apply read_from_fields in Hf as (_ & Hn & _). unfold r_full_username in Hn. rewrite Hnew in Hn.
    split; [exact Hn|]. split; [exact Ho|exact Hj].
Defined.
End Demo.
End RegistryProps.
