(* ===== verification/ApiDoc.v ===== *)
(** * ApiDoc: the generator of the API reference ([apidoc-gen/src/lib.rs], [main.rs])

    The services' OpenAPI documents are merged into one, and rendered as the
    navigation and the sections of an HTML page.  The documents are derived by a macro
    and are parameters; so are the pretty-printer of JSON and the files.  An object
    keeps its keys in order of insertion ([serde_json]'s [preserve_order]).  A panic
    of [expect] is [None]. *)

From stdpp Require Import pretty.
From S2P Require Import Prelude Strings Text Schema DeviceGate Routes.

#[local] Open Scope string_scope.
#[local] Open Scope Z_scope.

Module ApiDoc.
Import Routes.

(** ** Values *)

Abbreviation Map := (list (string * Json)).

Definition map_get (key : string) (m : Map) : option Json := json_get key (JObject m).
Definition as_object (v : Json) : option Map := match v with JObject m => Some m | _ => None end.
Definition as_bool (v : Json) : option bool := match v with JBool b => Some b | _ => None end.

(** [get] followed by a conversion. *)
Definition get_str (key : string) (v : Json) : option string := json_get key v ≫= json_as_str.
Definition get_array (key : string) (v : Json) : option (list Json) := json_get key v ≫= json_as_array.
Definition get_object (key : string) (v : Json) : option Map := json_get key v ≫= as_object.

(** [Map::insert]: a known key keeps its place. *)
Fixpoint map_insert (key : string) (v : Json) (m : Map) : Map :=
  match m with
  | [] => [(key, v)]
  | (k, w) :: m' => if String.eqb k key then (k, v) :: m' else (k, w) :: map_insert key v m'
  end.

Definition map_extend (m src : Map) : Map := foldl (fun acc '(k, v) => map_insert k v acc) m src.

(** [str::replace] of a character by a string. *)
Fixpoint replace_char (c : ascii) (by_ : string) (s : string) : string :=
  match s with
  | EmptyString => EmptyString
  | String d s' => (if Ascii.eqb d c then by_ else String d EmptyString) +:+ replace_char c by_ s'
  end.

(** [str::replace] of a string: the occurrences from the left, not overlapping.  Each
    round shortens what is left, so its length is enough. *)
Fixpoint replace_from (fuel : nat) (from to s : string) : string :=
  match fuel with
  | O => s
  | S fuel' =>
      match find_at from s with
      | Some i => str_take i s +:+ to +:+ replace_from fuel' from to (str_drop (i + String.length from) s)
      | None => s
      end
  end.
Definition replace_str (from to s : string) : string := replace_from (String.length s) from to s.

(** A JSON pointer: the tokens after the first slash, with the escapes of slash and
    tilde undone. *)
Definition pointer_tokens (path : string) : list string :=
  (fun t => replace_str "~0" "~" (replace_str "~1" "/" t)) <$> tail (split_on "/"%char path).

(** An index of an array has no sign and no leading zero. *)
Definition parse_index (t : string) : option nat :=
  match t with
  | String c (String _ _) =>
      if Ascii.eqb c "0"%char || Ascii.eqb c "+"%char then None else Z.to_nat <$> parse_unsigned USIZE_MAX t
  | String c EmptyString => if Ascii.eqb c "+"%char then None else Z.to_nat <$> parse_unsigned USIZE_MAX t
  | EmptyString => None
  end.

Definition pointer_step (v : Json) (t : string) : option Json :=
  match v with
  | JObject _ => json_get t v
  | JArray l => i ← parse_index t; l !! i
  | _ => None
  end.
Definition pointer (path : string) (v : Json) : option Json :=
  foldl (fun acc t => v ← acc; pointer_step v t) (Some v) (pointer_tokens path).

(** What [pointer_mut] lets be changed in place: [None] where there is no such place. *)
Fixpoint update_at (tokens : list string) (f : Json -> option Json) (v : Json) : option Json :=
  match tokens with
  | [] => f v
  | t :: tokens' =>
      match v with
      | JObject m => w ← json_get t v; w' ← update_at tokens' f w; Some (JObject (map_insert t w' m))
      | JArray l => i ← parse_index t; w ← l !! i; w' ← update_at tokens' f w; Some (JArray (<[i := w']> l))
      | _ => None
      end
  end.

(** ** The merged document *)

Definition merge_object (other : Json) (path : string) (base : Json) : option Json :=
  let src := default [] (pointer path other ≫= as_object) in
  update_at (pointer_tokens path) (fun v => m ← as_object v; Some (JObject (map_extend m src))) base.

Definition merge_array (other : Json) (path : string) (base : Json) : option Json :=
  let src := default [] (pointer path other ≫= json_as_array) in
  match src with
  | [] => Some base
  | _ => update_at (pointer_tokens path) (fun v => l ← json_as_array v; Some (JArray (l ++ src))) base
  end.

(** The documents of the services; invite tickets where the network has them. *)
Record Docs := {
  attestation_doc : Json; indexer_doc : Json; invites_doc : option Json; turn_doc : Json; notify_doc : Json }.

Definition others (d : Docs) : list Json :=
  (indexer_doc d :: match invites_doc d with Some i => [i] | None => [] end ++ [turn_doc d; notify_doc d])%list.

Definition merge_doc (base : option Json) (other : Json) : option Json :=
  base ← base;
  base ← merge_object other "/paths" base;
  base ← merge_object other "/components/schemas" base;
  merge_array other "/tags" base.

Definition merged_doc (d : Docs) : option Json := foldl merge_doc (Some (attestation_doc d)) (others d).

(** ** Endpoints by tag *)

Record Endpoint := { method : string; path : string; op : Map }.

Definition METHODS : list string := ["get"; "post"; "put"; "patch"; "delete"].

Definition declared_tags (doc : Json) : list string :=
  match get_array "tags" doc with Some tags => omap (get_str "name") tags | None => [] end.

Definition tag_of (op : Map) : string :=
  default "Other" (t ← get_array "tags" (JObject op); first ← head t; json_as_str first).

(** The list of the tag grows, or a new group is added at the end. *)
Fixpoint add_endpoint (tag : string) (ep : Endpoint) (grouped : list (string * list Endpoint))
    : list (string * list Endpoint) :=
  match grouped with
  | [] => [(tag, [ep])]
  | (t, l) :: grouped' =>
      if String.eqb t tag then (t, l ++ [ep])%list :: grouped' else (t, l) :: add_endpoint tag ep grouped'
  end.

(** One documented operation, in the loops over paths and methods. *)
Definition visit (acc : list string * list (string * list Endpoint)) (ep : Endpoint)
    : list string * list (string * list Endpoint) :=
  let '(tag_order, grouped) := acc in
  let tag := tag_of (op ep) in
  (if bool_decide (tag ∈ tag_order) then tag_order else tag_order ++ [tag],
   add_endpoint tag ep grouped)%list.

Definition operations_of (path : string) (item : Json) : list Endpoint :=
  match as_object item with
  | None => []
  | Some item => omap (fun m => o ← get_object m (JObject item); Some {| method := m; path := path; op := o |}) METHODS
  end.

(** The documented operations, in the order the loops meet them. *)
Definition operations (doc : Json) : list Endpoint :=
  match get_object "paths" doc with
  | None => []
  | Some paths => concat ((fun '(path, item) => operations_of path item) <$> paths)
  end.

(** [position], or the largest [usize]. *)
Definition tag_position (order : list string) (tag : string) : Z :=
  match list_find (fun t => t = tag) order with Some (i, _) => Z.of_nat i | None => USIZE_MAX end.

Definition by_position (order : list string) (a b : string * list Endpoint) : bool :=
  tag_position order (fst a) <=? tag_position order (fst b).

Definition endpoints_by_tag (doc : Json) : list (string * list Endpoint) :=
  let '(tag_order, grouped) := foldl visit (declared_tags doc, []) (operations doc) in
  sort_by (by_position tag_order) grouped.

End ApiDoc.

(** * Every documented operation is on the page, once

    Merging the services' documents loses no operation, and grouping them by tag
    loses, repeats and misplaces none. *)

Module ApiDocProps.
Import Routes ApiDoc.

(** ** Objects *)

Lemma json_get_cons key k v m :
  json_get key (JObject ((k, v) :: m)) = if String.eqb k key then Some v else json_get key (JObject m).
Proof. cbn. by destruct (String.eqb k key). Qed.

Lemma get_insert_eq key v m : json_get key (JObject (map_insert key v m)) = Some v.
Proof.
  induction m as [|[k w] m IH]; cbn [map_insert]; [by rewrite json_get_cons, String.eqb_refl|].
  destruct (String.eqb k key) eqn:E; rewrite json_get_cons, E; [done|exact IH].
Qed.

Lemma get_insert_ne key key' v m :
  key <> key' -> json_get key' (JObject (map_insert key v m)) = json_get key' (JObject m).
Proof.
  intros Hne. induction m as [|[k w] m IH]; cbn [map_insert].
  - rewrite json_get_cons. by destruct (String.eqb_spec key key').
  - destruct (String.eqb_spec k key) as [->|]; rewrite !json_get_cons.
    + by destruct (String.eqb_spec key key').
    + by rewrite IH.
Qed.

Lemma insert_fresh key v m : key ∉ m.*1 -> map_insert key v m = (m ++ [(key, v)])%list.
Proof.
  induction m as [|[k w] m IH]; cbn [map_insert fmap list_fmap fst app]; [done|].
  intros [Hne Hn]%not_elem_of_cons. destruct (String.eqb_spec k key) as [->|]; [done|]. by rewrite IH.
Qed.

Lemma extend_fresh m src : NoDup (m ++ src)%list.*1 -> map_extend m src = (m ++ src)%list.
Proof.
  revert m. induction src as [|[k v] src IH]; intros m Hnd; [by rewrite app_nil_r|].
  unfold map_extend in *. cbn [foldl]. rewrite insert_fresh.
  - rewrite IH by by rewrite <- app_assoc. by rewrite <- app_assoc.
  - rewrite fmap_app in Hnd. apply NoDup_app in Hnd as (_ & Hd & _). intros Hk. apply (Hd k Hk). apply list_elem_of_here.
Qed.

(** A later document silently takes over a key it shares with an earlier one. *)
Lemma extend_lookup key m src :
  NoDup src.*1 ->
  json_get key (JObject (map_extend m src)) =
  match json_get key (JObject src) with Some v => Some v | None => json_get key (JObject m) end.
Proof.
  revert m. induction src as [|[k v] src IH]; intros m Hnd; [done|]. apply NoDup_cons in Hnd as [Hk Hnd].
  unfold map_extend in *. cbn [foldl]. rewrite IH by done. rewrite json_get_cons.
  destruct (String.eqb_spec k key) as [->|Hne]; [|by rewrite get_insert_ne].
  rewrite get_insert_eq. destruct (json_get key (JObject src)) as [w|] eqn:E; [|done]. exfalso. apply Hk.
  clear -E. induction src as [|[k w'] src IH]; [done|]. rewrite json_get_cons in E. cbn [fmap list_fmap fst].
  destruct (String.eqb_spec k key) as [->|]; [apply list_elem_of_here|apply list_elem_of_further; auto].
Qed.

(** ** Grouping *)

Abbreviation Groups := (list (string * list Endpoint)).

Lemma add_endpoint_tags tag ep (g : Groups) :
  (add_endpoint tag ep g).*1 = if bool_decide (tag ∈ g.*1) then g.*1 else (g.*1 ++ [tag])%list.
Proof.
  induction g as [|[t l] g IH]; cbn [add_endpoint fmap list_fmap fst].
  { by rewrite bool_decide_eq_false_2 by apply not_elem_of_nil. }
  destruct (String.eqb_spec t tag) as [->|Hne]; cbn [fmap list_fmap fst].
  - by rewrite bool_decide_eq_true_2 by apply list_elem_of_here.
  - rewrite IH. destruct (decide (tag ∈ g.*1)) as [Hin|Hin].
    + by rewrite !bool_decide_eq_true_2 by (done || by apply list_elem_of_further).
    + rewrite !bool_decide_eq_false_2; [done|apply not_elem_of_cons; by split|done].
Qed.

(** A group holds the operations of its tag, in the order they were met. *)
Definition of_tag (tag : string) (eps : list Endpoint) : list Endpoint :=
  List.filter (fun ep => String.eqb (tag_of (op ep)) tag) eps.

Lemma of_tag_app tag a b : of_tag tag (a ++ b)%list = (of_tag tag a ++ of_tag tag b)%list.
Proof. apply List.filter_app. Qed.

Record grouping (eps : list Endpoint) (g : Groups) : Prop := {
  gr_nodup : NoDup g.*1;
  gr_tags : forall tag, tag ∈ g.*1 <-> tag ∈ tag_of ∘ op <$> eps;
  gr_group : forall tag l, (tag, l) ∈ g -> l = of_tag tag eps }.

Lemma add_group tag ep (g : Groups) t l :
  NoDup g.*1 -> (t, l) ∈ add_endpoint tag ep g ->
  (t <> tag /\ (t, l) ∈ g) \/ (t = tag /\ ((exists l0, (tag, l0) ∈ g /\ l = l0 ++ [ep])%list \/ ((tag ∉ g.*1) /\ l = [ep]))).
Proof.
  induction g as [|[t0 l0] g IH]; cbn [add_endpoint fmap list_fmap fst]; intros Hnd Hin.
  { apply list_elem_of_singleton in Hin as [= -> ->]. right. split; [done|]. right. split; [apply not_elem_of_nil|done]. }
  apply NoDup_cons in Hnd as [Ht0 Hnd]. destruct (String.eqb_spec t0 tag) as [->|Hne].
  - apply elem_of_cons in Hin as [[= -> ->]|Hin].
    + right. split; [done|]. left. exists l0. split; [apply list_elem_of_here|done].
    + left. split; [|by apply list_elem_of_further]. intros ->. apply Ht0. apply list_elem_of_fmap. by exists (tag, l).
  - apply elem_of_cons in Hin as [[= -> ->]|Hin]; [left; split; [done|apply list_elem_of_here]|].
    destruct (IH Hnd Hin) as [[Hn Hg]|[-> [(l1 & Hg & ->)|[Hn ->]]]].
    + left. split; [done|by apply list_elem_of_further].
    + right. split; [done|]. left. exists l1. split; [by apply list_elem_of_further|done].
    + right. split; [done|]. right. split; [|done]. apply not_elem_of_cons. split; [done|done].
Qed.

Lemma of_tag_absent tag eps : tag ∉ tag_of ∘ op <$> eps -> of_tag tag eps = [].
Proof.
  induction eps as [|e eps IH]; [done|]. cbn [fmap list_fmap]. intros [Hne Hn]%not_elem_of_cons.
  unfold of_tag. cbn [List.filter]. destruct (String.eqb_spec (tag_of (op e)) tag) as [<-|]; [done|]. by apply IH.
Qed.

Lemma grouping_add eps g ep : grouping eps g -> grouping (eps ++ [ep])%list (add_endpoint (tag_of (op ep)) ep g).
Proof.
  intros [Hnd Ht Hg]. set (tag := tag_of (op ep)). split.
  - rewrite add_endpoint_tags. case_bool_decide as Hin; [done|]. apply NoDup_app. split_and!; [done| |apply NoDup_singleton].
    intros x Hx Hx'. apply list_elem_of_singleton in Hx' as ->. done.
  - intros x. rewrite add_endpoint_tags, fmap_app, elem_of_app, <- Ht. cbn [fmap list_fmap]. rewrite list_elem_of_singleton.
    change (compose tag_of op ep) with tag. case_bool_decide as Hin; [|by rewrite elem_of_app, list_elem_of_singleton].
    split; [by left|]. by intros [H| ->].
  - intros x l Hl. rewrite of_tag_app. unfold of_tag at 2. cbn [List.filter].
    destruct (add_group tag ep g x l Hnd Hl) as [[Hne Hin]|[-> [(l0 & Hin & ->)|[Hn ->]]]].
    + fold tag. destruct (String.eqb_spec tag x); [done|]. rewrite app_nil_r. by apply Hg.
    + fold tag. rewrite String.eqb_refl. f_equal. by apply Hg.
    + fold tag. rewrite String.eqb_refl, of_tag_absent; [done|]. by rewrite <- Ht.
Qed.
Lemma add_endpoint_perm tag ep (g : Groups) : concat (add_endpoint tag ep g).*2 ≡ₚ ep :: concat g.*2.
Proof.
  induction g as [|[t l] g IH]; cbn [add_endpoint fmap list_fmap snd concat]; [done|].
  destruct (String.eqb t tag); cbn [fmap list_fmap snd concat].
  - rewrite <- app_assoc. cbn [app]. by rewrite <- Permutation_middle.
  - rewrite IH. by rewrite <- Permutation_middle.
Qed.

(** The undeclared tags, by first appearance. *)
Fixpoint fresh_tags (seen : list string) (eps : list Endpoint) : list string :=
  match eps with
  | [] => []
  | ep :: eps' =>
      let tag := tag_of (op ep) in
      if bool_decide (tag ∈ seen) then fresh_tags seen eps' else tag :: fresh_tags (seen ++ [tag])%list eps'
  end.

Lemma visit_spec eps done_ order g :
  grouping done_ g -> concat g.*2 ≡ₚ done_ ->
  let '(order', g') := foldl visit (order, g) eps in
  order' = (order ++ fresh_tags order eps)%list /\ grouping (done_ ++ eps)%list g' /\ concat g'.*2 ≡ₚ (done_ ++ eps)%list.
Proof.
  revert done_ order g. induction eps as [|ep eps IH]; intros done_ order g Hg Hp; cbn [foldl fresh_tags].
  { by rewrite !app_nil_r. }
  unfold visit at 2. specialize (IH (done_ ++ [ep])%list
    (if bool_decide (tag_of (op ep) ∈ order) then order else (order ++ [tag_of (op ep)])%list)
    (add_endpoint (tag_of (op ep)) ep g) (grouping_add _ _ _ Hg)).
  destruct (foldl visit _ eps) as [order' g']. rewrite <- !app_assoc in IH. cbn [app] in IH.
  destruct IH as (-> & Hg' & Hp'). { by rewrite add_endpoint_perm, Hp, Permutation_app_comm. }
  split_and!; [|done..]. case_bool_decide; [done|]. by rewrite <- app_assoc.
Qed.

(** The order of the sections: the declared tags, then the others as they appear. *)
Definition section_order (doc : Json) : list string :=
  (declared_tags doc ++ fresh_tags (declared_tags doc) (operations doc))%list.

Lemma by_position_total order (a b : string * list Endpoint) :
  by_position order a b = true \/ by_position order b a = true.
Proof. unfold by_position. rewrite !Z.leb_le. lia. Qed.
Lemma by_position_trans order (a b c : string * list Endpoint) :
  by_position order a b = true -> by_position order b c = true -> by_position order a c = true.
Proof. unfold by_position. rewrite !Z.leb_le. lia. Qed.

Lemma grouped_by_tag doc :
  let g := endpoints_by_tag doc in
  concat g.*2 ≡ₚ operations doc /\ NoDup g.*1 /\
  (forall tag l, (tag, l) ∈ g -> l = of_tag tag (operations doc) /\ l <> []) /\
  StronglySorted (fun a b => by_position (section_order doc) a b = true) g.
Proof.
  unfold endpoints_by_tag.
  assert (Hnil : grouping [] []) by (split; [constructor|done|intros tag l H; by apply not_elem_of_nil in H]).
  pose proof (visit_spec (operations doc) [] (declared_tags doc) [] Hnil) as H.
  destruct (foldl visit (declared_tags doc, []) (operations doc)) as [order g].
  destruct H as (-> & [Hnd Ht Hg] & Hp); [done|]. cbn [app] in *. fold (section_order doc).
  set (s := sort_by _ g). assert (Hs : s ≡ₚ g) by apply sort_by_perm. split_and!.
  - by rewrite Hs.
  - by rewrite Hs.
  - intros tag l Hl. rewrite Hs in Hl. pose proof (Hg _ _ Hl) as E. split; [done|]. intros ->.
    assert (Hin : tag ∈ tag_of ∘ op <$> operations doc) by (apply Ht, list_elem_of_fmap; by exists (tag, [])).
    apply list_elem_of_fmap in Hin as (ep & -> & Hep). apply list_elem_of_In in Hep.
    assert (Hf : In ep (of_tag (tag_of (op ep)) (operations doc))) by (apply List.filter_In; split; [done|apply String.eqb_refl]).
    unfold compose in E. by rewrite <- E in Hf.
  - apply sort_by_sorted; [apply by_position_total|apply by_position_trans].
Qed.

(** ** Merging *)

Definition paths_of (doc : Json) : Map := default [] (get_object "paths" doc).

Lemma update_at_other t ts f v v' key :
  update_at (t :: ts) f v = Some v' -> t <> key -> json_get key v' = json_get key v.
Proof.
  cbn [update_at]. intros H Hne. destruct v as [| | | |l|m]; try done.
  - apply bind_Some in H as (i & _ & H). apply bind_Some in H as (w & _ & H). apply bind_Some in H as (w' & _ & [= <-]). done.
  - apply bind_Some in H as (w & _ & H). apply bind_Some in H as (w' & _ & [= <-]). by apply get_insert_ne.
Qed.

Lemma pointer_paths v : pointer "/paths" v = json_get "paths" v.
Proof.
  unfold pointer. replace (pointer_tokens "/paths") with ["paths"] by (vm_compute; reflexivity).
  cbn [foldl]. by destruct v.
Qed.

Lemma merge_paths base other doc :
  merge_object other "/paths" base = Some doc -> NoDup (paths_of base ++ paths_of other)%list.*1 ->
  paths_of doc = (paths_of base ++ paths_of other)%list.
Proof.
  unfold merge_object. rewrite pointer_paths. fold (get_object "paths" other). fold (paths_of other).
  replace (pointer_tokens "/paths") with ["paths"] by (vm_compute; reflexivity). cbn [update_at].
  destruct base as [| | | |l|m]; try done.
  intros H Hnd. apply bind_Some in H as (w & Hw & H). apply bind_Some in H as (w' & Hw' & [= <-]).
  apply bind_Some in Hw' as (ps & Hps & [= <-]). destruct w; try done. injection Hps as ->.
  unfold paths_of in *. unfold get_object in *. rewrite get_insert_eq. rewrite Hw in Hnd |- *. cbn in Hnd |- *.
  by apply extend_fresh.
Qed.

Lemma merge_doc_paths base other doc :
  merge_doc (Some base) other = Some doc -> NoDup (paths_of base ++ paths_of other)%list.*1 ->
  paths_of doc = (paths_of base ++ paths_of other)%list.
Proof.
  unfold merge_doc. cbn [mbind option_bind]. intros H Hnd. apply bind_Some in H as (b1 & H1 & H).
  apply bind_Some in H as (b2 & H2 & H3). rewrite <- (merge_paths _ _ _ H1 Hnd).
  unfold merge_object in H2. replace (pointer_tokens "/components/schemas") with ["components"; "schemas"] in H2
    by (vm_compute; reflexivity).
  pose proof (update_at_other _ _ _ _ _ "paths" H2 ltac:(discriminate)) as E2.
  assert (E3 : json_get "paths" doc = json_get "paths" b2).
  { unfold merge_array in H3. cbv zeta in H3. destruct (default [] (pointer "/tags" other ≫= json_as_array)); [by injection H3 as ->|].
    replace (pointer_tokens "/tags") with ["tags"] in H3 by (vm_compute; reflexivity).
    exact (update_at_other _ _ _ _ _ "paths" H3 ltac:(discriminate)). }
  unfold paths_of, get_object. by rewrite E3, E2.
Qed.

Definition all_docs (d : Docs) : list Json := attestation_doc d :: others d.

Lemma merge_docs_none l : foldl merge_doc None l = None.
Proof. induction l; [done|by cbn]. Qed.

Lemma merge_docs_paths l base doc :
  foldl merge_doc (Some base) l = Some doc -> NoDup (paths_of base ++ concat (paths_of <$> l))%list.*1 ->
  paths_of doc = (paths_of base ++ concat (paths_of <$> l))%list.
Proof.
  revert base. induction l as [|o l IH]; intros base H Hnd; cbn [foldl] in H.
  { injection H as ->. cbn. by rewrite app_nil_r. }
  cbn [fmap list_fmap concat] in *. destruct (merge_doc (Some base) o) as [b|] eqn:Eb; [|by rewrite merge_docs_none in H].
  rewrite app_assoc in Hnd |- *.
  assert (Hb : paths_of b = (paths_of base ++ paths_of o)%list).
  { apply (merge_doc_paths _ _ _ Eb). rewrite fmap_app in Hnd. by apply NoDup_app in Hnd as [? _]. }
  rewrite <- Hb in Hnd |- *. by apply IH.
Qed.

Lemma operations_paths doc :
  operations doc = concat ((fun '(path, item) => operations_of path item) <$> paths_of doc).
Proof. unfold operations, paths_of. by destruct (get_object "paths" doc). Qed.

Lemma operations_merged d doc :
  merged_doc d = Some doc -> NoDup (concat ((fun x => (paths_of x).*1) <$> all_docs d)) ->
  operations doc = concat (operations <$> all_docs d).
Proof.
  intros H Hnd. assert (Hp : paths_of doc = concat (paths_of <$> all_docs d)).
  { apply merge_docs_paths; [exact H|]. revert Hnd. change (paths_of (attestation_doc d) ++ concat (paths_of <$> others d))%list
      with (concat (paths_of <$> all_docs d)). generalize (all_docs d) as l. intros l.
    enough ((concat (paths_of <$> l)).*1 = concat ((fun x => (paths_of x).*1) <$> l)) as -> by done.
    induction l as [|x l IH]; [done|]. cbn [fmap list_fmap concat]. by rewrite fmap_app, IH. }
  rewrite operations_paths, Hp. generalize (all_docs d) as l. intros l. induction l as [|x l IH]; [done|].
  cbn [fmap list_fmap concat]. by rewrite fmap_app, concat_app, IH, <- operations_paths.
Qed.

(** The reference is complete: when no two services document the same path, the
    page's sections list every operation of every service exactly once, one section
    for each tag in use, each with exactly the operations of its tag in the order they
    are documented, and the sections come in the order of the declared tags, then of
    the others as they appear. *)
Theorem reference_complete d doc :
  merged_doc d = Some doc -> NoDup (concat ((fun x => (paths_of x).*1) <$> all_docs d)) ->
  let documented := concat (operations <$> all_docs d) in
  let sections := endpoints_by_tag doc in
  concat sections.*2 ≡ₚ documented /\ NoDup sections.*1 /\
  (forall tag l, (tag, l) ∈ sections -> l = of_tag tag documented /\ l <> []) /\
  StronglySorted (fun a b => by_position (section_order doc) a b = true) sections.
Proof. intros H Hnd. cbv zeta. rewrite <- (operations_merged d doc H Hnd). apply grouped_by_tag. Qed.

(** ** A concrete instance: two services, an undeclared tag *)

Module Demo.
Definition operation (tag : string) : Json := JObject [("tags", JArray [JString tag])].
Definition service (tag path : string) (m : string) (tags : list Json) : Json :=
  JObject [("paths", JObject [(path, JObject [(m, operation tag)])]);
           ("components", JObject [("schemas", JObject [])]); ("tags", JArray tags)].
Definition docs : Docs :=
  {| attestation_doc := service "Usernames" "/api/v1/usernames" "post" [JObject [("name", JString "Search")]];
     indexer_doc := service "Search" "/api/v1/usernames/search" "get" []; invites_doc := None;
     turn_doc := service "Turn" "/api/v1/turn/issue" "post" []; notify_doc := service "Turn" "/api/v1/notify" "post" [] |}.

Lemma reference_complete_witness :
  exists doc, merged_doc docs = Some doc /\ (endpoints_by_tag doc).*1 = ["Search"; "Usernames"; "Turn"] /\
    concat (endpoints_by_tag doc).*2 ≡ₚ concat (operations <$> all_docs docs).
Proof.
  assert (H : exists doc, merged_doc docs = Some doc /\ (endpoints_by_tag doc).*1 = ["Search"; "Usernames"; "Turn"])
    by (eexists; split; vm_compute; reflexivity).
  destruct H as (doc & H1 & H2). exists doc. split; [exact H1|]. split; [exact H2|].
  refine (proj1 (reference_complete docs doc H1 _)). refine (bool_decide_eq_true_1 _ _). vm_compute. reflexivity.
Defined.
End Demo.
End ApiDocProps.
