(* ===== verification/OpenApi.v ===== *)
(** * OpenApi: the documented interface of the services

    The annotations a macro derives the OpenAPI documents from: one operation per
    annotated handler ([#[utoipa::path(..)]] in [http.rs], [auth/], [usernames/],
    [queue.rs], [notify.rs] and their siblings), the documentation-only schemas and the
    document of each service ([openapi.rs] of the five crates).  Descriptions and
    examples are kept as the source writes them. *)

From S2P Require Import Prelude Strings Text Schema DeviceGate Routes Routers ApiDoc.

#[local] Open Scope string_scope.
#[local] Open Scope Z_scope.

Module OpenApi.
Import Routers.

Definition DQ : string := String "034"%char EmptyString.
Definition NL : string := String "010"%char EmptyString.

Fixpoint lines (l : list string) : string :=
  match l with
  | [] => EmptyString
  | [x] => x
  | x :: l' => x +:+ NL +:+ lines l'
  end.

(** A property of a schema: its name on the wire, the type behind an [Option], whether
    it is not one, its description and its example. *)
Record Field := {
  f_name : string; f_type : string; f_required : bool; f_description : string; f_example : option Json }.
Definition field (name type : string) (required : bool) (description : string) (example : option Json) : Field :=
  {| f_name := name; f_type := type; f_required := required; f_description := description; f_example := example |}.

Record Schema := { sc_name : string; sc_description : string; sc_fields : list Field }.

(** A header parameter and whether it is required; or the fields of a struct. *)
Inductive Param := HeaderParam (name : string) (required : bool) (description : string) | ParamStruct (name : string).

Record RequestBody := { rb_content : string; rb_description : option string; rb_example : option Json }.
Definition body_of (content : string) (description : option string) (example : option Json) : RequestBody :=
  {| rb_content := content; rb_description := description; rb_example := example |}.

Record ResponseDoc := {
  rd_status : Z; rd_body : option string; rd_description : string; rd_example : option Json }.
Definition response (status : Z) (body : option string) (description : string) (example : option Json) : ResponseDoc :=
  {| rd_status := status; rd_body := body; rd_description := description; rd_example := example |}.

(** The annotation, and the handler it stands on. *)
Record Operation := {
  o_method : Method; o_path : string; o_tag : string; o_handler : string; o_security : list string;
  o_params : list Param; o_request_body : option RequestBody; o_description : option string;
  o_responses : list ResponseDoc }.

(** ** Schemas: the documentation-only mirrors of the wire shapes *)

Definition error_response_schema : Schema :=
  {| sc_name := "ErrorResponse";
     sc_description :=
       (lines ["The shared error envelope returned by every non-2xx response.";
               EmptyString;
               "`error` is a stable machine code (see [`AppError`]); `message` is a";
               "human-readable detail that may change. This type exists so the OpenAPI";
               "document can reference a single error schema across all endpoints."]);
     sc_fields :=
       [field "error" "String" true
          "Stable machine code, e.g. `WRONG_DATA`, `UNAUTHORIZED`, `CONFLICT`."
          (Some (JString "WRONG_DATA"));
        field "message" "String" true
          "Human-readable detail; safe to log, not intended for programmatic use."
          (Some (JString "human-readable detail"))] |}.

Definition status_schema : Schema :=
  {| sc_name := "Status";
     sc_description :=
       "A liveness/health status body: `{ status, service }`.";
     sc_fields :=
       [field "status" "&'static str" true
          "Coarse status word, e.g. `ok`, `alive`, `ready`."
          None;
        field "service" "&'static str" true
          "Service name emitting the status."
          None] |}.

Definition challenge_response_schema : Schema :=
  {| sc_name := "ChallengeResponse";
     sc_description :=
       "`201` body: a fresh single-use challenge for the sr25519 proof flow.";
     sc_fields :=
       [field "challenge" "String" true
          "Opaque base64 32-byte challenge; echoed back in the `Auth-Challenge` header."
          (Some (JString "base64-32-byte-challenge"))] |}.

Definition app_attest_request_schema : Schema :=
  {| sc_name := "AppAttestRequest";
     sc_description :=
       "iOS Apple App Attest key-registration payload.";
     sc_fields :=
       [field "keyId" "String" true
          "Base64 key identifier (SHA-256 of the credential public key)."
          (Some (JString "s/134MbeEEZDZKCvOTf+jZgNhpoDwdXZ8cKfTym8FUg="));
        field "challenge" "String" true
          "Base64 challenge previously returned from `/auth/challenges`."
          (Some (JString "challenge-from-/auth/challenges"));
        field "attestation" "String" true
          "Base64 CBOR attestation object from the platform."
          (Some (JString "base64-attestation-object"))] |}.

Definition token_response_schema : Schema :=
  {| sc_name := "TokenResponse";
     sc_description :=
       "`{ token, refreshToken }` — the shape both auth token routes return.";
     sc_fields :=
       [field "token" "String" true
          "Signed access JWT (EdDSA)."
          (Some (JString "jwt"));
        field "refreshToken" "String" true
          "Opaque, single-use refresh token."
          (Some (JString "opaque-base64-token"))] |}.

Definition refresh_request_schema : Schema :=
  {| sc_name := "RefreshRequest";
     sc_description :=
       "`{ refreshToken }` — present a prior opaque refresh token to rotate it.";
     sc_fields :=
       [field "refreshToken" "String" true
          "Opaque refresh token issued by `/auth/token` or a prior refresh."
          (Some (JString "opaque-base64-token"))] |}.

Definition attester_response_schema : Schema :=
  {| sc_name := "AttesterResponse";
     sc_description :=
       "`{ attester }` — the on-chain attester authority public key.";
     sc_fields :=
       [field "attester" "String" true
          "`0x`-hex sr25519 public key the backend writes registrations as."
          (Some (JString "0xe4cd20d6d1e0e119d63a943afd2d7496fbbb0ac8e7cd99c3c5f16b63a68e7432"))] |}.

Definition available_request_schema : Schema :=
  {| sc_name := "AvailableRequest";
     sc_description :=
       (lines ["`{ usernames: [base, ...] }` — bases to validate and check on chain";
               "(documentation mirror; the handler validates raw JSON)."]);
     sc_fields :=
       [field "usernames" "Vec<String>" true
          "Candidate base usernames to validate and check (max 100)."
          (Some (JArray [JString "tallesx"; JString "abc"]))] |}.

Definition available_response_schema : Schema :=
  {| sc_name := "AvailableV1Response";
     sc_description :=
       ("`{ _tag: " +:+ DQ +:+ "v1" +:+ DQ +:+ ", value: { base: { status, availableDigits? } } }`.");
     sc_fields :=
       [field "_tag" "&'static str" true
          "Response schema tag; always `v1`."
          (Some (JString "v1"));
        field "value" "BTreeMap<String, NameAvailability>" true
          "Per-base availability, keyed by the requested base username."
          None] |}.

Definition name_availability_schema : Schema :=
  {| sc_name := "NameAvailability";
     sc_description :=
       "Availability of a single base username.";
     sc_fields :=
       [field "status" "&'static str" true
          ("`AVAILABLE`, `EXHAUSTED` (nothing claimable under this base), or `INVALID` (fails " +:+
           "base rules).")
          (Some (JString "AVAILABLE"));
        field "availableDigits" "Vec<u8>" false
          "Free discriminators (`1..=99`); present only when `AVAILABLE`."
          (Some (JArray [JNumber 1; JNumber 2; JNumber 3]))] |}.

Definition register_request_schema : Schema :=
  {| sc_name := "RegisterRequest";
     sc_description :=
       ("The flat registration request. A missing field or a wrong JSON type is a `400` " +:+
        "naming that field; past that, every format failure is reported at once.");
     sc_fields :=
       [field "candidateAccountId" "String" true
          "SS58 beneficiary account that will own the username."
          (Some (JString "5FbRAkhDvNVecNzHLFxBNXFXNwvBaV69S1W3nfBbnxYypkkT"));
        field "username" "String" true
          "Base username (lowercase ASCII letters, 6..=29 chars)."
          (Some (JString "tallesx"));
        field "preferredDigits" "String" false
          ("Optional two-digit suffix, e.g. `" +:+ DQ +:+ "07" +:+ DQ +:+ "`; random-free if omitted.")
          (Some (JString "07"));
        field "candidateSignature" "String" true
          "`0x`-hex 64-byte sr25519 signature proving control of the candidate."
          (Some (JString "0x...64 bytes..."));
        field "ringVrfKey" "String" true
          "`0x`-hex ring VRF key."
          (Some (JString "0x..."));
        field "proofOfOwnership" "String" true
          "`0x`-hex 64-byte ownership proof."
          (Some (JString "0x...64 bytes..."));
        field "consumerRegistrationSignature" "String" true
          "`0x`-hex 64-byte consumer registration signature."
          (Some (JString "0x...64 bytes..."));
        field "identifierKey" "String" true
          "`0x`-hex 65-byte identifier key."
          (Some (JString "0x...65 bytes..."));
        field "payloadVersion" "u16" false
          (lines ["The format of the payloads this claim's signatures cover.";
                  "An unsupported version is a 400 before anything is stored. Omitted";
                  "means `1`, the only format today."])
          (Some (JNumber 1));
        field "lifetimePoUDVoucher" "String" false
          (lines ["Optional single-use registration voucher (the INSTANT lane): bypasses";
                  "the PoUD gate and the registration queue. Must be a string when";
                  "present; its value is ignored unless `REGISTRATION_VOUCHERS_ENABLED`."])
          (Some (JString "base64url-voucher-key"));
        field "attestationChain" "Vec<String>" false
          (lines ["Optional Android device-uniqueness evidence (Widevine PoUD): leaf-first";
                  "base64 DER attestation chain, 2-10 entries, whose leaf key was created";
                  "with `attestationChallenge = SHA-256(domain ‖ deviceChallenge ‖";
                  "accountKey ‖ deviceId)`. All three evidence fields are present";
                  "together or not at all. Supplied fields must match their JSON types;";
                  "evidence verification runs only with `WIDEVINE_DEDUP_ENABLED`.";
                  "Sent only when the app measured Widevine L1."])
          (Some (JArray [JString "base64-der-leaf"; JString "base64-der-root"]));
        field "deviceChallenge" "String" false
          (lines ["Base64 32-byte single-use challenge from `/auth/challenges`, bound";
                  "into the leaf key's attestation challenge."])
          (Some (JString "base64-32-byte-challenge"));
        field "deviceId" "String" false
          (lines ["Base64 32-byte device pseudonym:";
                  ("`SHA-256(" +:+ DQ +:+ "dub/poud/widevine-id/v1" +:+ DQ +:+
                   " ‖ rawWidevineId)`, computed on the");
                  "device — the raw id never leaves it."])
          (Some (JString "base64-32-byte-device-id"));
        field "dotns" "Dotns" false
          "Optional DotNS reservation block."
          None] |}.

Definition dotns_schema : Schema :=
  {| sc_name := "Dotns";
     sc_description :=
       "Optional DotNS reservation, parking a base label for later personhood use.";
     sc_fields :=
       [field "signature" "String" true
          "`0x`-hex 64-byte signature."
          (Some (JString "0x...64 bytes..."));
        field "signedAt" "i64" true
          (lines ["Unix timestamp the reservation was signed at, as a JSON integer: a";
                  "float is refused even when it is whole (`1780000000.0`)."])
          (Some (JNumber 1780000000));
        field "reservedUsername" "String" false
          (lines ["The bare personhood name to reserve. Its own name on chain — it need";
                  "not be `username`, and availability is checked against *this* name, not";
                  "against the base of the lite username in the same claim."])
          (Some (JString "reservedname"))] |}.

Definition register_response_schema : Schema :=
  {| sc_name := "RegisterResponse";
     sc_description :=
       "`202` body: the reserved full username and its parts.";
     sc_fields :=
       [field "base_username" "String" true
          "Reserved base username."
          (Some (JString "tallesx"));
        field "digits" "String" true
          "Selected two-digit discriminator."
          (Some (JString "07"));
        field "username" "String" true
          "Full `base.NN` username."
          (Some (JString "tallesx.07"));
        field "device_check_available" "bool" false
          (lines ["Present only when the DeviceCheck free-slot gate ran and produced an";
                  "advisory availability (`Register`/`Proceed`); omitted when DeviceCheck";
                  "is disabled or the outcome short-circuited (ineligible/token/unavailable)."])
          None;
        field "registrationOutcome" "String" false
          (lines [("`" +:+ DQ +:+ "QUEUED" +:+ DQ +:+
                   "` when the registration queue is enabled and the claim is");
                  ("waiting in it; `" +:+ DQ +:+ "INSTANT" +:+ DQ +:+
                   "` when a voucher bypassed the gate and the");
                  "queue; absent on the plain direct-to-writer path. (The";
                  "`PAYMENT_REQUIRED` outcome is a separate `200` body, not this 202";
                  "shape — see the route's 200 response.)"])
          (Some (JString "QUEUED"));
        field "queue" "crate::queue::QueueStatusResponse" false
          (lines ["Queue standing at claim time (present only with";
                  ("`registrationOutcome: " +:+ DQ +:+ "QUEUED" +:+ DQ +:+ "`).")])
          None] |}.

Definition queue_status_schema : Schema :=
  {| sc_name := "QueueStatusResponse";
     sc_description :=
       (lines ["Queue standing for one claim, as served by `GET /api/v1/registration/queue`";
               "and embedded in the claim response's `queue` field."]);
     sc_fields :=
       [field "queuePosition" "u32" true
          "1-based position in the drain order of the current queue snapshot."
          (Some (JNumber 17));
        field "group" "u8" true
          "Priority group `1..=4` (4 = highest; raised by topping up the account)."
          (Some (JNumber 2));
        field "estimatedIterationsRemaining" "u32" true
          "Advancer iterations until promotion, per the snapshot simulation."
          (Some (JNumber 5))] |}.

Definition search_username_schema : Schema :=
  {| sc_name := "SearchUsername";
     sc_description :=
       "One assigned username in the shipping mobile response shape.";
     sc_fields :=
       [field "accountId" "String" true
          "People Chain account encoded as SS58."
          (Some (JString "5Example"));
        field "username" "String" true
          (lines ["The username exactly as the chain holds it: the full username when";
                  "present, otherwise the lite username with its suffix unchanged";
                  "(`alice.06`, never `alice.6` — the padded form is the only one";
                  "`UsernameOwnerOf` answers to)."])
          (Some (JString "alice.12"));
        field "status" "&'static str" true
          "Assignment state, always `ASSIGNED` for this projection."
          (Some (JString "ASSIGNED"));
        field "createdAt" "OffsetDateTime" true
          "Time the projection first observed the account."
          (Some (JString "2026-07-11T10:00:00Z"));
        field "updatedAt" "OffsetDateTime" true
          "Time the projection last refreshed the account."
          (Some (JString "2026-07-11T10:01:00Z"))] |}.

Definition search_response_schema : Schema :=
  {| sc_name := "SearchResponse";
     sc_description :=
       "Public search response envelope.";
     sc_fields :=
       [field "usernames" "Vec<SearchUsername>" true
          "Assigned usernames in deterministic continuation order."
          None;
        field "nextCursor" "String" false
          "Opaque cursor for the next page, or null when exhausted."
          None] |}.

Definition puzzle_schema : Schema :=
  {| sc_name := "Puzzle";
     sc_description :=
       "A freshly issued puzzle, serialized as the frozen `201` body.";
     sc_fields :=
       [field "sessionId" "Uuid" true
          "Opaque puzzle identifier (UUID); the replay-protection key."
          (Some (JString "1b9d6bcd-bbfd-4b2d-9b5d-ab8dfbbd4bed"));
        field "timestamp" "i64" true
          "Issue time in unix milliseconds; bounds the puzzle's validity."
          (Some (JNumber 1700000000000));
        field "difficulty" "u8" true
          "Required number of leading zero bits in the work digest."
          (Some (JNumber 16));
        field "checksum" "String" true
          (lines ["Lowercase-hex HMAC-SHA256 over the puzzle fields; proves this server";
                  "issued the puzzle, so nothing is stored at issue time."])
          (Some (JString "c8828951fd6c123fdbf6501f111d27dd3f260839344a7370e0dd8f20e2c40482"))] |}.

Definition issue_with_proof_schema : Schema :=
  {| sc_name := "IssueWithProofBody";
     sc_description :=
       "Proof-redemption request.";
     sc_fields :=
       [field "productId" "String" true
          (lines ["The product the proof was made for. Its context is the one the proof";
                  "is verified under, so a product proves under its own identifier. Must";
                  "be one this deployment accepts."])
          (Some (JString "vox.dot"));
        field "collection" "String" true
          (lines ["Hex-encoded 32-byte collection id from the proof's TrUAPI";
                  "`ringLocation`. Only the canonical People Lite and People collections";
                  "are accepted."])
          (Some (JString "0x706f703a706f6c6b61646f742e6e6574776f726b2f70656f706c652d6c697465"));
        field "proof" "String" true
          (lines ["Ring-VRF proof over the derived message (hex), exactly as the host";
                  "returns it — raw signature bytes, with no SCALE length prefix."])
          None;
        field "ringIndex" "u32" true
          "Ring containing the proving member, used to locate the root."
          (Some (JNumber 0));
        field "ringRevision" "u32" true
          (lines ["Revision of that ring the proof was made against, as the host reports";
                  "it. Only that revision's root is tried, so a revision this deployment";
                  "no longer holds is refused without verifying anything."])
          (Some (JNumber 3));
        field "timestamp" "u64" true
          (lines ["Client Unix seconds, bound into the proved message. Must be within the";
                  "server's accepted skew."])
          (Some (JNumber 1784757652))] |}.

Definition search_query_schema : Schema :=
  {| sc_name := "SearchQuery";
     sc_description :=
       (lines ["Query parameters accepted by the public search endpoint (documentation";
               "mirror — the handler validates a raw parameter map so it can report every";
               "failing rule, not just the first)."]);
     sc_fields :=
       [field "prefix" "String" true
          "Prefix of letters/digits, optionally followed by a dot and digits."
          (Some (JString "ali"));
        field "limit" "u32" false
          "Requested page size, defaulting to 100 and clamped to 1,000."
          (Some (JNumber 100));
        field "cursor" "String" false
          "Opaque continuation cursor from an earlier response."
          None] |}.

Definition issue_request_schema : Schema :=
  {| sc_name := "IssueRequest";
     sc_description :=
       "`{ regionHint? }` — the issue command (the hint is reserved and ignored).";
     sc_fields :=
       [field "regionHint" "String" false
          "Optional region hint (reserved for future use; accepted and ignored)."
          (Some (JString "eu-west"))] |}.

Definition issue_response_schema : Schema :=
  {| sc_name := "IssueResponse";
     sc_description :=
       (lines ["The 201 body: an ephemeral TURN credential and the ICE servers to use it";
               "against.";
               EmptyString;
               "Both fields' provenance depends on the deployment's `TURN_PROVIDER`, and the";
               "shape of `username`/`password` differs between them — treat both as opaque";
               "strings to stay portable across providers."]);
     sc_fields :=
       [field "servers" "Vec<String>" true
          (lines ["The ICE server URLs (`stun:` / `turn:` / `turns:` forms) to negotiate";
                  "against. On the Cloudflare provider these are what Cloudflare returned";
                  "with the credential, flattened into one list in response order; on the";
                  "coturn provider they are the operator's configured `ICE_SERVERS`."])
          (Some (JArray [JString "stun:stun.cloudflare.com:3478";
              JString "turn:turn.cloudflare.com:3478?transport=udp";
              JString "turn:turn.cloudflare.com:3478?transport=tcp";
              JString "turns:turn.cloudflare.com:5349?transport=tcp"]));
        field "username" "String" true
          (lines ["The credential's username. **Opaque — do not parse.** Cloudflare mints";
                  "an unstructured value per request; a coturn deployment uses that relay's";
                  "REST-API form, `{unixExpiry}:{hexId}`. Neither carries anything";
                  "recoverable about the caller."])
          (Some (JString "d2f4a1c6b8e05379"));
        field "password" "String" true
          (lines ["The matching password. **Opaque — do not parse.** Minted by Cloudflare,";
                  "or on the coturn provider the base64 HMAC over `username` under the";
                  "relay-shared secret."])
          (Some (JString "9f83b1e6c0a74d25b3f8e1a70c4d69b2"));
        field "ttl" "u64" true
          (lines ["Seconds of life remaining on this credential. On the coturn provider";
                  "always the configured `TURN_TTL_SECS`, since the credential is minted to";
                  "order. On the Cloudflare provider the TTL Cloudflare granted, or less if";
                  "a cached credential was served because Cloudflare was briefly";
                  "unreachable."])
          (Some (JNumber 1800))] |}.

Definition notify_request_schema : Schema :=
  {| sc_name := "NotifyRequestDoc";
     sc_description :=
       "The frozen `POST /api/v1/notify` request body.";
     sc_fields :=
       [field "deviceToken" "String" true
          "Recipient device token (APNs hex or FCM token); platform is auto-detected."
          (Some (JString "1234567890abcdef1234567890abcdef1234567890abcdef1234567890abcdef"));
        field "pushId" "String" true
          "Opaque push id echoed to the client app (32 or 64 hex chars)."
          (Some (JString "5d41402abc4b2a76b9719d911017c592"));
        field "message" "String" true
          "Hex-encoded, already-encrypted message body (optional `0x` prefix)."
          (Some (JString "0x1234567890abcdef"));
        field "platform" "String" false
          "Explicit platform override; auto-detected from the token when omitted."
          (Some (JString "ios"));
        field "bundlerId" "String" false
          "APNs topic override (the app bundle id); VoIP derives `<topic>.voip`."
          (Some (JString "io.parity.brevity"));
        field "voip" "bool" false
          "Enable the iOS VoIP push type for a call."
          (Some (JBool false))] |}.

Definition notify_response_schema : Schema :=
  {| sc_name := "NotifyResponseDoc";
     sc_description :=
       "The frozen `200` push-result body (echoed from the provider).";
     sc_fields :=
       [field "success" "bool" true
          "Whether the provider accepted the push."
          (Some (JBool true));
        field "platform" "String" true
          "Platform the notification was routed to."
          (Some (JString "ios"));
        field "sent" "u32" false
          "Number of notifications sent, when the provider reports it (APNs/FCM)."
          (Some (JNumber 1));
        field "failed" "u32" false
          "Number of failed notifications, when the provider reports it (APNs)."
          (Some (JNumber 0));
        field "messageId" "String" false
          "Provider message id, when returned (FCM)."
          None;
        field "errors" "Vec<NotifyErrorDoc>" false
          "Per-device errors, on partial or full provider failure."
          None] |}.

Definition notify_error_schema : Schema :=
  {| sc_name := "NotifyErrorDoc";
     sc_description :=
       "One per-device push error inside the `200` response.";
     sc_fields :=
       [field "device" "String" true
          "Device token the error is about."
          None;
        field "environment" "String" false
          "APNs environment, when the provider distinguishes dev/prod."
          None;
        field "status" "serde_json::Value" false
          "Provider status (string or number), when present."
          None;
        field "response" "serde_json::Value" false
          "Raw provider response, when present."
          None] |}.

Definition claim_request_schema : Schema :=
  {| sc_name := "ClaimRequest";
     sc_description :=
       "`{ who, dim }` — the claim command.";
     sc_fields :=
       [field "who" "String" true
          "SS58 address to claim a ticket for (any valid SS58 prefix)."
          (Some (JString "5FHneW46xGXgs5mUiveU4sbTyGBzmstUspZC92UhjJM694ty"));
        field "dim" "String" true
          "DIM to claim a ticket for: `Game` or `ProofOfInk`."
          (Some (JString "Game"))] |}.

Definition claim_response_schema : Schema :=
  {| sc_name := "ClaimResponse";
     sc_description :=
       (lines ["The 200 claim body: the ticket keypair's public half plus the";
               "sr25519 signature over the claimant's decoded account id."]);
     sc_fields :=
       [field "publicKey" "String" true
          "`0x`-hex 32-byte sr25519 public key of the claimed ticket."
          (Some (JString "0xda8ab326da384dd49d5f12543b58acae730af7388b9348c51af6ee3a0962864d"));
        field "inviter" "String" true
          "SS58 address of the inviter that registered the ticket on-chain."
          (Some (JString "5C4hrfjw9DjXZTzV3MwzrrAr9P1MJhSrvWGWqi1eSuyUpnhM"));
        field "dim" "String" true
          "DIM the ticket funds: `Game` or `ProofOfInk`."
          (Some (JString "Game"));
        field "network" "String" true
          "Network the ticket is registered on: `westend2`, `paseo`, or `polkadot`."
          (Some (JString "paseo"));
        field "claimedBy" "String" true
          "SS58 address the ticket was claimed for (echoes `who`)."
          (Some (JString "5FHneW46xGXgs5mUiveU4sbTyGBzmstUspZC92UhjJM694ty"));
        field "createdAt" "String" true
          "Ticket generation time (JS-style ISO, millisecond precision)."
          (Some (JString "2026-07-01T10:20:30.400Z"));
        field "claimedAt" "String" true
          "Claim time (JS-style ISO, millisecond precision)."
          (Some (JString "2026-07-02T11:00:00.000Z"));
        field "signature" "String" true
          (lines ["`0x`-hex 64-byte sr25519 signature by the ticket key over the raw";
                  "32-byte account id decoded from `who`."])
          (Some (JString ("0xa4a506e96aff250724590ef9527d8117ea2e9d633e813d22d32ad17e0b5c253c406cb22baf62283c69" +:+ "87f81b9bb55ea75f3bdff0259d84e5c282728043f77c88")));
        field "remaining" "i64" true
          "Tickets still `available` in this `(dim, network)` pool after the claim."
          (Some (JNumber 41))] |}.

(** ** Operations: one per annotated handler *)

(** *** device-attestation: probes ([http/health.rs]) *)

Definition healthcheck_op : Operation :=
  {| o_method := GET; o_path := "/healthcheck"; o_tag := "Liveness & Readiness"; o_handler := "device-attestation::healthcheck";
     o_security := []; o_params := []; o_request_body := None;
     o_description := None;
     o_responses :=
       [response 200 (Some "Status")
          "Process is up. No dependencies checked."
          (Some (JObject [("status", JString "ok"); ("service", JString "device-attestation")]))] |}.

Definition livez_op : Operation :=
  {| o_method := GET; o_path := "/livez"; o_tag := "Liveness & Readiness"; o_handler := "device-attestation::livez";
     o_security := []; o_params := []; o_request_body := None;
     o_description := None;
     o_responses :=
       [response 200 (Some "Status")
          "Process is alive."
          (Some (JObject [("status", JString "alive"); ("service", JString "device-attestation")]))] |}.

Definition readyz_op : Operation :=
  {| o_method := GET; o_path := "/readyz"; o_tag := "Liveness & Readiness"; o_handler := "device-attestation::readyz";
     o_security := []; o_params := []; o_request_body := None;
     o_description := None;
     o_responses :=
       [response 200 (Some "Value")
          "Instance can take traffic; db and chain reachable."
          (Some (JObject [("status", JString "ready"); ("service", JString "device-attestation");
              ("db", JString "up"); ("chain", JString "up")]));
        response 503 (Some "Value")
          "A required subsystem is unavailable."
          (Some (JObject [("status", JString "unavailable"); ("service", JString "device-attestation");
              ("db", JString "down")]))] |}.

(** *** device-attestation: discovery ([http.rs], [usernames.rs]) *)

Definition jwks_op : Operation :=
  {| o_method := GET; o_path := "/.well-known/jwks.json"; o_tag := "Discovery"; o_handler := "jwks";
     o_security := []; o_params := []; o_request_body := None;
     o_description := None;
     o_responses :=
       [response 200 (Some "Value")
          "JWT verification keyset (Ed25519 / OKP)."
          (Some (JObject [("keys", JArray [JObject [("kty", JString "OKP"); ("crv", JString "Ed25519");
              ("use", JString "sig"); ("alg", JString "EdDSA"); ("kid", JString "...");
              ("x", JString "...")]])]))] |}.

Definition attester_op : Operation :=
  {| o_method := GET; o_path := "/api/v1/attester"; o_tag := "Discovery"; o_handler := "usernames::attester";
     o_security := []; o_params := []; o_request_body := None;
     o_description := None;
     o_responses :=
       [response 200 (Some "AttesterResponse")
          "The on-chain attester account the backend writes as."
          (Some (JObject [("attester", JString "0xe4cd20d6d1e0e119d63a943afd2d7496fbbb0ac8e7cd99c3c5f16b63a68e7432")]))] |}.

(** *** device-attestation: authentication ([auth/]) *)

Definition challenge_op : Operation :=
  {| o_method := POST; o_path := "/api/v1/auth/challenges"; o_tag := "Authentication"; o_handler := "challenge::issue";
     o_security := []; o_params := []; o_request_body := None;
     o_description := None;
     o_responses :=
       [response 201 (Some "ChallengeResponse")
          "A fresh single-use challenge. No body required."
          (Some (JObject [("challenge", JString "base64-32-byte-challenge")]))] |}.

Definition app_attest_op : Operation :=
  {| o_method := POST; o_path := "/api/v1/auth/app-attest/attestations"; o_tag := "Authentication"; o_handler := "app_attest::register";
     o_security := []; o_params := [];
     o_request_body := Some (body_of "AppAttestRequest" None None);
     o_description := None;
     o_responses :=
       [response 202 (Some "Value")
          ("Accepted. With attestation enabled, the key is verified against Apple and stored; " +:+
           "while disabled, the payload is not verified.")
          (Some (JObject []));
        response 401 (Some "Value")
          ("Attestation rejected (hard mode), or the challenge was unknown, expired, or already " +:+
           "used. Soft mode logs failed verdicts and returns 202.")
          (Some (JObject [("_tag", JString "VERIFY_ATTESTATION_FAILED");
              ("error", JString "attestation nonce mismatch")]))] |}.

Definition token_op : Operation :=
  {| o_method := POST; o_path := "/api/v1/auth/token"; o_tag := "Authentication"; o_handler := "token::issue";
     o_security := [];
     o_params :=
       [HeaderParam "Auth-ClientId" true
          "Base64 of the 32-byte sr25519 public key.";
        HeaderParam "Auth-ClientProof" true
          "Base64 of the 64-byte sr25519 signature over the raw body.";
        HeaderParam "Auth-Challenge" true
          "Challenge previously minted via /auth/challenges.";
        HeaderParam "Auth-iOS-Package" false
          "iOS bundle id, e.g. io.pcf.polkadotapp. Selects the App Attest verification path.";
        HeaderParam "Auth-Payload" false
          ("Base64 App Attest assertion (iOS) or the raw classic Play Integrity token (Android " +:+
           "play-integrity), verified when attestation is enabled.");
        HeaderParam "Auth-iOS-KeyId" false
          "Base64 App Attest key id registered via /auth/app-attest/attestations.";
        HeaderParam "Auth-Android-Package" false
          ("Android package name; required for play-integrity and sets the JWT platform claim " +:+
           "for Android clients.");
        HeaderParam "Auth-Attestation-Type" false
          ("Android attestation dispatch: `key-attestation` verifies the `attestationChain` " +:+
           "field in the JSON body (base64 DER, leaf first), and also sets the Android platform " +:+
           "claim when Auth-Android-Package is absent; `play-integrity` verifies the token in " +:+
           "Auth-Payload with self-managed response keys.")];
     o_request_body := Some (body_of "Value"
       (Some ("Raw body covered by the proof; may be empty {}. Android key-attestation requests " +:+
              "carry the certificate chain here as `attestationChain` (2-10 base64 DER entries, " +:+
              "leaf first).")) (Some (JObject [])));
     o_description := None;
     o_responses :=
       [response 200 (Some "TokenResponse")
          "Verified. Access JWT + opaque refresh token."
          (Some (JObject [("token", JString "jwt"); ("refreshToken", JString "opaque-base64-token")]));
        response 401 (Some "ErrorResponse")
          "Bad or spent challenge, or invalid client proof."
          (Some (JObject [("error", JString "UNAUTHORIZED"); ("message", JString "unauthorized")]));
        response 403 (Some "ErrorResponse")
          "Platform attestation failed verification (hard enforcement)."
          (Some (JObject [("error", JString "INTEGRITY_FAILED"); ("message", JString "attestation rejected")]));
        response 503 (Some "ErrorResponse")
          ("Android attestation revocation list unavailable; retry with a fresh challenge (hard " +:+
           "enforcement).")
          (Some (JObject [("error", JString "ATTESTATION_CRL_UNAVAILABLE");
              ("message", JString "attestation CRL unavailable")]))] |}.

Definition refresh_op : Operation :=
  {| o_method := POST; o_path := "/api/v1/auth/token/refresh"; o_tag := "Authentication"; o_handler := "refresh::rotate";
     o_security := []; o_params := [];
     o_request_body := Some (body_of "RefreshRequest" None None);
     o_description := None;
     o_responses :=
       [response 200 (Some "TokenResponse")
          "Rotated. New access JWT + new opaque refresh token."
          (Some (JObject [("token", JString "jwt"); ("refreshToken", JString "new-opaque-base64-token")]));
        response 401 (Some "ErrorResponse")
          "Unknown, expired, or already-spent refresh token."
          (Some (JObject [("error", JString "UNAUTHORIZED"); ("message", JString "unauthorized")]))] |}.

(** *** device-attestation: usernames and the queue *)

Definition available_op : Operation :=
  {| o_method := POST; o_path := "/api/v1/usernames/available"; o_tag := "Usernames"; o_handler := "available::check";
     o_security := ["bearer_jwt"]; o_params := [];
     o_request_body := Some (body_of "AvailableRequest" None None);
     o_description := None;
     o_responses :=
       [response 200 (Some "AvailableV1Response")
          ("Per-base availability read from People Chain UsernameOwnerOf plus pending outbox " +:+
           "reservations, tagged `{_tag: " +:+ DQ +:+ "v1" +:+ DQ +:+
           ", value}` with availableDigits. `EXHAUSTED` means nothing claimable under this " +:+
           "base: no free discriminator, or the bare personhood name is owned or its " +:+
           "reservation queue is full — the last two would make a claim carrying " +:+
           "`dotns.reservedUsername` fail on chain and take the lite username with it.")
          (Some (JObject [("_tag", JString "v1");
              ("value", JObject [("tallesx", JObject [("status", JString "AVAILABLE");
              ("availableDigits", JArray [JNumber 1; JNumber 2; JNumber 3])]);
              ("takenx", JObject [("status", JString "EXHAUSTED")]);
              ("abc", JObject [("status", JString "INVALID")])])]));
        response 400 (Some "Value")
          "Invalid `usernames`, or malformed JSON."
          (Some (JObject [("error", JString "The request body contains invalid values.");
              ("fields", JArray [JObject [("field", JString "usernames");
              ("message", JString "must contain at most 100 items")]])]));
        response 401 (Some "Value")
          "Missing or invalid bearer token."
          None;
        response 429 (Some "Value")
          "Subject rate limit exceeded (with `Retry-After`)."
          None;
        response 500 (Some "Value")
          "People Chain failure or reservation-outbox failure."
          (Some (JObject [("error", JString "Internal server error. Please try again.")]))] |}.

Definition register_op : Operation :=
  {| o_method := POST; o_path := "/api/v1/usernames"; o_tag := "Usernames"; o_handler := "register::register";
     o_security := ["bearer_jwt"]; o_params := [];
     o_request_body := Some (body_of "RegisterRequest" None None);
     o_description := None;
     o_responses :=
       [response 202 (Some "RegisterResponse")
          ("Reservation accepted into the outbox for on-chain registration. With the " +:+
           "registration queue enabled (`QUEUE_ENABLED`) and the queue service live, the claim " +:+
           "waits in the balance-priority queue and the body additionally carries " +:+ "`registrationOutcome: " +:+
           DQ +:+ "QUEUED" +:+ DQ +:+
           "` plus the claim's queue standing (poll `GET /api/v1/registration/queue` for " +:+
           "updates). A down queue service falls back to the direct registration path (no queue " +:+
           "fields). With `REGISTRATION_VOUCHERS_ENABLED`, a valid `lifetimePoUDVoucher` " +:+
           "bypasses the device gate and the queue: the reservation goes straight to the writer " +:+
           "and the body carries `registrationOutcome: " +:+ DQ +:+ "INSTANT" +:+ DQ +:+ "`.")
          (Some (JObject [("base_username", JString "tallesx"); ("digits", JString "07");
              ("username", JString "tallesx.07")]));
        response 200 (Some "Value")
          ("The device is not eligible for a free registration: hard-mode DeviceCheck found its " +:+
           "free slot already used, enforced Widevine dedup found the device already recorded " +:+
           "or the Android claim carried no evidence, or a concurrent claim won the device's " +:+
           "slot. Not an error — a 200 outcome, and a terminal one: no claim is stored and " +:+
           "there is no paid alternative. The value `PAYMENT_REQUIRED` is historical (the " +:+
           "retired paid lane) and kept for client compatibility.")
          (Some (JObject [("registrationOutcome", JString "PAYMENT_REQUIRED")]));
        response 400 (Some "Value")
          ("Validation failed (with per-field `fields`; an unsupported `payloadVersion` is " +:+
           "reported on that field rather than as an invalid signature), malformed JSON, a " +:+
           "`lifetimePoUDVoucher` that is unknown, already used, or expired (`{" +:+ DQ +:+ "error" +:+ DQ +:+
           ": " +:+ DQ +:+ "Voucher already used" +:+ DQ +:+
           "}` — a voucher failure rejects the claim outright), a device-evidence field of the " +:+
           "wrong JSON type (in every Widevine mode, like any other field), or — with " +:+
           "`WIDEVINE_DEDUP_ENFORCE` — structurally malformed device evidence (`{" +:+ DQ +:+ "error" +:+ DQ +:+
           ": " +:+ DQ +:+ "DEVICE_EVIDENCE_MALFORMED" +:+ DQ +:+
           "}`: partial fields, bad base64, or wrong field sizes — the specific reason is " +:+
           "logged server-side, never returned).")
          (Some (JObject [("error", JString "The request body contains invalid values.");
              ("fields", JArray [JObject [("field", JString "candidateSignature");
              ("message", JString "Invalid signature.")]])]));
        response 401 (Some "Value")
          ("Missing or invalid bearer token, or hard-mode DeviceCheck required a usable " +:+
           "Device-Token-iOS and none was present.")
          None;
        response 403 (Some "Value")
          ("Device evidence failed verification under `WIDEVINE_DEDUP_ENFORCE`: chain policy, " +:+
           "the cert-bound evidence hash (challenge / account / deviceId), or a spent " +:+
           "challenge. The specific reason is logged server-side, never returned. Retryable " +:+
           "once with a fresh challenge; a claim retried without evidence gets the 200 " +:+
           "ineligible outcome.")
          (Some (JObject [("error", JString "DEVICE_EVIDENCE_INVALID");
              ("message", JString "device evidence invalid")]));
        response 409 (Some "Value")
          ("Preferred digits taken, no digits available, username taken, or the claim carries " +:+
           "`dotns.reservedUsername` for a personhood name that is already owned or whose " +:+
           "reservation queue is full — checked against the reserved name itself, which " +:+
           "`attest` takes as its own argument and which need not be `username`. The runtime " +:+
           "checks that leg *before* it writes the lite username, and the consumer signature " +:+
           "covers it, so submitting would cost the whole registration and no server-side retry " +:+
           "could rescue it. Re-sign for another `dotns.reservedUsername`.")
          (Some (JObject [("error", JString "Preferred digits 07 already taken for username tallesx")]));
        response 429 (Some "Value")
          "Subject rate limit exceeded (with `Retry-After`)."
          None;
        response 500 (Some "Value")
          "Persistence failure or unexpected error."
          (Some (JObject [("error", JString "Failed to persist username registration")]));
        response 502 (Some "Value")
          "Hard-mode DeviceCheck could not reach Apple to resolve the device."
          (Some (JObject [("error", JString "iOS DeviceCheck verification failed")]));
        response 503 (Some "Value")
          ("The DeviceCheck free slot could not be marked used at Apple after a successful gate " +:+
           "(upstream write failure; retryable), or the enforced Widevine dedup gate could not " +:+
           "fetch the attestation revocation list (`DEVICE_EVIDENCE_UNAVAILABLE`; retryable).")
          (Some (JObject [("error", JString "Failed to mark iOS device as registered with Apple DeviceCheck")]))] |}.

Definition queue_op : Operation :=
  {| o_method := GET; o_path := "/api/v1/registration/queue"; o_tag := "Usernames"; o_handler := "queue::status";
     o_security := ["bearer_jwt"]; o_params := []; o_request_body := None;
     o_description := Some
       ("Queue standing for the caller's pending username claim. This route exists only on " +:+
        "deployments with the registration queue enabled (`QUEUE_ENABLED`); with the queue " +:+
        "disabled the path serves the standard plain-text 404. Clients should treat ANY 404 " +:+ "here as " +:+
        DQ +:+ "not (or no longer) queued" +:+ DQ +:+
        " and assume the registration is proceeding — queued claims keep draining even if " +:+
        "the queue is later disabled. When an account has several queued claims, the " +:+
        "response reports the earliest-enqueued one until it drains.");
     o_responses :=
       [response 200 (Some "QueueStatusResponse")
          ("The caller's queued claim: position, priority group, and the estimated advancer " +:+
           "iterations until it is promoted for on-chain registration.")
          (Some (JObject [("queuePosition", JNumber 17); ("group", JNumber 2);
              ("estimatedIterationsRemaining", JNumber 5)]));
        response 401 (Some "Value")
          "Missing or invalid bearer token."
          None;
        response 404 (Some "Value")
          ("The account has no queued registration (JSON body), or the deployment runs " +:+
           "queue-disabled (plain-text body). Either way: stop polling, the claim is proceeding " +:+
           "without the queue.")
          (Some (JObject [("error", JString "No queue entry found")]));
        response 429 (Some "Value")
          "Subject rate limit exceeded (with `Retry-After`)."
          None] |}.

(** *** username-indexer ([http.rs]) *)

Definition search_op : Operation :=
  {| o_method := GET; o_path := "/api/v1/usernames/search"; o_tag := "Usernames"; o_handler := "search_usernames";
     o_security := [];
     o_params :=
       [ParamStruct "SearchQuery";
        HeaderParam "Authorization" false
          ("Optional `Bearer <JWT>` from device-attestation. When proof of compute is enabled, " +:+
           "a valid token satisfies this route and no puzzle is needed. An unverifiable token " +:+
           "is treated as anonymous — this route never answers 401.");
        HeaderParam "Proof-Of-Compute" false
          ("Solved puzzle, required only when proof of compute is enabled and no valid bearer " +:+
           "token is presented: `base64(sessionId:timestamp:difficulty:counter:checksum)` for a " +:+
           "puzzle from `POST /api/v1/poc/issue`. Single-use.")]; o_request_body := None;
     o_description := None;
     o_responses :=
       [response 200 (Some "SearchResponse")
          ("Matching assigned usernames in continuation order. Registrations whose on-chain " +:+
           "identifier key predates chat-spec RFC-0004 (pre-X25519) are omitted — the app " +:+
           "cannot message them.")
          (Some (JObject [("usernames", JArray []); ("nextCursor", JNull)]));
        response 400 (Some "Value")
          ("Invalid query parameter (with per-field `fields`), invalid cursor (`{" +:+ DQ +:+ "error" +:+ DQ +:+
           ":" +:+ DQ +:+ "Invalid cursor" +:+ DQ +:+ "}`), or a malformed `Proof-Of-Compute` header.")
          (Some (JObject [("error", JString "The request query contains invalid values.");
              ("fields", JArray [JObject [("field", JString "prefix");
              ("message", JString "Prefix is required")]])]));
        response 402 (Some "Value")
          ("Proof of compute is enabled and the caller presented neither a valid bearer token " +:+
           "nor an acceptable puzzle. The `error` names the reason: missing proof, checksum " +:+
           "mismatch, expired puzzle, already-used puzzle, or insufficient difficulty.")
          (Some (JObject [("error", JString ("Proof of compute required. Request a puzzle from POST /api/v1/poc/issue and present " +:+ "the solved proof in the Proof-Of-Compute header."))]));
        response 429 (Some "Value")
          "Public rate limit exceeded (with `Retry-After`)."
          (Some (JObject [("error", JString "Rate limit exceeded. Please retry after 60 seconds.")]))] |}.

Definition puzzle_op : Operation :=
  {| o_method := POST; o_path := "/api/v1/poc/issue"; o_tag := "Proof of compute"; o_handler := "issue_puzzle";
     o_security := []; o_params := []; o_request_body := None;
     o_description := None;
     o_responses :=
       [response 201 (Some "Puzzle")
          ("A fresh puzzle to solve. Mine a `counter` whose `sha256(sessionId || timestamp || " +:+
           "counter)` has at least `difficulty` leading zero bits, then send `Proof-Of-Compute: " +:+
           "base64(sessionId:timestamp:difficulty:counter:checksum)` on the search request. " +:+
           "Callers holding an device-attestation JWT do not need a puzzle.")
          (Some (JObject [("sessionId", JString "1b9d6bcd-bbfd-4b2d-9b5d-ab8dfbbd4bed");
              ("timestamp", JNumber 1700000000000); ("difficulty", JNumber 16);
              ("checksum", JString "c8828951fd6c123fdbf6501f111d27dd3f260839344a7370e0dd8f20e2c40482")]));
        response 404 (Some "Value")
          ("Proof of compute is disabled on this deployment (`POC_ENABLED=false`): the route is " +:+
           "not mounted and the service-wide 404 answers instead.")
          (Some (JObject [("error", JString "Not found")]))] |}.

(** *** invite-tickets ([http.rs]) *)

Definition claim_op : Operation :=
  {| o_method := POST; o_path := "/api/v1/invitation-ticket/claim"; o_tag := "Invitation Tickets"; o_handler := "claim_ticket";
     o_security := ["bearer_jwt"]; o_params := [];
     o_request_body := Some (body_of "ClaimRequest" None None);
     o_description := None;
     o_responses :=
       [response 200 (Some "ClaimResponse")
          ("Ticket claimed: the oldest `available` ticket of the `(dim, network)` pool, " +:+
           "atomically flipped to `claimed`, with an sr25519 signature by the ticket key over " +:+
           "the claimant's decoded 32-byte account id.")
          None;
        response 400 None
          ("Body validation failed (with per-field `fields`), or `Malformed JSON in request " +:+
           "body` when the body is not JSON.")
          (Some (JObject [("error", JString "The request body contains invalid values.");
              ("fields", JArray [JObject [("field", JString "who");
              ("message", JString "Invalid SS58 address format")]])]));
        response 401 None
          "Missing/malformed `Authorization` header or failed token verification."
          (Some (JObject [("error", JString "Token verification failed. The token may be expired or malformed.")]));
        response 409 None
          "Ticket race lost — a concurrent request claimed the contended ticket."
          (Some (JObject [("error", JString "Ticket race lost")]));
        response 422 None
          "Pool exhausted — no `available` ticket in the `(dim, network)` pool."
          (Some (JObject [("error", JString "Pool exhausted")]));
        response 429 None
          "Per-subject rate limit exceeded (with `Retry-After`)."
          (Some (JObject [("error", JString "Rate limit exceeded. Please retry after 60 seconds.")]));
        response 500 None
          "Unexpected internal failure (opaque)."
          (Some (JObject [("error", JString "Internal server error. Please try again.")]))] |}.

(** *** turn ([http.rs], [http/proof_routes.rs]) *)

Definition turn_op : Operation :=
  {| o_method := POST; o_path := "/api/v1/turn/issue"; o_tag := "TURN"; o_handler := "issue_credentials";
     o_security := ["bearer_jwt"]; o_params := [];
     o_request_body := Some (body_of "IssueRequest" None None);
     o_description := None;
     o_responses :=
       [response 201 (Some "IssueResponse")
          ("Credentials issued: `username` and `password` are an opaque pair from the " +:+
           "deployment's configured `TURN_PROVIDER` — do not parse either — `servers` is the " +:+
           "ICE server list to use them against, and `ttl` is the seconds of life remaining on " +:+
           "the credential.")
          None;
        response 400 None
          ("Body validation failed (with per-field `fields`), or `Malformed JSON in request " +:+
           "body` when a body is present but not JSON. An empty body is accepted — every field " +:+
           "is optional.")
          (Some (JObject [("error", JString "The request body contains invalid values.");
              ("fields", JArray [JObject [("field", JString "regionHint");
              ("message", JString "expected string, received number")]])]));
        response 401 None
          "Missing/malformed `Authorization` header or failed token verification."
          (Some (JObject [("error", JString "Token verification failed. The token may be expired or malformed.")]));
        response 429 None
          "Per-subject rate limit exceeded (with `Retry-After`)."
          (Some (JObject [("error", JString "Rate limit exceeded. Please retry after 60 seconds.")]));
        response 503 None
          ("The credential provider could not issue and no cached credential was usable (with " +:+
           "`Retry-After`). Only reachable on the Cloudflare provider, which depends on an " +:+
           "upstream call; a coturn deployment computes credentials locally and never returns " +:+ "this.")
          (Some (JObject [("error", JString "Credentials are temporarily unavailable.")]))] |}.

Definition proof_op : Operation :=
  {| o_method := POST; o_path := "/api/v1/turn/issue-with-proof"; o_tag := "TURN"; o_handler := "issue_with_proof";
     o_security := []; o_params := [];
     o_request_body := Some (body_of "IssueWithProofBody" None None);
     o_description := None;
     o_responses :=
       [response 201 (Some "IssueResponse")
          ("Proof accepted; returns the servers and an opaque username/password pair from the " +:+
           "configured `TURN_PROVIDER`, and `ttl`, the seconds of life remaining on them. No " +:+
           "alias appears in the response, and nothing recoverable from the proof is derivable " +:+
           "from the credential.")
          None;
        response 400 None
          ("Unparseable body, invalid hex, a collection outside the canonical People " +:+
           "Lite/People allowlist, a proof that is not a single-context ring-VRF signature, a " +:+
           "product this deployment does not accept, or a timestamp outside the accepted skew.")
          None;
        response 403 None
          ("The proof did not verify against the named ring root under that product's context — " +:+
           "including when `(ringIndex, ringRevision)` is outside the roots this deployment " +:+
           "still holds (deliberately unspecific).")
          None;
        response 429 None
          "This person's redemption limit was exceeded (with `Retry-After`)."
          None;
        response 503 None
          ("Verification unavailable: no ring-root snapshot yet (chain unreachable since boot), " +:+
           "the bounded waiter queue is full, or all verification slots remained busy for the " +:+
           "bounded wait. Also returned when the proof verified but the credential provider " +:+
           "could not issue and no cached credential was usable, which only the Cloudflare " +:+
           "provider can do. Saturation and provider responses include `Retry-After`.")
          None] |}.

(** *** notifications ([notify.rs]) *)

Definition notify_op : Operation :=
  {| o_method := POST; o_path := "/api/v1/notify"; o_tag := "Notifications"; o_handler := "notify::handle";
     o_security := ["bearer_jwt"]; o_params := [];
     o_request_body := Some (body_of "NotifyRequestDoc" None None);
     o_description := None;
     o_responses :=
       [response 200 (Some "NotifyResponseDoc")
          ("Relay accepted the request. The push result is echoed verbatim from the provider — " +:+
           "including the legacy behavior of returning `200` with `success: false` on provider " +:+
           "failure, so a non-200 status never signals a delivery failure.")
          None;
        response 400 None
          ("Body validation failed (RFC 9457 problem details with per-field `errors`); or " +:+
           "plain-text `Malformed JSON in request body` when the body is not JSON.")
          None;
        response 401 None
          ("Missing/malformed `Authorization` header or failed token verification (RFC 9457 " +:+
           "problem details).")
          None;
        response 429 None
          "Per-subject rate limit exceeded (RFC 9457 problem details, with `Retry-After`)."
          None] |}.

(** ** The documents *)

(** What [SecurityAddon] adds: the name, the scheme, its format and a description. *)
Record SecurityScheme := { ss_name : string; ss_scheme : string; ss_format : string; ss_description : string }.

Definition SecurityAddon : SecurityScheme :=
  {| ss_name := "bearer_jwt"; ss_scheme := "bearer"; ss_format := "JWT";
     ss_description := "Access JWT issued by POST /api/v1/auth/token." |}.

Record Info := { i_title : string; i_version : string; i_description : string }.

Record ServiceDoc := {
  d_info : option Info; d_servers : list (string * string); d_tags : list (string * string);
  d_paths : list Operation; d_schemas : list string; d_security : list SecurityScheme }.

Definition attestation_api : ServiceDoc :=
  {| d_info := Some
       {| i_title := "Device Uniqueness Backend"; i_version := "2";
          i_description :=
            (lines ["**Prove the device and register the username on People Chain.**";
                    EmptyString;
                    "### Validation flow";
                    EmptyString;
                    "The iOS smoke drives this sequence end-to-end; each step gates the next:";
                    EmptyString;
                    "1. `POST /api/v1/auth/challenges` — mint a single-use challenge";
                    "2. `POST /api/v1/auth/app-attest/attestations` — iOS App Attest (`202`, no-op in M0)";
                    "3. `POST /api/v1/auth/token` — sr25519 proof exchanged for a JWT";
                    "4. `POST /api/v1/usernames/available` — JWT-gated People Chain read";
                    "5. `POST /api/v1/usernames` — `202` outbox reservation";
                    EmptyString;
                    ("> **Attestation is disabled for M0.** Apple/Google verification is intentionally a " +:+
                     "no-op; the sr25519 account proof and People Chain reads still run end-to-end.");
                    EmptyString;
                    ("Errors come in two shapes. The auth handshake (`/api/v1/auth/*`) answers the " +:+
                     "`ErrorResponse` envelope — `{ error, message }`, where `error` is a stable machine " +:+
                     "code. Every other route answers `{ error }`, a human-readable summary, plus a " +:+
                     "`fields` array of `{ field, message }` when the failure is per-field validation.")]) |};
     d_servers := [("https://identity.dotspark.app", "Test deployment")];
     d_tags :=
       [("Liveness & Readiness", "Process, liveness, and readiness probes.");
        ("Discovery", "Public keyset and attester authority.");
        ("Authentication", "The attestation → JWT handshake.");
        ("Usernames", "Availability reads and registration intake.")];
     d_paths :=
       [healthcheck_op; livez_op; readyz_op; jwks_op; attester_op; challenge_op; app_attest_op; token_op;
        refresh_op; available_op; register_op; queue_op];
     d_schemas :=
       ["ErrorResponse"; "Status"; "ChallengeResponse"; "AppAttestRequest"; "TokenResponse"; "RefreshRequest";
        "AttesterResponse"; "AvailableRequest"; "AvailableV1Response"; "NameAvailability"; "RegisterRequest";
        "Dotns"; "RegisterResponse"; "QueueStatusResponse"];
     d_security := [SecurityAddon] |}.

Definition indexer_api : ServiceDoc :=
  {| d_info := None; d_servers := [];
     d_tags :=
       [("Usernames",
         "Public username search over the finalized chain projection. Served to callers with an " +:+
         "device-attestation JWT or, when proof of compute is enabled, a solved puzzle; rate-limited " +:+
         "per subject or client IP.");
        ("Proof of compute",
         "Puzzle issuance for callers that hold no bearer token. Mounted only when `POC_ENABLED=true`.")];
     d_paths := [search_op; puzzle_op];
     d_schemas := ["SearchResponse"; "SearchUsername"; "Puzzle"]; d_security := [] |}.

Definition invites_api : ServiceDoc :=
  {| d_info := None; d_servers := [];
     d_tags :=
       [("Invitation Tickets",
         "Synchronous invitation-credential claims from a pre-staged, on-chain-registered sr25519 keypair " +:+
         "pool. The route the shipping iOS/Android apps call for Game / ProofOfInk credentials.")];
     d_paths := [claim_op]; d_schemas := ["ClaimRequest"; "ClaimResponse"]; d_security := [SecurityAddon] |}.

Definition turn_api : ServiceDoc :=
  {| d_info := None; d_servers := [];
     d_tags :=
       [("TURN",
         ("Short-lived TURN credentials for WebRTC ICE negotiation. The credential source is " +:+
          "the deployment's `TURN_PROVIDER`: **Cloudflare Realtime TURN** (the default), which " +:+
          "mints each credential itself — one per request, so callers are mutually unlinkable, " +:+
          "with the last response cached and served if Cloudflare is briefly unreachable — or " +:+
          "a self-hosted **coturn** relay, where this service computes the credential from a " +:+
          "secret shared with the relay and callers are kept unlinkable by an opaque keyed id " +:+
          "instead. Either way nothing is persisted. Issuance is authorized either by an " +:+
          "access JWT (`/issue`) or, when enabled, by a personhood ring-VRF proof over a " +:+
          "client-timestamped message (`/issue-with-proof`)."))];
     d_paths := [turn_op; proof_op];
     d_schemas := ["IssueRequest"; "IssueResponse"; "IssueWithProofBody"]; d_security := [SecurityAddon] |}.

Definition notify_api : ServiceDoc :=
  {| d_info := None; d_servers := [];
     d_tags :=
       [("Notifications",
         "Send a push notification to an iOS (APNs) or Android (FCM) device. Stateless verify-only relay: " +:+
         "it authenticates the JWT and forwards the frozen mobile payload, returning the provider's result " +:+
         "— including the legacy `200 success:false` on provider failure.")];
     d_paths := [notify_op];
     d_schemas := ["NotifyRequestDoc"; "NotifyResponseDoc"; "NotifyErrorDoc"]; d_security := [SecurityAddon] |}.

End OpenApi.
