(* ===== verification/ApiPage.v ===== *)
(** * ApiPage: the HTML of the API reference ([apidoc-gen/src/lib.rs])

    The texts are the source's literals; they are written with an apostrophe for the
    double quote and a caret for the end of line, which [html] puts back (neither
    occurs in them otherwise). *)

From stdpp Require Import pretty.
From S2P Require Import Prelude Strings Text Schema DeviceGate Routes ApiDoc.

#[local] Open Scope string_scope.
#[local] Open Scope Z_scope.

Module ApiPage.
Import Routes ApiDoc.

Fixpoint html (s : string) : string :=
  match s with
  | EmptyString => EmptyString
  | String c s' =>
      String (if Ascii.eqb c "'"%char then QUOTE else if Ascii.eqb c "^"%char then ascii_of_nat 10 else c) (html s')
  end.

(** ** Texts *)

Definition escape (text : string) : string :=
  replace_char QUOTE "&quot;" (replace_char ">"%char "&gt;" (replace_char "<"%char "&lt;" (replace_char "&"%char "&amp;" text))).

Fixpoint markdown_segments (in_code : bool) (segments : list string) : string :=
  match segments with
  | [] => EmptyString
  | s :: segments' =>
      (if in_code then "<code>" +:+ escape s +:+ "</code>" else escape s) +:+ markdown_segments (negb in_code) segments'
  end.

Definition markdown_lite (text : string) : string := markdown_segments false (split_on "`"%char text).

(** The integers of [serde_json]'s numbers. *)
Definition fmt_number (n : Z) : string := if n <? 0 then "-" +:+ decimal (- n) else decimal n.
Definition fmt_bool (b : bool) : string := if b then "true" else "false".

(** [{num:02}]. *)
Definition pad2 (n : Z) : string := if n <? 10 then "0" +:+ decimal n else decimal n.

Fixpoint repeat_str (n : nat) (s : string) : string :=
  match n with O => EmptyString | S n' => s +:+ repeat_str n' s end.

(** The items of a rendered list, with their separators. *)
Fixpoint join_items (child : string) (items : list string) : string :=
  match items with
  | [] => EmptyString
  | item :: items' =>
      child +:+ item +:+ (match items' with [] => EmptyString | _ => html "<span class='p'>,</span>" end)
        +:+ NL +:+ join_items child items'
  end.

Fixpoint highlight (value : Json) (indent : nat) : string :=
  let pad := repeat_str indent "  " in
  let child := repeat_str (S indent) "  " in
  match value with
  | JNull => html "<span class='k'>null</span>"
  | JBool b => html "<span class='k'>" +:+ fmt_bool b +:+ "</span>"
  | JNumber n => html "<span class='n'>" +:+ fmt_number n +:+ "</span>"
  | JString s => html "<span class='s'>'" +:+ escape s +:+ html "'</span>"
  | JArray [] => html "<span class='p'>[]</span>"
  | JArray items =>
      html "<span class='p'>[</span>^"
        +:+ join_items child (List.map (fun i => highlight i (S indent)) items)
        +:+ pad +:+ html "<span class='p'>]</span>"
  | JObject [] => html "<span class='p'>{}</span>"
  | JObject m =>
      html "<span class='p'>{</span>^"
        +:+ join_items child
              (List.map (fun kv : string * Json =>
                 html "<span class='s'>'" +:+ escape kv.1 +:+ html "'</span><span class='p'>:</span> "
                   +:+ highlight kv.2 (S indent)) m)
        +:+ pad +:+ html "<span class='p'>}</span>"
  end.

(** The last part of a reference. *)
Definition last_part (reference : string) : string :=
  match rsplit_once "/"%char reference with Some (_, name) => name | None => reference end.

(** The type of a schema; an array names the type of its items. *)
Definition schema_type (schema : Json) : option string :=
  match json_get "type" schema with
  | Some (JArray types) => List.find (fun t => negb (String.eqb t "null")) (omap json_as_str types)
  | Some (JString t) => Some t
  | _ => None
  end.

Fixpoint type_label_of (schema : Json) : string :=
  match get_str "$ref" schema with
  | Some reference => last_part reference
  | None =>
      match schema_type schema with
      | Some t =>
          if String.eqb t "array" then
            match schema with
            | JObject m =>
                (fix items (l : list (string * Json)) : string :=
                   match l with
                   | [] => "string"
                   | (k, v) :: l' => if String.eqb k "items" then type_label_of v else items l'
                   end) m
            | _ => "string"
            end +:+ "[]"
          else if String.eqb t "integer" then "number"
          else t
      | None => "object"
      end
  end.
Definition type_label (schema : option Json) : string :=
  match schema with Some schema => type_label_of schema | None => "string" end.

(** [to_uppercase] of a method. *)
Definition ascii_upper (c : ascii) : ascii :=
  if is_ascii_lowercase c then ascii_of_nat (nat_of_ascii c - 32) else c.
Fixpoint to_uppercase (s : string) : string :=
  match s with EmptyString => EmptyString | String c s' => String (ascii_upper c) (to_uppercase s') end.

Definition method_class (method : string) : string := "m-" +:+ method.

Fixpoint slug_from (prev_dash : bool) (path : string) : string :=
  match path with
  | EmptyString => EmptyString
  | String ch path' =>
      if is_ascii_alphanumeric ch then String (ascii_lower ch) (slug_from false path')
      else if prev_dash then slug_from true path'
      else String "-"%char (slug_from true path')
  end.

(** [trim_matches('-')]. *)
Fixpoint trim_start_dash (s : string) : string :=
  match s with
  | String c s' => if Ascii.eqb c "-"%char then trim_start_dash s' else s
  | EmptyString => EmptyString
  end.
Definition trim_dashes (s : string) : string :=
  String.rev (trim_start_dash (String.rev (trim_start_dash s))).

Definition endpoint_id (path : string) : string :=
  replace_str "ep--" "ep-" (trim_dashes ("ep-" +:+ slug_from false path)).

Definition starts_with (c : ascii) (s : string) : bool :=
  match s with String d _ => Ascii.eqb d c | EmptyString => false end.

Definition chip_class (code : string) : string :=
  if starts_with "2"%char code then "green"
  else if String.eqb code "409" then "blue"
  else if String.eqb code "429" then "yellow"
  else if starts_with "4"%char code || starts_with "5"%char code then "red"
  else EmptyString.

Definition STATUS_LABELS : list (string * string) :=
  [("200", "OK"); ("201", "CREATED"); ("202", "ACCEPTED"); ("204", "NO_CONTENT"); ("400", "WRONG_DATA");
   ("401", "UNAUTHORIZED"); ("403", "FORBIDDEN"); ("404", "NOT_FOUND"); ("409", "CONFLICT");
   ("429", "RATE_LIMITED"); ("500", "INTERNAL"); ("503", "UNAVAILABLE")].

Definition status_label (code : string) (example : option Json) : string :=
  match (e ← example; get_str "error" e) with
  | Some err => err
  | None => default code (first_some (fun kv : string * string => if String.eqb kv.1 code then Some kv.2 else None) STATUS_LABELS)
  end.

Definition nav_path (path : string) : string := default path (strip_prefix "/api/v1" path).

Definition trim_end (s : string) : string :=
  String.rev (strip_all (String.rev <$> WHITE_SPACE) (String.length s) (String.rev s)).

(** ** Schemas and examples *)

Definition is_null_schema (schema : Json) : bool := bool_decide (get_str "type" schema = Some "null").

Definition resolve_ref (doc schema : Json) : option Json :=
  reference ← get_str "$ref" schema; pointer ("/components/schemas/" +:+ last_part reference) doc.

(** [depth] counts from 0 and the source gives up above 6: [fuel] is [7 - depth]. *)
Fixpoint resolve_object_schema (fuel : nat) (doc schema : Json) : option Json :=
  match fuel with
  | O => None
  | S fuel' =>
      match resolve_ref doc schema with
      | Some target => resolve_object_schema fuel' doc target
      | None =>
          match (branches ← get_array "oneOf" schema;
                 first_some (fun sub => if is_null_schema sub then None else resolve_object_schema fuel' doc sub) branches) with
          | Some resolved => Some resolved
          | None => match json_get "properties" schema with Some _ => Some schema | None => None end
          end
      end
  end.
Definition OBJECT_DEPTH : nat := 7.

(** Above 8 here: [fuel] is [9 - depth]. *)
Fixpoint example_from_schema (fuel : nat) (doc schema : Json) : option Json :=
  match fuel with
  | O => None
  | S fuel' =>
      match json_get "example" schema with
      | Some example => Some example
      | None =>
          match resolve_ref doc schema with
          | Some target => example_from_schema fuel' doc target
          | None =>
              match (branches ← get_array "oneOf" schema;
                     first_some (fun sub => if is_null_schema sub then None else example_from_schema fuel' doc sub) branches) with
              | Some value => Some value
              | None =>
                  props ← get_object "properties" schema;
                  Some (JObject (foldl (fun obj '(key, prop) =>
                          map_insert key (default JNull (example_from_schema fuel' doc prop)) obj) [] props))
              end
          end
      end
  end.
Definition EXAMPLE_DEPTH : nat := 9.

Definition content_example (doc node : Json) : option Json :=
  content ← json_get "content" node;
  json ← json_get "application/json" content;
  match json_get "example" json with
  | Some example => Some example
  | None => schema ← json_get "schema" json; example_from_schema EXAMPLE_DEPTH doc schema
  end.

Definition request_example (doc : Json) (op : Map) : option Json :=
  rb ← map_get "requestBody" op; content_example doc rb.

Definition operation_text (op : Map) : option string :=
  v ← (match map_get "description" op with Some v => Some v | None => map_get "summary" op end); json_as_str v.

(** [parse::<u16>().unwrap_or(u16::MAX)]. *)
Definition code_key (response : string * Json) : Z := default 65535 (parse_unsigned 65535 (fst response)).

Definition sorted_responses (op : Map) : list (string * Json) :=
  sort_by (fun a b => code_key a <=? code_key b) (default [] (get_object "responses" (JObject op))).

(** ** Tables and blocks *)

Record TableRow := { r_name : string; r_ty : string; r_required : bool; r_desc : string }.

Definition table_row (row : TableRow) : string :=
  let '(req_cls, req_txt) := if r_required row then ("req yes", "yes") else ("req", "no") in
  html "                <tr><td class='name'>" +:+ escape (r_name row) +:+ html "</td><td class='type'>" +:+ escape (r_ty row)
    +:+ html "</td><td class='" +:+ req_cls +:+ html "'>" +:+ req_txt +:+ html "</td><td class='desc'>"
    +:+ markdown_lite (r_desc row) +:+ html "</td></tr>^".

Definition param_table (label : string) (rows : list TableRow) : string :=
  match rows with
  | [] => EmptyString
  | _ =>
      html "          <div class='tbl-wrap'>^            <table class='params'>^              <thead>^"
        +:+ html "                <tr><th>" +:+ escape label +:+ html "</th><th>Type</th><th>Required</th><th>Description</th></tr>^"
        +:+ html "              </thead>^              <tbody>^"
        +:+ concat_strings (table_row <$> rows)
        +:+ html "              </tbody>^            </table>^          </div>^"
  end.

Definition param_row (p : Json) : TableRow :=
  {| r_name := default EmptyString (get_str "name" p); r_ty := type_label (json_get "schema" p);
     r_required := default false (json_get "required" p ≫= as_bool);
     r_desc := default EmptyString (get_str "description" p) |}.

Definition PARAM_KINDS : list (string * string) := [("header", "Header"); ("query", "Query"); ("path", "Path")].

Definition is_in (kind : string) (p : Json) : bool := bool_decide (get_str "in" p = Some kind).

Definition render_param_tables (params : option (list Json)) : string :=
  match params with
  | None => EmptyString
  | Some params =>
      concat_strings ((fun '(kind, label) => param_table label (param_row <$> List.filter (is_in kind) params)) <$> PARAM_KINDS)
  end.

Definition object_table (object : Json) (label : string) : string :=
  match get_object "properties" object with
  | None => EmptyString
  | Some props =>
      let required := match get_array "required" object with Some r => omap json_as_str r | None => [] end in
      param_table label
        ((fun '(name, prop) =>
            {| r_name := name; r_ty := type_label (Some prop); r_required := bool_decide (name ∈ required);
               r_desc := default EmptyString (get_str "description" prop) |}) <$> props)
  end.

(** A table for the body, and one for each of its fields that is an object. *)
Definition render_request_body_tables (doc : Json) (op : Map) : string :=
  match (rb ← map_get "requestBody" op; c ← json_get "content" rb; j ← json_get "application/json" c; json_get "schema" j) with
  | None => EmptyString
  | Some schema =>
      match resolve_object_schema OBJECT_DEPTH doc schema with
      | None => EmptyString
      | Some object =>
          object_table object "Field" +:+
          match get_object "properties" object with
          | None => EmptyString
          | Some props =>
              concat_strings ((fun '(name, prop) =>
                match resolve_object_schema OBJECT_DEPTH doc prop with
                | Some nested => object_table nested (name +:+ ".*")
                | None => EmptyString
                end) <$> props)
          end
      end
  end.

Definition code_block (label pre : string) : string :=
  html "          <div class='code-block'>^            <div class='code-head'>^              <span class='code-head-label'>"
    +:+ escape label
    +:+ html "</span>^              <div class='code-head-right'><span class='code-lang-tag'>json</span></div>^            </div>^<pre>"
    +:+ pre +:+ html "</pre>^          </div>^".

Definition status_card (doc : Json) (response : string * Json) : string :=
  let '(code, resp) := response in
  let label := status_label code (content_example doc resp) in
  html "            <div class='status-card'>^              <div class='sc-head'>^"
    +:+ html "                <span class='sc-code c" +:+ code +:+ html "'>" +:+ code
    +:+ html "</span>^                <span class='sc-label'>" +:+ escape label +:+ html "</span>^"
    +:+ html "              </div>^              <div class='sc-desc'>" +:+ markdown_lite (default EmptyString (get_str "description" resp))
    +:+ html "</div>^            </div>^".

Definition render_status_grid (doc : Json) (responses : list (string * Json)) : string :=
  match responses with
  | [] => EmptyString
  | _ =>
      html "          <div class='status-grid'>^" +:+ concat_strings (status_card doc <$> responses) +:+ html "          </div>^"
  end.

(** ** Endpoints *)

Fixpoint query_parts (first : bool) (names : list string) : string :=
  match names with
  | [] => EmptyString
  | name :: names' =>
      (if first then "?" else "&") +:+ escape name +:+ html "=<span class='pname'>&lt;" +:+ escape name +:+ html "&gt;</span>"
        +:+ query_parts false names'
  end.

Definition endpoint_path_html (ep : Endpoint) : string :=
  let queries :=
    match get_array "parameters" (JObject (op ep)) with
    | Some params => omap (get_str "name") (List.filter (is_in "query") params)
    | None => []
    end in
  escape (path ep) +:+
  match queries with
  | [] => EmptyString
  | _ => html "<span class='query'>" +:+ query_parts true queries +:+ html "</span>"
  end.

Definition chip (code : string) : string :=
  html "            <span class='chip " +:+ chip_class code +:+ html "'>" +:+ code +:+ html "</span>^".

Definition endpoint_meta (secured : bool) (responses : list (string * Json)) : string :=
  concat_strings ((fun r : string * Json => chip (fst r)) <$> responses) +:+
  (if secured then html "            <span class='chip blue'>bearer JWT</span>^"
   else html "            <span class='chip'>public</span>^").

Definition AUTH_NOTE : string :=
  html "          <div class='auth-note'>^            <span class='auth-label'>Auth</span>^            <span class='auth-text'>Bearer JWT required in the <code>Authorization</code> header.</span>^          </div>^".

Definition response_block (doc : Json) (response : string * Json) : string :=
  match content_example doc (snd response) with
  | Some example =>
      code_block ("Response · " +:+ fst response +:+ " · application/json") (highlight example 0)
  | None => EmptyString
  end.

Definition endpoint_body (doc : Json) (ep : Endpoint) (secured : bool) (responses : list (string * Json)) : string :=
  match operation_text (op ep) with
  | Some desc => html "          <p class='endpoint-desc'>" +:+ markdown_lite desc +:+ html "</p>^"
  | None => EmptyString
  end
  +:+ (if secured then AUTH_NOTE else EmptyString)
  +:+ render_param_tables (get_array "parameters" (JObject (op ep)))
  +:+ render_request_body_tables doc (op ep)
  +:+ match request_example doc (op ep) with
      | Some example => code_block "Request Body" (highlight example 0)
      | None => EmptyString
      end
  +:+ concat_strings (response_block doc <$> responses)
  +:+ render_status_grid doc responses.

Definition render_endpoint (doc : Json) (ep : Endpoint) : string :=
  let secured := bool_decide (is_Some (map_get "security" (op ep))) in
  let responses := sorted_responses (op ep) in
  html "      <div class='endpoint' id='" +:+ endpoint_id (path ep)
    +:+ html "'>^        <div class='endpoint-head'>^          <div class='endpoint-title'>^            <span class='method-badge "
    +:+ method_class (method ep) +:+ html "'>" +:+ to_uppercase (method ep)
    +:+ html "</span>^            <span class='endpoint-path'>" +:+ endpoint_path_html ep
    +:+ html "</span>^          </div>^          <div class='endpoint-meta'>^" +:+ endpoint_meta secured responses
    +:+ html "          </div>^        </div>^        <div class='endpoint-body'>^" +:+ endpoint_body doc ep secured responses
    +:+ html "        </div>^      </div>^".

Definition render_section (doc : Json) (i : nat) (group : string * list Endpoint) : string :=
  let '(tag, list) := group in
  let first_id := match list with ep :: _ => endpoint_id (path ep) | [] => EmptyString end in
  html "    <section class='section'>^" +:+ html "      <div class='section-header'>^"
    +:+ html "        <span class='section-num'>" +:+ pad2 (Z.of_nat i + 2) +:+ html "</span>^"
    +:+ html "        <h2>" +:+ escape tag +:+ html "</h2>^"
    +:+ html "        <a class='section-anchor' href='javascript:void(0)' data-scroll-to='" +:+ first_id +:+ html "'>#</a>^"
    +:+ html "      </div>^^"
    +:+ concat_strings ((fun ep => render_endpoint doc ep +:+ NL) <$> list)
    +:+ html "    </section>^^".

Definition render_endpoints (doc : Json) : string :=
  trim_end (concat_strings (imap (render_section doc) (endpoints_by_tag doc))).

Definition nav_item (ep : Endpoint) : string :=
  html "      <a class='nav-item " +:+ method_class (method ep) +:+ html "' href='javascript:void(0)' data-scroll-to='"
    +:+ endpoint_id (path ep) +:+ html "'><span class='method-mini'>" +:+ to_uppercase (method ep)
    +:+ html "</span><span class='path'>" +:+ escape (nav_path (path ep)) +:+ html "</span></a>^".

Definition nav_section (group : string * list Endpoint) : string :=
  let '(tag, list) := group in
  html "    <div class='nav-section'>^" +:+ html "      <div class='nav-section-title'>" +:+ escape tag +:+ html "</div>^"
    +:+ concat_strings (nav_item <$> list) +:+ html "    </div>^^".

Definition render_nav (doc : Json) : string := trim_end (concat_strings (nav_section <$> endpoints_by_tag doc)).

(** ** The artifacts *)

Definition openapi_json (to_string_pretty : Json -> string) (d : Docs) : option string :=
  doc ← merged_doc d; Some (to_string_pretty doc +:+ NL).

(** [template] is the file read; [None] for [Err] is a template that is not there. *)
Definition index_html (template : option string) (d : Docs) : option (result string unit) :=
  match template with
  | None => Some (Err tt)
  | Some template =>
      doc ← merged_doc d;
      Some (Ok (replace_str "<!--@ENDPOINTS-->" (render_endpoints doc) (replace_str "<!--@NAV-->" (render_nav doc) template)))
  end.

(** [main]: the files written, in order, or the refusal. *)
Inductive MainError := NoInviteTickets | NoTemplate.

Definition main (to_string_pretty : Json -> string) (template : option string) (d : Docs)
    : option (list (string * string) * result unit MainError) :=
  match invites_doc d with
  | None => Some ([], Err NoInviteTickets)
  | Some _ =>
      json ← openapi_json to_string_pretty d;
      page ← index_html template d;
      match page with
      | Ok page => Some ([("openapi.json", json); ("index.html", page)], Ok tt)
      | Err _ => Some ([("openapi.json", json)], Err NoTemplate)
      end
  end.

End ApiPage.
