(* ===== verification/ApiPageProps.v ===== *)
(** * ApiPageProps: no document can break the page

    Escaped text reads back as itself, and whatever the documents say, the fragments
    the generator puts into the page are well nested and made of its own tags. *)

From stdpp Require Import pretty.
From S2P Require Import Prelude Strings Text Schema DeviceGate Routes ApiDoc ApiPage.

#[local] Open Scope string_scope.
#[local] Open Scope Z_scope.

Module ApiPageProps.
Import Routes ApiDoc ApiDocProps ApiPage.

(** ** Reading HTML: tags open and close in pairs *)

Definition TAGS : list string :=
  ["div"; "span"; "section"; "h2"; "a"; "p"; "code"; "pre"; "table"; "thead"; "tbody"; "tr"; "th"; "td"].

(** Between tags, in the name of a tag, among its attributes, in a quoted value. *)
Inductive Mode := InText | InName (closing : bool) (name : string) | InTag (name : string) | InQuote (name : string).

Abbreviation Reader := (Mode * list string)%type.

Definition end_tag (closing : bool) (name : string) (open : list string) : option Reader :=
  if closing then
    match open with t :: open' => if String.eqb t name then Some (InText, open') else None | [] => None end
  else if existsb (String.eqb name) TAGS then Some (InText, name :: open) else None.

Definition read_char (r : Reader) (c : ascii) : option Reader :=
  let '(mode, open) := r in
  match mode with
  | InText =>
      if Ascii.eqb c "<"%char then Some (InName false EmptyString, open)
      else if Ascii.eqb c ">"%char then None else Some (InText, open)
  | InName closing name =>
      if Ascii.eqb c "/"%char && String.eqb name EmptyString && negb closing then Some (InName true EmptyString, open)
      else if Ascii.eqb c ">"%char then end_tag closing name open
      else if Ascii.eqb c " "%char then if closing then None else Some (InTag name, open)
      else if Ascii.eqb c "<"%char then None
      else Some (InName closing (name +:+ String c EmptyString), open)
  | InTag name =>
      if Ascii.eqb c QUOTE then Some (InQuote name, open)
      else if Ascii.eqb c ">"%char then end_tag false name open
      else if Ascii.eqb c "<"%char then None else Some (InTag name, open)
  | InQuote name =>
      if Ascii.eqb c QUOTE then Some (InTag name, open)
      else if Ascii.eqb c "<"%char || Ascii.eqb c ">"%char then None else Some (InQuote name, open)
  end.

Fixpoint scan (r : Reader) (s : string) : option Reader :=
  match s with
  | EmptyString => Some r
  | String c s' => r' ← read_char r c; scan r' s'
  end.

(** The fragment opens and closes its own tags, in pairs. *)
Definition nested (s : string) : Prop := forall open, scan (InText, open) s = Some (InText, open).

Lemma scan_app r a b : scan r (a +:+ b) = (r' ← scan r a; scan r' b).
Proof.
  revert r. induction a as [|c a IH]; intros r; [done|]. cbn [scan String.append String.app].
  destruct (read_char r c) as [r'|]; [apply IH|done].
Qed.

Lemma nested_empty : nested EmptyString.
Proof. done. Qed.

Lemma nested_app a b : nested a -> nested b -> nested (a +:+ b).
Proof. intros Ha Hb open. rewrite scan_app, Ha. apply Hb. Qed.

Lemma nested_concat l : Forall nested l -> nested (concat_strings l).
Proof. induction 1; [apply nested_empty|by apply nested_app]. Qed.

(** ** Plain text: no angle bracket and no double quote *)

Definition plain_char (c : ascii) : bool :=
  negb (Ascii.eqb c "<"%char || Ascii.eqb c ">"%char || Ascii.eqb c QUOTE).
Definition plain (s : string) : bool := all_chars plain_char s.

Lemma plain_char_neq c :
  plain_char c = true -> Ascii.eqb c "<"%char = false /\ Ascii.eqb c ">"%char = false /\ Ascii.eqb c QUOTE = false.
Proof. unfold plain_char. by destruct (Ascii.eqb c "<"%char), (Ascii.eqb c ">"%char), (Ascii.eqb c QUOTE). Qed.

Lemma scan_text s open : plain s = true -> scan (InText, open) s = Some (InText, open).
Proof.
  induction s as [|c s IH]; [done|]. unfold plain. cbn [all_chars]. intros [(H1 & H2 & H3)%plain_char_neq Hs]%andb_prop.
  cbn [scan read_char]. rewrite H1, H2. by apply IH.
Qed.

Lemma scan_quoted s name open : plain s = true -> scan (InQuote name, open) s = Some (InQuote name, open).
Proof.
  induction s as [|c s IH]; [done|]. unfold plain. cbn [all_chars]. intros [(H1 & H2 & H3)%plain_char_neq Hs]%andb_prop.
  cbn [scan read_char]. rewrite H1, H2, H3. by apply IH.
Qed.

Lemma nested_plain s : plain s = true -> nested s.
Proof. intros Hs open. by apply scan_text. Qed.

Lemma plain_app a b : plain (a +:+ b) = plain a && plain b.
Proof. apply all_chars_app. Qed.

Lemma plain_range (p : ascii -> bool) s :
  (forall c, p c = true -> plain_char c = true) -> all_chars p s = true -> plain s = true.
Proof. apply all_chars_impl. Qed.

Lemma digit_markup_plain c : is_ascii_digit c = true -> plain_char c = true.
Proof. destruct c as [[] [] [] [] [] [] [] []]; vm_compute; congruence. Qed.

Lemma decimal_markup_plain n : 0 <= n -> plain (decimal n) = true.
Proof. intros Hn. eapply plain_range; [apply digit_markup_plain|by apply decimal_digits]. Qed.

(** ** Escaping *)

Definition escape_char (c : ascii) : string :=
  if Ascii.eqb c "&"%char then "&amp;" else if Ascii.eqb c "<"%char then "&lt;"
  else if Ascii.eqb c ">"%char then "&gt;" else if Ascii.eqb c QUOTE then "&quot;" else String c EmptyString.

Fixpoint escape_chars (s : string) : string :=
  match s with EmptyString => EmptyString | String c s' => escape_char c +:+ escape_chars s' end.

Lemma replace_char_app c by_ a b : replace_char c by_ (a +:+ b) = replace_char c by_ a +:+ replace_char c by_ b.
Proof.
  induction a as [|d a IH]; [done|]. cbn [replace_char String.append String.app]. by rewrite IH, string_app_assoc.
Qed.

(** The four passes do what one pass by character does. *)
Lemma escape_by_char s : escape s = escape_chars s.
Proof.
  induction s as [|c s IH]; [done|].
  change (String c s) with (String c EmptyString +:+ s). unfold escape in *. rewrite !replace_char_app, IH.
  cbn [escape_chars String.append String.app]. f_equal. clear. destruct c as [[] [] [] [] [] [] [] []]; vm_compute; reflexivity.
Qed.

Lemma escape_plain s : plain (escape s) = true.
Proof.
  rewrite escape_by_char. induction s as [|c s IH]; [done|]. cbn [escape_chars]. rewrite plain_app, IH, andb_true_r.
  destruct c as [[] [] [] [] [] [] [] []]; vm_compute; reflexivity.
Qed.

(** A reader's decoding of the four entities. *)
Definition ENTITIES : list (string * ascii) := [("&amp;", "&"%char); ("&lt;", "<"%char); ("&gt;", ">"%char); ("&quot;", QUOTE)].

Definition entity (s : string) : option (ascii * string) :=
  first_some (fun kv : string * ascii => match strip_prefix kv.1 s with Some rest => Some (kv.2, rest) | None => None end) ENTITIES.

Fixpoint unescape (fuel : nat) (s : string) : string :=
  match fuel, s with
  | S fuel', String c s' =>
      match entity s with
      | Some (d, rest) => String d (unescape fuel' rest)
      | None => String c (unescape fuel' s')
      end
  | _, _ => EmptyString
  end.

Lemma entity_escape c rest :
  match entity (escape_char c +:+ rest) with
  | Some (d, rest') => d = c /\ rest' = rest
  | None => escape_char c = String c EmptyString
  end.
Proof. destruct c as [[] [] [] [] [] [] [] []]; try (vm_compute; split; reflexivity); vm_compute; reflexivity. Qed.

Lemma escape_char_nonempty c : exists d t, escape_char c = String d t.
Proof. unfold escape_char. repeat case_match; by eexists _, _. Qed.

(** Escaped text, read by a browser, is the text. *)
Lemma unescape_escape s : unescape (String.length (escape s)) (escape s) = s.
Proof.
  rewrite escape_by_char. enough (H : forall n, (String.length (escape_chars s) <= n)%nat -> unescape n (escape_chars s) = s)
    by (by apply H). induction s as [|c s IH]; intros n Hn; [by destruct n|].
  cbn [escape_chars] in *. pose proof (entity_escape c (escape_chars s)) as He.
  destruct (escape_char_nonempty c) as (d & t & Hc). rewrite string_length_app, Hc in Hn. cbn [String.length] in Hn.
  destruct n as [|n]; [lia|].
  assert (Hs : exists d' t', escape_char c +:+ escape_chars s = String d' t') by (rewrite Hc; by eexists _, _).
  destruct Hs as (d' & t' & Hs). cbn [unescape]. rewrite Hs in *. cbn [unescape].
  destruct (entity (String d' t')) as [[d'' rest]|].
  - destruct He as [-> ->]. f_equal. apply IH. lia.
  - rewrite He in Hs. cbn in Hs. injection Hs as <- <-. f_equal. apply IH. lia.
Qed.
(** ** Plain pieces *)

Lemma all_chars_rev_app p a b : all_chars p (String.rev_app a b) = all_chars p a && all_chars p b.
Proof.
  revert b. induction a as [|c a IH]; intros b; [done|]. cbn [String.rev_app]. rewrite IH. cbn [all_chars].
  by destruct (p c), (all_chars p a).
Qed.
Lemma plain_rev s : plain (String.rev s) = plain s.
Proof. unfold plain, String.rev. rewrite all_chars_rev_app. apply andb_true_r. Qed.

Lemma plain_trim_start s : plain s = true -> plain (trim_start_dash s) = true.
Proof.
  induction s as [|c s IH]; [done|]. intros H. cbn [trim_start_dash]. destruct (Ascii.eqb c "-"%char); [|done].
  apply IH. unfold plain in *. cbn [all_chars] in H. by apply andb_prop in H as [_ H].
Qed.

Lemma plain_take n s : plain s = true -> plain (str_take n s) = true.
Proof.
  revert s. induction n as [|n IH]; intros [|c s]; try done. unfold plain in *. cbn [str_take all_chars].
  intros [-> Hs]%andb_prop. by apply IH.
Qed.
Lemma plain_drop n s : plain s = true -> plain (str_drop n s) = true.
Proof.
  revert s. induction n as [|n IH]; intros [|c s]; try done. unfold plain in *. cbn [str_drop all_chars].
  intros [_ Hs]%andb_prop. by apply IH.
Qed.

Lemma plain_replace fuel from to s : plain to = true -> plain s = true -> plain (replace_from fuel from to s) = true.
Proof.
  intros Ht. revert s. induction fuel as [|fuel IH]; intros s Hs; [done|]. cbn [replace_from].
  destruct (find_at from s) as [i|]; [|done]. by rewrite !plain_app, plain_take, Ht, IH by (done || by apply plain_drop).
Qed.

Lemma lower_alnum_plain c : is_ascii_alphanumeric c = true -> plain_char (ascii_lower c) = true.
Proof. destruct c as [[] [] [] [] [] [] [] []]; vm_compute; congruence. Qed.

Lemma plain_slug b path : plain (slug_from b path) = true.
Proof.
  revert b. induction path as [|c path IH]; intros b; [done|]. cbn [slug_from].
  destruct (is_ascii_alphanumeric c) eqn:E; [|destruct b; [apply IH|]]; unfold plain in *; cbn [all_chars].
  - by rewrite lower_alnum_plain, IH.
  - apply IH.
Qed.

Lemma endpoint_id_plain path : plain (endpoint_id path) = true.
Proof.
  unfold endpoint_id, replace_str. apply plain_replace; [done|]. unfold trim_dashes.
  rewrite plain_rev. apply plain_trim_start. rewrite plain_rev. apply plain_trim_start. rewrite plain_app. apply plain_slug.
Qed.

Lemma repeat_plain n s : plain s = true -> plain (repeat_str n s) = true.
Proof. intros Hs. induction n as [|n IH]; [done|]. cbn [repeat_str]. by rewrite plain_app, Hs. Qed.

Lemma fmt_number_plain n : plain (fmt_number n) = true.
Proof.
  unfold fmt_number. destruct (Z.ltb_spec n 0); [rewrite plain_app|]; rewrite decimal_markup_plain by lia; reflexivity.
Qed.
Lemma fmt_bool_plain b : plain (fmt_bool b) = true.
Proof. by destruct b. Qed.
Lemma pad2_plain n : 0 <= n -> plain (pad2 n) = true.
Proof. intros Hn. unfold pad2. destruct (n <? 10); [rewrite plain_app|]; rewrite decimal_markup_plain by done; reflexivity. Qed.
Lemma chip_class_plain code : plain (chip_class code) = true.
Proof. unfold chip_class. by repeat case_match. Qed.

Lemma method_plain m : m ∈ METHODS -> plain (method_class m) = true /\ plain (to_uppercase m) = true.
Proof.
  intros Hm. repeat (apply elem_of_cons in Hm as [->|Hm]; [split; vm_compute; reflexivity|]). by apply not_elem_of_nil in Hm.
Qed.

Create HintDb page.
#[export] Hint Resolve nested_empty nested_app nested_concat nested_plain escape_plain endpoint_id_plain
  repeat_plain fmt_number_plain fmt_bool_plain chip_class_plain : page.

(** Reading a fragment piece by piece: the generator's literals by computation, the rest
    by what is known of it. *)
Ltac read_piece :=
  match goal with
  | |- context [scan ?r (html ?l)] =>
      let v := eval vm_compute in (scan r (html l)) in
      replace (scan r (html l)) with v by (vm_compute; reflexivity)
  | |- context [scan ?r (String ?c ?l)] =>
      let v := eval vm_compute in (scan r (String c l)) in
      replace (scan r (String c l)) with v by (vm_compute; reflexivity)
  | |- context [scan (InQuote ?n, ?o) ?x] => rewrite (scan_quoted x n o) by auto with page
  | |- context [scan (InText, ?o) ?x] =>
      let H := fresh in assert (H : nested x) by auto with page; rewrite (H o); clear H
  end.
Ltac read := repeat (first [rewrite scan_app | read_piece]; cbn [mbind option_bind]); try done.
Ltac nest := let open := fresh "open" in intros open; read.

(** ** Texts and values *)

Lemma markdown_nested text : nested (markdown_lite text).
Proof.
  unfold markdown_lite. generalize (split_on "`"%char text) as l. generalize false as b. intros b l. revert b.
  induction l as [|s l IH]; intros b; [apply nested_empty|]. cbn [markdown_segments].
  apply nested_app; [|apply IH]. destruct b; [nest|auto with page].
Qed.

Lemma join_nested child items : plain child = true -> Forall nested items -> nested (join_items child items).
Proof.
  intros Hc. induction 1 as [|x l Hx Hl IH]; [apply nested_empty|]. cbn [join_items].
  assert (Hsep : nested (match l with [] => EmptyString | _ => html "<span class='p'>,</span>" end)) by (destruct l; nest).
  assert (Hnl : nested NL) by nest. auto 10 with page.
Qed.

Lemma json_ind_nested (P : Json -> Prop) :
  P JNull -> (forall b, P (JBool b)) -> (forall n, P (JNumber n)) -> (forall s, P (JString s)) ->
  (forall l, Forall P l -> P (JArray l)) -> (forall m, Forall (fun kv => P kv.2) m -> P (JObject m)) -> forall v, P v.
Proof.
  intros H1 H2 H3 H4 H5 H6. fix IH 1. intros [|b|n|s|l|m]; [exact H1|apply H2|apply H3|apply H4|apply H5|apply H6].
  - induction l as [|x l IHl]; constructor; [apply IH|exact IHl].
  - induction m as [|[k x] m IHm]; constructor; [apply IH|exact IHm].
Qed.

Lemma highlight_nested v indent : nested (highlight v indent).
Proof.
  revert indent. induction v as [|b|n|s|l IH|m IH] using json_ind_nested; intros indent; cbn [highlight]; [nest..| |].
  - destruct l as [|x l]; [nest|]. revert IH. generalize (x :: l) as items. intros items IH.
    assert (H : nested (join_items (repeat_str (S indent) "  ") (List.map (fun i => highlight i (S indent)) items))); [|nest].
    apply join_nested; [by apply repeat_plain|]. apply Forall_map. eapply Forall_impl; [exact IH|]. intros i Hi. apply Hi.
  - destruct m as [|kx m]; [nest|]. revert IH. generalize (kx :: m) as entries. intros entries IH.
    match goal with |- nested (_ +:+ join_items ?c ?items +:+ _) => assert (H : nested (join_items c items)); [|nest] end.
    apply join_nested; [by apply repeat_plain|]. apply Forall_map. eapply Forall_impl; [exact IH|]. intros [k v] Hv.
    specialize (Hv (S indent)). cbn [fst snd] in *. nest.
Qed.
#[export] Hint Resolve markdown_nested highlight_nested : page.
(** ** Tables and blocks *)

Lemma Forall_nested {A : Type} (f : A -> string) l : (forall x, x ∈ l -> nested (f x)) -> nested (concat_strings (f <$> l)).
Proof. intros H. apply nested_concat, Forall_fmap, Forall_forall. exact H. Qed.

Lemma row_nested row : nested (table_row row).
Proof. unfold table_row. destruct (r_required row); nest. Qed.

Lemma table_nested label rows : nested (param_table label rows).
Proof.
  unfold param_table. destruct rows as [|r rows]; [apply nested_empty|].
  assert (H : nested (concat_strings (table_row <$> r :: rows))) by (apply Forall_nested; intros; apply row_nested).
  nest.
Qed.
#[export] Hint Resolve table_nested : page.

Lemma params_nested params : nested (render_param_tables params).
Proof.
  unfold render_param_tables. destruct params as [params|]; [|apply nested_empty].
  apply Forall_nested. intros [kind label] _. auto with page.
Qed.

Lemma object_nested object label : nested (object_table object label).
Proof. unfold object_table. case_match; auto with page. Qed.

Lemma body_tables_nested doc op : nested (render_request_body_tables doc op).
Proof.
  unfold render_request_body_tables. case_match; [|apply nested_empty]. case_match; [|apply nested_empty].
  apply nested_app; [apply object_nested|]. case_match; [|apply nested_empty].
  apply Forall_nested. intros [name prop] _. case_match; [apply object_nested|apply nested_empty].
Qed.

Lemma code_block_nested label pre : nested pre -> nested (code_block label pre).
Proof. intros Hp. unfold code_block. nest. Qed.

Lemma card_nested doc r : plain (fst r) = true -> nested (status_card doc r).
Proof. destruct r as [code resp]. cbn [fst]. intros Hc. unfold status_card. nest. Qed.

Lemma grid_nested doc rs : (forall r, r ∈ rs -> plain (fst r) = true) -> nested (render_status_grid doc rs).
Proof.
  intros Hr. unfold render_status_grid. destruct rs as [|r rs]; [apply nested_empty|].
  assert (H : nested (concat_strings (status_card doc <$> r :: rs))) by (apply Forall_nested; intros; by apply card_nested, Hr).
  nest.
Qed.
#[export] Hint Resolve params_nested body_tables_nested code_block_nested grid_nested : page.

(** ** Endpoints *)

Lemma query_nested first names : nested (query_parts first names).
Proof.
  revert first. induction names as [|n names IH]; intros first; [apply nested_empty|]. cbn [query_parts].
  destruct first; nest; apply IH.
Qed.

Lemma path_nested ep : nested (endpoint_path_html ep).
Proof.
  unfold endpoint_path_html. apply nested_app; [auto with page|]. case_match; [apply nested_empty|].
  pose proof query_nested. nest.
Qed.
#[export] Hint Resolve path_nested : page.

Lemma meta_nested secured rs : (forall r, r ∈ rs -> plain (fst r) = true) -> nested (endpoint_meta secured rs).
Proof.
  intros Hr. unfold endpoint_meta. apply nested_app; [|destruct secured; nest].
  apply Forall_nested. intros r Hin. apply Hr in Hin. unfold chip. nest.
Qed.

Lemma body_nested doc ep secured rs : (forall r, r ∈ rs -> plain (fst r) = true) -> nested (endpoint_body doc ep secured rs).
Proof.
  intros Hr. unfold endpoint_body.
  assert (Ht : nested match operation_text (op ep) with
    | Some desc => html "          <p class='endpoint-desc'>" +:+ markdown_lite desc +:+ html "</p>^" | None => EmptyString end)
    by (destruct (operation_text (op ep)); [nest|apply nested_empty]).
  assert (Ha : nested (if secured then AUTH_NOTE else EmptyString)) by (destruct secured; nest).
  assert (He : nested match request_example doc (op ep) with
    | Some example => code_block "Request Body" (highlight example 0) | None => EmptyString end)
    by (destruct (request_example doc (op ep)); auto with page).
  assert (Hb : nested (concat_strings (response_block doc <$> rs))).
  { apply Forall_nested. intros r _. unfold response_block. destruct (content_example doc r.2); auto with page. }
  auto 12 with page.
Qed.

(** The response codes of an operation carry no markup; they are put in as they are. *)
Definition plain_codes (ep : Endpoint) : bool :=
  forallb (fun r : string * Json => plain (fst r)) (default [] (get_object "responses" (JObject (op ep)))).

Lemma sorted_plain ep r : plain_codes ep = true -> r ∈ sorted_responses (op ep) -> plain (fst r) = true.
Proof.
  intros Hc Hr. unfold sorted_responses in Hr. rewrite elem_of_sort_by in Hr.
  unfold plain_codes in Hc. rewrite List.forallb_forall in Hc. apply (Hc r), list_elem_of_In, Hr.
Qed.

Lemma endpoint_nested doc ep : method ep ∈ METHODS -> plain_codes ep = true -> nested (render_endpoint doc ep).
Proof.
  intros [Hm1 Hm2]%method_plain Hc. unfold render_endpoint.
  pose proof (meta_nested (bool_decide (is_Some (map_get "security" (op ep)))) _ (fun r => sorted_plain ep r Hc)) as Hmeta.
  pose proof (body_nested doc ep (bool_decide (is_Some (map_get "security" (op ep)))) _ (fun r => sorted_plain ep r Hc)) as Hbody.
  nest.
Qed.

Lemma operation_method doc ep : ep ∈ operations doc -> method ep ∈ METHODS.
Proof.
  rewrite operations_paths. intros Hin. apply list_elem_of_In, List.in_concat in Hin as (l & Hl & Hin).
  apply list_elem_of_In, list_elem_of_fmap in Hl as ([p item] & -> & _). apply list_elem_of_In in Hin.
  unfold operations_of in Hin. destruct (as_object item) as [o|]; [|by apply not_elem_of_nil in Hin].
  apply list_elem_of_omap in Hin as (m & Hm & Hs). apply bind_Some in Hs as (x & _ & [= <-]). exact Hm.
Qed.
Lemma section_nested doc i tag l :
  (forall ep, ep ∈ l -> method ep ∈ METHODS /\ plain_codes ep = true) -> nested (render_section doc i (tag, l)).
Proof.
  intros Hl. unfold render_section.
  assert (Hn : plain (pad2 (Z.of_nat i + 2)) = true) by (apply pad2_plain; lia).
  assert (Hf : plain match l with ep :: _ => endpoint_id (path ep) | [] => EmptyString end = true)
    by (destruct l; [done|apply endpoint_id_plain]).
  assert (He : nested (concat_strings ((fun ep => render_endpoint doc ep +:+ NL) <$> l))).
  { apply Forall_nested. intros ep Hep. destruct (Hl ep Hep). apply nested_app; [by apply endpoint_nested|nest]. }
  nest.
Qed.

Lemma nav_item_nested ep : method ep ∈ METHODS -> nested (nav_item ep).
Proof. intros [Hm1 Hm2]%method_plain. unfold nav_item. nest. Qed.

Lemma nav_section_nested tag l : (forall ep, ep ∈ l -> method ep ∈ METHODS) -> nested (nav_section (tag, l)).
Proof.
  intros Hl. unfold nav_section.
  assert (He : nested (concat_strings (nav_item <$> l))) by (apply Forall_nested; intros; by apply nav_item_nested, Hl).
  nest.
Qed.

(** ** Trimming *)

(** Text without markup does not lead into the text mode from another. *)
Lemma scan_plain_back w r open : plain w = true -> scan r w = Some (InText, open) -> r = (InText, open).
Proof.
  revert r. induction w as [|c w IH]; intros r; [by intros _ [= ->]|]. unfold plain. cbn [all_chars scan].
  intros [(H1 & H2 & H3)%plain_char_neq Hw]%andb_prop (r' & Hc & Hs)%bind_Some. apply (IH _ Hw) in Hs as ->.
  destruct r as [mode o]. cbn [read_char] in Hc. rewrite ?H1, ?H2, ?H3 in Hc.
  destruct mode as [|closing name|name|name]; [congruence| |done|done].
  destruct (_ && _ && _); [done|]. destruct (Ascii.eqb c " "%char); [by destruct closing|done].
Qed.

Lemma strip_all_plain ws fuel s :
  Forall (fun w => plain w = true) ws -> exists w, s = w +:+ strip_all ws fuel s /\ plain w = true.
Proof.
  intros Hws. revert s. induction fuel as [|fuel IH]; intros s; cbn [strip_all]; [by exists EmptyString|].
  destruct (first_some (fun w => strip_prefix w s) ws) as [s'|] eqn:E; [|by exists EmptyString].
  assert (Hw : exists w, w ∈ ws /\ strip_prefix w s = Some s').
  { clear -E. induction ws as [|w ws IH]; [done|]. cbn [first_some] in E. destruct (strip_prefix w s) eqn:Ew.
    - injection E as ->. exists w. split; [apply list_elem_of_here|done].
    - destruct (IH E) as (w' & Hw' & Hp). exists w'. split; [by apply list_elem_of_further|done]. }
  destruct Hw as (w & Hin & ->%strip_prefix_Some). destruct (IH s') as (w' & Hw' & Hp). exists (w +:+ w').
  split; [by rewrite string_app_assoc, <- Hw'|]. rewrite Forall_forall in Hws. by rewrite plain_app, (Hws w Hin).
Qed.

Lemma rev_app_spec a b : String.rev_app a b = String.rev a +:+ b.
Proof.
  unfold String.rev. revert b. induction a as [|c a IH]; intros b; [done|]. cbn [String.rev_app].
  rewrite (IH (String c b)), (IH (String c EmptyString)), string_app_assoc. done.
Qed.
Lemma rev_append a b : String.rev (a +:+ b) = String.rev b +:+ String.rev a.
Proof.
  induction a as [|c a IH]; cbn [String.append String.app].
  - symmetry. change (String.rev EmptyString) with EmptyString. induction (String.rev b); [done|]. cbn. by f_equal.
  - unfold String.rev at 1 3. cbn [String.rev_app]. rewrite !rev_app_spec, IH, string_app_assoc. done.
Qed.
Lemma rev_rev s : String.rev (String.rev s) = s.
Proof.
  induction s as [|c s IH]; [done|]. unfold String.rev at 2. cbn [String.rev_app]. by rewrite rev_app_spec, rev_append, IH.
Qed.

Lemma trim_end_spec s : exists w, s = trim_end s +:+ w /\ plain w = true.
Proof.
  unfold trim_end. destruct (strip_all_plain (String.rev <$> WHITE_SPACE) (String.length s) (String.rev s)) as (w & Hw & Hp).
  { refine (bool_decide_eq_true_1 _ _). vm_compute. reflexivity. }
  exists (String.rev w). split; [|by rewrite plain_rev]. rewrite <- rev_append, <- Hw. by rewrite rev_rev.
Qed.

Lemma nested_trim_end s : nested s -> nested (trim_end s).
Proof.
  intros Hs open. destruct (trim_end_spec s) as (w & Hw & Hp). specialize (Hs open). rewrite Hw, scan_app in Hs.
  apply bind_Some in Hs as (r & Hr & Hrw). by apply (scan_plain_back _ _ _ Hp) in Hrw as ->.
Qed.

(** The reference cannot be broken by what is documented: whatever the texts, names,
    schemas and examples of the documents say, the navigation and the sections put into
    the page open and close their tags in pairs, use only the generator's own tags, and
    leave the template around them as it was; the response codes, put in unescaped,
    must be free of markup. *)
Theorem reference_well_nested doc :
  forallb plain_codes (operations doc) = true -> nested (render_nav doc) /\ nested (render_endpoints doc).
Proof.
  intros Hc. rewrite List.forallb_forall in Hc.
  assert (Hg : forall tag l ep, (tag, l) ∈ endpoints_by_tag doc -> ep ∈ l -> method ep ∈ METHODS /\ plain_codes ep = true).
  { intros tag l ep Hl Hep. destruct (grouped_by_tag doc) as (_ & _ & Hof & _). destruct (Hof tag l Hl) as [-> _].
    apply list_elem_of_In in Hep. apply List.filter_In in Hep as [Hep _].
    split; [by eapply operation_method, list_elem_of_In|by apply Hc]. }
  split; apply nested_trim_end.
  - apply Forall_nested. intros [tag l] Hl. apply nav_section_nested. intros ep Hep. by eapply Hg.
  - apply nested_concat. apply List.Forall_forall. intros s [i Hi]%list_elem_of_In%list_elem_of_lookup_1.
    rewrite list_lookup_imap in Hi. apply bind_Some in Hi as ([tag l] & Hl & [= <-]).
    apply section_nested. intros ep Hep. eapply Hg; [by eapply list_elem_of_lookup_2|done].
Qed.

(** ** A concrete instance: a document full of markup *)

Module Demo.
Definition hostile : Json :=
  JObject [("paths", JObject [("/<script>", JObject [("get", JObject
    [("tags", JArray [JString "</div><b>"]); ("description", JString "a `<` b </p>");
     ("responses", JObject [("200", JObject [("description", JString "<i>");
        ("content", JObject [("application/json", JObject [("example", JObject [("<k>", JString "</pre>")])])])])])])])])].

Lemma reference_well_nested_witness :
  contains "&lt;script&gt;" (render_endpoints hostile) = true /\
  nested (render_nav hostile) /\ nested (render_endpoints hostile).
Proof. split; [vm_compute; reflexivity|]. apply reference_well_nested. vm_compute. reflexivity. Defined.
End Demo.
End ApiPageProps.
