(* ===== verification/PoolLock.v ===== *)
(** * PoolLock: the advisory locks between ticket-pool maintainers and between indexers

    [acquire_tick_lock], [TickGuard] and [TickLock] of [invite-tickets/src/pool.rs], over
    Postgres sessions and the connection pool of each maintainer, with any number of
    maintainers running the loop of [Tickets.v], and the lock of the username projection.  A maintainer in the middle of a tick
    holds the lock on a session of its own; of two in the middle of a tick, one has lost
    that session. *)

From stdpp Require Import gmap relations.
From S2P Require Import Prelude Strings Text Schema DeviceGate WriterLane Usernames Writer Tickets.
From S2P Require Import TicketClaims.

#[local] Open Scope string_scope.
#[local] Open Scope Z_scope.

Module PoolLock.
Import Tickets.

(** ** Session-level advisory locks

    The server is a parameter, with what Postgres documents of these locks: a lock
    belongs to a session, which may take it again and must then release it as often; the
    end of the session releases it. *)

Class Advisory := {
  Server : Type;
  no_sessions : Server;
  live : Server -> gset nat (** the sessions *);
  holder : Z -> Server -> option (nat * nat) (** of a key: the session, and how often *);
  open_session : nat -> Server -> Server;
  end_session : nat -> Server -> Server;
  pg_try_advisory_lock : Z -> nat -> Server -> bool * Server;
  pg_advisory_unlock : Z -> nat -> Server -> bool * Server }.

Class AdvisoryLaws `{Advisory} := {
  law_none : live no_sessions = ∅ /\ forall key, holder key no_sessions = None;
  law_open c s : live (open_session c s) = live s ∪ {[ c ]} /\ forall key, holder key (open_session c s) = holder key s;
  law_end c s :
    live (end_session c s) = live s ∖ {[ c ]} /\
    forall key, holder key (end_session c s) =
      match holder key s with Some (h, n) => if decide (h = c) then None else Some (h, n) | None => None end;
  law_try key c s :
    live (snd (pg_try_advisory_lock key c s)) = live s /\
    fst (pg_try_advisory_lock key c s) =
      match holder key s with Some (h, _) => bool_decide (h = c) | None => true end /\
    holder key (snd (pg_try_advisory_lock key c s)) =
      match holder key s with
      | None => Some (c, 1%nat)
      | Some (h, n) => if decide (h = c) then Some (c, S n) else Some (h, n)
      end;
  law_unlock key c s :
    live (snd (pg_advisory_unlock key c s)) = live s /\
    holder key (snd (pg_advisory_unlock key c s)) =
      match holder key s with
      | Some (h, n) => if decide (h = c) then match n with S (S n') => Some (c, S n') | _ => None end else Some (h, n)
      | None => None
      end }.

Section maintainers.
Context `{advisory : Advisory}.

(** ** The guard *)

Definition POOL_LOCK_KEY : Z := 0x14171CE70001.
Definition PROJECTION_LOCK_ID : Z := 0x757365726E616D65.

(** The answer of [acquire_tick_lock] once it has a connection: an error, or whether
    the guard was given. *)
Definition acquire_tick_lock (c : nat) (fate : DbFate) (s : Server) : option bool * Server :=
  let '(locked, s') := pg_try_advisory_lock POOL_LOCK_KEY c s in
  match fate with
  | Fine => (Some locked, s')
  | Refused => (None, s)
  | AckLost => (None, s')
  end.

(** [TickLock::release]: what the statement answers is dropped. *)
Definition release (c : nat) (fate : DbFate) (s : Server) : Server :=
  match fate with Refused => s | _ => snd (pg_advisory_unlock POOL_LOCK_KEY c s) end.

(** [username-indexer/src/incremental.rs]: the connection of the projection's lock is
    closed when it is dropped, and with it its session, whatever the try answered. *)
Definition try_projection_lock (c : nat) (fate : DbFate) (s : Server) : option bool * Server :=
  let '(acquired, s') := pg_try_advisory_lock PROJECTION_LOCK_ID c s in
  match fate with
  | Fine => if acquired then (Some true, s') else (Some false, end_session c s')
  | Refused => (None, end_session c s)
  | AckLost => (None, end_session c s')
  end.

Definition drop_projection_lock (c : nat) (s : Server) : Server := end_session c s.

(** A maintainer: where its loop is, its guard, the idle connections of its pool, and
    the connections of dropped guards whose release has not run. *)
Record Maintainer := {
  prog : Prog (option (list (Dim * Z)));
  guard : option nat;
  idle : gset nat;
  releasing : gset nat }.

(** [run_loop] drops the guard once the pools are served, before it sleeps; a panic
    drops it as well. *)
Definition past_guard (p : Prog (option (list (Dim * Z)))) : bool :=
  match p with Sleep _ _ | Ret _ => true | _ => false end.

Definition drop_guard (m : Maintainer) : option Maintainer :=
  match guard m with
  | Some c =>
      if past_guard (prog m) then
        Some {| prog := prog m; guard := None; idle := idle m; releasing := releasing m ∪ {[ c ]} |}
      else None
  | None => None
  end.

(** The statements of a tick. *)
Definition ticking (p : Prog (option (list (Dim * Z)))) : bool :=
  match p with Count _ _ _ | Insert _ _ _ _ _ _ | Submit _ _ _ _ | FillBytes _ => true | _ => false end.

Record Pools := { server : Server; tworld : TWorld; next : nat; maintainers : list Maintainer }.

Inductive Move :=
| Open (i : nat) (** the pool of a maintainer connects *)
| NoConnection (i : nat)
| Try (i c : nat) (fate : DbFate)
| Work (i : nat) (choice : Choice)
| DropGuard (i : nat)
| Release (i c : nat) (fate : DbFate)
| End (c : nat) (** a session ends: the connection breaks, the pool closes it, the server restarts *)
| Restart (i : nat).

Section loops.
Context (cr : TicketCrates) (identity : InviterIdentity) (dims : list Dim) (network : Network).
Context (tuning : PoolTuning) (rounds : nat).

(** A maintainer as its process starts. *)
Definition fresh_maintainer : Maintainer :=
  {| prog := run_loop cr identity dims network tuning rounds; guard := None; idle := ∅; releasing := ∅ |}.

Definition with_prog (p : Prog (option (list (Dim * Z)))) (m : Maintainer) : Maintainer :=
  {| prog := p; guard := guard m; idle := idle m; releasing := releasing m |}.

Definition with_maintainer (i : nat) (m : Maintainer) (s : Pools) : Pools :=
  {| server := server s; tworld := tworld s; next := next s; maintainers := <[ i := m ]> (maintainers s) |}.

Definition with_server (srv : Server) (s : Pools) : Pools :=
  {| server := srv; tworld := tworld s; next := next s; maintainers := maintainers s |}.

(** A statement on a connection whose session has ended fails. *)
Definition reaches (c : nat) (fate : DbFate) (s : Server) : bool :=
  match fate with Refused => true | _ => bool_decide (c ∈ live s) end.

(** The try on an idle connection, which goes back to the pool unless the guard keeps
    it. *)
Definition try_lock (c : nat) (fate : DbFate) (k : option bool -> Prog (option (list (Dim * Z))))
    (m : Maintainer) (srv : Server) : Maintainer * Server :=
  let '(answer, srv') := acquire_tick_lock c fate srv in
  (match answer with
   | Some true => {| prog := k answer; guard := Some c; idle := idle m ∖ {[ c ]}; releasing := releasing m |}
   | _ => with_prog (k answer) m
   end, srv').

Definition exec (mv : Move) (s : Pools) : option Pools :=
  match mv with
  | Open i =>
      m ← maintainers s !! i;
      let m' := {| prog := prog m; guard := guard m; idle := idle m ∪ {[ next s ]}; releasing := releasing m |} in
      Some {| server := open_session (next s) (server s);
              tworld := tworld s; next := S (next s); maintainers := <[ i := m' ]> (maintainers s) |}
  | NoConnection i =>
      m ← maintainers s !! i;
      match prog m with TryLock k => Some (with_maintainer i (with_prog (k None) m) s) | _ => None end
  | Try i c fate =>
      m ← maintainers s !! i;
      match prog m with
      | TryLock k =>
          if bool_decide (c ∈ idle m) && reaches c fate (server s) then
            let '(m', srv') := try_lock c fate k m (server s) in
            Some (with_server srv' (with_maintainer i m' s))
          else None
      | _ => None
      end
  | Work i choice =>
      m ← maintainers s !! i;
      if ticking (prog m) || (past_guard (prog m) && bool_decide (guard m = None)) then
        match advance choice (tworld s) (prog m) with
        | Some (w', p') =>
            Some {| server := server s; tworld := w'; next := next s;
                    maintainers := <[ i := with_prog p' m ]> (maintainers s) |}
        | None => None
        end
      else None
  | DropGuard i =>
      m ← maintainers s !! i; m' ← drop_guard m; Some (with_maintainer i m' s)
  | Release i c fate =>
      m ← maintainers s !! i;
      if bool_decide (c ∈ releasing m) && reaches c fate (server s) then
        Some (with_server (release c fate (server s))
               (with_maintainer i
                 {| prog := prog m; guard := guard m; idle := idle m ∪ {[ c ]}; releasing := releasing m ∖ {[ c ]} |} s))
      else None
  | End c => Some (with_server (end_session c (server s)) s)
  | Restart i =>
      _ ← maintainers s !! i; Some (with_maintainer i fresh_maintainer s)
  end.

(** The lock statements of live sessions that fail: a try whose answer is lost, an
    unlock that does not run. *)
Definition lock_fault (mv : Move) (s : Pools) : bool :=
  match mv with
  | Try _ _ AckLost => true
  | Release _ c Refused => bool_decide (c ∈ live (server s))
  | _ => false
  end.

(** A step of the maintainers; without [faults] the lock statements do not fail. *)
Inductive step (faults : bool) : Pools -> Pools -> Prop :=
| step_move mv s s' : lock_fault mv s = false \/ faults = true -> exec mv s = Some s' -> step faults s s'.

Definition start_pools (n : nat) (w : TWorld) : Pools :=
  {| server := no_sessions; tworld := w; next := 0; maintainers := replicate n fresh_maintainer |}.
End loops.
End maintainers.

(** ** A server of the laws *)

Module Postgres.
Record Sessions := { alive : gset nat; locks : gmap Z (nat * nat) }.

Definition with_lock (key : Z) (v : option (nat * nat)) (s : Sessions) : Sessions :=
  {| alive := alive s; locks := match v with Some hn => <[ key := hn ]> (locks s) | None => delete key (locks s) end |}.

Definition try_advisory (key : Z) (c : nat) (s : Sessions) : bool * Sessions :=
  match locks s !! key with
  | None => (true, with_lock key (Some (c, 1%nat)) s)
  | Some (h, n) => if decide (h = c) then (true, with_lock key (Some (c, S n)) s) else (false, s)
  end.

Definition unlock_advisory (key : Z) (c : nat) (s : Sessions) : bool * Sessions :=
  match locks s !! key with
  | Some (h, n) =>
      if decide (h = c) then (true, with_lock key (match n with S (S n') => Some (c, S n') | _ => None end) s) else (false, s)
  | None => (false, s)
  end.

#[export] Instance postgres : Advisory :=
  {| Server := Sessions; no_sessions := {| alive := ∅; locks := ∅ |}; live := alive; holder := fun key s => locks s !! key;
     open_session := fun c s => {| alive := alive s ∪ {[ c ]}; locks := locks s |};
     end_session := fun c s => {| alive := alive s ∖ {[ c ]}; locks := filter (fun kv => kv.2.1 <> c) (locks s) |};
     pg_try_advisory_lock := try_advisory; pg_advisory_unlock := unlock_advisory |}.

#[export] Instance postgres_laws : AdvisoryLaws.
Proof.
  split; [done|done| | |]; cbn.
  - intros c s. split; [done|]. intros key. rewrite map_lookup_filter. destruct (locks s !! key) as [[h n]|]; [|done]. cbn.
    destruct (decide (h = c)) as [->|Hne]; [rewrite option_guard_False; [done|tauto]|by rewrite option_guard_True].
  - intros key c s. unfold try_advisory. destruct (locks s !! key) as [[h n]|] eqn:E; [destruct (decide (h = c))|]; cbn;
      rewrite ?lookup_insert_eq, ?E; repeat split; try done; symmetry; [by apply bool_decide_eq_true|by apply bool_decide_eq_false].
  - intros key c s. unfold unlock_advisory. destruct (locks s !! key) as [[h n]|] eqn:E; [destruct (decide (h = c))|]; cbn;
      [|by rewrite E..]. split; [done|]. destruct n as [|[|n]]; cbn; by rewrite ?lookup_insert_eq, ?lookup_delete_eq.
Qed.
End Postgres.
End PoolLock.
