(* ===== verification/PoolLockProps.v ===== *)
(** * PoolLockProps: the ticket-pool maintainers exclude one another *)

From stdpp Require Import gmap relations.
From S2P Require Import Prelude Strings Text Schema DeviceGate WriterLane Usernames Writer Tickets.
From S2P Require Import TicketClaims PoolLock.

#[local] Open Scope string_scope.
#[local] Open Scope Z_scope.

Module PoolLockProps.
Import Tickets PoolLock.

Section laws.
Context `{advisory : Advisory} {laws : AdvisoryLaws}.

(** ** The lock of the server *)

#[local] Abbreviation KEY := POOL_LOCK_KEY.

Lemma try_live key c s : live (snd (pg_try_advisory_lock key c s)) = live s.
Proof. apply law_try. Qed.

Lemma unlock_live key c s : live (snd (pg_advisory_unlock key c s)) = live s.
Proof. apply law_unlock. Qed.

Lemma end_live c s : live (end_session c s) = live s ∖ {[ c ]}.
Proof. apply law_end. Qed.

Lemma try_taken c s : fst (pg_try_advisory_lock KEY c s) = true ->
  exists n, holder KEY (snd (pg_try_advisory_lock KEY c s)) = Some (c, S n).
Proof.
  destruct (law_try KEY c s) as (_ & -> & ->). destruct (holder KEY s) as [[h n]|]; [|by eauto].
  intros ->%bool_decide_eq_true. rewrite decide_True by done. eauto.
Qed.

Lemma try_other key c d n s : holder key s = Some (d, n) -> d <> c -> holder key (snd (pg_try_advisory_lock key c s)) = Some (d, n).
Proof. intros Hd Hne. destruct (law_try key c s) as (_ & _ & H2). by rewrite H2, Hd, decide_False. Qed.

Lemma unlock_other c d n s : holder KEY s = Some (d, n) -> d <> c -> holder KEY (snd (pg_advisory_unlock KEY c s)) = Some (d, n).
Proof. intros Hd Hne. destruct (law_unlock KEY c s) as [_ H2]. by rewrite H2, Hd, decide_False. Qed.

Lemma end_other c d n s : holder KEY s = Some (d, n) -> d <> c -> holder KEY (end_session c s) = Some (d, n).
Proof. intros H Hd. destruct (law_end c s) as [_ ->]. by rewrite H, decide_False. Qed.

Lemma end_inv c d n s : holder KEY (end_session c s) = Some (d, n) -> holder KEY s = Some (d, n) /\ d <> c.
Proof. destruct (law_end c s) as [_ ->]. destruct (holder KEY s) as [[h k]|]; [|done]. by destruct (decide (h = c)); [|intros [= <- <-]]. Qed.

(** The projection's lock is not left behind, whatever fails: a try that did not give it,
    and a lock that was dropped, leave the lock as it was if another session had it, and
    free otherwise, when the session was a fresh one. *)
Lemma projection_lock_not_left c fate s answer s' :
  (forall n, holder PROJECTION_LOCK_ID s <> Some (c, n)) ->
  try_projection_lock c fate s = (answer, s') ->
  let after := match answer with Some true => drop_projection_lock c s' | _ => s' end in
  holder PROJECTION_LOCK_ID after = holder PROJECTION_LOCK_ID s /\ (c ∉ live after).
Proof.
  intros Hnot Ht. cbn zeta.
  assert (Hend : forall srv, holder PROJECTION_LOCK_ID srv = holder PROJECTION_LOCK_ID s \/
                             holder PROJECTION_LOCK_ID s = None /\ (exists n, holder PROJECTION_LOCK_ID srv = Some (c, n)) ->
    holder PROJECTION_LOCK_ID (end_session c srv) = holder PROJECTION_LOCK_ID s /\ (c ∉ live (end_session c srv))).
  { intros srv Hs. destruct (law_end c srv) as [-> ->]. split; [|set_solver]. destruct Hs as [->|[-> [n ->]]]; [|by rewrite decide_True].
    destruct (holder PROJECTION_LOCK_ID s) as [[h n]|]; [|done]. rewrite decide_False; [done|]. intros ->. by apply (Hnot n). }
  assert (Htry : holder PROJECTION_LOCK_ID (snd (pg_try_advisory_lock PROJECTION_LOCK_ID c s)) = holder PROJECTION_LOCK_ID s \/
    holder PROJECTION_LOCK_ID s = None /\ exists n, holder PROJECTION_LOCK_ID (snd (pg_try_advisory_lock PROJECTION_LOCK_ID c s)) = Some (c, n)).
  { destruct (holder PROJECTION_LOCK_ID s) as [[h n]|] eqn:E; [left; apply try_other; [done|by intros ->; destruct (Hnot n)]|].
    right. split; [done|]. destruct (law_try PROJECTION_LOCK_ID c s) as (_ & _ & H2). rewrite H2, E. eauto. }
  unfold try_projection_lock in Ht. destruct (pg_try_advisory_lock PROJECTION_LOCK_ID c s) as [acquired srv]. cbn [snd] in Htry.
  destruct fate; [destruct acquired| |]; injection Ht as <- <-; apply Hend; [done|done|by left|done].
Qed.

(** ** Where the loop of a maintainer holds the guard *)

Fixpoint phase (held : bool) (p : Prog (option (list (Dim * Z)))) : Prop :=
  match p with
  | Ret _ => True
  | Sleep _ p' => phase false p'
  | TryLock k => held = false /\ phase false (k None) /\ phase false (k (Some false)) /\ phase true (k (Some true))
  | Count _ _ k => held = true /\ forall a, phase true (k a)
  | Insert _ _ _ _ _ k => held = true /\ forall a, phase true (k a)
  | Submit _ _ _ k => held = true /\ forall a, phase true (k a)
  | FillBytes k => held = true /\ forall a, phase true (k a)
  | Claim _ _ _ _ _ => False
  end.

Section phases.
Context (cr : TicketCrates) (identity : InviterIdentity) (network : Network) (tuning : PoolTuning).

Lemma generate_phase n acc k : (forall r, phase true (k r)) -> phase true (generate cr n acc k).
Proof.
  intros Hk. revert acc. induction n as [|n IH]; intros acc; cbn [generate]; [apply Hk|].
  split; [done|]. intros seed. destruct (from_stored_secret cr seed); [apply IH|apply Hk].
Qed.

Lemma insert_accepted_phase dim items index generated inserted k :
  (forall r, phase true (k r)) -> phase true (insert_accepted cr identity dim network items index generated inserted k).
Proof.
  intros Hk. revert index inserted. induction generated as [|[kp seed] rest IH]; intros index inserted;
    cbn [insert_accepted]; [apply Hk|].
  destruct (item_accepted items index); [|apply IH]. split; [done|]. intros []; [apply IH|apply Hk].
Qed.

Lemma tick_pool_phase dim size k : (forall r, phase true (k r)) -> phase true (tick_pool cr identity dim network tuning size k).
Proof.
  intros Hk. unfold tick_pool. split; [done|]. intros [available|]; [|apply Hk].
  destruct (_ =? 0); [apply Hk|]. apply generate_phase. intros [generated|]; [|apply Hk].
  split; [done|]. intros [items|]; [|apply Hk]. apply insert_accepted_phase. intros [inserted|]; apply Hk.
Qed.

Lemma tick_pools_phase sizes acc k : (forall r, phase true (k r)) -> phase true (tick_pools cr identity network tuning sizes acc k).
Proof.
  intros Hk. revert acc. induction sizes as [|[dim size] rest IH]; intros acc; cbn [tick_pools]; [apply Hk|].
  apply tick_pool_phase. intros []; [apply IH|apply IH|apply Hk].
Qed.

Lemma run_rounds_phase rounds sizes : phase false (run_rounds cr identity network tuning rounds sizes).
Proof.
  revert sizes. induction rounds as [|rounds IH]; intros sizes; [done|]. cbn [run_rounds].
  split; [done|]. split; [apply IH|]. split; [apply IH|]. apply tick_pools_phase. intros [sizes'|]; [apply IH|done].
Qed.
End phases.

Lemma phase_ticking held p : phase held p -> ticking p = true -> held = true.
Proof. destruct p; try done; by intros []. Qed.

Lemma phase_advance held p choice w w' p' :
  phase held p -> ticking p = true \/ past_guard p = true /\ held = false ->
  advance choice w p = Some (w', p') -> phase held p'.
Proof.
  intros Hp Hor Ha. destruct p; try (destruct Hp as [Hh' Hp]; subst held); destruct choice; cbn in Ha; try done;
    repeat case_match; simplify_eq; try apply Hp; destruct Hor as [Ht|[Ht Hh]]; try done; by subst.
Qed.
(** ** The invariant *)

Definition conns (m : Maintainer) : gset nat :=
  match guard m with Some c => {[ c ]} | None => ∅ end ∪ idle m ∪ releasing m.

Definition held (m : Maintainer) : bool := bool_decide (is_Some (guard m)).

(** The guard is of a connection used for nothing else, and as long as its session lives
    the lock is that session's. *)
Record maint_ok (srv : Server) (nxt : nat) (m : Maintainer) : Prop := {
  mo_bound : forall c, c ∈ conns m -> (c < nxt)%nat;
  mo_phase : phase (held m) (prog m);
  mo_apart : idle m ## releasing m;
  mo_guard : forall c, guard m = Some c -> (c ∉ idle m) /\ (c ∉ releasing m);
  mo_lock : forall c, guard m = Some c -> c ∈ live srv -> exists n, holder KEY srv = Some (c, S n) }.

Record pools_ok (s : Pools) : Prop := {
  po_live : forall c, c ∈ live (server s) -> (c < next s)%nat;
  po_each : forall i m, maintainers s !! i = Some m -> maint_ok (server s) (next s) m;
  po_apart : forall i j mi mj, maintainers s !! i = Some mi -> maintainers s !! j = Some mj -> i <> j ->
    conns mi ## conns mj }.

(** What a server may do to the lock of a session it was not asked about. *)
Definition spares (who : nat -> Prop) (nxt : nat) (srv srv' : Server) : Prop :=
  forall c, (c < nxt)%nat -> ~ who c -> c ∈ live srv' ->
    c ∈ live srv /\ forall n, holder KEY srv = Some (c, n) -> holder KEY srv' = Some (c, n).

Lemma maint_ok_frame srv nxt m srv' nxt' (who : nat -> Prop) :
  maint_ok srv nxt m -> (nxt <= nxt')%nat -> spares who nxt srv srv' ->
  (forall c, guard m = Some c -> ~ who c) -> maint_ok srv' nxt' m.
Proof.
  intros [Hb Hp Ha Hg Hl] Hn Hs Hw. split; [|done..|].
  - intros c Hc. specialize (Hb c Hc). lia.
  - intros c Hc Hlive. destruct (Hs c) as [Hlive' Hlk]; [|by apply Hw|done|].
    { apply Hb. unfold conns. rewrite Hc. set_solver. }
    destruct (Hl c Hc Hlive') as [n Hn']. eauto.
Qed.

(** A step of one maintainer: its connections are those it had and new ones, and the
    server is asked about those only. *)
Lemma pools_ok_update i m m' s s' :
  pools_ok s -> maintainers s !! i = Some m -> maintainers s' = <[ i := m' ]> (maintainers s) ->
  (next s <= next s')%nat -> (forall c, c ∈ live (server s') -> (c < next s')%nat) ->
  (forall c, c ∈ conns m' -> c ∈ conns m \/ (next s <= c)%nat) ->
  spares (fun c => c ∈ conns m) (next s) (server s) (server s') ->
  maint_ok (server s') (next s') m' -> pools_ok s'.
Proof.
  intros [Hlv Hea Hap] Hi Hms Hn Hlv' Hc Hs Hm. split; [done| |]; rewrite Hms.
  - intros j mj Hj. destruct (decide (i = j)) as [->|Hij].
    + rewrite list_lookup_insert_eq in Hj by (by eapply lookup_lt_Some). by injection Hj as <-.
    + rewrite list_lookup_insert_ne in Hj by done. eapply maint_ok_frame; [by eapply Hea|done|exact Hs|].
      intros c Hg. specialize (Hap _ _ _ _ Hi Hj Hij). unfold conns at 2 in Hap. rewrite Hg in Hap. set_solver.
  - assert (Hone : forall j mj, maintainers s !! j = Some mj -> i <> j -> conns m' ## conns mj).
    { intros j mj Hj Hij. specialize (Hap _ _ _ _ Hi Hj Hij). intros c H1 H2. destruct (Hc c H1) as [H3|H3]; [set_solver|].
      pose proof (mo_bound _ _ _ (Hea _ _ Hj) c H2). lia. }
    intros j l mj ml Hj Hl Hjl. destruct (decide (i = j)) as [->|Hij]; [|destruct (decide (i = l)) as [->|Hil]].
    + rewrite list_lookup_insert_eq in Hj by (by eapply lookup_lt_Some). injection Hj as <-.
      rewrite list_lookup_insert_ne in Hl by done. eauto.
    + rewrite list_lookup_insert_eq in Hl by (by eapply lookup_lt_Some). injection Hl as <-.
      rewrite list_lookup_insert_ne in Hj by done. symmetry. eauto.
    + rewrite list_lookup_insert_ne in Hj, Hl by done. eauto.
Qed.

Lemma spares_refl who nxt srv : spares who nxt srv srv.
Proof. by intros c. Qed.

Lemma spares_try c m nxt srv : c ∈ conns m -> spares (fun c => c ∈ conns m) nxt srv (snd (pg_try_advisory_lock KEY c srv)).
Proof.
  intros Hc d Hd Hnot Hl. rewrite try_live in Hl. split; [done|]. intros n Hn. apply try_other; [done|]. by intros ->.
Qed.

Lemma spares_unlock c m nxt srv : c ∈ conns m -> spares (fun c => c ∈ conns m) nxt srv (snd (pg_advisory_unlock KEY c srv)).
Proof.
  intros Hc d Hd Hnot Hl. rewrite unlock_live in Hl. split; [done|]. intros n Hn. apply unlock_other; [done|]. by intros ->.
Qed.

Lemma spares_open who nxt srv :
  spares who nxt srv (open_session nxt srv).
Proof.
  intros c Hc _ Hl. destruct (law_open nxt srv) as [Ho Hk]. rewrite Ho in Hl. split; [|by intros n; rewrite Hk].
  apply elem_of_union in Hl as [?|Hl]; [done|]. apply elem_of_singleton in Hl. lia.
Qed.

Section steps.
Context (cr : TicketCrates) (identity : InviterIdentity) (dims : list Dim) (network : Network).
Context (tuning : PoolTuning) (rounds : nat).

#[local] Abbreviation exec := (exec cr identity dims network tuning rounds).
#[local] Abbreviation step := (step cr identity dims network tuning rounds).
#[local] Abbreviation fresh := (fresh_maintainer cr identity dims network tuning rounds).

Lemma fresh_ok srv nxt : maint_ok srv nxt fresh.
Proof. split; try done. apply run_rounds_phase. Qed.

Lemma open_ok i s s' : pools_ok s -> exec (Open i) s = Some s' -> pools_ok s'.
Proof.
  intros Hok H. cbn in H. apply bind_Some in H as (m & Hi & [= <-]). pose proof (po_each _ Hok _ _ Hi) as [Hb Hp Ha Hg Hl].
  destruct (law_open (next s) (server s)) as [Ho Hk].
  eapply (pools_ok_update i m); [done|done|reflexivity|cbn; lia| | | |]; cbn.
  - intros c Hc. rewrite Ho in Hc. apply elem_of_union in Hc as [Hc|Hc]; [apply (po_live _ Hok) in Hc; lia|apply elem_of_singleton in Hc; lia].
  - intros c Hc. unfold conns in *. cbn in Hc. apply elem_of_union in Hc as [Hc|Hc]; [|set_solver].
    apply elem_of_union in Hc as [Hc|Hc]; [set_solver|]. apply elem_of_union in Hc as [Hc|Hc]; [set_solver|].
    apply elem_of_singleton in Hc. lia.
  - apply spares_open.
  - assert (Hnew : forall c, c ∈ conns m -> c <> next s) by (intros c Hc ->; apply Hb in Hc; lia).
    unfold conns in Hb, Hnew. split; cbn.
    + intros c. unfold conns. cbn. intros Hc. destruct (decide (c = next s)) as [->|]; [lia|].
      specialize (Hb c ltac:(set_solver)). lia.
    + done.
    + intros c Hc Hr. destruct (decide (c = next s)) as [->|]; [by apply (Hnew (next s)); [set_solver|]|]. set_solver.
    + intros c Hc. destruct (Hg c Hc). split; [|done]. intros Hin. apply elem_of_union in Hin as [?|Hin]; [done|].
      apply elem_of_singleton in Hin as ->. apply (Hnew (next s)); [|done]. rewrite Hc. set_solver.
    + intros c Hc Hlive. rewrite Hk. rewrite Ho in Hlive. apply Hl; [done|]. apply elem_of_union in Hlive as [?|Hin]; [done|].
      apply elem_of_singleton in Hin as ->. exfalso. apply (Hnew (next s)); [|done]. rewrite Hc. set_solver.
Qed.

Lemma with_prog_ok srv nxt m p : maint_ok srv nxt m -> phase (held m) p -> maint_ok srv nxt (with_prog p m).
Proof. intros [Hb Hp Ha Hg Hl] Hph. by split. Qed.

Lemma no_connection_ok i s s' : pools_ok s -> exec (NoConnection i) s = Some s' -> pools_ok s'.
Proof.
  intros Hok H. cbn in H. apply bind_Some in H as (m & Hi & H). pose proof (po_each _ Hok _ _ Hi) as Hm.
  destruct (prog m) as [| | | | | |k|] eqn:Ep; try done. injection H as <-.
  eapply (pools_ok_update i m); [done|done|reflexivity|done|apply Hok|by left|apply spares_refl|].
  apply with_prog_ok; [done|]. pose proof (mo_phase _ _ _ Hm) as Hp. rewrite Ep in Hp. destruct Hp as (-> & Hp & _). done.
Qed.

Lemma try_ok i c fate s s' : pools_ok s -> exec (Try i c fate) s = Some s' -> pools_ok s'.
Proof.
  intros Hok H. cbn in H. apply bind_Some in H as (m & Hi & H). pose proof (po_each _ Hok _ _ Hi) as Hm.
  destruct (prog m) as [| | | | | |k|] eqn:Ep; try done.
  pose proof (mo_phase _ _ _ Hm) as Hp. rewrite Ep in Hp. destruct Hp as (Hh & Hp1 & Hp2 & Hp3).
  destruct (bool_decide (c ∈ idle m)) eqn:Ec; [|done]. apply bool_decide_eq_true in Ec.
  assert (Hin : c ∈ conns m) by (unfold conns; set_solver).
  assert (Hng : guard m = None) by (apply bool_decide_eq_false in Hh; by destruct (guard m); [destruct Hh; eexists|]).
  destruct (reaches c fate (server s)); [|done]. cbn [andb] in H. unfold try_lock, acquire_tick_lock in H.
  pose proof (spares_try c m (next s) (server s) Hin) as Hsp. pose proof (try_live KEY c (server s)) as Hlv.
  pose proof (try_taken c (server s)) as Htk.
  destruct (pg_try_advisory_lock KEY c (server s)) as [locked srv'] eqn:Et. cbn [fst snd] in *.
  assert (Hst : forall srv1 p, srv1 = server s \/ srv1 = srv' -> phase false p ->
    pools_ok (with_server srv1 (with_maintainer i (with_prog p m) s))).
  { intros srv1 p Hsrv Hph. eapply (pools_ok_update i m); [done|done|reflexivity|done| |by left| |]; cbn.
    - destruct Hsrv as [->| ->]; [|rewrite Hlv]; apply Hok.
    - destruct Hsrv as [->| ->]; [apply spares_refl|done].
    - apply with_prog_ok; [|by rewrite Hh]. destruct Hm as [Hb Hp Ha Hg Hl]. split; [done..|]. intros d Hd. congruence. }
  destruct fate; cbn in H; [destruct locked| |]; injection H as <-; [|apply Hst; [tauto|]; done..].
  eapply (pools_ok_update i m); [done|done|reflexivity|done|by cbn; rewrite Hlv; apply Hok| |done|]; cbn.
  - intros d Hd. left. unfold conns in *. cbn in Hd. set_solver.
  - destruct Hm as [Hb Hp Ha Hg Hl]. split; cbn.
    + intros d Hd. apply Hb. unfold conns in *. cbn in Hd. set_solver.
    + done.
    + set_solver.
    + intros d [= <-]. set_solver.
    + intros d [= <-] _. by apply Htk.
Qed.

Lemma work_ok i choice s s' : pools_ok s -> exec (Work i choice) s = Some s' -> pools_ok s'.
Proof.
  intros Hok H. cbn in H. apply bind_Some in H as (m & Hi & H). pose proof (po_each _ Hok _ _ Hi) as Hm.
  destruct (ticking (prog m) || past_guard (prog m) && bool_decide (guard m = None)) eqn:Eg; [|done].
  destruct (advance choice (tworld s) (prog m)) as [[w' p']|] eqn:Ea; [|done]. injection H as <-.
  eapply (pools_ok_update i m); [done|done|reflexivity|done|apply Hok|by left|apply spares_refl|].
  apply with_prog_ok; [done|]. eapply phase_advance; [apply Hm| |exact Ea].
  apply orb_true_iff in Eg as [Ht|[Hp Hg]%andb_true_iff]; [by left|right]. split; [done|].
  apply bool_decide_eq_true in Hg. unfold held. by rewrite Hg.
Qed.

Lemma drop_ok i s s' : pools_ok s -> exec (DropGuard i) s = Some s' -> pools_ok s'.
Proof.
  intros Hok H. cbn in H. apply bind_Some in H as (m & Hi & H). apply bind_Some in H as (m' & Hd & [= <-]).
  pose proof (po_each _ Hok _ _ Hi) as Hm. unfold drop_guard in Hd.
  destruct (guard m) as [c|] eqn:Eg; [|done]. destruct (past_guard (prog m)) eqn:Ep; [|done]. injection Hd as <-.
  eapply (pools_ok_update i m); [done|done|reflexivity|done|apply Hok| |apply spares_refl|].
  - intros d Hd. left. unfold conns in *. rewrite Eg. cbn in Hd. set_solver.
  - destruct Hm as [Hb Hp Ha Hg Hl]. destruct (Hg c Eg). split; cbn; [|by destruct (prog m)|set_solver|done..].
    intros d Hd. apply Hb. unfold conns in *. rewrite Eg. cbn in Hd. set_solver.
Qed.

Lemma release_ok i c fate s s' : pools_ok s -> exec (Release i c fate) s = Some s' -> pools_ok s'.
Proof.
  intros Hok H. cbn in H. apply bind_Some in H as (m & Hi & H). pose proof (po_each _ Hok _ _ Hi) as Hm.
  destruct (bool_decide (c ∈ releasing m)) eqn:Ec; [|done]. apply bool_decide_eq_true in Ec.
  destruct (reaches c fate (server s)); [|done]. injection H as <-.
  assert (Hin : c ∈ conns m) by (unfold conns; set_solver).
  assert (Hlv : live (release c fate (server s)) = live (server s)) by (destruct fate; [apply unlock_live|done|apply unlock_live]).
  destruct Hm as [Hb Hp Ha Hg Hl]. eapply (pools_ok_update i m); [done|done|reflexivity|done| | | |]; cbn.
  - rewrite Hlv. apply Hok.
  - intros d Hd. left. unfold conns in *. cbn in Hd. set_solver.
  - destruct fate; [by apply spares_unlock|apply spares_refl|by apply spares_unlock].
  - split; cbn; [|done|set_solver| |].
    + intros d Hd. apply Hb. unfold conns in *. cbn in Hd. set_solver.
    + intros d Hd. destruct (Hg d Hd). set_solver.
    + intros d Hd Hlive. rewrite Hlv in Hlive. destruct (Hl d Hd Hlive) as [n Hn]. destruct (Hg d Hd) as [_ Hnr].
      exists n. unfold release. destruct fate; [|done|]; (apply unlock_other; [done|by intros ->]).
Qed.

Lemma end_ok c s s' : pools_ok s -> exec (End c) s = Some s' -> pools_ok s'.
Proof.
  intros Hok [= <-]. destruct Hok as [Hlv Hea Hap]. split; cbn; [rewrite end_live; set_solver| |done].
  intros i m Hi. destruct (Hea i m Hi) as [Hb Hp Ha Hg Hl]. split; [done..|]. intros d Hd Hlive. rewrite end_live in Hlive.
  apply elem_of_difference in Hlive as [Hlive Hne]. destruct (Hl d Hd Hlive) as [n Hn]. exists n. apply end_other; [done|set_solver].
Qed.

Lemma restart_ok i s s' : pools_ok s -> exec (Restart i) s = Some s' -> pools_ok s'.
Proof.
  intros Hok H. cbn in H. apply bind_Some in H as (m & Hi & [= <-]).
  eapply (pools_ok_update i m); [done|done|reflexivity|done|apply Hok| |apply spares_refl|apply fresh_ok].
  intros c Hc. unfold conns in Hc. cbn in Hc. set_solver.
Qed.

Lemma exec_ok mv s s' : pools_ok s -> exec mv s = Some s' -> pools_ok s'.
Proof.
  destruct mv; [apply open_ok|apply no_connection_ok|apply try_ok|apply work_ok|apply drop_ok|apply release_ok|apply end_ok|apply restart_ok].
Qed.

Lemma start_ok n w : pools_ok (start_pools cr identity dims network tuning rounds n w).
Proof.
  assert (Hf : forall i m, replicate n fresh !! i = Some m -> m = fresh) by (by intros i m [-> _]%lookup_replicate).
  destruct law_none as [Hn _]. split; cbn; [rewrite Hn; set_solver| |].
  - intros i m ->%Hf. apply fresh_ok.
  - intros i j mi mj ->%Hf ->%Hf _. unfold conns. cbn. set_solver.
Qed.

Lemma reachable_ok faults n w s :
  rtc (step faults) (start_pools cr identity dims network tuning rounds n w) s -> pools_ok s.
Proof.
  intros H. remember (start_pools _ _ _ _ _ _ n w) as s0 eqn:E. assert (Hok : pools_ok s0) by (subst; apply start_ok).
  clear E. induction H as [s|s1 s2 s3 Hs _ IH]; [done|]. apply IH. destruct Hs as [mv s1 s2 _ Hx]. by eapply exec_ok.
Qed.

(** C24. The maintainers exclude one another as far as their sessions last: whatever fails
    or restarts, a maintainer in the middle of a tick, counting, drawing keys,
    submitting or inserting, holds a guard on a connection of its own, and of two in the
    middle of a tick one has lost the session of its guard. *)
Theorem pool_ticks_exclusive faults n w s i j mi mj :
  rtc (step faults) (start_pools cr identity dims network tuning rounds n w) s ->
  maintainers s !! i = Some mi -> maintainers s !! j = Some mj -> i <> j ->
  ticking (prog mi) = true -> ticking (prog mj) = true ->
  exists ci cj, guard mi = Some ci /\ guard mj = Some cj /\ ci <> cj /\
    ((ci ∉ live (server s)) \/ (cj ∉ live (server s))).
Proof.
  intros Hr Hi Hj Hij Hti Htj. pose proof (reachable_ok _ _ _ _ Hr) as [_ Hea Hap].
  pose proof (Hea _ _ Hi) as Hmi. pose proof (Hea _ _ Hj) as Hmj.
  pose proof (phase_ticking _ _ (mo_phase _ _ _ Hmi) Hti) as Hhi. pose proof (phase_ticking _ _ (mo_phase _ _ _ Hmj) Htj) as Hhj.
  apply bool_decide_eq_true in Hhi as [ci Hgi]. apply bool_decide_eq_true in Hhj as [cj Hgj].
  assert (Hne : ci <> cj).
  { intros ->. specialize (Hap _ _ _ _ Hi Hj Hij). unfold conns in Hap. rewrite Hgi, Hgj in Hap. set_solver. }
  exists ci, cj. split_and!; [done..|]. destruct (decide (ci ∈ live (server s))) as [Hli|]; [right|by left]. intros Hlj.
  destruct (mo_lock _ _ _ Hmi ci Hgi Hli) as [a Ha]. destruct (mo_lock _ _ _ Hmj cj Hgj Hlj) as [b Hb]. congruence.
Qed.

(** ** The lock is not left behind *)

(** Who holds the lock holds it once, on a live session no pool has idle. *)
Definition tidy (s : Pools) : Prop :=
  forall c n, holder KEY (server s) = Some (c, n) ->
    n = 1%nat /\ c ∈ live (server s) /\ forall i m, maintainers s !! i = Some m -> c ∉ idle m.

Lemma tidy_update i m m' s s' :
  tidy s -> maintainers s !! i = Some m -> maintainers s' = <[ i := m' ]> (maintainers s) ->
  (forall c n, holder KEY (server s') = Some (c, n) ->
     holder KEY (server s) = Some (c, n) /\ c ∈ live (server s') /\ (c ∉ idle m')) -> tidy s'.
Proof.
  intros Ht Hi Hms Hl c n Hc. destruct (Hl c n Hc) as (Hc' & Hlive & Hid). destruct (Ht c n Hc') as (-> & _ & Hall).
  split_and!; [done..|]. intros j mj. rewrite Hms. destruct (decide (i = j)) as [->|Hij].
  - rewrite list_lookup_insert_eq by (by eapply lookup_lt_Some). by intros [= <-].
  - rewrite list_lookup_insert_ne by done. apply Hall.
Qed.

Lemma tidy_same i m m' s s' :
  tidy s -> maintainers s !! i = Some m -> maintainers s' = <[ i := m' ]> (maintainers s) ->
  server s' = server s -> idle m' ⊆ idle m -> tidy s'.
Proof.
  intros Ht Hi Hms Hsrv Hid. eapply (tidy_update i m); [done..|]. rewrite Hsrv. intros c n Hc.
  destruct (Ht c n Hc) as (_ & Hl & Hc'). specialize (Hc' i m Hi). split_and!; [done..|set_solver].
Qed.

Lemma try_tidy i c fate s s' :
  pools_ok s -> tidy s -> fate <> AckLost -> exec (Try i c fate) s = Some s' -> tidy s'.
Proof.
  intros Hok Ht Hf H. cbn in H. apply bind_Some in H as (m & Hi & H).
  destruct (prog m) as [| | | | | |k|] eqn:Ep; try done.
  destruct (bool_decide (c ∈ idle m)) eqn:Ec; [|done]. apply bool_decide_eq_true in Ec.
  destruct (reaches c fate (server s)) eqn:Er; [|done]. cbn [andb] in H. unfold try_lock, acquire_tick_lock in H.
  assert (Hsame : forall p, tidy (with_server (server s) (with_maintainer i (with_prog p m) s))).
  { intros p. by eapply (tidy_same i m). }
  destruct fate; [|destruct (pg_try_advisory_lock KEY c (server s)); injection H as <-; apply Hsame|done].
  destruct (law_try KEY c (server s)) as (Hlv & Hb & Hk). destruct (pg_try_advisory_lock KEY c (server s)) as [locked srv].
  cbn [fst snd] in Hlv, Hb, Hk. destruct (holder KEY (server s)) as [[h n]|] eqn:El.
  - destruct (Ht h n El) as (-> & Hl & Hid). rewrite decide_False in Hk by (intros ->; by destruct (Hid i m Hi)).
    rewrite bool_decide_eq_false_2 in Hb by (intros ->; by destruct (Hid i m Hi)). subst locked. injection H as <-.
    eapply (tidy_update i m); [done|done|reflexivity|]. cbn. rewrite Hk, Hlv. intros d k' [= <- <-]. eauto.
  - subst locked. injection H as <-. intros d n. cbn. rewrite Hk, Hlv. intros [= <- <-].
    split_and!; [done|by apply bool_decide_eq_true in Er|].
    intros j mj. destruct (decide (i = j)) as [->|Hij].
    + rewrite list_lookup_insert_eq by (by eapply lookup_lt_Some). intros [= <-]. cbn. set_solver.
    + rewrite list_lookup_insert_ne by done. intros Hj Hc. pose proof (po_apart _ Hok _ _ _ _ Hi Hj Hij) as Hd.
      apply (Hd c); unfold conns; set_solver.
Qed.

Lemma release_tidy i c fate s s' :
  tidy s -> lock_fault (Release i c fate) s = false -> exec (Release i c fate) s = Some s' -> tidy s'.
Proof.
  intros Ht Hf H. cbn in H. apply bind_Some in H as (m & Hi & H).
  destruct (bool_decide (c ∈ releasing m)) eqn:Ec; [|done].
  destruct (reaches c fate (server s)) eqn:Er; [|done]. injection H as <-.
  eapply (tidy_update i m); [done|done|reflexivity|]. cbn. intros d n Hd.
  assert (Hd' : holder KEY (server s) = Some (d, n) /\ d <> c).
  { unfold release in Hd. destruct fate; cbn in Hf.
    2: { split; [done|]. intros ->. apply bool_decide_eq_false in Hf. by destruct (Ht c n Hd) as (_ & ? & _). }
    all: destruct (law_unlock KEY c (server s)) as [_ Hk]; rewrite Hk in Hd;
      destruct (holder KEY (server s)) as [[h k]|] eqn:El; [|done];
      destruct (Ht h k El) as (-> & _ & _); destruct (decide (h = c)) as [->|]; [done|]; split; congruence. }
  destruct Hd' as [Hd' Hne]. destruct (Ht d n Hd') as (_ & Hl & Hid). specialize (Hid i m Hi). split_and!; [done| |set_solver].
  unfold release. destruct fate; by rewrite ?unlock_live.
Qed.

Lemma exec_tidy mv s s' : pools_ok s -> tidy s -> lock_fault mv s = false -> exec mv s = Some s' -> tidy s'.
Proof.
  intros Hok Ht Hf H. destruct mv as [i|i|i c fate|i choice|i|i c fate|c|i].
  - cbn in H. apply bind_Some in H as (m & Hi & [= <-]). eapply (tidy_update i m); [done|done|reflexivity|]. cbn.
    destruct (law_open (next s) (server s)) as [Ho Hk]. rewrite Ho. intros c n. rewrite Hk. intros Hc.
    destruct (Ht c n Hc) as (_ & Hl & Hid). specialize (Hid i m Hi). split_and!; [done|set_solver|].
    apply (po_live _ Hok) in Hl. intros [?|Hin%elem_of_singleton]%elem_of_union; [done|lia].
  - cbn in H. apply bind_Some in H as (m & Hi & H). destruct (prog m); try done. injection H as <-.
    by eapply (tidy_same i m).
  - eapply try_tidy; [done|done| |done]. by intros ->.
  - cbn in H. apply bind_Some in H as (m & Hi & H). destruct (ticking _ || _); [|done].
    destruct (advance _ _ _) as [[w' p']|]; [|done]. injection H as <-.
    by eapply (tidy_same i m).
  - cbn in H. apply bind_Some in H as (m & Hi & H). apply bind_Some in H as (m' & Hd & [= <-]). unfold drop_guard in Hd.
    destruct (guard m); [|done]. destruct (past_guard _); [|done]. injection Hd as <-.
    by eapply (tidy_same i m).
  - by eapply release_tidy.
  - cbn [exec PoolLock.exec] in H. injection H as <-. intros d n [Hd Hne]%end_inv. destruct (Ht d n Hd) as (-> & Hl & Hid).
    split_and!; [done| |done]. cbn. rewrite end_live. set_solver.
  - cbn in H. apply bind_Some in H as (m & Hi & [= <-]).
    eapply (tidy_same i m); [done|done|reflexivity|done|set_solver].
Qed.

(** The guard is not left behind: as long as the lock statements of live sessions do
    not fail, and whatever else does, the lock is held once and never by an idle
    connection, so once no maintainer has a guard or a release to run, and the sessions
    of processes that are gone have ended, the next try takes it. *)
Theorem tick_lock_freed n w s :
  rtc (step false) (start_pools cr identity dims network tuning rounds n w) s ->
  (forall i m, maintainers s !! i = Some m -> guard m = None /\ releasing m = ∅) ->
  (forall c, c ∈ live (server s) -> exists i m, maintainers s !! i = Some m /\ c ∈ conns m) ->
  forall c, fst (acquire_tick_lock c Fine (server s)) = Some true.
Proof.
  intros Hr Hrest Hown. assert (Ht : tidy s).
  { remember (start_pools _ _ _ _ _ _ n w) as s0 eqn:E.
    assert (H0 : pools_ok s0 /\ tidy s0) by (subst; split; [apply start_ok|]; destruct law_none as [_ Hn]; intros c k; cbn; by rewrite Hn). clear E Hrest Hown.
    induction Hr as [s|s1 s2 s3 Hs _ IH]; [by destruct H0|]. apply IH. destruct H0 as [H0 H1].
    destruct Hs as [mv s1 s2 Hf Hx]. split; [by eapply exec_ok|]. eapply exec_tidy; [done|done| |done]. by destruct Hf. }
  intros c. unfold acquire_tick_lock. destruct (law_try KEY c (server s)) as (_ & Hb & _).
  destruct (pg_try_advisory_lock KEY c (server s)) as [locked srv]. cbn [fst] in *. rewrite Hb.
  destruct (holder KEY (server s)) as [[h k]|] eqn:El; [|done].
  destruct (Ht h k El) as (_ & Hl & Hid). destruct (Hown h Hl) as (i & m & Hi & Hc). specialize (Hid i m Hi).
  destruct (Hrest i m Hi) as [Hg Hrl]. unfold conns in Hc. rewrite Hg, Hrl in Hc. set_solver.
Qed.
End steps.
End laws.

Module Demo.
Import TicketClaims PoolLock.Postgres.

Abbreviation demo_exec := (exec demo_tickets demo_identity [Game] Paseo demo_tuning 1).
Abbreviation demo_step := (step demo_tickets demo_identity [Game] Paseo demo_tuning 1).
Definition demo_pools : Pools := start_pools demo_tickets demo_identity [Game] Paseo demo_tuning 1 2 demo_world.

Fixpoint play (moves : list Move) (s : Pools) : option Pools :=
  match moves with
  | [] => Some s
  | mv :: moves' => if lock_fault mv s then None else match demo_exec mv s with Some s' => play moves' s' | None => None end
  end.

Lemma play_reaches moves s s' : play moves s = Some s' -> rtc (demo_step false) s s'.
Proof.
  revert s. induction moves as [|mv moves IH]; intros s; cbn [play]; [by intros [= <-]|].
  destruct (lock_fault mv s) eqn:Ef; [done|]. destruct (demo_exec mv s) as [s1|] eqn:Ex; [|done].
  intros H. eapply rtc_l; [|by apply IH]. exact (step_move _ _ _ _ _ _ false mv s s1 (or_introl Ef) Ex).
Defined.

(** Where the maintainers are: submitting the batch of which keys, with a live guard or
    not. *)
Definition submitting (m : Maintainer) : bool := match prog m with Submit Game _ _ _ => true | _ => false end.
Definition guarded (s : Pools) (m : Maintainer) : bool :=
  match guard m with Some c => bool_decide (c ∈ live (server s)) | None => false end.

Definition seeds (i : nat) (from : Z) : list Move :=
  [Work i (BySeed (replicate 32 from)); Work i (BySeed (replicate 32 (from + 1))); Work i (BySeed (replicate 32 (from + 2)))].

(** The first maintainer submits a batch; the second is refused the lock; the session
    of the first's guard ends, and the second, on its next turn, submits as well. *)
Definition lost_session : list Move :=
  ([Open 0; Open 1; Try 0 0 Fine; Work 0 fine] ++ seeds 0 1 ++ [End 0; Try 1 1 Fine; Work 1 fine] ++ seeds 1 7)%list.

(** Two maintainers submit at the same time once the session of the first's guard has
    ended: nothing of a tick looks at the lock again. *)
Lemma lost_session_ticks_twice :
  exists s m0 m1, play lost_session demo_pools = Some s /\
    maintainers s !! 0%nat = Some m0 /\ maintainers s !! 1%nat = Some m1 /\
    submitting m0 = true /\ submitting m1 = true /\ guarded s m0 = false /\ guarded s m1 = true.
Proof.
  assert (H : match play lost_session demo_pools with
              | Some s => match maintainers s !! 0%nat, maintainers s !! 1%nat with
                          | Some m0, Some m1 => (submitting m0, submitting m1, guarded s m0, guarded s m1) = (true, true, false, true)
                          | _, _ => False
                          end
              | None => False
              end) by (vm_compute; reflexivity).
  destruct (play lost_session demo_pools) as [s|]; [|done].
  destruct (maintainers s !! 0%nat) as [m0|] eqn:E0; [|done]. destruct (maintainers s !! 1%nat) as [m1|] eqn:E1; [|done].
  injection H as H1 H2 H3 H4. exists s, m0, m1. split_and!; [reflexivity|assumption..].
Qed.

Lemma pool_ticks_exclusive_witness :
  exists s m0 m1, play lost_session demo_pools = Some s /\ ticking (prog m0) = true /\ ticking (prog m1) = true /\
    exists c0 c1, guard m0 = Some c0 /\ guard m1 = Some c1 /\ c0 <> c1 /\
      ((c0 ∉ live (server s)) \/ (c1 ∉ live (server s))).
Proof.
  destruct lost_session_ticks_twice as (s & m0 & m1 & Hp & H0 & H1 & S0 & S1 & _).
  assert (T0 : ticking (prog m0) = true) by (unfold submitting in S0; by destruct (prog m0)).
  assert (T1 : ticking (prog m1) = true) by (unfold submitting in S1; by destruct (prog m1)).
  exists s, m0, m1. split; [exact Hp|]. split; [exact T0|]. split; [exact T1|].
  exact (pool_ticks_exclusive demo_tickets demo_identity [Game] Paseo demo_tuning 1 false 2 demo_world s 0 1 m0 m1
    (play_reaches _ _ _ Hp) H0 H1 ltac:(discriminate) T0 T1).
Defined.

(** A whole tick: the guard is dropped before the sleep and its release has run. *)
Definition one_tick : list Move :=
  ([Open 0; Open 1; Try 0 0 Fine; Try 1 1 Fine; Work 0 fine] ++ seeds 0 1 ++
   [Work 0 (ByChain [true; true; true]
      [InFinalizedBlock true [event "ItemCompleted"; event "ItemCompleted"; event "ItemCompleted"]] true);
    Work 0 fine; Work 0 fine; Work 0 fine; DropGuard 0; Release 0 0 Fine])%list.

(** Decides the hypotheses of the theorem. *)
Definition at_rest (s : Pools) : bool :=
  forallb (fun m => bool_decide (guard m = None) && bool_decide (releasing m = ∅)) (maintainers s) &&
  forallb (fun c => existsb (fun m => bool_decide (c ∈ conns m)) (maintainers s)) (elements (live (server s))).

Lemma tick_lock_freed_witness :
  exists s, play one_tick demo_pools = Some s /\ fst (acquire_tick_lock 1 Fine (server s)) = Some true.
Proof.
  assert (H : match play one_tick demo_pools with Some s => at_rest s = true | None => False end) by (vm_compute; reflexivity).
  destruct (play one_tick demo_pools) as [s|] eqn:Hp; [|destruct H]. exists s. split; [reflexivity|].
  apply andb_true_iff in H as [H1 H2]. rewrite forallb_forall in H1, H2.
  apply (tick_lock_freed demo_tickets demo_identity [Game] Paseo demo_tuning 1 2 demo_world s (play_reaches _ _ _ Hp)).
  - intros i m Hi. apply list_elem_of_lookup_2, list_elem_of_In in Hi. apply H1, andb_true_iff in Hi as [Ha Hb].
    apply bool_decide_eq_true in Ha, Hb. exact (conj Ha Hb).
  - intros c Hc. apply elem_of_elements, list_elem_of_In in Hc. apply H2, existsb_exists in Hc as (m & Hm & Hc).
    apply list_elem_of_In, list_elem_of_lookup_1 in Hm as [i Hi]. apply bool_decide_eq_true in Hc. exists i, m. exact (conj Hi Hc).
Defined.
End Demo.
End PoolLockProps.
