(* ===== verification/States.v ===== *)
(** * States: what each service builds from its configuration

    The constructors of the shared state of every HTTP service ([http/state.rs] of the
    services, and [build_state] with its helpers in [dub/src/roles/]), each [expect] a
    panic of its own.  A configuration that was read builds the state; only the limiter
    can still panic, and of which configurations it does is decided.  [Database] is the
    connection each service opens first, and [Redaction] what the [Debug] of the
    configurations, the gates and the tickets shows of their secrets. *)

From stdpp Require Import gmap.
From S2P Require Import Prelude Strings Text Limiter DeviceGate Usernames Notify Turn Config.
From S2P Require Import ConfigProps Google Poc TurnProps Tickets TicketProps Auth PlayIntegrity.

#[local] Open Scope string_scope.
#[local] Open Scope Z_scope.

Module States.
Import Config ConfigProps.

Inductive Start (A : Type) := Started (a : A) | Refused (why : string) | Panicked (message : string).
Arguments Started {A} a.
Arguments Refused {A} why.
Arguments Panicked {A} message.

Definition bind_start {A B : Type} (m : Start A) (f : A -> Start B) : Start B :=
  match m with Started a => f a | Refused why => Refused why | Panicked msg => Panicked msg end.

(** [expect]. *)
Definition expect {A : Type} (message : string) (r : result A string) : Start A :=
  match r with Ok a => Started a | Err e => Panicked (message +:+ ": " +:+ e) end.

Definition with_context {A E : Type} (context : string) (r : result A E) : Start A :=
  match r with Ok a => Started a | Err _ => Refused context end.

Definition LIMITER_VALIDATED : string := "rate limiter config validated during startup".

Section states.
Context (cr : ConfigCrates) `{governor : Limiter.Governor}.

(** A limiter that does not build is the panic of its [expect], or its own. *)
Definition limiter (burst window : Z) : Start Limiter.Limiter :=
  match build_limiter burst window with
  | Limiter.BuiltOk l => Started l
  | Limiter.BuildFailed _ | Limiter.BuildPanicked => Panicked LIMITER_VALIDATED
  end.

(** ** [device-attestation/src/http/state.rs] *)

(** [CrlCache::new] and [device_check::Client::new]; building an HTTP client is taken
    to succeed. *)
Record CrlCache := { crl_url : string; crl_ttl : Z; crl_max_stale : Z }.
Record DcClient := { dc_team_id : string; dc_key_id : string; dc_base_url : string; dc_pem : string }.

Definition DcClient_new (team_id key_id private_key_pem base_url : string) : result DcClient string :=
  match ec_pem cr private_key_pem with
  | Ok _ => Ok {| dc_team_id := team_id; dc_key_id := key_id; dc_base_url := base_url; dc_pem := private_key_pem |}
  | Err e => Err ("DeviceCheck private key is not a usable EC PEM: " +:+ e)
  end.

Record AppState := {
  as_limiter : Limiter.Limiter; as_crl : CrlCache;
  as_google : option Google.GoogleDecoder; as_device_check : option DcClient }.

(** [Option::map] of a constructor with its [expect]. *)
Definition start_map {A B : Type} (f : A -> Start B) (o : option A) : Start (option B) :=
  match o with Some a => bind_start (f a) (fun b => Started (Some b)) | None => Started None end.

Definition AppState_new (c : AttestationConfig cr) : Start AppState :=
  bind_start (limiter (ac_auth_rate_limit cr c) (ac_auth_rate_window cr c)) (fun l =>
  let crl := {| crl_url := ac_android_crl_url cr c; crl_ttl := ac_android_crl_cache_ttl cr c;
                crl_max_stale := ac_android_crl_max_stale cr c |} in
  bind_start (start_map (fun credentials => expect "credentials validated at startup" (Google.new (rsa_pem cr) credentials))
                (ac_google_credentials cr c)) (fun google =>
  bind_start (start_map (fun dc => expect "device check key validated at startup"
                           (DcClient_new (dcc_team_id dc) (dcc_key_id dc) (dcc_private_key_pem dc) (dcc_base_url dc)))
                (ac_device_check cr c)) (fun device_check =>
  Started {| as_limiter := l; as_crl := crl; as_google := google; as_device_check := device_check |}))).

(** ** [turn/src/http/state.rs] *)

Definition MAX_PERMIT_WAITERS : Z := 64.

(** Semaphores are their permits. *)
Record ProofState := {
  ps_max_skew_secs : Z; ps_contexts : gmap string bytes; ps_alias_limiter : Limiter.Limiter;
  ps_permits : Z; ps_waiters : Z }.

Definition ProofState_new (config : ProofConfig) (alias_limit rate_window : Z) : Start ProofState :=
  bind_start (limiter alias_limit rate_window) (fun alias_limiter =>
  Started {| ps_max_skew_secs := Turn.PROOF_MAX_SKEW_SECS; ps_contexts := pc_contexts config;
             ps_alias_limiter := alias_limiter; ps_permits := pc_concurrency config; ps_waiters := MAX_PERMIT_WAITERS |}).

Record TurnAppState := { ta_source : Turn.Source; ta_limiter : Limiter.Limiter; ta_proof : option ProofState }.

Definition TurnAppState_new (c : TurnConfig cr) : Start TurnAppState :=
  bind_start (limiter (tc_rate_limit cr c) (tc_rate_window cr c)) (fun l =>
  let source := Turn.Source_new (tc_provider cr c) (tc_ttl_secs cr c) in
  bind_start (start_map (fun p => ProofState_new p (tc_rate_limit cr c) (tc_rate_window cr c)) (tc_proof cr c)) (fun proof =>
  Started {| ta_source := source; ta_limiter := l; ta_proof := proof |})).

(** ** [invite-tickets/src/http/state.rs] *)

Definition TicketAppState_new (c : TicketConfig cr) : Start Limiter.Limiter :=
  limiter (kc_rate_limit cr c) (kc_rate_window cr c).

(** ** [dub/src/roles/notify_relay.rs] *)

Definition ApnsProvider_new (c : Notify.ApnsConfig) : result Notify.Provider string :=
  match ec_pem cr (Notify.ap_private_key c) with Ok _ => Ok (Notify.PApns c None) | Err e => Err e end.

Definition FcmProvider_new (c : Notify.FcmConfig) : result Notify.Provider string :=
  match rsa_pem cr (Notify.fc_private_key c) with Ok _ => Ok (Notify.PFcm c None) | Err e => Err e end.

Definition build_apns_provider (env : Env) (files : string -> KeyFile) : Start Notify.Provider :=
  bind_start (with_context "invalid APNs configuration" (ApnsConfig_from_env env files)) (fun c =>
  match c with
  | Some config => with_context "building APNs provider" (ApnsProvider_new config)
  | None => Started Notify.PUnconfigured
  end).

Definition build_fcm_provider (env : Env) : Start Notify.Provider :=
  bind_start (with_context "invalid FCM configuration" (FcmConfig_from_getter cr env)) (fun c =>
  match c with
  | Some config => with_context "building FCM provider" (FcmProvider_new config)
  | None => Started Notify.PUnconfigured
  end).

Definition notify_build_state (env : Env) (files : string -> KeyFile) (c : NotifyConfig cr) : Start Notify.NotifyState :=
  bind_start (build_apns_provider env files) (fun apns =>
  bind_start (build_fcm_provider env) (fun fcm =>
  bind_start (limiter (nc_rate_limit cr c) (nc_rate_window cr c)) (fun l =>
  Started {| Notify.st_apns := apns; Notify.st_fcm := fcm; Notify.st_limiter := l |}))).

(** ** [dub/src/roles/username_indexer.rs] *)

Definition build_poc (pc : Poc.PocCrates) (env : Env) (c : IndexerConfig cr) : Start (option (Poc.PocGate * Verifier cr)) :=
  match ic_poc_hmac_secret cr c with
  | None => Started None
  | Some secret =>
      bind_start (with_context "POC_ENABLED=true requires verify-only JWT material" (jwt_verifier_from_env cr env)) (fun verifier =>
      Started (Some ({| Poc.secret := Poc.derive_secret pc secret; Poc.gate_difficulty := ic_poc_difficulty_bits cr c |}, verifier)))
  end.

(** Around the seed ([IndexerRun.v]): the gate before it, the limiter after. *)
Definition indexer_build_state (pc : Poc.PocCrates) (env : Env) (seed : Start unit) (c : IndexerConfig cr)
    : Start (Limiter.Limiter * option (Poc.PocGate * Verifier cr)) :=
  bind_start (build_poc pc env c) (fun poc =>
  bind_start seed (fun _ =>
  bind_start (limiter (ic_search_rate_limit cr c) (ic_search_rate_limit_window_secs cr c)) (fun l =>
  Started (l, poc)))).

(** ** What panics *)

Definition panics {A : Type} (s : Start A) : Prop := exists message, s = Panicked message.
Definition refuses {A : Type} (s : Start A) : Prop := exists why, s = Refused why.

(** The period of a burst of no requests does not exist; one of zero nanoseconds, when
    the window is too short or the division wraps to it, is no period. *)
Definition no_period (limit window : Z) : Prop := limit = 0 \/ (window * 1000000000 / limit) mod 2 ^ 64 = 0.

Lemma limiter_exact limit window :
  (panics (limiter limit window) <-> no_period limit window) /\ ~ refuses (limiter limit window).
Proof.
  unfold panics, refuses, limiter, no_period, build_limiter, Limiter.new, Limiter.as_u64.
  cbn [negb Limiter.max_burst Limiter.window_secs Limiter.set_window_secs Limiter.set_max_burst].
  destruct (Z.eqb_spec limit 0) as [->|Hl]; [split; [|by intros []]; split; intros _; [by left|by eexists]|].
  destruct (Z.eqb_spec ((window * 1000000000 / limit) mod 2 ^ 64) 0) as [Hp|Hp]; (split; [|by intros []]);
    split; [intros _; by right|intros _; by eexists|by intros []|by intros []].
Qed.

Lemma bind_started {A B : Type} (m : Start A) (f : A -> Start B) :
  (forall a, m = Started a -> exists b, f a = Started b) ->
  (panics (bind_start m f) <-> panics m) /\ (refuses (bind_start m f) <-> refuses m).
Proof.
  intros Hf. unfold panics, refuses. destruct m as [a|why|message]; cbn [bind_start].
  - destruct (Hf a eq_refl) as [b ->]. split; split; by intros [? ?].
  - split; split; intros [? [=]]; by eexists.
  - split; split; intros [? [=]]; by eexists.
Qed.

Lemma google_validated env g : parse_google_credentials cr env = Ok (Some g) ->
  exists d, expect "credentials validated at startup" (Google.new (rsa_pem cr) g) = Started d.
Proof.
  unfold parse_google_credentials, optional. destruct (env "GOOGLE_CREDENTIALS") as [raw|]; [|done].
  destruct (blank raw); [done|]. intros (c & Hc & [= <-])%rbind_ok. apply map_err_ok in Hc.
  rewrite (Google.credentials_build _ _ _ Hc). by eexists.
Qed.

Lemma device_check_validated env d : parse_device_check cr env = Ok (Some d) ->
  exists client, expect "device check key validated at startup"
    (DcClient_new (dcc_team_id d) (dcc_key_id d) (dcc_private_key_pem d) (dcc_base_url d)) = Started client.
Proof.
  unfold parse_device_check. intros (enabled & _ & H)%rbind_ok. destruct (negb enabled); [done|].
  apply rbind_ok in H as (raw & _ & H). apply rbind_ok in H as (pem & Hp & H). apply rbind_ok in H as (t & _ & H).
  apply rbind_ok in H as (k & _ & [= <-]). unfold validate_device_check_pem in Hp.
  apply rbind_ok in Hp as (u & Hu%map_err_ok & [= <-]). unfold DcClient_new. cbn [dcc_private_key_pem]. rewrite Hu. by eexists.
Qed.

Lemma no_period_checked limit window :
  builds limit window -> no_period limit window <-> (window * 1000000000 / limit) mod 2 ^ 64 = 0.
Proof. intros [Hl _]. unfold no_period. split; [intros [->|H]; [lia|done]|by right]. Qed.

Lemma start_map_started {A B : Type} (f : A -> Start B) o :
  (forall a, o = Some a -> exists b, f a = Started b) -> exists r, start_map f o = Started r.
Proof. intros Hf. destruct o as [a|]; [destruct (Hf a eq_refl) as [b Hb]; cbn; rewrite Hb|]; by eexists. Qed.

(** What a service reads it can build, but for the rate.  A configuration that was read
    never refuses to build a state, and no [expect] on a key or on a credential fails;
    the attestation API panics exactly when its rate is no period, which it does not
    check; TURN and the tickets API, which check that neither number is zero, exactly
    when the window shared among the burst rounds or wraps to no time at all. *)
Theorem startup_panics_exactly env turn :
  (forall c, AttestationConfig_from_env cr env = Ok c ->
     (panics (AppState_new c) <-> no_period (ac_auth_rate_limit cr c) (ac_auth_rate_window cr c)) /\
     ~ refuses (AppState_new c)) /\
  (forall c, TurnConfig_from_env cr env turn = Ok c ->
     (panics (TurnAppState_new c) <-> (tc_rate_window cr c * 1000000000 / tc_rate_limit cr c) mod 2 ^ 64 = 0) /\
     ~ refuses (TurnAppState_new c)) /\
  (forall c, TicketConfig_from_env cr env = Ok c ->
     (panics (TicketAppState_new c) <-> (kc_rate_window cr c * 1000000000 / kc_rate_limit cr c) mod 2 ^ 64 = 0) /\
     ~ refuses (TicketAppState_new c)).
Proof.
  split_and!; intros c Hc.
  - assert (Hg : parse_google_credentials cr env = Ok (ac_google_credentials cr c) /\
                 parse_device_check cr env = Ok (ac_device_check cr c)).
    { unfold AttestationConfig_from_env in Hc. steps Hc. injection Hc as <-. by split. }
    destruct Hg as [Hg Hd]. unfold AppState_new.
    match goal with |- context [bind_start ?m ?f] => destruct (bind_started m f) as [Hp Hr] end.
    { intros l _. destruct (start_map_started (fun credentials => expect "credentials validated at startup"
        (Google.new (rsa_pem cr) credentials)) (ac_google_credentials cr c)) as [g ->].
      { intros a Ha. rewrite Ha in Hg. by eapply google_validated. }
      cbn [bind_start]. destruct (start_map_started (fun dc => expect "device check key validated at startup"
        (DcClient_new (dcc_team_id dc) (dcc_key_id dc) (dcc_private_key_pem dc) (dcc_base_url dc))) (ac_device_check cr c)) as [d ->].
      { intros a Ha. rewrite Ha in Hd. by eapply device_check_validated. }
      by eexists. }
    rewrite Hp, Hr. apply limiter_exact.
  - assert (Hb : builds (tc_rate_limit cr c) (tc_rate_window cr c)).
    { unfold TurnConfig_from_env in Hc. steps Hc. injection Hc as <-. by eapply rate_vars_ok. }
    rewrite <- (no_period_checked _ _ Hb). unfold TurnAppState_new, ProofState_new.
    destruct (limiter_exact (tc_rate_limit cr c) (tc_rate_window cr c)) as [He Hn].
    match goal with |- context [bind_start ?m ?f] => destruct (bind_started m f) as [Hp Hr] end; [|by rewrite Hp, Hr].
    intros l Hl. rewrite Hl. destruct (tc_proof cr c); cbn; by eexists.
  - assert (Hb : builds (kc_rate_limit cr c) (kc_rate_window cr c)).
    { unfold TicketConfig_from_env in Hc. steps Hc. injection Hc as <-. by eapply rate_vars_ok. }
    rewrite <- (no_period_checked _ _ Hb). apply limiter_exact.
Qed.

(** The relay and the indexer: a refusal comes from the providers or from the gate, a
    panic from the limiter only. *)
Lemma relay_panics env files c :
  panics (notify_build_state env files c) -> no_period (nc_rate_limit cr c) (nc_rate_window cr c).
Proof.
  unfold notify_build_state. intros [message H].
  assert (Ha : ~ panics (build_apns_provider env files)).
  { unfold build_apns_provider, with_context. destruct (ApnsConfig_from_env env files) as [[a|]|]; cbn; [|by intros []..].
    destruct (ApnsProvider_new a); by intros []. }
  assert (Hf : ~ panics (build_fcm_provider env)).
  { unfold build_fcm_provider, with_context. destruct (FcmConfig_from_getter cr env) as [[a|]|]; cbn; [|by intros []..].
    destruct (FcmProvider_new a); by intros []. }
  destruct (build_apns_provider env files) as [apns|?|?]; [|done|by destruct Ha; eexists].
  destruct (build_fcm_provider env) as [fcm|?|?]; [|done|by destruct Hf; eexists]. cbn [bind_start] in H.
  apply limiter_exact. destruct (limiter _ _); [done..|by eexists].
Qed.
End states.

Module Demo.
Import Limiter.Gcra ConfigProps.Demo.

Definition keyed_env (limit window : string) : Env := lookup_env
  [("DEVICE_ATTESTATION_DATABASE_URL", "postgres://"); ("JWT_ED25519_SECRET", hex32_text); ("ATTESTER_ACCOUNT", "5Grw");
   ("GOOGLE_CREDENTIALS", "account"); ("DEVICE_CHECK_IOS_ENABLED", "true"); ("DEVICE_CHECK_PRIVATE_KEY", "pem");
   ("APPLE_TEAM_ID", "team"); ("DEVICE_CHECK_KEY_ID", "key"); ("AUTH_RATE_LIMIT", limit); ("AUTH_RATE_WINDOW_SECS", window)].

Definition built (env : Env) : bool :=
  match AttestationConfig_from_env demo env with
  | Ok c => match AppState_new demo c with
            | Started s => bool_decide (is_Some (as_google s)) && bool_decide (is_Some (as_device_check s))
            | _ => false
            end
  | Err _ => false
  end.

(** With the keys of both platforms and the default rate the state is built; with no
    requests allowed, which the configuration accepts, it panics. *)
Lemma startup_panics_exactly_witness :
  built (keyed_env "30" "60") = true /\
  exists c, AttestationConfig_from_env demo (keyed_env "0" "60") = Ok c /\ ac_auth_rate_limit demo c = 0 /\
    (panics (AppState_new demo c) <-> no_period (ac_auth_rate_limit demo c) (ac_auth_rate_window demo c)) /\
    ~ refuses (AppState_new demo c).
Proof.
  split; [vm_compute; reflexivity|].
  assert (H : exists c, AttestationConfig_from_env demo (keyed_env "0" "60") = Ok c /\ ac_auth_rate_limit demo c = 0).
  { eexists. split; [vm_compute; reflexivity|reflexivity]. }
  destruct H as (c & H1 & H2). exists c. split; [exact H1|]. split; [exact H2|].
  exact (proj1 (startup_panics_exactly demo (keyed_env "0" "60") TurnProps.Demo.demo) c H1).
Defined.
End Demo.
End States.

(** ** [db.rs] of the three services that own a database *)
Module Database.
Import States.

Record PgPoolOptions := { max_connections : Z; acquire_timeout : Z }.

(** [sqlx]: opening a pool, and the runner of embedded migrations over the server's
    record of the ones it has applied.  What the code relies on: the runner only ever
    appends to that record, the ones of its list in the list's order; it answers [Ok]
    when all are there, and has nothing to do for a server that already has them. *)
Class Sqlx := {
  PgPool : Type; Server : Type; applied : Server -> list string;
  open_pool : PgPoolOptions -> string -> Server -> result PgPool string;
  migrate : list string -> PgPool -> Server -> result unit string * Server;
  migrate_extends : forall ms pool s, exists done_, applied (migrate ms pool s).2 = (applied s ++ done_)%list /\ sublist done_ ms;
  migrate_ok : forall ms pool s, (migrate ms pool s).1 = Ok tt -> forall m, m ∈ ms -> m ∈ applied (migrate ms pool s).2;
  migrate_again : forall ms pool s, applied s = ms -> migrate ms pool s = (Ok tt, s) }.

Section connect.
Context `{sqlx : Sqlx}.

Definition POOL_OPTIONS : PgPoolOptions := {| max_connections := 10; acquire_timeout := 5 |}.

(** The files [sqlx::migrate!] embeds, in the order of their versions. *)
Definition attestation_migrations : list string :=
  ["0001_auth"; "0002_usernames"; "0003_username_reservation_base_idx"; "0004_app_attest_keys";
   "0005_registration_queue"; "0006_registration_vouchers"; "0007_payment_requests"; "0008_dotns_outbox";
   "0009_widevine_devices"; "0010_drop_payment_requests"; "0011_payload_version"].
Definition ticket_migrations : list string := ["0001_invite_tickets"].
Definition indexer_migrations : list string :=
  ["20260711000000_create_assigned_usernames"; "20260711000001_create_sync_state"; "20260729000000_create_spent_puzzles";
   "20260813000000_sync_state_genesis_hash"; "20260907000000_assigned_usernames_speculative"].

Inductive DbError := Connect (source : string) | Migrate (source : string).

(** [Display] of the indexer's error, and the context the other two attach. *)
Definition DbError_text (e : DbError) : string :=
  match e with
  | Connect source => "connecting to Postgres: " +:+ source
  | Migrate source => "running database migrations: " +:+ source
  end.
Definition DbError_context (e : DbError) : string :=
  match e with Connect _ => "connecting to Postgres" | Migrate _ => "running database migrations" end.

Definition connect (migrations : list string) (database_url : string) (s : Server) : result PgPool DbError * Server :=
  match open_pool POOL_OPTIONS database_url s with
  | Err e => (Err (Connect e), s)
  | Ok pool =>
      match migrate migrations pool s with
      | (Err e, s') => (Err (Migrate e), s')
      | (Ok _, s') => (Ok pool, s')
      end
  end.

(** The three functions [connect], as each caller sees them end. *)
Definition attestation_connect (url : string) (s : Server) : Start PgPool * Server :=
  let '(r, s') := connect attestation_migrations url s in
  (match r with Ok pool => Started pool | Err e => Refused (DbError_context e) end, s').
Definition ticket_connect (url : string) (s : Server) : Start PgPool * Server :=
  let '(r, s') := connect ticket_migrations url s in
  (match r with Ok pool => Started pool | Err e => Refused (DbError_context e) end, s').
Definition indexer_connect (url : string) (s : Server) : Start PgPool * Server :=
  let '(r, s') := connect indexer_migrations url s in
  (match r with Ok pool => Started pool | Err e => Refused (DbError_text e) end, s').

(** A pool is handed out only over the whole schema of the release; a server that was
    not reached is left alone; what a failed boot leaves is undone by none and extended
    by the next; and a replica that boots over the current schema changes nothing. *)
Theorem connected_is_migrated ms url s :
  (forall pool s', connect ms url s = (Ok pool, s') -> forall m, m ∈ ms -> m ∈ applied s') /\
  (forall e s', connect ms url s = (Err (Connect e), s') -> s' = s) /\
  applied s `prefix_of` applied (connect ms url s).2 /\
  (applied s = ms -> (connect ms url s).2 = s).
Proof.
  unfold connect. destruct (open_pool _ _ _) as [pool|e]; [|by split_and!; [|intros ? ? [= _ <-]|..]].
  pose proof (migrate_extends ms pool s) as (done_ & He & _). pose proof (migrate_ok ms pool s) as Hok.
  pose proof (migrate_again ms pool s) as Ha.
  destruct (migrate ms pool s) as [[[]|e] s']; cbn [fst snd] in *; split_and!; try (by intros ? ? [=]).
  - intros ? ? [= _ <-]. exact (Hok eq_refl).
  - by exists done_.
  - intros [= <-]%Ha. reflexivity.
  - by exists done_.
  - intros Hs%Ha. discriminate Hs.
Qed.
End connect.

(** A server that applies what it lacks. *)
#[local] Program Instance demo_sqlx : Sqlx := {|
  PgPool := unit; Server := list string; applied := fun s => s;
  open_pool := fun _ url _ => if String.eqb url "postgres://" then Ok tt else Err "unknown host";
  migrate := fun ms _ s => (Ok tt, s ++ filter (fun m => m ∉ s) ms)%list |}.
Next Obligation. intros ms [] s. eexists. split; [reflexivity|apply sublist_filter]. Qed.
Next Obligation.
  intros ms [] s _ m Hm. cbn. apply elem_of_app. destruct (decide (m ∈ s)); [by left|right]. by apply list_elem_of_filter.
Qed.
Next Obligation.
  intros ms [] s ->. cbn. f_equal. rewrite <- (app_nil_r ms) at 3. f_equal.
  apply elem_of_nil_inv. intros m [Hn Hm]%list_elem_of_filter. contradiction.
Qed.

Example connects_to_a_database_one_release_old :
  attestation_connect "postgres://" (take 9 attestation_migrations) = (Started tt, attestation_migrations) /\
  fst (attestation_connect "elsewhere" []) = Refused "connecting to Postgres".
Proof. split; vm_compute; reflexivity. Qed.
End Database.

(** ** [invite-tickets/examples/seed_pool.rs] *)
Module SeedPool.
Import Tickets.

Definition DEV_INVITER : string := "5GrwvaEF5zXb26Fz9rcQpDWS57CtERHpNehXCPcNoHGKutQY".
Definition USAGE : string := "usage: seed_pool <Game|ProofOfInk> <westend2|paseo|polkadot> <count>".

Section seed.
Context (cr : TicketCrates).
#[local] Open Scope dub_scope.

(** The arguments after the program's name; what follows the third is not read. *)
Definition seed_args (args : list string) : result (Dim * Network * Z) string :=
  match args with
  | d :: n :: c :: _ =>
      match Dim_from_str d, Network_from_str n, Config.parse_uint U32_MAX c with
      | Some dim, Some network, Ok count => Ok (dim, network, count)
      | _, _, _ => Err USAGE
      end
  | _ => Err USAGE
  end.

(** The loop: [seeds] are the seeds drawn, [clocks] the database's, [up] whether each
    insert is carried out. *)
Fixpoint seed_loop (dim : Dim) (network : Network) (seeds : list bytes) (clocks : nat -> Z) (up : nat -> bool) (t : TicketTable)
    : result unit string * TicketTable :=
  match seeds with
  | [] => (Ok tt, t)
  | seed :: rest =>
      match from_stored_secret cr seed with
      | Err _ => (Err "invalid ticket secret", t)
      | Ok kp =>
          if up (length rest)
          then seed_loop dim network rest clocks up
                 (insert_available (clocks (length rest)) (public_bytes cr kp) seed dim network DEV_INVITER t)
          else (Err "database error", t)
      end
  end.

(** The whole run, over a database that is connected: what it prints as available. *)
Definition seed_pool (args : list string) (seeds : Z -> list bytes) (clocks : nat -> Z) (up : nat -> bool) (t : TicketTable)
    : result Z string * TicketTable :=
  match seed_args args with
  | Err e => (Err e, t)
  | Ok (dim, network, count) =>
      match seed_loop dim network (seeds count) clocks up t with
      | (Err e, t') => (Err e, t')
      | (Ok _, t') => (Ok (count_available dim network t'), t')
      end
  end.

Definition key_of (seed : bytes) : option bytes :=
  match from_stored_secret cr seed with Ok kp => Some (public_bytes cr kp) | Err _ => None end.

(** Seeding with keys the table lacks puts exactly that many tickets into the pool, all
    with the seed as their secret, and leaves the tickets that were there. *)
Lemma seeded_pool dim network seeds clocks up t keys :
  mapM key_of seeds = Some keys -> NoDup keys -> (forall k, k ∈ keys -> t !! k = None) -> (forall i, up i = true) ->
  exists t', seed_loop dim network seeds clocks up t = (Ok tt, t') /\ t ⊆ t' /\
    count_available dim network t' = count_available dim network t + Z.of_nat (length seeds).
Proof.
  intros Hk Hn Hf Hu. revert t keys Hk Hn Hf. induction seeds as [|seed seeds IH]; intros t keys Hk Hn Hf.
  - exists t. cbn. split_and!; [done..|lia].
  - cbn [mapM] in Hk. destruct (key_of seed) as [k|] eqn:Ek; [|discriminate]. cbn in Hk.
    destruct (mapM key_of seeds) as [ks|] eqn:Eks; [|discriminate]. cbn in Hk. injection Hk as <-.
    apply NoDup_cons in Hn as [Hk Hn]. unfold key_of in Ek. cbn [seed_loop]. rewrite Hu.
    destruct (from_stored_secret cr seed) as [kp|]; [|discriminate]. injection Ek as <-.
    assert (Hnone : t !! public_bytes cr kp = None) by (apply Hf; apply list_elem_of_here).
    unfold insert_available. rewrite Hnone.
    match goal with |- context [<[public_bytes cr kp := ?row]> t] =>
      destruct (IH (<[public_bytes cr kp := row]> t) ks eq_refl Hn) as (t' & -> & Hsub & Hc) end.
    { intros k' Hk'. rewrite lookup_insert_ne by congruence. apply Hf. by apply list_elem_of_further. }
    eexists. split; [reflexivity|]. split; [etransitivity; [by apply insert_subseteq|exact Hsub]|].
    rewrite Hc, TicketProps.count_insert, delete_id by done. unfold in_pool. cbn. rewrite !bool_decide_eq_true_2 by done. cbn. lia.
Qed.
End seed.
End SeedPool.

(** ** [Debug] of what holds a secret *)
Module Redaction.
Import Config ConfigProps.

(** What an implementation of [Debug] hands to the formatter, which prints it and
    nothing else. *)
Inductive Debug :=
| DStr (s : string) | DNum (n : Z) | DBool (b : bool) | DBytes (b : bytes) | DSeconds (n : Z) | DMillis (n : Z)
| DTime (t : Z) | DAddr (text : string) | DName (variant : string) | DNone | DSome (d : Debug)
| DList (l : list Debug) | DStruct (name : string) (fields : list (string * Debug)).

Definition REDACTED : Debug := DStr "<redacted>".
Definition option_debug {A : Type} (f : A -> Debug) (o : option A) : Debug :=
  match o with None => DNone | Some a => DSome (f a) end.

(** [secrecy]'s wrappers print one text of their own, whatever they hold; a socket
    address prints as it displays. *)
Class DebugCrates (cr : ConfigCrates) := {
  addr_text : SocketAddr cr -> string;
  secret_text : bytes -> string;
  secret_hidden : forall a b, secret_text a = secret_text b }.

Section debug.
Context (cr : ConfigCrates) `{dc : DebugCrates cr}.

Definition addr_debug (a : SocketAddr cr) : Debug := DAddr (addr_text a).
Definition secret_debug (b : bytes) : Debug := DName (secret_text b).

(** *** [turn]: [config.rs], [credentials.rs], [cloudflare.rs] *)

Definition Algorithm_debug (a : Turn.Algorithm) : Debug :=
  DName (match a with Turn.Sha1 => "Sha1" | Turn.Sha256 => "Sha256" | Turn.Sha384 => "Sha384" | Turn.Sha512 => "Sha512" end).

Definition ProviderConfig_debug (p : Turn.ProviderConfig) : Debug :=
  match p with
  | Turn.PCloudflare key_id _ base_url =>
      DStruct "Cloudflare" [("key_id", DStr key_id); ("api_token", REDACTED); ("base_url", option_debug DStr base_url)]
  | Turn.PCoturn _ algorithm realm ice_servers =>
      DStruct "Coturn" [("secret", REDACTED); ("algorithm", Algorithm_debug algorithm); ("realm", DStr realm);
                        ("ice_servers", DList (DStr <$> ice_servers))]
  end.

(** The contexts are in a [BTreeMap], so in the order of their products. *)
Definition in_order (m : gmap string bytes) : list (string * bytes) :=
  merge_sort (fun a b : string * bytes => Is_true (String.leb a.1 b.1)) (map_to_list m).

Definition ProofConfig_debug (p : ProofConfig) : Debug :=
  DStruct "ProofConfig"
    [("rpc_url", DStr (pc_rpc_url p)); ("genesis", DStr (hex_encode (pc_genesis p)));
     ("contexts", DList ((fun e => DStr (e.1 +:+ "=" +:+ hex_encode e.2)) <$> in_order (pc_contexts p)));
     ("concurrency", DNum (pc_concurrency p))].

Definition TurnConfig_debug (c : TurnConfig cr) : Debug :=
  DStruct "Config"
    [("bind_addr", addr_debug (tc_bind_addr cr c)); ("ttl_secs", DNum (tc_ttl_secs cr c));
     ("provider", ProviderConfig_debug (tc_provider cr c)); ("jwt_verifier", DStr "<jwt_verifier>");
     ("rate_limit", DNum (tc_rate_limit cr c)); ("rate_window", DSeconds (tc_rate_window cr c));
     ("proof", option_debug ProofConfig_debug (tc_proof cr c))].

Definition Issuer_debug (i : Turn.Issuer) : Debug :=
  DStruct "Issuer" [("secret", REDACTED); ("algorithm", Algorithm_debug (Turn.is_algorithm i)); ("ttl_secs", DNum (Turn.is_ttl_secs i))].

Definition Client_debug (c : Turn.Client) : Debug :=
  DStruct "Client" [("key_id", DStr (Turn.cl_key_id c)); ("api_token", REDACTED); ("base_url", DStr (Turn.cl_base_url c));
                    ("ttl_secs", DNum (Turn.cl_ttl_secs c))].

(** *** [notifications]: [provider/apns.rs], [provider/fcm.rs] *)

Definition ApnsConfig_debug (c : Notify.ApnsConfig) : Debug :=
  DStruct "ApnsConfig"
    [("private_key", REDACTED); ("key_id", DStr (Notify.ap_key_id c)); ("team_id", DStr (Notify.ap_team_id c));
     ("topic", DStr (Notify.ap_topic c));
     ("environment", DName (match Notify.ap_environment c with Notify.Production => "Production" | Notify.Development => "Development" end))].

Definition FcmConfig_debug (c : Notify.FcmConfig) : Debug :=
  DStruct "FcmConfig"
    [("project_id", DStr (Notify.fc_project_id c)); ("client_email", DStr (Notify.fc_client_email c)); ("private_key", REDACTED)].

(** *** [invite-tickets]: [config.rs], [pool.rs], [tickets.rs] *)

Definition Network_debug (n : Tickets.Network) : Debug :=
  DName (match n with Tickets.Westend2 => "Westend2" | Tickets.Paseo => "Paseo" | Tickets.Polkadot => "Polkadot" end).
Definition Dim_debug (d : Tickets.Dim) : Debug :=
  DName (match d with Tickets.Game => "Game" | Tickets.ProofOfInk => "ProofOfInk" end).

Definition TicketConfig_debug (c : TicketConfig cr) : Debug :=
  DStruct "Config"
    [("bind_addr", addr_debug (kc_bind_addr cr c)); ("database_url", REDACTED); ("network", Network_debug (kc_network cr c));
     ("jwt_verifier", DStr "<jwt_verifier>"); ("rate_limit", DNum (kc_rate_limit cr c));
     ("rate_window", DSeconds (kc_rate_window cr c))].

Definition PoolTuning_debug (t : Tickets.PoolTuning) : Debug :=
  DStruct "PoolTuning"
    [("interval", DMillis (Tickets.interval t)); ("target", DNum (Tickets.target t)); ("batch_max", DNum (Tickets.batch_max t));
     ("finalize_timeout", DMillis (Tickets.finalize_timeout t))].

Definition MaintainerConfig_debug (c : MaintainerConfig) : Debug :=
  DStruct "MaintainerConfig"
    [("database_url", REDACTED); ("people_rpc_url", DStr (mc_people_rpc_url c)); ("network", Network_debug (mc_network c));
     ("inviter_address", DStr (mc_inviter_address c)); ("signer_secret", REDACTED);
     ("dims", DList (Dim_debug <$> mc_dims c)); ("tuning", PoolTuning_debug (mc_tuning c))].

Definition ClaimedTicket_debug (t : Tickets.ClaimedTicket) : Debug :=
  DStruct "ClaimedTicket"
    [("public_key", DStr (hex_encode (Tickets.ct_public_key t))); ("private_key", REDACTED);
     ("inviter", DStr (Tickets.ct_inviter t)); ("created_at", DTime (Tickets.ct_created_at t))].

(** *** [username-indexer]: [poc.rs], and the derived one of [config.rs] *)

Definition Poc_debug (g : Poc.PocGate) : Debug :=
  DStruct "Poc" [("secret", REDACTED); ("difficulty", DNum (Poc.gate_difficulty g))].

Definition IndexerConfig_debug (c : IndexerConfig cr) : Debug :=
  DStruct "Config"
    [("bind_addr", addr_debug (ic_bind_addr cr c)); ("database_url", DStr (ic_database_url cr c));
     ("people_rpc_url", DStr (ic_people_rpc_url cr c)); ("storage_page_size", DNum (ic_storage_page_size cr c));
     ("sync_interval_secs", DNum (ic_sync_interval_secs cr c)); ("search_rate_limit", DNum (ic_search_rate_limit cr c));
     ("search_rate_limit_window_secs", DNum (ic_search_rate_limit_window_secs cr c));
     ("poc_difficulty_bits", DNum (ic_poc_difficulty_bits cr c)); ("speculative_indexing", DBool (ic_speculative_indexing cr c));
     ("poc_hmac_secret", option_debug DStr (ic_poc_hmac_secret cr c))].

(** *** [device-attestation]: [config.rs], [auth/play_integrity/google.rs] *)

Definition GoogleCredentials_debug (g : GoogleCredentials) : Debug :=
  DStruct "GoogleCredentials" [("client_email", DStr (gc_client_email g)); ("private_key", REDACTED)].

Definition DeviceCheckConfig_debug (d : DeviceCheckConfig) : Debug :=
  DStruct "DeviceCheckConfig"
    [("team_id", DStr (dcc_team_id d)); ("key_id", DStr (dcc_key_id d));
     ("private_key_pem", secret_debug (as_bytes (dcc_private_key_pem d))); ("base_url", DStr (dcc_base_url d))].

Definition WidevineConfig_debug (w : WidevineConfig) : Debug :=
  DStruct "WidevineConfig" [("enforce", DBool (wv_enforce w)); ("hmac_key", secret_debug (wv_hmac_key w))].

Definition PlayIntegrityMode_debug (m : PlayIntegrity.PlayIntegrityMode) : Debug :=
  DName (match m with
         | PlayIntegrity.Strict => "Strict" | PlayIntegrity.RelaxedDevice => "RelaxedDevice"
         | PlayIntegrity.RelaxedAll => "RelaxedAll"
         end).

Definition AttestationConfig_debug (c : AttestationConfig cr) : Debug :=
  let auth := ac_auth cr c in
  DStruct "Config"
    [("bind_addr", addr_debug (ac_bind_addr cr c)); ("database_url", secret_debug (as_bytes (ac_database_url cr c)));
     ("jwt_secret", secret_debug (ac_jwt_secret cr c)); ("jwt_issuer", DStr (ac_jwt_issuer cr c));
     ("people_rpc_url", DStr (ac_people_rpc_url cr c)); ("attester_account", DBytes (ac_attester_account cr c));
     ("access_ttl", DSeconds (Auth.access_ttl auth)); ("refresh_ttl", DSeconds (Auth.refresh_ttl auth));
     ("challenge_ttl", DSeconds (ac_challenge_ttl cr c)); ("auth_rate_limit", DNum (ac_auth_rate_limit cr c));
     ("auth_rate_window", DSeconds (ac_auth_rate_window cr c)); ("auth_enabled", DBool (Auth.auth_enabled auth));
     ("enforce_auth", DBool (Auth.enforce_auth auth)); ("queue_enabled", DBool (ac_queue_enabled cr c));
     ("registration_vouchers_enabled", DBool (ac_registration_vouchers_enabled cr c));
     ("dotns_intake_freshness_max_age_secs", DNum (ac_dotns_intake_freshness_max_age_secs cr c));
     ("dotns_max_future_skew_secs", DNum (ac_dotns_max_future_skew_secs cr c));
     ("apple_app_attest_app_ids", DList (DStr <$> Auth.apple_app_attest_app_ids auth));
     ("ios_package_names", DList (DStr <$> Auth.ios_package_names auth));
     ("android_package_names", DList (DStr <$> Auth.android_package_names auth));
     ("android_signing_digest_playstore", option_debug DBytes (Auth.android_signing_digest_playstore auth));
     ("android_signing_digest_website", option_debug DBytes (Auth.android_signing_digest_website auth));
     ("android_crl_url", DStr (ac_android_crl_url cr c)); ("android_crl_cache_ttl", DSeconds (ac_android_crl_cache_ttl cr c));
     ("android_crl_max_stale", DSeconds (ac_android_crl_max_stale cr c));
     ("play_integrity_mode", PlayIntegrityMode_debug (Auth.play_integrity_mode auth));
     ("play_integrity_decryption_key", option_debug secret_debug (Auth.play_integrity_decryption_key auth));
     ("play_integrity_verification_key", option_debug DBytes (Auth.play_integrity_verification_key auth));
     ("google_credentials", option_debug GoogleCredentials_debug (ac_google_credentials cr c));
     ("device_check", option_debug DeviceCheckConfig_debug (ac_device_check cr c));
     ("widevine", option_debug WidevineConfig_debug (ac_widevine cr c))].

(** *** What is printed does not depend on the secrets *)

(** The environment with other values for some variables. *)
Definition replaced (secrets : list string) (other env : Env) : Env :=
  fun key => if bool_decide (key ∈ secrets) then other key else env key.

Definition TURN_SECRETS : list string := ["TURN_API_TOKEN"; "TURN_SECRET"].
Definition TICKET_SECRETS : list string := ["INVITE_TICKETS_DATABASE_URL"].
Definition POOL_SECRETS : list string := ["INVITE_TICKETS_DATABASE_URL"; "INVITER_SIGNER_SURI"].
Definition APNS_SECRETS : list string := ["APNS_PRIVATE_KEY"].
Definition ATTESTATION_SECRETS : list string :=
  ["DEVICE_ATTESTATION_DATABASE_URL"; "JWT_ED25519_SECRET"; "PLAY_INTEGRITY_DECRYPTION_KEY"; "DEVICE_CHECK_PRIVATE_KEY";
   "WIDEVINE_DEDUP_HMAC_KEY"].

(** Two readings that bind in step: equal values are identified. *)
Ltac bind_both H H' :=
  let E := fresh "E" in let E' := fresh "E" in
  apply rbind_ok in H as (? & E & H); apply rbind_ok in H' as (? & E' & H');
  try (let Q := fresh in pose proof (eq_trans (eq_sym E) E') as Q; injection Q as Q; subst; clear E').

Ltac binds_both H H' :=
  repeat (bind_both H H'; repeat match goal with x : (_ * _)%type |- _ => destruct x end).

Lemma provider_secrets_hidden other env p p' :
  provider_from_env cr env = Ok p -> provider_from_env cr (replaced TURN_SECRETS other env) = Ok p' ->
  ProviderConfig_debug p = ProviderConfig_debug p'.
Proof.
  intros H H'. unfold provider_from_env in H, H'. bind_both H H'.
  destruct (String.eqb _ "cloudflare").
  - destruct (match env _ with Some _ => _ | None => _ end); [discriminate H|].
    destruct (match replaced _ _ _ _ with Some _ => _ | None => _ end); [discriminate H'|].
    binds_both H H'. injection H as <-. injection H' as <-. reflexivity.
  - destruct (String.eqb _ "coturn"); [|discriminate H]. binds_both H H'. injection H as <-. injection H' as <-. reflexivity.
Qed.

Lemma turn_secrets_hidden turn other env c c' :
  TurnConfig_from_env cr env turn = Ok c -> TurnConfig_from_env cr (replaced TURN_SECRETS other env) turn = Ok c' ->
  TurnConfig_debug c = TurnConfig_debug c'.
Proof.
  intros H H'. unfold TurnConfig_from_env in H, H'. binds_both H H'.
  pose proof (provider_secrets_hidden other env _ _ E1 E2) as Hp.
  injection H as <-. injection H' as <-. unfold TurnConfig_debug. cbn. by rewrite Hp.
Qed.

Lemma ticket_secrets_hidden other env c c' :
  TicketConfig_from_env cr env = Ok c -> TicketConfig_from_env cr (replaced TICKET_SECRETS other env) = Ok c' ->
  TicketConfig_debug c = TicketConfig_debug c'.
Proof.
  intros H H'. unfold TicketConfig_from_env in H, H'. binds_both H H'. injection H as <-. injection H' as <-. reflexivity.
Qed.

Lemma pool_secrets_hidden other env c c' :
  MaintainerConfig_from_env cr env = Ok c -> MaintainerConfig_from_env cr (replaced POOL_SECRETS other env) = Ok c' ->
  MaintainerConfig_debug c = MaintainerConfig_debug c'.
Proof.
  intros H H'. unfold MaintainerConfig_from_env in H, H'. binds_both H H'. injection H as <-. injection H' as <-. reflexivity.
Qed.

Lemma secret_debug_same a b : secret_debug a = secret_debug b.
Proof. unfold secret_debug. by rewrite (secret_hidden a b). Qed.

Lemma device_check_secrets_hidden other env d d' :
  parse_device_check cr env = Ok d -> parse_device_check cr (replaced ATTESTATION_SECRETS other env) = Ok d' ->
  option_debug DeviceCheckConfig_debug d = option_debug DeviceCheckConfig_debug d'.
Proof.
  intros H H'. unfold parse_device_check in H, H'. bind_both H H'. destruct (negb _); [congruence|].
  binds_both H H'. injection H as <-. injection H' as <-. unfold DeviceCheckConfig_debug. cbn [option_debug dcc_team_id dcc_key_id dcc_private_key_pem dcc_base_url].
  erewrite secret_debug_same. reflexivity.
Qed.

Lemma widevine_secrets_hidden other env w w' :
  parse_widevine cr env = Ok w -> parse_widevine cr (replaced ATTESTATION_SECRETS other env) = Ok w' ->
  option_debug WidevineConfig_debug w = option_debug WidevineConfig_debug w'.
Proof.
  intros H H'. unfold parse_widevine in H, H'. bind_both H H'. destruct (negb _); [congruence|].
  binds_both H H'. injection H as <-. injection H' as <-. unfold WidevineConfig_debug. cbn [option_debug wv_enforce wv_hmac_key].
  erewrite secret_debug_same. reflexivity.
Qed.

(** Whether the decryption key is set shows, and is what the verification key says. *)
Lemma same_presence {A B : Type} (x x' : option A) (y : option B) f e u u' :
  (forall a b : A, f a = f b) ->
  (if negb (Bool.eqb (is_none x) (is_none y)) then Err e else Ok tt : result unit ConfigError) = Ok u ->
  (if negb (Bool.eqb (is_none x') (is_none y)) then Err e else Ok tt : result unit ConfigError) = Ok u' ->
  option_debug f x = option_debug f x'.
Proof. intros Hf. destruct x, x', y; cbn; try discriminate; intros _ _; f_equal; auto. Qed.

Lemma attestation_secrets_hidden other env c c' :
  AttestationConfig_from_env cr env = Ok c -> AttestationConfig_from_env cr (replaced ATTESTATION_SECRETS other env) = Ok c' ->
  AttestationConfig_debug c = AttestationConfig_debug c'.
Proof.
  intros H H'. unfold AttestationConfig_from_env in H, H'. binds_both H H'. injection H as <-. injection H' as <-.
  match goal with
  | H1 : (if _ then _ else _) = Ok _, H2 : (if _ then _ else _) = Ok _ |- _ =>
      pose proof (same_presence _ _ _ secret_debug _ _ _ secret_debug_same H1 H2) as Hk
  end.
  match goal with
  | H1 : parse_device_check _ _ = Ok _, H2 : parse_device_check _ (replaced _ _ _) = Ok _ |- _ =>
      pose proof (device_check_secrets_hidden other env _ _ H1 H2) as Hd
  end.
  match goal with
  | H1 : parse_widevine _ _ = Ok ?w, H2 : parse_widevine _ (replaced _ _ _) = Ok ?w' |- context [?w] =>
      pose proof (widevine_secrets_hidden other env w w' H1 H2) as Hw
  end.
  assert (Hs : exists hidden, forall a, secret_debug a = hidden) by (exists (secret_debug []); intros; apply secret_debug_same).
  destruct Hs as [hidden Hs]. unfold AttestationConfig_debug.
  cbn [ac_database_url ac_jwt_secret ac_auth ac_device_check ac_widevine Auth.play_integrity_decryption_key].
  rewrite Hk, Hd, Hw, !Hs. reflexivity.
Qed.

Lemma apns_secrets_hidden other files env a a' :
  ApnsConfig_from_env env files = Ok (Some a) ->
  ApnsConfig_from_env (replaced APNS_SECRETS other env) files = Ok (Some a') -> ApnsConfig_debug a = ApnsConfig_debug a'.
Proof.
  intros H H'. apply rbind_ok in H as (k & _ & H), H' as (k' & _ & H'). unfold ApnsConfig_from_getter in H, H'.
  destruct (match _ with Some v => if blank v then None else Some v | None => None end) as [key|]; [|discriminate H].
  destruct (match (if String.eqb "APNS_PRIVATE_KEY" "APNS_PRIVATE_KEY" then k' else _) with Some v => _ | None => None end)
    as [key'|]; [|discriminate H'].
  binds_both H H'. injection H as <-. injection H' as <-. reflexivity.
Qed.

(** Whatever values the secret variables have, a service that starts prints the same
    configuration: the API tokens and shared secrets of TURN, the database's address and
    the signing key of the tickets, the push key, and every secret of the attestation
    service.  Two accounts of Google or Firebase that differ in the key alone print the
    same, and so do two tickets, gates or credential issuers. *)
Theorem secrets_not_printed turn files other env :
  (forall c c', TurnConfig_from_env cr env turn = Ok c ->
     TurnConfig_from_env cr (replaced TURN_SECRETS other env) turn = Ok c' -> TurnConfig_debug c = TurnConfig_debug c') /\
  (forall c c', TicketConfig_from_env cr env = Ok c ->
     TicketConfig_from_env cr (replaced TICKET_SECRETS other env) = Ok c' -> TicketConfig_debug c = TicketConfig_debug c') /\
  (forall c c', MaintainerConfig_from_env cr env = Ok c ->
     MaintainerConfig_from_env cr (replaced POOL_SECRETS other env) = Ok c' -> MaintainerConfig_debug c = MaintainerConfig_debug c') /\
  (forall c c', AttestationConfig_from_env cr env = Ok c ->
     AttestationConfig_from_env cr (replaced ATTESTATION_SECRETS other env) = Ok c' ->
     AttestationConfig_debug c = AttestationConfig_debug c') /\
  (forall a a', ApnsConfig_from_env env files = Ok (Some a) ->
     ApnsConfig_from_env (replaced APNS_SECRETS other env) files = Ok (Some a') -> ApnsConfig_debug a = ApnsConfig_debug a') /\
  (forall email k k', GoogleCredentials_debug {| gc_client_email := email; gc_private_key := k |} =
     GoogleCredentials_debug {| gc_client_email := email; gc_private_key := k' |}) /\
  (forall project email k k',
     FcmConfig_debug {| Notify.fc_project_id := project; Notify.fc_client_email := email; Notify.fc_private_key := k |} =
     FcmConfig_debug {| Notify.fc_project_id := project; Notify.fc_client_email := email; Notify.fc_private_key := k' |}) /\
  (forall pub k k' inviter at_,
     ClaimedTicket_debug {| Tickets.ct_public_key := pub; Tickets.ct_private_key := k; Tickets.ct_inviter := inviter; Tickets.ct_created_at := at_ |} =
     ClaimedTicket_debug {| Tickets.ct_public_key := pub; Tickets.ct_private_key := k'; Tickets.ct_inviter := inviter; Tickets.ct_created_at := at_ |}) /\
  (forall k k' d, Poc_debug {| Poc.secret := k; Poc.gate_difficulty := d |} = Poc_debug {| Poc.secret := k'; Poc.gate_difficulty := d |}) /\
  (forall p p' ttl, ProviderConfig_debug p = ProviderConfig_debug p' ->
     match Turn.Source_new p ttl, Turn.Source_new p' ttl with
     | Turn.Cloudflare c, Turn.Cloudflare c' => Client_debug c = Client_debug c'
     | Turn.Coturn i _ _, Turn.Coturn i' _ _ => Issuer_debug i = Issuer_debug i'
     | _, _ => False
     end).
Proof.
  split_and!; [apply turn_secrets_hidden|apply ticket_secrets_hidden|apply pool_secrets_hidden|apply attestation_secrets_hidden
              |apply apns_secrets_hidden|done..|].
  intros [key token base|secret a realm servers] [key' token' base'|secret' a' realm' servers'] ttl; cbn; try discriminate.
  - intros [= -> Hb]. destruct base, base'; cbn in Hb; (discriminate Hb || injection Hb as ->) || clear Hb; reflexivity.
  - intros [= Ha _ _]. unfold Issuer_debug, Algorithm_debug. cbn [Turn.is_algorithm Turn.is_ttl_secs]. by rewrite Ha.
Qed.

(** The indexer's configuration derives its [Debug]: it tells the address of the
    database, with its password, and the keying material of the gate. *)
Lemma indexer_config_tells c c' :
  IndexerConfig_debug c = IndexerConfig_debug c' ->
  ic_database_url cr c = ic_database_url cr c' /\ ic_poc_hmac_secret cr c = ic_poc_hmac_secret cr c'.
Proof.
  intros [= _ Hd _ _ _ _ _ _ _ Hs]. split; [exact Hd|].
  destruct (ic_poc_hmac_secret cr c), (ic_poc_hmac_secret cr c'); cbn in Hs; try discriminate Hs; congruence.
Qed.
End debug.
End Redaction.
