(* ===== verification/Observe.v ===== *)
(** * Observe: the writer's and the ticket pool's meters, and the maintainer's process

    [chain/writer/observe.rs] and the calls of it in both lanes' [record]; the indexer's
    gauges ([username-indexer/src/sync.rs]); the counters of
    [invite-tickets/src/pool.rs], its readiness, its start, and the extrinsic its
    batches are ([invite-tickets/src/chain.rs]). *)

From stdpp Require Import gmap.
From S2P Require Import Prelude Strings Text Schema Outbox WriterLane WriterTx WriterPeople WriterDotns.
From S2P Require Import Projection Indexer IndexerRun.
From S2P Require Import DeviceGate Usernames Writer Tickets Config ConfigProps ChainClient TicketClaims.

#[local] Open Scope dub_scope.
#[local] Open Scope string_scope.
#[local] Open Scope Z_scope.

Module Observe.
Import WriterLane.

(** ** Counters and gauges *)

(** A series: the family and its labels. *)
Definition Series : Type := string * list string.
Abbreviation Meters := (gmap Series Z).

Definition increment (by_ : Z) (s : Series) (m : Meters) : Meters := <[ s := default 0 (m !! s) + by_ ]> m.
(** [absolute(0)] registers the series; a count it has stays. *)
Definition absolute_zero (s : Series) (m : Meters) : Meters := <[ s := default 0 (m !! s) ]> m.
Definition set_gauge (v : Z) (s : Series) (m : Meters) : Meters := <[ s := v ]> m.

Definition submit_total (lane outcome : string) : Series := ("dub_chain_submit_total", [lane; outcome]).

(** ** [chain/writer/observe.rs] *)

Definition hex_account (b : bytes) : string := "0x" +:+ hex_encode b.

Definition record_writer_info (attester signer : bytes) : Meters -> Meters :=
  set_gauge 1 ("dub_writer_info", [hex_account signer; hex_account attester]).

(** The versions of the current block; a failed read is a log line. *)
Definition record_spec_version (chain : string) (at_ : result (Z * Z) string) (m : Meters) : Meters :=
  match at_ with
  | Ok (spec_version, transaction_version) =>
      set_gauge transaction_version ("dub_chain_transaction_version", [chain])
        (set_gauge spec_version ("dub_chain_spec_version", [chain]) m)
  | Err _ => m
  end.

Definition SUBMIT_LANES : list string := ["people"; "dotns"].
Definition SUBMIT_OUTCOMES : list string := ["ok"; "retry"; "deferred"; "terminal"].

Definition zero_init_submit_outcomes (m : Meters) : Meters :=
  foldl (fun m lane =>
    let m := foldl (fun m outcome => absolute_zero (submit_total lane outcome) m) m SUBMIT_OUTCOMES in
    absolute_zero ("dub_chain_batch_item_failed_total", [lane])
      (absolute_zero ("dub_chain_batch_failed_total", [lane]) m)) m SUBMIT_LANES.

Definition record_submit_outcome (lane outcome : string) : Meters -> Meters := increment 1 (submit_total lane outcome).

(** Of a table's rows by status: the depth and the age of the oldest, in the unit of the
    database's clock. *)
Definition status_gauges (depth_family age_family : string) (rows : list (string * StatusDepth)) (m : Meters) : Meters :=
  foldl (fun m sd =>
    set_gauge (default 0 (oldest_age sd.2)) (age_family, [sd.1])
      (set_gauge (Z.of_nat (depth sd.2)) (depth_family, [sd.1]) m)) m rows.

(** The fates of the two reads; a read that fails leaves what came before it. *)
Definition record_outbox_gauges (people dotns : bool) (now : Z) (db : Db) (m : Meters) : bool * Meters :=
  if negb people then (false, m)
  else
    let rows := (fun sd => (Status_as_str sd.1, sd.2)) <$> depth_by_status now db in
    let m := status_gauges "dub_outbox_depth" "dub_outbox_oldest_age_seconds" rows m in
    if negb dotns then (false, m)
    else
      let rows := (fun sd => (DotnsStatus_as_str sd.1, sd.2)) <$> dotns_depth_by_status now db in
      (true, status_gauges "dub_dotns_outbox_depth" "dub_dotns_outbox_oldest_age_seconds" rows m).

(** ** The lanes' [record] *)

Definition observe_defer (lane : string) (cause : Defer) (m : Meters) : Meters :=
  match cause with
  | DBatch => record_submit_outcome lane "retry" m
  | DSigner | DStaleNonce => record_submit_outcome lane "deferred" m
  | DNotYet => m
  end.

(** What a lane counts once an outcome is written. *)
Definition observe (lane : string) (o : Outcome) (m : Meters) : Meters :=
  match o with
  | Landed | Observed => record_submit_outcome lane "ok" m
  | Retry _ => record_submit_outcome lane "retry" m
  | Park _ => record_submit_outcome lane "parked" m
  | Deferred _ _ cause => observe_defer lane cause m
  | OFailed _ | OExpired _ => record_submit_outcome lane "terminal" m
  end.

(** A record with its count: a write the lease refuses counts nothing. *)
Definition counted (lane : string) (record : Db -> result unit Op * Db) (o : Outcome) (db : Db) (m : Meters)
    : result unit Op * Db * Meters :=
  let '(r, db') := record db in (r, db', match r with Ok _ => observe lane o m | Err _ => m end).

Definition people_counted (now app : Z) (g : Guard) (r : Reservation) (o : Outcome) : Db -> Meters -> result unit Op * Db * Meters :=
  counted "people" (WriterPeople.people_record now app g r o) o.

Definition dotns_counted (now app : Z) (g : Guard) (r : Reservation) (o : Outcome) : Db -> Meters -> result unit Op * Db * Meters :=
  counted "dotns" (WriterDotns.dotns_record now app g r o) o.

(** ** [invite-tickets/src/pool.rs] *)

Definition POOL_SUBMIT_OUTCOMES : list string := ["ok"; "retry"; "terminal"].

Definition pool_record_submit_outcome (outcome : string) (count : Z) (m : Meters) : Meters :=
  if count =? 0 then m else increment count (submit_total "invite" outcome) m.

Definition pool_zero_init_submit_outcomes (m : Meters) : Meters :=
  foldl (fun m outcome => absolute_zero (submit_total "invite" outcome) m) m POOL_SUBMIT_OUTCOMES.

(** A tick that finalized a batch of [size], and one that failed. *)
Definition batch_counts (size inserted : Z) (m : Meters) : Meters :=
  pool_record_submit_outcome "terminal" (size - inserted) (pool_record_submit_outcome "ok" inserted m).
Definition failed_tick_counts : Meters -> Meters := pool_record_submit_outcome "retry" 1.

Definition record_inviter_balance (balance : result Z string) (m : Meters) : Meters :=
  match balance with
  | Ok b => set_gauge b ("dub_account_free_balance_planck", ["inviter"; "people"]) m
  | Err _ => m
  end.

(** [Ok]: what is up; [Err]: what is down. *)
Definition readiness (db : result unit string) (chain : result unit string) : result (list string) string :=
  match db with
  | Err _ => Err "db"
  | Ok _ => match chain with Err _ => Err "chain" | Ok _ => Ok ["db"; "chain"] end
  end.

(** ** [username-indexer/src/sync.rs] *)

Definition Wake_as_str (w : IndexerRun.Wake) : string :=
  match w with IndexerRun.WBlock _ => "block" | IndexerRun.WTimer => "timer" | IndexerRun.WResubscribe => "resubscribe" end.

Definition record_best_head_gauges (finalized best : Z) (m : Meters) : Meters :=
  set_gauge (Z.max 0 (best - finalized)) ("dub_chain_finality_trail_blocks", [])
    (set_gauge best ("dub_chain_best_head_block", []) m).

(** [read]: whether the checkpoint could be read. *)
Definition record_lag_gauges (read : bool) (head : Z) (db : Indexer.IndexDb) (m : Meters) : bool * Meters :=
  let m := set_gauge head ("dub_chain_finalized_head_block", []) m in
  if negb read then (false, m)
  else
    match IndexerRun.checkpoint_freshness db with
    | None => (true, m)
    | Some snapshot =>
        let checkpoint := IndexerRun.fs_last_finalized_number snapshot in
        (true, set_gauge (Z.max 0 (head - checkpoint)) ("dub_indexer_checkpoint_lag_blocks", [])
                 (set_gauge checkpoint ("dub_indexer_checkpoint_block", []) m))
    end.

(** ** The batch on chain ([invite-tickets/src/chain.rs]) *)

Definition set_invite_ticket_call (dim : Tickets.Dim) (ticket : bytes) : WriterTx.Value :=
  WriterTx.unnamed_variant (match dim with Tickets.Game => "Game" | Tickets.ProofOfInk => "ProofOfInk" end)
    [WriterTx.unnamed_variant "set_invite_ticket" [WriterTx.from_bytes ticket]].

Definition ticket_payload (dim : Tickets.Dim) (tickets : list bytes) (proxy_for : option bytes) : WriterTx.Payload :=
  let calls := WriterTx.unnamed_composite (set_invite_ticket_call dim <$> tickets) in
  match proxy_for with
  | Some real =>
      WriterTx.tx "Proxy" "proxy"
        [WriterTx.unnamed_variant "Id" [WriterTx.from_bytes real];
         WriterTx.unnamed_variant "Some" [WriterTx.unnamed_variant "Any" []];
         WriterTx.force_batch_call calls]
  | None => WriterTx.tx "Utility" "force_batch" [calls]
  end.

(** ** The maintainer's start *)

Section start.
Context (kc : ChainClient.KeyCrates) (cr : Tickets.TicketCrates).
Context (ccr : Config.ConfigCrates) (db_connect : string -> result unit string).
Context (chain_connect : string -> result unit string).

(** [run]: what it fails with before the loop, or the loop it enters and the meters it
    starts with. *)
Definition run (config : Config.MaintainerConfig) (rounds : nat) (m : Meters)
    : result (Tickets.Prog (option (list (Tickets.Dim * Z))) * Meters) string :=
  let? signer := map_err (fun _ => "invalid signer secret") (ChainClient.from_secret kc (Config.mc_signer_secret config)) in
  let? configured_inviter :=
    map_err (fun _ => "parsing validated INVITER_ADDRESS") (Config.account_from_str ccr (Config.mc_inviter_address config)) in
  let? _ := db_connect (Config.mc_database_url config) in
  let? _ := chain_connect (Config.mc_people_rpc_url config) in
  let identity := {| Tickets.signer := ChainClient.public_bytes kc signer; Tickets.inviter := configured_inviter;
                     Tickets.inviter_ss58 := Config.mc_inviter_address config |} in
  Ok (Tickets.run_loop cr identity (Config.mc_dims config) (Config.mc_network config) (Config.mc_tuning config) rounds,
      pool_zero_init_submit_outcomes m).
End start.

(** ** What the meters and the batches say *)

Definition LABELS : list string := ["ok"; "retry"; "parked"; "deferred"; "terminal"].
Definition total (lane : string) (m : Meters) : Z :=
  foldr (fun outcome n => default 0 (m !! submit_total lane outcome) + n) 0 LABELS.

(** The outcome that counts nothing. *)
Definition uncounted (o : Outcome) : bool := match o with Deferred _ _ DNotYet => true | _ => false end.

(** An outcome that is written counts once, under one label of its lane; one that is
    refused, or a deferral to a later time, counts nothing. *)
Lemma outcome_counts_once lane record o db m r db' m' :
  counted lane record o db m = (r, db', m') ->
  record db = (r, db') /\ total lane m' = total lane m + (if is_ok r && negb (uncounted o) then 1 else 0) /\
  forall lane', lane' <> lane -> total lane' m' = total lane' m.
Proof.
  unfold counted. destruct (record db) as [r0 db0]. intros [= <- <- <-]. split; [done|].
  assert (Hinc : forall label, label ∈ LABELS ->
    total lane (record_submit_outcome lane label m) = total lane m + 1 /\
    forall lane', lane' <> lane -> total lane' (record_submit_outcome lane label m) = total lane' m).
  { intros label Hl. unfold record_submit_outcome, increment, total, submit_total, LABELS. split.
    - unfold LABELS in Hl. rewrite !elem_of_cons, elem_of_nil in Hl. cbn [foldr].
      destruct_or! Hl; subst label;
        repeat first [rewrite lookup_insert_eq | rewrite lookup_insert_ne by (intros [=])]; unfold from_option, Datatypes.id; lia.
    - intros lane' Hne. cbn [foldr]. rewrite !lookup_insert_ne by (intros [=]; congruence). lia. }
  destruct r0 as [[]|]; cbn [is_ok andb]; [|split; [lia|done]].
  destruct o as [| | | |until reason cause| |]; cbn [observe uncounted negb]; try (apply Hinc; unfold LABELS; set_solver).
  destruct cause; cbn [observe_defer uncounted negb]; try (apply Hinc; unfold LABELS; set_solver). split; [lia|done].
Qed.

(** Every series an outcome can count on is registered at zero when the writer starts,
    except the parked one. *)
Lemma registered_at_start lane label :
  lane ∈ SUBMIT_LANES -> label ∈ LABELS ->
  zero_init_submit_outcomes ∅ !! submit_total lane label = if String.eqb label "parked" then None else Some 0.
Proof.
  unfold SUBMIT_LANES, LABELS. rewrite !elem_of_cons, !elem_of_nil. intros Hl Hb.
  destruct_or! Hl; destruct_or! Hb; subst; vm_compute; reflexivity.
Qed.

(** The account whose call a payload is, signed by another. *)
Definition origin (signer : bytes) (p : WriterTx.Payload) : bytes :=
  match p with
  | {| WriterTx.tx_pallet := "Proxy"; WriterTx.tx_call := "proxy";
       WriterTx.tx_args := [WriterTx.unnamed_variant "Id" [WriterTx.from_bytes real]; _; _] |} => real
  | _ => signer
  end.

(** A batch of tickets is, signed by the inviter or by its proxy, one call per key, in
    their order, of the inviter; and its counts add up to its size. *)
Lemma ticket_batch_of_inviter identity dim tickets inserted m :
  let p := ticket_payload dim tickets (Writer.signer_proxy_for (Tickets.signer identity) (Tickets.inviter identity)) in
  origin (Tickets.signer identity) p = Tickets.inviter identity /\
  WriterTx.dispatched p = set_invite_ticket_call dim <$> tickets /\
  (0 <= inserted <= Z.of_nat (length tickets) ->
   total "invite" (batch_counts (Z.of_nat (length tickets)) inserted m) = total "invite" m + Z.of_nat (length tickets)).
Proof.
  cbn zeta. unfold Writer.signer_proxy_for. split_and!.
  - destruct (bool_decide (Tickets.inviter identity = Tickets.signer identity)) eqn:E; [|done]. by apply bool_decide_eq_true in E.
  - by destruct (bool_decide _).
  - intros Hi. unfold batch_counts, pool_record_submit_outcome, increment, total, submit_total, LABELS. cbn [foldr].
    destruct (Z.eqb_spec inserted 0); destruct (Z.eqb_spec (Z.of_nat (length tickets) - inserted) 0);
      repeat first [rewrite lookup_insert_eq | rewrite lookup_insert_ne by (intros [=])]; unfold from_option, Datatypes.id; lia.
Qed.
End Observe.
