(* ===== verification/Surface.v ===== *)
(** * Surface: replies, rate limits and small routes

    The replies of [http-common/src/error.rs], the browser preflights, the
    rate-limiting middleware of the authentication surface ([http/middleware.rs]), the
    availability route ([usernames/available.rs]), the challenge route, the attester
    route, the queue-status route ([queue.rs]) and the puzzle route of the indexer; and
    a client of the handshake ([examples/auth_smoke.rs]). *)

From stdpp Require Import gmap pretty.
From S2P Require Import Prelude Strings Text Schema Lease Outbox Queue QueueDrain QueueProps.
From S2P Require Import DeviceGate Usernames Limiter ChainReads ChainReadProps Jwt.
From S2P Require Import Der KeyAttest KeyAttestProps AppAttest PlayIntegrity Auth AuthProps Poc.
From S2P Require Import PocProps.

#[local] Open Scope dub_scope.
#[local] Open Scope string_scope.
#[local] Open Scope Z_scope.

Module Surface.
Import Usernames Queue.

(** ** [http-common/src/error.rs] *)

Record Reply := { status : Z; headers : gmap string string; body : option Json }.

Definition field_json (e : FieldError) : Json :=
  JObject [("field", JString (fe_field e)); ("message", JString (fe_message e))].

(** [header_ok]: the text is a header value; a text that is not leaves the header out. *)
Definition error_body (header_ok : string -> bool) (st : Z) (message : string) (fields : list FieldError)
    (extra_headers : list (string * string)) : Reply :=
  {| status := st;
     headers := foldl (fun h '(name, value) => if header_ok value then <[ name := value ]> h else h) ∅ extra_headers;
     body := Some (JObject (("error", JString message)
                      :: match fields with [] => [] | _ => [("fields", JArray (field_json <$> fields))] end)) |}.

Section replies.
Context (header_ok : string -> bool).

Definition message (st : Z) (text : string) : Reply := error_body header_ok st text [] [].

Definition missing_auth_header : Reply := message 401 "Missing Authorization header. Include a valid Bearer token.".
Definition invalid_auth_header : Reply :=
  message 401 ("Authorization header must use the Bearer scheme: " +:+ String QUOTE "Bearer <token>" +:+ String QUOTE ".").
Definition invalid_token : Reply := message 401 "Token verification failed. The token may be expired or malformed.".

Definition rate_limited (retry_after_secs : Z) : Reply :=
  error_body header_ok 429
    ("Rate limit exceeded. Please retry after " +:+ decimal retry_after_secs +:+ " seconds.") []
    [("retry-after", decimal retry_after_secs)].

Definition bad_request (detail : string) : Reply := message 400 detail.
Definition payment_required (detail : string) : Reply := message 402 detail.
Definition invalid_body (fields : list FieldError) : Reply :=
  error_body header_ok 400 "The request body contains invalid values." fields [].
Definition invalid_query (fields : list FieldError) : Reply :=
  error_body header_ok 400 "The request query contains invalid values." fields [].
Definition invalid_param (fields : list FieldError) : Reply :=
  error_body header_ok 400 "The request path contains invalid values." fields [].
Definition invalid_header (fields : list FieldError) : Reply :=
  error_body header_ok 400 "The request headers contain invalid values." fields [].
Definition malformed_json : Reply := message 400 "Malformed JSON in request body".
Definition internal : Reply := message 500 "Internal server error. Please try again.".
Definition not_found : Reply := message 404 "Not found".

(** Every reply of the dialect. *)
Inductive dialect : Reply -> Prop :=
| d_missing_auth : dialect missing_auth_header
| d_invalid_auth : dialect invalid_auth_header
| d_invalid_token : dialect invalid_token
| d_rate_limited n : dialect (rate_limited n)
| d_bad_request t : dialect (bad_request t)
| d_payment t : dialect (payment_required t)
| d_body f : dialect (invalid_body f)
| d_query f : dialect (invalid_query f)
| d_param f : dialect (invalid_param f)
| d_header f : dialect (invalid_header f)
| d_malformed : dialect malformed_json
| d_internal : dialect internal
| d_not_found : dialect not_found.

(** The replies are one dialect: a client or server error whose body is an object with
    a text under [error]; a reply without field detail has no [fields]; only a 429 has a
    header, [retry-after], with the number its text names. *)
Lemma dialect_uniform r :
  (forall n, header_ok (decimal n) = true) -> dialect r ->
  400 <= status r < 600 /\ (exists m t, body r = Some (JObject m) /\ json_get "error" (JObject m) = Some (JString t)) /\
  (if status r =? 429 then exists n, headers r = {[ "retry-after" := decimal n ]} else headers r = ∅).
Proof.
  intros Hh [].
  4: { cbn. rewrite Hh. split; [lia|]. split; [by eexists _, _|]. by eexists. }
  all: cbn; split; [lia|]; split; [|done]; by eexists _, _.
Qed.
End replies.

(** ** Browser preflights *)

(** [allow_any_origin] stamps whatever reply the inner service gives. *)
Definition allow_any_origin (r : Reply) : Reply :=
  {| status := status r; headers := <[ "access-control-allow-origin" := "*" ]> (headers r); body := body r |}.

Definition preflight_reply (methods : string) (requested : option string) : Reply :=
  let h := {[ "access-control-allow-methods" := methods ]} in
  let h := match requested with Some v => <[ "access-control-allow-headers" := v ]> h | None => h end in
  {| status := 204; headers := <[ "vary" := "Access-Control-Request-Headers" ]> h; body := None |}.

(** Of the username collection, and of the TURN proof route. *)
Definition collection_preflight (requested : option string) : Reply :=
  preflight_reply "GET,HEAD,PUT,POST,DELETE,PATCH" requested.
Definition preflight (requested : option string) : Reply := preflight_reply "POST,OPTIONS" requested.

(** ** The attester and the puzzle *)

Definition attester (attester_account : bytes) : string := "0x" +:+ hex_encode attester_account.

(** [expect]: the route is mounted only with the gate. *)
Definition issue_puzzle {Poc Puzzle : Type} (poc : option Poc) (issue : Poc -> Puzzle) : option (Z * Puzzle) :=
  p ← poc; Some (201, issue p).

(** ** Challenges ([auth/challenge.rs]) *)

(** [issue]: the challenge drawn is stored and answered; an insert that fails is the
    error of the table. *)
Definition issue_challenge (b64_std : bytes -> string) (now app_now ttl : Z) (drawn : bytes) (db : Db)
    : result (Z * string) string * Db :=
  let '(stored, db') := DeviceGate.create now app_now ttl drawn db in
  (if stored then Ok (201, b64_std drawn) else Err "database error", db').

(** The challenge answered can be spent once within its life, and decodes to the bytes
    that are stored. *)
Lemma issued_challenge_spends b64_std b64_decode now app_now ttl drawn db reply db' later :
  b64_decode (b64_std drawn) = Some drawn ->
  issue_challenge b64_std now app_now ttl drawn db = (Ok reply, db') -> later < app_now + secs ttl ->
  fst reply = 201 /\ b64_decode (snd reply) = Some drawn /\
  exists db2, DeviceGate.consume later drawn db' = (true, db2) /\ fst (DeviceGate.consume later drawn db2) = false.
Proof.
  intros Hb H Hl. unfold issue_challenge, DeviceGate.create in H.
  destruct (db_challenges db !! drawn) as [|] eqn:E; [done|]. injection H as <- <-. cbn [fst snd].
  split; [done|]. split; [done|]. unfold DeviceGate.consume. cbn. rewrite lookup_insert_eq. unfold DeviceGate.consumable at 1. cbn.
  rewrite (proj2 (Z.ltb_lt _ _) Hl). eexists. split; [reflexivity|]. cbn. rewrite lookup_insert_eq. done.
Qed.

(** ** Rate limits *)

Section limits.
Context `{governor : Limiter.Governor}.

(** [http/middleware.rs]: the request is passed on, or refused. *)
Definition auth_key (path ip : string) : string := path +:+ ":" +:+ ip.

Definition rate_limit (now : Z) (path ip : string) (l : Limiter.Limiter) : bool * Limiter.Limiter :=
  let '(r, l) := Limiter.allow now (auth_key path ip) l in
  (match r with Ok _ => true | Err _ => false end, l).

(** [usernames.rs]: keyed by the subject; the wait is rounded down to seconds. *)
Definition subject_key (subject : string) : string := "/api/v1/usernames:" +:+ subject.

Definition check_rate_limit (now : Z) (subject : string) (l : Limiter.Limiter)
    : result unit UsernamesError * Limiter.Limiter :=
  let '(r, l) := Limiter.allow now (subject_key subject) l in
  (match r with Ok _ => Ok tt | Err wait => Err (RateLimited (Z.max 0 (wait - now) / 1000000000)) end, l).

(** ** [usernames/available.rs] *)

(** What the reads of each base meet: the node, and the outbox. *)
Record Reads := { node_of : string -> ChainReads.Node; allocated : string -> option (gset Z) }.

Section available.
Context (cr : ChainReads.ReadCrates) (json_from_slice : bytes -> option Json).

Definition base_state (env : Reads) (base : string) : result BaseState string :=
  base_state_at (ChainReads.base_state cr (node_of env base) base) (allocated env base).

Fixpoint check_bases (env : Reads) (bases : list string) (value : gmap string NameAvailability)
    : result (gmap string NameAvailability) UsernamesError :=
  match bases with
  | [] => Ok value
  | base :: bases' =>
      let? availability := map_err Internal (availability_for (base_state env) base) in
      check_bases env bases' (<[ base := availability ]> value)
  end.

(** The route behind the bearer token. *)
Definition check (now : Z) (env : Reads) (subject : string) (request : bytes) (l : Limiter.Limiter)
    : result (gmap string NameAvailability) UsernamesError * Limiter.Limiter :=
  let '(r, l) := check_rate_limit now subject l in
  (let? _ := r in
   let? value := match json_from_slice request with Some v => Ok v | None => Err MalformedJson end in
   let? usernames := map_err InvalidBody (validate_usernames value) in
   check_bases env usernames ∅, l).
End available.

(** ** [queue.rs]: the status route *)

(** A bucket of its own, apart from that of the username routes. *)
Definition queue_key (subject : string) : string := "/api/v1/registration/queue:" +:+ subject.

(** [snapshot] is what the read of the queued rows gives, or its failure. *)
Definition queue_status (now : Z) (subject : string) (snapshot : result (list QueuedEntry) string)
    (l : Limiter.Limiter) : result QueueStatusResponse UsernamesError * Limiter.Limiter :=
  let '(r, l) := Limiter.allow now (queue_key subject) l in
  (match r with
   | Err wait => Err (RateLimited (Z.max 0 (wait - now) / 1000000000))
   | Ok _ =>
       let? snapshot := map_err Internal snapshot in
       match status_in_snapshot snapshot subject with Some status => Ok status | None => Err NoQueueEntry end
   end, l).
End limits.
End Surface.

(** * What the availability route promises, and the rate of attempts. *)

Module SurfaceProps.
Import Usernames ChainReadProps Surface Queue QueueDrain QueueProps.

(** ** The availability route *)

Lemma username_items_length index items names errors :
  username_items index items = (names, errors) -> (length names <= length items)%nat.
Proof.
  revert index names errors. induction items as [|i items IH]; intros index names errors; cbn [username_items].
  { by intros [= <- <-]. }
  destruct (username_items (S index) items) as [n e] eqn:E. specialize (IH _ _ _ E).
  destruct i; intros [= <- <-]; simpl; lia.
Qed.

Lemma validated_at_most value names : validate_usernames value = Ok names -> (length names <= MAX_USERNAMES)%nat.
Proof.
  unfold validate_usernames. destruct (json_get "usernames" value) as [[| | | |items|]|]; try done.
  destruct (username_items 0 items) as [n e] eqn:E. apply username_items_length in E.
  destruct (Nat.ltb_spec MAX_USERNAMES (length items)); [by destruct e|]. destruct e; [|done]. intros [= <-]. lia.
Qed.

Section route.
Context `{governor : Limiter.Governor} (cr : ChainReads.ReadCrates) (json_from_slice : bytes -> option Json).
Context (store : bytes -> bytes -> option bytes).

Lemma check_bases_spec env bases value m :
  check_bases cr env bases value = Ok m ->
  forall base, if bool_decide (base ∈ bases)
               then exists a, m !! base = Some a /\ availability_for (base_state cr env) base = Ok a
               else m !! base = value !! base.
Proof.
  revert value. induction bases as [|b bases IH]; intros value H base; cbn [check_bases] in H.
  { injection H as ->. by rewrite bool_decide_eq_false_2 by apply not_elem_of_nil. }
  apply rbind_ok in H as (a & Ha & H). apply map_err_ok in Ha. specialize (IH _ H base).
  destruct (decide (base ∈ bases)) as [Hin|Hin].
  - rewrite bool_decide_eq_true_2 in IH by done. by rewrite bool_decide_eq_true_2 by by apply list_elem_of_further.
  - rewrite bool_decide_eq_false_2 in IH by done. destruct (decide (base = b)) as [->|Hne].
    + rewrite bool_decide_eq_true_2 by apply list_elem_of_here. exists a. by rewrite IH, lookup_insert_eq.
    + rewrite bool_decide_eq_false_2 by (by apply not_elem_of_cons). by rewrite IH, lookup_insert_ne.
Qed.

(** C34. The availability route tells the truth.  Over nodes that do, a successful reply
    answers exactly the bases asked for, at most a hundred; it says invalid of exactly
    those that break the name rules, and each digit it offers for a base is between 1
    and 99, not allocated by the outbox, and free on chain in the block read, where the
    bare name is free as well. *)
Theorem available_route_truth now env subject request l m :
  (forall base, honest (node_of env base) store) ->
  fst (check cr json_from_slice now env subject request l) = Ok m ->
  exists value bases, json_from_slice request = Some value /\ validate_usernames value = Ok bases /\
    (length bases <= 100)%nat /\ (forall base, is_Some (m !! base) <-> base ∈ bases) /\
    (forall base, m !! base = Some INVALID <-> base ∈ bases /\ is_valid_base base = false) /\
    forall base digits d, m !! base = Some (AVAILABLE digits) -> d ∈ digits ->
      exists at_ pending, ChainReads.at_current_block (node_of env base) = Ok at_ /\
        allocated env base = Some pending /\ 1 <= d <= 99 /\ (d ∉ pending) /\
        unowned cr store at_ (lite_name base d) /\ unowned cr store at_ base.
Proof.
  intros Hh. unfold check. destruct (check_rate_limit now subject l) as [r l']. cbn [fst]. intros H.
  apply rbind_ok in H as (_ & _ & H). apply rbind_ok in H as (value & Hv & H). apply rbind_ok in H as (bases & Hb & H).
  apply map_err_ok in Hb. destruct (json_from_slice request) as [v|]; [|done]. injection Hv as ->.
  pose proof (check_bases_spec _ _ _ _ H) as Hm. exists value, bases.
  assert (Hin : forall base a, m !! base = Some a -> base ∈ bases /\ availability_for (base_state cr env) base = Ok a).
  { intros base a Ha. specialize (Hm base). case_bool_decide as Hb'; [|rewrite lookup_empty in Hm; congruence].
    destruct Hm as (a' & Ha' & Hav). split; [done|]. congruence. }
  assert (Hall : forall base, base ∈ bases -> exists a, m !! base = Some a /\ availability_for (base_state cr env) base = Ok a).
  { intros base Hb'. specialize (Hm base). by rewrite bool_decide_eq_true_2 in Hm by done. }
  split_and!; [done|done|by apply validated_at_most in Hb| | |].
  - intros base. split; [intros [a Ha]; by apply Hin in Ha as [? _]|]. intros (a & -> & _)%Hall. by eexists.
  - intros base. split.
    + intros [Hb' Ha]%Hin. split; [done|]. unfold availability_for in Ha. destruct (is_valid_base base); [|done].
      cbn [negb] in Ha. apply rbind_ok in Ha as (b & _ & [= Ha]). unfold availability_of in Ha. by destruct (_ || _).
    + intros [(a & -> & Ha)%Hall Hbad]. unfold availability_for in Ha. rewrite Hbad in Ha. cbn in Ha. by injection Ha as <-.
  - intros base digits d [Hb' Ha]%Hin Hd. unfold availability_for in Ha. destruct (is_valid_base base); [|done].
    cbn [negb] in Ha. apply rbind_ok in Ha as (b & Hs & [= Ha]). unfold base_state in Hs.
    destruct (allocated env base) as [pending|] eqn:Ep; [|apply rbind_ok in Hs as (? & _ & ?); done].
    destruct (availability_reads_chain cr (node_of env base) store (Hh base) base pending b digits d Hs Ha Hd)
      as (at_ & ? & ? & ? & ? & ?). by exists at_, pending.
Qed.

(** ** The queue-status route *)

Lemma sorted_pair {A : Type} (R : A -> A -> Prop) l i j x y :
  StronglySorted R l -> l !! i = Some x -> l !! j = Some y -> (i < j)%nat -> R x y.
Proof.
  intros Hs. revert i j. induction Hs as [|a l _ IH Ha]; intros i j Hi Hj Hlt; [done|].
  destruct j as [|j]; [lia|]. destruct i as [|i].
  - injection Hi as <-. rewrite Forall_forall in Ha. apply Ha. by eapply list_elem_of_lookup_2.
  - apply (IH i j); [done|done|lia].
Qed.

Lemma earliest_claim db subject i e :
  list_find (fun e => qe_account_id e = subject) (queued_snapshot db) = Some (i, e) ->
  exists k r, queue_of db !! i = Some (k, r) /\ e = entry_of (k, r) /\ nr_account_id (r_new r) = subject /\
    db_reservations db !! k = Some r /\ r_status r = Queued /\
    forall j rj, db_reservations db !! j = Some rj -> r_status rj = Queued ->
      nr_account_id (r_new rj) = subject -> fifo_le (k, r) (j, rj) = true.
Proof.
  intros (Hi & Hs & Hfirst)%list_find_Some. unfold queued_snapshot in *. rewrite list_lookup_fmap in Hi.
  fold (queue_of db) in *. destruct (queue_of db !! i) as [[k r]|] eqn:Ei; [|done]. injection Hi as <-.
  exists k, r. assert (Hin : (k, r) ∈ queue_of db) by by eapply list_elem_of_lookup_2.
  apply elem_of_select in Hin as [Hk Hq]. split_and!; [done|done|done|done|unfold is_queued in Hq; by destruct (r_status r)|].
  intros j rj Hj Hqj Hsj. assert (Hjin : (j, rj) ∈ queue_of db).
  { apply elem_of_select. split; [done|]. unfold is_queued. by rewrite Hqj. }
  apply list_elem_of_lookup_1 in Hjin as [n Hn]. destruct (decide (n < i)%nat) as [Hlt|Hge].
  - exfalso. apply (Hfirst n (entry_of (j, rj))); [|done|done]. by rewrite list_lookup_fmap, Hn.
  - pose proof (select_sorted is_queued db) as Hsort. destruct (decide (n = i)) as [->|Hne].
    + rewrite Ei in Hn. injection Hn as <- <-. by destruct (fifo_le_total (k, r) (k, r)).
    + by eapply (sorted_pair _ _ i n _ _ Hsort); [..|lia].
Qed.

(** A claim in the queue has an estimate. *)
Lemma queued_located db k r i :
  db_wf db -> Z.of_nat (length (queue_of db)) <= U32_MAX -> queue_of db !! i = Some (k, r) ->
  exists e, drain_estimate (queued_snapshot db) k = Some e.
Proof.
  intros Hwf Hmax Hi. apply list_elem_of_split_length in Hi as (pre & post & Hq & ->).
  destruct (no_starvation db (replicate (S (length pre)) 0) k r pre post Hwf Hq Hmax) as [_ (e & He & _)];
    [apply length_replicate|by exists e].
Qed.

(** The snapshot the route reads: of the database, or the read failed. *)
Definition snapshot_read (read : result unit string) (db : Db) : result (list QueuedEntry) string :=
  match read with Ok _ => Ok (queued_snapshot db) | Err e => Err e end.

(** C8. The queue-status route tells a caller what the advancer will do.  A 200 is about
    the caller's earliest claim in the queue: its group, and the iteration and the
    position in promotion order at which running [advance_iteration] on the same
    database promotes it; the 404 means that the queue was read and the caller has no
    claim in it; a 429 that the limiter refused; a 500 that the read failed; and the
    handler, which runs for an authenticated caller, has no other reply. *)
Theorem queue_status_truth now subject db nows read l :
  db_wf db -> length nows = length (queued_snapshot db) -> Z.of_nat (length nows) <= U32_MAX ->
  match fst (queue_status now subject (snapshot_read read db) l) with
  | Ok status => read = Ok tt /\ exists k r,
      db_reservations db !! k = Some r /\ r_status r = Queued /\ nr_account_id (r_new r) = subject /\
      (forall j rj, db_reservations db !! j = Some rj -> r_status rj = Queued ->
         nr_account_id (r_new rj) = subject -> fifo_le (k, r) (j, rj) = true) /\
      group status = r_queue_group r /\
      locate k 1 0 (advance_iterations nows db).1 =
        Some {| position := queue_position status; iterations := estimated_iterations_remaining status |}
  | Err NoQueueEntry => fst (into_response NoQueueEntry) = 404 /\ read = Ok tt /\
      forall k r, db_reservations db !! k = Some r -> r_status r = Queued -> nr_account_id (r_new r) <> subject
  | Err (RateLimited secs) => fst (into_response (RateLimited secs)) = 429 /\
      is_ok (fst (Limiter.allow now (queue_key subject) l)) = false
  | Err (Internal e) => fst (into_response (Internal e)) = 500 /\ read = Err e
  | Err _ => False
  end.
Proof.
  intros Hwf Hlen Hmax. unfold queue_status. destruct (Limiter.allow now (queue_key subject) l) as [[paid|w] l']; [|done].
  destruct read as [[]|e]; cbn [snapshot_read fst map_err rbind]; [|done]. unfold status_in_snapshot.
  destruct (list_find _ (queued_snapshot db)) as [[i e]|] eqn:Ef.
  - destruct (earliest_claim db subject i e Ef) as (k & r & Hi & -> & Hs & Hk & Hq & Hfirst). cbn [entry_of qe_id fst].
    assert (Hg : 1 <= r_queue_group r <= 4) by (apply (queue_checks db (k, r) Hwf); by eapply list_elem_of_lookup_2).
    destruct (queued_located db k r i Hwf) as [d Hd]; [|done|].
    { rewrite Hlen in Hmax. unfold queued_snapshot in Hmax. by rewrite length_fmap in Hmax. }
    rewrite Hd. rewrite (estimate_locate db nows k Hwf Hlen Hmax) in Hd. cbn.
    split; [done|]. exists k, r. split_and!; [done..| |by destruct d]. unfold clamp. lia.
  - split; [done|]. split; [done|]. apply list_find_None in Ef. rewrite Forall_forall in Ef. intros k r Hk Hq Hs.
    apply (Ef (entry_of (k, r))); [|done]. apply list_elem_of_fmap. exists (k, r). split; [done|].
    apply elem_of_select. split; [done|]. unfold is_queued. by rewrite Hq.
Qed.

(** ** Attempts at authentication *)

(** What reaches the attestation API's limiter. *)
Inductive Request :=
| ToAuth (now : Z) (path ip : string)
| ToUsernames (now : Z) (subject : string)
| ToQueue (now : Z) (subject : string) (snapshot : result (list QueuedEntry) string)
| Dropped (key : string) (** the cell of a key, dropped from the cache *).

Definition op_of (r : Request) : Limiter.Op :=
  match r with
  | ToAuth now path ip => Limiter.OpAllow now (auth_key path ip)
  | ToUsernames now subject => Limiter.OpAllow now (subject_key subject)
  | ToQueue now subject _ => Limiter.OpAllow now (queue_key subject)
  | Dropped key => Limiter.OpEvictCell key
  end.

Definition serve (r : Request) (l : Limiter.Limiter) : bool * Limiter.Limiter :=
  match r with
  | ToAuth now path ip => rate_limit now path ip l
  | ToUsernames now subject => let '(a, l') := check_rate_limit now subject l in (is_ok a, l')
  | ToQueue now subject snapshot => let '(a, l') := queue_status now subject snapshot l in (is_ok a, l')
  | Dropped key => (false, snd (Limiter.op_step (Limiter.OpEvictCell key) l))
  end.

(** The requests of a client to a route of the authentication surface that reach its
    handler. *)
Fixpoint attempts (path ip : string) (rs : list Request) (l : Limiter.Limiter) : nat :=
  match rs with
  | [] => 0
  | r :: rs' =>
      let '(passed, l') := serve r l in
      match r with
      | ToAuth _ p i => if passed && String.eqb p path && String.eqb i ip then S (attempts path ip rs' l') else attempts path ip rs' l'
      | _ => attempts path ip rs' l'
      end
  end%nat.

Lemma attempts_admitted path ip rs l :
  (attempts path ip rs l <= Limiter.admitted (auth_key path ip) (op_of <$> rs) l)%nat.
Proof.
  revert l. induction rs as [|r rs IH]; intros l; [done|]. cbn [attempts fmap list_fmap Limiter.admitted].
  destruct r as [now p i|now subject|now subject snap|key]; cbn [op_of serve Limiter.op_step].
  - unfold rate_limit. destruct (Limiter.allow now (auth_key p i) l) as [[paid|w] l']; specialize (IH l'); cbn [andb]; [|done].
    destruct (String.eqb_spec p path) as [->|]; [|cbn [andb]; case_match; lia].
    destruct (String.eqb_spec i ip) as [->|]; cbn [andb]; [rewrite String.eqb_refl; lia|case_match; lia].
  - unfold check_rate_limit. destruct (Limiter.allow now (subject_key subject) l) as [[paid|w] l']; specialize (IH l');
      [case_match; lia|done].
  - unfold queue_status. destruct (Limiter.allow now (queue_key subject) l) as [[paid|w] l']; specialize (IH l');
      [case_match; lia|done].
  - apply IH.
Qed.

Lemma no_refunds key rs : Limiter.refunded key (op_of <$> rs) = 0%nat.
Proof.
  unfold Limiter.refunded. induction rs as [|r rs IH]; [done|]. cbn [fmap list_fmap]. rewrite filter_cons_False; [done|].
  by destruct r.
Qed.

(** Attempts at authentication are rate limited: with the limiter the service builds
    from its configuration, however the requests of a client to a route are interleaved
    with those of others, of the username routes and of the queue, those that reach the handler
    between two instants are at most the configured burst and one per share of the
    window, as long as the client's cell stays in the cache. *)
Theorem auth_attempts_bounded `{!Limiter.GovernorLaws} limit window l path ip rs lo hi :
  Limiter.new true (Limiter.set_max_burst limit (Limiter.set_window_secs window Limiter.Config_default)) = Limiter.BuiltOk l ->
  1 <= limit -> 0 <= window -> lo <= hi ->
  let key := auth_key path ip in
  StronglySorted Z.le (Limiter.checked_at key (op_of <$> rs)) ->
  Forall (fun t => lo <= t <= hi) (Limiter.checked_at key (op_of <$> rs)) ->
  (forall k, Dropped k ∈ rs -> k <> key) ->
  Z.of_nat (attempts path ip rs l) <= limit + (hi - lo) / ((window * 1000000000 / limit) mod 2 ^ 64).
Proof.
  intros Hnew Hl Hw Hlh key Hs Hf Hd. pose proof (attempts_admitted path ip rs l) as Ha.
  unfold Limiter.new in Hnew. cbn [negb] in Hnew. cbn [Limiter.max_burst Limiter.set_max_burst Limiter.window_secs Limiter.set_window_secs] in Hnew.
  destruct (limit =? 0); [done|]. unfold Limiter.as_u64 in Hnew.
  set (p := (window * 1000000000 / limit) mod 2 ^ 64) in *. destruct (Z.eqb_spec p 0) as [|Hp]; [done|]. injection Hnew as <-.
  assert (1 <= p) by (pose proof (Z.mod_pos_bound (window * 1000000000 / limit) (2 ^ 64) eq_refl); unfold p in *; lia).
  match type of Ha with (_ <= Limiter.admitted _ _ ?l0)%nat =>
    pose proof (Limiter.admitted_bound key (op_of <$> rs) l0 lo hi) as Hb end.
  cbn [Limiter.l_quota Limiter.burst Limiter.period] in Hb. rewrite no_refunds in Hb.
  unfold Limiter.credits_of in Hb. cbn [Limiter.l_credits] in Hb. rewrite lookup_empty in Hb. cbn [default from_option] in Hb.
  specialize (Hb Hl ltac:(assumption) Hlh Hs Hf). fold key in Ha. unfold id in Hb. rewrite Z.max_id in Hb.
  assert (Hev : forall k, Limiter.OpEvictCell k ∈ op_of <$> rs -> k <> key).
  { intros k (r & Hr & Hin)%list_elem_of_fmap. destruct r; try done. injection Hr as ->. by apply Hd. }
  specialize (Hb Hev). lia.
Qed.
End route.

Module Demo.
Import ChainReadProps.Demo Limiter.Gcra.

(** The request body, read: a good base, one that breaks the rules, and one twice. *)
Definition demo_body (b : bytes) : option Json :=
  if bool_decide (b = [1]) then Some (JObject [("usernames", JArray [JString "alicebob"; JString "A"; JString "alicebob"])]) else None.

Definition demo_reads : Reads := {| node_of := fun _ => demo_node; allocated := fun _ => Some demo_pending |}.



Definition offers (m : gmap string NameAvailability) (base : string) (d : Z) : bool :=
  match m !! base with Some (AVAILABLE digits) => bool_decide (d ∈ digits) | _ => false end.

(** 5 is owned on chain and 6 allocated by the outbox; 7 is offered; a base that breaks
    the rules is invalid. *)
Lemma available_route_truth_witness :
  exists m, fst (check demo demo_body 1000 demo_reads "subject" [1] demo_limiter) = Ok m /\
    offers m "alicebob" 5 = false /\ offers m "alicebob" 6 = false /\ offers m "alicebob" 7 = true /\
    m !! "A" = Some INVALID /\
    exists value bases, demo_body [1] = Some value /\ validate_usernames value = Ok bases /\
      (length bases <= 100)%nat /\ (forall base, is_Some (m !! base) <-> base ∈ bases) /\
      (forall base, m !! base = Some INVALID <-> base ∈ bases /\ is_valid_base base = false) /\
      forall base digits d, m !! base = Some (AVAILABLE digits) -> d ∈ digits ->
        exists at_ pending, ChainReads.at_current_block demo_node = Ok at_ /\
          Some demo_pending = Some pending /\ 1 <= d <= 99 /\ (d ∉ pending) /\
          unowned demo demo_store at_ (lite_name base d) /\ unowned demo demo_store at_ base.
Proof.
  assert (H : match fst (check demo demo_body 1000 demo_reads "subject" [1] demo_limiter) with
              | Ok m => (offers m "alicebob" 5, offers m "alicebob" 6, offers m "alicebob" 7, m !! "A")
                        = (false, false, true, Some INVALID)
              | Err _ => False
              end) by (vm_compute; reflexivity).
  destruct (fst (check demo demo_body 1000 demo_reads "subject" [1] demo_limiter)) as [m|] eqn:H1; [|destruct H].
  injection H as H2 H3 H4 H5. exists m. split; [reflexivity|].
  exact (conj H2 (conj H3 (conj H4 (conj H5
    (available_route_truth demo demo_body demo_store 1000 demo_reads "subject" [1] demo_limiter m
       (fun _ => demo_honest) H1))))).
Defined.

(** Three claims in the queue; Bob's is the third to go, in the second iteration. *)
Lemma queue_status_truth_witness :
  exists k r, db_reservations demo_queue !! k = Some r /\ nr_account_id (r_new r) = "bob" /\
    locate k 1 0 (advance_iterations [10; 20; 30] demo_queue).1 = Some {| position := 3; iterations := 2 |}.
Proof.
  pose proof (queue_status_truth 1000 "bob" demo_queue [10; 20; 30] (Ok tt) demo_limiter demo_queue_wf
                ltac:(vm_compute; reflexivity) ltac:(vm_compute; discriminate)) as H.
  assert (E : fst (queue_status 1000 "bob" (snapshot_read (Ok tt) demo_queue) demo_limiter) =
              Ok {| queue_position := 3; group := 1; estimated_iterations_remaining := 2 |}) by (vm_compute; reflexivity).
  rewrite E in H. destruct H as (_ & k & r & Hk & _ & Hs & _ & _ & Hl). exists k, r. exact (conj Hk (conj Hs Hl)).
Defined.

(** Two attempts a minute: the third of a client is refused, another client and the
    username routes are not in its way, and half a minute later one more passes. *)
Definition demo_requests : list Request :=
  [ToAuth 1000000000 "/api/v1/auth/token" "10.0.0.1"; ToAuth 2000000000 "/api/v1/auth/token" "10.0.0.1";
   ToAuth 3000000000 "/api/v1/auth/token" "10.0.0.1"; ToAuth 3000000000 "/api/v1/auth/token" "10.0.0.2";
   ToUsernames 4000000000 "alice"; ToQueue 5000000000 "alice" (Ok []); Dropped "other"; ToAuth 41000000000 "/api/v1/auth/token" "10.0.0.1"].

Definition built : Limiter.Limiter :=
  {| Limiter.l_quota := {| Limiter.burst := 2; Limiter.period := 30000000000 |};
     Limiter.l_max_burst := 2; Limiter.l_cells := ∅; Limiter.l_credits := ∅ |}.

Lemma auth_attempts_bounded_witness :
  attempts "/api/v1/auth/token" "10.0.0.1" demo_requests built = 3%nat /\
  Z.of_nat (attempts "/api/v1/auth/token" "10.0.0.1" demo_requests built)
    <= 2 + (41000000000 - 1000000000) / ((60 * 1000000000 / 2) mod 2 ^ 64).
Proof.
  split; [vm_compute; reflexivity|].
  apply (auth_attempts_bounded 2 60 built "/api/v1/auth/token" "10.0.0.1" demo_requests 1000000000 41000000000).
  - vm_compute. reflexivity.
  - lia.
  - lia.
  - lia.
  - refine (bool_decide_eq_true_1 (StronglySorted Z.le _) _). vm_compute. reflexivity.
  - refine (bool_decide_eq_true_1 (Forall _ _) _). vm_compute. reflexivity.
  - intros k Hk. unfold demo_requests in Hk. rewrite !elem_of_cons, elem_of_nil in Hk.
    destruct_or! Hk; simplify_eq; discriminate.
Defined.
End Demo.
End SurfaceProps.

(** * A client of the handshake ([examples/auth_smoke.rs]): what it sends, and what it gets. *)

Module SmokeClient.
Import Surface.

Section client.
Context {jwt_crates : Jwt.JwtCrates} (cr : Auth.AuthCrates) (b64_std : bytes -> string).

(** What the client signs. *)
Definition smoke_message (challenge client_id body : bytes) : bytes :=
  X509.sha256 (Auth.crypto cr) (challenge ++ client_id ++ X509.sha256 (Auth.crypto cr) body)%list.

Definition smoke_body : bytes := as_bytes "{}".

Definition smoke_headers (client_id proof : bytes) (challenge_b64 : string) : Auth.Headers := fun name =>
  if String.eqb name "auth-clientid" then Some (Some (b64_std client_id))
  else if String.eqb name "auth-clientproof" then Some (Some (b64_std proof))
  else if String.eqb name "auth-challenge" then Some (Some challenge_b64)
  else if String.eqb name "auth-ios-package" then Some (Some "io.pcf.polkadotapp")
  else None.

(** The token request, from the challenge route's reply; [sign] signs with the key of
    [client_id]. *)
Definition smoke_login (client_id : bytes) (sign : bytes -> bytes) (challenge_b64 : string) : option Auth.Headers :=
  challenge ← Auth.b64_decode cr challenge_b64;
  Some (smoke_headers client_id (sign (smoke_message challenge client_id smoke_body)) challenge_b64).

(** Nothing else touches the database, and no statement fails. *)
Definition undisturbed (env : Auth.AuthEnv) : Prop :=
  (forall i s, Auth.others env i s = s) /\ forall i, Auth.fate env i = Fine.

(** What the crates are relied on for: base64 reads back, and a signature verifies. *)
Record client_laws (client_id : bytes) (sign : bytes -> bytes) : Prop := {
  cl_b64 : forall b, Forall is_byte b -> Auth.b64_decode cr (b64_std b) = Some b /\ trim (b64_std b) = b64_std b;
  cl_id : Forall is_byte client_id /\ length client_id = 32%nat;
  cl_signed : forall m, Forall is_byte (sign m) /\ length (sign m) = 64%nat;
  cl_verifies : forall m, Auth.sr25519_verify cr (sign m) m client_id = true }.

Section login.
Context (client_id : bytes) (sign : bytes -> bytes) (Hl : client_laws client_id sign).
Context (config : Auth.AuthConfig) (env : Auth.AuthEnv) (He : undisturbed env).

Lemma smoke_decodes drawn headers :
  Forall is_byte drawn -> smoke_login client_id sign (b64_std drawn) = Some headers ->
  headers = smoke_headers client_id (sign (smoke_message drawn client_id smoke_body)) (b64_std drawn) /\
  Auth.decode_header_fixed cr 32 headers "auth-clientid" = Ok client_id /\
  Auth.decode_header_fixed cr 64 headers "auth-clientproof" = Ok (sign (smoke_message drawn client_id smoke_body)) /\
  Auth.decode_header cr headers "auth-challenge" = Ok drawn.
Proof.
  destruct Hl as [Hb [Hid Hlen] Hs _]. intros Hd. unfold smoke_login. rewrite (proj1 (Hb drawn Hd)). cbn [mbind option_bind]. intros [= <-].
  set (m := smoke_message drawn client_id smoke_body). destruct (Hs m) as [Hsb Hsl].
  split; [done|]. unfold Auth.decode_header_fixed, Auth.decode_header, Auth.header_text. cbn [smoke_headers String.eqb Ascii.eqb Bool.eqb].
  rewrite (proj2 (Hb client_id Hid)), (proj2 (Hb (sign m) Hsb)), (proj2 (Hb drawn Hd)).
  rewrite (proj1 (Hb client_id Hid)), (proj1 (Hb (sign m) Hsb)), (proj1 (Hb drawn Hd)). cbn [rbind].
  by rewrite !decide_True.
Qed.

(** The client sends no assertion: its platform evidence is refused. *)
Lemma smoke_unattested proof challenge_b64 challenge body s :
  exists reason, Auth.attestation_verdict cr config env (smoke_headers client_id proof challenge_b64) challenge client_id body s
    = (Ok (Err reason), s).
Proof.
  unfold Auth.attestation_verdict, Auth.ios_attestation_verdict, Auth.hbind.
  cbn [Auth.contains_key Auth.header_text smoke_headers String.eqb Ascii.eqb Bool.eqb].
  destruct (negb _); [by eexists|]. unfold Auth.decode_header. cbn. by eexists.
Qed.

(** The token route, with the challenge in the table and the refresh token drawn fresh. *)
Lemma smoke_issue jwt drawn headers s db' :
  Forall is_byte drawn -> smoke_login client_id sign (b64_std drawn) = Some headers ->
  DeviceGate.consume (Auth.now env) drawn (Auth.a_db s) = (true, db') ->
  Auth.a_refresh s !! Auth.random_token env = None ->
  let session := {| Auth.account_id := Auth.account_of client_id;
                    Auth.app_from_official_store := negb (Auth.auth_enabled config); Auth.platform := Some "ios" |} in
  if Auth.auth_enabled config && Auth.enforce_auth config
  then exists reason, fst (Auth.issue jwt cr config env headers smoke_body s) = Err (Auth.IntegrityFailed reason)
  else Auth.issue jwt cr config env headers smoke_body s =
    (Ok (Jwt.issue jwt (unix_timestamp (Auth.app_now env)) (Auth.account_of client_id)
           (negb (Auth.auth_enabled config)) (Some "ios") (Auth.access_ttl config), Auth.random_token env),
     Auth.with_refresh
       (<[Auth.random_token env :=
            {| Auth.rt_session := session; Auth.rt_created_at := Auth.now env;
               Auth.rt_expires_at := Auth.app_now env + secs (Auth.refresh_ttl config);
               Auth.rt_used_at := None; Auth.rt_replaced_by := None |}]> (Auth.a_refresh s))
       (Auth.with_db db' s)).
Proof.
  intros Hd Hlogin Hcons Hfresh. destruct (smoke_decodes drawn headers Hd Hlogin) as (Hh & H1 & H2 & H3). cbv zeta.
  assert (Hp : Auth.proof_verify cr drawn client_id smoke_body (sign (smoke_message drawn client_id smoke_body)) = true)
    by apply (cl_verifies _ _ Hl).
  assert (Hplat : Auth.detect_platform headers = Some "ios") by (by rewrite Hh).
  destruct He as [Ho Hf].
  assert (Hm : forall b s0, Auth.a_refresh s0 = Auth.a_refresh s ->
    Auth.mint (Auth.now env) (Auth.app_now env) (Auth.refresh_ttl config) (Auth.random_token env) b s0 =
    (Some (Auth.random_token env), Auth.with_refresh
       (<[Auth.random_token env := {| Auth.rt_session := b; Auth.rt_created_at := Auth.now env;
            Auth.rt_expires_at := Auth.app_now env + secs (Auth.refresh_ttl config);
            Auth.rt_used_at := None; Auth.rt_replaced_by := None |}]> (Auth.a_refresh s)) s0)).
  { intros b s0 E. unfold Auth.mint, Auth.insert_refresh. by rewrite E, Hfresh. }
  destruct (smoke_unattested (sign (smoke_message drawn client_id smoke_body)) (b64_std drawn) drawn smoke_body
              (Auth.with_db db' s)) as [reason Hv]. rewrite <- Hh in Hv.
  destruct (Auth.auth_enabled config) eqn:Een; [destruct (Auth.enforce_auth config) eqn:Eef|]; cbn [andb negb]; [exists reason|..];
    unfold Auth.issue, Auth.hbind, Auth.hlift; rewrite H1, H2, H3; unfold Auth.stmt; rewrite Ho, !Hf; unfold Auth.consume_stmt;
    rewrite Hcons; cbn [negb]; rewrite Hp, Hplat, Een; cbn [negb]; rewrite ?Hv, ?Eef; unfold Auth.herr, Auth.hret;
    [done|rewrite Ho, Hm by done; reflexivity..].
Qed.
End login.

(** A live refresh token rotates once, and keeps its session. *)
Lemma rotate_live jwt config env presented row s :
  undisturbed env -> Auth.a_refresh s !! presented = Some row -> Auth.rt_used_at row = None ->
  Auth.app_now env < Auth.rt_expires_at row -> Auth.a_refresh s !! Auth.random_token env = None ->
  let sn := Auth.rt_session row in
  exists s', Auth.rotate jwt config env presented s =
    (Ok (Jwt.issue jwt (unix_timestamp (Auth.app_now env)) (Auth.account_id sn) (Auth.app_from_official_store sn)
           (Auth.platform sn) (Auth.access_ttl config), Auth.random_token env), s') /\
    fst (Auth.rotate jwt config env presented s') = Err Auth.Unauthorized.
Proof.
  intros [Ho Hf] Hrow Hused Hlive Hfresh. cbv zeta.
  assert (Hne : presented <> Auth.random_token env) by (intros ->; congruence).
  unfold Auth.rotate, Auth.rotate_token, Auth.rotate_txn. rewrite Ho, Hf, Hrow, Hused.
  rewrite bool_decide_eq_false_2 by (by intros [? ?]). cbn [orb]. rewrite (proj2 (Z.leb_gt _ _) Hlive).
  unfold Auth.insert_refresh. cbn [Auth.a_refresh Auth.with_refresh]. rewrite lookup_insert_ne, Hfresh by done.
  eexists. split; [reflexivity|]. rewrite Ho. cbn [Auth.a_refresh Auth.with_refresh].
  rewrite lookup_insert_ne, lookup_insert_eq by done. cbn [Auth.rt_used_at].
  by rewrite bool_decide_eq_true_2 by by eexists.
Qed.
End client.

(** C17. The handshake completes for a client that follows it, when it is undisturbed: no
    statement of the two requests fails and nobody else changes the database between
    them, the drawn refresh tokens are new and distinct, and the exchange is within the
    refresh token's life.  A client that fetches a challenge and sends the token request
    within its life, signed with its own key, gets an access and a refresh token, which
    it can exchange once for a second pair; both access tokens authenticate its account,
    at the issuer and at every service that reads the published keys, up to a minute past
    their expiry (the leeway of the library, which the doc of [Verifier::verify] does not
    mention) and not a second longer.  Without platform evidence that
    holds as long as attestation is not enforced, and the tokens then say whether the app
    was checked; where it is enforced the request is refused with a 403. *)
Theorem handshake_completes `{Jwt.JwtLaws} cr b64_std client_id sign config env1 env2 seed name s now0 app0 ttl drawn
    reply db1 headers :
  client_laws cr b64_std client_id sign -> undisturbed env1 -> undisturbed env2 -> Forall is_byte drawn ->
  issue_challenge b64_std now0 app0 ttl drawn (Auth.a_db s) = (Ok reply, db1) -> Auth.now env1 < app0 + secs ttl ->
  smoke_login cr b64_std client_id sign (snd reply) = Some headers ->
  Auth.a_refresh s !! Auth.random_token env1 = None -> Auth.a_refresh s !! Auth.random_token env2 = None ->
  Auth.random_token env1 <> Auth.random_token env2 ->
  Auth.app_now env2 < Auth.app_now env1 + secs (Auth.refresh_ttl config) ->
  let jwt := Jwt.Jwt_new seed name in
  let '(r, s1) := Auth.issue jwt cr config env1 headers smoke_body (Auth.with_db db1 s) in
  if Auth.auth_enabled config && Auth.enforce_auth config
  then exists reason, r = Err (Auth.IntegrityFailed reason)
  else exists access access2 s2,
    r = Ok (access, Auth.random_token env1) /\
    Auth.rotate jwt config env2 (Auth.random_token env1) s1 = (Ok (access2, Auth.random_token env2), s2) /\
    fst (Auth.rotate jwt config env2 (Auth.random_token env1) s2) = Err Auth.Unauthorized /\
    forall v, v = Jwt.verifier jwt \/ Jwt.from_jwks (Jwt.jwks_to_string (Jwt.jwks jwt)) = Ok v ->
    let who := {| Jwt.subject := Auth.account_of client_id; Jwt.platform := Some "ios";
                  Jwt.from_official_store := Some (negb (Auth.auth_enabled config)) |} in
    forall at_,
      (at_ <= unix_timestamp (Auth.app_now env1) + Auth.access_ttl config + 60 ->
       Jwt.extract_subject v at_ (Some (Some ("Bearer " +:+ access))) = Ok who) /\
      (at_ > unix_timestamp (Auth.app_now env1) + Auth.access_ttl config + 60 ->
       Jwt.extract_subject v at_ (Some (Some ("Bearer " +:+ access))) = Err Jwt.InvalidTokenError) /\
      (at_ <= unix_timestamp (Auth.app_now env2) + Auth.access_ttl config + 60 ->
       Jwt.extract_subject v at_ (Some (Some ("Bearer " +:+ access2))) = Ok who) /\
      (at_ > unix_timestamp (Auth.app_now env2) + Auth.access_ttl config + 60 ->
       Jwt.extract_subject v at_ (Some (Some ("Bearer " +:+ access2))) = Err Jwt.InvalidTokenError).
Proof.
  intros Hl He1 He2 Hdr Hc Hlive Hlogin Hf1 Hf2 Hne Hexp. cbv zeta.
  assert (Hb : Auth.b64_decode cr (b64_std drawn) = Some drawn) by by apply (cl_b64 _ _ _ _ Hl).
  destruct (issued_challenge_spends b64_std _ now0 app0 ttl drawn _ reply db1 (Auth.now env1) Hb Hc Hlive) as (_ & Hd & db2 & Hcons & _).
  assert (Hr : snd reply = b64_std drawn).
  { unfold issue_challenge in Hc. destruct (DeviceGate.create _ _ _ _ _) as [[] ?]; [|done]. by injection Hc as <- _. }
  rewrite Hr in Hlogin.
  pose proof (smoke_issue cr b64_std client_id sign Hl config env1 He1 (Jwt.Jwt_new seed name) drawn headers (Auth.with_db db1 s) db2
                Hdr Hlogin Hcons Hf1) as Hi.
  destruct (Auth.auth_enabled config && Auth.enforce_auth config).
  - destruct Hi as [reason Hi]. destruct (Auth.issue _ _ _ _ _ _ _) as [r s1]. by exists reason.
  - rewrite Hi. set (row := Auth.Build_RefreshRow _ _ _ _ _). set (s1 := Auth.with_refresh _ _).
    destruct (rotate_live (Jwt.Jwt_new seed name) config env2 (Auth.random_token env1) row s1 He2) as (s2 & Hrot & Hagain).
    + apply lookup_insert_eq.
    + done.
    + exact Hexp.
    + cbn. by rewrite lookup_insert_ne by done.
    + eexists _, _, s2. split; [reflexivity|]. split; [exact Hrot|]. split; [exact Hagain|].
      intros v Hv at_. split_and!; intros Hat;
        first [by apply (Jwt.issued_token_authenticates seed name)
              |apply (Jwt.expired_token_rejected seed name); apply Z.gt_lt; exact Hat].
Qed.

(** ** A login to run *)

Module Demo.
Import Jwt.Demo.

Definition demo_sign (m : bytes) : bytes := replicate 64 (Z.of_nat (length m) mod 256).
Definition demo_id : bytes := replicate 32 7.

Definition smoke_crates : Auth.AuthCrates :=
  {| Auth.b64_decode := Poc.b64_decode PocProps.demo_poc;
     Auth.sr25519_verify := fun sig m pk => bool_decide (sig = demo_sign m) && bool_decide (pk = demo_id);
     Auth.crypto := KeyAttestProps.demo_crypto; Auth.cbor := fun _ => Err "none"; Auth.parse_body := fun _ => Err "none";
     Auth.token_crates := PlayIntegrity.demo_token_crates; Auth.google := None |}.

Definition smoke_b64 : bytes -> string := Poc.b64_encode PocProps.demo_poc.

Lemma smoke_laws : client_laws smoke_crates smoke_b64 demo_id demo_sign.
Proof.
  split.
  - intros b Hb. unfold smoke_b64, smoke_crates, PocProps.demo_poc. cbn [Auth.b64_decode Poc.b64_decode Poc.b64_encode].
    split; [|apply PocProps.trim_letters]. destruct (PocProps.hex_encode_ok _ Hb) as (_ & Hh & _).
    rewrite (split_on_app "h"%char (hex_encode b) EmptyString) by by apply (all_chars_impl _ _ _ PocProps.hex_no_h).
    by apply hex_decode_encode.
  - split; [|done]. by apply Forall_replicate.
  - intros m. split; [|apply length_replicate]. apply Forall_replicate.
    pose proof (Z.mod_pos_bound (Z.of_nat (length m)) 256 eq_refl) as Hm.
    unfold is_byte, U8_MAX. lia.
  - intros m. cbn. by rewrite !bool_decide_eq_true_2.
Qed.

(** Attestation checked and not enforced. *)
Definition soft : Auth.AuthConfig :=
  {| Auth.auth_enabled := true; Auth.enforce_auth := false; Auth.access_ttl := 900; Auth.refresh_ttl := 86400;
     Auth.ios_package_names := ["io.pcf.polkadotapp"]; Auth.apple_app_attest_app_ids := [];
     Auth.android_package_names := []; Auth.android_signing_digest_playstore := None;
     Auth.android_signing_digest_website := None; Auth.play_integrity_mode := PlayIntegrity.Strict;
     Auth.play_integrity_decryption_key := None; Auth.play_integrity_verification_key := None |}.

Definition quiet (at_ : Z) (token : string) : Auth.AuthEnv :=
  {| Auth.now := secs at_; Auth.app_now := secs at_; Auth.random_token := token; Auth.crl := Ok ∅;
     Auth.others := fun _ s => s; Auth.fate := fun _ => Fine |}.

Definition empty_auth : Auth.AuthDb := {| Auth.a_db := empty_db; Auth.a_refresh := ∅; Auth.a_keys := ∅ |}.

Definition challenged : Db := snd (issue_challenge smoke_b64 (secs 990) (secs 990) 60 [1; 2; 3] empty_db).
Definition login_headers : Auth.Headers :=
  default (fun _ => None) (smoke_login smoke_crates smoke_b64 demo_id demo_sign (smoke_b64 [1; 2; 3])).

Lemma handshake_completes_witness :
  exists access access2 s2,
    let '(r, s1) := Auth.issue (Jwt.Jwt_new [7] "dub") smoke_crates soft (quiet 1000 "r1") login_headers smoke_body
                      (Auth.with_db challenged empty_auth) in
    r = Ok (access, "r1") /\
    Auth.rotate (Jwt.Jwt_new [7] "dub") soft (quiet 2000 "r2") "r1" s1 = (Ok (access2, "r2"), s2).
Proof.
  pose proof (handshake_completes smoke_crates smoke_b64 demo_id demo_sign soft (quiet 1000 "r1") (quiet 2000 "r2") [7] "dub"
    empty_auth (secs 990) (secs 990) 60 [1; 2; 3] (201, smoke_b64 [1; 2; 3]) challenged login_headers smoke_laws) as H.
  cbv zeta in H. destruct (Auth.issue _ _ _ _ _ _ _) as [r s1].
  destruct H as (access & access2 & s2 & H1 & H2 & _); [by split|by split| |vm_compute; reflexivity|vm_compute; reflexivity
    |vm_compute; reflexivity|vm_compute; reflexivity|vm_compute; reflexivity|discriminate|vm_compute; reflexivity|].
  - repeat constructor; unfold is_byte, U8_MAX; lia.
  - exists access, access2, s2. exact (conj H1 H2).
Defined.
End Demo.
End SmokeClient.
