(* ===== verification/OpenApiProps.v ===== *)
(** * OpenApiProps: the documented interface is the one that is served

    The replies of every annotated handler as they go out ([Replies]: the services'
    [IntoResponse] implementations and the serialized bodies), and what holds of the
    documents: the generated reference lists exactly the routes that are answered by a
    handler, and every reply has a documented status and a body of the documented
    schema, with the few statuses that are not documented listed. *)

From stdpp Require Import gmap.
From S2P Require Import Prelude Strings Text Schema Limiter Outbox Eligibility DeviceGate DeviceCheck.
From S2P Require Import Queue Jwt KeyAttest KeyAttestProps AppAttest PlayIntegrity Auth AuthProps.
From S2P Require Import Poc PocProps Projection Search SearchProps Usernames TurnProps.
From S2P Require Import Request Registration RegisterProps Tickets Turn Notify Routes Routers RouteProps.
From S2P Require Import Health ApiDoc OpenApi ChainReads Surface.

#[local] Open Scope string_scope.
#[local] Open Scope Z_scope.

Module Replies.
Import Surface Queue Registration.

Definition reply_json (st : Z) (j : Json) : Reply := {| status := st; headers := ∅; body := Some j |}.

(** A field left out when there is nothing in it. *)
Definition optional {A : Type} (key : string) (f : A -> Json) (o : option A) : list (string * Json) :=
  match o with Some a => [(key, f a)] | None => [] end.

Definition nullable {A : Type} (f : A -> Json) (o : option A) : Json :=
  match o with Some a => f a | None => JNull end.

Section replies.
Context (header_ok : string -> bool).

(** ** Errors *)

Definition auth_error (e : Jwt.AuthError) : Reply :=
  match e with
  | Jwt.MissingHeader => missing_auth_header header_ok
  | Jwt.InvalidHeader => invalid_auth_header header_ok
  | Jwt.InvalidTokenError => invalid_token header_ok
  end.

(** device-attestation, [http/error.rs]. *)
Definition app_error (e : Auth.AppError) : Reply :=
  reply_json (fst (Auth.status_code e))
    (JObject [("error", JString (snd (Auth.status_code e))); ("message", JString (Auth.error_message e))]).

Definition evidence_reply (st : Z) (code text : string) : Reply :=
  reply_json st (JObject [("error", JString code); ("message", JString text)]).

(** device-attestation, [usernames/error.rs]. *)
Definition usernames_error (e : Usernames.UsernamesError) : Reply :=
  match e with
  | Usernames.RateLimited s => rate_limited header_ok s
  | Usernames.InvalidBody fields => invalid_body header_ok fields
  | Usernames.InvalidQuery fields => invalid_query header_ok fields
  | Usernames.InvalidHeader fields => invalid_header header_ok fields
  | Usernames.DeviceEvidenceMalformed => evidence_reply 400 "DEVICE_EVIDENCE_MALFORMED" "device evidence malformed"
  | Usernames.DeviceEvidenceInvalid => evidence_reply 403 "DEVICE_EVIDENCE_INVALID" "device evidence invalid"
  | Usernames.DeviceEvidenceUnavailable =>
      evidence_reply 503 "DEVICE_EVIDENCE_UNAVAILABLE" "device evidence verification unavailable"
  | Usernames.Internal _ => internal header_ok
  | other => reply_json (fst (Usernames.into_response other))
               (JObject [("error", JString (snd (Usernames.into_response other)))])
  end.

(** turn, [http/error.rs]; the [Retry-After] set by hand is put in directly. *)
Definition with_retry_after (secs : string) (r : Reply) : Reply :=
  {| status := status r; headers := <[ "retry-after" := secs ]> (headers r); body := body r |}.

Definition turn_error (e : Turn.AppError) : Reply :=
  match e with
  | Turn.RateLimited s => rate_limited header_ok s
  | Turn.InvalidBody fields => invalid_body header_ok fields
  | Turn.MalformedJson => malformed_json header_ok
  | Turn.BadProofRequest detail => bad_request header_ok detail
  | Turn.ProofRejected => message header_ok 403 "The supplied proof was not accepted."
  | Turn.ProofUnavailable detail => message header_ok 503 detail
  | Turn.ProofBusy => with_retry_after "1" (message header_ok 503 "All verification slots are busy.")
  | Turn.UpstreamUnavailable => with_retry_after "5" (message header_ok 503 "Credentials are temporarily unavailable.")
  | Turn.ProofInternal => message header_ok 500 "Proof verification failed internally."
  end.

(** notifications, [http/error.rs]. *)
Definition notify_error (e : Notify.AppError) : Reply :=
  match e with
  | Notify.InvalidBody fields => invalid_body header_ok fields
  | Notify.MalformedJson => malformed_json header_ok
  | Notify.RateLimited s => rate_limited header_ok s
  end.

(** invite-tickets, [http/error.rs]. *)
Definition tickets_error (e : Tickets.AppError) : Reply :=
  match e with
  | Tickets.RateLimited s => rate_limited header_ok s
  | Tickets.InvalidBody fields => invalid_body header_ok fields
  | Tickets.MalformedJson => malformed_json header_ok
  | Tickets.PoolExhausted => reply_json 422 (JObject [("error", JString "Pool exhausted")])
  | Tickets.TicketRaceLost => reply_json 409 (JObject [("error", JString "Ticket race lost")])
  | Tickets.Internal => internal header_ok
  end.

(** username-indexer, [http/error.rs]. *)
Definition search_error (e : Search.SearchError) : Reply :=
  match e with
  | Search.InvalidQuery fields => invalid_query header_ok fields
  | Search.InvalidCursor => reply_json 400 (JObject [("error", JString "Invalid cursor")])
  | Search.Database => internal header_ok
  end.

Definition poc_error (r : Poc.Rejection) : Reply :=
  match r with
  | Poc.Malformed => bad_request header_ok (Poc.detail r)
  | other => payment_required header_ok (Poc.detail other)
  end.

(** ** Bodies *)

Definition token_json (t : string * string) : Json :=
  JObject [("token", JString (fst t)); ("refreshToken", JString (snd t))].

Definition availability_json (a : Usernames.NameAvailability) : Json :=
  match a with
  | Usernames.AVAILABLE digits =>
      JObject [("status", JString "AVAILABLE"); ("availableDigits", JArray (JNumber <$> digits))]
  | Usernames.EXHAUSTED => JObject [("status", JString "EXHAUSTED")]
  | Usernames.INVALID => JObject [("status", JString "INVALID")]
  end.

Definition available_json (m : gmap string Usernames.NameAvailability) : Json :=
  JObject [("_tag", JString "v1");
           ("value", JObject ((fun ba => (fst ba, availability_json (snd ba))) <$>
                             sort_by (fun a b => String.leb (fst a) (fst b)) (map_to_list m)))].

Definition queue_json (q : QueueStatusResponse) : Json :=
  JObject [("queuePosition", JNumber (queue_position q)); ("group", JNumber (group q));
           ("estimatedIterationsRemaining", JNumber (estimated_iterations_remaining q))].

Definition register_json (r : RegisterResponse) : Json :=
  JObject ([("base_username", JString (base_username r)); ("digits", JString (rr_digits r));
            ("username", JString (rr_username r))]
           ++ optional "device_check_available" JBool (device_check_available r)
           ++ optional "registrationOutcome" JString (registration_outcome r)
           ++ optional "queue" queue_json (rr_queue r))%list.

Definition register_reply (r : Response) : Reply :=
  match r with
  | Accepted b => reply_json 202 (register_json b)
  | PaymentRequired => reply_json 200 (JObject [("registrationOutcome", JString "PAYMENT_REQUIRED")])
  end.

Definition search_username_json (rfc3339 : Z -> string) (u : Search.SearchUsername) : Json :=
  JObject [("accountId", JString (Search.su_account_id u)); ("username", JString (Search.su_username u));
           ("status", JString (Search.su_status u)); ("createdAt", JString (rfc3339 (Search.su_created_at u)));
           ("updatedAt", JString (rfc3339 (Search.su_updated_at u)))].

Definition search_json (rfc3339 : Z -> string) (r : Search.SearchResponse) : Json :=
  JObject [("usernames", JArray (search_username_json rfc3339 <$> Search.sr_usernames r));
           ("nextCursor", nullable JString (Search.next_cursor r))].

Definition issued_json (i : Turn.Issued) : Json :=
  JObject [("servers", JArray (JString <$> Turn.d_servers i)); ("username", JString (Turn.d_username i));
           ("password", JString (Turn.d_password i)); ("ttl", JNumber (Turn.d_ttl i))].

Definition claim_json (c : Tickets.ClaimResponse) : Json :=
  JObject [("publicKey", JString (Tickets.rs_public_key c)); ("inviter", JString (Tickets.rs_inviter c));
           ("dim", JString (Tickets.rs_dim c)); ("network", JString (Tickets.rs_network c));
           ("claimedBy", JString (Tickets.rs_claimed_by c)); ("createdAt", JString (Tickets.rs_created_at c));
           ("claimedAt", JString (Tickets.rs_claimed_at c)); ("signature", JString (Tickets.rs_signature c));
           ("remaining", JNumber (Tickets.rs_remaining c))].

Definition platform_json (p : Notify.Platform) : Json :=
  JString match p with Notify.Ios => "ios" | Notify.Android => "android" end.

Definition push_error_json (e : Notify.PushError) : Json :=
  JObject (("device", JString (Notify.pe_device e))
           :: optional "environment" JString (Notify.pe_environment e)
           ++ optional "status" Datatypes.id (Notify.pe_status e)
           ++ optional "response" Datatypes.id (Notify.pe_response e))%list.

Definition notify_json (r : Notify.NotifyResponse) : Json :=
  JObject ([("success", JBool (Notify.ns_success r)); ("platform", platform_json (Notify.ns_platform r))]
           ++ optional "sent" JNumber (Notify.ns_sent r)
           ++ optional "failed" JNumber (Notify.ns_failed r)
           ++ optional "messageId" JString (Notify.ns_message_id r)
           ++ optional "errors" (fun l => JArray (push_error_json <$> l)) (Notify.ns_errors r))%list.

(** [/healthcheck] and [/livez] of device-attestation. *)
Definition status_json (st : string) : Json :=
  JObject [("status", JString st); ("service", JString "device-attestation")].

(** ** Routes *)

Definition of_result {A E : Type} (good : A -> Reply) (bad : E -> Reply) (r : result A E) : Reply :=
  match r with Ok a => good a | Err e => bad e end.

(** What a bearer route answers: the extractor first. *)
Definition guarded (subject : result Jwt.AuthSubject Jwt.AuthError) (inner : Jwt.AuthSubject -> Reply) : Reply :=
  of_result inner auth_error subject.

(** The authentication routes, behind the rate limit of the middleware. *)
Definition behind_limit (passed : bool) (inner : Reply) : Reply :=
  if passed then inner else app_error Auth.RateLimited.

Definition key_reply (r : Auth.RegisterKey) : Reply :=
  match r with
  | Auth.KeyAccepted => reply_json 202 (JObject [])
  | Auth.KeyRejected tag error => reply_json 401 (JObject [("_tag", JString tag); ("error", JString error)])
  end.

(** How the registration handler ends; a panic has no reply of its own. *)
Definition registered (o : Response + exit) : option Reply :=
  match o with
  | inl r | inr (Returned (Ok r)) => Some (register_reply r)
  | inr (Returned (Err e)) => Some (usernames_error e)
  | inr Panicked => None
  end.

(** Search: the rate limit of the client address, the gate, the handler. *)
Definition search_reply (rfc3339 : Z -> string) (wait : option Z) (verdict : Poc.Verified)
    (found : result Search.SearchResponse Search.SearchError) : option Reply :=
  match wait with
  | Some secs => Some (rate_limited header_ok secs)
  | None =>
      match verdict with
      | Poc.Passed => Some (of_result (fun r => reply_json 200 (search_json rfc3339 r)) search_error found)
      | Poc.Rejected r => Some (poc_error r)
      | Poc.DbError => Some (internal header_ok)
      | Poc.Panic => None
      end
  end.
End replies.

(** The answers a program can end with, whatever its statements are answered. *)
Inductive ends {A : Type} : Tickets.Prog A -> A -> Prop :=
| ends_ret a : ends (Tickets.Ret a) a
| ends_count d n k r a : ends (k r) a -> ends (Tickets.Count d n k) a
| ends_claim d n w t k r a : ends (k r) a -> ends (Tickets.Claim d n w t k) a
| ends_sleep t k a : ends k a -> ends (Tickets.Sleep t k) a.

End Replies.

(** * The reference lists exactly what is served *)

Module OpenApiProps.
Import Routes Routers RouteProps ApiDoc ApiDocProps OpenApi Surface Replies.

(** ** The routes *)

(** The documents that are merged: [invites] as the network has invite tickets. *)
Definition services (invites : bool) : list ServiceDoc :=
  ([attestation_api; indexer_api] ++ (if invites then [invites_api] else []) ++ [turn_api; notify_api])%list.

Definition reference_ops (invites : bool) : list OpenApi.Operation := concat (d_paths <$> services invites).

(** The routes that the configuration can leave out. *)
Definition switched_on (b : Build) (o : OpenApi.Operation) : bool :=
  if bool_decide (o_handler o = "queue::status") then queue_enabled b
  else if bool_decide (o_handler o = "issue_puzzle") then poc_enabled b
  else if bool_decide (o_handler o = "issue_with_proof") then proof_enabled b
  else true.

(** The handler the documents name for a request. *)
Definition documented_handler (b : Build) (m : Method) (p : string) : option string :=
  o_handler <$> List.find (fun o => bool_decide (o_method o = m) && bool_decide (o_path o = p) && switched_on b o)
                  (reference_ops (invite_tickets b)).

Definition handler_of (a : Answer) : option string :=
  match a_end a with Handled h => Some h | _ => None end.

Definition plain_methods : list Method := [GET; POST; PUT; PATCH; DELETE; CONNECT; TRACE].

Lemma in_plain_methods m : m <> HEAD -> m <> OPTIONS -> In m plain_methods.
Proof. destruct m; simpl; tauto. Qed.

Lemma served_public b m p :
  In m plain_methods -> p ∈ public_paths -> handler_of (answer (all_in_one_app b) m p) = documented_handler b m p.
Proof.
  assert (H : forallb (fun m => forallb (fun p =>
            bool_decide (handler_of (answer (all_in_one_app b) m p) = documented_handler b m p)) public_paths) plain_methods = true)
    by (destruct b as [[] [] [] []]; vm_compute; reflexivity).
  rewrite forallb_forall in H. intros Hm Hp. specialize (H m Hm). rewrite forallb_forall in H.
  apply (bool_decide_eq_true_1 _). by apply H, list_elem_of_In.
Qed.

Lemma documented_paths b o : o ∈ reference_ops (invite_tickets b) -> o_path o ∈ (HEALTH ++ public_paths)%list.
Proof.
  assert (H : forallb (fun o => bool_decide (o_path o ∈ (HEALTH ++ public_paths)%list)) (reference_ops (invite_tickets b)) = true)
    by (destruct b as [[] ? ? ?]; vm_compute; reflexivity).
  rewrite forallb_forall in H. intros Ho. apply (bool_decide_eq_true_1 _). by apply H, list_elem_of_In.
Qed.

Lemma undocumented_off b m p : off_paths p -> documented_handler b m p = None.
Proof.
  intros Hp. unfold documented_handler. destruct (List.find _ _) as [o|] eqn:E; [|done].
  apply find_some in E as [Ho Hm]. apply list_elem_of_In in Ho. apply documented_paths in Ho.
  apply andb_true_iff in Hm as [Hm _]. apply andb_true_iff in Hm as [_ <-%bool_decide_eq_true]. done.
Qed.

Lemma served_is_documented A b m p :
  AxumLaws A -> m <> HEAD -> m <> OPTIONS -> p ∉ HEALTH -> String.prefix "/docs" p = false ->
  handler_of (ax_answer A (all_in_one_app b) m p) = documented_handler b m p.
Proof.
  intros HA Hh Ho Hp Hd. rewrite answer_determined by done.
  destruct (decide (p ∈ public_paths)) as [Hin|Hout]; [by apply served_public; [apply in_plain_methods|]|].
  assert (Hoff : off_paths p) by (by apply not_elem_of_app).
  rewrite undocumented_off by done. rewrite (answer_off _ m p _ _ (merged_look b p Hoff Hd) (merged_fallback b)).
  unfold handler_of. cbn. unfold fallback. by destruct (String.prefix notify_prefix p).
Qed.

(** ** The derived documents *)

Definition method_name (m : Method) : string :=
  match m with
  | GET => "get" | HEAD => "head" | POST => "post" | PUT => "put" | PATCH => "patch" | DELETE => "delete"
  | OPTIONS => "options" | CONNECT => "connect" | TRACE => "trace"
  end.

Definition entry (o : OpenApi.Operation) : string * string * string := (method_name (o_method o), o_path o, o_tag o).
Definition page_entry (ep : ApiDoc.Endpoint) : string * string * string := (method ep, path ep, tag_of (op ep)).

(** What the macro is documented to derive, of the documents here: every operation once
    under its path and method with its tag first, the schemas and the tags. *)
Record UtoipaLaws (render : ServiceDoc -> Json) : Prop := {
  rendered_operations : forall d, d ∈ services true -> page_entry <$> operations (render d) ≡ₚ entry <$> d_paths d;
  rendered_paths : forall d, d ∈ services true -> (paths_of (render d)).*1 ≡ₚ o_path <$> d_paths d;
  rendered_object : forall d, d ∈ services true -> exists m, get_object "paths" (render d) = Some m;
  rendered_schemas : forall d, d ∈ services true -> exists c m,
    json_get "components" (render d) = Some (JObject c) /\ json_get "schemas" (JObject c) = Some (JObject m);
  rendered_tags : forall d, d ∈ services true -> exists l, get_array "tags" (render d) = Some l }.

Definition docs_of (render : ServiceDoc -> Json) (invites : bool) : Docs :=
  {| attestation_doc := render attestation_api; indexer_doc := render indexer_api;
     invites_doc := if invites then Some (render invites_api) else None;
     turn_doc := render turn_api; notify_doc := render notify_api |}.

Lemma all_docs_of render invites : all_docs (docs_of render invites) = render <$> services invites.
Proof. by destruct invites. Qed.

Lemma services_all invites d : d ∈ services invites -> d ∈ services true.
Proof.
  destruct invites; [done|]. intros [H|[H|H]%elem_of_app]%elem_of_app; apply elem_of_app;
    [by left|by apply not_elem_of_nil in H|right; apply elem_of_app; by right].
Qed.

(** *** Merging does not panic *)

Record shaped (j : Json) : Prop := {
  sh_paths : exists m, get_object "paths" j = Some m;
  sh_schemas : exists c m, json_get "components" j = Some (JObject c) /\ json_get "schemas" (JObject c) = Some (JObject m);
  sh_tags : exists l, get_array "tags" j = Some l }.

Lemma merge_object_paths other base :
  shaped base -> exists d, merge_object other "/paths" base = Some d /\ shaped d.
Proof.
  intros [[m Hm] (c & s & Hc & Hs) [l Hl]]. unfold merge_object. cbv zeta.
  replace (pointer_tokens "/paths") with ["paths"] by (vm_compute; reflexivity).
  unfold get_object in Hm. destruct (json_get "paths" base) as [v|] eqn:Ev; [|done]. cbn [mbind option_bind] in Hm.
  destruct base as [| | | | |b]; try done. cbn [update_at]. rewrite Ev. cbn [mbind option_bind]. rewrite Hm. cbn [mbind option_bind].
  eexists. split; [reflexivity|]. split.
  - eexists. unfold get_object. rewrite get_insert_eq. reflexivity.
  - exists c, s. by rewrite get_insert_ne.
  - exists l. unfold get_array in *. by rewrite get_insert_ne.
Qed.

Lemma merge_object_schemas other base :
  shaped base -> exists d, merge_object other "/components/schemas" base = Some d /\ shaped d.
Proof.
  intros [[m Hm] (c & s & Hc & Hs) [l Hl]]. unfold merge_object. cbv zeta.
  replace (pointer_tokens "/components/schemas") with ["components"; "schemas"] by (vm_compute; reflexivity).
  destruct base as [| | | | |b]; try done. cbn [update_at]. rewrite Hc. cbn [mbind option_bind]. rewrite Hs. cbn [mbind option_bind as_object].
  eexists. split; [reflexivity|]. split.
  - exists m. unfold get_object in *. by rewrite get_insert_ne.
  - eexists _, _. rewrite get_insert_eq. split; [reflexivity|]. by rewrite get_insert_eq.
  - exists l. unfold get_array in *. by rewrite get_insert_ne.
Qed.

Lemma merge_array_tags other base :
  shaped base -> exists d, merge_array other "/tags" base = Some d /\ shaped d.
Proof.
  intros H. pose proof H as [[m Hm] (c & s & Hc & Hs) [l Hl]]. unfold merge_array. cbv zeta.
  destruct (default [] _) as [|t ts]; [by exists base|].
  replace (pointer_tokens "/tags") with ["tags"] by (vm_compute; reflexivity).
  unfold get_array in Hl. destruct (json_get "tags" base) as [v|] eqn:Ev; [|done]. cbn [mbind option_bind] in Hl.
  destruct base as [| | | | |b]; try done. cbn [update_at]. rewrite Ev. cbn [mbind option_bind]. rewrite Hl. cbn [mbind option_bind].
  eexists. split; [reflexivity|]. split.
  - exists m. unfold get_object in *. by rewrite get_insert_ne.
  - exists c, s. by rewrite get_insert_ne.
  - eexists. unfold get_array. rewrite get_insert_eq. reflexivity.
Qed.

Lemma merge_docs_shaped l base : shaped base -> exists d, foldl merge_doc (Some base) l = Some d /\ shaped d.
Proof.
  revert base. induction l as [|o l IH]; intros base Hb; [by exists base|]. cbn [foldl]. unfold merge_doc at 2.
  cbn [mbind option_bind]. destruct (merge_object_paths o base Hb) as (b1 & -> & H1). cbn [mbind option_bind].
  destruct (merge_object_schemas o b1 H1) as (b2 & -> & H2). cbn [mbind option_bind].
  destruct (merge_array_tags o b2 H2) as (b3 & -> & H3). by apply IH.
Qed.
(** *** The page *)

Section page.
Context (render : ServiceDoc -> Json) (Hr : UtoipaLaws render) (invites : bool).

Lemma reference_merges : exists doc, merged_doc (docs_of render invites) = Some doc.
Proof.
  destruct (merge_docs_shaped (others (docs_of render invites)) (render attestation_api)) as (doc & H & _); [|by exists doc].
  assert (Ha : attestation_api ∈ services true) by apply list_elem_of_here.
  split; [by apply rendered_object|by apply rendered_schemas|by apply rendered_tags].
Qed.

Lemma rendered_disjoint : NoDup (concat ((fun x => (paths_of x).*1) <$> all_docs (docs_of render invites))).
Proof.
  rewrite all_docs_of.
  assert (Hp : concat ((fun x => (paths_of x).*1) <$> (render <$> services invites)) ≡ₚ o_path <$> reference_ops invites).
  { unfold reference_ops. assert (Hs : forall d, d ∈ services invites -> d ∈ services true) by apply services_all.
    induction (services invites) as [|d l IH]; [done|]. cbn [fmap list_fmap concat]. rewrite fmap_app.
    rewrite IH by (intros d' Hd; apply Hs; by apply list_elem_of_further).
    by rewrite (rendered_paths _ Hr d) by (apply Hs; apply list_elem_of_here). }
  rewrite Hp. destruct invites; refine (bool_decide_eq_true_1 _ _); vm_compute; reflexivity.
Qed.

Lemma page_entries doc :
  merged_doc (docs_of render invites) = Some doc ->
  page_entry <$> concat (endpoints_by_tag doc).*2 ≡ₚ entry <$> reference_ops invites.
Proof.
  intros Hd. destruct (grouped_by_tag doc) as [Hg _]. rewrite Hg.
  rewrite (operations_merged _ _ Hd rendered_disjoint), all_docs_of. unfold reference_ops.
  assert (Hs : forall d, d ∈ services invites -> d ∈ services true) by apply services_all.
  induction (services invites) as [|d l IH]; [done|]. cbn [fmap list_fmap concat]. rewrite !fmap_app.
  rewrite IH by (intros d' Hd'; apply Hs; by apply list_elem_of_further).
  by rewrite (rendered_operations _ Hr d) by (apply Hs; apply list_elem_of_here).
Qed.

(** A row of a section, and a documented operation. *)
Lemma page_row doc e :
  merged_doc (docs_of render invites) = Some doc ->
  (exists eps ep, (snd e, eps) ∈ endpoints_by_tag doc /\ ep ∈ eps /\ page_entry ep = e) <->
  exists o, o ∈ reference_ops invites /\ entry o = e.
Proof.
  intros Hd. pose proof (page_entries doc Hd) as Hp. destruct (grouped_by_tag doc) as (_ & _ & Hg & _). split.
  - intros (eps & ep & Hs & Hep & He). assert (Hin : e ∈ page_entry <$> concat (endpoints_by_tag doc).*2).
    { apply list_elem_of_fmap. exists ep. split; [done|]. apply list_elem_of_In, in_concat. exists eps.
      split; [|by apply list_elem_of_In]. apply list_elem_of_In, list_elem_of_fmap. by exists (snd e, eps). }
    rewrite Hp in Hin. apply list_elem_of_fmap in Hin as (o & -> & Ho). by exists o.
  - intros (o & Ho & He). assert (Hin : e ∈ entry <$> reference_ops invites) by (apply list_elem_of_fmap; by exists o).
    rewrite <- Hp in Hin. apply list_elem_of_fmap in Hin as (ep & Hep & Hin).
    apply list_elem_of_In, in_concat in Hin as (eps & Heps & Hin). apply list_elem_of_In, list_elem_of_fmap in Heps as ([tag eps'] & -> & Hs).
    cbn [snd] in Hin. apply list_elem_of_In in Hin. destruct (Hg tag eps' Hs) as [-> _].
    exists (of_tag tag (operations doc)), ep. split; [|by split]. apply list_elem_of_In, List.filter_In in Hin as [_ Ht%String.eqb_eq].
    assert (snd e = tag) as -> by (rewrite Hep; exact Ht). exact Hs.
Qed.
End page.

(** C22. The reference is the interface.  The documents derived from the annotations merge
    into one page (the generator does not panic), whose rows are exactly the documented
    operations, each in the section of its tag; and whatever is compiled in and switched
    on, a request that is neither a probe, a preflight, a [HEAD] nor for the
    documentation is answered by a handler exactly when the page has a row for its
    method and path that is switched on, and by the handler annotated there. *)
Theorem reference_is_the_api render A b :
  UtoipaLaws render -> AxumLaws A ->
  exists doc, merged_doc (docs_of render (invite_tickets b)) = Some doc /\
    (forall e, (exists eps ep, (snd e, eps) ∈ endpoints_by_tag doc /\ ep ∈ eps /\ page_entry ep = e) <->
               exists o, o ∈ reference_ops (invite_tickets b) /\ entry o = e) /\
    forall m p, m <> HEAD -> m <> OPTIONS -> p ∉ HEALTH -> String.prefix "/docs" p = false ->
      handler_of (ax_answer A (all_in_one_app b) m p) = documented_handler b m p.
Proof.
  intros Hr HA. destruct (reference_merges render Hr (invite_tickets b)) as [doc Hd]. exists doc.
  split; [exact Hd|]. split; [intros e; by apply (page_row render Hr)|]. intros m p. by apply served_is_documented.
Qed.

(** ** The replies *)

(** Which keys an object has to have, and may have. *)
Definition conforms (sc : OpenApi.Schema) (j : Json) : bool :=
  match j with
  | JObject m =>
      forallb (fun f => negb (f_required f) || bool_decide (f_name f ∈ m.*1)) (sc_fields sc)
      && forallb (fun k => existsb (fun f => String.eqb (f_name f) k) (sc_fields sc)) m.*1
      && bool_decide (NoDup m.*1)
  | _ => false
  end.

Definition body_schemas : list OpenApi.Schema :=
  [error_response_schema; status_schema; challenge_response_schema; token_response_schema; attester_response_schema;
   available_response_schema; register_response_schema; queue_status_schema; search_response_schema; puzzle_schema;
   issue_response_schema; notify_response_schema; claim_response_schema].

(** The schema documented for a status; none where the body is any JSON value. *)
Definition schema_for (o : OpenApi.Operation) (st : Z) : option OpenApi.Schema :=
  r ← List.find (fun r => rd_status r =? st) (o_responses o);
  name ← rd_body r;
  List.find (fun sc => String.eqb (sc_name sc) name) body_schemas.

Definition documented (o : OpenApi.Operation) : list Z := rd_status <$> o_responses o.

(** The statuses that are answered and not documented. *)
Definition UNDOCUMENTED : list (string * Z) :=
  [("/api/v1/auth/challenges", 429); ("/api/v1/auth/challenges", 500);
   ("/api/v1/auth/app-attest/attestations", 400); ("/api/v1/auth/app-attest/attestations", 429);
   ("/api/v1/auth/app-attest/attestations", 500);
   ("/api/v1/auth/token", 400); ("/api/v1/auth/token", 429); ("/api/v1/auth/token", 500);
   ("/api/v1/auth/token/refresh", 429); ("/api/v1/auth/token/refresh", 500);
   ("/api/v1/registration/queue", 500); ("/api/v1/usernames/search", 500);
   ("/api/v1/turn/issue-with-proof", 500)].

(** A reply as its operation documents it. *)
Definition as_documented (o : OpenApi.Operation) (r : Reply) : bool :=
  (bool_decide (status r ∈ documented o) || bool_decide ((o_path o, status r) ∈ UNDOCUMENTED))
  && match schema_for o (status r) with
     | Some sc => match body r with Some j => conforms sc j | None => false end
     | None => true
     end.

Definition bearer_of (a : Jwt.AuthSubject) : Registration.AuthSubject :=
  {| Registration.subject := Jwt.subject a; Registration.platform := Jwt.platform a |}.

Definition health_json (f : Health.Field) : Json :=
  match f with
  | Health.Text s => JString s
  | Health.Parts m => JObject ((fun kv => (fst kv, JString (snd kv))) <$> map_to_list m)
  | Health.Snapshot s => nullable JString s
  end.

Definition health_reply (r : Health.Reply) : Reply :=
  reply_json (fst r) (JObject ((fun kv => (fst kv, health_json (snd kv))) <$> map_to_list (snd r))).

Section answered.
Context (header_ok : string -> bool) (rfc3339 : Z -> string).

(** The replies of each annotated handler, over everything it may meet. *)
Inductive replies : OpenApi.Operation -> Reply -> Prop :=
| re_healthcheck : replies healthcheck_op (reply_json 200 (status_json "ok"))
| re_livez : replies livez_op (reply_json 200 (status_json "alive"))
| re_readyz db chain : replies readyz_op (health_reply (Health.attestation_readyz (Health.attestation_probe db chain)))
| re_jwks keys : replies jwks_op (reply_json 200 keys)
| re_attester account : replies attester_op (reply_json 200 (JObject [("attester", JString (attester account))]))
| re_challenge (g : Limiter.Governor) at_ path ip l b64_std now app_now ttl drawn db :
    replies challenge_op
      (behind_limit (fst (rate_limit at_ path ip l))
         (of_result (fun c => reply_json (fst c) (JObject [("challenge", JString (snd c))]))
            (fun e => app_error (Auth.Internal e))
            (fst (issue_challenge b64_std now app_now ttl drawn db))))
| re_app_attest (g : Limiter.Governor) at_ path ip l cr config env key_id challenge attestation s :
    replies app_attest_op
      (behind_limit (fst (rate_limit at_ path ip l))
         (of_result key_reply app_error (fst (Auth.register_key cr config env key_id challenge attestation s))))
| re_token (g : Limiter.Governor) at_ path ip l (jc : Jwt.JwtCrates) jwt cr config env headers body s :
    replies token_op
      (behind_limit (fst (rate_limit at_ path ip l))
         (of_result (fun t => reply_json 200 (token_json t)) app_error (fst (Auth.issue jwt cr config env headers body s))))
| re_refresh (g : Limiter.Governor) at_ path ip l (jc : Jwt.JwtCrates) jwt config env presented s :
    replies refresh_op
      (behind_limit (fst (rate_limit at_ path ip l))
         (of_result (fun t => reply_json 200 (token_json t)) app_error (fst (Auth.rotate jwt config env presented s))))
| re_available (g : Limiter.Governor) auth cr json now env request l :
    replies available_op
      (guarded header_ok auth (fun a =>
         of_result (fun m => reply_json 200 (available_json m)) (usernames_error header_ok)
           (fst (check cr json now env (Jwt.subject a) request l))))
| re_register_refused e : replies register_op (auth_error header_ok e)
| re_register (ap : DeviceCheck.AppleService) cr config env a header body s r :
    registered header_ok (fst (Registration.register cr config env (bearer_of a) header body s)) = Some r ->
    replies register_op r
| re_queue (g : Limiter.Governor) auth now snapshot l :
    replies queue_op
      (guarded header_ok auth (fun a =>
         of_result (fun q => reply_json 200 (queue_json q)) (usernames_error header_ok)
           (fst (queue_status now (Jwt.subject a) snapshot l))))
| re_search (jc : Jwt.JwtCrates) poc gate fate authorization proof now_secs now_ms spent wait cr db_ok t params r :
    search_reply header_ok rfc3339 wait
      (fst (Poc.poc_gate poc gate fate authorization proof now_secs now_ms spent)) (Search.search cr db_ok t params) = Some r ->
    replies search_op r
| re_puzzle poc (g : Poc.PocGate) session now_ms st p :
    issue_puzzle (Some g) (fun g => Poc.issue poc g session now_ms) = Some (st, p) ->
    replies puzzle_op (reply_json st (Poc.puzzle_json poc p))
| re_claim_refused e : replies claim_op (auth_error header_ok e)
| re_claim cr network rate now body r :
    ends (Tickets.claim_ticket cr network rate now body) r ->
    replies claim_op (of_result (fun c => reply_json 200 (claim_json c)) (tickets_error header_ok) r)
| re_turn (g : Limiter.Governor) auth cr clock now answer id body s :
    replies turn_op
      (guarded header_ok auth (fun a =>
         of_result (fun i => reply_json 201 (issued_json i)) (turn_error header_ok)
           (fst (Turn.issue_credentials cr clock now answer id (Jwt.subject a) body s))))
| re_proof (g : Limiter.Governor) cr env body s :
    replies proof_op
      (of_result (fun i => reply_json 201 (issued_json i)) (turn_error header_ok)
         (fst (Turn.issue_with_proof cr env body s)))
| re_notify (g : Limiter.Governor) auth cr clock env body s :
    replies notify_op
      (guarded header_ok auth (fun a =>
         of_result (fun n => reply_json 200 (notify_json n)) (notify_error header_ok)
           (fst (fst (Notify.handle cr clock env (Jwt.subject a) body s))))).
End answered.

(** *** What the framework answers before a handler runs

    The extractors of a handler's signature can refuse the request, and the timeout layer
    can cut it short; both answer themselves, in plain text.  axum and tower-http are not
    part of the repository: what they answer is a parameter, with the statuses they
    document. *)

Inductive Extractor := ByBytes | ByJson | ByQuery.

(** [BytesRejection]: the body was not read, or is over the limit; [JsonRejection]: also
    malformed JSON, a missing content type, or data of another shape; [QueryRejection]. *)
Definition rejection_statuses (ex : Extractor) : list Z :=
  match ex with ByBytes => [400; 413] | ByJson => [400; 413; 415; 422] | ByQuery => [400] end.

Record Framework := {
  fw_request : Type;
  fw_reject : Extractor -> fw_request -> option Reply;
  fw_timeout : Z -> Reply }.

Class FrameworkLaws (fw : Framework) : Prop := {
  reject_plain ex q r : fw_reject fw ex q = Some r -> status r ∈ rejection_statuses ex /\ body r = None;
  timeout_plain st : status (fw_timeout fw st) = st /\ body (fw_timeout fw st) = None }.

(** The extractors in the handlers' signatures.  The proof and the notify handler take
    their body as a [Result] and answer a rejection themselves. *)
Definition app_attest_body : Extractor := ByJson.
Definition refresh_body : Extractor := ByJson.
Definition token_body : Extractor := ByBytes.
Definition register_body : Extractor := ByBytes.
Definition available_body : Extractor := ByBytes.
Definition claim_body : Extractor := ByBytes.
Definition turn_body : Extractor := ByBytes.
Definition search_params : Extractor := ByQuery.

Definition extractors : list (OpenApi.Operation * Extractor) :=
  [(app_attest_op, app_attest_body); (refresh_op, refresh_body); (token_op, token_body);
   (register_op, register_body); (available_op, available_body); (claim_op, claim_body);
   (turn_op, turn_body); (search_op, search_params)].

Definition TIMEOUT_STATUS : Z := 408.

Definition extractor_of (o : OpenApi.Operation) : option Extractor :=
  snd <$> List.find (fun oe : OpenApi.Operation * Extractor => String.eqb (o_path (fst oe)) (o_path o)) extractors.

Definition refused (fw : Framework) (o : OpenApi.Operation) (r : Reply) : Prop :=
  (exists ex q, extractor_of o = Some ex /\ fw_reject fw ex q = Some r) \/ r = fw_timeout fw TIMEOUT_STATUS.

(** The statuses the framework can answer for an operation. *)
Definition refusals (o : OpenApi.Operation) : list Z :=
  TIMEOUT_STATUS :: match extractor_of o with Some ex => rejection_statuses ex | None => [] end.

(** What goes out for an annotated operation: a reply of its handler (with the limits,
    the gate and the authentication in front of it), or a refusal by the framework. *)
Definition sent (header_ok : string -> bool) (rfc3339 : Z -> string) (fw : Framework) (o : OpenApi.Operation) (r : Reply) : Prop :=
  replies header_ok rfc3339 o r \/ refused fw o r.

(** *** Which errors a handler can end with *)

Section auth_errors.
Context (P : Auth.AppError -> Prop).

Definition only {A : Type} (m : Auth.H A) : Prop :=
  forall s, match fst (m s) with Ok _ => True | Err e => P e end.

Lemma only_ret {A : Type} (a : A) : only (Auth.hret a).
Proof. by intros s. Qed.
Lemma only_err {A : Type} e : P e -> only (@Auth.herr A e).
Proof. by intros H s. Qed.
Lemma only_lift {A : Type} (r : result A Auth.AppError) :
  match r with Ok _ => True | Err e => P e end -> only (Auth.hlift r).
Proof. by intros H s. Qed.
Lemma only_bind {A B : Type} (m : Auth.H A) (k : A -> Auth.H B) :
  only m -> (forall a, only (k a)) -> only (Auth.hbind m k).
Proof.
  intros Hm Hk s. unfold Auth.hbind. specialize (Hm s). destruct (m s) as [[a|e] s']; [apply Hk|exact Hm].
Qed.
Lemma only_stmt {A : Type} env i (f : _ -> A * _) : P (Auth.Internal "database") -> only (Auth.stmt env i f).
Proof. intros H s. unfold Auth.stmt. destruct (Auth.fate env i); [by destruct (f _)|done|done]. Qed.
End auth_errors.

Lemma decode_header_errors cr headers name :
  match Auth.decode_header cr headers name with Ok _ => True | Err e => exists m, e = Auth.BadRequest m end.
Proof. unfold Auth.decode_header. destruct (Auth.header_text headers name); [|by eexists]. destruct (Auth.b64_decode _ _); [done|by eexists]. Qed.

Lemma decode_fixed_errors cr n headers name :
  match Auth.decode_header_fixed cr n headers name with Ok _ => True | Err e => exists m, e = Auth.BadRequest m end.
Proof.
  unfold Auth.decode_header_fixed. pose proof (decode_header_errors cr headers name) as H.
  destruct (Auth.decode_header cr headers name); cbn; [|done]. case_decide; [done|by eexists].
Qed.

Lemma decode_field_errors cr value name :
  match Auth.decode_b64_field cr value name with Ok _ => True | Err e => exists m, e = Auth.BadRequest m end.
Proof. unfold Auth.decode_b64_field. destruct (Auth.b64_decode _ _); [done|by eexists]. Qed.

(** The errors of the token route, of the key registration. *)
Definition token_error (e : Auth.AppError) : bool :=
  match e with Auth.RateLimited | Auth.Conflict _ | Auth.Forbidden _ => false | _ => true end.
Definition key_error (e : Auth.AppError) : bool :=
  match e with Auth.BadRequest _ | Auth.Internal _ => true | _ => false end.

Lemma bad_request_lift {A : Type} (f : Auth.AppError -> bool) (r : result A Auth.AppError) :
  match r with Ok _ => True | Err e => exists m, e = Auth.BadRequest m end -> (forall m, f (Auth.BadRequest m) = true) ->
  only (fun e => f e = true) (Auth.hlift r).
Proof. intros H Hf. apply only_lift. destruct r; [done|]. destruct H as [m ->]. apply Hf. Qed.

Lemma verdict_errors cr config env headers challenge client_id body :
  only (fun e => token_error e = true) (Auth.attestation_verdict cr config env headers challenge client_id body).
Proof.
  unfold Auth.attestation_verdict. destruct (Auth.contains_key _ _).
  - apply only_bind; [|intros; apply only_ret]. unfold Auth.ios_attestation_verdict.
    destruct (Auth.header_text _ _); [|apply only_ret]. destruct (negb _); [apply only_ret|].
    destruct (Auth.decode_header _ _ _); [|apply only_ret]. destruct (Auth.decode_header _ _ _); [|apply only_ret].
    apply only_bind; [by apply only_stmt|]. intros [[k c]|]; [|apply only_ret].
    destruct (AppAttest.verify_assertion _ _ _ _ _ _ _); [|apply only_ret].
    apply only_bind; [by apply only_stmt|]. intros; apply only_ret.
  - destruct (Auth.header_text _ _) as [t|]; [|apply only_ret].
    destruct (String.eqb t "key-attestation"); [|destruct (String.eqb t "play-integrity"); apply only_ret].
    apply only_lift. unfold Auth.key_attestation_verdict. destruct (KeyAttest.chain_from_body _ _ _); [|done].
    destruct (Auth.android_signing_digest_playstore config); [|done].
    destruct (Auth.android_signing_digest_website config); [|done]. destruct (Auth.crl env); [done|]. by destruct (Auth.enforce_auth config).
Qed.

Lemma token_errors `{jc : Jwt.JwtCrates} jwt cr config env headers body :
  only (fun e => token_error e = true) (Auth.issue jwt cr config env headers body).
Proof.
  unfold Auth.issue. apply only_bind; [by apply bad_request_lift; [apply decode_fixed_errors|]|]. intros client_id.
  apply only_bind; [by apply bad_request_lift; [apply decode_fixed_errors|]|]. intros client_proof.
  apply only_bind; [by apply bad_request_lift; [apply decode_header_errors|]|]. intros challenge.
  apply only_bind; [by apply only_stmt|]. intros consumed.
  destruct (negb consumed); [by apply only_err|]. destruct (negb _); [by apply only_err|].
  apply only_bind.
  - destruct (Auth.auth_enabled config); [|apply only_ret]. apply only_bind; [apply verdict_errors|].
    intros [v|reason]; [apply only_ret|]. destruct (Auth.enforce_auth config); [by apply only_err|apply only_ret].
  - intros from_store. apply only_bind; [by apply only_stmt|]. intros [t|]; [apply only_ret|by apply only_err].
Qed.

Lemma key_errors cr config env key_id challenge attestation :
  only (fun e => key_error e = true) (Auth.register_key cr config env key_id challenge attestation).
Proof.
  unfold Auth.register_key. destruct (negb _); [apply only_ret|].
  do 3 (apply only_bind; [by apply bad_request_lift; [apply decode_field_errors|]|]; intros ?).
  apply only_bind; [by apply only_stmt|]. intros consumed. destruct (negb consumed); [apply only_ret|].
  destruct (AppAttest.verify_attestation _ _ _ _ _ _ _ _).
  - apply only_bind; [by apply only_stmt|]. intros; apply only_ret.
  - destruct (Auth.enforce_auth config); apply only_ret.
Qed.

(** Registration is the one user of the username errors that never says a claim is not
    in the queue. *)
Section register_errors.
Import Registration.
Context {ap : DeviceCheck.AppleService} (cr : Crates) (config : RegisterConfig) (env : Env).

Definition quiet (e : exit) : Prop := e <> Returned (Err Usernames.NoQueueEntry).
Definition never {A : Type} (m : Handler A) : Prop := forall s, match fst (m s) with inl _ => True | inr e => quiet e end.

Lemma never_ret {A : Type} (a : A) : never (hret a).
Proof. by intros s. Qed.
Lemma never_fail {A : Type} e : e <> Usernames.NoQueueEntry -> never (fail (A:=A) e).
Proof. intros H s [= E]. by apply H. Qed.
Lemma never_finish {A : Type} r : never (finish (A:=A) r).
Proof. by intros s. Qed.
Lemma never_panic {A : Type} : never (panic (A:=A)).
Proof. by intros s. Qed.
Lemma never_bind {A B : Type} (m : Handler A) (k : A -> Handler B) : never m -> (forall a, never (k a)) -> never (hbind m k).
Proof. intros Hm Hk s. unfold hbind. specialize (Hm s). destruct (m s) as [[a|e] s']; [apply Hk|exact Hm]. Qed.
Lemma never_lift {A : Type} (r : result A Usernames.UsernamesError) :
  r <> Err Usernames.NoQueueEntry -> never (lift r).
Proof. intros H. destruct r; [apply never_ret|]. apply never_fail. congruence. Qed.
Lemma never_stmt {A : Type} i (f : Db -> A * Db) : never (stmt env i f).
Proof. intros [db c]. unfold stmt. by destruct (run_stmt _ _ _). Qed.
Lemma never_query {A : Type} i (f : Db -> A) : never (query env i f).
Proof. apply never_stmt. Qed.
Lemma never_apple {A : Type} (f : Z -> DeviceCheck.Client -> A * DeviceCheck.Client) : never (apple env f).
Proof. intros [db c]. unfold apple. by destruct (f _ c). Qed.

Ltac never_cases :=
  repeat (first
    [ apply never_ret | apply never_finish | apply never_panic | (apply never_fail; discriminate)
    | (apply never_bind; [first [apply never_stmt|apply never_query|apply never_apple]|intros ?])
    | match goal with
      | |- never (match ?x with _ => _ end) => destruct x
      | |- never (fail (match ?x with _ => _ end)) => destruct x
      end ]).

Lemma widevine_never auth body : never (widevine_gate cr config env auth body).
Proof. unfold widevine_gate, reject, Usernames.evidence_error. never_cases. Qed.

Lemma device_check_never auth header : never (device_check_gate cr config env auth header).
Proof. unfold device_check_gate. never_cases. Qed.

Lemma mark_never new token group : never (mark_and_commit cr env new token group).
Proof.
  intros [db c]. unfold mark_and_commit. destruct (fate env 6); [|by intros E..].
  destruct (insert_reservation _ _ _ _) as [[id|e] tx]; [|by destruct e].
  destruct (register_device _ _ _ _ _) as [[|] c']; [|done]. by destruct (fate env 7).
Qed.

Definition never_answer (r : result Z (result ReserveOutcome Usernames.UsernamesError) * Db) : Prop :=
  match fst r with Err (Err e) => e <> Usernames.NoQueueEntry | _ => True end.

Lemma device_txn_answer now new group hmac db : never_answer (device_txn now new group hmac db).
Proof.
  unfold device_txn. destruct (insert_reservation _ _ _ _) as [[id|[]] d1]; [|done..].
  by destruct (insert_pending _ _ _) as [[|[]] d2].
Qed.

Lemma reserve_never new mark_token group wv : never (reserve cr config env new mark_token group wv).
Proof.
  unfold reserve. destruct wv as [hmac|].
  - intros [db c]. unfold hbind, stmt, txn, run_stmt.
    assert (H : forall d, never_answer (device_txn (db_now env) new group hmac d)) by (intros d; apply device_txn_answer).
    destruct (fate env 5); [|done|done]. specialize (H (others env 5 db)).
    destruct (device_txn _ _ _ _ _) as [[id|[o|e]] tx]; [done|done|]. cbn in *. intros [= ->]. done.
  - destruct mark_token as [token|]; unfold insert_error; never_cases. apply mark_never.
Qed.

Lemma voucher_never key new : never (voucher_lane cr env key new).
Proof.
  unfold voucher_lane. never_cases. intros [db c]. destruct (Eligibility.redeem_and_reserve _ _ _ _ _ _ _) as [[|[]] db']; done.
Qed.

Lemma register_never auth header body : never (register cr config env auth header body).
Proof.
  unfold register. apply never_bind; [unfold check_rate_limit; never_cases|]. intros _.
  apply never_bind; [apply never_lift; unfold validate_device_token_header; by repeat case_match|]. intros _.
  apply never_bind; [apply never_lift; unfold parse_json_body; by case_match|]. intros value.
  apply never_bind; [apply never_lift; by destruct (block env)|]. intros form.
  apply never_bind; [apply never_lift; unfold Request.validate_register; by repeat case_match|]. intros parsed.
  apply never_bind; [apply never_query|]. intros pending.
  apply never_bind; [apply never_lift; by destruct (base_state_at _ _)|]. intros base.
  apply never_bind.
  { unfold check_reserved. destruct (Request.reserved_name parsed); [|apply never_ret].
    apply never_bind; [apply never_lift; case_match; [done|by destruct (chain_reservation env _)]|]. intros; never_cases. }
  intros _. apply never_bind; [apply never_lift; unfold Usernames.select_digit; by repeat case_match|]. intros digit.
  destruct (Request.pr_voucher parsed); [apply voucher_never|]. unfold standard_lane.
  apply never_bind; [apply widevine_never|]. intros [wv|]; [|apply never_ret].
  apply never_bind; [apply device_check_never|]. intros [mark available].
  apply never_bind; [apply reserve_never|]. intros [id|]; [|apply never_ret].
  apply never_bind; [unfold standing; never_cases|]. intros; apply never_ret.
Qed.
End register_errors.

(** *** Every reply is documented *)

Section replies_documented.
Context (header_ok : string -> bool) (rfc3339 : Z -> string).

Lemma limit_documented o passed inner :
  as_documented o (app_error Auth.RateLimited) = true -> as_documented o inner = true ->
  as_documented o (behind_limit passed inner) = true.
Proof. by destruct passed. Qed.

Lemma guarded_documented o auth inner :
  (forall e, as_documented o (auth_error header_ok e) = true) -> (forall a, as_documented o (inner a) = true) ->
  as_documented o (guarded header_ok auth inner) = true.
Proof. intros He Hi. destruct auth as [a|e]; [apply Hi|apply He]. Qed.

Ltac by_status := vm_compute; reflexivity.

Lemma token_documented `{jc : Jwt.JwtCrates} jwt cr config env headers body s :
  as_documented token_op
    (of_result (fun t => reply_json 200 (token_json t)) app_error (fst (Auth.issue jwt cr config env headers body s))) = true.
Proof.
  pose proof (token_errors jwt cr config env headers body s) as H.
  destruct (fst (Auth.issue jwt cr config env headers body s)) as [t|e]; cbn [of_result]; [by_status|].
  destruct e; try done; by_status.
Qed.

Lemma key_documented cr config env key_id challenge attestation s :
  as_documented app_attest_op
    (of_result key_reply app_error (fst (Auth.register_key cr config env key_id challenge attestation s))) = true.
Proof.
  pose proof (key_errors cr config env key_id challenge attestation s) as H.
  destruct (fst (Auth.register_key cr config env key_id challenge attestation s)) as [[]|e]; cbn [of_result key_reply]; [by_status..|].
  destruct e; try done; by_status.
Qed.

Lemma refresh_documented `{jc : Jwt.JwtCrates} jwt config env presented s :
  as_documented refresh_op
    (of_result (fun t => reply_json 200 (token_json t)) app_error (fst (Auth.rotate jwt config env presented s))) = true.
Proof. unfold Auth.rotate. destruct (Auth.rotate_token _ _ _ _ _ _ _) as [[[[]|]|] s']; by_status. Qed.

Lemma available_documented `{g : Limiter.Governor} cr json now env subject request l :
  as_documented available_op
    (of_result (fun m => reply_json 200 (available_json m)) (usernames_error header_ok)
       (fst (check cr json now env subject request l))) = true.
Proof.
  assert (Hb : forall bases value, match check_bases cr env bases value with
                 | Ok _ => True | Err e => exists t, e = Usernames.Internal t end).
  { induction bases as [|base bases IH]; intros value; cbn [check_bases]; [done|].
    destruct (Usernames.availability_for _ base); cbn; [apply IH|by eexists]. }
  unfold check, check_rate_limit. destruct (Limiter.allow _ _ l) as [[paid|w] l']; cbn [fst rbind]; [|by_status].
  destruct (json request) as [v|]; cbn [rbind]; [|by_status].
  destruct (Usernames.validate_usernames v) as [bases|]; cbn [map_err rbind]; [|by_status].
  specialize (Hb bases ∅). destruct (check_bases cr env bases ∅) as [m|e]; [|destruct Hb as [t ->]; by_status].
  cbn [of_result]. unfold available_json. generalize (JObject ((fun ba : string * Usernames.NameAvailability => (fst ba, availability_json (snd ba))) <$>
    sort_by (fun a b => String.leb (fst a) (fst b)) (map_to_list m))) as j. intros j. by_status.
Qed.

Lemma queue_documented `{g : Limiter.Governor} now subject snapshot l :
  as_documented queue_op
    (of_result (fun q => reply_json 200 (queue_json q)) (usernames_error header_ok)
       (fst (queue_status now subject snapshot l))) = true.
Proof.
  unfold queue_status. destruct (Limiter.allow _ _ l) as [[paid|w] l']; cbn [fst]; [|by_status].
  destruct snapshot as [snap|e]; cbn [map_err rbind]; [|by_status].
  destruct (Queue.status_in_snapshot snap subject) as [q|]; by_status.
Qed.

Lemma register_documented (o : Registration.Response + Registration.exit) r :
  registered header_ok o = Some r -> match o with inl _ => True | inr e => quiet e end -> as_documented register_op r = true.
Proof.
  assert (Hr : forall b, as_documented register_op (register_reply b) = true).
  { intros [b|]; [|by_status]. destruct b as [? ? ? [] [] []]; by_status. }
  destruct o as [b|[[b|e]|]]; cbn [registered]; [by intros [= <-] _|by intros [= <-] _| |done].
  intros [= <-] Hq. destruct e; try by_status. by destruct Hq.
Qed.

Lemma turn_documented `{g : Limiter.Governor} cr clock now answer id subject body s :
  as_documented turn_op
    (of_result (fun i => reply_json 201 (issued_json i)) (turn_error header_ok)
       (fst (Turn.issue_credentials cr clock now answer id subject body s))) = true.
Proof.
  unfold Turn.issue_credentials.
  assert (Hi : forall (l : Limiter.Limiter) paid, as_documented turn_op
    (of_result (fun i => reply_json 201 (issued_json i)) (turn_error header_ok)
      (fst (let '(issued, src) := Turn.source_issue cr (Turn.ts_source s) now answer id in
            match issued with
            | Some d => (Ok d, {| Turn.ts_source := src; Turn.ts_limiter := l; Turn.ts_alias_limiter := Turn.ts_alias_limiter s |})
            | None => (Err Turn.UpstreamUnavailable,
                       {| Turn.ts_source := src; Turn.ts_limiter := Limiter.refund subject paid l;
                          Turn.ts_alias_limiter := Turn.ts_alias_limiter s |})
            end))) = true).
  { intros l paid. destruct (Turn.source_issue cr _ now answer id) as [[d|] src]; cbn [fst of_result]; by_status. }
  destruct (match body with [] => Ok tt | _ => _ end) as [u|e] eqn:Eb.
  - destruct (Limiter.allow clock subject (Turn.ts_limiter s)) as [[paid|w] l]; [apply Hi|by_status].
  - destruct body as [|b body]; [done|]. destruct (Turn.json_of_bytes cr (b :: body)) as [v|]; [|injection Eb as <-; by_status].
    destruct (Turn.validate_body v); cbn in Eb; [done|]. injection Eb as <-. by_status.
Qed.

Lemma replies_checked o r : replies header_ok rfc3339 o r -> as_documented o r = true.
Proof.
  intros H. destruct H.
  - by_status.
  - by_status.
  - destruct db, chain; by_status.
  - by_status.
  - by_status.
  - apply limit_documented; [by_status|]. unfold issue_challenge. destruct (DeviceGate.create _ _ _ _ _) as [[] db']; by_status.
  - apply limit_documented; [by_status|apply key_documented].
  - apply limit_documented; [by_status|apply token_documented].
  - apply limit_documented; [by_status|apply refresh_documented].
  - apply guarded_documented; [intros []; by_status|]. intros a. apply available_documented.
  - destruct e; by_status.
  - eapply register_documented; [exact H|apply register_never].
  - apply guarded_documented; [intros []; by_status|]. intros a. apply queue_documented.
  - unfold search_reply in H. destruct wait; [injection H as <-; by_status|].
    destruct (fst (Poc.poc_gate _ _ _ _ _ _ _ _)) as [|[]| |]; try done; [|injection H as <-; by_status..].
    destruct (Search.search _ _ _ _) as [x|[]]; injection H as <-; by_status.
  - injection H as <- <-. by_status.
  - destruct e; by_status.
  - destruct r as [c|[]]; by_status.
  - apply guarded_documented; [intros []; by_status|]. intros a. apply turn_documented.
  - destruct (fst (Turn.issue_with_proof _ _ _ _)) as [i|[]]; by_status.
  - apply guarded_documented; [intros []; by_status|]. intros a.
    destruct (fst (fst (Notify.handle _ _ _ _ _ _))) as [[? ? [] [] [] []]|[]]; by_status.
Qed.
Lemma refused_plain fw `{!FrameworkLaws fw} o r : refused fw o r -> status r ∈ refusals o /\ body r = None.
Proof.
  unfold refusals. intros [(ex & q & -> & Hq)| ->].
  - destruct (reject_plain ex q r Hq) as [Hs Hb]. split; [by right|done].
  - destruct (timeout_plain TIMEOUT_STATUS) as [-> Hb]. split; [by left|done].
Qed.

(** C21. What is answered is documented, or listed here.  A reply of an annotated handler,
    over all its inputs and everything it may meet, has a status its operation documents
    or one of thirteen that are listed, and where the operation names a schema for that
    status, the body is an object with the schema's required keys and no key outside it.
    The only other replies are the framework's: an extractor of the handler's signature
    refused the request, or it timed out; they are plain text and have one of the
    statuses [refusals] lists for the operation (408; 400 and 413 where the body is read
    as bytes; 415 and 422 too where it is read as JSON; 400 for the query of search). *)
Theorem replies_as_documented fw o r :
  FrameworkLaws fw -> sent header_ok rfc3339 fw o r ->
  ((status r ∈ documented o \/ (o_path o, status r) ∈ UNDOCUMENTED) /\
   (forall sc, schema_for o (status r) = Some sc -> exists j, body r = Some j /\ conforms sc j = true)) \/
  (refused fw o r /\ status r ∈ refusals o /\ body r = None).
Proof.
  intros Hfw [H%replies_checked|H]; [left|right; split; [done|by apply (refused_plain fw)]].
  unfold as_documented in H. apply andb_true_iff in H as [H1 H2]. split.
  - apply orb_true_iff in H1 as [H1|H1]; apply bool_decide_eq_true in H1; [by left|by right].
  - intros sc Hs. rewrite Hs in H2. destruct (body r) as [j|]; [by exists j|done].
Qed.

(** No operation documents a 408, a 413 or a 415; and no 422 is documented where the body
    is read as JSON. *)
Lemma refusals_undocumented :
  forallb (fun o => forallb (fun st => negb (bool_decide (st ∈ documented o))) [408; 413; 415]) (reference_ops true) = true /\
  forallb (fun o => negb (bool_decide (422 ∈ documented o))) [app_attest_op; refresh_op] = true.
Proof. split; vm_compute; reflexivity. Qed.
End replies_documented.

(** ** The examples *)

(** The object of the examples of a schema's fields. *)
Definition example_of (sc : OpenApi.Schema) : Json :=
  JObject (omap (fun f => (fun e => (f_name f, e)) <$> f_example f) (sc_fields sc)).

(** A client that copies the examples is served: the request bodies they form pass the
    validation of their routes (given that the address is one), and the examples of the
    replies are of the schemas they illustrate. *)
Lemma examples_valid crt account :
  Tickets.ss58_account crt "5FHneW46xGXgs5mUiveU4sbTyGBzmstUspZC92UhjJM694ty" = Some account ->
  is_ok (Notify.validate_body (example_of notify_request_schema)) = true /\
  Turn.validate_body (example_of issue_request_schema) = Ok tt /\
  Usernames.validate_usernames (example_of available_request_schema) = Ok ["tallesx"; "abc"] /\
  Tickets.validate_body crt (example_of claim_request_schema) =
    Ok {| Tickets.who := "5FHneW46xGXgs5mUiveU4sbTyGBzmstUspZC92UhjJM694ty"; Tickets.who_account := account;
          Tickets.dim := Tickets.Game |} /\
  forallb (fun o => forallb (fun r =>
    match schema_for o (rd_status r), rd_example r with Some sc, Some e => conforms sc e | _, _ => true end)
    (o_responses o)) (reference_ops true) = true.
Proof.
  intros Ha. split_and!; [vm_compute; reflexivity..| |vm_compute; reflexivity].
  unfold Tickets.validate_body, Tickets.who_field, Tickets.dim_field. cbn. rewrite Ha. reflexivity.
Qed.

(** ** A rendering *)

Module Demo.
Definition op_json (o : OpenApi.Operation) : Json :=
  JObject [("tags", JArray [JString (o_tag o)]);
           ("responses", JObject ((fun r => (decimal (rd_status r), JObject [("description", JString (rd_description r))]))
                                    <$> o_responses o))].

Definition render (d : ServiceDoc) : Json :=
  JObject
    [("paths", JObject ((fun o => (o_path o, JObject [(method_name (o_method o), op_json o)])) <$> d_paths d));
     ("components", JObject [("schemas", JObject ((fun n => (n, JObject [])) <$> d_schemas d))]);
     ("tags", JArray ((fun t => JObject [("name", JString (fst t)); ("description", JString (snd t))]) <$> d_tags d))].

Lemma render_laws : UtoipaLaws render.
Proof.
  split; intros d Hd; [| |by eexists|by eexists _, _|by eexists];
    assert (H : Forall (fun d => page_entry <$> operations (render d) = entry <$> d_paths d /\
                                 (paths_of (render d)).*1 = o_path <$> d_paths d) (services true))
      by (repeat constructor; vm_compute; reflexivity);
    rewrite Forall_forall in H; destruct (H d Hd) as [H1 H2]; [by rewrite H1|by rewrite H2].
Qed.

Lemma reference_is_the_api_witness :
  exists doc, merged_doc (docs_of render true) = Some doc /\
    (exists eps ep, ("Usernames", eps) ∈ endpoints_by_tag doc /\ ep ∈ eps /\
       page_entry ep = ("get", "/api/v1/registration/queue", "Usernames")) /\
    handler_of (ax_answer model (all_in_one_app everything) GET "/api/v1/registration/queue") = Some "queue::status" /\
    handler_of (ax_answer model (all_in_one_app everything) POST "/api/v1/registration/queue") = None.
Proof.
  destruct (reference_is_the_api render model everything render_laws model_laws) as (doc & Hd & Hp & Hs).
  exists doc. split; [exact Hd|]. split; [|split].
  - apply (Hp ("get", "/api/v1/registration/queue", "Usernames")). exists queue_op. split; [|vm_compute; reflexivity].
    apply (list_elem_of_lookup_2 _ 11). reflexivity.
  - rewrite Hs; [vm_compute; reflexivity|done|done| |vm_compute; reflexivity].
    apply (bool_decide_eq_true_1 _). vm_compute. reflexivity.
  - rewrite Hs; [vm_compute; reflexivity|done|done| |vm_compute; reflexivity].
    apply (bool_decide_eq_true_1 _). vm_compute. reflexivity.
Defined.
(** *** The undocumented statuses *)

Import Limiter.Gcra Jwt.Demo AuthProps PocProps.

Definition ok_headers (_ : string) : bool := true.
Definition iso (t : Z) : string := decimal t.

(** A limiter of one request that has been spent. *)
Definition spent : Limiter.Limiter :=
  let l := {| Limiter.l_quota := {| Limiter.burst := 1; Limiter.period := 30000000000 |};
              Limiter.l_max_burst := 1; Limiter.l_cells := ∅; Limiter.l_credits := ∅ |} in
  snd (rate_limit 1000 "/" "10.0.0.1" l).
Definition unspent : Limiter.Limiter := demo_limiter.

Definition refusing : Auth.AuthEnv :=
  {| Auth.now := secs 1000; Auth.app_now := secs 1000; Auth.random_token := "refresh"; Auth.crl := Ok ∅;
     Auth.others := fun _ s => s; Auth.fate := fun _ => Refused |}.
Definition undecodable : Auth.AuthCrates :=
  {| Auth.b64_decode := fun _ => None; Auth.sr25519_verify := fun _ _ _ => true;
     Auth.crypto := KeyAttestProps.demo_crypto; Auth.cbor := fun _ => Err "none";
     Auth.parse_body := fun _ => Err "none"; Auth.token_crates := PlayIntegrity.demo_token_crates; Auth.google := None |}.

(** A proof request that is in order but for its slots, whose semaphore is closed. *)
Definition closed_env : Turn.ProofEnv TurnProps.Demo.demo :=
  Turn.Build_ProofEnv TurnProps.Demo.demo 1000 7 1000 1000 Turn.Closed true (Turn.NoResponse "down") {[ "vox.dot" := [1] ]}
    (fun _ => Turn.rf_cache TurnProps.Demo.demo
       (foldl (Turn.refresher_turn TurnProps.Demo.demo [9]) (Turn.refresher_new TurnProps.Demo.demo) TurnProps.Demo.demo_turns)).
Definition proof_body : Turn.IssueWithProofBody :=
  {| Turn.pb_product_id := "vox.dot";
     Turn.pb_collection := "0x706f703a706f6c6b61646f742e6e6574776f726b2f70656f706c652d6c697465";
     Turn.pb_proof := "0x0102"; Turn.pb_ring_index := 0; Turn.pb_ring_revision := 0; Turn.pb_timestamp := 1000 |}.

(** A run of each operation that ends with a status its document does not have. *)
Definition shown (o : OpenApi.Operation) (st : Z) : Prop := exists r, replies ok_headers iso o r /\ status r = st.

Ltac show C := eexists; split; [apply C|vm_compute; reflexivity].

Lemma limited_shown o inner :
  (forall l, replies ok_headers iso o (behind_limit (fst (rate_limit 1001 "/" "10.0.0.1" l)) inner)) -> shown o 429.
Proof. intros H. eexists. split; [apply (H spent)|vm_compute; reflexivity]. Qed.

Lemma challenge_shown : shown challenge_op 429 /\ shown challenge_op 500.
Proof.
  split; [eapply limited_shown; intros l; apply (re_challenge ok_headers iso _ 1001 "/" "10.0.0.1" l hex_encode 0 0 60 [1] empty_db)|].
  show (re_challenge ok_headers iso _ 1000 "/" "10.0.0.1" unspent hex_encode 0 0 60 [1] (snd (DeviceGate.create 0 0 60 [1] empty_db))).
Qed.

Lemma app_attest_shown : shown app_attest_op 400 /\ shown app_attest_op 429 /\ shown app_attest_op 500.
Proof.
  split_and!; [|eapply limited_shown; intros l;
    apply (re_app_attest ok_headers iso _ 1001 "/" "10.0.0.1" l demo_auth_crates demo_auth_config refusing "k" "c" "a" demo_auth_db)|].
  - show (re_app_attest ok_headers iso _ 1000 "/" "10.0.0.1" unspent undecodable demo_auth_config refusing "k" "c" "a" demo_auth_db).
  - show (re_app_attest ok_headers iso _ 1000 "/" "10.0.0.1" unspent demo_auth_crates demo_auth_config refusing "k" "c" "a" demo_auth_db).
Qed.

Lemma token_shown : shown token_op 400 /\ shown token_op 429 /\ shown token_op 500.
Proof.
  split_and!; [|eapply limited_shown; intros l;
    apply (re_token ok_headers iso _ 1001 "/" "10.0.0.1" l _ (Jwt.Jwt_new [7] "dub") demo_auth_crates demo_auth_config refusing demo_headers [] demo_auth_db)|].
  - show (re_token ok_headers iso _ 1000 "/" "10.0.0.1" unspent _ (Jwt.Jwt_new [7] "dub") undecodable demo_auth_config refusing demo_headers [] demo_auth_db).
  - show (re_token ok_headers iso _ 1000 "/" "10.0.0.1" unspent _ (Jwt.Jwt_new [7] "dub") demo_auth_crates demo_auth_config refusing demo_headers [] demo_auth_db).
Qed.

Lemma refresh_shown : shown refresh_op 429 /\ shown refresh_op 500.
Proof.
  split; [eapply limited_shown; intros l;
    apply (re_refresh ok_headers iso _ 1001 "/" "10.0.0.1" l _ (Jwt.Jwt_new [7] "dub") demo_auth_config refusing "r" demo_auth_db)|].
  show (re_refresh ok_headers iso _ 1000 "/" "10.0.0.1" unspent _ (Jwt.Jwt_new [7] "dub") demo_auth_config refusing "r" demo_auth_db).
Qed.

Lemma others_shown : shown queue_op 500 /\ shown search_op 500 /\ shown proof_op 500.
Proof.
  split_and!.
  - show (re_queue ok_headers iso _ (Ok {| Jwt.subject := "bob"; Jwt.platform := None; Jwt.from_official_store := None |})
            1000 (Err "down") unspent).
  - eexists. split; [apply (re_search ok_headers iso _ demo_poc None Fine None None 0 0 ∅ None SearchProps.demo_search false
                              SearchProps.demo_table SearchProps.demo_params); vm_compute; reflexivity|vm_compute; reflexivity].
  - show (re_proof ok_headers iso _ TurnProps.Demo.demo closed_env (Some proof_body) TurnProps.Demo.demo_state).
Qed.

(** A framework that answers an empty text with the first status there is. *)
Definition demo_framework : Framework :=
  {| fw_request := unit;
     fw_reject := fun ex _ => (fun st => {| status := st; headers := ∅; body := None |}) <$> head (rejection_statuses ex);
     fw_timeout := fun st => {| status := st; headers := ∅; body := None |} |}.

#[local] Instance demo_framework_laws : FrameworkLaws demo_framework.
Proof. split; [|done]. intros [] q r [= <-]; split; try done; apply list_elem_of_here. Qed.

(** A queue read that fails, and a refresh whose body is refused. *)
Lemma replies_as_documented_witness :
  (exists r, sent ok_headers iso demo_framework queue_op r /\ status r = 500 /\
     (500 ∈ documented queue_op \/ ("/api/v1/registration/queue", 500) ∈ UNDOCUMENTED)) /\
  exists r, sent ok_headers iso demo_framework refresh_op r /\ status r = 400 /\ (400 ∉ documented refresh_op) /\ body r = None.
Proof.
  split.
  - destruct others_shown as [(r & Hr & Hs) _]. exists r. split; [left; exact Hr|]. split; [exact Hs|].
    destruct (replies_as_documented ok_headers iso demo_framework queue_op r demo_framework_laws (or_introl Hr))
      as [[H _]|(_ & H & _)]; rewrite Hs in H; [exact H|].
    exfalso. vm_compute in H. apply list_elem_of_singleton in H. discriminate H.
  - exists {| status := 400; headers := ∅; body := None |}.
    assert (Hr : refused demo_framework refresh_op {| status := 400; headers := ∅; body := None |})
      by (left; exists ByJson, tt; split; reflexivity).
    split; [right; exact Hr|]. split; [reflexivity|].
    assert (Hn : 400 ∉ documented refresh_op) by (refine (bool_decide_eq_true_1 _ _); vm_compute; reflexivity).
    split; [exact Hn|].
    destruct (replies_as_documented ok_headers iso demo_framework refresh_op _ demo_framework_laws (or_intror Hr))
      as [[_ H]|(_ & _ & H)]; [reflexivity|exact H].
Defined.

(** None of the thirteen is listed in vain: each is answered in some run, and its
    operation does not document it. *)
Definition gaps : list (nat * OpenApi.Operation * Z) :=
  [(5%nat, challenge_op, 429); (5%nat, challenge_op, 500); (6%nat, app_attest_op, 400); (6%nat, app_attest_op, 429);
   (6%nat, app_attest_op, 500); (7%nat, token_op, 400); (7%nat, token_op, 429); (7%nat, token_op, 500);
   (8%nat, refresh_op, 429); (8%nat, refresh_op, 500); (11%nat, queue_op, 500); (12%nat, search_op, 500);
   (16%nat, proof_op, 500)].

Lemma gaps_listed : UNDOCUMENTED = (fun g => (o_path (snd (fst g)), snd g)) <$> gaps.
Proof. reflexivity. Qed.

Lemma gaps_shown : Forall (fun g => shown (snd (fst g)) (snd g)) gaps.
Proof.
  destruct challenge_shown, app_attest_shown as (? & ? & ?), token_shown as (? & ? & ?), refresh_shown, others_shown as (? & ? & ?).
  repeat constructor; assumption.
Qed.

Lemma gaps_reference : Forall (fun g => reference_ops true !! fst (fst g) = Some (snd (fst g))) gaps.
Proof. repeat constructor. Qed.

Lemma gaps_undocumented : forallb (fun g => negb (bool_decide (snd g ∈ documented (snd (fst g))))) gaps = true.
Proof. vm_compute. reflexivity. Qed.

Lemma undocumented_answered p st :
  (p, st) ∈ UNDOCUMENTED -> exists o, o ∈ reference_ops true /\ o_path o = p /\ shown o st /\ (st ∉ documented o).
Proof.
  rewrite gaps_listed. intros ([[i o] st'] & [= -> ->] & Hin)%list_elem_of_fmap. exists o.
  pose proof gaps_shown as Hs. pose proof gaps_reference as Hr. pose proof gaps_undocumented as Hu.
  rewrite Forall_forall in Hs, Hr. rewrite forallb_forall in Hu. specialize (Hs _ Hin). specialize (Hr _ Hin).
  apply list_elem_of_In in Hin. specialize (Hu _ Hin). apply negb_true_iff, bool_decide_eq_false in Hu.
  split; [by eapply list_elem_of_lookup_2|]. by split.
Qed.
End Demo.

End OpenApiProps.
